(* ===== verification/_CoqProject ===== *)
-Q . S2P
Prelude.v
Types.v
Resources.v
Geometry.v
Ring.v
RingSafety.v
RingProgress.v
RingProgram.v
RingSchedule.v
Kernels.v
AllReduce.v
Floats.v
Standalone.v
Collectives.v
Workers.v
Topology.v
Control.v
Communicator.v
Lifetime.v
CApi.v
MpiRuntime.v
Wire.v
Listener.v
SocketProxy.v
RdmaProxy.v
RdmaLink.v
RdmaWrite.v
RdmaWriteLink.v
Bootstrap.v
NetSetup.v
InterProcess.v
MpiShm.v
MpiP2p.v
P2pClose.v
Agreement.v
MpiSetup.v
Buffers.v
Handles.v
EnvVars.v
RdmaDevice.v
P2pStorage.v
GdrFlush.v
RdmaProgress.v
RdmaSetup.v
Timeline.v
Construct.v
Benchmarks.v
BenchCheck.v
BenchTables.v
BenchKernels.v
BenchRun.v
BenchAgree.v
