(* ===== verification/Prelude.v ===== *)
(** * nano-nccl: a verification development

    nano-nccl is a small collective library for GPUs: AllReduce, AllGather and
    ReduceScatter over a ring of ranks with the Simple protocol of NCCL.  Every
    channel of every rank is a thread block that walks its part of the buffer in
    chunks and slices; the ranks exchange slices through FIFOs of eight slots
    guarded by step counters.  A FIFO lies in shared memory, in the memory of a
    peer GPU, or is extended over the network by a pair of proxy threads (TCP
    sockets, or RDMA with one of two data planes).  The communicator validates
    the arguments of a call, provides the storage, launches the kernel and
    tracks its completion; a C interface wraps it.

    ** The parts and how they interact

    Files are listed in dependency order; file names of the program are
    relative to src/src unless they start with include/.

    Foundations
    - Prelude: machine integers with their wrap-around, exceptions, loops over
      lists, reachability, total maps; the lemmas and tactics all files share.
    - Types: include/nano_nccl/types.h and traits.h: build constants (a class,
      so every theorem holds for all numbers of ranks, channels and FIFO sizes
      the headers allow), enumerations, element sizes, reductions.
    - Geometry: transport/simple/geometry.h, protocol.h, step.h and
      collective/all_reduce/ring_simple_geometry.h: channels, chunks, slices.

    The kernels (kernels/ring_simple_kernel.cuh)
    - Ring: the slice primitives as instruction sequences and the step relation
      of one channel on all ranks; one instruction is what happens between two
      accesses to shared words, instructions of different ranks interleave.
    - RingSafety and RingProgress: invariants and progress for any slice
      programs whose sends and receives match; RingProgram is the interface
      (a class) that the collectives discharge; RingSchedule shows that
      programs that walk the ring match.
    - Kernels: the three kernels as programs.  AllReduce and Standalone
      instantiate the interface; Collectives holds the theorems about whole
      launches.
    - Workers: the data movement of one slice by the threads of a block: the
      loops, the vectors they load and store, and the arithmetic on vectors, on
      packed 16-bit pairs and on elements.

    Control plane
    - Topology: collective/all_reduce/topology.cc, transport/p2p/p2p_topology.cu
      and the transport resolution of mpi_communicator.cc.
    - Control: control words, regions and FIFOs and the pointers a launch gets
      (transport/shm/shm_fifo.h, transport/p2p/p2p_fifo.cu,
      p2p_step_counters.cu, transport/simple/connection.h,
      transport/connection.h).  [RingWired] is its promise to the ring.
      P2pStorage: p2p_step_counters.cu and p2p_fifo.cu as owners of device
      memory, with the peer access of a ring of one process.
    - Communicator and Lifetime: collective/all_reduce/communicator.cu, one call
      and any sequence of calls.
    - CApi: c_api.cc, c_api_internal.h; MpiRuntime: mpi_c_api.cc.
    - Resources: programs that acquire and release things and may throw
      ([mem]), with the outcomes of a program and a rule per construct; Buffers:
      core/buffer.cu and core/numa.cu over it; Handles: the classes of
      core/buffer.h and core/stream.h that the library does not use itself, as
      instances of [Owner].  EnvVars: the environment variables of the RDMA
      transport.

    Between processes
    - Wire, Listener, SocketProxy: transport/socket/socket_endpoint.cc and
      socket_proxy.cc: bytes on a connection; the listener, connecting and
      accepting; the proxies.
    - RdmaProxy, RdmaLink (SEND/RECV) and RdmaWrite, RdmaWriteLink (WRITE with
      clear-to-send records): transport/rdma/rdma_proxy.cc, rdma_protocol.h.
    - NetSetup: setup_socket_transport and setup_rdma_transport of
      communicator.cu with the peer records of rdma_protocol.h and the state
      changes of rdma_qp.cc: from connections to proxies.
    - Bootstrap: the network connections of mpi_communicator.cc.
    - InterProcess, MpiShm, MpiP2p, P2pClose: transport/shm/mpi_shm.cc and
      transport/p2p/mpi_p2p.cc.
    - RdmaDevice: transport/rdma/rdma_endpoint.cc, the queue pairs of rdma_qp.cc
      up to INIT, registration of rdma_gdr.cc and the storage of a channel in
      communicator.cu.  GdrFlush: the receive flush of rdma_gdr.cc.
    - RdmaProgress: transport/rdma/rdma_progress.cc, the threads of rdma_proxy.cc
      and the tear-down in communicator.cu.  RdmaSetup: the storage of all
      channels of a process in setup_rdma_transport, and how two processes meet.
    - Timeline: transport/rdma/rdma_proxy_timeline.cc and
      collective/all_reduce/ring_turnaround.h.
    - Construct: the constructor of Communicator::Impl, which puts Topology,
      Buffers, NetSetup, RdmaSetup and RdmaProgress together, with all threads it
      starts (RDMA receivers before the readiness bytes, senders after), and the
      order in which its members are destroyed.
    - Agreement: how programs of several processes compose ([agrees], with a rule
      per construct); MpiSetup: create_communicator_from_mpi of
      mpi_communicator.cc, which runs the two set-ups above among its phases.

    Benchmarks (benchmarks/, outside src/src)
    - Floats: the element types as IEEE formats: [Traits] is traits.h as the host
      sees it, [Ieee] the documented rounding of the CUDA types, with the formats
      of the Standard Library as its instances.
    - Benchmarks: command lines, bench_wait.h and benchmark.cc.  BenchCheck: what
      all_reduce_bench.cu and collective_bench.cu send, expect and compare.
      BenchRun: both programs on all ranks, over MpiSetup and Agreement.
    - BenchTables and BenchKernels: what the kernels leave passes the comparisons.
      BenchAgree: the programs from the command line to the exit code.

    ** State and operations

    The state of a launch is [Ring.state]: the FIFO, counters and byte counts of
    every edge, the program counter, step counters and buffers of every rank,
    and the abort word.  [Ring.act_rank] is one action of a rank.  The
    communicator is [Communicator.Impl], its member functions are state
    transformers that end in a value or an exception; a process owns one rank.
    The proxies are step systems: [SocketProxy] has the two proxy threads, the
    byte stream and both kernels, [RdmaProxy] and [RdmaWrite] the queue pair in
    place of the stream.  Setting up connections is a program over collective
    calls ([InterProcess.spmd]); a process records the resources it holds.
    Set-ups inside one process are programs over a store with a multiset of
    held resources ([Resources.mem]).  The proxies of a process with their
    threads are [RdmaProgress.engine] and a step system for the tear-down.
    CUDA, libibverbs, sockets and MPI are environments: records of what the
    calls answer, failures included, with documented behaviour as hypotheses.

    ** What the theorems show

    - Collectives: the results of the three collectives on every rank in every
      interleaving, NaN propagation, in-order delivery, FIFO bounds, quiescence,
      bounds of all accesses, that every fair schedule of a bounded number of
      rounds returns from all kernels, and that an abort releases every wait.
      [Relaunch] gives an execution in which a launch that starts too early
      overwrites a slot.
    - Workers: every interleaving of the threads of a block has the effect of
      the element-wise instruction of Ring, with the operands in order and the
      scaling of Avg; a packed maximum or minimum of 16-bit elements may be
      another NaN or the other of two equal zeroes ([half2_documented]).
    - Lifetime: when the edges of the rank are [wired], which Construct shows of
      what it builds on views with their storage, a collective that returns has
      launched one kernel whose arguments meet what the theorems on launches ask
      for, on cleared counters and storage that is there; kernels of one communicator are serialised; the
      destructor's first step waits for all work.
      Communicator, CApi: validation is exact, failures are final, statuses tell
      the truth.  MpiRuntime: leases are counted correctly, and what the adapter
      has initialised is finalised once, by the last release.
    - Topology: transport resolution gives only usable kinds.  Control: wiring
      over shared memory and CUDA IPC satisfies [RingWired].  P2pStorage: the
      constructors refine the definitions of Control and leak nothing.
    - Wire, SocketProxy, RdmaLink, RdmaWriteLink: a link between two kernels
      refines a queue of slices; sockets and SEND/RECV always drain.
      [write_grant_lost] is an execution in which WRITE+CTS loses a grant.
    - Listener: descriptors are owned or closed on every path; a peer reaches
      the advertised address and reads the record sent.
    - Bootstrap: all network edges get connected.  NetSetup: the connections
      become one proxy per end and channel, on the words the kernel of that end
      reads; the ends of an RDMA edge match, addresses included, or both throw.
      MpiShm: set-up is all or nothing and leaks nothing.  MpiP2p: set-up is all
      or nothing; [p2p_setup_stuck] is the case that blocks.
      RdmaSetup: the storage of RDMA is set up and owned, or nothing of it
      remains; two processes whose environments allow it end with connected
      queue pairs.  Construct: the constructor owns what its members need or
      leaves nothing behind, and a communicator of a ring has the proxies its
      edges ask for, on the words its kernels use, in the state the theorems of
      Lifetime start from.  RdmaProgress: no thread uses a destroyed proxy, every proxy
      of the shared thread is served in turn until it is drained, and tear-down
      ends.  Buffers, Handles: mapped buffers stay well formed under any
      failures, and owners give back all they have acquired.
      EnvVars, RdmaDevice, GdrFlush: accepted spellings, the first usable device
      is taken, registrations cover their range.  Timeline: statistics are those
      of the samples, and reports can be read back.
      P2pClose: exported memory is freed only after its importer has closed it,
      and the destructors of a failed set-up, run by all ranks at once, leave
      nothing when no call fails and nobody is late; [answers] ties what the
      destructor of one process is told to what the others store.
      MpiSetup: the whole creation is all or nothing under the same condition,
      when all ranks request the same transport, and uses memory transports
      inside a node only.

    - Benchmarks: options are read back exactly, waiting returns only for a
      complete stream without errors.  BenchKernels, BenchAgree: when no call
      fails the ranks of a benchmark meet at every collective call, launch only
      valid arguments and exit with zero after what the kernels leave, or all
      exit with one when the creation is refused or the ranks place the FIFO of
      an RDMA edge differently, and release what they hold; on up to sixteen
      ranks for AllReduce and eight for ReduceScatter, where the tolerances of
      traits.h are enough; [nine_ranks_rejected] shows that they
      are not for nine, [nan_is_accepted] that NaN passes.

    Theorems on single components are stated about the definitions other
    components use: a launch of Communicator carries the arguments of Kernels,
    the wiring of Control is the one MpiShm and MpiP2p produce, the queue of the
    links is what the kernels at both ends see of their FIFO.

    ** Bounds and fuel

    The loops of the kernels take [part_count] rounds as fuel: a round handles
    at least one element, and the theorems on the collectives show that the
    exit test is reached.  [make_sizes] doubles a 64-bit size, 64 rounds are
    enough.  The loops that re-post receives are bounded by the number of
    requests in flight.  [create_region_name] and [create_close_control] make
    the 32 attempts of the source.  [run_ranks] is given the number of
    collective calls on the longest path (five for shared memory, seven for
    CUDA IPC, four for the probe, 27 for the whole creation; a benchmark adds
    two per edge, four per size and one).  A wait of a benchmark is given the number
    of its queries; one whose stream never completes waits for ever.  Sizes, steps, keys and work request
    identifiers are integers at their width.

    ** Not modelled

    - The GPU memory model below acquire and release on the control words, and
      warp-level execution inside a block other than the interleaving of its
      threads.  The arithmetic of the elements is a class of operations; only
      the benchmarks assume that it rounds correctly, and only Workers what the
      packed intrinsics are documented to do.
    - System calls, CUDA, libibverbs and MPI themselves; starting a thread and
      pinning it to a NUMA node are calls that may fail.
    - The places that record samples for the statistics; fault injection, which
      exists for tests.
    - Failing MPI calls: MPI aborts the job by default.
    - What the benchmarks print, their diagnosis of single ranks and the ranges of
      a profiling build; tests. *)

From Stdlib Require Import ZArith Lia Sorted.
From stdpp Require Import base option numbers tactics strings list.

#[local] Open Scope Z_scope.

(** ** Machine integers

    The C++ code computes on [std::uint16_t], [std::uint32_t], [std::uint64_t]
    and [std::size_t] (64 bits wide on the supported platform).  A value of
    such a type is an integer in the range of the type and every operation
    that can leave the range is followed by the wrap-around below. *)

Definition u16 (z : Z) : Z := z mod 2 ^ 16.
Definition u32 (z : Z) : Z := z mod 2 ^ 32.
Definition u64 (z : Z) : Z := z mod 2 ^ 64.

(** Conversion of an unsigned 32-bit value to [int] (two's complement). *)
Definition to_int32 (z : Z) : Z :=
  let w := u32 z in if w <? 2 ^ 31 then w else w - 2 ^ 32.

Definition SIZE_MAX : Z := 2 ^ 64 - 1.

Create HintDb mach.

Lemma u64_range z : 0 <= u64 z < 2 ^ 64.
Proof. apply Z.mod_pos_bound; lia. Qed.

Lemma u32_range z : 0 <= u32 z < 2 ^ 32.
Proof. apply Z.mod_pos_bound; lia. Qed.

Lemma u16_range z : 0 <= u16 z < 2 ^ 16.
Proof. apply Z.mod_pos_bound; lia. Qed.

Lemma u64_small z : 0 <= z < 2 ^ 64 -> u64 z = z.
Proof. apply Z.mod_small. Qed.

Lemma u32_small z : 0 <= z < 2 ^ 32 -> u32 z = z.
Proof. apply Z.mod_small. Qed.

Lemma u16_small z : 0 <= z < 2 ^ 16 -> u16 z = z.
Proof. apply Z.mod_small. Qed.

#[export] Hint Resolve u64_range u32_range u16_range : mach.

(** [solve_u64] rewrites every wrap-around whose argument provably stays in
    range, innermost first. *)
Ltac solve_range := first [ lia | nia ].
Ltac unwrap :=
  repeat match goal with
  | |- context [u64 ?z] => rewrite (u64_small z) by solve_range
  | |- context [u32 ?z] => rewrite (u32_small z) by solve_range
  | |- context [u16 ?z] => rewrite (u16_small z) by solve_range
  end.

(** Linear and mildly non-linear goals with [/] and [mod]. *)
Ltac zdiv := Z.to_euclidean_division_equations; nia.

(** Words put together from disjoint bit fields. *)
Lemma lor_shiftl_add a b n : 0 <= n -> 0 <= a < 2 ^ n ->
  Z.lor a (Z.shiftl b n) = a + b * 2 ^ n.
Proof.
  intros Hn Ha. rewrite Z.shiftl_mul_pow2 by lia.
  assert (2 ^ n <> 0) as Hnz by lia. set (z := Z.lor a (b * 2 ^ n)).
  assert (z / 2 ^ n = b) as Hhi.
  { unfold z. rewrite <- Z.shiftr_div_pow2, Z.shiftr_lor, !Z.shiftr_div_pow2 by lia.
    rewrite Z.div_mul, Z.div_small by lia. apply Z.lor_0_l. }
  assert (z mod 2 ^ n = a) as Hlo.
  { unfold z. rewrite <- Z.land_ones, Z.land_lor_distr_l, !Z.land_ones by lia.
    rewrite Z.mod_mul, Z.mod_small by lia. apply Z.lor_0_r. }
  pose proof (Z.div_mod z (2 ^ n) Hnz) as Hdm. rewrite Hhi, Hlo in Hdm. lia.
Qed.

(** ** Exceptions

    Fallible C++ code throws; the model returns a value of [res].  The
    constructors keep the exception class, because the C ABI maps
    [std::invalid_argument] and every other exception to different statuses. *)

Inductive exn : Type :=
| RuntimeError (what : string)
| InvalidArgument (what : string)
| LogicError (what : string)
| OutOfRange.

Inductive res (A : Type) : Type :=
| Ok (a : A)
| Throw (e : exn).
Arguments Ok {A} a.
Arguments Throw {A} e.

#[export] Instance res_ret : MRet res := fun A a => Ok a.
#[export] Instance res_bind : MBind res := fun A B f m =>
  match m with Ok a => f a | Throw e => Throw e end.
#[export] Instance exn_eq_dec : EqDecision exn.
Proof. solve_decision. Defined.
#[export] Instance res_eq_dec {A} `{EqDecision A} : EqDecision (res A).
Proof. solve_decision. Defined.

(** [check b e] is the guard [if (!b) throw e;]. *)
Definition check (b : bool) (e : exn) : res unit := if b then Ok tt else Throw e.

Lemma bind_ok {A B} (m : res A) (f : A -> res B) b :
  (m ≫= f) = Ok b <-> exists a, m = Ok a /\ f a = Ok b.
Proof.
  split; [|by intros (a & -> & H)].
  destruct m as [a|e]; [|done]. intros H. by exists a.
Qed.

Lemma check_ok b e u : check b e = Ok u <-> b = true.
Proof. destruct b, u; naive_solver. Qed.

(** A loop over a list that threads a state and stops at the first throw. *)
Fixpoint foldM {A S} (f : A -> S -> res S) (l : list A) (s : S) : res S :=
  match l with
  | [] => Ok s
  | a :: l => f a s ≫= foldM f l
  end.

Lemma elem_of_snoc {A} (l : list A) (a x : A) : x ∈ l ++ [a] <-> x ∈ l \/ x = a.
Proof. by rewrite elem_of_app, list_elem_of_singleton. Qed.

(** The loop returns when every round does, and an invariant of the rounds,
    indexed by the rounds already made, holds at the end. *)
Lemma foldM_ok {A S} (f : A -> S -> res S) (I : list A -> S -> Prop) l s :
  I [] s ->
  (forall past a rest s, l = past ++ a :: rest -> I past s ->
     exists s', f a s = Ok s' /\ I (past ++ [a]) s') ->
  exists s', foldM f l s = Ok s' /\ I l s'.
Proof.
  intros H0 Hf. enough (forall past rest s, l = past ++ rest -> I past s ->
    exists s', foldM f rest s = Ok s' /\ I l s') as Hg by by apply (Hg []).
  clear s H0. intros past rest. revert past. induction rest as [|a rest IH]; intros past s -> Hs.
  { rewrite app_nil_r. simpl. eauto. }
  destruct (Hf past a rest s eq_refl Hs) as (s' & Hfa & Hs'). simpl. rewrite Hfa. simpl.
  apply (IH (past ++ [a])); [by rewrite <- app_assoc|done].
Qed.

(** Two loops whose turns keep a relation. *)
Lemma foldM_sim {A S T} (f : A -> S -> res S) (g : A -> T -> res T) (R : S -> T -> Prop) l s t s' :
  R s t ->
  (forall a s t s', a ∈ l -> R s t -> f a s = Ok s' -> exists t', g a t = Ok t' /\ R s' t') ->
  foldM f l s = Ok s' -> exists t', foldM g l t = Ok t' /\ R s' t'.
Proof.
  revert s t. induction l as [|a l IH]; intros s t HR Hstep; simpl; [intros [= <-]; by exists t|].
  destruct (f a s) as [s1|e] eqn:Hf; [|done]. simpl.
  destruct (Hstep a s t s1 ltac:(left) HR Hf) as (t1 & -> & HR1). simpl. apply IH; [done|].
  intros a' x y x' Ha'. apply Hstep. by right.
Qed.

Lemma foldM_app {A S} (f : A -> S -> res S) l1 l2 s :
  foldM f (l1 ++ l2) s = foldM f l1 s ≫= foldM f l2.
Proof.
  revert s. induction l1 as [|a l1 IH]; intros s; simpl; [done|].
  destruct (f a s); simpl; [apply IH|done].
Qed.

Lemma foldM_fmap {X Y S} (f : Y -> S -> res S) (g : X -> Y) l s :
  foldM f (g <$> l) s = foldM (fun x => f (g x)) l s.
Proof. revert s. induction l as [|x l IH]; intros s; [done|]. simpl. destruct (f (g x) s); [apply IH|done]. Qed.

Lemma foldM_ext {A S} (f g : A -> S -> res S) l s : (forall a s, f a s = g a s) -> foldM f l s = foldM g l s.
Proof.
  intros Hfg. revert s. induction l as [|a l IH]; intros s; [done|]. simpl. rewrite Hfg.
  destruct (g a s); [apply IH|done].
Qed.

Lemma foldM_mbind {A B S} (f : B -> S -> res S) (g : A -> list B) l s :
  foldM f (l ≫= g) s = foldM (fun a => foldM f (g a)) l s.
Proof.
  revert s. induction l as [|a l IH]; intros s; [done|]. rewrite bind_cons, foldM_app. simpl.
  destruct (foldM f (g a) s); simpl; [apply IH|done].
Qed.


(** What holds of the end of a loop that returned. *)
Lemma foldM_inv {A S} (f : A -> S -> res S) (I : list A -> S -> Prop) l s s' :
  I [] s ->
  (forall past a rest s s', l = past ++ a :: rest -> I past s -> f a s = Ok s' ->
     I (past ++ [a]) s') ->
  foldM f l s = Ok s' -> I l s'.
Proof.
  intros H0 Hf. enough (forall past rest s, l = past ++ rest -> I past s ->
    foldM f rest s = Ok s' -> I l s') as Hg by by apply (Hg []).
  clear s H0. intros past rest. revert past. induction rest as [|a rest IH]; intros past s -> Hs.
  { rewrite app_nil_r. by intros [= <-]. }
  simpl. destruct (f a s) as [s1|e] eqn:E; simpl; [|done].
  apply (IH (past ++ [a])); [by rewrite <- app_assoc|by eapply Hf].
Qed.

(** [for (x : l) if (!p(x)) throw e(x);] *)
Fixpoint check_all {A} (p : A -> bool) (e : A -> exn) (l : list A) : res unit :=
  match l with
  | [] => Ok tt
  | a :: l => if p a then check_all p e l else Throw (e a)
  end.

Lemma check_all_ok {A} (p : A -> bool) e l u :
  check_all p e l = Ok u <-> Forall (fun a => p a = true) l.
Proof.
  induction l as [|a l IH]; simpl.
  - destruct u. split; [constructor|done].
  - rewrite Forall_cons. destruct (p a); rewrite ?IH; [tauto|by split; [|intros []]].
Qed.

(** ** Reflexive-transitive closure of a step relation *)

Section Closure.
Context {S : Type} (R : S -> S -> Prop).

Inductive steps : S -> S -> Prop :=
| steps_refl s : steps s s
| steps_snoc s1 s2 s3 : steps s1 s2 -> R s2 s3 -> steps s1 s3.

Lemma steps_trans s1 s2 s3 : steps s1 s2 -> steps s2 s3 -> steps s1 s3.
Proof. intros H1 H2. induction H2; eauto using steps. Qed.

Lemma steps_once s1 s2 : R s1 s2 -> steps s1 s2.
Proof. eauto using steps. Qed.

(** Invariants by rule induction. *)
Lemma steps_invariant (I : S -> Prop) :
  (forall s s', I s -> R s s' -> I s') ->
  forall s s', I s -> steps s s' -> I s'.
Proof. intros HI s s' Hs Hst. induction Hst; eauto. Qed.

(** A state from which every reachable unfinished state has a step that
    decreases a measure can reach a finished state. *)
Lemma steps_terminate (I fin : S -> Prop) (m : S -> nat) :
  (forall s s', I s -> R s s' -> I s') ->
  (forall s, I s -> fin s \/ exists s', steps s s' /\ (m s' < m s)%nat) ->
  forall s, I s -> exists s', steps s s' /\ fin s'.
Proof.
  intros HI Hprog s. remember (m s) as k eqn:Hk. revert s Hk.
  induction (lt_wf k) as [k _ IH]; intros s -> Hs.
  destruct (Hprog s Hs) as [Hf|(s' & Hst & Hlt)]; [by eauto using steps|].
  destruct (IH _ Hlt s' eq_refl) as (s'' & Hst' & Hf).
  { by eapply steps_invariant. }
  eauto using steps_trans.
Qed.
End Closure.

#[export] Hint Constructors steps : core.

(** Runs of a list of actions, each of which may be disabled. *)
Section RunList.
Context {A S : Type} (act : A -> S -> option S).

Fixpoint run_list (l : list A) (s : S) : option S :=
  match l with
  | [] => Some s
  | a :: l => s' ← act a s; run_list l s'
  end.

Lemma run_list_steps (R : S -> S -> Prop) l s s' :
  Forall (fun a => forall s s', act a s = Some s' -> R s s') l ->
  run_list l s = Some s' -> steps R s s'.
Proof.
  intros Hl. revert s. induction Hl as [|a l Ha _ IH]; simpl; intros s; [by intros [= ->]|].
  intros (s1 & H1 & H2)%bind_Some. eapply steps_trans; [|by apply IH]. by eapply steps_once, Ha.
Qed.
End RunList.
#[export] Hint Resolve steps_trans steps_once : core.

(** ** Total maps on integers

    Arrays indexed by a rank, an edge, a slot or an element are total maps
    [Z -> A]; every theorem that reads one states the range it speaks of. *)

Definition upd {A} (f : Z -> A) (k : Z) (a : A) : Z -> A :=
  fun k' => if k' =? k then a else f k'.

Lemma upd_eq {A} (f : Z -> A) k a : upd f k a k = a.
Proof. unfold upd. by rewrite Z.eqb_refl. Qed.

Lemma upd_ne {A} (f : Z -> A) k k' a : k' <> k -> upd f k a k' = f k'.
Proof. intros H. unfold upd. destruct (Z.eqb_spec k' k); [lia|done]. Qed.

(** A block of [n] elements written at [off]. *)
Definition blit {A} (dst : Z -> A) (off n : Z) (src : Z -> A) : Z -> A :=
  fun i => if (off <=? i) && (i <? off + n) then src (i - off) else dst i.

Lemma blit_in {A} (dst src : Z -> A) off n i :
  off <= i < off + n -> blit dst off n src i = src (i - off).
Proof.
  intros H. unfold blit.
  destruct (Z.leb_spec off i), (Z.ltb_spec i (off + n)); simpl; try lia; done.
Qed.

Lemma blit_out {A} (dst src : Z -> A) off n i :
  ~ (off <= i < off + n) -> blit dst off n src i = dst i.
Proof.
  intros H. unfold blit.
  destruct (Z.leb_spec off i), (Z.ltb_spec i (off + n)); simpl; try lia; done.
Qed.

(** ** Integer ranges *)

Definition zrange (n : Z) : list Z := seqZ 0 n.

Lemma elem_of_zrange i n : i ∈ zrange n <-> 0 <= i < n.
Proof. unfold zrange. rewrite elem_of_seqZ. lia. Qed.

(** ** Rounds of turns

    [n] parties take turns.  When no turn takes a party back and, once all have
    reached a level below [top], a turn of a party takes it to the next one,
    every round of turns gains a level. *)

Section Rounds.
Context {S : Type} (n : Z) (turn : Z -> S -> S) (I : S -> Prop) (level : S -> Z -> Z) (top : Z).

Definition turn_round (s : S) : S := foldl (fun s r => turn r s) s (zrange n).

Context (Hinv : forall r s, 0 <= r < n -> I s -> I (turn r s)).
Context (Hmono : forall r s x, level s x <= level (turn r s) x).
Context (Hadv : forall r s k, 0 <= r < n -> I s -> 0 <= k < top ->
  (forall x, 0 <= x < n -> k <= level s x) -> k + 1 <= level (turn r s) r).

Lemma turn_round_level s k : I s -> 0 <= k < top -> (forall x, 0 <= x < n -> k <= level s x) ->
  I (turn_round s) /\ forall x, 0 <= x < n -> k + 1 <= level (turn_round s) x.
Proof.
  intros Hs Hk Hall. unfold turn_round.
  enough (forall l, (forall x, x ∈ l -> 0 <= x < n) -> let s' := foldl (fun s r => turn r s) s l in
    I s' /\ (forall x, 0 <= x < n -> k <= level s' x) /\ forall x, x ∈ l -> k + 1 <= level s' x) as Hl.
  { destruct (Hl (zrange n)) as (? & _ & Hd); [by intros x ?%elem_of_zrange|].
    split; [done|]. intros x Hx. by apply Hd, elem_of_zrange. }
  induction l as [|r l IH] using rev_ind; intros Hin.
  { split; [done|]. split; [done|]. by intros ? Hx%elem_of_nil. }
  destruct IH as (Hs' & Hk' & Hd); [intros x Hx; apply Hin, elem_of_app; by left|].
  rewrite foldl_app. simpl. set (s' := foldl _ s l) in *.
  assert (0 <= r < n) as Hr by (apply Hin, elem_of_app; right; left).
  split; [by apply Hinv|]. split; intros x Hx.
  - etrans; [by apply Hk'|apply Hmono].
  - apply elem_of_snoc in Hx as [Hx| ->]; [etrans; [by apply Hd|apply Hmono]|]. by apply Hadv.
Qed.

Lemma turn_rounds_level s m : I s -> (forall x, 0 <= x < n -> 0 <= level s x) -> Z.of_nat m <= top ->
  I (Nat.iter m turn_round s) /\
  forall x, 0 <= x < n -> Z.of_nat m <= level (Nat.iter m turn_round s) x.
Proof.
  intros Hs H0. induction m as [|m IH]; intros Hm; [done|]. destruct IH as [Hs' Hl]; [lia|].
  destruct (turn_round_level (Nat.iter m turn_round s) (Z.of_nat m)) as [Hs'' Hl']; [done|lia|done|].
  split; [done|]. intros x Hx. specialize (Hl' x Hx). simpl. lia.
Qed.
End Rounds.

(** A case distinction on every index. *)
Lemma zrange_split n past a rest : zrange n = past ++ a :: rest ->
  past = zrange a /\ 0 <= a < n /\ length past = Z.to_nat a.
Proof.
  intros Hz.
  assert (length past < length (zrange n))%nat as Hl by (rewrite Hz, length_app; simpl; lia).
  unfold zrange in *. rewrite length_seqZ in Hl.
  pose proof (list_lookup_middle past rest a (length past) eq_refl) as Ha.
  rewrite <- Hz, lookup_seqZ in Ha. destruct Ha as [Ha ?].
  assert (past = take (length past) (seqZ 0 n)) as Hp by by rewrite Hz, take_app_length.
  split_and!; [|lia|lia|lia]. rewrite Hp at 1. apply list_eq. intros i.
  apply option_eq. intros x. rewrite lookup_take_Some, !lookup_seqZ. lia.
Qed.

(** A loop over [0 .. n - 1] that writes element [i] of a vector in round [i]. *)
Section Write.
Context {A : Type} (f : Z -> list A -> res (list A)) (target : Z -> A) (n : Z) (l0 : list A).
Context (Hlen : length l0 = Z.to_nat n).

Definition written (past : list Z) (l : list A) : Prop :=
  l = (target <$> past) ++ drop (length past) l0.

Lemma written_at past i rest l : zrange n = past ++ i :: rest -> written past l ->
  l !! Z.to_nat i = l0 !! Z.to_nat i /\
  written (past ++ [i]) (<[Z.to_nat i := target i]> l).
Proof.
  intros Hz ->. destruct (zrange_split _ _ _ _ Hz) as (_ & Hi & Hp). split.
  - rewrite lookup_app_r by (rewrite length_fmap; lia).
    rewrite length_fmap, lookup_drop. f_equal. lia.
  - unfold written. rewrite insert_app_r_alt by (rewrite length_fmap; lia).
    rewrite length_fmap, Hp, Nat.sub_diag, fmap_app, <- app_assoc, length_app, Hp.
    destruct (lookup_lt_is_Some_2 l0 (Z.to_nat i)) as [x Hx]; [lia|].
    rewrite (drop_S l0 x (Z.to_nat i) Hx). simpl. do 3 f_equal. lia.
Qed.

Lemma written_all l : written (zrange n) l -> l = target <$> zrange n.
Proof.
  intros ->. unfold zrange. rewrite length_seqZ, drop_ge, app_nil_r by lia. done.
Qed.

Lemma foldM_write :
  (forall i l, 0 <= i < n -> l !! Z.to_nat i = l0 !! Z.to_nat i ->
     f i l = Ok (<[Z.to_nat i := target i]> l)) ->
  foldM f (zrange n) l0 = Ok (target <$> zrange n).
Proof.
  intros Hf. destruct (foldM_ok f written (zrange n) l0) as (l & -> & Hw); [done| |].
  - intros past i rest l Hz Hw. destruct (written_at past i rest l Hz Hw).
    destruct (zrange_split _ _ _ _ Hz) as (_ & Hi & _). eauto.
  - f_equal. by apply written_all.
Qed.

Lemma foldM_write_inv (P : Z -> Prop) l :
  (forall i l l', 0 <= i < n -> f i l = Ok l' ->
     l' = <[Z.to_nat i := target i]> l /\ P i) ->
  foldM f (zrange n) l0 = Ok l ->
  l = target <$> zrange n /\ forall i, 0 <= i < n -> P i.
Proof.
  intros Hf Hl.
  apply (foldM_inv f (fun past l => written past l /\ forall i, i ∈ past -> P i)) in Hl as [Hw HP].
  - split; [by apply written_all|]. intros i Hi. apply HP, elem_of_zrange, Hi.
  - split; [done|]. by intros i ?%elem_of_nil.
  - intros past i rest k k' Hz [Hw HP] Hfi.
    destruct (zrange_split _ _ _ _ Hz) as (_ & Hi & _).
    destruct (Hf i k k' Hi Hfi) as [-> HPi]. split; [by eapply written_at|].
    by intros j [?| ->]%elem_of_snoc; [apply HP|].
Qed.
End Write.

Lemma zrange_or n (P : Z -> Prop) (Q : Prop) :
  (forall i, 0 <= i < n -> P i \/ Q) -> (forall i, 0 <= i < n -> P i) \/ Q.
Proof.
  intros H. cut ((forall i, i ∈ zrange n -> P i) \/ Q).
  { intros [?|?]; [|by right]. left. intros i Hi. by apply H0, elem_of_zrange. }
  assert (forall i, i ∈ zrange n -> P i \/ Q) as Hl by (intros i ?%elem_of_zrange; auto).
  clear H. induction (zrange n) as [|k l IH]; [left; by intros ? ?%elem_of_nil|].
  destruct IH as [IH|?]; [intros; by apply Hl, elem_of_cons; right| |by right].
  destruct (Hl k) as [?|?]; [by apply elem_of_cons; left| |by right].
  left. intros i [->|?]%elem_of_cons; auto.
Qed.

(** ** Filtered prefixes of a list *)

Lemma omap_split {A B} (f : A -> option B) l k a : l !! k = Some a ->
  omap f l = omap f (take k l) ++ omap f [a] ++ omap f (drop (S k) l).
Proof. intros Hk. rewrite <- !omap_app. simpl. by rewrite take_drop_middle. Qed.

Lemma omap_take_lookup {A B} (f : A -> option B) l k a m :
  l !! k = Some a -> f a = Some m ->
  omap f l !! length (omap f (take k l)) = Some m.
Proof.
  intros Hk Hf. rewrite (omap_split f l k a Hk). simpl. rewrite Hf. simpl.
  by rewrite list_lookup_middle.
Qed.

Lemma omap_take_S {A B} (f : A -> option B) l k a : l !! k = Some a ->
  omap f (take (S k) l) = omap f (take k l) ++ option_list (f a).
Proof. intros Hk. rewrite (take_S_r _ _ _ Hk), omap_app. simpl. by destruct (f a). Qed.

Lemma length_omap_le {A B} (f : A -> option B) l : (length (omap f l) <= length l)%nat.
Proof. induction l as [|a l IH]; csimpl; [lia|]. destruct (f a); csimpl; lia. Qed.

Lemma length_omap_take {A B} (f : A -> option B) l k :
  (length (omap f (take k l)) <= length (omap f l))%nat.
Proof.
  pose proof (f_equal (fun l => length (omap f l)) (take_drop k l)) as Hl.
  simpl in Hl. rewrite omap_app, length_app in Hl. lia.
Qed.

(** The next message of a filtered list comes from the rest of the list. *)
Lemma omap_drop_lookup {A B} (f : A -> option B) l p m :
  omap f l !! length (omap f (take p l)) = Some m ->
  exists b, b ∈ drop p l /\ f b = Some m.
Proof.
  assert (omap f l = omap f (take p l) ++ omap f (drop p l)) as ->
    by (by rewrite <- omap_app, take_drop).
  rewrite lookup_app_r, Nat.sub_diag by done.
  intros (b & ? & ?)%list_elem_of_lookup_2%list_elem_of_omap. by exists b.
Qed.

(** ** Strictly sorted lists of integers *)

Section SortedGap.
Context {A : Type} (f : A -> Z).

Lemma sorted_lookup_lt l i j x y : StronglySorted (fun x y => f x < f y) l ->
  (i < j)%nat -> l !! i = Some x -> l !! j = Some y -> f x < f y.
Proof.
  intros Hs. revert i j. induction Hs as [|a l Hs IH Hall]; intros i j Hij Hi Hj; [done|].
  destruct j as [|j]; [lia|]. simpl in Hj. destruct i as [|i]; simpl in Hi.
  - simplify_eq. rewrite Forall_forall in Hall. apply Hall. by eapply list_elem_of_lookup_2.
  - eapply (IH i j); [lia|done..].
Qed.

Lemma sorted_gap l i j x y : StronglySorted (fun x y => f x < f y) l ->
  (i <= j)%nat -> l !! i = Some x -> l !! j = Some y -> f x + Z.of_nat (j - i) <= f y.
Proof.
  intros Hs Hij Hi. revert y. induction Hij as [|j Hij IH]; intros y Hj.
  - rewrite Hi in Hj. simplify_eq. lia.
  - destruct (lookup_lt_is_Some_2 l j) as [z Hz].
    { apply lookup_lt_Some in Hj. lia. }
    specialize (IH z Hz).
    pose proof (sorted_lookup_lt l j (S j) z y Hs ltac:(lia) Hz Hj). lia.
Qed.
End SortedGap.

(** A concatenation is sorted when each part is sorted within a window and
    the windows are ordered. *)
Lemma sorted_bind {A B} (f : B -> Z) (g : A -> list B) (lo : A -> Z) (wd : Z) (l : list A) :
  (forall a b, a ∈ l -> b ∈ g a -> lo a <= f b < lo a + wd) ->
  (forall a, a ∈ l -> StronglySorted (fun x y => f x < f y) (g a)) ->
  StronglySorted (fun a a' => lo a + wd <= lo a') l ->
  StronglySorted (fun x y => f x < f y) (l ≫= g).
Proof.
  intros Hw Hg Hl. induction Hl as [|a l Hl IH Hall]; csimpl; [constructor|].
  assert (forall x, x ∈ l -> x ∈ a :: l) as Hin by (intros; apply elem_of_cons; auto).
  assert (StronglySorted (fun x y => f x < f y) (l ≫= g)) as IH' by (apply IH; eauto).
  assert (forall b c, b ∈ g a -> c ∈ l ≫= g -> f b < f c) as Hlt.
  { intros b c Hb (a' & Hc & Ha')%list_elem_of_bind.
    rewrite Forall_forall in Hall. specialize (Hall a' Ha').
    pose proof (Hw a b ltac:(apply elem_of_cons; auto) Hb).
    pose proof (Hw a' c ltac:(auto) Hc). lia. }
  specialize (Hg a ltac:(apply elem_of_cons; auto)). clear -Hg IH' Hlt.
  induction Hg as [|b l' Hg IH2 Hall]; simpl; [done|]. constructor.
  - apply IH2. intros b' c Hb'. apply Hlt, elem_of_cons. auto.
  - apply Forall_app. split; [done|]. apply Forall_forall.
    intros c Hc. apply Hlt; [apply elem_of_cons; auto|done].
Qed.

Lemma sorted_of_lookup {A} (R : A -> A -> Prop) (l : list A) :
  (forall i j x y, (i < j)%nat -> l !! i = Some x -> l !! j = Some y -> R x y) ->
  StronglySorted R l.
Proof.
  induction l as [|a l IH]; intros H; constructor.
  - apply IH. intros i j x y Hij Hx Hy. apply (H (S i) (S j)); [lia|done..].
  - apply Forall_forall. intros b [k Hb]%list_elem_of_lookup.
    apply (H 0%nat (S k)); [lia|done..].
Qed.

Lemma omap_bind {A B C} (g : B -> option C) (f : A -> list B) l :
  omap g (l ≫= f) = l ≫= (fun x => omap g (f x)).
Proof. induction l as [|a l IH]; csimpl; [done|]. by rewrite omap_app, IH. Qed.

Lemma fmap_bind_list {A B C} (g : B -> C) (f : A -> list B) l :
  g <$> (l ≫= f) = l ≫= (fun x => g <$> f x).
Proof. induction l as [|a l IH]; csimpl; [done|]. by rewrite fmap_app, IH. Qed.

Lemma bind_ext_in {A B} (f g : A -> list B) (l : list A) :
  (forall x, x ∈ l -> f x = g x) -> l ≫= f = l ≫= g.
Proof.
  induction l as [|a l IH]; intros H; csimpl; [done|].
  rewrite H by (apply elem_of_cons; auto). f_equal.
  apply IH. intros. apply H, elem_of_cons. auto.
Qed.

Lemma bind_fmap_list {A B C} (f : A -> B) (g : B -> list C) l :
  (f <$> l) ≫= g = l ≫= (fun x => g (f x)).
Proof. induction l as [|a l IH]; csimpl; [done|]. by rewrite IH. Qed.

Lemma omap_all {A B} (f : A -> option B) (g : A -> B) (l : list A) :
  (forall x, x ∈ l -> f x = Some (g x)) -> omap f l = g <$> l.
Proof.
  induction l as [|a l IH]; intros H; csimpl; [done|].
  rewrite H by (apply elem_of_cons; auto). f_equal. apply IH. intros. apply H, elem_of_cons. auto.
Qed.

Lemma omap_none {A B} (f : A -> option B) (l : list A) :
  (forall x, x ∈ l -> f x = None) -> omap f l = [].
Proof.
  induction l as [|a l IH]; intros H; csimpl; [done|].
  rewrite H by (apply elem_of_cons; auto). apply IH. intros. apply H, elem_of_cons. auto.
Qed.

Lemma filter_all {A} (P : A -> Prop) `{!forall x, Decision (P x)} (l : list A) :
  (forall x, x ∈ l -> P x) -> filter P l = l.
Proof.
  induction l as [|a l IH]; intros Hp; [done|].
  rewrite filter_cons_True by (apply Hp, elem_of_cons; by left).
  f_equal. apply IH. intros. apply Hp, elem_of_cons. by right.
Qed.

Lemma filter_nothing {A} (P : A -> Prop) `{!forall x, Decision (P x)} (l : list A) :
  (forall x, x ∈ l -> ~ P x) -> filter P l = [].
Proof.
  induction l as [|a l IH]; intros Hp; [done|].
  rewrite filter_cons_False by (apply Hp, elem_of_cons; by left).
  apply IH. intros. apply Hp, elem_of_cons. by right.
Qed.

(** ** Tilings

    [tiles l a b]: the segments [(offset, length)] of [l], in order, are
    non-empty, adjacent and cover exactly [a, b). *)

Fixpoint tiles (l : list (Z * Z)) (a b : Z) : Prop :=
  match l with
  | [] => a = b
  | (o, w) :: l => o = a /\ 0 < w /\ tiles l (a + w) b
  end.

Lemma tiles_app l1 l2 a b :
  tiles (l1 ++ l2) a b <-> exists m, tiles l1 a m /\ tiles l2 m b.
Proof.
  revert a. induction l1 as [|[o w] l1 IH]; intros a; simpl.
  - split; [by exists a|by intros (? & -> & ?)].
  - rewrite IH. split.
    + intros (-> & Hw & m & H1 & H2). by exists m.
    + intros (m & (-> & Hw & H1) & H2). split_and!; [done..|]. by exists m.
Qed.

Lemma tiles_le l a b : tiles l a b -> a <= b.
Proof.
  revert a. induction l as [|[o w] l IH]; intros a; simpl; [lia|].
  intros (_ & ? & ?%IH). lia.
Qed.

Lemma tiles_bounds l a b o w :
  tiles l a b -> (o, w) ∈ l -> a <= o /\ 0 < w /\ o + w <= b.
Proof.
  revert a. induction l as [|[o' w'] l IH]; intros a; simpl; [by intros _ ?%elem_of_nil|].
  intros (-> & Hw & Ht) [[= -> ->]|Hin]%elem_of_cons.
  - apply tiles_le in Ht. lia.
  - specialize (IH _ Ht Hin). lia.
Qed.

(** Every index lies in exactly one segment. *)
Lemma tiles_cover l a b i : tiles l a b -> a <= i < b ->
  exists k o w, l !! k = Some (o, w) /\ o <= i < o + w /\
    forall k' o' w', l !! k' = Some (o', w') -> o' <= i < o' + w' -> k' = k.
Proof.
  revert a. induction l as [|[o w] l IH]; intros a; simpl; [intros; lia|].
  intros (-> & Hw & Ht) Hi. destruct (decide (i < a + w)) as [Hlt|Hge].
  - exists 0%nat, a, w. split_and!; [done|lia|lia|].
    intros [|k'] o' w' Hk Hi'; [done|]. simpl in Hk.
    apply list_elem_of_lookup_2 in Hk.
    destruct (tiles_bounds _ _ _ _ _ Ht Hk). lia.
  - destruct (IH _ Ht) as (k & o & w' & Hk & Hin & Hu); [lia|].
    exists (S k), o, w'. split_and!; [done|lia|lia|].
    intros [|k'] o' w'' Hk' Hi'; simpl in Hk'; [simplify_eq; lia|].
    f_equal. by eapply Hu.
Qed.

(** ** Ring arithmetic *)

Lemma mod_ring_range a n : 0 < n -> 0 <= a mod n < n.
Proof. intros. by apply Z.mod_pos_bound. Qed.
#[export] Hint Resolve mod_ring_range : mach.

Lemma mod_congr k n x y : n <> 0 -> x = y + k * n -> x mod n = y mod n.
Proof. intros ? ->. by apply Z.mod_add. Qed.

Lemma mod_unique n x y : 0 <= y < n -> (exists k, x = y + k * n) -> x mod n = y.
Proof. intros ? [k ->]. rewrite Z.mod_add by lia. by apply Z.mod_small. Qed.

(** A non-decreasing sequence of cuts from 0 to [N] puts every index into
    exactly one segment. *)
Section Cuts.
Context (f : Z -> Z) (K : Z).
Context (Hmono : forall c, 0 <= c < K -> f c <= f (c + 1)).

Lemma cuts_mono a b : 0 <= a <= b -> b <= K -> f a <= f b.
Proof.
  intros [Ha Hab] Hb. revert Hb. pattern b.
  apply Zlt_lower_bound_ind with (z := a); [|done]. clear b Hab. intros b IH Hab Hb.
  destruct (decide (a = b)) as [->|]; [lia|].
  specialize (IH (b - 1) ltac:(lia) ltac:(lia)). pose proof (Hmono (b - 1) ltac:(lia)) as Hm.
  replace (b - 1 + 1) with b in Hm by lia. lia.
Qed.

Lemma cuts_segment i : 0 <= K -> f 0 <= i < f K ->
  exists c, 0 <= c < K /\ f c <= i < f (c + 1).
Proof.
  intros HK. revert Hmono. pattern K. apply natlike_ind; [| |done].
  - intros; lia.
  - clear HK. intros k Hk IH Hm Hi. replace (Z.succ k) with (k + 1) in * by lia.
    destruct (decide (i < f k)) as [Hlt|Hge].
    + destruct IH as (c & Hc & ?); [intros; apply Hm; lia|lia|]. exists c. lia.
    + exists k. lia.
Qed.

Lemma cuts_unique i c c' : 0 <= c < K -> 0 <= c' < K ->
  f c <= i < f (c + 1) -> f c' <= i < f (c' + 1) -> c = c'.
Proof.
  intros Hc Hc' Hi Hi'. destruct (Z.lt_trichotomy c c') as [Hlt|[?|Hlt]]; [|done|].
  - pose proof (cuts_mono (c + 1) c'). lia.
  - pose proof (cuts_mono (c' + 1) c). lia.
Qed.
End Cuts.

(** ** Binds up to order *)

Lemma bind_app_perm {A B} (f g : A -> list B) l :
  (l ≫= fun x => f x ++ g x) ≡ₚ (l ≫= f) ++ (l ≫= g).
Proof.
  induction l as [|x l IH]; simpl; [done|]. rewrite IH, <- !app_assoc.
  apply Permutation_app_head. rewrite !app_assoc. apply Permutation_app_tail, Permutation_app_comm.
Qed.

Lemma bind_swap {A B C} (f : A -> B -> list C) l1 l2 :
  (l1 ≫= fun x => l2 ≫= fun y => f x y) ≡ₚ (l2 ≫= fun y => l1 ≫= fun x => f x y).
Proof.
  induction l1 as [|x l1 IH]; simpl.
  - induction l2; simpl; done.
  - rewrite IH. by rewrite <- bind_app_perm.
Qed.

Lemma bind_perm_ext {A B} (f g : A -> list B) l :
  (forall x, x ∈ l -> f x ≡ₚ g x) -> (l ≫= f) ≡ₚ (l ≫= g).
Proof.
  intros Hfg. induction l as [|x l IH]; simpl; [done|].
  rewrite (Hfg x) by (apply elem_of_cons; by left).
  apply Permutation_app_head, IH. intros y Hy. apply Hfg, elem_of_cons. by right.
Qed.

(** A bind in which only one element of a duplicate-free list contributes. *)
Lemma bind_only {A B} `{EqDecision A} (l : list A) a (b : list B) : NoDup l -> a ∈ l ->
  (l ≫= fun x => if bool_decide (x = a) then b else []) = b.
Proof.
  intros Hnd. induction Hnd as [|x l Hx Hnd IH]; [by intros ?%elem_of_nil|]. simpl.
  intros [->|Ha]%elem_of_cons.
  - rewrite bool_decide_true by done. rewrite <- (app_nil_r b) at 2. f_equal.
    clear IH Hnd. induction l as [|y l IH]; simpl; [done|].
    apply not_elem_of_cons in Hx as [Hy Hx]. rewrite bool_decide_false by congruence.
    simpl. by apply IH.
  - rewrite bool_decide_false by (intros ->; done). simpl. by apply IH.
Qed.
