(* ===== verification/Types.v ===== *)
(** * Public types (include/nano_nccl/types.h, traits.h, src/benchmark.cc)

    The build-time constants as a class, the public enumerations with their
    names and parsers, the element sizes and reductions of the traits, and the
    size sweep of the benchmark helper. *)

From Stdlib Require Import ZArith Lia.
From stdpp Require Import base option numbers tactics strings list.
From S2P Require Import Prelude.

#[local] Open Scope Z_scope.

(** ** Build-time constants

    [NANO_NCCL_NRANKS], [NANO_NCCL_NCHANNELS], [NANO_NCCL_BLOCK_THREADS],
    [NANO_NCCL_FLOAT4_UNROLL] and [NANO_NCCL_FIFO_BUFF_BYTES] are injected by
    CMake; the laws are the [static_assert]s of the headers. *)

Class BuildConfig := {
  kRanks : Z;
  kChannels : Z;
  kBlockThreads : Z;
  kFloat4Unroll : Z;
  kFifoBytes : Z;
  kRanks_pos : 0 < kRanks;
  kChannels_pos : 0 < kChannels;
  kBlockThreads_ok : 0 < kBlockThreads /\ kBlockThreads mod 32 = 0;
  kFloat4Unroll_ok : kFloat4Unroll = 1 \/ kFloat4Unroll = 8;
  kFifoBytes_pos : 0 < kFifoBytes;
}.

#[export] Hint Resolve kRanks_pos kChannels_pos kFifoBytes_pos : mach.

(** The defaults of the headers: 4 ranks, 4 channels, 288 threads. *)
Definition default_config : BuildConfig.
Proof.
  refine {| kRanks := 4; kChannels := 4; kBlockThreads := 288;
            kFloat4Unroll := 8; kFifoBytes := 33554432 |};
    first [ lia | split; [lia | reflexivity] | by right ].
Defined.

(** A three-rank, two-channel build with small FIFOs, used by witnesses. *)
Definition small_config : BuildConfig.
Proof.
  refine {| kRanks := 3; kChannels := 2; kBlockThreads := 96;
            kFloat4Unroll := 1; kFifoBytes := 1024 |};
    first [ lia | split; [lia | reflexivity] | by left ].
Defined.

(** ** Enumerations *)

Inductive DType := Float | Float16 | BFloat16.
Inductive TransportKind := Auto | Shm | P2p | Socket | Rdma | Mixed.
Inductive RedOp := Sum | Avg | Max | Min.

#[export] Instance DType_eq_dec : EqDecision DType.
Proof. solve_decision. Defined.
#[export] Instance TransportKind_eq_dec : EqDecision TransportKind.
Proof. solve_decision. Defined.
#[export] Instance RedOp_eq_dec : EqDecision RedOp.
Proof. solve_decision. Defined.

Definition transport_name (t : TransportKind) : string :=
  match t with
  | Auto => "auto" | Shm => "shm" | P2p => "p2p"
  | Socket => "socket" | Rdma => "rdma" | Mixed => "mixed"
  end.

(** [Some k] is the output parameter written and [true] returned. *)
Definition parse_transport (text : string) : option TransportKind :=
  if decide (text = "auto") then Some Auto
  else if decide (text = "shm") then Some Shm
  else if decide (text = "p2p") then Some P2p
  else if decide (text = "socket") then Some Socket
  else if decide (text = "rdma") then Some Rdma
  else None.

Definition dtype_name (d : DType) : string :=
  match d with Float => "float" | Float16 => "fp16" | BFloat16 => "bf16" end.

Definition parse_dtype (text : string) : option DType :=
  if decide (text = "float") then Some Float
  else if decide (text = "fp16") then Some Float16
  else if decide (text = "bf16") then Some BFloat16
  else None.

Definition redop_name (r : RedOp) : string :=
  match r with Sum => "sum" | Avg => "avg" | Max => "max" | Min => "min" end.

Definition parse_redop (text : string) : option RedOp :=
  if decide (text = "sum") then Some Sum
  else if decide (text = "avg") then Some Avg
  else if decide (text = "max") then Some Max
  else if decide (text = "min") then Some Min
  else None.

(** ** Traits *)

(** [DTypeTraits<D>::kSize], which is [sizeof(T)]. *)
Definition dtype_size (d : DType) : Z :=
  match d with Float => 4 | Float16 => 2 | BFloat16 => 2 end.

Lemma dtype_size_cases d : dtype_size d = 4 \/ dtype_size d = 2.
Proof. destruct d; simpl; auto. Qed.

(** The arithmetic of the element type is the GPU's; the code uses these
    operations of it. *)
Class FloatOps (T : Type) := {
  fadd : T -> T -> T;       (* a + b, __hadd *)
  fmul : T -> T -> T;       (* a * b, __hmul *)
  fneq : T -> T -> bool;    (* a != b *)
  fgt : T -> T -> bool;     (* a > b *)
  flt : T -> T -> bool;     (* a < b *)
}.

Section RedOpTraits.
Context {T : Type} `{FloatOps T}.

(** [RedOpTraits<R, T>::apply]: NaN, the only value different from itself,
    wins over any other operand of max and min. *)
Definition redop_apply (r : RedOp) (a b : T) : T :=
  match r with
  | Sum | Avg => fadd a b
  | Max => if fneq a a then a else if fneq b b then b
           else if fgt a b then a else b
  | Min => if fneq a a then a else if fneq b b then b
           else if flt a b then a else b
  end.

(** [scale_avg]: multiplication by [1 / nranks] converted to the element
    type; [inverse] stands for that converted value. *)
Definition scale_avg (inverse value : T) : T := fmul value inverse.

(** The value a final reduction stores: only Avg scales. *)
Definition redop_finish (r : RedOp) (inverse value : T) : T :=
  match r with Avg => scale_avg inverse value | _ => value end.
End RedOpTraits.

(** ** Benchmark size sweep: [make_sizes] *)

Fixpoint make_sizes_loop (fuel : nat) (size max_bytes factor : Z) : list Z :=
  match fuel with
  | O => []
  | S fuel =>
      if size <=? max_bytes then
        size :: (if SIZE_MAX / factor <? size then []
                 else make_sizes_loop fuel (u64 (size * factor)) max_bytes factor)
      else []
  end.

(** A size at least doubles in every round and stays below [2 ^ 64], so 64
    rounds are all the loop can make. *)
Definition make_sizes (min_bytes max_bytes factor : Z) : list Z :=
  if (min_bytes =? 0) || (max_bytes <? min_bytes) || (factor <? 2) then []
  else make_sizes_loop 64 min_bytes max_bytes factor.

(** ** Facts *)

(** Names and parsers agree: a parser accepts exactly the names of the
    enumeration (all but [mixed], which no user may ask for) and returns the
    value the name was printed from. *)
Theorem names_round_trip :
  (forall t s, parse_transport s = Some t <-> t <> Mixed /\ transport_name t = s) /\
  (forall d s, parse_dtype s = Some d <-> dtype_name d = s) /\
  (forall r s, parse_redop s = Some r <-> redop_name r = s).
Proof.
  unfold parse_transport, parse_dtype, parse_redop.
  split_and!; intros v s; (split; [repeat case_decide; intros [= <-]; subst; repeat split; done|]).
  - by intros [? <-]; destruct v.
  - by intros <-; destruct v.
  - by intros <-; destruct v.
Qed.

Section NaN.
Context {T : Type} `{FloatOps T}.

Definition isnan (a : T) : bool := fneq a a.

Lemma redop_apply_nan r a b : r = Max \/ r = Min ->
  isnan (redop_apply r a b) = isnan a || isnan b.
Proof.
  unfold isnan. intros [-> | ->]; simpl; destruct (fneq a a) eqn:Ea, (fneq b b) eqn:Eb; simpl;
    rewrite ?Ea, ?Eb; try done; by case_match.
Qed.
End NaN.

Lemma make_sizes_loop_lookup fuel size max_bytes factor k :
  0 < size < 2 ^ 64 -> 0 <= max_bytes < 2 ^ 64 -> 2 <= factor < 2 ^ 31 ->
  max_bytes < size * 2 ^ Z.of_nat fuel ->
  make_sizes_loop fuel size max_bytes factor !! k =
  if size * factor ^ Z.of_nat k <=? max_bytes then Some (size * factor ^ Z.of_nat k) else None.
Proof.
  intros Hs Hm Hf. revert size k Hs. induction fuel as [|fuel IH]; intros size k Hs Hfuel.
  { simpl. assert (0 < factor ^ Z.of_nat k) by (apply Z.pow_pos_nonneg; lia).
    destruct (Z.leb_spec (size * factor ^ Z.of_nat k) max_bytes); [|by rewrite lookup_nil].
    simpl in Hfuel. nia. }
  cbn [make_sizes_loop].
  assert (0 < factor ^ Z.of_nat k) as Hp by (apply Z.pow_pos_nonneg; lia).
  destruct (Z.leb_spec size max_bytes) as [Hle|Hgt].
  2: { rewrite lookup_nil. destruct (Z.leb_spec (size * factor ^ Z.of_nat k) max_bytes); [nia|done]. }
  destruct k as [|k].
  { simpl. rewrite Z.mul_1_r. by destruct (Z.leb_spec size max_bytes); [|lia]. }
  cbn [lookup list_lookup]. change (Z.of_nat (S k)) with (Z.of_nat (1 + k)) in *.
  rewrite Nat2Z.inj_add, Z.pow_add_r, Z.pow_1_r, Z.mul_assoc in * by lia.
  assert (0 < factor ^ Z.of_nat k) as Hk by (apply Z.pow_pos_nonneg; lia).
  unfold SIZE_MAX. destruct (Z.ltb_spec ((2 ^ 64 - 1) / factor) size) as [Hov|Hok].
  - pose proof (Z.mul_succ_div_gt (2 ^ 64 - 1) factor ltac:(lia)).
    destruct (Z.leb_spec (size * factor * factor ^ Z.of_nat k) max_bytes); [nia|by rewrite ?lookup_nil].
  - pose proof (Z.mul_div_le (2 ^ 64 - 1) factor ltac:(lia)).
    rewrite u64_small by nia. apply IH; [nia|].
    rewrite Nat2Z.inj_succ, Z.pow_succ_r in Hfuel by lia.
    assert (0 < 2 ^ Z.of_nat fuel) by (apply Z.pow_pos_nonneg; lia). nia.
Qed.

(** The size sweep of the benchmarks is the geometric progression from the
    smallest to the largest size, complete and without wrap-around, even next
    to the end of the 64-bit range. *)
Theorem make_sizes_progression min_bytes max_bytes factor k :
  0 < min_bytes <= max_bytes -> max_bytes < 2 ^ 64 -> 2 <= factor < 2 ^ 31 ->
  make_sizes min_bytes max_bytes factor !! k =
  let size := min_bytes * factor ^ Z.of_nat k in
  if size <=? max_bytes then Some size else None.
Proof.
  intros Hmin Hmax Hf. unfold make_sizes.
  destruct (Z.eqb_spec min_bytes 0), (Z.ltb_spec max_bytes min_bytes), (Z.ltb_spec factor 2);
    try lia. simpl orb. apply make_sizes_loop_lookup; [lia..|].
  change (2 ^ Z.of_nat 64) with (2 ^ 64). nia.
Qed.

Module TypesWitness.
Lemma make_sizes_progression_witness :
  make_sizes 262144 18446744073709551615 1024 !! 4%nat = Some 288230376151711744 /\
  make_sizes 262144 18446744073709551615 1024 !! 5%nat = None.
Proof.
  split; [rewrite (make_sizes_progression 262144 18446744073709551615 1024 4)
         |rewrite (make_sizes_progression 262144 18446744073709551615 1024 5)];
    first [lia | reflexivity].
Defined.
End TypesWitness.
