(* ===== verification/Resources.v ===== *)
(** * Programs of one process

    The C++ code between two calls to the outside is a program that changes the
    state of the process and ends in a value or an exception.  Objects own
    resources and destructors release them: the state of a process records what
    it holds.  [spec] is the Hoare rule for such programs, with a postcondition
    for each way to end. *)

From Stdlib Require Import ZArith Lia.
From stdpp Require Import base option numbers tactics strings list.
From S2P Require Import Prelude.

(** ** Holding and releasing *)

Section Release.
Context {A : Type} `{EqDecision A}.
Implicit Types held l : list A.

Fixpoint release (r : A) (held : list A) : list A :=
  match held with
  | [] => []
  | r' :: held => if decide (r = r') then held else r' :: release r held
  end.

Lemma release_elem r held : r ∈ held -> held ≡ₚ r :: release r held.
Proof.
  induction held as [|r' held IH]; intros Hin; [by apply elem_of_nil in Hin|].
  simpl. case_decide as Hc; [by subst|].
  apply elem_of_cons in Hin as [->|Hin]; [done|].
  rewrite (IH Hin) at 1. constructor.
Qed.

Lemma release_perm r held l : held ≡ₚ r :: l -> release r held ≡ₚ l.
Proof.
  intros Hp. apply (Permutation_cons_inv (a := r)).
  rewrite <- release_elem; [done|]. rewrite Hp. left.
Qed.
End Release.

(** ** State and exceptions *)

Definition PM (S A : Type) := S -> S * res A.
#[export] Instance PM_ret {S} : MRet (PM S) := fun A a s => (s, Ok a).
#[export] Instance PM_bind {S} : MBind (PM S) := fun A B f m s =>
  match m s with (s', Ok a) => f a s' | (s', Throw e) => (s', Throw e) end.

Section Local.
Context {S : Type}.
Definition p_throw {A} (e : exn) : PM S A := fun s => (s, Throw e).
Definition p_modify (f : S -> S) : PM S unit := fun s => (f s, Ok tt).
Definition p_gets {A} (f : S -> A) : PM S A := fun s => (s, Ok (f s)).
Definition p_lift {A} (r : res A) : PM S A := fun s => (s, r).
(** [CUDA_CHECK_THROW]: the text of the error, or none. *)
Definition check_cuda (answer : option string) : PM S unit :=
  match answer with None => mret tt | Some text => p_throw (RuntimeError text) end.

(** [m] started in [P] ends in [Q] when it returns and in [E] when it throws. *)
Definition spec {A} (P : S -> Prop) (m : PM S A) (E : S -> Prop) (Q : A -> S -> Prop) : Prop :=
  forall s, P s -> match m s with (s', Ok a) => Q a s' | (s', Throw _) => E s' end.

Lemma spec_bind {A B} P E R Q (m : PM S A) (f : A -> PM S B) :
  spec P m E R -> (forall a, spec (R a) (f a) E Q) -> spec P (m ≫= f) E Q.
Proof.
  intros Hm Hf s Hs. specialize (Hm s Hs). unfold mbind, PM_bind.
  destruct (m s) as [s' [a|e]]; [|done]. by apply Hf.
Qed.

Lemma spec_ret {A} (P E : S -> Prop) (Q : A -> S -> Prop) a :
  (forall s, P s -> Q a s) -> spec P (mret a) E Q.
Proof. intros H s Hs. by apply H. Qed.

Lemma spec_throw {A} (P E : S -> Prop) (Q : A -> S -> Prop) e :
  (forall s, P s -> E s) -> spec P (p_throw e) E Q.
Proof. intros H s Hs. by apply H. Qed.

Lemma check_cuda_spec (P : S -> Prop) answer : spec P (check_cuda answer) P (fun _ => P).
Proof. intros s Hs. unfold check_cuda. by destruct answer. Qed.

Lemma spec_modify (P E : S -> Prop) (Q : unit -> S -> Prop) f :
  (forall s, P s -> Q tt (f s)) -> spec P (p_modify f) E Q.
Proof. intros H s Hs. by apply H. Qed.
End Local.

(** A block whose objects are destroyed when it throws. *)
Definition p_unwind {S A} (destroy : S -> S) (m : PM S A) : PM S A := fun s =>
  match m s with (s', Ok a) => (s', Ok a) | (s', Throw e) => (destroy s', Throw e) end.

Lemma spec_unwind {S A} destroy (P E E' : S -> Prop) (Q : A -> S -> Prop) m :
  spec P m E' Q -> (forall s, E' s -> E (destroy s)) -> spec P (p_unwind destroy m) E Q.
Proof.
  intros Hm HE s Hs. specialize (Hm s Hs). unfold p_unwind. destruct (m s) as [s' [a|e]]; auto.
Qed.

Lemma spec_conseq {S A} (P P' E E' : S -> Prop) (Q Q' : A -> S -> Prop) m :
  spec P m E Q -> (forall s, P' s -> P s) -> (forall s, E s -> E' s) ->
  (forall a s, Q a s -> Q' a s) -> spec P' m E' Q'.
Proof.
  intros Hm HP HE HQ s Hs. specialize (Hm s (HP s Hs)). destruct (m s) as [s' [a|e]]; auto.
Qed.

(** Facts about a precondition. *)
Lemma spec_pure {S A} (phi : Prop) (P E : S -> Prop) (Q : A -> S -> Prop) m :
  (phi -> spec P m E Q) -> spec (fun s => phi /\ P s) m E Q.
Proof. intros Hm s [Hphi Hs]. by apply Hm. Qed.

Lemma spec_exists {S A B} (P : B -> S -> Prop) (E : S -> Prop) (Q : A -> S -> Prop) m :
  (forall b, spec (P b) m E Q) -> spec (fun s => exists b, P b s) m E Q.
Proof. intros Hm s [b Hs]. by apply (Hm b). Qed.
