(* ===== verification/Geometry.v ===== *)
(** * Work geometry of the Simple protocol

    [transport/simple/geometry.h], [protocol.h], [step.h], [connection.h],
    [transport/shm/shm_fifo.h], [transport/p2p/p2p_step_counters.{h,cu}] and
    [collective/all_reduce/ring_simple_geometry.h]: how a buffer is cut into
    channels, chunks and slices, where the FIFO and its control words live. *)

From Stdlib Require Import ZArith Lia.
From stdpp Require Import base option numbers tactics list.
From S2P Require Import Prelude Types.

#[local] Open Scope Z_scope.

(** ** Protocol constants *)

Definition kFifoSteps : Z := 8.
Definition kSliceSteps : Z := 2.
Definition kChunkSteps : Z := 4.
Definition kVectorBytes : Z := 16.

(** ** geometry.h *)

Definition div_up (value divisor : Z) : Z := u64 (u64 (value + divisor) - 1) / divisor.

Definition align_up (value alignment : Z) : Z := u64 (div_up value alignment * alignment).

(** [slice_elems<T>]; [sz] is [sizeof(T)]. *)
Definition slice_elems (sz count nominal_step_elems : Z) : Z :=
  let kVectorElems := kVectorBytes / sz in
  let by_count :=
    u64 (div_up count (u64 (kVectorElems * kChunkSteps) / kSliceSteps) * kVectorElems) in
  let by_step := u64 (nominal_step_elems * kSliceSteps) / 32 in
  if by_step <? by_count then by_count else by_step.

(** ** ring_simple_geometry.h *)

Definition simple_grain_elems (sz : Z) : Z := 512 / sz.

Definition ring_edge_index (src dst nranks : Z) : Z :=
  if dst =? (src + 1) mod nranks then src else -1.

Record part := { part_offset : Z; part_count : Z; chunk_count : Z }.

Section Parts.
Context `{BuildConfig}.

Definition cbd_part (sz count channel : Z) : part :=
  let begin := u64 (count * channel) / kChannels in
  let end_ := u64 (count * (channel + 1)) / kChannels in
  let vector_elems := kVectorBytes / sz in
  let begin := u64 (begin / vector_elems * vector_elems) in
  let end_ := if negb (channel + 1 =? kChannels)
              then u64 (end_ / vector_elems * vector_elems) else end_ in
  let pc := u64 (end_ - begin) in
  {| part_offset := begin;
     part_count := pc;
     chunk_count := if pc =? 0 then 0
                    else align_up (div_up pc kRanks) (simple_grain_elems sz) |}.

(** [channel_part] has no chunk output; the standalone collectives use it. *)
Definition channel_part (count channel : Z) : Z * Z :=
  let begin := u64 (count * channel) / kChannels in
  let end_ := u64 (count * (channel + 1)) / kChannels in
  (begin, u64 (end_ - begin)).

Definition step_elems (sz : Z) : Z := kFifoBytes / kFifoSteps / sz.
End Parts.

Definition loop_chunk_elems (chunk_elems slot_elems : Z) : Z :=
  if chunk_elems <? slot_elems then chunk_elems else slot_elems.

Definition nelem (chunk_count rem_count chunk_offset : Z) : Z :=
  if rem_count <=? chunk_offset then 0
  else let rem := u64 (rem_count - chunk_offset) in
       if rem <? chunk_count then rem else chunk_count.

(** ** Arithmetic of the helpers without wrap-around *)

Create HintDb geom.

Lemma div_up_spec v d : 0 <= v -> 0 < d -> v + d < 2 ^ 64 ->
  div_up v d = (v + d - 1) / d.
Proof. intros. unfold div_up. by unwrap. Qed.

Lemma div_up_bounds v d : 0 <= v -> 0 < d -> v + d < 2 ^ 64 ->
  v <= div_up v d * d < v + d.
Proof. intros. rewrite div_up_spec by lia. zdiv. Qed.

Lemma align_up_spec v a : 0 <= v -> 0 < a -> v + a < 2 ^ 64 ->
  align_up v a = (v + a - 1) / a * a.
Proof.
  intros. unfold align_up. pose proof (div_up_bounds v a).
  rewrite u64_small by nia. by rewrite div_up_spec.
Qed.

Lemma align_up_bounds v a : 0 <= v -> 0 < a -> v + a < 2 ^ 64 ->
  v <= align_up v a < v + a.
Proof. intros. rewrite align_up_spec by lia. zdiv. Qed.

Lemma align_up_aligned v a : 0 <= v -> 0 < a -> v + a < 2 ^ 64 ->
  (a | align_up v a).
Proof. intros. rewrite align_up_spec by lia. by exists ((v + a - 1) / a). Qed.

(** The least multiple: nothing aligned lies in between. *)
Lemma align_up_le v a m : 0 <= v <= m -> 0 < a -> v + a < 2 ^ 64 -> (a | m) ->
  align_up v a <= m.
Proof.
  intros Hv Ha Hf [q ->]. rewrite align_up_spec by lia.
  apply Z.mul_le_mono_nonneg_r; [lia|]. apply Z.lt_succ_r, Z.div_lt_upper_bound; lia.
Qed.

Lemma nelem_spec c r o : 0 <= c -> 0 <= r < 2 ^ 64 -> 0 <= o ->
  nelem c r o = Z.max 0 (Z.min c (r - o)).
Proof.
  intros. unfold nelem. destruct (Z.leb_spec r o); [lia|].
  unwrap. destruct (Z.ltb_spec (r - o) c); lia.
Qed.

(** ** Slices of one chunk

    Every primitive of the kernel walks [kChunkSteps / kSliceSteps] slices of
    [slice_elems] elements and skips the empty ones. *)

Fixpoint slices_loop (iters : nat) (slice_size n slice_offset : Z) : list (Z * Z) :=
  match iters with
  | O => []
  | S iters =>
      let work := if slice_offset <? n then nelem slice_size n slice_offset else 0 in
      if work =? 0 then slices_loop iters slice_size n (u64 (slice_offset + slice_size))
      else (slice_offset, work) ::
           slices_loop iters slice_size n (u64 (slice_offset + slice_size))
  end.

Definition slices (sz n nominal_step_elems : Z) : list (Z * Z) :=
  slices_loop (Z.to_nat (kChunkSteps / kSliceSteps))
    (slice_elems sz n nominal_step_elems) n 0.

Definition elem_size (sz : Z) : Prop := sz = 4 \/ sz = 2.

Lemma dtype_elem_size d : elem_size (dtype_size d).
Proof. apply dtype_size_cases. Qed.
#[export] Hint Resolve dtype_elem_size : geom.

Section SliceFacts.
Context (sz n st : Z).
Context (Hsz : elem_size sz) (Hn : 0 <= n < 2 ^ 62) (Hst : 0 <= st < 2 ^ 62).

Lemma slice_elems_bounds :
  n <= 2 * slice_elems sz n st /\ (0 < n -> 0 < slice_elems sz n st) /\
  0 <= slice_elems sz n st < 2 ^ 63.
Proof.
  unfold slice_elems, kVectorBytes, kChunkSteps, kSliceSteps.
  destruct Hsz as [-> | ->];
    [change (u64 (16 / 4 * 4) / 2) with 8; change (16 / 4) with 4
    |change (u64 (16 / 2 * 4) / 2) with 16; change (16 / 2) with 8];
    rewrite div_up_spec by lia; unwrap;
    rewrite (u64_small (_ * _)) by zdiv;
    match goal with |- context [?a <? ?b] => destruct (Z.ltb_spec a b) end; zdiv.
Qed.

(** The slices of a chunk are one or two: everything, or a full slice and
    the rest. *)
Lemma slices_spec : slices sz n st =
  let ss := slice_elems sz n st in
  if n =? 0 then [] else if n <=? ss then [(0, n)] else [(0, ss); (ss, n - ss)].
Proof.
  pose proof slice_elems_bounds as (H2 & Hpos & Hlt).
  unfold slices. change (Z.to_nat (kChunkSteps / kSliceSteps)) with 2%nat.
  cbn [slices_loop]. set (ss := slice_elems sz n st) in *. cbv zeta.
  rewrite Z.add_0_l, (u64_small ss) by lia.
  destruct (Z.eqb_spec n 0) as [->|Hn0].
  { by destruct (Z.ltb_spec 0 0), (Z.ltb_spec ss 0); try lia. }
  destruct (Z.ltb_spec 0 n); [|lia]. rewrite !nelem_spec by lia.
  destruct (Z.leb_spec n ss), (Z.ltb_spec ss n); try lia;
    repeat match goal with |- context [Z.max 0 ?z] =>
      rewrite (Z.max_r 0 z) by lia end;
    repeat match goal with |- context [?a =? 0] =>
      destruct (Z.eqb_spec a 0); try lia end; repeat f_equal; lia.
Qed.

Lemma slices_tile : tiles (slices sz n st) 0 n.
Proof.
  pose proof slice_elems_bounds. rewrite slices_spec. simpl.
  destruct (Z.eqb_spec n 0); [done|].
  destruct (Z.leb_spec n (slice_elems sz n st)); simpl; lia.
Qed.

Lemma slices_count : (length (slices sz n st) <= 2)%nat /\
  (0 < n <-> (0 < length (slices sz n st))%nat).
Proof.
  rewrite slices_spec. simpl. destruct (Z.eqb_spec n 0); simpl; [lia|].
  destruct (Z.leb_spec n (slice_elems sz n st)); simpl; lia.
Qed.
End SliceFacts.

(** ** Channels *)

Lemma round_down_range v a b : 0 < v -> 0 <= a <= b -> 0 <= a / v * v <= b.
Proof.
  intros. pose proof (Z.mul_div_le a v). pose proof (Z.div_pos a v).
  split; [apply Z.mul_nonneg_nonneg; lia|lia].
Qed.

Section PartFacts.
Context `{BuildConfig} (sz count : Z).
Context (Hsz : elem_size sz).
(** No product of the geometry leaves [std::size_t]. *)
Context (Hcount : 0 <= count) (Hfit : (count + 1024 * kRanks) * kChannels < 2 ^ 62).

Lemma vector_elems_pos : 0 < kVectorBytes / sz.
Proof. by destruct Hsz as [-> | ->]. Qed.

(** The unaligned and the aligned start of a channel. *)
Definition cut (c : Z) : Z := count * c / kChannels.
Definition aligned_cut (c : Z) : Z :=
  if c =? kChannels then count else cut c / (kVectorBytes / sz) * (kVectorBytes / sz).

Lemma cut_mono c : 0 <= c -> cut c <= cut (c + 1).
Proof. intros. unfold cut. pose proof kChannels_pos. apply Z.div_le_mono; nia. Qed.

Lemma cut_range c : 0 <= c <= kChannels -> 0 <= cut c <= count.
Proof.
  intros. unfold cut. pose proof kChannels_pos. split; [apply Z.div_pos; nia|].
  apply Z.div_le_upper_bound; nia.
Qed.

Lemma aligned_cut_range c : 0 <= c <= kChannels -> 0 <= aligned_cut c <= count.
Proof.
  intros Hc. unfold aligned_cut. destruct (c =? kChannels); [lia|].
  pose proof (cut_range c Hc). pose proof vector_elems_pos.
  by apply round_down_range.
Qed.

Lemma aligned_cut_mono c : 0 <= c < kChannels -> aligned_cut c <= aligned_cut (c + 1).
Proof.
  intros Hc. unfold aligned_cut. pose proof vector_elems_pos.
  destruct (Z.eqb_spec c kChannels); [lia|].
  pose proof (cut_range c) as Hr. pose proof (cut_mono c) as Hm.
  destruct (Z.eqb_spec (c + 1) kChannels).
  { apply round_down_range; lia. }
  apply Z.mul_le_mono_nonneg_r; [lia|]. apply Z.div_le_mono; lia.
Qed.

Lemma count_channels c : 0 <= c <= kChannels -> 0 <= count * c < 2 ^ 64.
Proof. intros. pose proof kChannels_pos. pose proof kRanks_pos. nia. Qed.

Lemma cbd_part_spec c : 0 <= c < kChannels ->
  part_offset (cbd_part sz count c) = aligned_cut c /\
  part_count (cbd_part sz count c) = aligned_cut (c + 1) - aligned_cut c.
Proof.
  intros Hc. pose proof vector_elems_pos.
  pose proof (aligned_cut_range c) as Hr. pose proof (aligned_cut_range (c + 1)) as Hr1.
  pose proof (aligned_cut_mono c Hc). pose proof (count_channels c) as Hcc.
  pose proof (count_channels (c + 1)) as Hcc1. pose proof kChannels_pos.
  assert (count < 2 ^ 64) by (pose proof kRanks_pos; nia).
  unfold cbd_part; simpl. rewrite !(u64_small (count * _)) by lia.
  fold (cut c) (cut (c + 1)). unfold aligned_cut in *.
  destruct (Z.eqb_spec c kChannels); [lia|].
  rewrite (u64_small (cut c / _ * _)) by lia. split; [done|].
  destruct (Z.eqb_spec (c + 1) kChannels) as [Heq|]; simpl.
  - rewrite u64_small; unfold cut in *; rewrite Heq, Z.div_mul in * by lia; lia.
  - rewrite (u64_small (cut (c + 1) / _ * _)) by lia. apply u64_small. lia.
Qed.

Lemma aligned_cut_ends : aligned_cut 0 = 0 /\ aligned_cut kChannels = count.
Proof.
  unfold aligned_cut, cut. pose proof kChannels_pos. pose proof vector_elems_pos.
  rewrite Z.eqb_refl. destruct (Z.eqb_spec 0 kChannels); [lia|]. by rewrite Z.mul_0_r, !Z.div_0_l by lia.
Qed.

(** The part of channel [c] lies in the buffer. *)
Lemma cbd_part_range c : 0 <= c < kChannels ->
  0 <= part_offset (cbd_part sz count c) /\ 0 <= part_count (cbd_part sz count c) /\
  part_offset (cbd_part sz count c) + part_count (cbd_part sz count c) <= count.
Proof.
  intros Hc. destruct (cbd_part_spec c Hc) as [-> ->].
  pose proof (aligned_cut_range c). pose proof (aligned_cut_range (c + 1)).
  pose proof (aligned_cut_mono c Hc). lia.
Qed.

Lemma cbd_part_cover i : 0 <= i < count -> exists c, 0 <= c < kChannels /\
  (let pt := cbd_part sz count c in
   part_offset pt <= i < part_offset pt + part_count pt) /\
  forall c', 0 <= c' < kChannels ->
    (let pt := cbd_part sz count c' in
     part_offset pt <= i < part_offset pt + part_count pt) -> c' = c.
Proof.
  intros Hi. pose proof kChannels_pos. destruct aligned_cut_ends as [Hc0 HcK].
  destruct (cuts_segment aligned_cut kChannels aligned_cut_mono i) as (c & Hc & Hin); [lia|lia|].
  exists c. destruct (cbd_part_spec c Hc) as [E1 E2]. cbv zeta. rewrite E1, E2.
  split_and!; try lia. intros c' Hc' Hin'. destruct (cbd_part_spec c' Hc') as [E3 E4].
  rewrite E3, E4 in Hin'.
  apply (cuts_unique aligned_cut kChannels aligned_cut_mono i); lia.
Qed.

(** A chunk per rank covers the part, in whole grains. *)
Lemma chunk_count_spec c : 0 <= c < kChannels ->
  let pt := cbd_part sz count c in
  (simple_grain_elems sz | chunk_count pt) /\
  part_count pt <= chunk_count pt * kRanks < part_count pt + 1024 * kRanks /\
  (0 < part_count pt -> 0 < chunk_count pt).
Proof.
  intros Hc pt. pose proof (cbd_part_range c Hc) as Hr. fold pt in Hr.
  assert (chunk_count pt = if part_count pt =? 0 then 0
    else align_up (div_up (part_count pt) kRanks) (simple_grain_elems sz)) as -> by done.
  clearbody pt. pose proof kRanks_pos as HR. pose proof kChannels_pos.
  assert (count + 1024 * kRanks < 2 ^ 62) by nia.
  destruct (Z.eqb_spec (part_count pt) 0) as [E|E].
  { split_and!; [apply Z.divide_0_r|lia..]. }
  assert (0 < simple_grain_elems sz <= 256) as Hg by by destruct Hsz as [-> | ->].
  assert (part_count pt <= div_up (part_count pt) kRanks * kRanks < part_count pt + kRanks)
    as Hd by (apply div_up_bounds; lia).
  set (d := div_up _ _) in *. clearbody d. assert (0 <= d <= part_count pt) by (clear -Hd E HR Hr; nia).
  pose proof (align_up_bounds d (simple_grain_elems sz) ltac:(lia) ltac:(lia) ltac:(lia)).
  split; [apply align_up_aligned; lia|]. set (A := align_up _ _) in *.
  assert (d * kRanks <= A * kRanks) by (apply Z.mul_le_mono_nonneg_r; lia).
  assert (A * kRanks <= (d + 256) * kRanks) by (apply Z.mul_le_mono_nonneg_r; lia).
  assert (d <> 0) by (intros ->; lia). lia.
Qed.

(** Likewise for the unaligned parts of the standalone collectives. *)
Lemma channel_part_spec c : 0 <= c < kChannels ->
  channel_part count c = (cut c, cut (c + 1) - cut c).
Proof.
  intros Hc. pose proof (count_channels c) as Hcc. pose proof (count_channels (c + 1)) as Hcc1.
  pose proof (cut_mono c). pose proof (cut_range c). pose proof (cut_range (c + 1)).
  assert (count < 2 ^ 64) by (pose proof kRanks_pos; pose proof kChannels_pos; nia).
  unfold channel_part. rewrite !(u64_small (count * _)) by lia.
  fold (cut c) (cut (c + 1)). by rewrite u64_small by lia.
Qed.

Lemma channel_part_range c : 0 <= c < kChannels ->
  let '(o, w) := channel_part count c in 0 <= o /\ 0 <= w /\ o + w <= count.
Proof.
  intros Hc. rewrite channel_part_spec by done.
  pose proof (cut_mono c). pose proof (cut_range c). pose proof (cut_range (c + 1)). lia.
Qed.

Lemma channel_part_cover i : 0 <= i < count -> exists c, 0 <= c < kChannels /\
  (let '(o, w) := channel_part count c in o <= i < o + w) /\
  forall c', 0 <= c' < kChannels ->
    (let '(o, w) := channel_part count c' in o <= i < o + w) -> c' = c.
Proof.
  intros Hi. pose proof kChannels_pos.
  assert (cut 0 = 0 /\ cut kChannels = count) as [Hc0 HcK].
  { unfold cut. by rewrite Z.mul_0_r, Z.div_0_l, Z.div_mul by lia. }
  assert (forall c, 0 <= c < kChannels -> cut c <= cut (c + 1)) as Hm
    by (intros; apply cut_mono; lia).
  destruct (cuts_segment cut kChannels Hm i) as (c & Hc & Hin); [lia|lia|].
  exists c. rewrite channel_part_spec by done.
  split_and!; try lia. intros c' Hc'. rewrite channel_part_spec by done. intros Hin'.
  apply (cuts_unique cut kChannels Hm i); lia.
Qed.
End PartFacts.
