(* ===== verification/Ring.v ===== *)
(** * The ring primitives and the concurrent system they run in

    [kernels/ring_simple_kernel.cuh]: the seven slice operations of the Simple
    protocol ([direct_send] ... [direct_recv], and the local copy of
    AllGather) as instruction sequences, the waits and posts on the control
    words of an edge, and the step semantics of one channel on all ranks.

    One thread block per rank and channel runs its slices in program order.
    Everything a block does between two accesses to shared words is one
    instruction; instructions of different ranks interleave freely.  Loads of
    [head] and [tail] are acquire loads and their stores release stores
    ([step.h]), so a step that publishes a word publishes what was written
    before it. *)

From Stdlib Require Import ZArith Lia.
From stdpp Require Import base option numbers tactics list relations.
From S2P Require Import Prelude Types Geometry.

#[local] Open Scope Z_scope.

(** [kEarlyRecvCreditMaxBytes] *)
Definition kEarlyRecvCreditMaxBytes : Z := 4096.

(** ** Slice operations *)

Inductive prim :=
| DirectSend | RecvReduceSend | RecvReduceCopySend | RecvReduceCopy
| RecvCopySend | DirectRecv | LocalCopy.

#[export] Instance prim_eq_dec : EqDecision prim.
Proof. solve_decision. Defined.

(** One non-empty slice of a primitive: offsets in the input and the output
    buffer and the number of elements. *)
Record sop := Sop { s_prim : prim; s_local : Z; s_out : Z; s_work : Z }.

Definition sends (p : prim) : bool :=
  match p with
  | DirectSend | RecvReduceSend | RecvReduceCopySend | RecvCopySend => true
  | _ => false
  end.

Definition recvs (p : prim) : bool :=
  match p with
  | RecvReduceSend | RecvReduceCopySend | RecvReduceCopy | RecvCopySend
  | DirectRecv => true
  | _ => false
  end.

(** The data movements, named after the worker routines of the kernel.  [Dst]
    is the send FIFO slot, [Out] the output buffer; offsets as in [sop]. *)
Inductive data :=
| CopyToDst (local work : Z)               (* copy_worker(src, dst) *)
| CopyToOut (local out work : Z)           (* copy_worker(src, out) *)
| CopyVolatileToDst (work : Z)             (* copy_volatile_worker(recv, dst) *)
| CopyVolatileToOut (out work : Z)         (* copy_volatile_worker(recv, out) *)
| ReduceLocalIntoDst (local work : Z)      (* reduce_local_into_dst(local, dst) *)
| ReduceLocalIntoOut (local out work : Z)  (* reduce_local_into_dst<.., true>(local, out) *)
| ReduceVolatileToDst (local work : Z)     (* reduce_volatile_worker(local, recv, dst) *)
| ReduceVolatileToOut (local out work : Z) (* reduce_volatile_worker<.., true>(.., out) *)
| ReduceLocalBroadcast (local out work : Z)    (* reduce_local_broadcast_worker *)
| ReduceBroadcastVolatile (local out work : Z) (* reduce_broadcast_volatile_worker *)
| CopyBroadcastVolatile (out work : Z).        (* copy_broadcast_volatile_worker *)

Definition d_work (d : data) : Z :=
  match d with
  | CopyToDst _ w | CopyToOut _ _ w | CopyVolatileToDst w | CopyVolatileToOut _ w
  | ReduceLocalIntoDst _ w | ReduceLocalIntoOut _ _ w | ReduceVolatileToDst _ w
  | ReduceVolatileToOut _ _ w | ReduceLocalBroadcast _ _ w
  | ReduceBroadcastVolatile _ _ w | CopyBroadcastVolatile _ w => w
  end.

Definition d_local (d : data) : Z :=
  match d with
  | CopyToDst l _ | CopyToOut l _ _ | ReduceLocalIntoDst l _
  | ReduceLocalIntoOut l _ _ | ReduceVolatileToDst l _ | ReduceVolatileToOut l _ _
  | ReduceLocalBroadcast l _ _ | ReduceBroadcastVolatile l _ _ => l
  | _ => 0
  end.

Definition reads_recv (d : data) : bool :=
  match d with
  | CopyVolatileToDst _ | CopyVolatileToOut _ _ | ReduceVolatileToDst _ _
  | ReduceVolatileToOut _ _ _ | ReduceBroadcastVolatile _ _ _
  | CopyBroadcastVolatile _ _ => true
  | _ => false
  end.

Definition writes_dst (d : data) : bool :=
  match d with
  | CopyToDst _ _ | CopyVolatileToDst _ | ReduceLocalIntoDst _ _
  | ReduceVolatileToDst _ _ | ReduceLocalBroadcast _ _ _
  | ReduceBroadcastVolatile _ _ _ | CopyBroadcastVolatile _ _ => true
  | _ => false
  end.

(** Where the output is written, if it is. *)
Definition writes_out (d : data) : option Z :=
  match d with
  | CopyToOut _ o _ | CopyVolatileToOut o _ | ReduceLocalIntoOut _ o _
  | ReduceVolatileToOut _ o _ | ReduceLocalBroadcast _ o _
  | ReduceBroadcastVolatile _ o _ | CopyBroadcastVolatile o _ => Some o
  | _ => None
  end.

(** Instructions of a block.  [IPostBoth] is the fused publish, whose two
    stores are made by different threads in no fixed order. *)
Inductive instr :=
| IWait (rcv snd : bool)
| IData (d : data)
| ICredit
| IReady (payload : Z)
| IPostBoth (payload : Z)
| IAdvance (rcv snd : bool).

Section Bodies.
Context (sz : Z).

(** [work * sizeof(T)] *)
Definition slice_bytes (work : Z) : Z := u64 (work * sz).

Definition early_credit (work : Z) : bool :=
  slice_bytes work <=? kEarlyRecvCreditMaxBytes.

Definition direct_send_body (l w : Z) : list instr :=
  [IWait false true; IData (CopyToDst l w); IReady (slice_bytes w);
   IAdvance false true].

Definition recv_reduce_send_body (l w : Z) : list instr :=
  IWait true true ::
  (if early_credit w then
     [IData (CopyVolatileToDst w); ICredit; IData (ReduceLocalIntoDst l w);
      IReady (slice_bytes w)]
   else [IData (ReduceVolatileToDst l w); IPostBoth (slice_bytes w)])
  ++ [IAdvance true true].

Definition recv_reduce_copy_send_body (l o w : Z) : list instr :=
  IWait true true ::
  (if early_credit w then
     [IData (CopyVolatileToDst w); ICredit; IData (ReduceLocalBroadcast l o w);
      IReady (slice_bytes w)]
   else [IData (ReduceBroadcastVolatile l o w); IPostBoth (slice_bytes w)])
  ++ [IAdvance true true].

Definition recv_reduce_copy_body (l o w : Z) : list instr :=
  IWait true false ::
  (if early_credit w then
     [IData (CopyVolatileToOut o w); ICredit; IData (ReduceLocalIntoOut l o w)]
   else [IData (ReduceVolatileToOut l o w); ICredit])
  ++ [IAdvance true false].

Definition recv_copy_send_body (o w : Z) : list instr :=
  IWait true true ::
  (if early_credit w then
     [IData (CopyBroadcastVolatile o w); ICredit; IReady (slice_bytes w)]
   else [IData (CopyBroadcastVolatile o w); IPostBoth (slice_bytes w)])
  ++ [IAdvance true true].

Definition direct_recv_body (o w : Z) : list instr :=
  [IWait true false; IData (CopyVolatileToOut o w); ICredit; IAdvance true false].

Definition body (o : sop) : list instr :=
  let 'Sop p l out w := o in
  match p with
  | DirectSend => direct_send_body l w
  | RecvReduceSend => recv_reduce_send_body l w
  | RecvReduceCopySend => recv_reduce_copy_send_body l out w
  | RecvReduceCopy => recv_reduce_copy_body l out w
  | RecvCopySend => recv_copy_send_body out w
  | DirectRecv => direct_recv_body out w
  | LocalCopy => [IData (CopyToOut l out w); IAdvance false false]
  end.
End Bodies.

(** ** State of one channel *)

Record rank_st (T : Type) := Rank {
  pending : list (list sop);  (* kernels queued on the stream *)
  running : bool;
  ops : list sop;             (* slices after the current one *)
  cur : list instr;           (* rest of the current slice *)
  send_step : Z; recv_step : Z;
  head_cache : Z; tail_cache : Z;
  send_base : Z; recv_base : Z; (* control.send_base_steps / recv_base_steps *)
  output : Z -> T;
}.
Arguments Rank {T} _ _ _ _ _ _ _ _ _ _ _.
Arguments pending {T}. Arguments running {T}. Arguments ops {T}. Arguments cur {T}.
Arguments send_step {T}. Arguments recv_step {T}. Arguments head_cache {T}.
Arguments tail_cache {T}. Arguments send_base {T}. Arguments recv_base {T}.
Arguments output {T}.

Record edge_st (T : Type) := Edge {
  fifo : Z -> T;              (* kFifoSteps * slot_elems elements *)
  head : Z; tail : Z;
  payload_bytes : Z -> Z;
}.
Arguments Edge {T} _ _ _ _. Arguments fifo {T}. Arguments head {T}.
Arguments tail {T}. Arguments payload_bytes {T}.

Record sys (T : Type) := Sys { rk : Z -> rank_st T; ed : Z -> edge_st T; abort : bool }.
Arguments Sys {T} _ _ _. Arguments rk {T}. Arguments ed {T}. Arguments abort {T}.

Inductive edge_upd (T : Type) := NoEdge | OutEdge (e : edge_st T) | InEdge (e : edge_st T).
Arguments NoEdge {T}. Arguments OutEdge {T} e. Arguments InEdge {T} e.

(** What the block of a rank can do next.  [PollTail] and [PollHead] are one
    turn of a spin loop, [Go] the current instruction, [GoAlt] the fused
    publish with the tail stored first.  [AbortReturn] is a wait that sees the
    abort word; [AbortSkip] is the combined wait whose two threads race on
    [wait_status]: the thread whose condition holds has found the status not
    zero and stores 1 over the 0 of the thread that saw the abort. *)
Inductive action :=
| Launch | Fetch | PollTail | PollHead | Go | GoAlt | Finish | AbortReturn | AbortSkip.

#[export] Instance action_eq_dec : EqDecision action.
Proof. solve_decision. Defined.

Section Semantics.
Context {T : Type}.
(** The reduction (local operand first) and the scaling of a final value. *)
Context (op : T -> T -> T) (fin : T -> T).
Context (sz slot_elems : Z).

Definition slot_base (step : Z) : Z := u64 (step mod kFifoSteps * slot_elems).

(** The element a data movement stores, from the local, received, send-slot
    and output elements at the same index. *)
Definition d_elem (d : data) (local recv dst out : T) : T :=
  match d with
  | CopyToDst _ _ | CopyToOut _ _ _ => local
  | CopyVolatileToDst _ | CopyVolatileToOut _ _ | CopyBroadcastVolatile _ _ => recv
  | ReduceLocalIntoDst _ _ => op local dst
  | ReduceLocalIntoOut _ _ _ => fin (op local out)
  | ReduceVolatileToDst _ _ => op local recv
  | ReduceVolatileToOut _ _ _ | ReduceBroadcastVolatile _ _ _ => fin (op local recv)
  | ReduceLocalBroadcast _ _ _ => fin (op local dst)
  end.

Definition d_val (d : data) (input recv dst out : Z -> T) (i : Z) : T :=
  d_elem d (input (d_local d + i)) (recv i) (dst i)
    (out (default 0 (writes_out d) + i)).

Definition credit_ok (head step : Z) : bool :=
  negb (u64 (head + kFifoSteps) <? u64 (step + kSliceSteps)).
Definition ready_ok (tail step : Z) : bool := negb (tail <? u64 (step + kSliceSteps)).

Definition set_cur (x : rank_st T) (c : list instr) : rank_st T :=
  Rank (pending x) (running x) (ops x) c (send_step x) (recv_step x)
    (head_cache x) (tail_cache x) (send_base x) (recv_base x) (output x).
Definition set_output (x : rank_st T) (o : Z -> T) : rank_st T :=
  Rank (pending x) (running x) (ops x) (cur x) (send_step x) (recv_step x)
    (head_cache x) (tail_cache x) (send_base x) (recv_base x) o.
Definition set_head_cache (x : rank_st T) (h : Z) : rank_st T :=
  Rank (pending x) (running x) (ops x) (cur x) (send_step x) (recv_step x)
    h (tail_cache x) (send_base x) (recv_base x) (output x).
Definition set_tail_cache (x : rank_st T) (t : Z) : rank_st T :=
  Rank (pending x) (running x) (ops x) (cur x) (send_step x) (recv_step x)
    (head_cache x) t (send_base x) (recv_base x) (output x).
Definition set_steps (x : rank_st T) (ss rs : Z) : rank_st T :=
  Rank (pending x) (running x) (ops x) (cur x) ss rs
    (head_cache x) (tail_cache x) (send_base x) (recv_base x) (output x).

(** Prologue of a kernel: the steps and both caches start at the base
    steps the previous kernel of this rank left. *)
Definition launch (x : rank_st T) (p : list sop) (ps : list (list sop)) : rank_st T :=
  Rank ps true p [] (send_base x) (recv_base x) (send_base x) (recv_base x)
    (send_base x) (recv_base x) (output x).

(** Epilogue: both base steps are stored. *)
Definition finish (x : rank_st T) : rank_st T :=
  Rank (pending x) false [] [] (send_step x) (recv_step x) (head_cache x)
    (tail_cache x) (send_step x) (recv_step x) (output x).

(** [return] from a wait that failed: nothing is stored. *)
Definition abandon (x : rank_st T) : rank_st T :=
  Rank (pending x) false [] [] (send_step x) (recv_step x) (head_cache x)
    (tail_cache x) (send_base x) (recv_base x) (output x).

Definition post_send_ready (x : rank_st T) (eo : edge_st T) (payload : Z) : edge_st T :=
  Edge (fifo eo) (head eo) (u64 (send_step x + kSliceSteps))
    (upd (payload_bytes eo) (send_step x mod kFifoSteps) (u32 payload)).

Definition post_recv_credit (x : rank_st T) (ei : edge_st T) : edge_st T :=
  Edge (fifo ei) (u64 (recv_step x + kSliceSteps)) (tail ei) (payload_bytes ei).

Definition exec_data (d : data) (input : Z -> T) (x : rank_st T) (eo ei : edge_st T) :
    rank_st T * edge_upd T :=
  let recv i := fifo ei (slot_base (recv_step x) + i) in
  let dst i := fifo eo (slot_base (send_step x) + i) in
  let v := d_val d input recv dst (output x) in
  (match writes_out d with
   | Some o => set_output x (blit (output x) o (d_work d) v)
   | None => x
   end,
   if writes_dst d
   then OutEdge (Edge (blit (fifo eo) (slot_base (send_step x)) (d_work d) v)
                   (head eo) (tail eo) (payload_bytes eo))
   else NoEdge).

Definition exec_instr (i : instr) (rest : list instr) (input : Z -> T)
    (x : rank_st T) (eo ei : edge_st T) : option (rank_st T * edge_upd T) :=
  match i with
  | IWait rcv snd =>
      if implb rcv (ready_ok (tail_cache x) (recv_step x)) &&
         implb snd (credit_ok (head_cache x) (send_step x))
      then Some (set_cur x rest, NoEdge) else None
  | IData d =>
      let '(x', u) := exec_data d input x eo ei in Some (set_cur x' rest, u)
  | ICredit => Some (set_cur x rest, InEdge (post_recv_credit x ei))
  | IReady p => Some (set_cur x rest, OutEdge (post_send_ready x eo p))
  | IPostBoth p => Some (set_cur x (ICredit :: IReady p :: rest), NoEdge)
  | IAdvance rcv snd =>
      Some (set_steps (set_cur x rest)
              (if snd then u64 (send_step x + kSliceSteps) else send_step x)
              (if rcv then u64 (recv_step x + kSliceSteps) else recv_step x), NoEdge)
  end.

Definition act_rank (a : action) (abort : bool) (input : Z -> T)
    (x : rank_st T) (eo ei : edge_st T) : option (rank_st T * edge_upd T) :=
  match a, running x with
  | Launch, false =>
      match pending x with p :: ps => Some (launch x p ps, NoEdge) | [] => None end
  | Fetch, true =>
      match cur x, ops x with
      | [], o :: os =>
          Some (Rank (pending x) true os (body sz o) (send_step x) (recv_step x)
                  (head_cache x) (tail_cache x) (send_base x) (recv_base x) (output x),
                NoEdge)
      | _, _ => None
      end
  | Finish, true =>
      match cur x, ops x with [], [] => Some (finish x, NoEdge) | _, _ => None end
  | PollTail, true =>
      match cur x with
      | IWait true _ :: _ =>
          if ready_ok (tail_cache x) (recv_step x) then None
          else Some (set_tail_cache x (tail ei), NoEdge)
      | _ => None
      end
  | PollHead, true =>
      match cur x with
      | IWait _ true :: _ =>
          if credit_ok (head_cache x) (send_step x) then None
          else Some (set_head_cache x (head eo), NoEdge)
      | _ => None
      end
  | Go, true =>
      match cur x with i :: rest => exec_instr i rest input x eo ei | [] => None end
  | GoAlt, true =>
      match cur x with
      | IPostBoth p :: rest => Some (set_cur x (IReady p :: ICredit :: rest), NoEdge)
      | _ => None
      end
  | AbortReturn, true =>
      match cur x with IWait _ _ :: _ => if abort then Some (abandon x, NoEdge) else None
      | _ => None end
  | AbortSkip, true =>
      match cur x with
      | IWait true true :: rest =>
          if abort && (ready_ok (tail_cache x) (recv_step x) ||
                       credit_ok (head_cache x) (send_step x))
          then Some (set_cur x rest, NoEdge) else None
      | _ => None
      end
  | _, _ => None
  end.

(** ** The system: rank [r] sends on edge [r] and receives on edge [r - 1] *)

Context (n : Z) (input : Z -> Z -> T).

Definition next (r : Z) : Z := (r + 1) mod n.
Definition prev (r : Z) : Z := (r + n - 1) mod n.

Definition act (r : Z) (a : action) (s : sys T) : option (sys T) :=
  '(x, u) ← act_rank a (abort s) (input r) (rk s r) (ed s r) (ed s (prev r));
  Some (Sys (upd (rk s) r x)
          match u with
          | NoEdge => ed s
          | OutEdge e => upd (ed s) r e
          | InEdge e => upd (ed s) (prev r) e
          end (abort s)).

Definition raise_abort (s : sys T) : sys T := Sys (rk s) (ed s) true.

(** Steps of the ranks, and of the system with a host that may raise the
    abort word at any time. *)
Inductive rank_step : sys T -> sys T -> Prop :=
| rank_step_act r a s s' : 0 <= r < n -> act r a s = Some s' -> rank_step s s'.

Inductive step : sys T -> sys T -> Prop :=
| step_rank s s' : rank_step s s' -> step s s'
| step_abort s : step s (raise_abort s).

(** Every kernel queued on every rank has returned. *)
Definition finished (s : sys T) : Prop :=
  forall r, 0 <= r < n -> running (rk s r) = false /\ pending (rk s r) = [].

(** *** Fair schedules

    In its turn a rank performs any one of its enabled actions; it does
    nothing only when it has none.  A fair round is any sequence of turns in
    which every rank has at least one. *)
Inductive rank_turn (r : Z) : sys T -> sys T -> Prop :=
| turn_act a s s' : act r a s = Some s' -> rank_turn r s s'
| turn_none s : (forall a, act r a s = None) -> rank_turn r s s.

Inductive turns : list Z -> sys T -> sys T -> Prop :=
| turns_nil s : turns [] s s
| turns_cons r order s1 s2 s3 : 0 <= r < n ->
    rank_turn r s1 s2 -> turns order s2 s3 -> turns (r :: order) s1 s3.

Definition fair_round (s s' : sys T) : Prop :=
  exists order, (forall r, 0 <= r < n -> r ∈ order) /\ turns order s s'.

(** Whatever the state, there is a turn, and hence a round. *)
Lemma rank_turn_total r s : exists s', rank_turn r s s'.
Proof.
  destruct (decide (Exists (fun a => is_Some (act r a s))
    [Launch; Fetch; PollTail; PollHead; Go; GoAlt; Finish; AbortReturn; AbortSkip])) as [Hd|Hd].
  - apply Exists_exists in Hd as (a & _ & s' & Ha). eauto using rank_turn.
  - exists s. apply turn_none. intros a. destruct (act r a s) eqn:Ha; [|done].
    destruct Hd. apply Exists_exists. exists a. split; [destruct a; set_solver|by rewrite Ha].
Qed.

Lemma fair_round_total s : exists s', fair_round s s'.
Proof.
  enough (forall order, (forall r, r ∈ order -> 0 <= r < n) -> exists s', turns order s s') as Ht.
  { destruct (Ht (zrange n)) as [s' Hs]; [by intros r ?%elem_of_zrange|].
    exists s', (zrange n). split; [|done]. intros r Hr. by apply elem_of_zrange. }
  intros order. revert s. induction order as [|r order IH]; intros s Hr; [eauto using turns|].
  destruct (rank_turn_total r s) as [s1 H1].
  destruct (IH s1) as [s' Hs]; [intros r' ?; apply Hr; by right|].
  exists s'. eapply turns_cons; [apply Hr; by left|done..].
Qed.

Lemma fair_rounds_total k s : exists s', nsteps fair_round k s s'.
Proof.
  revert s. induction k as [|k IH]; intros s; [eauto using nsteps|].
  destruct (fair_round_total s) as [s1 ?]. destruct (IH s1) as [s' ?]. eauto using nsteps.
Qed.

Lemma rank_turns_steps order s s' : turns order s s' -> steps rank_step s s'.
Proof.
  induction 1 as [|r order s1 s2 s3 Hr Ht _ IH]; [done|].
  eapply steps_trans; [|exact IH]. destruct Ht; [|done]. by eapply steps_once, rank_step_act.
Qed.

Lemma fair_rounds_steps k s s' : nsteps fair_round k s s' -> steps rank_step s s'.
Proof.
  induction 1 as [|k s1 s2 s3 (order & _ & Ht) _ IH]; [done|].
  eapply steps_trans; [by eapply rank_turns_steps|done].
Qed.

(** Executable runs for concrete schedules. *)
Fixpoint run (sched : list (Z * action)) (s : sys T) : option (sys T) :=
  match sched with
  | [] => Some s
  | (r, a) :: sched => s' ← act r a s; run sched s'
  end.

(** A fair scheduler: every rank in turn performs the first action that is
    enabled, [fuel] rounds. *)
Definition first_action (r : Z) (s : sys T) : sys T :=
  let try a k := match act r a s with Some s' => s' | None => k end in
  try Launch (try Fetch (try Finish (try Go (try PollTail (try PollHead s))))).

Fixpoint round_robin (fuel : nat) (s : sys T) : sys T :=
  match fuel with
  | O => s
  | S fuel => round_robin fuel (foldl (fun s r => first_action r s) s (zrange n))
  end.

(** State before a launch: every rank has the kernels [progs r] queued, the
    edges are drained and agree with the base steps. *)
Definition init (progs : Z -> list (list sop)) (base : Z -> Z) (out0 : Z -> Z -> T)
    (fifo0 : Z -> Z -> T) : sys T :=
  Sys (fun r => Rank (progs r) false [] [] 0 0 0 0 (base r) (base (prev r)) (out0 r))
    (fun e => Edge (fifo0 e) (base e) (base e) (fun _ => 0)) false.

(** Executable runs are executions. *)
Lemma run_steps sched s s' : (forall r a, (r, a) ∈ sched -> 0 <= r < n) ->
  run sched s = Some s' -> steps rank_step s s'.
Proof.
  revert s. induction sched as [|[r a] sched IH]; intros s Hr; simpl; [by intros [= <-]|].
  destruct (act r a s) as [s1|] eqn:Ha; [|done]. simpl. intros Hrun.
  eapply steps_trans; [|apply (IH s1); [|done]].
  - apply steps_once. eapply rank_step_act; [|done]. eapply Hr, elem_of_cons. by left.
  - intros r' a' Hin. eapply Hr, elem_of_cons. by right.
Qed.

Lemma first_action_steps r s : 0 <= r < n -> steps rank_step s (first_action r s).
Proof.
  intros Hr. unfold first_action.
  repeat match goal with
  | |- context [act r ?a s] => destruct (act r a s) eqn:?; [eauto using rank_step|]
  end. done.
Qed.

Lemma fold_steps {A} (f : sys T -> A -> sys T) l s :
  (forall s a, a ∈ l -> steps rank_step s (f s a)) -> steps rank_step s (foldl f s l).
Proof.
  revert s. induction l as [|a l IH]; intros s Hf; simpl; [done|].
  eapply steps_trans; [apply Hf, elem_of_cons; by left|].
  apply IH. intros. apply Hf, elem_of_cons. by right.
Qed.

Lemma round_robin_steps fuel s : steps rank_step s (round_robin fuel s).
Proof.
  revert s. induction fuel as [|fuel IH]; intros s; simpl; [done|].
  eapply steps_trans; [|apply IH]. apply fold_steps.
  intros s' r Hr%elem_of_zrange. by apply first_action_steps.
Qed.

Lemma rank_steps_steps s s' : steps rank_step s s' -> steps step s s'.
Proof. induction 1; eauto using step. Qed.

(** A rank runs alone until [k] slices are left. *)
Fixpoint run_until (fuel : nat) (r : Z) (k : nat) (s : sys T) : sys T :=
  match fuel with
  | O => s
  | S fuel =>
      let x := rk s r in
      if running x && Nat.eqb (length (ops x)) k &&
         match cur x with [] => true | _ => false end
      then s else run_until fuel r k (first_action r s)
  end.

Lemma run_until_steps fuel r k s : 0 <= r < n -> steps rank_step s (run_until fuel r k s).
Proof.
  intros Hr. revert s. induction fuel as [|fuel IH]; intros s; simpl; [done|].
  destruct (_ && _); [done|]. eapply steps_trans; [by apply first_action_steps|apply IH].
Qed.
End Semantics.
