(* ===== verification/RingSafety.v ===== *)
(** * Safety of the ring protocol

    Ranks run arbitrary annotated slice programs; if the messages a rank sends
    are, in order, those its successor receives ([schedule_ok]), then in every
    interleaving the FIFO is never overwritten before it is read, every slice
    carries the annotated message and the outputs are those of the
    annotations.  Progress is in [RingProgress]. *)

From Stdlib Require Import ZArith Lia Sorted.
From stdpp Require Import base option numbers tactics list.
From S2P Require Import Prelude Types Geometry Ring.

#[local] Open Scope Z_scope.

(** A slice operation with the message it receives, the message it sends and
    a logical time. *)
Record aop (M : Type) := Aop { a_op : sop; a_in : M; a_out : M; a_time : Z }.
Arguments Aop {M} _ _ _ _. Arguments a_op {M}. Arguments a_in {M}.
Arguments a_out {M}. Arguments a_time {M}.

Definition a_prim {M} (a : aop M) : prim := s_prim (a_op a).
Definition a_work {M} (a : aop M) : Z := s_work (a_op a).

(** Messages as seen from the receiver: logical time of the receive, number of
    elements, contents. A send at time [t] is received at time [t + 2]. *)
Definition sent {M} (a : aop M) : option (Z * Z * M) :=
  if sends (a_prim a) then Some (a_time a + 2, a_work a, a_out a) else None.
Definition recvd {M} (a : aop M) : option (Z * Z * M) :=
  if recvs (a_prim a) then Some (a_time a, a_work a, a_in a) else None.

Inductive phase := Idle | Held | Posted.
#[export] Instance phase_eq_dec : EqDecision phase.
Proof. solve_decision. Defined.

(** What was published, and what was acquired, beyond the step. *)
Definition published (p : phase) : Z := match p with Posted => 2 | _ => 0 end.
Definition acquired (p : phase) : Z := match p with Idle => 0 | _ => 2 end.

(** ** Typestate of the instruction sequences *)

Fixpoint ts (R S : bool) (rp sp : phase) (l : list instr) : bool :=
  match l with
  | [] => false
  | IWait r s :: l =>
      Bool.eqb r R && Bool.eqb s S && bool_decide (rp = Idle) && bool_decide (sp = Idle) &&
      ts R S (if R then Held else Idle) (if S then Held else Idle) l
  | IData d :: l =>
      implb (reads_recv d) (bool_decide (rp = Held)) &&
      implb (writes_dst d) (bool_decide (sp = Held)) && ts R S rp sp l
  | ICredit :: l => bool_decide (rp = Held) && ts R S Posted sp l
  | IReady _ :: l => bool_decide (sp = Held) && ts R S rp Posted l
  | IPostBoth _ :: l =>
      bool_decide (rp = Held) && bool_decide (sp = Held) && ts R S Posted Posted l
  | IAdvance r s :: l =>
      Bool.eqb r R && Bool.eqb s S && bool_decide (l = []) &&
      bool_decide (rp = if R then Posted else Idle) &&
      bool_decide (sp = if S then Posted else Idle)
  end.

Lemma ts_body sz o : ts (recvs (s_prim o)) (sends (s_prim o)) Idle Idle (body sz o) = true.
Proof.
  destruct o as [[] l out w]; simpl;
    unfold recv_reduce_send_body, recv_reduce_copy_send_body, recv_reduce_copy_body,
      recv_copy_send_body; try destruct (early_credit sz w); reflexivity.
Qed.

(** ** Local correctness of one slice

    [linv l dst out]: whatever the received slot holds on the slice, as long
    as it is the message, running [l] sends the message [m_out] and leaves the
    output [goal]. *)
Section Local.
Context {T : Type} (op : T -> T -> T) (fin : T -> T) (sz : Z).
Context (inp m_in m_out : Z -> T) (w : Z) (goal : Z -> T).

Fixpoint linv (l : list instr) (dst out : Z -> T) : Prop :=
  match l with
  | [] => forall i, out i = goal i
  | IData d :: l =>
      d_work d = w /\
      forall rv dst',
        (reads_recv d = true -> forall i, 0 <= i < w -> rv i = m_in i) ->
        (forall i, 0 <= i < w ->
           dst' i = if writes_dst d then d_val op fin d inp rv dst out i else dst i) ->
        linv l dst' (match writes_out d with
                     | Some o => blit out o w (d_val op fin d inp rv dst out)
                     | None => out
                     end)
  | IReady p :: l | IPostBoth p :: l =>
      p = slice_bytes sz w /\ (forall i, 0 <= i < w -> dst i = m_out i) /\ linv l dst out
  | _ :: l => linv l dst out
  end.
End Local.

(** Rewrites with the hypotheses that say what a buffer holds on a slice. *)
Ltac agree :=
  repeat match goal with
  | H : forall i, 0 <= i < _ -> ?d i = _ |- context [?d ?j] => rewrite (H j) by lia
  | H : true = true -> forall i, 0 <= i < _ -> ?d i = _ |- context [?d ?j] =>
      rewrite (H eq_refl j) by lia
  end.

Section Values.
Context {T : Type} (op : T -> T -> T) (fin : T -> T).

(** The element a slice sends and the element it stores in the output. *)
Definition send_elem (p : prim) (local recv : T) : T :=
  match p with
  | DirectSend => local
  | RecvReduceSend => op local recv
  | RecvReduceCopySend => fin (op local recv)
  | _ => recv
  end.

Definition out_elem (p : prim) (local recv : T) : T :=
  match p with
  | RecvReduceCopySend | RecvReduceCopy => fin (op local recv)
  | LocalCopy => local
  | _ => recv
  end.

Definition stores (p : prim) : bool :=
  match p with DirectSend | RecvReduceSend => false | _ => true end.

(** The output after one slice whose received message is [m_in]. *)
Definition out_step (inp m_in : Z -> T) (o : sop) (out : Z -> T) : Z -> T :=
  if stores (s_prim o)
  then blit out (s_out o) (s_work o)
         (fun i => out_elem (s_prim o) (inp (s_local o + i)) (m_in i))
  else out.

Lemma linv_body sz inp m_in m_out o dst out out' :
  (sends (s_prim o) = true -> forall i, 0 <= i < s_work o ->
     m_out i = send_elem (s_prim o) (inp (s_local o + i)) (m_in i)) ->
  (forall i, out i = out' i) ->
  linv op fin sz inp m_in m_out (s_work o) (out_step inp m_in o out') (body sz o) dst out.
Proof.
  intros Hm Ho. destruct o as [p l off w]; destruct p; simpl in *;
    unfold recv_reduce_send_body, recv_reduce_copy_send_body, recv_reduce_copy_body,
      recv_copy_send_body, out_step, d_val in *; try destruct (early_credit sz w); simpl;
    repeat match goal with
    | |- _ /\ _ => split
    | |- forall _, _ => intros ?
    | |- ?a = ?a => reflexivity
    end; eauto.
  all: agree; try reflexivity.
  all: simpl; unfold blit;
    repeat match goal with
    | |- context [?a <=? ?b] => destruct (Z.leb_spec a b); simpl; try lia
    | |- context [?a <? ?b] => destruct (Z.ltb_spec a b); simpl; try lia
    end; agree; auto.
  all: try (replace (off + (i - off) - off) with (i - off) by lia); agree; auto.
Qed.
End Values.

(** ** Schedules *)

Section Ring.
Context {T M : Type} (op : T -> T -> T) (fin : T -> T) (sz slot_elems n : Z).
Context (input : Z -> Z -> T) (den : M -> Z -> T).
Context (aprog : Z -> list (aop M)) (base : Z -> Z) (out0 : Z -> Z -> T).

Abbreviation next := (next n).
Abbreviation prev := (prev n).
Abbreviation slot_base := (slot_base slot_elems).
Abbreviation act := (act op fin sz slot_elems n input).
Abbreviation rank_step := (rank_step op fin sz slot_elems n input).
Abbreviation step := (step op fin sz slot_elems n input).

Definition is_rank (r : Z) : Prop := 0 <= r < n.

Record schedule_ok : Prop := {
  so_n : 2 <= n;
  so_slots : 0 <= slot_elems /\ kFifoSteps * slot_elems < 2 ^ 64;
  (* what a rank sends is what its successor receives *)
  so_match r : is_rank r -> omap sent (aprog r) = omap recvd (aprog (next r));
  so_local r a : is_rank r -> a ∈ aprog r -> sends (a_prim a) = true ->
    forall i, 0 <= i < a_work a ->
      den (a_out a) i =
      send_elem op fin (a_prim a) (input r (s_local (a_op a) + i)) (den (a_in a) i);
  so_work r a : is_rank r -> a ∈ aprog r -> 0 < a_work a <= slot_elems;
  so_base r : is_rank r ->
    0 <= base r /\ base r + 2 * Z.of_nat (length (aprog r)) + 16 < 2 ^ 64;
  so_time0 r a : is_rank r -> a ∈ aprog r -> 0 <= a_time a;
  so_time r : is_rank r -> StronglySorted (fun a b => a_time a < a_time b) (aprog r);
}.

Definition msgs (e : Z) : list (Z * Z * M) := omap sent (aprog e).

Definition nsend (r : Z) (k : nat) : Z := Z.of_nat (length (omap sent (take k (aprog r)))).
Definition nrecv (r : Z) (k : nat) : Z := Z.of_nat (length (omap recvd (take k (aprog r)))).

(** The output of rank [r] after its first [k] slices. *)
Definition out_after (r : Z) (k : nat) : Z -> T :=
  foldl (fun o a => out_step op fin (input r) (den (a_in a)) (a_op a) o)
    (out0 r) (take k (aprog r)).

(** ** The invariant *)

Inductive stage := Fresh | Live | Done.

Record ghost := Ghost { pos : nat; rp : phase; sp : phase; stg : stage }.

Definition sstep (r : Z) (g : ghost) : Z := base r + 2 * nsend r (pos g).
Definition rstep (r : Z) (g : ghost) : Z := base (prev r) + 2 * nrecv r (pos g).

Definition at_boundary (r : Z) (g : ghost) (x : rank_st T) : Prop :=
  cur x = [] /\ ops x = a_op <$> drop (pos g) (aprog r) /\ rp g = Idle /\ sp g = Idle /\
  (forall i, output x i = out_after r (pos g) i).

Definition in_slice (r : Z) (g : ghost) (x : rank_st T) (eo : edge_st T) (a : aop M) : Prop :=
  aprog r !! pos g = Some a /\ ops x = a_op <$> drop (S (pos g)) (aprog r) /\
  ts (recvs (a_prim a)) (sends (a_prim a)) (rp g) (sp g) (cur x) = true /\
  linv op fin sz (input r) (den (a_in a)) (den (a_out a)) (a_work a)
    (out_after r (S (pos g))) (cur x)
    (fun i => fifo eo (slot_base (sstep r g) + i)) (output x).

Record live_inv (r : Z) (g : ghost) (x : rank_st T) (eo ei : edge_st T) : Prop := {
  li_send : send_step x = sstep r g;
  li_recv : recv_step x = rstep r g;
  li_head : 0 <= head_cache x <= head eo;
  li_room : sstep r g + acquired (sp g) <= head_cache x + kFifoSteps;
  li_tail : tail_cache x <= tail ei;
  li_avail : rstep r g + acquired (rp g) <= tail_cache x;
  li_body : at_boundary r g x \/ exists a, in_slice r g x eo a;
}.

Definition idle (g : ghost) : Prop := rp g = Idle /\ sp g = Idle.

Record rank_inv (r : Z) (g : ghost) (x : rank_st T) (eo ei : edge_st T) : Prop := {
  ri_tail : tail eo = sstep r g + published (sp g);
  ri_head : head ei = rstep r g + published (rp g);
  ri_room : sstep r g + acquired (sp g) <= head eo + kFifoSteps;
  ri_avail : rstep r g + acquired (rp g) <= tail ei;
  ri_stage : match stg g with
    | Fresh => running x = false /\ pending x = [a_op <$> aprog r] /\ pos g = 0%nat /\
               idle g /\ send_base x = base r /\ recv_base x = base (prev r) /\
               (forall i, output x i = out0 r i)
    | Live => running x = true /\ pending x = [] /\ live_inv r g x eo ei
    | Done => running x = false /\ pending x = [] /\ pos g = length (aprog r) /\
              idle g /\ send_base x = sstep r g /\ recv_base x = rstep r g /\
              (forall i, output x i = out_after r (pos g) i)
    end;
}.

(** Unread slots hold the messages and their sizes. *)
Record edge_inv (e : Z) (d : edge_st T) : Prop := {
  ei_order : 0 <= base e /\ base e <= head d <= tail d;
  ei_slots k t w m : msgs e !! k = Some (t, w, m) ->
    head d <= base e + 2 * Z.of_nat k < tail d ->
    (forall i, 0 <= i < w -> fifo d (slot_base (base e + 2 * Z.of_nat k) + i) = den m i) /\
    payload_bytes d ((base e + 2 * Z.of_nat k) mod kFifoSteps) = u32 (slice_bytes sz w);
}.

Definition inv (s : sys T) : Prop :=
  exists G : Z -> ghost,
    (forall r, is_rank r -> rank_inv r (G r) (rk s r) (ed s r) (ed s (prev r))) /\
    (forall e, is_rank e -> edge_inv e (ed s e)).

(** ** Ring arithmetic and message counts *)

Context (Hok : schedule_ok).
#[local] Hint Resolve so_n : core.

Lemma is_rank_next r : is_rank (next r).
Proof. pose proof (so_n Hok). apply Z.mod_pos_bound. lia. Qed.
Lemma is_rank_prev r : is_rank (prev r).
Proof. pose proof (so_n Hok). apply Z.mod_pos_bound. lia. Qed.

Lemma next_prev r : is_rank r -> next (prev r) = r.
Proof.
  pose proof (so_n Hok). unfold is_rank, Ring.next, Ring.prev. intros.
  rewrite Zplus_mod_idemp_l. replace (r + n - 1 + 1) with (r + 1 * n) by lia.
  rewrite Z.mod_add by lia. by apply Z.mod_small.
Qed.
Lemma prev_next r : is_rank r -> prev (next r) = r.
Proof.
  pose proof (so_n Hok). unfold is_rank, Ring.next, Ring.prev. intros.
  replace ((r + 1) mod n + n - 1) with ((r + 1) mod n + (n - 1)) by lia.
  rewrite Zplus_mod_idemp_l. replace (r + 1 + (n - 1)) with (r + 1 * n) by lia.
  rewrite Z.mod_add by lia. by apply Z.mod_small.
Qed.
Lemma prev_ne r : is_rank r -> prev r <> r.
Proof.
  pose proof (so_n Hok). unfold is_rank, Ring.prev. intros ? Heq.
  destruct (decide (r = 0)) as [->|].
  - rewrite Z.mod_small in Heq; lia.
  - replace (r + n - 1) with (r - 1 + 1 * n) in Heq by lia.
    rewrite Z.mod_add, Z.mod_small in Heq; lia.
Qed.
Lemma prev_inj r r' : is_rank r -> is_rank r' -> prev r = prev r' -> r = r'.
Proof. intros Hr Hr' Heq. rewrite <- (next_prev r), <- (next_prev r'), Heq; done. Qed.

Lemma nsend_S r k a : aprog r !! k = Some a ->
  nsend r (S k) = nsend r k + (if sends (a_prim a) then 1 else 0).
Proof.
  intros Hk. unfold nsend. rewrite (omap_take_S _ _ _ _ Hk), length_app.
  destruct (sent a) eqn:E; unfold sent in E; destruct (sends (a_prim a)); simplify_eq/=; lia.
Qed.
Lemma nrecv_S r k a : aprog r !! k = Some a ->
  nrecv r (S k) = nrecv r k + (if recvs (a_prim a) then 1 else 0).
Proof.
  intros Hk. unfold nrecv. rewrite (omap_take_S _ _ _ _ Hk), length_app.
  destruct (recvd a) eqn:E; unfold recvd in E; destruct (recvs (a_prim a)); simplify_eq/=; lia.
Qed.

Lemma nsend_bound r k : 0 <= nsend r k <= Z.of_nat (length (msgs r)).
Proof.
  unfold nsend, msgs. pose proof (length_omap_take sent (aprog r) k). lia.
Qed.

Lemma nrecv_bound r k : is_rank r -> 0 <= nrecv r k <= Z.of_nat (length (msgs (prev r))).
Proof.
  intros Hr. unfold nrecv, msgs. rewrite (so_match Hok) by apply is_rank_prev.
  rewrite next_prev by done. pose proof (length_omap_take recvd (aprog r) k). lia.
Qed.

(** No counter of a launch leaves 64 bits. *)
Lemma msgs_bound r : is_rank r ->
  0 <= base r /\ base r + 2 * Z.of_nat (length (msgs r)) + 16 < 2 ^ 64.
Proof.
  intros Hr. pose proof (so_base Hok r Hr). pose proof (length_omap_le sent (aprog r)).
  unfold msgs. lia.
Qed.

Lemma sstep_bound r g : is_rank r -> 0 <= base r <= sstep r g /\ sstep r g + 16 < 2 ^ 64.
Proof.
  intros Hr. pose proof (msgs_bound r Hr). pose proof (nsend_bound r (pos g)).
  unfold sstep. lia.
Qed.
Lemma rstep_bound r g : is_rank r ->
  0 <= base (prev r) <= rstep r g /\ rstep r g + 16 < 2 ^ 64.
Proof.
  intros Hr. pose proof (msgs_bound _ (is_rank_prev r)). pose proof (nrecv_bound r (pos g) Hr).
  unfold rstep. lia.
Qed.

(** The message of the current slice. *)
Lemma msg_out r k a : aprog r !! k = Some a -> sends (a_prim a) = true ->
  msgs r !! Z.to_nat (nsend r k) = Some (a_time a + 2, a_work a, a_out a).
Proof.
  intros Hk Hs. unfold msgs, nsend. rewrite Nat2Z.id.
  apply (omap_take_lookup _ _ _ a); [done|]. unfold sent. by rewrite Hs.
Qed.
Lemma msg_in r k a : is_rank r -> aprog r !! k = Some a -> recvs (a_prim a) = true ->
  msgs (prev r) !! Z.to_nat (nrecv r k) = Some (a_time a, a_work a, a_in a).
Proof.
  intros Hr Hk Hs. unfold msgs, nrecv. rewrite (so_match Hok) by apply is_rank_prev.
  rewrite next_prev, Nat2Z.id by done.
  apply (omap_take_lookup _ _ _ a); [done|]. unfold recvd. by rewrite Hs.
Qed.

(** A slice of the program is one of its elements. *)
Lemma work_bound r k a : is_rank r -> aprog r !! k = Some a -> 0 < a_work a <= slot_elems.
Proof. intros Hr Hk. apply (so_work Hok r); [done|]. by eapply list_elem_of_lookup_2. Qed.

(** Slots of steps closer than [kFifoSteps] do not overlap. *)
Lemma slot_base_eq s : slot_base s = s mod 8 * slot_elems.
Proof.
  pose proof (so_slots Hok). unfold Ring.slot_base, kFifoSteps in *.
  pose proof (Z.mod_pos_bound s 8). apply u64_small. nia.
Qed.

Lemma slots_disjoint s1 s2 i1 i2 : s1 <> s2 -> -8 < s1 - s2 < 8 ->
  0 <= i1 < slot_elems -> 0 <= i2 < slot_elems ->
  slot_base s1 + i1 <> slot_base s2 + i2.
Proof.
  intros Hne Hd H1 H2. rewrite !slot_base_eq.
  assert (s1 mod 8 <> s2 mod 8) by zdiv.
  pose proof (Z.mod_pos_bound s1 8). pose proof (Z.mod_pos_bound s2 8).
  nia.
Qed.

(** ** Stability: what the neighbours may do *)

(** The successor only raises [head] of the out-edge, the predecessor only
    raises [tail] of the in-edge and writes slots nobody reads. *)
Lemma rank_inv_stable r g x eo ei eo' ei' :
  rank_inv r g x eo ei ->
  tail eo' = tail eo -> fifo eo' = fifo eo -> head eo <= head eo' ->
  head ei' = head ei -> tail ei <= tail ei' ->
  rank_inv r g x eo' ei'.
Proof.
  intros [Ht Hh Hr Ha Hs] Et Ef Eh Eh' Et'. split; try lia.
  destruct (stg g); [done| |done].
  destruct Hs as (Hrun & Hp & [? ? ? ? ? ? Hb]). split_and!; [done..|].
  split; try lia; try done. destruct Hb as [Hb|[a Hb]]; [by left|right].
  exists a. unfold in_slice in *. by rewrite Ef.
Qed.

Definition app_out (u : edge_upd T) (e : edge_st T) : edge_st T :=
  match u with OutEdge e' => e' | _ => e end.
Definition app_in (u : edge_upd T) (e : edge_st T) : edge_st T :=
  match u with InEdge e' => e' | _ => e end.

(** A rank with its two edges, and what a step of the rank guarantees. *)
Record triple (r : Z) (g : ghost) (x : rank_st T) (eo ei : edge_st T) : Prop := {
  tr_rank : rank_inv r g x eo ei;
  tr_out : edge_inv r eo;
  tr_in : edge_inv (prev r) ei;
}.

Record guarantee (eo ei eo' ei' : edge_st T) : Prop := {
  gu_head : head eo' = head eo;
  gu_tail : tail eo <= tail eo';
  gu_tail_in : tail ei' = tail ei;
  gu_fifo_in : fifo ei' = fifo ei;
  gu_head_in : head ei <= head ei';
}.

Lemma guarantee_refl eo ei : guarantee eo ei eo ei.
Proof. by split. Qed.
#[local] Hint Resolve guarantee_refl : core.

Definition preserved (r : Z) (eo ei : edge_st T) (x' : rank_st T) (u : edge_upd T) : Prop :=
  exists g', triple r g' x' (app_out u eo) (app_in u ei) /\
    guarantee eo ei (app_out u eo) (app_in u ei).

Lemma preserved_quiet r g' eo ei x' :
  triple r g' x' eo ei -> preserved r eo ei x' NoEdge.
Proof. intros Ht. exists g'. simpl. auto. Qed.

(** *** The instructions, one by one *)

(** A running rank inside the slice [a]. *)
Record slice_inv (r : Z) (g : ghost) (x : rank_st T) (eo ei : edge_st T)
    (a : aop M) (i : instr) (rest : list instr) : Prop := {
  sl_triple : triple r g x eo ei;
  sl_live : stg g = Live;
  sl_run : running x = true;
  sl_pend : pending x = [];
  sl_inv : live_inv r g x eo ei;
  sl_cur : cur x = i :: rest;
  sl_slice : in_slice r g x eo a;
}.

Ltac open_slice H :=
  let HL := fresh "HL" in
  destruct H as [[[Htl Hhd Hrm Hav Hst] Heo Hei] Hlive Hrun Hpend HL Hcur
                 (Hpos & Hops & Hts & Hli)];
  destruct HL as [Hss Hrs Hhc Hroom Htc Havail _];
  rewrite Hcur in Hts, Hli; simpl in Hts, Hli;
  rewrite ?andb_True, ?andb_true_iff in Hts.

Lemma ready_ok_spec r g t : is_rank r ->
  ready_ok t (rstep r g) = bool_decide (rstep r g + 2 <= t).
Proof.
  intros Hr. pose proof (rstep_bound r g Hr). unfold ready_ok, kSliceSteps.
  rewrite u64_small by lia.
  destruct (Z.ltb_spec t (rstep r g + 2)); case_bool_decide; try done; lia.
Qed.
Lemma credit_ok_spec r g h : is_rank r -> 0 <= h <= sstep r g + kFifoSteps ->
  credit_ok h (sstep r g) = bool_decide (sstep r g + 2 <= h + kFifoSteps).
Proof.
  intros Hr Hh. pose proof (sstep_bound r g Hr). unfold credit_ok, kSliceSteps, kFifoSteps in *.
  rewrite !u64_small by lia.
  destruct (Z.ltb_spec (h + 8) (sstep r g + 2)); case_bool_decide; try done; lia.
Qed.

(** A head never passes the tail, so a cached head is at most the step. *)
Lemma head_le_sstep r g x eo ei : triple r g x eo ei -> 0 <= head eo <= sstep r g + 2.
Proof. intros [[Ht _ _ _ _] [Ho _] _]. destruct (sp g); simpl in *; lia. Qed.

Lemma wait_preserved r g x eo ei a rcv snd rest : is_rank r ->
  slice_inv r g x eo ei a (IWait rcv snd) rest ->
  implb rcv (ready_ok (tail_cache x) (recv_step x)) &&
    implb snd (credit_ok (head_cache x) (send_step x)) = true ->
  preserved r eo ei (set_cur x rest) NoEdge.
Proof.
  intros Hr HS Hc. pose proof (head_le_sstep _ _ _ _ _ (sl_triple _ _ _ _ _ _ _ _ HS)).
  open_slice HS. destruct Hts as ((((Er & Es) & Hrp) & Hsp) & Hts).
  apply eqb_prop in Er as ->; apply eqb_prop in Es as ->.
  apply bool_decide_eq_true in Hrp; apply bool_decide_eq_true in Hsp.
  apply andb_true_iff in Hc as [Hc1 Hc2].
  rewrite Hrs, ready_ok_spec in Hc1 by done.
  rewrite Hss, credit_ok_spec in Hc2 by (unfold kFifoSteps; lia || done).
  rewrite Hrp, Hsp in *; simpl in *.
  set (R := recvs (a_prim a)) in *; set (S' := sends (a_prim a)) in *.
  apply (preserved_quiet r (Ghost (pos g) (if R then Held else Idle)
    (if S' then Held else Idle) Live)).
  assert (rstep r g + acquired (if R then Held else Idle) <= tail_cache x).
  { destruct R; simpl in *; [|lia]. by apply bool_decide_eq_true in Hc1. }
  assert (sstep r g + acquired (if S' then Held else Idle) <= head_cache x + kFifoSteps).
  { destruct S'; simpl in *; [|lia]. by apply bool_decide_eq_true in Hc2. }
  assert (forall b : bool, published (if b then Held else Idle) = 0) as Hp0 by by intros [].
  split; [|done..]. unfold sstep, rstep in *.
  split; simpl; unfold sstep, rstep; simpl; rewrite ?Hp0; try lia.
  split_and!; [done..|].
  split; unfold sstep, rstep; simpl; try done; try lia.
  right. exists a. by split_and!.
Qed.

(** Slots of unread messages are not the slot being written. *)
Lemma unread_apart r g x eo ei k i j : triple r g x eo ei -> sp g = Held ->
  head eo <= base r + 2 * Z.of_nat k < tail eo ->
  0 <= i < slot_elems -> 0 <= j < slot_elems ->
  slot_base (base r + 2 * Z.of_nat k) + i <> slot_base (sstep r g) + j.
Proof.
  intros [[Ht _ Hrm _ _] _ _] Hsp Hk Hi Hj. rewrite Hsp in *.
  unfold kFifoSteps in *. simpl in *. apply slots_disjoint; lia.
Qed.

Lemma held_message r g x eo ei a : is_rank r -> triple r g x eo ei ->
  aprog r !! pos g = Some a -> rp g = Held -> recvs (a_prim a) = true ->
  forall i, 0 <= i < a_work a -> fifo ei (slot_base (rstep r g) + i) = den (a_in a) i.
Proof.
  intros Hr [[_ Hh _ Hav _] _ [_ Hsl]] Hpos Hrp HR i Hi.
  pose proof (msg_in r _ a Hr Hpos HR) as Hm.
  pose proof (nrecv_bound r (pos g) Hr). rewrite Hrp in *. simpl in *.
  destruct (Hsl _ _ _ _ Hm) as [Hf _]; rewrite Z2Nat.id in * by lia;
    unfold rstep in *; [lia|]. by apply Hf.
Qed.

Lemma ts_held_recv R S' rp sp l d : ts R S' rp sp (IData d :: l) = true ->
  reads_recv d = true -> rp = Held.
Proof.
  simpl. intros H Hd. rewrite Hd in H. simpl in H.
  by apply andb_true_iff in H as [[H _]%andb_true_iff _]; apply bool_decide_eq_true in H.
Qed.

(** A phase is left idle by a slice that does not use the direction. *)
Lemma ts_phase_used R S' rp sp l : ts R S' rp sp l = true ->
  (rp <> Idle -> R = true) /\ (sp <> Idle -> S' = true).
Proof.
  revert rp sp. induction l as [|i l IH]; intros rp sp; simpl; [done|].
  destruct i; rewrite ?andb_true_iff, ?bool_decide_eq_true.
  - by intros [[[_ ->] ->] _].
  - intros [_ H]. by apply IH.
  - intros [-> [HR HS]%IH]. split; intros; [by apply HR|by apply HS].
  - intros [-> [HR HS]%IH]. split; intros; [by apply HR|by apply HS].
  - intros [[-> ->] [HR HS]%IH]. split; intros; [by apply HR|by apply HS].
  - intros [[_ ->] ->]. by destruct R, S'.
Qed.

Lemma data_preserved r g x eo ei a d rest : is_rank r ->
  slice_inv r g x eo ei a (IData d) rest ->
  let '(x', u) := exec_data op fin slot_elems d (input r) x eo ei in
  preserved r eo ei (set_cur x' rest) u.
Proof.
  intros Hr HS. pose proof (sl_triple _ _ _ _ _ _ _ _ HS) as HT. open_slice HS.
  pose proof (work_bound r _ a Hr Hpos) as Hw.
  pose proof (ts_phase_used (recvs (a_prim a)) (sends (a_prim a)) (rp g) (sp g) (IData d :: rest))
    as Hused. simpl in Hused. rewrite !andb_true_iff in Hused. specialize (Hused Hts).
  destruct Hts as [[Hrd Hwd] Hts]. destruct Hli as [Hdw Hli].
  assert (reads_recv d = true -> forall i, 0 <= i < a_work a ->
    fifo ei (slot_base (recv_step x) + i) = den (a_in a) i) as Hrv.
  { intros Hd. rewrite Hd in Hrd. apply bool_decide_eq_true in Hrd.
    rewrite Hrs. eapply held_message; eauto. apply Hused. by rewrite Hrd. }
  unfold exec_data. rewrite Hdw, Hss.
  set (v := d_val _ _ _ _ _ _ _).
  exists g. split.
  - split.
    + split; [destruct (writes_dst d); done..|].
      rewrite Hlive. split_and!; [by destruct (writes_out d)..|].
      assert (tail (app_out (if writes_dst d then OutEdge (Edge (blit (fifo eo)
        (slot_base (sstep r g)) (a_work a) v) (head eo) (tail eo) (payload_bytes eo))
        else NoEdge) eo) = tail eo) by by destruct (writes_dst d).
      split; [destruct (writes_out d), (writes_dst d); done..|].
      right. exists a. split_and!; [done|by destruct (writes_out d)|done|].
      specialize (Hli (fun i => fifo ei (slot_base (recv_step x) + i))
        (fun i => fifo (app_out (if writes_dst d then OutEdge (Edge (blit (fifo eo)
          (slot_base (sstep r g)) (a_work a) v) (head eo) (tail eo) (payload_bytes eo))
          else NoEdge) eo) (slot_base (sstep r g) + i)) Hrv).
      destruct (writes_out d) eqn:Eo; apply Hli; intros i Hi;
        destruct (writes_dst d); simpl; try done;
        (rewrite blit_in by lia; f_equal; lia).
    + destruct (writes_dst d) eqn:Ed; [|done]. simpl in Hwd.
      apply bool_decide_eq_true in Hwd. destruct Heo as [Ho Hsl].
      split; [done|]. simpl. intros k t w m Hk Hrange.
      destruct (Hsl k t w m Hk Hrange) as [Hf Hp]. split; [|done]. intros i Hi.
      rewrite blit_out; [by apply Hf|]. intros Hin.
      assert (w <= slot_elems).
      { unfold msgs in Hk. apply list_elem_of_lookup_2, list_elem_of_omap in Hk as (b & Hb & Hsb).
        unfold sent in Hsb. destruct (sends (a_prim b)); simplify_eq.
        by apply (so_work Hok r). }
      apply (unread_apart r g x eo ei k i
        (slot_base (base r + 2 * Z.of_nat k) + i - slot_base (sstep r g)) HT Hwd Hrange);
        lia.
    + by destruct (writes_dst d).
  - by destruct (writes_dst d).
Qed.

(** Rebuilding the invariant of a slice whose position does not change. *)
Lemma slice_triple r g g' x x' eo ei eo' ei' a :
  stg g = Live -> live_inv r g x eo ei ->
  pos g' = pos g -> stg g' = Live ->
  running x' = true -> pending x' = [] ->
  send_step x' = send_step x -> recv_step x' = recv_step x ->
  head_cache x' = head_cache x -> tail_cache x' = tail_cache x ->
  head eo' = head eo -> tail ei' = tail ei ->
  acquired (sp g') = acquired (sp g) -> acquired (rp g') = acquired (rp g) ->
  tail eo' = sstep r g + published (sp g') -> head ei' = rstep r g + published (rp g') ->
  in_slice r g' x' eo' a -> edge_inv r eo' -> edge_inv (prev r) ei' ->
  triple r g' x' eo' ei'.
Proof.
  intros Hl [] Ep Es' Hrun Hp E1 E2 E3 E4 E5 E6 E7 E8 E9 E10 Hin Ho Hi.
  split; [|done..]. unfold sstep, rstep in *.
  split; unfold sstep, rstep; rewrite ?Ep; try lia.
  rewrite Es'. split_and!; [done..|].
  split; unfold sstep, rstep; rewrite ?Ep; try lia. eauto.
Qed.

Lemma credit_preserved r g x eo ei a rest : is_rank r ->
  slice_inv r g x eo ei a ICredit rest ->
  preserved r eo ei (set_cur x rest) (InEdge (post_recv_credit x ei)).
Proof.
  intros Hr HS. pose proof (sl_inv _ _ _ _ _ _ _ _ HS) as HL. open_slice HS.
  destruct Hts as [Hrp%bool_decide_eq_true Hts].
  pose proof (rstep_bound r g Hr). rewrite Hrp in *. simpl in *.
  exists (Ghost (pos g) Posted (sp g) Live). unfold app_out, app_in, post_recv_credit.
  rewrite Hrs. unfold kSliceSteps. rewrite u64_small by lia. split.
  - eapply (slice_triple r g _ x _ eo ei _ _ a); simpl; try done; try lia.
    + by rewrite Hrp.
    + destruct Hei as [Ho Hsl]. split; simpl; [lia|].
      intros k t w m Hk Hrange. apply (Hsl k t w m Hk). lia.
  - split; simpl; try done; lia.
Qed.

Lemma ready_preserved r g x eo ei a p rest : is_rank r ->
  slice_inv r g x eo ei a (IReady p) rest ->
  preserved r eo ei (set_cur x rest) (OutEdge (post_send_ready x eo p)).
Proof.
  intros Hr HS. pose proof (sl_inv _ _ _ _ _ _ _ _ HS) as HL. open_slice HS.
  destruct (ts_phase_used (recvs (a_prim a)) (sends (a_prim a)) (rp g) (sp g) (IReady p :: rest))
    as [_ Hus]; [by simpl; rewrite andb_true_iff|].
  destruct Hts as [Hsp%bool_decide_eq_true Hts]. destruct Hli as (-> & Hdst & Hli).
  pose proof (sstep_bound r g Hr). rewrite Hsp in *. simpl in *.
  exists (Ghost (pos g) (rp g) Posted Live). unfold app_out, app_in, post_send_ready.
  rewrite Hss. unfold kSliceSteps. rewrite u64_small by lia. split.
  - eapply (slice_triple r g _ x _ eo ei _ _ a); simpl; try done; try lia.
    + by rewrite Hsp.
    + destruct Heo as [Ho Hsl]. split; simpl; [lia|]. intros k t w m Hk Hrange.
      pose proof (nsend_bound r (pos g)).
      destruct (decide (base r + 2 * Z.of_nat k = sstep r g)) as [Heq|Hne].
      * pose proof (msg_out r (pos g) a Hpos (Hus ltac:(done))) as Hm.
        replace (Z.to_nat (nsend r (pos g))) with k in Hm by (unfold sstep in *; lia).
        rewrite Hk in Hm. simplify_eq. rewrite Heq. split; [done|]. by rewrite upd_eq.
      * assert (base r + 2 * Z.of_nat k < tail eo) by (unfold sstep in *; lia).
        destruct (Hsl k t w m Hk) as [Hf Hp]; [lia|]. split; [done|].
        rewrite upd_ne; [done|]. unfold kFifoSteps in *. zdiv.
  - split; simpl; try done; lia.
Qed.

(** The fused publish becomes its two stores, in either order. *)
Lemma post_both_preserved r g x eo ei a p rest l :
  slice_inv r g x eo ei a (IPostBoth p) rest ->
  l = ICredit :: IReady p :: rest \/ l = IReady p :: ICredit :: rest ->
  preserved r eo ei (set_cur x l) NoEdge.
Proof.
  intros HS Hl. pose proof (sl_inv _ _ _ _ _ _ _ _ HS) as HL. open_slice HS.
  destruct Hts as [[Hrp%bool_decide_eq_true Hsp%bool_decide_eq_true] Hts].
  apply (preserved_quiet r g).
  eapply (slice_triple r g _ x _ eo ei _ _ a); simpl; try done.
  split_and!; [done..| |]; rewrite ?Hrp, ?Hsp; destruct Hl as [-> | ->]; by simpl.
Qed.

Lemma out_after_S r k a : aprog r !! k = Some a ->
  out_after r (S k) = out_step op fin (input r) (den (a_in a)) (a_op a) (out_after r k).
Proof. intros Hk. unfold out_after. by rewrite (take_S_r _ _ _ Hk), foldl_app. Qed.

Lemma advance_preserved r g x eo ei a rcv snd rest : is_rank r ->
  slice_inv r g x eo ei a (IAdvance rcv snd) rest ->
  preserved r eo ei
    (set_steps (set_cur x rest)
       (if snd then u64 (send_step x + kSliceSteps) else send_step x)
       (if rcv then u64 (recv_step x + kSliceSteps) else recv_step x)) NoEdge.
Proof.
  intros Hr HS. open_slice HS.
  destruct Hts as ((((Er & Es) & Hn) & Hrp) & Hsp).
  apply eqb_prop in Er as ->; apply eqb_prop in Es as ->.
  apply bool_decide_eq_true in Hn as ->.
  apply bool_decide_eq_true in Hrp; apply bool_decide_eq_true in Hsp. simpl in Hli.
  pose proof (sstep_bound r g Hr). pose proof (rstep_bound r g Hr).
  rewrite Hss, Hrs. unfold kSliceSteps. rewrite !u64_small by lia.
  apply (preserved_quiet r (Ghost (S (pos g)) Idle Idle Live)).
  pose proof (nsend_S r _ a Hpos). pose proof (nrecv_S r _ a Hpos).
  assert (sstep r (Ghost (S (pos g)) Idle Idle Live) = sstep r g + published (sp g) /\
          published (sp g) = acquired (sp g)) as [E1 E2].
  { rewrite Hsp. unfold sstep. simpl. destruct (sends (a_prim a)); simpl; lia. }
  assert (rstep r (Ghost (S (pos g)) Idle Idle Live) = rstep r g + published (rp g) /\
          published (rp g) = acquired (rp g)) as [E3 E4].
  { rewrite Hrp. unfold rstep. simpl. destruct (recvs (a_prim a)); simpl; lia. }
  split; [|done..]. split; simpl; try lia.
  split_and!; [done..|]. split; simpl; try done; try lia.
  - rewrite E1, Hsp. destruct (sends (a_prim a)); simpl; lia.
  - rewrite E3, Hrp. destruct (recvs (a_prim a)); simpl; lia.
  - by left.
Qed.

(** *** Every action of a rank *)

Lemma instr_preserved r g x eo ei a i rest x' u : is_rank r ->
  slice_inv r g x eo ei a i rest ->
  exec_instr op fin slot_elems i rest (input r) x eo ei = Some (x', u) ->
  preserved r eo ei x' u.
Proof.
  intros Hr HS. destruct i as [rcv snd|d| |p|p|rcv snd]; cbn [exec_instr].
  - destruct (_ && _) eqn:Hc; [|done]. intros [= <- <-]. by eapply wait_preserved.
  - pose proof (data_preserved r g x eo ei a d rest Hr HS) as Hd.
    revert Hd. destruct (exec_data _ _ _ _ _ _ _ _) as [x1 u1]. by intros ? [= <- <-].
  - intros [= <- <-]. by eapply credit_preserved.
  - intros [= <- <-]. by eapply ready_preserved.
  - intros [= <- <-]. eapply post_both_preserved; eauto.
  - intros [= <- <-]. by eapply advance_preserved.
Qed.

(** A running rank with something left of its slice is inside a slice. *)
Lemma live_slice r g x eo ei i rest : triple r g x eo ei -> running x = true ->
  cur x = i :: rest -> exists a, slice_inv r g x eo ei a i rest.
Proof.
  intros HT Hrun Hcur. pose proof (ri_stage _ _ _ _ _ (tr_rank _ _ _ _ _ HT)) as Hs.
  destruct (stg g) eqn:Hg; [by destruct Hs; congruence| |by destruct Hs; congruence].
  destruct Hs as (_ & Hp & HL). destruct (li_body _ _ _ _ _ HL) as [Hb|[a Ha]].
  - destruct Hb as (Hb & _). congruence.
  - exists a. by split.
Qed.

Lemma live_boundary r g x eo ei : triple r g x eo ei -> running x = true -> cur x = [] ->
  stg g = Live /\ pending x = [] /\ live_inv r g x eo ei /\ at_boundary r g x.
Proof.
  intros HT Hrun Hcur. pose proof (ri_stage _ _ _ _ _ (tr_rank _ _ _ _ _ HT)) as Hs.
  destruct (stg g) eqn:Hg; [by destruct Hs; congruence| |by destruct Hs; congruence].
  destruct Hs as (_ & Hp & HL). split_and!; [done..|].
  destruct (li_body _ _ _ _ _ HL) as [Hb|[a (_ & _ & Ht & _)]]; [done|].
  by rewrite Hcur in Ht.
Qed.

Lemma launch_preserved r g x eo ei p ps : is_rank r -> triple r g x eo ei ->
  running x = false -> pending x = p :: ps ->
  preserved r eo ei (launch x p ps) NoEdge.
Proof.
  intros Hr HT Hrun Hp. pose proof (head_le_sstep _ _ _ _ _ HT) as Hh.
  destruct HT as [[Ht Hhd Hrm Hav Hs] Ho Hi]. destruct (stg g); [|by destruct Hs; congruence|].
  2: { destruct Hs as (_ & ? & _). congruence. }
  destruct Hs as (_ & Hpend & Hpos & [Hrp Hsp] & Hsb & Hrb & Hout).
  apply (preserved_quiet r (Ghost 0 Idle Idle Live)).
  assert (sstep r (Ghost 0 Idle Idle Live) = base r /\ sstep r g = base r) as [E1 E1'].
  { unfold sstep. rewrite Hpos. unfold nsend. simpl. lia. }
  assert (rstep r (Ghost 0 Idle Idle Live) = base (prev r) /\
          rstep r g = base (prev r)) as [E2 E2'].
  { unfold rstep. rewrite Hpos. unfold nrecv. simpl. lia. }
  pose proof (msgs_bound r Hr).
  rewrite Hrp, Hsp in *. simpl in *. split; [|done..].
  pose proof (ei_order _ _ Ho). pose proof (ei_order _ _ Hi).
  split; simpl; try lia.
  rewrite Hp in Hpend. injection Hpend as -> ->.
  split_and!; [done|done|]. split; simpl; try lia. by left.
Qed.

Lemma fetch_preserved r g x eo ei o os : is_rank r -> triple r g x eo ei ->
  running x = true -> cur x = [] -> ops x = o :: os ->
  preserved r eo ei
    (Rank (pending x) true os (body sz o) (send_step x) (recv_step x)
       (head_cache x) (tail_cache x) (send_base x) (recv_base x) (output x)) NoEdge.
Proof.
  intros Hr HT Hrun Hcur Hops.
  destruct (live_boundary _ _ _ _ _ HT Hrun Hcur) as (Hg & Hp & HL & _ & Ho & Hrp & Hsp & Hout).
  rewrite Hops in Ho.
  destruct (aprog r !! pos g) as [a|] eqn:Ha.
  2: { apply lookup_ge_None in Ha. by rewrite drop_ge in Ho. }
  rewrite (drop_S _ _ _ Ha) in Ho. simpl in Ho. injection Ho as -> ->.
  apply (preserved_quiet r g).
  eapply (slice_triple r g _ x _ eo ei _ _ a); simpl; try done;
    try apply HT. split_and!; [done..| |].
  - rewrite Hrp, Hsp. apply ts_body.
  - simpl. rewrite (out_after_S r _ a Ha). apply linv_body; [|done].
    intros Hs i Hi. apply (so_local Hok r); try done. by eapply list_elem_of_lookup_2.
Qed.

Lemma finish_preserved r g x eo ei : is_rank r -> triple r g x eo ei ->
  running x = true -> cur x = [] -> ops x = [] -> preserved r eo ei (finish x) NoEdge.
Proof.
  intros Hr HT Hrun Hcur Hops.
  destruct (live_boundary _ _ _ _ _ HT Hrun Hcur) as (Hg & Hp & HL & _ & Ho & Hrp & Hsp & Hout).
  rewrite Hops in Ho. symmetry in Ho. apply fmap_nil_inv in Ho.
  assert (length (aprog r) <= pos g)%nat as Hlen.
  { apply (f_equal length) in Ho. rewrite length_drop in Ho. simpl in Ho. lia. }
  apply (preserved_quiet r (Ghost (length (aprog r)) Idle Idle Done)).
  destruct HT as [[Ht Hhd Hrm Hav _] Heo Hei]. destruct HL.
  assert (forall k, (length (aprog r) <= k)%nat -> take k (aprog r) = aprog r) as Htk.
  { intros. by apply take_ge. }
  assert (sstep r (Ghost (length (aprog r)) Idle Idle Done) = sstep r g) as E1.
  { unfold sstep, nsend. simpl. by rewrite !Htk by lia. }
  assert (rstep r (Ghost (length (aprog r)) Idle Idle Done) = rstep r g) as E2.
  { unfold rstep, nrecv. simpl. by rewrite !Htk by lia. }
  rewrite Hrp, Hsp in *. simpl in *. split; [|done..].
  split; simpl; rewrite ?E1, ?E2; try lia.
  split_and!; try done. intros i. rewrite Hout. unfold out_after. by rewrite !Htk by lia.
Qed.

Lemma poll_tail_preserved r g x eo ei snd rest : is_rank r -> triple r g x eo ei ->
  running x = true -> cur x = IWait true snd :: rest ->
  preserved r eo ei (set_tail_cache x (tail ei)) NoEdge.
Proof.
  intros Hr HT Hrun0 Hcur0. destruct (live_slice _ _ _ _ _ _ _ HT Hrun0 Hcur0) as [a HS].
  open_slice HS. apply (preserved_quiet r g). split; [|done..]. split; try done.
  rewrite Hlive. split_and!; [done..|]. split; simpl; try done; try lia.
  right. exists a. split_and!; simpl; rewrite ?Hcur; try done.
  simpl. by rewrite !andb_true_iff.
Qed.

Lemma poll_head_preserved r g x eo ei rcv rest : is_rank r -> triple r g x eo ei ->
  running x = true -> cur x = IWait rcv true :: rest ->
  preserved r eo ei (set_head_cache x (head eo)) NoEdge.
Proof.
  intros Hr HT Hrun0 Hcur0. destruct (live_slice _ _ _ _ _ _ _ HT Hrun0 Hcur0) as [a HS].
  open_slice HS. apply (preserved_quiet r g). split; [|done..]. split; try done.
  rewrite Hlive. split_and!; [done..|]. split; simpl; try done; try lia.
  right. exists a. split_and!; simpl; rewrite ?Hcur; try done.
  simpl. by rewrite !andb_true_iff.
Qed.

Lemma act_rank_preserved r g x eo ei a x' u : is_rank r -> triple r g x eo ei ->
  act_rank op fin sz slot_elems a false (input r) x eo ei = Some (x', u) ->
  preserved r eo ei x' u.
Proof.
  intros Hr HT. unfold act_rank.
  destruct a, (running x) eqn:Hrun; try done.
  - destruct (pending x) as [|p ps] eqn:Hp; [done|]. intros [= <- <-].
    by eapply launch_preserved.
  - destruct (cur x) eqn:Hcur; [|done]. destruct (ops x) eqn:Hops; [done|].
    intros [= <- <-]. by eapply fetch_preserved.
  - destruct (cur x) as [|[[] snd| | | | |] rest] eqn:Hcur; try done.
    destruct (ready_ok _ _); [done|]. intros [= <- <-]. by eapply poll_tail_preserved.
  - destruct (cur x) as [|[rcv []| | | | |] rest] eqn:Hcur; try done.
    destruct (credit_ok _ _); [done|]. intros [= <- <-]. by eapply poll_head_preserved.
  - destruct (cur x) as [|i rest] eqn:Hcur; [done|].
    destruct (live_slice _ _ _ _ _ _ _ HT Hrun Hcur) as [a HS]. by eapply instr_preserved.
  - destruct (cur x) as [|[| | | |p|] rest] eqn:Hcur; try done. intros [= <- <-].
    destruct (live_slice _ _ _ _ _ _ _ HT Hrun Hcur) as [a HS].
    eapply post_both_preserved; eauto.
  - destruct (cur x) eqn:Hcur; [|done]. destruct (ops x) eqn:Hops; [|done].
    intros [= <- <-]. by eapply finish_preserved.
  - by destruct (cur x) as [|[] ?].
  - by destruct (cur x) as [|[[] []| | | | |] ?].
Qed.

(** ** The invariant of the system *)

Lemma inv_act s r a s' : inv s -> abort s = false -> is_rank r -> act r a s = Some s' ->
  inv s'.
Proof.
  intros [G [HR HE]] Hab Hr. unfold Ring.act. rewrite Hab.
  destruct (act_rank _ _ _ _ _ _ _ _ _ _) as [[x u]|] eqn:Hact; [|done].
  simpl. intros [= <-].
  destruct (act_rank_preserved r (G r) (rk s r) (ed s r) (ed s (prev r)) a x u Hr)
    as (g & [Hrank Hout Hin] & [Gh Gt Gti Gf Ghi]); [|done|].
  { split; [by apply HR|by apply HE|by apply HE, is_rank_prev]. }
  pose proof (prev_ne r Hr) as Hne.
  assert (forall e, match u with NoEdge => ed s | OutEdge e0 => upd (ed s) r e0
                    | InEdge e0 => upd (ed s) (prev r) e0 end e =
    if decide (e = r) then app_out u (ed s r)
    else if decide (e = prev r) then app_in u (ed s (prev r)) else ed s e) as Hed.
  { intros e. destruct u; simpl; repeat case_decide; subst; try done;
      first [by rewrite upd_eq|by rewrite upd_ne by done]. }
  exists (upd G r g). split; simpl; [|]; intros e He; rewrite !Hed.
  - destruct (decide (e = r)) as [->|Hner].
    + rewrite !upd_eq. rewrite decide_False, decide_True by done. done.
    + rewrite !upd_ne by done. rewrite (decide_False (P := prev e = prev r))
        by (intros ?; by apply Hner, prev_inj).
      eapply rank_inv_stable; [by apply HR|..]; repeat case_decide; subst; done.
  - repeat case_decide; subst; auto.
Qed.

Lemma abort_rank_step s s' : rank_step s s' -> abort s' = abort s.
Proof.
  intros [r a s0 s1 Hr Hact]. revert Hact. unfold Ring.act.
  destruct (act_rank _ _ _ _ _ _ _ _ _ _) as [[]|]; [|done]. simpl. by intros [= <-].
Qed.

Lemma inv_rank_step s s' : inv s -> abort s = false -> rank_step s s' -> inv s'.
Proof. intros HI Hab Hst. destruct Hst as [r a s s' Hr Hact]. by eapply inv_act. Qed.

Lemma inv_step s s' : (abort s = false -> inv s) -> step s s' -> abort s' = false -> inv s'.
Proof.
  intros HI Hst Hab. destruct Hst as [s s' Hst|s]; [|done].
  pose proof (abort_rank_step _ _ Hst). eapply inv_rank_step; [apply HI| |]; eauto; congruence.
Qed.

(** The state before the launch. *)
Context (progs : Z -> list (list sop)).
Context (Hprogs : forall r, is_rank r -> progs r = [a_op <$> aprog r]).

Lemma inv_init fifo0 : inv (init n progs base out0 fifo0).
Proof.
  exists (fun _ => Ghost 0 Idle Idle Fresh). split; simpl; intros r Hr.
  - pose proof (so_base Hok r Hr). unfold nsend, nrecv.
    split; simpl; unfold sstep, rstep, nsend, nrecv, kFifoSteps; simpl; try lia.
    split_and!; try done. by apply Hprogs.
  - pose proof (so_base Hok r Hr). split; simpl; intros; lia.
Qed.

Lemma inv_reachable fifo0 s :
  steps step (init n progs base out0 fifo0) s -> abort s = false -> inv s.
Proof.
  intros Hst. cut (abort s = false -> inv s); [done|].
  eapply (steps_invariant step (fun s => abort s = false -> inv s)); [|by intros; apply inv_init|done].
  intros s1 s2 H1 H2 H3. by eapply inv_step.
Qed.

(** When all ranks are done the edges are drained, the base steps of the two
    ends agree and the outputs are those of the annotations. *)
Lemma inv_finished s r : inv s -> finished n s -> is_rank r ->
  (forall i, output (rk s r) i = out_after r (length (aprog r)) i) /\
  head (ed s r) = tail (ed s r) /\
  send_base (rk s r) = tail (ed s r) /\ recv_base (rk s (next r)) = head (ed s r).
Proof.
  intros [G [HR HE]] Hfin Hr.
  assert (forall r, is_rank r -> stg (G r) = Done) as Hd.
  { intros r' Hr'. destruct (Hfin r' Hr') as [Hrun Hp].
    pose proof (ri_stage _ _ _ _ _ (HR r' Hr')) as Hs.
    destruct (stg (G r')); [|by destruct Hs; congruence|done].
    destruct Hs as (_ & Hp' & _). congruence. }
  pose proof (is_rank_next r) as Hn. pose proof (HR r Hr) as [Ht _ _ _ Hs].
  pose proof (HR _ Hn) as [_ Hh _ _ Hs'].
  rewrite (Hd r Hr) in Hs. rewrite (Hd _ Hn) in Hs'.
  destruct Hs as (_ & _ & Hpos & [_ Hsp] & Hsb & _ & Hout).
  destruct Hs' as (_ & _ & Hpos' & [Hrp _] & _ & Hrb & _).
  rewrite prev_next in Hh by done. rewrite Hsp in Ht. rewrite Hrp in Hh. simpl in *.
  assert (rstep (next r) (G (next r)) = sstep r (G r)) as E.
  { unfold rstep, sstep, nsend, nrecv. rewrite prev_next by done.
    rewrite Hpos, Hpos', !firstn_all. by rewrite (so_match Hok r Hr). }
  rewrite <- Hpos. split_and!; [done|lia|lia|lia].
Qed.
End Ring.
