(* ===== verification/RingProgress.v ===== *)
(** * Progress of the ring protocol

    Every action except a turn of a spin loop decreases [weight]; as long as a
    rank has not returned, some rank can perform such an action, because the
    logical times of the blocked slices cannot decrease forever around the
    ring.  A rank that can go on does so within three of its turns, so every
    fair schedule ends within [3 * weight] rounds. *)

From Stdlib Require Import ZArith Lia Sorted.
From stdpp Require Import base option numbers tactics list relations.
From S2P Require Import Prelude Types Geometry Ring RingSafety.

#[local] Open Scope Z_scope.

(** ** The measure *)

Definition instr_weight (i : instr) : nat := match i with IPostBoth _ => 3 | _ => 1 end.

Section Weight.
Context {T : Type} (sz : Z).

Definition body_weight (l : list instr) : nat := sum_list_with instr_weight l.
Definition op_weight (o : sop) : nat := S (body_weight (body sz o)).
Definition prog_weight (l : list sop) : nat := sum_list_with op_weight l.
Definition rank_weight (x : rank_st T) : nat :=
  sum_list_with (fun p => 2 + prog_weight p)%nat (pending x) +
  (if running x then 1 + prog_weight (ops x) + body_weight (cur x) else 0).

Definition is_poll (a : action) : bool :=
  match a with PollTail | PollHead => true | _ => false end.

(** No invariant is needed: this holds of every state. *)
Lemma act_rank_weight (op : T -> T -> T) (fin : T -> T) slot_elems a ab inp x eo ei x' u :
  act_rank op fin sz slot_elems a ab inp x eo ei = Some (x', u) ->
  if is_poll a then rank_weight x' = rank_weight x else (rank_weight x' < rank_weight x)%nat.
Proof.
  unfold act_rank, rank_weight. destruct a, (running x) eqn:Hrun; try done; simpl.
  - destruct (pending x) as [|p ps]; [done|]. intros [= <- <-]. simpl. lia.
  - destruct (cur x); [|done]. destruct (ops x) as [|o os]; [done|].
    intros [= <- <-]. simpl. unfold op_weight. lia.
  - destruct (cur x) as [|[[] ?| | | | |] ?] eqn:Hc; try done. destruct (ready_ok _ _); [done|].
    intros [= <- <-]. simpl. by rewrite Hrun, Hc.
  - destruct (cur x) as [|[? []| | | | |] ?] eqn:Hc; try done. destruct (credit_ok _ _); [done|].
    intros [= <- <-]. simpl. by rewrite Hrun, Hc.
  - destruct (cur x) as [|i rest]; [done|].
    destruct i as [rcv snd|d| |p|p|rcv snd]; cbn [exec_instr].
    + destruct (_ && _); [|done]. intros [= <- <-]. simpl. rewrite Hrun. lia.
    + unfold exec_data. intros [= <- <-]. destruct (writes_out d); simpl; rewrite Hrun; lia.
    + intros [= <- <-]. simpl. rewrite Hrun. lia.
    + intros [= <- <-]. simpl. rewrite Hrun. lia.
    + intros [= <- <-]. simpl. rewrite Hrun. lia.
    + intros [= <- <-]. simpl. rewrite Hrun. lia.
  - destruct (cur x) as [|[| | | |p|] rest]; try done. intros [= <- <-].
    simpl. rewrite Hrun. lia.
  - destruct (cur x); [|done]. destruct (ops x); [|done]. intros [= <- <-]. simpl. lia.
  - destruct (cur x) as [|[] ?]; try done. destruct ab; [|done].
    intros [= <- <-]. simpl. lia.
  - destruct (cur x) as [|[[] []| | | | |] ?]; try done. destruct (_ && _); [|done].
    intros [= <- <-]. simpl. rewrite Hrun. lia.
Qed.

Context (op : T -> T -> T) (fin : T -> T) (slot_elems n : Z) (input : Z -> Z -> T).

Definition weight (s : sys T) : nat := sum_list_with (fun r => rank_weight (rk s r)) (zrange n).

Lemma sum_upd (f : rank_st T -> nat) (g : Z -> rank_st T) r x (l : list Z) :
  NoDup l -> r ∈ l ->
  (sum_list_with (fun k => f (upd g r x k)) l + f (g r) =
   sum_list_with (fun k => f (g k)) l + f x)%nat.
Proof.
  induction l as [|k l IH]; intros Hnd Hin; [by apply elem_of_nil in Hin|].
  apply NoDup_cons in Hnd as [Hk Hnd]. simpl.
  apply elem_of_cons in Hin as [->|Hin].
  - rewrite upd_eq.
    assert (sum_list_with (fun j => f (upd g k x j)) l = sum_list_with (fun j => f (g j)) l) as ->.
    { clear IH Hnd. induction l as [|j l IH]; simpl; [done|].
      apply not_elem_of_cons in Hk as [Hne Hk]. rewrite upd_ne, IH by done. done. }
    lia.
  - rewrite upd_ne by (intros ->; done). specialize (IH Hnd Hin). lia.
Qed.

Lemma act_weight r a s s' : 0 <= r < n ->
  act op fin sz slot_elems n input r a s = Some s' ->
  if is_poll a then weight s' = weight s else (weight s' < weight s)%nat.
Proof.
  intros Hr. unfold act.
  destruct (act_rank _ _ _ _ _ _ _ _ _ _) as [[x u]|] eqn:Ha; [|done].
  simpl. intros [= <-]. apply act_rank_weight in Ha. unfold weight. simpl.
  pose proof (sum_upd rank_weight (rk s) r x (zrange n)) as Hs.
  specialize (Hs (NoDup_seqZ _ _) (proj2 (elem_of_zrange _ _) Hr)).
  destruct (is_poll a); lia.
Qed.
End Weight.

(** ** Ranks that are about to move *)

Section Ready.
Context {T : Type} (op : T -> T -> T) (fin : T -> T) (sz slot_elems n : Z).
Context (input : Z -> Z -> T).

Abbreviation act := (act op fin sz slot_elems n input).
Abbreviation act_rank := (act_rank op fin sz slot_elems).
Abbreviation rank_turn := (rank_turn op fin sz slot_elems n input).
Abbreviation turns := (turns op fin sz slot_elems n input).
Abbreviation fair_round := (fair_round op fin sz slot_elems n input).

(** Some action is enabled, and only [k] of them in a row can be turns of a
    spin loop. *)
Fixpoint ready (k : nat) (inp : Z -> T) (x : rank_st T) (eo ei : edge_st T) : Prop :=
  (exists a, is_Some (act_rank a false inp x eo ei)) /\
  forall a x' u, act_rank a false inp x eo ei = Some (x', u) ->
    if is_poll a then match k with O => False | S k => ready k inp x' eo ei end else True.

Definition ready_at (k : nat) (r : Z) (s : sys T) : Prop :=
  ready k (input r) (rk s r) (ed s r) (ed s (prev n r)).

(** The caches that a wait still has to refresh. *)
Definition stale (rcv snd : bool) (x : rank_st T) : nat :=
  (if rcv && negb (ready_ok (tail_cache x) (recv_step x)) then 1 else 0) +
  (if snd && negb (credit_ok (head_cache x) (send_step x)) then 1 else 0).

Lemma wait_enabled inp x eo ei rcv snd rest : running x = true -> cur x = IWait rcv snd :: rest ->
  exists a, is_Some (act_rank a false inp x eo ei).
Proof.
  intros Hrun Hcur.
  destruct rcv, snd, (ready_ok (tail_cache x) (recv_step x)) eqn:Er,
    (credit_ok (head_cache x) (send_step x)) eqn:Ec;
    first [ exists Go; unfold Ring.act_rank; rewrite Hrun, Hcur; cbn [exec_instr];
            rewrite ?Er, ?Ec; by eexists
          | exists PollTail; unfold Ring.act_rank; rewrite Hrun, Hcur, Er; by eexists
          | exists PollHead; unfold Ring.act_rank; rewrite Hrun, Hcur, Ec; by eexists ].
Qed.

Lemma wait_poll a inp x eo ei rcv snd rest x' u : is_poll a = true -> cur x = IWait rcv snd :: rest ->
  implb rcv (ready_ok (tail ei) (recv_step x)) = true ->
  implb snd (credit_ok (head eo) (send_step x)) = true ->
  act_rank a false inp x eo ei = Some (x', u) ->
  stale rcv snd x = S (stale rcv snd x') /\ running x' = true /\ cur x' = cur x /\
  recv_step x' = recv_step x /\ send_step x' = send_step x.
Proof.
  intros Hp Hcur Ht Hh. unfold Ring.act_rank, stale. rewrite Hcur.
  destruct a; try done; destruct (running x) eqn:Hrun; try done; destruct rcv, snd; try done; simpl in Ht, Hh.
  all: destruct (ready_ok (tail_cache x) (recv_step x)) eqn:Er,
    (credit_ok (head_cache x) (send_step x)) eqn:Ec; try done.
  all: intros [= <- <-]; simpl; by rewrite ?Ht, ?Hh, ?Er, ?Ec.
Qed.

Lemma ready_wait k inp x eo ei rcv snd rest :
  running x = true -> cur x = IWait rcv snd :: rest ->
  implb rcv (ready_ok (tail ei) (recv_step x)) = true ->
  implb snd (credit_ok (head eo) (send_step x)) = true ->
  (stale rcv snd x <= k)%nat -> ready k inp x eo ei.
Proof.
  revert x. induction k as [|k IH]; intros x Hrun Hcur Ht Hh Hk; cbn [ready].
  all: split; [by eapply wait_enabled|]; intros a x' u Ha; destruct (is_poll a) eqn:Hp; [|done].
  all: destruct (wait_poll a inp x eo ei rcv snd rest x' u Hp Hcur Ht Hh Ha) as (Hs & Hr & Hc & E1 & E2).
  - lia.
  - apply IH; rewrite ?E1, ?E2; try done; [congruence|lia].
Qed.

(** A turn of a spin loop touches the caches of its own rank only. *)
Lemma act_poll r a s s' : is_poll a = true -> act r a s = Some s' ->
  ed s' = ed s /\ abort s' = abort s /\ (forall x, x <> r -> rk s' x = rk s x) /\
  exists u, act_rank a (abort s) (input r) (rk s r) (ed s r) (ed s (prev n r)) = Some (rk s' r, u).
Proof.
  unfold Ring.act. destruct (act_rank _ _ _ _ _ _) as [[x u]|] eqn:Ha; [|done].
  intros Hp [= <-]. cbn. rewrite upd_eq. split_and!; [|done| |by eexists].
  - unfold Ring.act_rank in Ha. destruct a, (running (rk s r)); try done;
      destruct (cur (rk s r)) as [|[[] []| | | | |] ?]; try done;
      destruct (ready_ok _ _) || destruct (credit_ok _ _); by simplify_eq.
  - intros y Hy. by rewrite upd_ne.
Qed.

Lemma turn_weight r s s' : 0 <= r < n -> rank_turn r s s' ->
  abort s' = abort s /\ (weight sz n s' <= weight sz n s)%nat.
Proof.
  intros Hr [a s0 s1 Ha|]; [|done]. split.
  - revert Ha. unfold Ring.act. destruct (act_rank _ _ _ _ _ _) as [[]|]; [|done]. by intros [= <-].
  - pose proof (act_weight sz op fin slot_elems n input r a s0 s1 Hr Ha). destruct (is_poll a); lia.
Qed.

Lemma turns_weight order s s' : turns order s s' ->
  abort s' = abort s /\ (weight sz n s' <= weight sz n s)%nat.
Proof.
  induction 1 as [|r order s1 s2 s3 Hr Ht _ [IHa IHw]]; [done|].
  apply turn_weight in Ht as [? ?]; [|done]. split; [congruence|lia].
Qed.

Lemma turn_ready k r x s s' : abort s = false -> 0 <= x < n -> ready_at k r s ->
  rank_turn x s s' -> (weight sz n s' < weight sz n s)%nat \/
  exists k', ready_at k' r s' /\ (k' + (if decide (x = r) then 1 else 0) <= k)%nat.
Proof.
  intros Hab Hx Hrd Ht. revert Hab Hrd. destruct Ht as [a s0 s1 Ha|s0 Hn]; intros Hab Hrd.
  - pose proof (act_weight sz op fin slot_elems n input x a s0 s1 Hx Ha) as Hw.
    destruct (is_poll a) eqn:Hp; [|by left]. right.
    destruct (act_poll x a s0 s1 Hp Ha) as (He & _ & Hrk & u & Hu). rewrite Hab in Hu.
    unfold ready_at in *. rewrite He. destruct (decide (x = r)) as [->|Hne].
    + destruct k as [|k]; destruct Hrd as [_ Hrd]; specialize (Hrd _ _ _ Hu); rewrite Hp in Hrd; [done|].
      exists k. split; [done|lia].
    + exists k. rewrite Hrk by done. split; [done|lia].
  - right. destruct (decide (x = r)) as [->|Hne]; [|exists k; split; [done|lia]].
    assert (exists a, is_Some (act_rank a false (input r) (rk s0 r) (ed s0 r) (ed s0 (prev n r))))
      as (a & [[y u] Ha]) by (destruct k; apply Hrd).
    specialize (Hn a). unfold Ring.act in Hn. by rewrite Hab, Ha in Hn.
Qed.

Lemma turns_ready order k r s s' : abort s = false -> ready_at k r s -> turns order s s' ->
  (weight sz n s' < weight sz n s)%nat \/
  exists k', ready_at k' r s' /\ (k' + (if decide (r ∈ order) then 1 else 0) <= k)%nat.
Proof.
  intros Hab Hrd Ht. revert k Hab Hrd.
  induction Ht as [s|x order s1 s2 s3 Hx Ht Hts IH]; intros k Hab Hrd.
  { right. exists k. rewrite decide_False by (by intros ?%elem_of_nil). split; [done|lia]. }
  pose proof (turn_weight x s1 s2 Hx Ht) as [Ha Hw]. pose proof (turns_weight _ _ _ Hts) as [_ Hw'].
  destruct (turn_ready k r x s1 s2) as [?|(k' & Hrd' & Hk')]; try done; [left; lia|].
  destruct (IH k') as [?|(k'' & Hrd'' & Hk'')]; [congruence|done|left; lia|].
  right. exists k''. split; [done|].
  destruct (decide (x = r)), (decide (r ∈ order)), (decide (r ∈ x :: order)) as [[]%elem_of_cons|];
    try congruence; lia.
Qed.

Lemma rounds_weight k s s' : nsteps fair_round k s s' ->
  abort s' = abort s /\ (weight sz n s' <= weight sz n s)%nat.
Proof.
  induction 1 as [|k s1 s2 s3 (order & _ & Ht) _ [IHa IHw]]; [done|].
  apply turns_weight in Ht as [? ?]. split; [congruence|lia].
Qed.

Lemma rounds_ready m k r s s' : 0 <= r < n -> (k < m)%nat -> abort s = false -> ready_at k r s ->
  nsteps fair_round m s s' -> (weight sz n s' < weight sz n s)%nat.
Proof.
  intros Hr Hkm Hab Hrd Hn. revert k Hkm Hab Hrd.
  induction Hn as [|m s1 s2 s3 (order & Hall & Ht) Hn IH]; intros k Hkm Hab Hrd; [lia|].
  pose proof (turns_weight _ _ _ Ht) as [Ha Hw]. pose proof (rounds_weight _ _ _ Hn) as [_ Hw'].
  destruct (turns_ready _ _ _ _ _ Hab Hrd Ht) as [?|(k' & Hrd' & Hk')]; [lia|].
  rewrite decide_True in Hk' by auto.
  eapply Nat.lt_le_trans; [apply (IH k')|]; [lia|congruence|done|done].
Qed.

(** Nothing happens after all kernels have returned. *)
Lemma rounds_finished m s s' : finished n s -> nsteps fair_round m s s' -> s' = s.
Proof.
  intros Hf Hn. induction Hn as [|m s1 s2 s3 (order & _ & Ht) Hn IH]; [done|].
  enough (s2 = s1) as -> by auto. clear Hn IH s3.
  induction Ht as [|r order s1 s2 s3 Hr Ht _ IH]; [done|].
  enough (s2 = s1) as -> by auto. revert Hf. destruct Ht as [a s1 s2 Ha|]; [|done]. intros Hf.
  exfalso. destruct (Hf r Hr) as [Hrun Hp]. revert Ha. unfold Ring.act, Ring.act_rank.
  rewrite Hrun, Hp. by destruct a.
Qed.
End Ready.

(** ** Deadlock freedom *)

Section Progress.
Context {T M : Type} (op : T -> T -> T) (fin : T -> T) (sz slot_elems n : Z).
Context (input : Z -> Z -> T) (den : M -> Z -> T).
Context (aprog : Z -> list (aop M)) (base : Z -> Z) (out0 : Z -> Z -> T).
Context (Hok : schedule_ok op fin slot_elems n input den aprog base).

Abbreviation next := (next n).
Abbreviation prev := (prev n).
Abbreviation is_rank := (is_rank n).
Abbreviation act := (act op fin sz slot_elems n input).
Abbreviation rank_step := (rank_step op fin sz slot_elems n input).
Abbreviation fair_round := (fair_round op fin sz slot_elems n input).
Abbreviation ready_at := (ready_at op fin sz slot_elems n input).
Abbreviation rank_inv :=
  (rank_inv op fin sz slot_elems n input den aprog base out0).
Abbreviation edge_inv := (edge_inv sz slot_elems den aprog base).
Abbreviation inv := (inv op fin sz slot_elems n input den aprog base out0).
Abbreviation sstep := (sstep aprog base).
Abbreviation rstep := (rstep n aprog base).
Abbreviation msgs := (msgs aprog).
Abbreviation nsend := (nsend aprog).
Abbreviation nrecv := (nrecv aprog).

(** *** Logical times *)

Lemma sorted_tail r p a b : is_rank r -> aprog r !! p = Some a ->
  b ∈ drop p (aprog r) -> a_time a <= a_time b.
Proof.
  intros Hr Ha Hb. pose proof (so_time _ _ _ _ _ _ _ _ Hok r Hr) as Hs.
  apply list_elem_of_lookup in Hb as [k Hb]. rewrite lookup_drop in Hb.
  pose proof (sorted_gap a_time _ p (p + k) a b Hs ltac:(lia) Ha Hb). lia.
Qed.

(** The current slice is not later than the next message of its rank. *)
Lemma time_le_send r p a t w m : is_rank r -> aprog r !! p = Some a ->
  msgs r !! Z.to_nat (nsend r p) = Some (t, w, m) -> a_time a + 2 <= t.
Proof.
  intros Hr Ha Hm. unfold RingSafety.nsend in Hm. rewrite Nat2Z.id in Hm.
  apply omap_drop_lookup in Hm as (b & Hb & Hf).
  pose proof (sorted_tail r p a b Hr Ha Hb). unfold sent in Hf.
  destruct (sends (a_prim b)); simplify_eq. lia.
Qed.

Lemma time_le_recv r p a t w m : is_rank r -> aprog r !! p = Some a ->
  msgs (prev r) !! Z.to_nat (nrecv r p) = Some (t, w, m) -> a_time a <= t.
Proof.
  intros Hr Ha Hm. unfold RingSafety.nrecv, RingSafety.msgs in Hm.
  rewrite (so_match _ _ _ _ _ _ _ _ Hok), Nat2Z.id in Hm by (by eapply is_rank_prev).
  rewrite (next_prev _ _ _ _ _ _ _ _ Hok) in Hm by done.
  apply omap_drop_lookup in Hm as (b & Hb & Hf).
  pose proof (sorted_tail r p a b Hr Ha Hb). unfold recvd in Hf.
  destruct (recvs (a_prim b)); simplify_eq. lia.
Qed.

(** Send times are strictly increasing integers. *)
Lemma msgs_times r j k tj wj mj tk wk mk : is_rank r -> (j <= k)%nat ->
  msgs r !! j = Some (tj, wj, mj) -> msgs r !! k = Some (tk, wk, mk) ->
  tj + Z.of_nat (k - j) <= tk.
Proof.
  intros Hr. pose proof (so_time _ _ _ _ _ _ _ _ Hok r Hr) as Hs. unfold RingSafety.msgs.
  assert (StronglySorted (fun x y => x.1.1 < y.1.1) (omap sent (aprog r))) as Hm.
  { clear -Hs. induction Hs as [|a l Hs IH Hall]; csimpl; [constructor|].
    destruct (sent a) as [[[t w] m]|] eqn:Ha; [|done]. constructor; [done|].
    apply Forall_forall. intros [[t' w'] m'] Hin. rewrite Forall_forall in Hall.
    apply list_elem_of_omap in Hin as (b & Hb & Hsb). specialize (Hall b Hb).
    unfold sent in *. destruct (sends (a_prim a)), (sends (a_prim b)); simplify_eq/=. lia. }
  intros Hjk Hj Hk. pose proof (sorted_gap (fun x => x.1.1) _ j k _ _ Hm Hjk Hj Hk).
  simpl in *. lia.
Qed.

(** *** What a single rank can do *)

(** Rank [r] needs at most [k] more turns of its spin loops before it does
    something else, whichever of its enabled actions it chooses. *)
Definition can_go (s : sys T) : Prop :=
  exists r k, is_rank r /\ (k <= 2)%nat /\ ready_at k r s.

Lemma can_go_act r a s : is_rank r -> abort s = false ->
  is_Some (act_rank op fin sz slot_elems a false (input r) (rk s r) (ed s r) (ed s (prev r))) ->
  (forall rcv snd rest, cur (rk s r) = IWait rcv snd :: rest -> running (rk s r) = false) -> can_go s.
Proof.
  intros Hr Hab Ha Hc. exists r, 0%nat. split; [done|]. split; [lia|]. split; [by exists a|].
  intros b x' u Hb. unfold act_rank in Hb. revert Hc Hb.
  destruct (cur (rk s r)) as [|[rcv snd| | | | |] rest]; intros Hc; destruct b;
    destruct (running (rk s r)); try done.
  all: by specialize (Hc rcv snd rest eq_refl).
Qed.

Lemma can_go_wait r s rcv snd rest : is_rank r -> abort s = false ->
  running (rk s r) = true -> cur (rk s r) = IWait rcv snd :: rest ->
  implb rcv (ready_ok (tail (ed s (prev r))) (recv_step (rk s r))) = true ->
  implb snd (credit_ok (head (ed s r)) (send_step (rk s r))) = true ->
  can_go s.
Proof.
  intros Hr Hab Hrun Hcur H1 H2. exists r, 2%nat. split; [done|]. split; [lia|].
  eapply ready_wait; eauto. unfold stale.
  destruct (rcv && _), (snd && _); simpl; lia.
Qed.

(** *** Blocked ranks *)

Record blocked (r : Z) (g : ghost) (a : aop M) : Prop := {
  bl_live : stg g = Live; bl_idle : idle g; bl_op : aprog r !! pos g = Some a }.

Definition blocked_recv (s : sys T) (r : Z) (g : ghost) : Prop :=
  exists a, blocked r g a /\ recvs (a_prim a) = true /\
    tail (ed s (prev r)) < rstep r g + 2.
Definition blocked_send (s : sys T) (r : Z) (g : ghost) : Prop :=
  exists a, blocked r g a /\ sends (a_prim a) = true /\
    head (ed s r) + kFifoSteps < sstep r g + 2.

Lemma wait_cases s r g x rcv snd rest : is_rank r -> abort s = false -> x = rk s r ->
  rank_inv r g x (ed s r) (ed s (prev r)) -> edge_inv r (ed s r) ->
  running x = true -> cur x = IWait rcv snd :: rest ->
  blocked_recv s r g \/ blocked_send s r g \/ can_go s.
Proof.
  intros Hr Hab -> HI HE Hrun Hcur.
  destruct HI as [Ht Hh Hrm Hav Hs].
  destruct (stg g) eqn:Hg; [by destruct Hs; congruence| |by destruct Hs; congruence].
  destruct Hs as (_ & _ & [Hss Hrs Hhc _ _ _ [(Hb & _)|[a (Ha & _ & Hts & _)]]]); [congruence|].
  rewrite Hcur in Hts. simpl in Hts. rewrite !andb_true_iff, !bool_decide_eq_true in Hts.
  destruct Hts as ((((Er & Es) & Hrp) & Hsp) & _).
  apply eqb_prop in Er as ->; apply eqb_prop in Es as ->.
  assert (blocked r g a) as HB by by split.
  rewrite Hrp, Hsp in *. simpl in *. pose proof (ei_order _ _ _ _ _ _ _ HE).
  destruct (recvs (a_prim a)) eqn:HR.
  1: destruct (decide (rstep r g + 2 <= tail (ed s (prev r)))) as [Hrd|Hrd];
       [|left; exists a; split_and!; [done..|lia]].
  all: destruct (sends (a_prim a)) eqn:HS.
  all: try (destruct (decide (sstep r g + 2 <= head (ed s r) + kFifoSteps)) as [Hcr|Hcr];
              [|right; left; exists a; split_and!; [done..|lia]]).
  all: right; right; eapply (can_go_wait r s); eauto; simpl; try done;
    rewrite ?Hss, ?Hrs.
  all: first
    [ by rewrite (ready_ok_spec _ _ _ _ _ _ _ _ Hok), bool_decide_eq_true by done
    | by rewrite (credit_ok_spec _ _ _ _ _ _ _ _ Hok), bool_decide_eq_true
        by (unfold kFifoSteps in *; lia || done) ].
Qed.

Lemma rank_cases s r g : is_rank r -> abort s = false ->
  rank_inv r g (rk s r) (ed s r) (ed s (prev r)) -> edge_inv r (ed s r) ->
  stg g = Done \/ blocked_recv s r g \/ blocked_send s r g \/ can_go s.
Proof.
  intros Hr Hab HI HE. pose proof (ri_stage _ _ _ _ _ _ _ _ _ _ _ _ _ _ _ HI) as Hs.
  destruct (stg g) eqn:Hg; [| |by left]; right.
  - destruct Hs as (Hrun & Hp & _). right; right. apply (can_go_act r Launch); try done.
    unfold act_rank. rewrite Hrun, Hp. by eexists.
  - destruct Hs as (Hrun & _ & _). destruct (cur (rk s r)) as [|i rest] eqn:Hcur.
    + right; right. destruct (ops (rk s r)) as [|o os] eqn:Hops;
        [apply (can_go_act r Finish)|apply (can_go_act r Fetch)]; try done; try congruence;
        unfold act_rank; rewrite Hrun, Hcur, Hops; by eexists.
    + destruct i as [rcv snd|d| |p|p|rcv snd].
      1: by eapply wait_cases.
      all: right; right; apply (can_go_act r Go); try done; try congruence;
        unfold act_rank; rewrite Hrun, Hcur; cbn; by eexists.
Qed.

(** *** No cycle of blocked ranks *)

Section Blocked.
Context (s : sys T) (G : Z -> ghost).
Context (HR : forall r, is_rank r -> rank_inv r (G r) (rk s r) (ed s r) (ed s (prev r))).
Context (Hcases : forall r, is_rank r ->
  stg (G r) = Done \/ blocked_recv s r (G r) \/ blocked_send s r (G r)).

Lemma all_idle r : is_rank r -> idle (G r).
Proof.
  intros Hr. pose proof (ri_stage _ _ _ _ _ _ _ _ _ _ _ _ _ _ _ (HR r Hr)) as Hs.
  destruct (Hcases r Hr) as [Hd|[(a & [] & _)|(a & [] & _)]]; [|done..].
  rewrite Hd in Hs. tauto.
Qed.

(** With no slice in flight the control words are the steps. *)
Lemma idle_words r : is_rank r ->
  tail (ed s r) = sstep r (G r) /\ head (ed s r) = rstep (next r) (G (next r)).
Proof.
  intros Hr. assert (is_rank (next r)) as Hn by (by eapply is_rank_next).
  destruct (all_idle r Hr) as [_ Hsp]. destruct (all_idle _ Hn) as [Hrp _].
  destruct (HR r Hr) as [Ht _ _ _ _]. destruct (HR _ Hn) as [_ Hh _ _ _].
  rewrite (prev_next _ _ _ _ _ _ _ _ Hok) in Hh by done.
  rewrite Hsp in Ht. rewrite Hrp in Hh. simpl in *. lia.
Qed.

Lemma rstep_next r : is_rank r ->
  rstep (next r) (G (next r)) = base r + 2 * nrecv (next r) (pos (G (next r))).
Proof. intros Hr. unfold RingSafety.rstep. by rewrite (prev_next _ _ _ _ _ _ _ _ Hok). Qed.

(** A rank that waits for data waits for an earlier slice of its
    predecessor. *)
Lemma blocked_recv_earlier r a : is_rank r -> blocked r (G r) a ->
  recvs (a_prim a) = true -> tail (ed s (prev r)) < rstep r (G r) + 2 ->
  exists b, blocked (prev r) (G (prev r)) b /\ a_time b < a_time a.
Proof.
  intros Hr HB HRa Hlt. assert (is_rank (prev r)) as Hp by (by eapply is_rank_prev).
  destruct (idle_words _ Hp) as [Ht Hh].
  rewrite (rstep_next _ Hp) in Hh.
  rewrite (next_prev _ _ _ _ _ _ _ _ Hok) in Hh by done.
  pose proof (ri_avail _ _ _ _ _ _ _ _ _ _ _ _ _ _ _ (HR r Hr)) as Hav.
  destruct (bl_idle _ _ _ HB) as [Hrp _]. rewrite Hrp in Hav. simpl in Hav.
  assert (nsend (prev r) (pos (G (prev r))) = nrecv r (pos (G r))) as Heq.
  { unfold RingSafety.rstep, RingSafety.sstep in *. lia. }
  pose proof (msg_in _ _ _ _ _ _ _ _ Hok r _ a Hr (bl_op _ _ _ HB) HRa) as Hm.
  rewrite <- Heq in Hm.
  destruct (Hcases _ Hp) as [Hd|[(b & Hb & _)|(b & Hb & _)]].
  - exfalso. pose proof (ri_stage _ _ _ _ _ _ _ _ _ _ _ _ _ _ _ (HR _ Hp)) as Hs.
    rewrite Hd in Hs. destruct Hs as (_ & _ & Hpos & _).
    rewrite Hpos in Hm. unfold RingSafety.nsend in Hm. rewrite firstn_all, Nat2Z.id in Hm.
    apply lookup_lt_Some in Hm. unfold RingSafety.msgs in Hm. lia.
  - exists b. split; [done|].
    pose proof (time_le_send _ _ b _ _ _ Hp (bl_op _ _ _ Hb) Hm). lia.
  - exists b. split; [done|].
    pose proof (time_le_send _ _ b _ _ _ Hp (bl_op _ _ _ Hb) Hm). lia.
Qed.

(** A rank that waits for credit waits for an earlier slice of its
    successor: four slots are four messages, two ring steps apart. *)
Lemma blocked_send_earlier r a : is_rank r -> blocked r (G r) a ->
  sends (a_prim a) = true -> head (ed s r) + kFifoSteps < sstep r (G r) + 2 ->
  exists b, blocked (next r) (G (next r)) b /\ a_time b < a_time a.
Proof.
  intros Hr HB HSa Hlt. assert (is_rank (next r)) as Hn by (by eapply is_rank_next).
  destruct (idle_words _ Hr) as [_ Hh]. rewrite (rstep_next _ Hr) in Hh.
  unfold kFifoSteps, RingSafety.sstep in *.
  pose proof (msg_out aprog r _ a (bl_op _ _ _ HB) HSa) as Hm.
  set (k := nsend r (pos (G r))) in *. set (j := nrecv (next r) (pos (G (next r)))) in *.
  assert (0 <= j) by (unfold j, RingSafety.nrecv; lia).
  destruct (lookup_lt_is_Some_2 (msgs r) (Z.to_nat j)) as [[[t w] m] Hj].
  { apply lookup_lt_Some in Hm. lia. }
  pose proof (msgs_times r (Z.to_nat j) (Z.to_nat k) _ _ _ _ _ _ Hr
    ltac:(lia) Hj Hm) as Htm.
  assert (msgs (prev (next r)) !! Z.to_nat j = Some (t, w, m)) as Hj'
    by by rewrite (prev_next _ _ _ _ _ _ _ _ Hok).
  destruct (Hcases _ Hn) as [Hd|[(b & Hb & _)|(b & Hb & _)]].
  - exfalso. pose proof (ri_stage _ _ _ _ _ _ _ _ _ _ _ _ _ _ _ (HR _ Hn)) as Hs.
    rewrite Hd in Hs. destruct Hs as (_ & _ & Hpos & _).
    unfold j, RingSafety.nrecv in Hj. rewrite Hpos, firstn_all, Nat2Z.id in Hj.
    rewrite <- (so_match _ _ _ _ _ _ _ _ Hok r Hr) in Hj.
    apply lookup_lt_Some in Hj. unfold RingSafety.msgs in Hj. lia.
  - exists b. split; [done|].
    pose proof (time_le_recv _ _ b _ _ _ Hn (bl_op _ _ _ Hb) Hj'). lia.
  - exists b. split; [done|].
    pose proof (time_le_recv _ _ b _ _ _ Hn (bl_op _ _ _ Hb) Hj'). lia.
Qed.

Lemma none_blocked k r a : is_rank r -> blocked r (G r) a -> a_time a < k -> False.
Proof.
  intros Hr HB Hlt.
  assert (0 <= a_time a) as H0.
  { apply (so_time0 _ _ _ _ _ _ _ _ Hok r); [done|].
    by eapply list_elem_of_lookup_2, bl_op. }
  assert (0 <= k) as Hk by lia. revert r a Hr HB Hlt H0.
  pattern k; apply natlike_ind; [intros; lia| |done]. clear k Hk. intros k Hk' IH.
  intros r a Hr HB Hlt H0.
  assert (forall r' b, is_rank r' -> blocked r' (G r') b -> a_time b < a_time a -> False) as IH'.
  { intros r' b Hr' Hb Hlt'. eapply (IH r' b); try done; [lia|].
    apply (so_time0 _ _ _ _ _ _ _ _ Hok r'); [done|]. by eapply list_elem_of_lookup_2, bl_op. }
  destruct (Hcases r Hr) as [Hd|[(b & Hb & Hr1 & Hr2)|(b & Hb & Hs1 & Hs2)]].
  - destruct HB; congruence.
  - assert (a = b) as <- by (destruct HB, Hb; congruence).
    destruct (blocked_recv_earlier r a Hr HB Hr1 Hr2) as (c & Hc & Hlt').
    eapply IH'; [|done..]. by eapply is_rank_prev.
  - assert (a = b) as <- by (destruct HB, Hb; congruence).
    destruct (blocked_send_earlier r a Hr HB Hs1 Hs2) as (c & Hc & Hlt').
    eapply IH'; [|done..]. by eapply is_rank_next.
Qed.

Lemma all_done r : is_rank r -> stg (G r) = Done.
Proof.
  intros Hr. destruct (Hcases r Hr) as [Hd|[(a & Ha & _)|(a & Ha & _)]]; [done|exfalso..];
    (eapply (none_blocked (a_time a + 1)); [done..|lia]).
Qed.
End Blocked.

(** Some rank can go on unless all have returned. *)
Lemma inv_progress s : inv s -> abort s = false -> finished n s \/ can_go s.
Proof.
  intros [G [HR HE]] Hab.
  destruct (zrange_or n (fun r =>
    stg (G r) = Done \/ blocked_recv s r (G r) \/ blocked_send s r (G r)) (can_go s))
    as [Hc|?]; [|left|by right].
  { intros r Hr. destruct (rank_cases s r (G r) Hr Hab (HR r Hr) (HE r Hr)); tauto. }
  intros r Hr. pose proof (ri_stage _ _ _ _ _ _ _ _ _ _ _ _ _ _ _ (HR r Hr)) as Hs.
  rewrite (all_done s G HR Hc r Hr) in Hs. tauto.
Qed.

Lemma inv_rank_steps s s' : inv s -> abort s = false -> steps rank_step s s' ->
  inv s' /\ abort s' = false.
Proof.
  intros HI Hab. apply (steps_invariant rank_step (fun s => inv s /\ abort s = false)); [|done].
  intros s1 s2 [H1 H2] H12. pose proof (abort_rank_step _ _ _ _ _ _ _ _ H12).
  split; [|congruence]. by eapply inv_rank_step.
Qed.

(** Three fair rounds make progress. *)
Lemma inv_rounds3 s s' : inv s -> abort s = false -> nsteps fair_round 3 s s' ->
  finished n s \/ (weight sz n s' < weight sz n s)%nat.
Proof.
  intros HI Hab Hn. destruct (inv_progress s HI Hab) as [|(r & k & Hr & Hk & Hrd)]; [by left|right].
  eapply (rounds_ready op fin sz slot_elems n input 3 k r); [done|lia|done..].
Qed.

(** Every sequence of three times [weight] fair rounds ends with all kernels
    returned. *)
Lemma inv_fair s m s' : inv s -> abort s = false -> (3 * weight sz n s <= m)%nat ->
  nsteps fair_round m s s' -> finished n s' /\ abort s' = false.
Proof.
  remember (weight sz n s) as w eqn:Hw. revert s m Hw.
  induction (lt_wf w) as [w _ IH]; intros s m -> HI Hab Hm Hn.
  destruct (fair_rounds_total op fin sz slot_elems n input 3 s) as [s3 H3].
  destruct (inv_rounds3 s s3 HI Hab H3) as [Hf|Hlt].
  { by rewrite (rounds_finished op fin sz slot_elems n input m s s' Hf Hn). }
  replace m with (3 + (m - 3))%nat in Hn by lia.
  apply nsteps_add_inv in Hn as (s1 & H1 & Hn). clear s3 H3 Hlt.
  destruct (inv_rank_steps s s1 HI Hab) as [HI1 Ha1]; [by eapply fair_rounds_steps|].
  destruct (inv_rounds3 s s1 HI Hab H1) as [Hf|Hlt].
  - rewrite (rounds_finished op fin sz slot_elems n input 3 s s1 Hf H1) in *.
    by rewrite (rounds_finished op fin sz slot_elems n input (m - 3) s s' Hf Hn).
  - eapply (IH _ Hlt s1 (m - 3)%nat); [done..|lia|done].
Qed.
End Progress.
