(* ===== verification/RingProgram.v ===== *)
(** * What the ring protocol promises to the collectives

    [RingProgram] is the interface between the protocol and the kernels: the
    slice programs of all ranks are those of a well-matched schedule.  The
    theorems of this file hold for every such program; the three collectives
    discharge it in [Collectives]. *)

From Stdlib Require Import ZArith Lia Sorted.
From stdpp Require Import base option numbers tactics list relations.
From S2P Require Import Prelude Types Geometry Ring RingSafety RingProgress.

#[local] Open Scope Z_scope.

Class RingProgram {T : Type} (op : T -> T -> T) (fin : T -> T) (slot_elems n : Z)
    (input : Z -> Z -> T) (base : Z -> Z) (prog : Z -> list sop) := {
  rp_msg : Type;
  rp_den : rp_msg -> Z -> T;
  rp_aprog : Z -> list (aop rp_msg);
  rp_ok : schedule_ok op fin slot_elems n input rp_den rp_aprog base;
  rp_prog r : 0 <= r < n -> prog r = a_op <$> rp_aprog r;
}.

(** The messages of edge [e]: number of elements and contents, in order. *)
Definition rp_messages {T op fin slot_elems n input base prog}
    `{RP : @RingProgram T op fin slot_elems n input base prog} (e : Z) : list (Z * (Z -> T)) :=
  (fun '(_, w, m) => (w, rp_den m)) <$> msgs rp_aprog e.

Section Protocol.
Context {T : Type} (op : T -> T -> T) (fin : T -> T) (sz slot_elems n : Z).
Context (input : Z -> Z -> T) (base : Z -> Z) (prog : Z -> list sop).
Context `{RP : !RingProgram op fin slot_elems n input base prog}.
Context (out0 fifo0 : Z -> Z -> T).

Abbreviation s0 := (init n (fun r => [prog r]) base out0 fifo0).
Abbreviation step := (step op fin sz slot_elems n input).
Abbreviation rank_step := (rank_step op fin sz slot_elems n input).
Abbreviation inv := (inv op fin sz slot_elems n input rp_den rp_aprog base out0).

Lemma protocol_inv s : steps step s0 s -> abort s = false -> inv s.
Proof.
  eapply inv_reachable; [apply rp_ok|]. intros r Hr. by rewrite rp_prog.
Qed.

(** The word pair of an edge: the producer never laps the consumer. *)
Lemma protocol_words s e : steps step s0 s -> abort s = false -> 0 <= e < n ->
  base e <= head (ed s e) <= tail (ed s e) /\ tail (ed s e) <= head (ed s e) + kFifoSteps.
Proof.
  intros Hst Hab He. destruct (protocol_inv s Hst Hab) as (G & HR & HE).
  pose proof (ei_order _ _ _ _ _ _ _ (HE e He)) as Ho.
  destruct (HR e He) as [Ht _ Hrm _ _]. split; [tauto|].
  destruct (sp (G e)); simpl in *; lia.
Qed.

(** What a rank reads is the next message of its predecessor. *)
Lemma protocol_delivery s r d rest : steps step s0 s -> abort s = false -> 0 <= r < n ->
  running (rk s r) = true -> cur (rk s r) = IData d :: rest -> reads_recv d = true ->
  exists k m, rp_messages (prev n r) !! k = Some (d_work d, m) /\
    recv_step (rk s r) = base (prev n r) + kSliceSteps * Z.of_nat k /\
    (forall i, 0 <= i < d_work d ->
       fifo (ed s (prev n r)) (slot_base slot_elems (recv_step (rk s r)) + i) = m i) /\
    payload_bytes (ed s (prev n r)) (recv_step (rk s r) mod kFifoSteps) =
      u32 (slice_bytes sz (d_work d)).
Proof.
  intros Hst Hab Hr Hrun Hcur Hrd. destruct (protocol_inv s Hst Hab) as (G & HR & HE).
  assert (0 <= prev n r < n) as Hp by (by eapply is_rank_prev, rp_ok).
  assert (triple op fin sz slot_elems n input rp_den rp_aprog base out0 r (G r) (rk s r)
    (ed s r) (ed s (prev n r))) as HT by (split; [by apply HR|by apply HE|by apply HE]).
  destruct (live_slice _ _ _ _ _ _ _ _ _ _ _ _ _ _ _ _ _ HT Hrun Hcur) as [a HS].
  destruct HS as [_ _ _ _ HL _ (Hpos & _ & Hts & Hli)].
  rewrite Hcur in Hts, Hli. destruct Hli as [Hw _].
  assert (rp (G r) = Held) as Hrp by (by eapply ts_held_recv).
  destruct (ts_phase_used _ _ _ _ _ Hts) as [HRa _].
  specialize (HRa ltac:(by rewrite Hrp)).
  pose proof (msg_in _ _ _ _ _ _ _ _ rp_ok r _ a Hr Hpos HRa) as Hm.
  set (k := Z.to_nat (nrecv rp_aprog r (pos (G r)))) in *.
  assert (rstep n rp_aprog base r (G r) = base (prev n r) + 2 * Z.of_nat k) as Hk.
  { unfold rstep, k, nrecv. lia. }
  destruct (HR r Hr) as [_ Hh _ Hav _]. rewrite Hrp in Hh, Hav. simpl in Hh, Hav.
  destruct (ei_slots _ _ _ _ _ _ _ (HE _ Hp) k _ _ _ Hm) as [Hf Hb]; [lia|].
  exists k, (rp_den (a_in a)). rewrite (li_recv _ _ _ _ _ _ _ _ _ _ _ _ _ _ _ HL), Hk, Hw.
  split_and!; try done. unfold rp_messages. by rewrite list_lookup_fmap, Hm.
Qed.

(** Every fair schedule ends, within a number of rounds computed from what the
    kernels have left to do; and there is one. *)
Lemma protocol_completes s m : steps step s0 s -> abort s = false -> (3 * weight sz n s <= m)%nat ->
  (exists s', nsteps (fair_round op fin sz slot_elems n input) m s s') /\
  forall s', nsteps (fair_round op fin sz slot_elems n input) m s s' -> finished n s' /\ abort s' = false.
Proof.
  intros Hst Hab Hm. split; [apply fair_rounds_total|]. intros s' Hn.
  by eapply (inv_fair _ _ sz _ _ _ _ _ _ out0 rp_ok s m); first apply protocol_inv.
Qed.

Lemma protocol_final s r : steps step s0 s -> abort s = false -> finished n s -> 0 <= r < n ->
  (forall i, output (rk s r) i =
     out_after op fin input rp_den rp_aprog out0 r (length (rp_aprog r)) i) /\
  head (ed s r) = tail (ed s r) /\
  send_base (rk s r) = tail (ed s r) /\ recv_base (rk s (next n r)) = head (ed s r).
Proof. intros Hst Hab. by eapply inv_finished, protocol_inv; first apply rp_ok. Qed.
End Protocol.
