(* ===== verification/RingSchedule.v ===== *)
(** * Schedules that walk the ring

    The three collective kernels have one shape: in each round of the main
    loop a rank performs [P] primitive calls, the call at position [p] on
    chunk [src r p], sending at every position but the last and receiving at
    every position but the first, and what rank [r] treats at position [p] its
    successor treats at position [p + 1].  This file shows that such programs
    satisfy [schedule_ok], and what they leave in the output. *)

From Stdlib Require Import ZArith Lia Sorted.
From stdpp Require Import base option numbers tactics list.
From S2P Require Import Prelude Types Geometry Ring RingSafety.

#[local] Open Scope Z_scope.

(** The slices of one primitive call. *)
Definition prim_call (sz step_elems : Z) (p : prim) (local out work : Z) : list sop :=
  (fun '(o, w) => Sop p (local + o) (out + o) w) <$> slices sz work step_elems.

Lemma elem_of_prim_call sz st p l out w o : elem_size sz -> 0 <= w < 2 ^ 62 ->
  0 <= st < 2 ^ 62 -> o ∈ prim_call sz st p l out w ->
  exists d, 0 <= d /\ 0 < s_work o /\ d + s_work o <= w /\
    s_prim o = p /\ s_local o = l + d /\ s_out o = out + d.
Proof.
  intros Hsz Hw Hst. unfold prim_call. intros ([d w'] & -> & Hin)%list_elem_of_fmap.
  pose proof (tiles_bounds _ _ _ d w' (slices_tile sz w st Hsz Hw Hst) Hin).
  exists d. simpl. split_and!; done || lia.
Qed.

Section Schedule.
Context {T I : Type} (op : T -> T -> T) (fin : T -> T).
Context (sz slot_elems step_elems n P : Z) (input : Z -> Z -> T) (base : Z -> Z).
(** The rounds, and per round the work, input base and output base of a
    chunk; [pre] are local slices before the first call. *)
Context (iters : list I) (iw ib io : I -> Z -> Z) (pre : I -> Z -> list sop).
Context (prim_at : Z -> prim) (src : Z -> Z -> Z).
(** Element [i] of chunk [c] as sent at position [p]. *)
Context (value : Z -> Z -> Z -> T).

Definition rounds : list (nat * I) := imap pair iters.

Definition tag : Type := Z * Z * Z.
Definition tag_den (m : tag) (i : Z) : T := let '(p, c, b) := m in value p c (b + i).

Definition time (t : nat) (p : Z) (s : nat) : Z :=
  (Z.of_nat t * (P + 1) + (p + 1)) * 2 + Z.of_nat s.

Definition slice_aop (t : nat) (it : I) (r p : Z) (s : nat) (ow : Z * Z) : aop tag :=
  let '(o, w) := ow in
  let c := src r p in
  Aop (Sop (prim_at p) (ib it c + o) (io it c + o) w)
    (p - 1, c, ib it c + o) (p, c, ib it c + o) (time t p s).

Definition acall (t : nat) (it : I) (r p : Z) : list (aop tag) :=
  imap (slice_aop t it r p) (slices sz (iw it (src r p)) step_elems).

Definition apre (t : nat) (it : I) (r : Z) : list (aop tag) :=
  (fun o => Aop o (0, 0, 0) (0, 0, 0) (time t (-1) 0)) <$> pre it r.

Definition around (r : Z) (ti : nat * I) : list (aop tag) :=
  apre ti.1 ti.2 r ++ (zrange P ≫= acall ti.1 ti.2 r).

Definition aprog (r : Z) : list (aop tag) := rounds ≫= around r.

(** The programs without annotations. *)
Definition round_prog (r : Z) (it : I) : list sop :=
  pre it r ++
  (zrange P ≫= fun p => let c := src r p in
     prim_call sz step_elems (prim_at p) (ib it c) (io it c) (iw it c)).

Lemma aprog_prog r : a_op <$> aprog r = iters ≫= round_prog r.
Proof.
  unfold aprog, rounds. rewrite fmap_bind_list.
  assert (forall ti, a_op <$> around r ti = round_prog r ti.2) as Hr.
  { intros [t it]. unfold around, round_prog. rewrite fmap_app, fmap_bind_list. f_equal.
    - unfold apre. rewrite <- list_fmap_compose. by apply list_fmap_id.
    - apply bind_ext_in. intros p _. unfold acall, prim_call. rewrite fmap_imap.
      rewrite <- (imap_const (fun '(o, w) => Sop _ _ _ _)).
      apply imap_ext. by intros s [o w] _. }
  rewrite (bind_ext_in _ (fun ti => round_prog r ti.2)) by (intros; apply Hr).
  rewrite <- (bind_fmap_list snd (round_prog r)). f_equal.
  rewrite fmap_imap. rewrite <- (list_fmap_id iters) at 2.
  rewrite <- imap_const. apply imap_ext. done.
Qed.

Lemma elem_of_round_prog r it o : o ∈ round_prog r it ->
  o ∈ pre it r \/ exists p, 0 <= p < P /\
    o ∈ prim_call sz step_elems (prim_at p) (ib it (src r p)) (io it (src r p)) (iw it (src r p)).
Proof.
  unfold round_prog. intros [?|(p & Ho & Hp%elem_of_zrange)%list_elem_of_bind]%elem_of_app; eauto.
Qed.

Record shape : Prop := {
  sh_n : 2 <= n;
  sh_P : 2 <= P;
  sh_sz : elem_size sz;
  sh_step : 0 <= step_elems < 2 ^ 62;
  sh_slots : 0 <= slot_elems < 2 ^ 60;
  sh_sends p : 0 <= p < P -> sends (prim_at p) = bool_decide (p < P - 1);
  sh_recvs p : 0 <= p < P -> recvs (prim_at p) = bool_decide (0 < p);
  sh_src r p : 0 <= r < n -> 0 <= p < P -> 0 <= src r p < n;
  sh_shift r p : 0 <= r < n -> 0 <= p < P - 1 -> src (next n r) (p + 1) = src r p;
  sh_work it c : it ∈ iters -> 0 <= c < n -> 0 <= iw it c <= slot_elems;
  sh_pre it r : it ∈ iters -> 0 <= r < n -> (length (pre it r) <= 1)%nat /\
    forall o, o ∈ pre it r ->
      sends (s_prim o) = false /\ recvs (s_prim o) = false /\ 0 < s_work o <= slot_elems;
  sh_value it r p x : it ∈ iters -> 0 <= r < n -> 0 <= p < P - 1 ->
    0 <= x < iw it (src r p) ->
    value p (src r p) (ib it (src r p) + x) =
    send_elem op fin (prim_at p) (input r (ib it (src r p) + x))
      (value (p - 1) (src r p) (ib it (src r p) + x));
  sh_base r : 0 <= r < n ->
    0 <= base r /\ base r + 2 * Z.of_nat (length (aprog r)) + 16 < 2 ^ 64;
}.

Context (Hsh : shape).

Lemma work_range it c : it ∈ iters -> 0 <= c < n -> 0 <= iw it c < 2 ^ 62.
Proof.
  intros Hit Hc. pose proof (sh_work Hsh it c Hit Hc). pose proof (sh_slots Hsh). lia.
Qed.

Lemma elem_of_rounds t it : (t, it) ∈ rounds -> it ∈ iters.
Proof.
  unfold rounds. intros [k Hk]%list_elem_of_lookup.
  rewrite list_lookup_imap in Hk. destruct (iters !! k) eqn:E; simplify_eq/=.
  by eapply list_elem_of_lookup_2.
Qed.

Lemma elem_of_acall t it r p a : a ∈ acall t it r p ->
  exists s o w, slices sz (iw it (src r p)) step_elems !! s = Some (o, w) /\
    a = slice_aop t it r p s (o, w).
Proof.
  unfold acall. intros [s Hs]%list_elem_of_lookup. rewrite list_lookup_imap in Hs.
  destruct (slices _ _ _ !! s) as [[o w]|] eqn:E; simplify_eq/=. eauto.
Qed.

(** Every annotated slice is a local one or a slice of a call. *)
Lemma elem_of_aprog r a : a ∈ aprog r ->
  exists t it, it ∈ iters /\
    ((exists o, o ∈ pre it r /\ a = Aop o (0, 0, 0) (0, 0, 0) (time t (-1) 0)) \/
     (exists p s o w, 0 <= p < P /\
        slices sz (iw it (src r p)) step_elems !! s = Some (o, w) /\
        a = slice_aop t it r p s (o, w))).
Proof.
  intros ([t it] & Ha & Hin%elem_of_rounds)%list_elem_of_bind. exists t, it. split; [done|].
  unfold around in Ha. simpl in Ha. apply elem_of_app in Ha as [Ha|Ha].
  - left. apply list_elem_of_fmap in Ha as (o & -> & Ho). eauto.
  - right. apply list_elem_of_bind in Ha as (p & Ha & Hp%elem_of_zrange).
    apply elem_of_acall in Ha as (s & o & w & ? & ?). by exists p, s, o, w.
Qed.

(** A slice of a call lies within the call. *)
Lemma slice_range it r p s o w : it ∈ iters -> 0 <= r < n -> 0 <= p < P ->
  slices sz (iw it (src r p)) step_elems !! s = Some (o, w) ->
  0 <= o /\ 0 < w /\ o + w <= iw it (src r p) /\ (s < 2)%nat.
Proof.
  intros Hit Hr Hp Hs. pose proof (work_range it _ Hit (sh_src Hsh r p Hr Hp)) as Hw.
  pose proof (slices_tile sz _ step_elems (sh_sz Hsh) Hw (sh_step Hsh)) as Ht.
  pose proof (slices_count sz _ step_elems (sh_sz Hsh) Hw (sh_step Hsh)) as [Hc _].
  pose proof (tiles_bounds _ _ _ o w Ht (list_elem_of_lookup_2 _ _ _ Hs)).
  apply lookup_lt_Some in Hs. lia.
Qed.

(** *** Messages *)

Definition call_msgs (t : nat) (it : I) (p c : Z) : list (Z * Z * tag) :=
  imap (fun s '(o, w) => (time t (p + 1) s, w, (p, c, ib it c + o)))
    (slices sz (iw it c) step_elems).

Lemma imap_fmap_ext {A B} (f g : nat -> A -> B) l :
  (forall k x, f k x = g k x) -> imap f l = imap g l.
Proof. intros H. apply imap_ext. auto. Qed.

Lemma sent_acall t it r p : 0 <= p < P ->
  omap sent (acall t it r p) =
  if bool_decide (p < P - 1) then call_msgs t it p (src r p) else [].
Proof.
  intros Hp. pose proof (sh_sends Hsh p Hp) as Hs. case_bool_decide.
  - rewrite (omap_all _ (fun a => (a_time a + 2, a_work a, a_out a))).
    + unfold acall. rewrite fmap_imap. apply imap_fmap_ext. intros k [o w]. simpl.
      unfold a_work, time. simpl. do 2 f_equal. lia.
    + intros a (s & o & w & _ & ->)%elem_of_acall. unfold sent, a_prim. simpl. by rewrite Hs.
  - apply omap_none. intros a (s & o & w & _ & ->)%elem_of_acall.
    unfold sent, a_prim. simpl. by rewrite Hs.
Qed.

Lemma recvd_acall t it r p : 0 <= p < P ->
  omap recvd (acall t it r p) =
  if bool_decide (0 < p) then call_msgs t it (p - 1) (src r p) else [].
Proof.
  intros Hp. pose proof (sh_recvs Hsh p Hp) as Hs. case_bool_decide.
  - rewrite (omap_all _ (fun a => (a_time a, a_work a, a_in a))).
    + unfold acall. rewrite fmap_imap. apply imap_fmap_ext. intros k [o w]. simpl.
      unfold a_work, time. simpl. do 2 f_equal. lia.
    + intros a (s & o & w & _ & ->)%elem_of_acall. unfold recvd, a_prim. simpl. by rewrite Hs.
  - apply omap_none. intros a (s & o & w & _ & ->)%elem_of_acall.
    unfold recvd, a_prim. simpl. by rewrite Hs.
Qed.

Lemma silent_apre t it r : it ∈ iters -> 0 <= r < n ->
  omap sent (apre t it r) = [] /\ omap recvd (apre t it r) = [].
Proof.
  intros Hit Hr. destruct (sh_pre Hsh it r Hit Hr) as [_ Hp].
  split; apply omap_none; intros a (o & -> & Ho)%list_elem_of_fmap;
    destruct (Hp o Ho) as (H1 & H2 & _); unfold sent, recvd, a_prim; simpl;
    by rewrite ?H1, ?H2.
Qed.

Lemma zrange_snoc m : 0 < m -> zrange m = zrange (m - 1) ++ [m - 1].
Proof.
  intros. unfold zrange. replace m with (m - 1 + 1) at 1 by lia.
  rewrite seqZ_app by lia. do 2 f_equal.
Qed.
Lemma zrange_cons m : 0 < m -> zrange m = 0 :: (Z.add 1 <$> zrange (m - 1)).
Proof.
  intros. unfold zrange. rewrite seqZ_cons by lia. rewrite fmap_add_seqZ.
  repeat f_equal; lia.
Qed.

Lemma schedule_match r : 0 <= r < n ->
  omap sent (aprog r) = omap recvd (aprog (next n r)).
Proof.
  intros Hr. assert (0 <= next n r < n) as Hn.
  { apply Z.mod_pos_bound. pose proof (sh_n Hsh). lia. }
  unfold aprog. rewrite !omap_bind. apply bind_ext_in. intros [t it] Hin%elem_of_rounds.
  unfold around. rewrite !omap_app, !omap_bind.
  rewrite (proj1 (silent_apre _ it r Hin Hr)), (proj2 (silent_apre _ it _ Hin Hn)). simpl.
  pose proof (sh_P Hsh) as HP.
  transitivity (zrange (P - 1) ≫= fun p => call_msgs t it p (src r p)).
  - rewrite (zrange_snoc P), bind_app by lia. simpl. rewrite sent_acall by lia.
    rewrite bool_decide_false by lia. rewrite !app_nil_r. apply bind_ext_in.
    intros p Hp%elem_of_zrange. by rewrite sent_acall, bool_decide_true by lia.
  - rewrite (zrange_cons P) by lia. csimpl. rewrite recvd_acall by lia.
    rewrite bool_decide_false by lia. simpl. rewrite bind_fmap_list. apply bind_ext_in.
    intros p Hp%elem_of_zrange. rewrite recvd_acall, bool_decide_true by lia.
    replace (1 + p - 1) with p by lia. replace (1 + p) with (p + 1) by lia.
    by rewrite (sh_shift Hsh).
Qed.

(** *** Logical times *)

Lemma sorted_acall t it r p : StronglySorted (fun a b => a_time a < a_time b) (acall t it r p).
Proof.
  apply sorted_of_lookup. intros i j x y Hij Hx Hy. unfold acall in *.
  rewrite list_lookup_imap in Hx, Hy.
  destruct (slices _ _ _ !! i) as [[o w]|], (slices _ _ _ !! j) as [[o' w']|]; simplify_eq/=.
  unfold time. lia.
Qed.

Lemma sorted_around r ti : ti.2 ∈ iters -> 0 <= r < n ->
  StronglySorted (fun a b => a_time a < a_time b) (around r ti) /\
  forall a, a ∈ around r ti ->
    Z.of_nat ti.1 * (P + 1) * 2 <= a_time a < Z.of_nat ti.1 * (P + 1) * 2 + (P + 1) * 2.
Proof.
  destruct ti as [t it]. simpl. intros Hit Hr. pose proof (sh_P Hsh).
  assert (forall p a, 0 <= p < P -> a ∈ acall t it r p ->
    time t p 0 <= a_time a < time t p 0 + 2) as Hcall.
  { intros p a Hp (s & o & w & Hs & ->)%elem_of_acall.
    pose proof (slice_range it r p s o w Hit Hr Hp Hs). simpl. unfold time. lia. }
  assert (StronglySorted (fun a b => a_time a < a_time b) (zrange P ≫= acall t it r)) as Hs.
  { apply (sorted_bind a_time (acall t it r) (fun p => time t p 0) 2).
    - intros p a Hp%elem_of_zrange. by apply Hcall.
    - intros p _. apply sorted_acall.
    - apply sorted_of_lookup. intros i j x y Hij Hx Hy. unfold zrange in *.
      apply lookup_seqZ in Hx as [-> Hi]; apply lookup_seqZ in Hy as [-> Hj].
      unfold time. lia. }
  assert (forall a, a ∈ zrange P ≫= acall t it r ->
    time t 0 0 <= a_time a < time t (P - 1) 0 + 2) as Hb.
  { intros a (p & Ha & Hp%elem_of_zrange)%list_elem_of_bind.
    specialize (Hcall p a Hp Ha). unfold time in *. nia. }
  unfold around. simpl. destruct (sh_pre Hsh it r Hit Hr) as [Hlen _]. split.
  - unfold apre. destruct (pre it r) as [|o [|]]; simpl in *; [done| |lia].
    constructor; [done|]. apply Forall_forall. intros a Ha. specialize (Hb a Ha).
    simpl. unfold time in *. lia.
  - intros a [Ha|Ha]%elem_of_app.
    + apply list_elem_of_fmap in Ha as (o & -> & _). simpl. unfold time. nia.
    + specialize (Hb a Ha). unfold time in *. nia.
Qed.

Lemma schedule_sorted r : 0 <= r < n ->
  StronglySorted (fun a b => a_time a < a_time b) (aprog r).
Proof.
  intros Hr. apply (sorted_bind a_time (around r)
    (fun ti => Z.of_nat ti.1 * (P + 1) * 2) ((P + 1) * 2)).
  - intros [t it] a Hti%elem_of_rounds Ha. by apply (sorted_around r (t, it)).
  - intros [t it] Hti%elem_of_rounds. by apply (sorted_around r (t, it)).
  - pose proof (sh_P Hsh). apply sorted_of_lookup. unfold rounds.
    intros i j x y Hij Hx Hy. rewrite list_lookup_imap in Hx, Hy.
    destruct (iters !! i), (iters !! j); simplify_eq/=. nia.
Qed.

Lemma schedule_shape : schedule_ok op fin slot_elems n input tag_den aprog base.
Proof.
  split.
  - apply (sh_n Hsh).
  - pose proof (sh_slots Hsh). unfold kFifoSteps. lia.
  - apply schedule_match.
  - intros r a Hr (t & it & Hit & [(o & Ho & ->)|(p & s & o & w & Hp & Hs & ->)])%elem_of_aprog.
    + destruct (sh_pre Hsh it r Hit Hr) as [_ Hpre]. destruct (Hpre o Ho) as (Hf & _).
      unfold a_prim. simpl. congruence.
    + pose proof (slice_range it r p s o w Hit Hr Hp Hs) as Hw. unfold a_prim, a_work. simpl.
      rewrite (sh_sends Hsh p Hp), bool_decide_eq_true. intros Hlt i Hi.
      rewrite <- !Z.add_assoc. apply (sh_value Hsh); try done; lia.
  - intros r a Hr (t & it & Hit & [(o & Ho & ->)|(p & s & o & w & Hp & Hs & ->)])%elem_of_aprog.
    + destruct (sh_pre Hsh it r Hit Hr) as [_ Hpre]. by destruct (Hpre o Ho) as (_ & _ & ?).
    + pose proof (slice_range it r p s o w Hit Hr Hp Hs) as Hw. unfold a_work. simpl.
      pose proof (sh_work Hsh it _ Hit (sh_src Hsh r p Hr Hp)). lia.
  - apply (sh_base Hsh).
  - intros r a Hr (t & it & Hit & [(o & Ho & ->)|(p & s & o & w & Hp & Hs & ->)])%elem_of_aprog;
      pose proof (sh_P Hsh); simpl; unfold time; nia.
  - apply schedule_sorted.
Qed.

(** ** What the programs leave in the output *)

Definition covers (o : sop) (x : Z) : Prop :=
  stores (s_prim o) = true /\ s_out o <= x < s_out o + s_work o.

#[local] Instance covers_dec o x : Decision (covers o x).
Proof. unfold covers. apply _. Defined.

Lemma fold_out {M} (inp : Z -> T) (den : M -> Z -> T) (F : Z -> T) (l : list (aop M)) (o0 : Z -> T) x :
  (forall a i, a ∈ l -> stores (a_prim a) = true -> 0 <= i < a_work a ->
     out_elem op fin (a_prim a) (inp (s_local (a_op a) + i)) (den (a_in a) i) =
     F (s_out (a_op a) + i)) ->
  let out := foldl (fun o a => out_step op fin inp (den (a_in a)) (a_op a) o) o0 l in
  ((exists a, a ∈ l /\ covers (a_op a) x) -> out x = F x) /\
  ((forall a, a ∈ l -> ~ covers (a_op a) x) -> out x = o0 x).
Proof.
  induction l as [|a l IH] using rev_ind; intros HF; simpl.
  { split; [|done]. by intros (a & ?%elem_of_nil & _). }
  rewrite foldl_snoc. set (o := foldl _ o0 l) in *.
  destruct IH as [IH1 IH2].
  { intros b i Hb. apply HF, elem_of_app. auto. }
  assert (a ∈ l ++ [a]) as Ha by (apply elem_of_app; right; by apply list_elem_of_singleton).
  destruct (decide (covers (a_op a) x)) as [Hc|Hc].
  - split; [intros _|intros H; by destruct (H a)].
    destruct Hc as [Hst Hx]. unfold out_step. rewrite Hst, blit_in by done.
    rewrite (HF a) by (unfold a_work; done || lia). f_equal. lia.
  - assert (out_step op fin inp (den (a_in a)) (a_op a) o x = o x) as ->.
    { unfold out_step. destruct (stores (s_prim (a_op a))) eqn:Hst; [|done].
      apply blit_out. intros Hx. by apply Hc. }
    split.
    + intros (b & [Hb|Hb]%elem_of_app & Hcov); [eauto|].
      apply list_elem_of_singleton in Hb as ->. done.
    + intros H. apply IH2. intros b Hb. apply H, elem_of_app. auto.
Qed.

Context (F : Z -> Z -> T) (out0 : Z -> Z -> T).

(** Every element a round stores is [F]. *)
Definition stores_ok : Prop :=
  (forall it r p x, it ∈ iters -> 0 <= r < n -> 0 <= p < P ->
     stores (prim_at p) = true -> 0 <= x < iw it (src r p) ->
     out_elem op fin (prim_at p) (input r (ib it (src r p) + x))
       (value (p - 1) (src r p) (ib it (src r p) + x)) = F r (io it (src r p) + x)) /\
  (forall it r o i, it ∈ iters -> 0 <= r < n -> o ∈ pre it r -> 0 <= i < s_work o ->
     s_prim o = LocalCopy /\ input r (s_local o + i) = F r (s_out o + i)).

(** [x] lies in a chunk or local block rank [r] stores. *)
Definition covered (r x : Z) : Prop :=
  exists it, it ∈ iters /\
    ((exists p, 0 <= p < P /\ stores (prim_at p) = true /\
        io it (src r p) <= x < io it (src r p) + iw it (src r p)) \/
     (exists o, o ∈ pre it r /\ covers o x)).

Lemma covered_slice r x : 0 <= r < n -> covered r x <->
  exists a, a ∈ aprog r /\ covers (a_op a) x.
Proof.
  intros Hr. split.
  - intros (it & Hit & [(p & Hp & Hst & Hx)|(o & Ho & Hc)]);
      apply list_elem_of_lookup in Hit as [t Ht];
      assert ((t, it) ∈ rounds) as Hti
        by (apply (list_elem_of_lookup_2 _ t); unfold rounds;
            by rewrite list_lookup_imap, Ht);
      pose proof (list_elem_of_lookup_2 _ _ _ Ht) as Hit.
    + pose proof (work_range it _ Hit (sh_src Hsh r p Hr Hp)) as Hw.
      pose proof (slices_tile sz _ step_elems (sh_sz Hsh) Hw (sh_step Hsh)) as Htl.
      destruct (tiles_cover _ _ _ (x - io it (src r p)) Htl) as (s & o & w & Hs & Hin & _); [lia|].
      exists (slice_aop t it r p s (o, w)). split.
      * apply list_elem_of_bind. exists (t, it). split; [|done].
        unfold around. apply elem_of_app. right. apply list_elem_of_bind. exists p.
        split; [|by apply elem_of_zrange]. apply (list_elem_of_lookup_2 _ s).
        unfold acall. simpl. by rewrite list_lookup_imap, Hs.
      * split; simpl; [done|lia].
    + exists (Aop o (0, 0, 0) (0, 0, 0) (time t (-1) 0)). split; [|done].
      apply list_elem_of_bind. exists (t, it). split; [|done].
      unfold around. apply elem_of_app. left. unfold apre. apply list_elem_of_fmap. eauto.
  - intros (a & (t & it & Hit & [(o & Ho & ->)|(p & s & o & w & Hp & Hs & ->)])%elem_of_aprog & Hc);
      exists it; (split; [done|]).
    + right. exists o. done.
    + left. exists p. pose proof (slice_range it r p s o w Hit Hr Hp Hs).
      destruct Hc as [Hst Hx]. simpl in *. split_and!; try done; lia.
Qed.

Lemma out_after_covered r x : 0 <= r < n -> stores_ok ->
  (covered r x ->
     out_after op fin input tag_den aprog out0 r (length (aprog r)) x = F r x) /\
  (~ covered r x ->
     out_after op fin input tag_den aprog out0 r (length (aprog r)) x = out0 r x).
Proof.
  intros Hr [HF1 HF2]. unfold out_after. rewrite firstn_all.
  destruct (fold_out (input r) tag_den (F r) (aprog r) (out0 r) x) as [H1 H2].
  - intros a i (t & it & Hit & [(o & Ho & ->)|(p & s & o & w & Hp & Hs & ->)])%elem_of_aprog.
    + unfold a_prim, a_work. simpl. intros _ Hi.
      destruct (HF2 it r o i Hit Hr Ho Hi) as [-> <-]. done.
    + pose proof (slice_range it r p s o w Hit Hr Hp Hs). unfold a_prim, a_work. simpl.
      intros Hst Hi. rewrite <- !Z.add_assoc. apply HF1; try done; lia.
  - split.
    + intros Hc. by apply H1, covered_slice.
    + intros Hc. apply H2. intros a Ha Hcov. apply Hc, covered_slice; eauto.
Qed.
End Schedule.
