(* ===== verification/Kernels.v ===== *)
(** * The three collective kernels as slice programs

    [ring_simple_kernel], [ring_simple_all_gather_kernel] and
    [ring_simple_reduce_scatter_kernel]: for one rank and channel, the slices
    the block performs, in order.  The main loops carry a fuel argument; the
    theorems of the collectives show that [part_count] rounds always reach
    the exit test. *)

From Stdlib Require Import ZArith Lia Sorted.
From stdpp Require Import base option numbers tactics list.
From S2P Require Import Prelude Types Geometry Ring RingSafety RingSchedule.

#[local] Open Scope Z_scope.

(** The fields of [FifoArgs] the control flow depends on. *)
Record kernel_args := KArgs {
  ka_rank : Z; ka_count : Z; ka_slot_elems : Z; ka_step_elems : Z }.

Section Kernels.
Context `{BuildConfig} (sz : Z) (args : kernel_args) (nranks : Z).

Abbreviation call := (prim_call sz (ka_step_elems args)).

(** ** AllReduce *)

(** [loop_chunk] of a round with [rem_count] elements left. *)
Definition round_chunk (chunk_count rem_count : Z) : Z :=
  let loop_chunk := loop_chunk_elems chunk_count (ka_slot_elems args) in
  if rem_count <? u64 (nranks * loop_chunk)
  then align_up (div_up rem_count nranks) (kVectorBytes / sz)
  else loop_chunk.

(** One primitive call on [chunk]: offset and work as computed before every
    call; input and output use the same offset. *)
Definition chunk_call (part_offset elem_offset rem_count loop_chunk : Z) (p : prim)
    (chunk : Z) : list sop :=
  let chunk_offset := u64 (chunk * loop_chunk) in
  let offset := u64 (u64 (part_offset + elem_offset) + chunk_offset) in
  call p offset offset (nelem loop_chunk rem_count chunk_offset).

Definition all_reduce_round (part_offset elem_offset rem_count loop_chunk : Z) : list sop :=
  let ring_ix := ka_rank args in
  let on := chunk_call part_offset elem_offset rem_count loop_chunk in
  on DirectSend ((ring_ix + nranks - 1) mod nranks) ++
  (seqZ 2 (nranks - 2) ≫= fun j => on RecvReduceSend ((ring_ix + nranks - j) mod nranks)) ++
  on RecvReduceCopySend ring_ix ++
  (seqZ 1 (nranks - 2) ≫= fun j => on RecvCopySend ((ring_ix + nranks - j) mod nranks)) ++
  on DirectRecv ((ring_ix + 1) mod nranks).

Fixpoint all_reduce_loop (fuel : nat) (pt : part) (elem_offset : Z) : list sop :=
  match fuel with
  | O => []
  | S fuel =>
      if elem_offset <? part_count pt then
        let rem_count := u64 (part_count pt - elem_offset) in
        let loop_chunk := round_chunk (chunk_count pt) rem_count in
        let loop_count := u64 (nranks * loop_chunk) in
        all_reduce_round (part_offset pt) elem_offset rem_count loop_chunk ++
        all_reduce_loop fuel pt (u64 (elem_offset + loop_count))
      else []
  end.

Definition ring_simple_kernel (channel : Z) : list sop :=
  if kChannels <=? channel then [] else
  let pt := cbd_part sz (ka_count args) channel in
  if (part_count pt =? 0) || (chunk_count pt =? 0) then []
  else all_reduce_loop (Z.to_nat (part_count pt)) pt 0.

(** ** AllGather: the block copies its own elements before it sends them *)

Definition all_gather_round (input_offset work : Z) : list sop :=
  let rank := ka_rank args in
  let at_rank src := u64 (u64 (src * ka_count args) + input_offset) in
  Sop LocalCopy input_offset (at_rank rank) work ::
  call DirectSend input_offset (at_rank rank) work ++
  (seqZ 1 (nranks - 2) ≫= fun step =>
     call RecvCopySend input_offset (at_rank ((rank + nranks - step) mod nranks)) work) ++
  call DirectRecv input_offset (at_rank ((rank + 1) mod nranks)) work.

Fixpoint all_gather_loop (fuel : nat) (part_offset part_count elem_offset : Z) : list sop :=
  match fuel with
  | O => []
  | S fuel =>
      if elem_offset <? part_count then
        let remaining := u64 (part_count - elem_offset) in
        let work := if remaining <? ka_slot_elems args then remaining
                    else ka_slot_elems args in
        all_gather_round (u64 (part_offset + elem_offset)) work ++
        all_gather_loop fuel part_offset part_count (u64 (elem_offset + work))
      else []
  end.

Definition ring_simple_all_gather_kernel (channel : Z) : list sop :=
  if kChannels <=? channel then [] else
  let '(part_offset, part_count) := channel_part (ka_count args) channel in
  if part_count =? 0 then []
  else all_gather_loop (Z.to_nat part_count) part_offset part_count 0.

(** ** ReduceScatter *)

Definition reduce_scatter_round (rank_part_offset work : Z) : list sop :=
  let rank := ka_rank args in
  let at_rank chunk := u64 (u64 (chunk * ka_count args) + rank_part_offset) in
  call DirectSend (at_rank ((rank + nranks - 1) mod nranks)) rank_part_offset work ++
  (seqZ 2 (nranks - 2) ≫= fun step =>
     call RecvReduceSend (at_rank ((rank + nranks - step) mod nranks)) rank_part_offset work) ++
  call RecvReduceCopy (at_rank rank) rank_part_offset work.

Fixpoint reduce_scatter_loop (fuel : nat) (part_offset part_count elem_offset : Z) : list sop :=
  match fuel with
  | O => []
  | S fuel =>
      if elem_offset <? part_count then
        let remaining := u64 (part_count - elem_offset) in
        let work := if remaining <? ka_slot_elems args then remaining
                    else ka_slot_elems args in
        reduce_scatter_round (u64 (part_offset + elem_offset)) work ++
        reduce_scatter_loop fuel part_offset part_count (u64 (elem_offset + work))
      else []
  end.

Definition ring_simple_reduce_scatter_kernel (channel : Z) : list sop :=
  if kChannels <=? channel then [] else
  let '(part_offset, part_count) := channel_part (ka_count args) channel in
  if part_count =? 0 then []
  else reduce_scatter_loop (Z.to_nat part_count) part_offset part_count 0.
End Kernels.
