(* ===== verification/AllReduce.v ===== *)
(** * Correctness of the AllReduce kernel

    One channel of [ring_simple_kernel] on all ranks.  In every interleaving
    that ends, every rank holds the same reduction of the inputs, computed in
    the order of the ring; every execution can be brought to its end. *)

From Stdlib Require Import ZArith Lia Sorted.
From stdpp Require Import base option numbers tactics list.
From S2P Require Import Prelude Types Geometry Ring RingSafety RingProgress RingSchedule Kernels.

#[local] Open Scope Z_scope.

(** ** Reduction in ring order

    Chunk [c] starts at rank [c + 1] and travels upwards: each rank combines
    its own element (first operand) with what it received. *)
Section RingReduce.
Context {T : Type} (op : T -> T -> T) (n : Z).

Fixpoint ring_acc (x : Z -> T) (c : Z) (h : nat) : T :=
  match h with
  | O => x ((c + 1) mod n)
  | S h' => op (x ((c + 1 + Z.of_nat h) mod n)) (ring_acc x c h')
  end.

(** Rank [r] is the [p]-th after the start of chunk [r - p - 1]. *)
Lemma ring_rank r p : 0 <= r < n -> ((r - p - 1) mod n + 1 + p) mod n = r.
Proof.
  intros Hr. pose proof (Z.div_mod (r - p - 1) n). apply mod_unique; [done|].
  exists (- ((r - p - 1) / n)). lia.
Qed.

Lemma ring_acc_first x r : 0 <= r < n -> ring_acc x ((r - 0 - 1) mod n) 0 = x r.
Proof. intros Hr. simpl. f_equal. rewrite <- (ring_rank r 0 Hr) at 2. f_equal. lia. Qed.

Lemma ring_acc_pred x r p : 0 <= r < n -> 0 < p ->
  ring_acc x ((r - p - 1) mod n) (Z.to_nat p) =
  op (x r) (ring_acc x ((r - p - 1) mod n) (Z.to_nat (p - 1))).
Proof.
  intros Hr Hp. replace (Z.to_nat p) with (S (Z.to_nat (p - 1))) by lia. simpl. do 2 f_equal.
  rewrite <- (ring_rank r p Hr) at 2. f_equal. lia.
Qed.

(** The contribution of all ranks. *)
Definition ring_reduce (x : Z -> T) (c : Z) : T := ring_acc x c (Z.to_nat (n - 1)).
End RingReduce.

(** ** The reference: reduction over the ranks in any order *)

Section RankOrder.
Context {T : Type} (op : T -> T -> T) (n : Z).

Definition opt_op (a b : option T) : option T :=
  match a, b with
  | Some x, Some y => Some (op x y)
  | Some x, None => Some x
  | None, b => b
  end.

(** [x 0 op (x 1 op (... op x (n - 1)))]. *)
Definition reduce_all (x : Z -> T) : option T :=
  foldr opt_op None ((fun r => Some (x r)) <$> zrange n).

(** The ranks chunk [c] has visited after [h] hops, last first. *)
Definition visits (c : Z) (h : nat) : list Z :=
  (fun k => (c + 1 + Z.of_nat k) mod n) <$> reverse (seq 0 (S h)).

Lemma ring_acc_visits x c h :
  Some (ring_acc op n x c h) = foldr opt_op None ((fun r => Some (x r)) <$> visits c h).
Proof.
  induction h as [|h IH].
  - unfold visits. simpl. by rewrite Z.add_0_r.
  - unfold visits in *. rewrite (seq_S (S h)), reverse_snoc, !fmap_cons.
    cbn [foldr]. by rewrite <- IH.
Qed.

Lemma visits_perm c : 0 < n -> visits c (Z.to_nat (n - 1)) ≡ₚ zrange n.
Proof.
  intros Hn. unfold visits. rewrite reverse_Permutation. apply NoDup_Permutation.
  - apply NoDup_fmap_2_strong; [|apply NoDup_seq].
    intros i j Hi%elem_of_seq Hj%elem_of_seq Heq.
    pose proof (Z.div_mod (c + 1 + Z.of_nat i) n). pose proof (Z.div_mod (c + 1 + Z.of_nat j) n).
    set (a := (c + 1 + Z.of_nat i) / n) in *. set (b := (c + 1 + Z.of_nat j) / n) in *.
    assert (a = b) by nia. nia.
  - apply NoDup_seqZ.
  - intros r. rewrite elem_of_zrange, list_elem_of_fmap. split.
    + intros (k & -> & _). by apply Z.mod_pos_bound.
    + intros Hr. exists (Z.to_nat ((r - c - 1) mod n)).
      pose proof (Z.mod_pos_bound (r - c - 1) n Hn). split; [|apply elem_of_seq; lia].
      rewrite Z2Nat.id by lia. symmetry. apply mod_unique; [done|].
      pose proof (Z.div_mod (r - c - 1) n). exists (- ((r - c - 1) / n)). lia.
Qed.

(** For an associative and commutative operation the order is immaterial. *)
Lemma ring_reduce_all x c : Assoc (=) op -> Comm (=) op -> 0 < n ->
  reduce_all x = Some (ring_reduce op n x c).
Proof.
  intros Ha Hc Hn. unfold ring_reduce. rewrite ring_acc_visits. unfold reduce_all.
  assert (Assoc (=) opt_op).
  { intros [a|] [b|] [d|]; simpl; try done. by rewrite (assoc_L op). }
  assert (Comm (=) opt_op).
  { intros [a|] [b|]; simpl; try done. by rewrite (comm_L op). }
  apply (foldr_permutation_proper' (=)); [apply _..|]. by rewrite visits_perm.
Qed.

(** A predicate that holds of a combination exactly when it holds of an
    operand holds of the ring reduction exactly when it holds of a rank. *)
Lemma ring_reduce_any (P : T -> Prop) x c :
  (forall a b, P (op a b) <-> P a \/ P b) -> 0 < n ->
  P (ring_reduce op n x c) <-> exists k, 0 <= k < n /\ P (x k).
Proof.
  intros HP Hn. unfold ring_reduce. transitivity (Exists P (x <$> visits c (Z.to_nat (n - 1)))).
  - generalize (Z.to_nat (n - 1)) as h. unfold visits. induction h as [|h IH].
    + simpl. rewrite Exists_cons, Exists_nil, Z.add_0_r. tauto.
    + rewrite (seq_S (S h)), reverse_snoc, !fmap_cons, Exists_cons, <- IH.
      cbn [ring_acc]. by rewrite HP.
  - rewrite (visits_perm c Hn), Exists_exists. setoid_rewrite list_elem_of_fmap.
    setoid_rewrite elem_of_zrange.
    split; [intros (? & (k & -> & ?) & ?)|intros (k & ? & ?)]; eauto.
Qed.
End RankOrder.

Lemma ring_reduce_nan {T} `{FloatOps T} r n x c : r = Max \/ r = Min -> 0 < n ->
  isnan (ring_reduce (redop_apply r) n x c) = true <->
  exists k, 0 <= k < n /\ isnan (x k) = true.
Proof.
  intros Hr Hn. apply (ring_reduce_any _ _ (fun a => isnan a = true)); [|done].
  intros a b. rewrite redop_apply_nan by done. by rewrite orb_true_iff.
Qed.

(** A round of the main loop: offset in the part, elements left, chunk size. *)
Record round := Round { rd_off : Z; rd_rem : Z; rd_chunk : Z }.

(** The chunk an element of the part belongs to. *)
Fixpoint chunk_owner (n : Z) (l : list round) (x : Z) : Z :=
  match l with
  | [] => 0
  | rd :: l => if x <? rd_off rd + n * rd_chunk rd then (x - rd_off rd) / rd_chunk rd
               else chunk_owner n l x
  end.

Section Rounds.
Context `{BuildConfig} (sz : Z) (args : kernel_args) (n : Z) (pt : part).

Fixpoint rounds_from (fuel : nat) (elem_offset : Z) : list round :=
  match fuel with
  | O => []
  | S fuel =>
      if elem_offset <? part_count pt then
        let rem_count := u64 (part_count pt - elem_offset) in
        let loop_chunk := round_chunk sz args n (chunk_count pt) rem_count in
        Round elem_offset rem_count loop_chunk ::
        rounds_from fuel (u64 (elem_offset + u64 (n * loop_chunk)))
      else []
  end.

Lemma all_reduce_loop_rounds fuel off :
  all_reduce_loop sz args n fuel pt off =
  rounds_from fuel off ≫= fun rd =>
    all_reduce_round sz args n (part_offset pt) (rd_off rd) (rd_rem rd) (rd_chunk rd).
Proof.
  revert off. induction fuel as [|fuel IH]; intros off; [done|]. simpl.
  destruct (off <? part_count pt); [|done]. csimpl. by rewrite IH.
Qed.

(** The rounds follow each other and end after the part. *)
Fixpoint chain (off : Z) (l : list round) : Prop :=
  match l with
  | [] => part_count pt <= off
  | rd :: l => rd_off rd = off /\ off < part_count pt /\
      rd_rem rd = part_count pt - off /\
      0 < rd_chunk rd <= ka_slot_elems args /\ n * rd_chunk rd < 2 ^ 62 /\
      chain (off + n * rd_chunk rd) l
  end.

Lemma chain_in off l rd : 0 < n -> chain off l -> rd ∈ l ->
  off <= rd_off rd < part_count pt /\ rd_rem rd = part_count pt - rd_off rd /\
  0 < rd_chunk rd <= ka_slot_elems args /\ n * rd_chunk rd < 2 ^ 62.
Proof.
  intros Hn. revert off. induction l as [|rd' l IH]; intros off; simpl; [by intros _ ?%elem_of_nil|].
  intros (E & Hlt & Er & Hc & Hb & Hch) [->|Hin]%elem_of_cons; [lia|].
  specialize (IH _ Hch Hin). assert (0 < n * rd_chunk rd') by nia. lia.
Qed.

Lemma chain_cover off l x : chain off l -> off <= x < part_count pt ->
  exists rd, rd ∈ l /\ rd_off rd <= x < rd_off rd + n * rd_chunk rd.
Proof.
  revert off. induction l as [|rd l IH]; intros off; simpl; [intros; lia|].
  intros (E & Hlt & Er & Hc & Hb & Hch) Hx.
  destruct (decide (x < off + n * rd_chunk rd)).
  - exists rd. split; [apply elem_of_cons; auto|lia].
  - destruct (IH _ Hch) as (rd' & Hin & ?); [lia|]. exists rd'.
    split; [apply elem_of_cons; auto|lia].
Qed.

Lemma chunk_owner_spec off l rd c x : 0 < n -> chain off l -> rd ∈ l -> 0 <= c < n ->
  rd_off rd + c * rd_chunk rd <= x < rd_off rd + (c + 1) * rd_chunk rd ->
  chunk_owner n l x = c.
Proof.
  intros Hn. revert off. induction l as [|rd' l IH]; intros off; simpl; [by intros _ ?%elem_of_nil|].
  intros (E & Hlt & Er & Hc & Hb & Hch) [->|Hin]%elem_of_cons Hcn Hx.
  - destruct (Z.ltb_spec x (rd_off rd' + n * rd_chunk rd')); [|nia].
    symmetry. apply Z.div_unique with (x - rd_off rd' - c * rd_chunk rd'); nia.
  - destruct (chain_in _ _ rd Hn Hch Hin) as (H1 & _ & H3 & _).
    assert (0 <= c * rd_chunk rd) by nia.
    destruct (Z.ltb_spec x (rd_off rd' + n * rd_chunk rd')); [lia|]. by eapply IH.
Qed.
End Rounds.

(** ** The launch of one channel *)

Section AllReduce.
Context `{BuildConfig} {T : Type} (op : T -> T -> T) (fin : T -> T).
Context (sz count slot_elems step_elems channel : Z).
Context (input : Z -> Z -> T) (base : Z -> Z) (out0 fifo0 : Z -> Z -> T).

Definition ar_args (r : Z) : kernel_args := KArgs r count slot_elems step_elems.
Definition ar_prog (r : Z) : list sop := ring_simple_kernel sz (ar_args r) kRanks channel.

(** The sizes a launch supports: at least two ranks, slots that hold whole
    16-byte vectors, and a count whose products fit [std::size_t]. *)
Record launch_ok : Prop := {
  lo_ranks : 2 <= kRanks;
  lo_sz : elem_size sz;
  lo_count : 0 <= count;
  lo_fit : (count + 1024 * kRanks) * kChannels < 2 ^ 62;
  lo_channel : 0 <= channel < kChannels;
  lo_slot : 0 < slot_elems < 2 ^ 60;
  lo_vector : (kVectorBytes / sz | slot_elems);
  lo_step : 0 <= step_elems < 2 ^ 62;
}.

Context (Hlo : launch_ok).

Abbreviation pt := (cbd_part sz count channel).
Abbreviation n := kRanks.

Lemma n_fits : 0 < n /\ count + 1024 * n < 2 ^ 62 /\ n < 2 ^ 52.
Proof.
  destruct Hlo. pose proof kChannels_pos. assert (count + 1024 * kRanks < 2 ^ 62) by nia. lia.
Qed.

Lemma pt_range : 0 <= part_offset pt /\ 0 <= part_count pt /\
  part_offset pt + part_count pt <= count.
Proof. destruct Hlo. by apply cbd_part_range. Qed.

(** The chunk of a round fits a slot and the ranks share what is left. *)
Lemma round_chunk_spec r rem : 0 < rem <= part_count pt ->
  let lc := round_chunk sz (ar_args r) n (chunk_count pt) rem in
  0 < lc <= slot_elems /\ n * lc < 2 ^ 62.
Proof.
  intros Hrem. pose proof n_fits as (Hn & Hf & Hn2). pose proof pt_range as Hpt.
  destruct Hlo as [_ Hsz Hc0 Hfit Hch Hs Hv _].
  pose proof (chunk_count_spec sz count Hsz Hc0 Hfit channel Hch) as (Hg & Hcc & Hpos).
  set (v := kVectorBytes / sz) in *. set (cc := chunk_count pt) in *.
  assert (0 < v <= 8) as Hvp by (unfold v; by destruct Hsz as [-> | ->]).
  assert (v | cc) as Hvc.
  { eapply Z.divide_trans; [|done]. exists 32. unfold v, simple_grain_elems.
    by destruct Hsz as [-> | ->]. }
  set (lc0 := loop_chunk_elems cc slot_elems).
  assert (0 < lc0 /\ lc0 <= slot_elems /\ lc0 <= cc /\ (v | lc0)) as (L1 & L2 & L3 & L4).
  { unfold lc0, loop_chunk_elems. destruct (Z.ltb_spec cc slot_elems);
      (split_and!; [lia|lia|lia|done]). }
  assert (n * lc0 < 2 ^ 62) as Hnl.
  { assert (lc0 * n <= cc * n) by (apply Z.mul_le_mono_nonneg_r; lia). lia. }
  assert (0 < n * lc0) by (apply Z.mul_pos_pos; lia).
  unfold round_chunk. simpl. fold lc0 v. rewrite (u64_small (n * lc0)) by lia.
  destruct (Z.ltb_spec rem (n * lc0)) as [Hlt|Hge]; [|lia].
  assert (rem <= div_up rem n * n < rem + n) as Hd by (apply div_up_bounds; lia).
  set (d := div_up rem n) in *. clearbody d.
  assert (0 < d) by (apply (Zmult_lt_0_reg_r n d); lia).
  assert (d <= lc0) as Hdl.
  { apply Z.lt_succ_r. apply (Zmult_lt_reg_r _ _ n); lia. }
  pose proof (align_up_bounds d v ltac:(lia) ltac:(lia) ltac:(lia)).
  pose proof (align_up_le d v lc0 ltac:(lia) ltac:(lia) ltac:(lia) L4) as Hal.
  set (A := align_up d v) in *. clearbody A.
  assert (A * n <= lc0 * n) by (apply Z.mul_le_mono_nonneg_r; lia). lia.
Qed.

Definition ar_rounds : list round :=
  if (part_count pt =? 0) || (chunk_count pt =? 0) then []
  else rounds_from sz (ar_args 0) n pt (Z.to_nat (part_count pt)) 0.

(** The loop ends: as many rounds as elements are enough fuel. *)
Lemma rounds_chain fuel off : 0 <= off -> off < part_count pt + 2 ^ 62 ->
  part_count pt - off <= Z.of_nat fuel ->
  chain (ar_args 0) n pt off (rounds_from sz (ar_args 0) n pt fuel off).
Proof.
  pose proof n_fits as (Hn & Hf & Hn2). pose proof pt_range as Hpt.
  revert off. induction fuel as [|fuel IH]; intros off H0 Hub Hfuel; cbn [rounds_from];
    [cbn [chain]; lia|].
  destruct (Z.ltb_spec off (part_count pt)) as [Hlt|Hge]; [|done].
  rewrite (u64_small (part_count pt - off)) by lia. cbn [chain rd_off rd_rem rd_chunk].
  destruct (round_chunk_spec 0 (part_count pt - off)) as [Hc Hnc]; [lia|].
  set (lc := round_chunk _ _ _ _ _) in *.
  assert (0 < n * lc) by (apply Z.mul_pos_pos; lia).
  rewrite (u64_small (n * lc)), (u64_small (off + n * lc)) by lia.
  unfold ar_args; cbn [ka_slot_elems]. split_and!; try done; try lia. apply IH; lia.
Qed.

Lemma ar_rounds_chain : chain (ar_args 0) n pt 0 ar_rounds.
Proof.
  pose proof pt_range. unfold ar_rounds.
  pose proof (chunk_count_spec sz count (lo_sz Hlo) (lo_count Hlo) (lo_fit Hlo)
    channel (lo_channel Hlo)) as (_ & _ & Hpos).
  destruct (Z.eqb_spec (part_count pt) 0), (Z.eqb_spec (chunk_count pt) 0);
    cbn [orb chain]; try lia.
  apply rounds_chain; lia.
Qed.

Lemma ar_prog_rounds r : ar_prog r = ar_rounds ≫= fun rd =>
  all_reduce_round sz (ar_args r) n (part_offset pt) (rd_off rd) (rd_rem rd) (rd_chunk rd).
Proof.
  unfold ar_prog, ring_simple_kernel, ar_rounds. pose proof (lo_channel Hlo).
  destruct (Z.leb_spec kChannels channel); [lia|]. cbn [ka_count ar_args].
  destruct (_ || _); [done|]. by rewrite all_reduce_loop_rounds.
Qed.

(** *** The shape of the schedule *)

Definition ar_prim (p : Z) : prim :=
  if p =? 0 then DirectSend else if p <? n - 1 then RecvReduceSend
  else if p =? n - 1 then RecvReduceCopySend
  else if p <? 2 * n - 2 then RecvCopySend else DirectRecv.
Definition ar_src (r p : Z) : Z := (r - p - 1) mod n.
Definition ar_off (rd : round) (c : Z) : Z :=
  u64 (u64 (part_offset pt + rd_off rd) + u64 (c * rd_chunk rd)).
Definition ar_work (rd : round) (c : Z) : Z :=
  nelem (rd_chunk rd) (rd_rem rd) (u64 (c * rd_chunk rd)).
Definition ar_value (p c x : Z) : T :=
  if p <? n - 1 then ring_acc op n (fun k => input k x) c (Z.to_nat p)
  else fin (ring_reduce op n (fun k => input k x) c).

Lemma round_facts rd c : rd ∈ ar_rounds -> 0 <= c < n ->
  ar_off rd c = part_offset pt + rd_off rd + c * rd_chunk rd /\
  ar_work rd c = Z.max 0 (Z.min (rd_chunk rd) (part_count pt - rd_off rd - c * rd_chunk rd)) /\
  0 <= rd_off rd < part_count pt /\ 0 < rd_chunk rd <= slot_elems /\ 0 <= c * rd_chunk rd.
Proof.
  intros Hrd Hc. pose proof n_fits as (Hn & Hf & Hn2). pose proof pt_range as Hpt.
  destruct (chain_in _ _ _ 0 _ rd Hn ar_rounds_chain Hrd) as (Ho & Hr & Hch & Hnc).
  unfold ar_args in Hch; cbn [ka_slot_elems] in Hch.
  assert (0 <= c * rd_chunk rd) by (apply Z.mul_nonneg_nonneg; lia).
  assert (c * rd_chunk rd <= n * rd_chunk rd) by (apply Z.mul_le_mono_nonneg_r; lia).
  unfold ar_off, ar_work.
  rewrite (u64_small (c * rd_chunk rd)), (u64_small (part_offset pt + rd_off rd)) by lia.
  rewrite u64_small, nelem_spec by lia. rewrite Hr. lia.
Qed.

(** The kernel's list of calls is one call per position. *)
Lemma ar_round_shape r rd : 0 <= r < n ->
  all_reduce_round sz (ar_args r) n (part_offset pt) (rd_off rd) (rd_rem rd) (rd_chunk rd) =
  round_prog sz step_elems (2 * n - 1) ar_work ar_off ar_off (fun _ _ => []) ar_prim ar_src r rd.
Proof.
  intros Hr. pose proof (lo_ranks Hlo) as Hn. unfold round_prog. simpl app.
  unfold zrange. replace (2 * n - 1) with (1 + ((n - 2) + (1 + ((n - 2) + 1)))) by lia.
  rewrite !seqZ_app by lia. rewrite !bind_app.
  change (seqZ 0 1) with [0].
  replace (seqZ (0 + 1) (n - 2)) with (Z.add (-1) <$> seqZ 2 (n - 2))
    by (rewrite fmap_add_seqZ; f_equal; lia).
  replace (seqZ (0 + 1 + (n - 2)) 1) with [n - 1] by (unfold seqZ; simpl; f_equal; lia).
  replace (seqZ (0 + 1 + (n - 2) + 1) (n - 2)) with (Z.add (n - 1) <$> seqZ 1 (n - 2))
    by (rewrite fmap_add_seqZ; f_equal; lia).
  replace (seqZ (0 + 1 + (n - 2) + 1 + (n - 2)) 1) with [2 * n - 2]
    by (unfold seqZ; simpl; f_equal; lia).
  rewrite !bind_fmap_list.
  assert (forall p c, ar_src r p = c -> forall q, ar_prim p = q ->
    chunk_call sz (ar_args r) (part_offset pt) (rd_off rd) (rd_rem rd) (rd_chunk rd) q c =
    prim_call sz step_elems (ar_prim p) (ar_off rd (ar_src r p)) (ar_off rd (ar_src r p))
      (ar_work rd (ar_src r p))) as Hcall by (by intros p c <- q <-).
  unfold all_reduce_round. change (ka_rank (ar_args r)) with r.
  assert (forall p c, (exists k, r - p - 1 = c + k * n) -> ar_src r p = c mod n) as Hsrc.
  { intros p c [k E]. apply (mod_congr k); lia. }
  f_equal; [|f_equal; [|f_equal; [|f_equal]]]; csimpl; rewrite ?app_nil_r;
    try apply bind_ext_in; try intros j Hj%elem_of_seqZ; apply Hcall;
    try apply Hsrc; try (unfold ar_prim; repeat (case_match; try lia; try done)).
  3: apply mod_unique; [done|].
  all: first [exists (-1); lia | exists (-2); lia].
Qed.

Lemma ring_acc_value r p x : 0 <= r < n -> 0 < p <= n - 1 ->
  ring_acc op n (fun k => input k x) (ar_src r p) (Z.to_nat p) =
  op (input r x) (ring_acc op n (fun k => input k x) (ar_src r p) (Z.to_nat (p - 1))).
Proof. intros Hr Hp. apply (ring_acc_pred op n (fun k => input k x)); lia. Qed.

Lemma ar_src_range r p : 0 <= ar_src r p < n.
Proof. apply Z.mod_pos_bound. pose proof n_fits. lia. Qed.

(** What a rank sends at each position. *)
Lemma ar_value_send r p x : 0 <= r < n -> 0 <= p < 2 * n - 2 ->
  ar_value p (ar_src r p) x =
  send_elem op fin (ar_prim p) (input r x) (ar_value (p - 1) (ar_src r p) x).
Proof.
  intros Hr Hp. pose proof (lo_ranks Hlo) as Hn. unfold ar_value, ar_prim.
  destruct (Z.ltb_spec p (n - 1)), (Z.ltb_spec (p - 1) (n - 1)); try lia;
    destruct (Z.eqb_spec p 0) as [E0|E0], (Z.eqb_spec p (n - 1)) as [E1|E1],
      (Z.ltb_spec p (2 * n - 2)) as [E2|E2];
    try lia; simpl; try done.
  - subst p. by apply (ring_acc_first op n (fun k => input k x)).
  - apply ring_acc_value; lia.
  - f_equal. subst p. unfold ring_reduce. apply ring_acc_value; lia.
Qed.

Abbreviation ar_aprog := (aprog sz step_elems (2 * n - 1) ar_rounds ar_work ar_off ar_off
  (fun _ _ => []) ar_prim ar_src).
Abbreviation ar_den := (tag_den ar_value).

Lemma ar_prog_aprog r : 0 <= r < n -> a_op <$> ar_aprog r = ar_prog r.
Proof.
  intros Hr. rewrite aprog_prog, ar_prog_rounds. apply bind_ext_in.
  intros rd _. symmetry. by apply ar_round_shape.
Qed.

(** The 64-bit step counters do not wrap during the launch. *)
Definition steps_fit : Prop := forall r, 0 <= r < n ->
  0 <= base r /\ base r + 2 * Z.of_nat (length (ar_prog r)) + 16 < 2 ^ 64.

Lemma ar_shape : steps_fit -> shape op fin sz slot_elems step_elems n (2 * n - 1) input base
  ar_rounds ar_work ar_off ar_off (fun _ _ => []) ar_prim ar_src ar_value.
Proof.
  intros Hfit. pose proof (lo_ranks Hlo) as Hn. pose proof n_fits as (_ & _ & Hn2). split.
  - done.
  - lia.
  - apply (lo_sz Hlo).
  - apply (lo_step Hlo).
  - pose proof (lo_slot Hlo). lia.
  - intros p Hp. unfold ar_prim. repeat (case_match; try lia; try done);
      symmetry; first [apply bool_decide_eq_true_2; lia | apply bool_decide_eq_false_2; lia].
  - intros p Hp. unfold ar_prim. repeat (case_match; try lia; try done);
      symmetry; first [apply bool_decide_eq_true_2; lia | apply bool_decide_eq_false_2; lia].
  - intros. apply ar_src_range.
  - intros r p Hr Hp. unfold ar_src, next. replace ((r + 1) mod n - (p + 1) - 1)
      with ((r + 1) mod n - (p + 2)) by lia.
    rewrite Zminus_mod_idemp_l. f_equal. lia.
  - intros rd c Hrd Hc. destruct (round_facts rd c Hrd Hc) as (_ & -> & ?). lia.
  - intros. split; [simpl; lia|]. by intros o ?%elem_of_nil.
  - intros rd r p x Hrd Hr Hp Hx. apply ar_value_send; lia.
  - intros r Hr. rewrite <- (length_fmap a_op), ar_prog_aprog by done. by apply Hfit.
Qed.

(** *** The result *)

(** The value every rank ends with at index [x] of the buffer. *)
Definition ar_result (x : Z) : T :=
  fin (ring_reduce op n (fun k => input k x)
         (chunk_owner n ar_rounds (x - part_offset pt))).

Lemma ar_owner rd c x : rd ∈ ar_rounds -> 0 <= c < n -> 0 <= x < ar_work rd c ->
  chunk_owner n ar_rounds (ar_off rd c + x - part_offset pt) = c.
Proof.
  intros Hrd Hc Hx. destruct (round_facts rd c Hrd Hc) as (-> & E & ? & ? & ?).
  rewrite E in Hx. pose proof n_fits.
  eapply (chunk_owner_spec _ _ _ 0 _ rd); [lia|apply ar_rounds_chain|done|done|lia].
Qed.

Lemma ar_stores : stores_ok op fin n (2 * n - 1) input ar_rounds ar_work ar_off ar_off
  (fun _ _ => []) ar_prim ar_src ar_value (fun _ => ar_result).
Proof.
  pose proof (lo_ranks Hlo) as Hn. split; [|by intros ? ? ? ? ? ? ?%elem_of_nil].
  intros rd r p x Hrd Hr Hp Hst Hx. unfold ar_result.
  rewrite ar_owner by (done || apply ar_src_range).
  set (i := ar_off rd (ar_src r p) + x) in *. revert Hst. unfold ar_prim, ar_value.
  destruct (Z.eqb_spec p 0) as [E0|E0]; [done|].
  destruct (Z.ltb_spec p (n - 1)) as [E1|E1]; [done|intros _].
  destruct (Z.ltb_spec (p - 1) (n - 1)) as [E2|E2].
  - assert (p = n - 1) as -> by lia. rewrite Z.eqb_refl. simpl. f_equal.
    symmetry. apply ring_acc_value; lia.
  - destruct (Z.eqb_spec p (n - 1)) as [E3|E3]; [lia|]. by destruct (p <? 2 * n - 2).
Qed.

Lemma ar_covered r x : 0 <= r < n ->
  covered (2 * n - 1) ar_rounds ar_work ar_off (fun _ _ => []) ar_prim ar_src r x <->
  part_offset pt <= x < part_offset pt + part_count pt.
Proof.
  intros Hr. pose proof (lo_ranks Hlo) as Hn. split.
  - intros (rd & Hrd & [(p & Hp & _ & Hx)|(o & Ho & _)]); [|by apply elem_of_nil in Ho].
    destruct (round_facts rd _ Hrd (ar_src_range r p)) as (E1 & E2 & ?). lia.
  - intros Hx.
    destruct (chain_cover _ _ _ 0 _ (x - part_offset pt) ar_rounds_chain) as (rd & Hrd & Hin); [lia|].
    destruct (chain_in _ _ _ 0 _ rd (proj1 n_fits) ar_rounds_chain Hrd) as (_ & _ & Hch & _).
    set (c := (x - part_offset pt - rd_off rd) / rd_chunk rd).
    assert (c * rd_chunk rd <= x - part_offset pt - rd_off rd < (c + 1) * rd_chunk rd) as Hcx.
    { pose proof (Z.div_mod (x - part_offset pt - rd_off rd) (rd_chunk rd)).
      pose proof (Z.mod_pos_bound (x - part_offset pt - rd_off rd) (rd_chunk rd)). lia. }
    assert (0 <= c < n) as Hc.
    { split; [apply Z.div_pos; lia|apply Z.div_lt_upper_bound; lia]. }
    destruct (round_facts rd c Hrd Hc) as (E1 & E2 & ?).
    exists rd. split; [done|]. left. exists (n - 1 + (r - c) mod n).
    assert (0 <= (r - c) mod n < n) as Hm by (apply Z.mod_pos_bound; lia).
    assert (ar_src r (n - 1 + (r - c) mod n) = c) as ->.
    { apply mod_unique; [done|]. pose proof (Z.div_mod (r - c) n).
      exists ((r - c) / n - 1). lia. }
    split_and!; try lia. unfold ar_prim. repeat (case_match; try lia; try done).
Qed.

Abbreviation sys0 := (init n (fun r => [ar_prog r]) base out0 fifo0).
Abbreviation ar_step := (step op fin sz slot_elems n input).
Abbreviation ar_inv := (inv op fin sz slot_elems n input ar_den ar_aprog base out0).

Lemma ar_schedule : steps_fit -> schedule_ok op fin slot_elems n input ar_den ar_aprog base.
Proof. intros Hfit. eapply schedule_shape, ar_shape, Hfit. Qed.

Lemma ar_reachable s : steps_fit -> steps ar_step sys0 s -> abort s = false -> ar_inv s.
Proof.
  intros Hfit. eapply inv_reachable; [by apply ar_schedule|].
  intros r Hr. by rewrite ar_prog_aprog.
Qed.

Lemma ar_final s r x : steps_fit -> ar_inv s -> finished n s -> 0 <= r < n ->
  output (rk s r) x =
  if decide (part_offset pt <= x < part_offset pt + part_count pt)
  then ar_result x else out0 r x.
Proof.
  intros Hfit HI Hfin Hr.
  destruct (inv_finished _ _ _ _ _ _ _ _ _ _ (ar_schedule Hfit) s r HI Hfin Hr) as [-> _].
  destruct (out_after_covered op fin sz slot_elems step_elems n (2 * n - 1) input base ar_rounds
    ar_work ar_off ar_off (fun _ _ => []) ar_prim ar_src ar_value (ar_shape Hfit)
    (fun _ => ar_result) out0 r x Hr ar_stores) as [H1 H2].
  case_decide; [apply H1|apply H2]; by rewrite ar_covered.
Qed.
End AllReduce.
