(* ===== verification/Floats.v ===== *)
(** * The element types as IEEE formats

    The element types of the library are the [float] of C++ and the half and
    bfloat16 types of CUDA, whose operations round to the nearest value, ties to
    even.  [Traits] is the interface of traits.h; [Ieee] says that a type with
    these operations is such a format, through the value an element represents;
    the formats themselves, on the floating-point numbers of the Standard
    Library, are an instance for every [DType]. *)

From Stdlib Require Import ZArith Lia Floats.SpecFloat.
From stdpp Require Import base option numbers tactics list.
From S2P Require Import Prelude Types AllReduce.

#[local] Open Scope Z_scope.

(** ** [float] and [double] of the host *)

Definition f32_prec : Z := 24.
Definition f32_emax : Z := 128.
Definition f64_prec : Z := 53.
Definition f64_emax : Z := 1024.

(** [static_cast<float>] and [static_cast<double>] of an integer. *)
Definition float_of_int (z : Z) : spec_float := binary_normalize f32_prec f32_emax z 0 false.
Definition double_of_int (z : Z) : spec_float := binary_normalize f64_prec f64_emax z 0 false.

Abbreviation fadd32 := (SFadd f32_prec f32_emax).
Abbreviation fsub32 := (SFsub f32_prec f32_emax).
Abbreviation fmul32 := (SFmul f32_prec f32_emax).
Abbreviation fdiv32 := (SFdiv f32_prec f32_emax).
Abbreviation fmul64 := (SFmul f64_prec f64_emax).
Abbreviation fdiv64 := (SFdiv f64_prec f64_emax).

(** A decimal literal, rounded once. *)
Definition float_literal (num den : Z) : spec_float := fdiv32 (float_of_int num) (float_of_int den).

(** [std::fmax], [std::fmin]: a NaN loses against a number; [std::max] keeps
    its first argument unless that is less. *)
Definition fmaxf (a b : spec_float) : spec_float :=
  if SFeqb a a then if SFeqb b b then if SFltb a b then b else a else a else b.
Definition fminf (a b : spec_float) : spec_float :=
  if SFeqb a a then if SFeqb b b then if SFltb b a then b else a else a else b.
Definition std_max (a b : spec_float) : spec_float := if SFltb a b then b else a.

(** ** The formats of the elements *)

Definition dtype_prec (d : DType) : Z :=
  match d with Float => 24 | Float16 => 11 | BFloat16 => 8 end.
Definition dtype_emax (d : DType) : Z :=
  match d with Float => 128 | Float16 => 16 | BFloat16 => 128 end.

(** Conversion to a format: a number is rounded, the rest stays. *)
Definition convert (prec emax : Z) (x : spec_float) : spec_float :=
  match x with S754_finite s m e => binary_round prec emax s m e | _ => x end.

(** [DTypeTraits<D>::from_float] and [to_float]. *)
Definition round_to (d : DType) (x : spec_float) : spec_float :=
  match d with Float => x | _ => convert (dtype_prec d) (dtype_emax d) x end.
Definition widen (d : DType) (x : spec_float) : spec_float :=
  match d with Float => x | _ => convert f32_prec f32_emax x end.

(** [DTypeTraits<D>::kDefaultEpsilon]. *)
Definition kDefaultEpsilon (d : DType) : spec_float :=
  match d with
  | Float => float_literal 1 100000
  | Float16 => float_literal 1 100
  | BFloat16 => float_literal 1 10
  end.

(** What the host does with elements. *)
Class Traits (T : Type) := {
  from_float : spec_float -> T;
  to_float : T -> spec_float;
}.

(** [T] with its operations is the format of [d]: [repr] is the value of an
    element, and every operation rounds the exact result once. *)
Class Ieee (d : DType) (T : Type) `{FloatOps T} `{Traits T} := {
  repr : T -> spec_float;
  repr_add a b : repr (fadd a b) = SFadd (dtype_prec d) (dtype_emax d) (repr a) (repr b);
  repr_mul a b : repr (fmul a b) = SFmul (dtype_prec d) (dtype_emax d) (repr a) (repr b);
  repr_neq a b : fneq a b = negb (SFeqb (repr a) (repr b));
  repr_gt a b : fgt a b = SFltb (repr b) (repr a);
  repr_lt a b : flt a b = SFltb (repr a) (repr b);
  repr_from x : repr (from_float x) = round_to d x;
  repr_to a : to_float a = widen d (repr a);
}.

(** The formats. *)
Definition soft_ops (d : DType) : FloatOps spec_float := {|
  fadd := SFadd (dtype_prec d) (dtype_emax d);
  fmul := SFmul (dtype_prec d) (dtype_emax d);
  fneq a b := negb (SFeqb a b);
  fgt a b := SFltb b a;
  flt a b := SFltb a b |}.
Definition soft_traits (d : DType) : Traits spec_float := {|
  from_float := round_to d; to_float := widen d |}.
Definition soft_ieee (d : DType) : @Ieee d spec_float (soft_ops d) (soft_traits d).
Proof. by apply (Build_Ieee d spec_float (soft_ops d) (soft_traits d) (fun x => x)). Defined.

(** ** Reductions are computed on the represented values *)

Abbreviation soft_apply d r := (@redop_apply spec_float (soft_ops d) r).
Abbreviation soft_finish d r := (@redop_finish spec_float (soft_ops d) r).

Section Repr.
Context {d : DType} {T : Type} `{Ieee d T}.

Lemma repr_apply r a b : repr (redop_apply r a b) = soft_apply d r (repr a) (repr b).
Proof.
  destruct r; simpl; rewrite ?repr_neq, ?repr_gt, ?repr_lt; try apply repr_add; repeat case_match; done.
Qed.

Lemma repr_finish r inverse a :
  repr (redop_finish r inverse a) = soft_finish d r (repr inverse) (repr a).
Proof. destruct r; simpl; try done. apply repr_mul. Qed.
End Repr.

Lemma ring_acc_map {A B} (f : A -> B) opA opB n x c h :
  (forall a b, f (opA a b) = opB (f a) (f b)) ->
  f (ring_acc opA n x c h) = ring_acc opB n (fun k => f (x k)) c h.
Proof. intros Hf. induction h as [|h IH]; simpl; [done|]. by rewrite Hf, IH. Qed.

Lemma ring_reduce_map {A B} (f : A -> B) opA opB n x c :
  (forall a b, f (opA a b) = opB (f a) (f b)) ->
  f (ring_reduce opA n x c) = ring_reduce opB n (fun k => f (x k)) c.
Proof. apply ring_acc_map. Qed.

(** Only the inputs of the ranks matter. *)
Lemma ring_acc_ext {A} (op : A -> A -> A) n x y c h :
  0 < n -> (forall k, 0 <= k < n -> x k = y k) -> ring_acc op n x c h = ring_acc op n y c h.
Proof.
  intros Hn Hxy. induction h as [|h IH]; simpl; [|f_equal; [|done]];
    apply Hxy, Z.mod_pos_bound; done.
Qed.

Lemma foldl_same {A B} (f g : B -> A -> B) b l : (forall b a, f b a = g b a) -> foldl f b l = foldl g b l.
Proof. intros Hf. revert b. induction l as [|a l IH]; intros b; simpl; [done|]. by rewrite Hf. Qed.
