(* ===== verification/Standalone.v ===== *)
(** * Correctness of the AllGather and ReduceScatter kernels

    Both cut the dense buffer of every rank by [channel_part] and walk it in
    rounds of at most one slot. *)

From Stdlib Require Import ZArith Lia Sorted.
From stdpp Require Import base option numbers tactics list.
From S2P Require Import Prelude Types Geometry Ring.
From S2P Require Import RingSafety RingProgress RingSchedule Kernels AllReduce.

#[local] Open Scope Z_scope.

(** A round: offset in the dense buffer and number of elements. *)
Record dround := DRound { dr_off : Z; dr_work : Z }.

Section Dense.
Context (slot_elems part_offset part_count : Z).

Fixpoint dense_rounds (fuel : nat) (elem_offset : Z) : list dround :=
  match fuel with
  | O => []
  | S fuel =>
      if elem_offset <? part_count then
        let remaining := u64 (part_count - elem_offset) in
        let work := if remaining <? slot_elems then remaining else slot_elems in
        DRound (u64 (part_offset + elem_offset)) work ::
        dense_rounds fuel (u64 (elem_offset + work))
      else []
  end.

Context (Hslot : 0 < slot_elems < 2 ^ 60) (Hoff : 0 <= part_offset)
  (Hcnt : 0 <= part_count) (Hsum : part_offset + part_count < 2 ^ 62).

(** The rounds tile the part. *)
Lemma dense_rounds_spec fuel off : 0 <= off <= part_count ->
  part_count - off <= Z.of_nat fuel ->
  tiles ((fun d => (dr_off d, dr_work d)) <$> dense_rounds fuel off)
    (part_offset + off) (part_offset + part_count) /\
  forall d, d ∈ dense_rounds fuel off -> dr_work d <= slot_elems.
Proof.
  revert off. induction fuel as [|fuel IH]; intros off Ho Hf; csimpl.
  { split; [lia|]. by intros ? ?%elem_of_nil. }
  destruct (Z.ltb_spec off part_count); csimpl.
  2: { split; [lia|]. by intros ? ?%elem_of_nil. }
  rewrite (u64_small (part_count - off)), (u64_small (part_offset + off)) by lia.
  set (w := if part_count - off <? slot_elems then _ else _).
  assert (0 < w <= slot_elems /\ w <= part_count - off) as Hw.
  { unfold w. destruct (Z.ltb_spec (part_count - off) slot_elems); lia. }
  rewrite (u64_small (off + w)) by lia.
  destruct (IH (off + w)) as [IH1 IH2]; [lia|lia|]. split.
  - split_and!; [done|lia|]. by replace (part_offset + off + w) with (part_offset + (off + w)) by lia.
  - intros d [->|Hd]%elem_of_cons; [simpl; lia|auto].
Qed.

Lemma dense_round_range d : d ∈ dense_rounds (Z.to_nat part_count) 0 ->
  part_offset <= dr_off d /\ 0 < dr_work d <= slot_elems /\
  dr_off d + dr_work d <= part_offset + part_count.
Proof.
  intros Hd. destruct (dense_rounds_spec (Z.to_nat part_count) 0) as [Ht Hw]; [lia|lia|].
  specialize (Hw d Hd).
  destruct (tiles_bounds _ _ _ (dr_off d) (dr_work d) Ht) as (? & ? & ?); [|lia].
  apply list_elem_of_fmap. eauto.
Qed.

Lemma dense_round_cover x : part_offset <= x < part_offset + part_count ->
  exists d, d ∈ dense_rounds (Z.to_nat part_count) 0 /\ dr_off d <= x < dr_off d + dr_work d.
Proof.
  intros Hx. destruct (dense_rounds_spec (Z.to_nat part_count) 0) as [Ht _]; [lia|lia|].
  destruct (tiles_cover _ _ _ x Ht) as (k & o & w & Hk & Hin & _); [lia|].
  apply list_elem_of_lookup_2, list_elem_of_fmap in Hk as (d & [= -> ->] & Hd). eauto.
Qed.
End Dense.

(** ** The sizes the launches support *)

Section Standalone.
Context `{BuildConfig} {T : Type} (op : T -> T -> T) (fin : T -> T).
Context (sz count slot_elems step_elems channel : Z).
Context (input : Z -> Z -> T) (base : Z -> Z) (out0 fifo0 : Z -> Z -> T).

Record dense_ok : Prop := {
  do_ranks : 2 <= kRanks;
  do_sz : elem_size sz;
  do_count : 0 < count;
  do_fit : (count + 1024 * kRanks) * kChannels < 2 ^ 62;
  do_total : kRanks * count < 2 ^ 62;
  do_channel : 0 <= channel < kChannels;
  do_slot : 0 < slot_elems < 2 ^ 60;
  do_step : 0 <= step_elems < 2 ^ 62;
}.

Context (Hdo : dense_ok).

Abbreviation n := kRanks.
Abbreviation d_args := (fun r => KArgs r count slot_elems step_elems).
Abbreviation po := (channel_part count channel).1.
Abbreviation pc := (channel_part count channel).2.

Definition d_rounds : list dround := dense_rounds slot_elems po pc (Z.to_nat pc) 0.

Lemma part_range : 0 <= po /\ 0 <= pc /\ po + pc <= count /\ count < 2 ^ 62.
Proof.
  destruct Hdo. pose proof kChannels_pos.
  assert (count + 1024 * kRanks < 2 ^ 62) by nia.
  pose proof (channel_part_range count ltac:(lia) do_fit0 channel do_channel0) as Hr.
  destruct (channel_part count channel). simpl in *. lia.
Qed.

Lemma d_round_range d : d ∈ d_rounds ->
  po <= dr_off d /\ 0 < dr_work d <= slot_elems /\ dr_off d + dr_work d <= po + pc.
Proof.
  intros Hd. pose proof part_range. pose proof (do_slot Hdo).
  apply dense_round_range; try lia. done.
Qed.

Lemma d_round_cover x : po <= x < po + pc ->
  exists d, d ∈ d_rounds /\ dr_off d <= x < dr_off d + dr_work d.
Proof.
  intros Hx. pose proof part_range. pose proof (do_slot Hdo). apply dense_round_cover; lia.
Qed.

(** Offset of element [x] of rank [c]'s block in a rank-major buffer. *)
Definition at_rank (c x : Z) : Z := u64 (u64 (c * count) + x).

Lemma at_rank_spec c x : 0 <= c < n -> 0 <= x < count -> at_rank c x = c * count + x.
Proof.
  intros Hc Hx. pose proof part_range. destruct Hdo. unfold at_rank.
  assert (0 <= c * count) by (apply Z.mul_nonneg_nonneg; lia).
  assert (c * count <= n * count) by (apply Z.mul_le_mono_nonneg_r; lia).
  rewrite (u64_small (c * count)), u64_small by lia. done.
Qed.

Lemma round_at_rank d c x : d ∈ d_rounds -> 0 <= c < n -> 0 <= x < dr_work d ->
  at_rank c (dr_off d) + x = c * count + (dr_off d + x) /\ 0 <= dr_off d + x < count.
Proof.
  intros Hd Hc Hx. pose proof (d_round_range d Hd). pose proof part_range.
  rewrite at_rank_spec by lia. lia.
Qed.

Lemma zrange_ends m : 2 <= m -> zrange m = [0] ++ seqZ 1 (m - 2) ++ [m - 1].
Proof.
  intros. unfold zrange. replace m with (1 + ((m - 2) + 1)) at 1 by lia.
  rewrite !seqZ_app by lia. do 2 f_equal. unfold seqZ. simpl. f_equal. lia.
Qed.

(** ** AllGather *)

Definition ag_prog (r : Z) : list sop :=
  ring_simple_all_gather_kernel sz (d_args r) n channel.

Definition ag_prim (p : Z) : prim :=
  if p =? 0 then DirectSend else if p <? n - 1 then RecvCopySend else DirectRecv.
Definition ag_src (r p : Z) : Z := (r - p) mod n.
Definition ag_pre (d : dround) (r : Z) : list sop :=
  [Sop LocalCopy (dr_off d) (at_rank r (dr_off d)) (dr_work d)].
Definition ag_value (p c x : Z) : T := input c x.

Abbreviation ag_work := (fun d (_ : Z) => dr_work d).
Abbreviation ag_in := (fun d (_ : Z) => dr_off d).
Abbreviation ag_out := (fun d c => at_rank c (dr_off d)).

Lemma ag_loop_rounds r fuel off :
  all_gather_loop sz (d_args r) n fuel po pc off =
  dense_rounds slot_elems po pc fuel off ≫= fun d =>
    all_gather_round sz (d_args r) n (dr_off d) (dr_work d).
Proof.
  revert off. induction fuel as [|fuel IH]; intros off; [done|].
  cbn [all_gather_loop dense_rounds ka_slot_elems].
  destruct (off <? pc); [|done]. csimpl. by rewrite IH.
Qed.

Lemma ag_round_shape r d : 0 <= r < n ->
  all_gather_round sz (d_args r) n (dr_off d) (dr_work d) =
  round_prog sz step_elems n ag_work ag_in ag_out ag_pre ag_prim ag_src r d.
Proof.
  intros Hr. pose proof (do_ranks Hdo) as Hn. unfold round_prog, ag_pre.
  rewrite zrange_ends, !bind_app by done.
  assert (forall p c, ag_src r p = c -> forall q, ag_prim p = q ->
    prim_call sz step_elems q (dr_off d) (at_rank c (dr_off d)) (dr_work d) =
    prim_call sz step_elems (ag_prim p) (dr_off d) (at_rank (ag_src r p) (dr_off d)) (dr_work d))
    as Hcall by (by intros p c <- q <-).
  unfold all_gather_round. cbn [ka_rank ka_count ka_step_elems app]. fold (at_rank r (dr_off d)).
  f_equal. f_equal; [|f_equal]; csimpl; rewrite ?app_nil_r;
    try apply bind_ext_in; try intros j Hj%elem_of_seqZ; apply Hcall;
    try (unfold ag_prim; repeat (case_match; try lia; try done)).
  - apply mod_unique; [done|]. exists 0. lia.
  - apply (mod_congr (-1)); lia.
  - apply (mod_congr (-1)); lia.
Qed.

Lemma ag_prog_rounds r : ag_prog r =
  d_rounds ≫= fun d => all_gather_round sz (d_args r) n (dr_off d) (dr_work d).
Proof.
  unfold ag_prog, ring_simple_all_gather_kernel, d_rounds. cbn [ka_count].
  pose proof (do_channel Hdo). destruct (Z.leb_spec kChannels channel); [lia|].
  rewrite <- ag_loop_rounds. destruct (channel_part count channel) as [o w]. simpl.
  by destruct (Z.eqb_spec w 0) as [->|].
Qed.

Abbreviation ag_aprog := (aprog sz step_elems n d_rounds ag_work ag_in ag_out ag_pre ag_prim ag_src).
Abbreviation ag_den := (tag_den ag_value).

Lemma ag_prog_aprog r : 0 <= r < n -> a_op <$> ag_aprog r = ag_prog r.
Proof.
  intros Hr. rewrite aprog_prog, ag_prog_rounds. apply bind_ext_in.
  intros d _. symmetry. by apply ag_round_shape.
Qed.

Definition ag_steps_fit : Prop := forall r, 0 <= r < n ->
  0 <= base r /\ base r + 2 * Z.of_nat (length (ag_prog r)) + 16 < 2 ^ 64.

Lemma ag_shape : ag_steps_fit -> shape op fin sz slot_elems step_elems n n input base
  d_rounds ag_work ag_in ag_out ag_pre ag_prim ag_src ag_value.
Proof.
  intros Hfit. pose proof (do_ranks Hdo) as Hn. split.
  - done.
  - done.
  - apply (do_sz Hdo).
  - apply (do_step Hdo).
  - pose proof (do_slot Hdo). lia.
  - intros p Hp. unfold ag_prim. repeat (case_match; try lia; try done);
      symmetry; first [apply bool_decide_eq_true_2; lia | apply bool_decide_eq_false_2; lia].
  - intros p Hp. unfold ag_prim. repeat (case_match; try lia; try done);
      symmetry; first [apply bool_decide_eq_true_2; lia | apply bool_decide_eq_false_2; lia].
  - intros. apply Z.mod_pos_bound. lia.
  - intros r p Hr Hp. unfold ag_src, next. rewrite Zminus_mod_idemp_l. f_equal. lia.
  - intros d c Hd Hc. pose proof (d_round_range d Hd). lia.
  - intros d r Hd Hr. split; [simpl; lia|]. intros o ->%list_elem_of_singleton.
    simpl. pose proof (d_round_range d Hd). split_and!; done || lia.
  - intros d r p x Hd Hr Hp Hx. unfold ag_value, ag_prim.
    destruct (Z.eqb_spec p 0) as [->|Hp0]; [|by destruct (p <? n - 1)].
    simpl. f_equal. unfold ag_src. rewrite Z.sub_0_r. by apply Z.mod_small.
  - intros r Hr. rewrite <- (length_fmap a_op), ag_prog_aprog by done. by apply Hfit.
Qed.

(** The rank-major concatenation of the inputs. *)
Definition ag_result (x : Z) : T := input (x / count) (x mod count).

Lemma ag_result_spec c x : 0 <= x < count -> ag_result (c * count + x) = input c x.
Proof.
  intros Hx. unfold ag_result. rewrite Z.add_comm.
  rewrite Z.div_add, Z.mod_add, Z.div_small, Z.mod_small by lia. done.
Qed.

Lemma ag_stores : stores_ok op fin n n input d_rounds ag_work ag_in ag_out
  ag_pre ag_prim ag_src ag_value (fun _ => ag_result).
Proof.
  pose proof (do_ranks Hdo) as Hn. split.
  - intros d r p x Hd Hr Hp Hst Hx.
    assert (0 <= ag_src r p < n) as Hc by (apply Z.mod_pos_bound; lia).
    destruct (round_at_rank d (ag_src r p) x Hd Hc Hx) as [-> Hb].
    rewrite ag_result_spec by done. revert Hst. unfold ag_prim, ag_value.
    destruct (Z.eqb_spec p 0) as [Hp0|Hp0]; [done|]. by destruct (p <? n - 1).
  - intros d r o i Hd Hr ->%list_elem_of_singleton. simpl. intros Hi. split; [done|].
    destruct (round_at_rank d r i Hd Hr Hi) as [-> Hb]. by rewrite ag_result_spec.
Qed.

Lemma ag_covered r x : 0 <= r < n -> 0 <= x < n * count ->
  covered n d_rounds ag_work ag_out ag_pre ag_prim ag_src r x <->
  po <= x mod count < po + pc.
Proof.
  intros Hr Hx. pose proof (do_ranks Hdo) as Hn. pose proof (do_count Hdo) as Hcnt.
  pose proof (Z.div_mod x count ltac:(lia)) as Hdm.
  pose proof (Z.mod_pos_bound x count ltac:(lia)) as Hm.
  assert (0 <= x / count < n) as Hq.
  { split; [apply Z.div_pos; lia|apply Z.div_lt_upper_bound; lia]. }
  assert (forall d c, d ∈ d_rounds -> 0 <= c < n ->
    at_rank c (dr_off d) <= x < at_rank c (dr_off d) + dr_work d ->
    po <= x mod count < po + pc) as Hin.
  { intros d c Hd Hc Hxd. pose proof (d_round_range d Hd) as Hrg.
    destruct (round_at_rank d c (x - at_rank c (dr_off d)) Hd Hc) as [E Hb]; [lia|].
    replace (x mod count) with (dr_off d + (x - at_rank c (dr_off d))); [lia|].
    apply (Z.mod_unique_pos x count c); lia. }
  split.
  - intros (d & Hd & [(p & Hp & _ & Hxd)|(o & ->%list_elem_of_singleton & _ & Hxd)]);
      [eapply (Hin d (ag_src r p))|eapply (Hin d r)]; try done. apply Z.mod_pos_bound. lia.
  - intros Hp. destruct (d_round_cover (x mod count) Hp) as (d & Hd & Hxd).
    destruct (round_at_rank d (x / count) (x mod count - dr_off d) Hd Hq) as [E Hb]; [lia|].
    exists d. split; [done|]. destruct (decide (x / count = r)) as [Heq|Hne].
    + right. eexists. split; [by apply list_elem_of_singleton|].
      split; [done|]. simpl. rewrite <- Heq. lia.
    + left. exists ((r - x / count) mod n).
      assert (0 <= (r - x / count) mod n < n) as Hmr by (apply Z.mod_pos_bound; lia).
      assert ((r - x / count) mod n <> 0) as Hnz.
      { intros Hz. apply Hne. destruct (Z.mod_divide (r - x / count) n) as [Hdv _]; [lia|].
        destruct (Hdv Hz) as [k Hk]. assert (k = 0) by nia. lia. }
      assert (ag_src r ((r - x / count) mod n) = x / count) as ->.
      { apply mod_unique; [done|]. pose proof (Z.div_mod (r - x / count) n).
        exists ((r - x / count) / n). lia. }
      split_and!; try lia. unfold ag_prim. repeat (case_match; try lia; try done).
Qed.

Abbreviation ag_inv := (inv op fin sz slot_elems n input ag_den ag_aprog base out0).

Lemma ag_schedule : ag_steps_fit -> schedule_ok op fin slot_elems n input ag_den ag_aprog base.
Proof. intros Hfit. eapply schedule_shape, ag_shape, Hfit. Qed.

Lemma ag_reachable s : ag_steps_fit ->
  steps (step op fin sz slot_elems n input) (init n (fun r => [ag_prog r]) base out0 fifo0) s ->
  abort s = false -> ag_inv s.
Proof.
  intros Hfit. eapply inv_reachable; [by apply ag_schedule|].
  intros r Hr. by rewrite ag_prog_aprog.
Qed.

Lemma ag_final s r x : ag_steps_fit -> ag_inv s -> finished n s ->
  0 <= r < n -> 0 <= x < n * count ->
  output (rk s r) x =
  if decide (po <= x mod count < po + pc) then ag_result x else out0 r x.
Proof.
  intros Hfit HI Hfin Hr Hx.
  destruct (inv_finished _ _ _ _ _ _ _ _ _ _ (ag_schedule Hfit) s r HI Hfin Hr) as [-> _].
  destruct (out_after_covered op fin sz slot_elems step_elems n n input base d_rounds
    ag_work ag_in ag_out ag_pre ag_prim ag_src ag_value (ag_shape Hfit)
    (fun _ => ag_result) out0 r x Hr ag_stores) as [H1 H2].
  case_decide; [apply H1|apply H2]; by rewrite ag_covered.
Qed.

(** ** ReduceScatter *)

Definition rs_prog (r : Z) : list sop :=
  ring_simple_reduce_scatter_kernel sz (d_args r) n channel.

Definition rs_prim (p : Z) : prim :=
  if p =? 0 then DirectSend else if p <? n - 1 then RecvReduceSend else RecvReduceCopy.
Definition rs_src (r p : Z) : Z := (r - p - 1) mod n.
Definition rs_value (p c x : Z) : T := ring_acc op n (fun k => input k x) c (Z.to_nat p).

Abbreviation rs_in := (fun d c => at_rank c (dr_off d)).
Abbreviation rs_out := (fun d (_ : Z) => dr_off d).
Abbreviation rs_pre := (fun (_ : dround) (_ : Z) => [] : list sop).

Lemma rs_loop_rounds r fuel off :
  reduce_scatter_loop sz (d_args r) n fuel po pc off =
  dense_rounds slot_elems po pc fuel off ≫= fun d =>
    reduce_scatter_round sz (d_args r) n (dr_off d) (dr_work d).
Proof.
  revert off. induction fuel as [|fuel IH]; intros off; [done|].
  cbn [reduce_scatter_loop dense_rounds ka_slot_elems].
  destruct (off <? pc); [|done]. csimpl. by rewrite IH.
Qed.

Lemma rs_round_shape r d : 0 <= r < n ->
  reduce_scatter_round sz (d_args r) n (dr_off d) (dr_work d) =
  round_prog sz step_elems n ag_work rs_in rs_out rs_pre rs_prim rs_src r d.
Proof.
  intros Hr. pose proof (do_ranks Hdo) as Hn. unfold round_prog.
  rewrite zrange_ends, !bind_app by done.
  replace (seqZ 1 (n - 2)) with (Z.add (-1) <$> seqZ 2 (n - 2))
    by (rewrite fmap_add_seqZ; f_equal; lia).
  rewrite bind_fmap_list.
  assert (forall p c, rs_src r p = c -> forall q, rs_prim p = q ->
    prim_call sz step_elems q (at_rank c (dr_off d)) (dr_off d) (dr_work d) =
    prim_call sz step_elems (rs_prim p) (at_rank (rs_src r p) (dr_off d)) (dr_off d) (dr_work d))
    as Hcall by (by intros p c <- q <-).
  unfold reduce_scatter_round. cbn [ka_rank ka_count ka_step_elems app].
  f_equal; [|f_equal]; csimpl; rewrite ?app_nil_r;
    try apply bind_ext_in; try intros j Hj%elem_of_seqZ; apply Hcall;
    try (unfold rs_prim; repeat (case_match; try lia; try done)).
  - apply (mod_congr (-1)); lia.
  - apply (mod_congr (-1)); lia.
  - apply mod_unique; [done|]. exists (-1). lia.
Qed.

Lemma rs_prog_rounds r : rs_prog r =
  d_rounds ≫= fun d => reduce_scatter_round sz (d_args r) n (dr_off d) (dr_work d).
Proof.
  unfold rs_prog, ring_simple_reduce_scatter_kernel, d_rounds. cbn [ka_count].
  pose proof (do_channel Hdo). destruct (Z.leb_spec kChannels channel); [lia|].
  rewrite <- rs_loop_rounds. destruct (channel_part count channel) as [o w]. simpl.
  by destruct (Z.eqb_spec w 0) as [->|].
Qed.

Abbreviation rs_aprog := (aprog sz step_elems n d_rounds ag_work rs_in rs_out rs_pre rs_prim rs_src).
Abbreviation rs_den := (tag_den rs_value).

Lemma rs_prog_aprog r : 0 <= r < n -> a_op <$> rs_aprog r = rs_prog r.
Proof.
  intros Hr. rewrite aprog_prog, rs_prog_rounds. apply bind_ext_in.
  intros d _. symmetry. by apply rs_round_shape.
Qed.

Definition rs_steps_fit : Prop := forall r, 0 <= r < n ->
  0 <= base r /\ base r + 2 * Z.of_nat (length (rs_prog r)) + 16 < 2 ^ 64.

Lemma rs_shape : rs_steps_fit -> shape op fin sz slot_elems step_elems n n input base
  d_rounds ag_work rs_in rs_out rs_pre rs_prim rs_src rs_value.
Proof.
  intros Hfit. pose proof (do_ranks Hdo) as Hn. split.
  - done.
  - done.
  - apply (do_sz Hdo).
  - apply (do_step Hdo).
  - pose proof (do_slot Hdo). lia.
  - intros p Hp. unfold rs_prim. repeat (case_match; try lia; try done);
      symmetry; first [apply bool_decide_eq_true_2; lia | apply bool_decide_eq_false_2; lia].
  - intros p Hp. unfold rs_prim. repeat (case_match; try lia; try done);
      symmetry; first [apply bool_decide_eq_true_2; lia | apply bool_decide_eq_false_2; lia].
  - intros. apply Z.mod_pos_bound. lia.
  - intros r p Hr Hp. unfold rs_src, next.
    replace ((r + 1) mod n - (p + 1) - 1) with ((r + 1) mod n - (p + 2)) by lia.
    rewrite Zminus_mod_idemp_l. f_equal. lia.
  - intros d c Hd Hc. pose proof (d_round_range d Hd). lia.
  - intros. split; [simpl; lia|]. by intros o ?%elem_of_nil.
  - intros d r p x Hd Hr Hp Hx. unfold rs_value, rs_prim.
    destruct (Z.eqb_spec p 0) as [->|Hp0].
    + by apply (ring_acc_first op n (fun k => input k _)).
    + destruct (Z.ltb_spec p (n - 1)); [|lia].
      apply (ring_acc_pred op n (fun k => input k _)); lia.
  - intros r Hr. rewrite <- (length_fmap a_op), rs_prog_aprog by done. by apply Hfit.
Qed.

(** Rank [r] gets the reduction of the [r]-th block of all inputs. *)
Definition rs_result (r x : Z) : T :=
  fin (ring_reduce op n (fun k => input k (r * count + x)) r).

Lemma rs_stores : stores_ok op fin n n input d_rounds ag_work rs_in rs_out
  rs_pre rs_prim rs_src rs_value rs_result.
Proof.
  pose proof (do_ranks Hdo) as Hn. split; [|by intros ? ? ? ? ? ? ?%elem_of_nil].
  intros d r p x Hd Hr Hp Hst Hx. revert Hst. unfold rs_prim.
  destruct (Z.eqb_spec p 0) as [Hp0|Hp0]; [done|]. destruct (Z.ltb_spec p (n - 1)); [done|intros _].
  assert (p = n - 1) as -> by lia.
  assert (rs_src r (n - 1) = r) as Hsrc by (apply mod_unique; [done|]; exists (-1); lia).
  rewrite Hsrc. destruct (round_at_rank d r x Hd Hr Hx) as [-> _].
  simpl. unfold rs_result, rs_value, ring_reduce. f_equal. symmetry.
  pose proof (ring_acc_pred op n (fun k => input k (r * count + (dr_off d + x))) r (n - 1)) as E.
  change ((r - (n - 1) - 1) mod n) with (rs_src r (n - 1)) in E. rewrite Hsrc in E.
  apply E; lia.
Qed.

Lemma rs_covered r x : 0 <= r < n ->
  covered n d_rounds ag_work rs_out rs_pre rs_prim rs_src r x <-> po <= x < po + pc.
Proof.
  intros Hr. pose proof (do_ranks Hdo) as Hn. split.
  - intros (d & Hd & [(p & Hp & _ & Hxd)|(o & Ho & _)]); [|by apply elem_of_nil in Ho].
    pose proof (d_round_range d Hd). lia.
  - intros Hp. destruct (d_round_cover x Hp) as (d & Hd & Hxd).
    exists d. split; [done|]. left. exists (n - 1).
    split_and!; try lia. unfold rs_prim. repeat (case_match; try lia; try done).
Qed.

Abbreviation rs_inv := (inv op fin sz slot_elems n input rs_den rs_aprog base out0).

Lemma rs_schedule : rs_steps_fit -> schedule_ok op fin slot_elems n input rs_den rs_aprog base.
Proof. intros Hfit. eapply schedule_shape, rs_shape, Hfit. Qed.

Lemma rs_reachable s : rs_steps_fit ->
  steps (step op fin sz slot_elems n input) (init n (fun r => [rs_prog r]) base out0 fifo0) s ->
  abort s = false -> rs_inv s.
Proof.
  intros Hfit. eapply inv_reachable; [by apply rs_schedule|].
  intros r Hr. by rewrite rs_prog_aprog.
Qed.

Lemma rs_final s r x : rs_steps_fit -> rs_inv s -> finished n s -> 0 <= r < n ->
  output (rk s r) x =
  if decide (po <= x < po + pc) then rs_result r x else out0 r x.
Proof.
  intros Hfit HI Hfin Hr.
  destruct (inv_finished _ _ _ _ _ _ _ _ _ _ (rs_schedule Hfit) s r HI Hfin Hr) as [-> _].
  destruct (out_after_covered op fin sz slot_elems step_elems n n input base d_rounds
    ag_work rs_in rs_out rs_pre rs_prim rs_src rs_value (rs_shape Hfit)
    rs_result out0 r x Hr rs_stores) as [H1 H2].
  case_decide; [apply H1|apply H2]; by rewrite rs_covered.
Qed.
End Standalone.
