(* ===== verification/Collectives.v ===== *)
(** * The collectives: what a launch computes

    The theorems about whole launches of the three kernels on all ranks, from
    the protocol ([RingProgram]) and the schedules ([AllReduce],
    [Standalone]), with concrete executions on three ranks. *)

From Stdlib Require Import ZArith Lia Sorted.
From stdpp Require Import base option numbers tactics list relations.
From S2P Require Import Prelude Types Geometry Ring RingSafety.
From S2P Require Import RingProgress RingProgram RingSchedule Kernels AllReduce Standalone.

#[local] Open Scope Z_scope.

(** ** The kernels implement the interface of the protocol *)

Section Instances.
Context `{BuildConfig} {T : Type} (op : T -> T -> T) (fin : T -> T).
Context (sz count slot_elems step_elems channel : Z).
Context (input : Z -> Z -> T) (base : Z -> Z).

Definition all_reduce_program :
  launch_ok sz count slot_elems step_elems channel ->
  steps_fit sz count slot_elems step_elems channel base ->
  RingProgram op fin slot_elems kRanks input base
    (ar_prog sz count slot_elems step_elems channel).
Proof.
  intros Hlo Hfit. eapply (Build_RingProgram _ _ _ _ _ _ _ _ _ _ _
    (ar_schedule op fin sz count slot_elems step_elems channel input base Hlo Hfit)).
  intros r Hr. symmetry. by apply ar_prog_aprog.
Defined.

Definition all_gather_program :
  dense_ok sz count slot_elems step_elems channel ->
  ag_steps_fit sz count slot_elems step_elems channel base ->
  RingProgram op fin slot_elems kRanks input base
    (ag_prog sz count slot_elems step_elems channel).
Proof.
  intros Hlo Hfit. eapply (Build_RingProgram _ _ _ _ _ _ _ _ _ _ _
    (ag_schedule op fin sz count slot_elems step_elems channel input base Hlo Hfit)).
  intros r Hr. symmetry. by apply ag_prog_aprog.
Defined.

Definition reduce_scatter_program :
  dense_ok sz count slot_elems step_elems channel ->
  rs_steps_fit sz count slot_elems step_elems channel base ->
  RingProgram op fin slot_elems kRanks input base
    (rs_prog sz count slot_elems step_elems channel).
Proof.
  intros Hlo Hfit. eapply (Build_RingProgram _ _ _ _ _ _ _ _ _ _ _
    (rs_schedule op fin sz count slot_elems step_elems channel input base Hlo Hfit)).
  intros r Hr. symmetry. by apply rs_prog_aprog.
Defined.
End Instances.

(** ** A concrete launch: three ranks, integers, 48 elements *)

Module Demo.
#[export] Instance z_ops : FloatOps Z := {|
  fadd := Z.add; fmul := Z.mul; fneq a b := negb (a =? b);
  fgt a b := b <? a; flt a b := a <? b |}.
#[export] Existing Instance small_config.

Definition op : Z -> Z -> Z := redop_apply Sum.
Definition fin : Z -> Z := redop_finish Sum 1.
Definition input (r i : Z) : Z := (r + 1) * 10000 + i.
Definition zero2 (_ _ : Z) : Z := 0.
Definition zero1 (_ : Z) : Z := 0.

Definition start (prog : Z -> list sop) : sys Z :=
  init 3 (fun r => [prog r]) zero1 zero2 zero2.
Definition ended (prog : Z -> list sop) : sys Z :=
  round_robin op fin 4 32 3 input 200 (start prog).

Lemma ended_steps prog : steps (step op fin 4 32 3 input) (start prog) (ended prog).
Proof. apply rank_steps_steps, round_robin_steps. Qed.

(** A property of all ranks by enumeration. *)
Lemma ranks3 (P : Z -> Prop) : P 0 -> P 1 -> P 2 -> forall r, 0 <= r < 3 -> P r.
Proof.
  intros H0 H1 H2 r Hr. assert (r = 0 \/ r = 1 \/ r = 2) as [->|[->| ->]] by lia; done.
Qed.

Definition ar : Z -> list sop := ar_prog 4 48 32 32 0.
Definition ag : Z -> list sop := ag_prog 4 10 32 32 0.
Definition rs : Z -> list sop := rs_prog 4 10 32 32 0.

Lemma ar_launch_ok : launch_ok 4 48 32 32 0.
Proof. split; try (simpl; lia); [by left|by exists 8]. Qed.
Lemma dense_launch_ok : dense_ok 4 10 32 32 0.
Proof. split; try (simpl; lia). by left. Qed.
Lemma ar_fit : steps_fit 4 48 32 32 0 zero1.
Proof. refine (ranks3 _ _ _ _); by vm_compute. Qed.
Lemma ag_fit : ag_steps_fit 4 10 32 32 0 zero1.
Proof. refine (ranks3 _ _ _ _); by vm_compute. Qed.
Lemma rs_fit : rs_steps_fit 4 10 32 32 0 zero1.
Proof. refine (ranks3 _ _ _ _); by vm_compute. Qed.
Lemma ar_done : finished 3 (ended ar).
Proof. refine (ranks3 _ _ _ _); by vm_compute. Qed.
Lemma ag_done : finished 3 (ended ag).
Proof. refine (ranks3 _ _ _ _); by vm_compute. Qed.
Lemma rs_done : finished 3 (ended rs).
Proof. refine (ranks3 _ _ _ _); by vm_compute. Qed.
End Demo.

(** ** AllReduce *)

Section AllReduceLaunch.
Context `{BuildConfig} {T : Type} `{FloatOps T}.
Context (R : RedOp) (inverse : T).
Context (sz count slot_elems step_elems channel : Z).
Context (input : Z -> Z -> T) (base : Z -> Z) (out0 fifo0 : Z -> Z -> T).

Abbreviation op := (redop_apply R).
Abbreviation fin := (redop_finish R inverse).
Abbreviation start := (init kRanks (fun r =>
  [ring_simple_kernel sz (KArgs r count slot_elems step_elems) kRanks channel])
  base out0 fifo0).
Abbreviation astep := (step op fin sz slot_elems kRanks input).
Abbreviation around := (fair_round op fin sz slot_elems kRanks input).
Abbreviation part := (cbd_part sz count channel).

(** C1: When the AllReduce kernels of one channel have returned on all
    ranks, in whatever order the ranks ran, every element of the channel's
    part holds on every rank the same value: the reduction of all inputs in
    the order of the ring that starts after the owner of its chunk, scaled
    once for Avg; elements outside the part are untouched. *)
Theorem all_reduce_result s :
  launch_ok sz count slot_elems step_elems channel ->
  steps_fit sz count slot_elems step_elems channel base ->
  steps astep start s -> abort s = false -> finished kRanks s ->
  forall r x, 0 <= r < kRanks ->
    output (rk s r) x =
    if decide (part_offset part <= x < part_offset part + part_count part)
    then fin (ring_reduce op kRanks (fun k => input k x)
                (chunk_owner kRanks (ar_rounds sz count slot_elems step_elems channel)
                   (x - part_offset part)))
    else out0 r x.
Proof.
  intros Hlo Hfit Hst Hab Hfin r x Hr.
  apply (ar_final op fin sz count slot_elems step_elems channel input base out0 Hlo s r x Hfit);
    [by eapply ar_reachable|done..].
Qed.

(** C2: An AllReduce launch cannot deadlock or livelock: from every state any
    interleaving can reach, unless the host raises the abort word, every
    schedule in which each rank performs some enabled action in each round, in
    any order and as often as it likes, has returned from all kernels after
    three times [weight] rounds, and such schedules exist. *)
Theorem all_reduce_completes s m :
  launch_ok sz count slot_elems step_elems channel ->
  steps_fit sz count slot_elems step_elems channel base ->
  steps astep start s -> abort s = false -> (3 * weight sz kRanks s <= m)%nat ->
  (exists s', nsteps around m s s') /\
  forall s', nsteps around m s s' -> finished kRanks s' /\ abort s' = false.
Proof.
  intros Hlo Hfit Hst Hab Hm. by apply (protocol_completes _ _ sz _ _ _ _ _
    (RP := all_reduce_program op fin sz count slot_elems step_elems channel input base Hlo Hfit)
    out0 fifo0 s m Hst Hab).
Qed.

(** C3: Every element of the buffer belongs to exactly one channel, and for
    a reduction that is associative and commutative the value this channel
    leaves there on every rank is the reduction over all ranks in rank
    order. *)
Theorem all_reduce_reference x :
  elem_size sz -> 0 <= count -> (count + 1024 * kRanks) * kChannels < 2 ^ 62 ->
  2 <= kRanks -> 0 < slot_elems < 2 ^ 60 -> (kVectorBytes / sz | slot_elems) ->
  0 <= step_elems < 2 ^ 62 ->
  (forall c, 0 <= c < kChannels -> steps_fit sz count slot_elems step_elems c base) ->
  Assoc (=) op -> Comm (=) op -> 0 <= x < count ->
  exists c, 0 <= c < kChannels /\
    (forall c', 0 <= c' < kChannels ->
       (let pt := cbd_part sz count c' in
        part_offset pt <= x < part_offset pt + part_count pt) -> c' = c) /\
    forall s r,
      steps astep (init kRanks (fun r =>
        [ring_simple_kernel sz (KArgs r count slot_elems step_elems) kRanks c])
        base out0 fifo0) s ->
      abort s = false -> finished kRanks s -> 0 <= r < kRanks ->
      Some (output (rk s r) x) = fin <$> reduce_all op kRanks (fun k => input k x).
Proof.
  intros Hsz Hc0 Hfit Hn Hslot Hv Hstep Hsf Ha Hc Hx.
  destruct (cbd_part_cover sz count Hsz Hc0 Hfit x Hx) as (c & Hcc & Hin & Hu).
  exists c. split_and!; [lia|lia|done|]. intros s r Hst Hab Hfin Hr.
  assert (launch_ok sz count slot_elems step_elems c) as Hlo by by split.
  rewrite (ar_final op fin sz count slot_elems step_elems c input base out0 Hlo s r x); auto.
  2: { by eapply ar_reachable; eauto. }
  rewrite decide_True by done. unfold ar_result.
  by erewrite ring_reduce_all by (done || apply kRanks_pos).
Qed.

(** NaN is never lost: after a Max or Min AllReduce an element is NaN on
    a rank exactly when some rank contributed NaN there. *)
Theorem all_reduce_nan s :
  R = Max \/ R = Min ->
  launch_ok sz count slot_elems step_elems channel ->
  steps_fit sz count slot_elems step_elems channel base ->
  steps astep start s -> abort s = false -> finished kRanks s ->
  forall r x, 0 <= r < kRanks ->
    part_offset part <= x < part_offset part + part_count part ->
    isnan (output (rk s r) x) = true <->
    exists k, 0 <= k < kRanks /\ isnan (input k x) = true.
Proof.
  intros HR Hlo Hfit Hst Hab Hfin r x Hr Hx.
  rewrite (ar_final op fin sz count slot_elems step_elems channel input base out0 Hlo s r x Hfit);
    [|by eapply ar_reachable|done..].
  rewrite decide_True by done. unfold ar_result.
  replace (fin _) with (ring_reduce op kRanks (fun k => input k x)
    (chunk_owner kRanks (ar_rounds sz count slot_elems step_elems channel) (x - part_offset part)))
    by by destruct HR as [-> | ->].
  apply ring_reduce_nan; [done|apply kRanks_pos].
Qed.
End AllReduceLaunch.

(** ** AllGather and ReduceScatter *)

Section DenseLaunch.
Context `{BuildConfig} {T : Type} `{FloatOps T}.
Context (R : RedOp) (inverse : T).
Context (sz count slot_elems step_elems channel : Z).
Context (input : Z -> Z -> T) (base : Z -> Z) (out0 fifo0 : Z -> Z -> T).

Abbreviation op := (redop_apply R).
Abbreviation fin := (redop_finish R inverse).
Abbreviation dstep := (step op fin sz slot_elems kRanks input).
Abbreviation around := (fair_round op fin sz slot_elems kRanks input).
Abbreviation dargs := (fun r => KArgs r count slot_elems step_elems).
Abbreviation launched k := (init kRanks (fun r => [k (dargs r) channel]) base out0 fifo0).
Abbreviation gather := (fun a c => ring_simple_all_gather_kernel sz a kRanks c).
Abbreviation scatter := (fun a c => ring_simple_reduce_scatter_kernel sz a kRanks c).
Abbreviation po := (channel_part count channel).1.
Abbreviation pc := (channel_part count channel).2.

(** C4: After an AllGather launch of one channel has returned everywhere,
    every rank holds in block [x / count] of its rank-major output the
    elements of that rank's input which belong to the channel, its own block
    included; the rest of the output is untouched. *)
Theorem all_gather_result s :
  dense_ok sz count slot_elems step_elems channel ->
  ag_steps_fit sz count slot_elems step_elems channel base ->
  steps dstep (launched gather) s -> abort s = false -> finished kRanks s ->
  forall r x, 0 <= r < kRanks -> 0 <= x < kRanks * count ->
    output (rk s r) x =
    if decide (po <= x mod count < po + pc)
    then input (x / count) (x mod count) else out0 r x.
Proof.
  intros Hlo Hfit Hst Hab Hfin r x Hr Hx.
  apply (ag_final op fin sz count slot_elems step_elems channel input base out0 Hlo s r x Hfit);
    [by eapply ag_reachable|done..].
Qed.

(** C5: After a ReduceScatter launch of one channel has returned everywhere,
    rank [r] holds, in the channel's part of its dense output, the reduction
    of block [r] of all inputs, in ring order starting at rank [r + 1] and
    ending with its own contribution, scaled once for Avg. *)
Theorem reduce_scatter_result s :
  dense_ok sz count slot_elems step_elems channel ->
  rs_steps_fit sz count slot_elems step_elems channel base ->
  steps dstep (launched scatter) s -> abort s = false -> finished kRanks s ->
  forall r x, 0 <= r < kRanks ->
    output (rk s r) x =
    if decide (po <= x < po + pc)
    then fin (ring_reduce op kRanks (fun k => input k (r * count + x)) r) else out0 r x.
Proof.
  intros Hlo Hfit Hst Hab Hfin r x Hr.
  apply (rs_final op fin sz count slot_elems step_elems channel input base out0 Hlo s r x Hfit);
    [by eapply rs_reachable|done..].
Qed.

(** C6: Neither AllGather nor ReduceScatter can deadlock or livelock: from
    every reachable state without abort every fair schedule has returned from
    all kernels after three times [weight] rounds, and there are such
    schedules. *)
Theorem dense_completes s m :
  dense_ok sz count slot_elems step_elems channel ->
  ag_steps_fit sz count slot_elems step_elems channel base ->
  rs_steps_fit sz count slot_elems step_elems channel base ->
  steps dstep (launched gather) s \/ steps dstep (launched scatter) s ->
  abort s = false -> (3 * weight sz kRanks s <= m)%nat ->
  (exists s', nsteps around m s s') /\
  forall s', nsteps around m s s' -> finished kRanks s' /\ abort s' = false.
Proof.
  intros Hlo Hag Hrs [Hst|Hst] Hab Hm.
  - by apply (protocol_completes _ _ sz _ _ _ _ _
      (RP := all_gather_program op fin sz count slot_elems step_elems channel input base Hlo Hag)
      out0 fifo0 s m Hst Hab).
  - by apply (protocol_completes _ _ sz _ _ _ _ _
      (RP := reduce_scatter_program op fin sz count slot_elems step_elems channel input base Hlo Hrs)
      out0 fifo0 s m Hst Hab).
Qed.
End DenseLaunch.

(** ** The protocol under every such program *)

Section ProtocolTheorems.
Context {T : Type} (op : T -> T -> T) (fin : T -> T) (sz slot_elems n : Z).
Context (input : Z -> Z -> T) (base : Z -> Z) (prog : Z -> list sop).
Context `{RP : !RingProgram op fin slot_elems n input base prog}.
Context (out0 fifo0 : Z -> Z -> T).

Abbreviation s0 := (init n (fun r => [prog r]) base out0 fifo0).
Abbreviation pstep := (step op fin sz slot_elems n input).

(** C7: As long as the host does not abort, the producer of an edge is never
    more than the FIFO depth ahead of its consumer and never behind it. *)
Theorem fifo_never_overrun s e :
  steps pstep s0 s -> abort s = false -> 0 <= e < n ->
  base e <= head (ed s e) <= tail (ed s e) /\ tail (ed s e) <= head (ed s e) + kFifoSteps.
Proof. exact (protocol_words op fin sz slot_elems n input base prog out0 fifo0 s e). Qed.

(** C8: Whenever a rank is about to read its receive slot, the slot holds,
    unchanged and with its byte count, exactly the message with the number
    of its receive step: delivery is in order, once, and not overwritten. *)
Theorem in_order_delivery s r d rest :
  steps pstep s0 s -> abort s = false -> 0 <= r < n ->
  running (rk s r) = true -> cur (rk s r) = IData d :: rest -> reads_recv d = true ->
  exists k m, rp_messages (prev n r) !! k = Some (d_work d, m) /\
    recv_step (rk s r) = base (prev n r) + kSliceSteps * Z.of_nat k /\
    (forall i, 0 <= i < d_work d ->
       fifo (ed s (prev n r)) (slot_base slot_elems (recv_step (rk s r)) + i) = m i) /\
    payload_bytes (ed s (prev n r)) (recv_step (rk s r) mod kFifoSteps) =
      u32 (slice_bytes sz (d_work d)).
Proof.
  exact (protocol_delivery op fin sz slot_elems n input base prog out0 fifo0 s r d rest).
Qed.

(** The result of a launch does not depend on the interleaving: any two
    executions that end leave the same output on every rank. *)
Theorem launch_deterministic s1 s2 r i :
  steps pstep s0 s1 -> abort s1 = false -> finished n s1 ->
  steps pstep s0 s2 -> abort s2 = false -> finished n s2 ->
  0 <= r < n -> output (rk s1 r) i = output (rk s2 r) i.
Proof.
  intros Hs1 Ha1 Hf1 Hs2 Ha2 Hf2 Hr.
  destruct (protocol_final op fin sz slot_elems n input base prog out0 fifo0 s1 r) as [-> _]; auto.
  destruct (protocol_final op fin sz slot_elems n input base prog out0 fifo0 s2 r) as [-> _]; auto.
Qed.

(** C9: After a launch every FIFO is drained and both ends of an edge have
    stored the same base step, so a launch that starts when all ranks have
    finished the previous one finds the state the protocol needs. *)
Theorem launch_quiescent s r :
  steps pstep s0 s -> abort s = false -> finished n s -> 0 <= r < n ->
  head (ed s r) = tail (ed s r) /\
  send_base (rk s r) = tail (ed s r) /\ recv_base (rk s (next n r)) = head (ed s r).
Proof.
  intros Hst Hab Hfin Hr.
  by destruct (protocol_final op fin sz slot_elems n input base prog out0 fifo0 s r) as [_ ?].
Qed.
End ProtocolTheorems.

(** ** Abort, in every state *)

Section AnyState.
Context {T : Type} (op : T -> T -> T) (fin : T -> T) (sz slot_elems n : Z).
Context (input : Z -> Z -> T).

Abbreviation exec := (run op fin sz slot_elems n input).

(** Once the abort word is raised, every running kernel can return by
    actions of its own rank alone, whatever the other ranks do or have
    done: no wait keeps a block alive. *)
Theorem abort_releases s r :
  abort s = true -> running (rk s r) = true -> 0 <= r < n ->
  exists acts s', exec (pair r <$> acts) s = Some s' /\ running (rk s' r) = false.
Proof.
  intros Hab. remember (weight sz n s) as w eqn:Hw. revert s Hab Hw.
  induction (lt_wf w) as [w _ IH]; intros s Hab -> Hrun Hr.
  cut (exists a s1, act op fin sz slot_elems n input r a s = Some s1 /\ is_poll a = false).
  { intros (a & s1 & Ha & Hp).
    pose proof (act_weight sz op fin slot_elems n input r a s s1 Hr Ha) as Hlt.
    rewrite Hp in Hlt.
    assert (abort s1 = true).
    { revert Ha. unfold act. destruct (act_rank _ _ _ _ _ _ _ _ _ _) as [[]|]; [|done].
      cbn. by intros [= <-]. }
    destruct (running (rk s1 r)) eqn:Hrun1.
    - destruct (IH _ Hlt s1) as (acts & s' & He & ?); try done.
      exists (a :: acts), s'. cbn. by rewrite Ha.
    - exists [a], s1. cbn. by rewrite Ha. }
  unfold act, act_rank. destruct (cur (rk s r)) as [|i rest] eqn:Hcur.
  - destruct (ops (rk s r)) as [|o os] eqn:Hops.
    + exists Finish. rewrite Hrun. cbn. eauto.
    + exists Fetch. rewrite Hrun. cbn. eauto.
  - destruct i.
    1: exists AbortReturn; rewrite Hrun, Hab; cbn; eauto.
    all: exists Go; rewrite Hrun; cbn; eauto.
Qed.
End AnyState.

(** ** Accesses stay inside the buffers *)

Section Bounds.
Context `{BuildConfig} (sz count slot_elems step_elems channel : Z).

Abbreviation kargs := (fun r => KArgs r count slot_elems step_elems).

Lemma ar_in_bounds r o : launch_ok sz count slot_elems step_elems channel -> 0 <= r < kRanks ->
  o ∈ ring_simple_kernel sz (kargs r) kRanks channel ->
  0 < s_work o <= slot_elems /\ 0 <= s_local o /\ s_local o + s_work o <= count /\
  0 <= s_out o /\ s_out o + s_work o <= count.
Proof.
  intros Hlo Hr Ho.
  change (ring_simple_kernel _ _ _ _) with (ar_prog sz count slot_elems step_elems channel r) in Ho.
  rewrite ar_prog_rounds in Ho by done. apply list_elem_of_bind in Ho as (rd & Ho & Hrd).
  rewrite ar_round_shape in Ho by done.
  apply elem_of_round_prog in Ho as [Ho|(p & Hp & Ho)]; [by apply elem_of_nil in Ho|].
  pose proof (ar_src_range sz count slot_elems step_elems channel Hlo r p) as Hc.
  pose proof (pt_range _ _ _ _ _ Hlo) as Hpt. pose proof (lo_slot _ _ _ _ _ Hlo).
  destruct (round_facts _ _ _ _ _ Hlo rd _ Hrd Hc) as (E1 & E2 & ? & ? & ?).
  apply elem_of_prim_call in Ho as (d & ?); [|apply Hlo|lia|apply Hlo]. lia.
Qed.

Lemma block_range c : dense_ok sz count slot_elems step_elems channel -> 0 <= c < kRanks ->
  0 <= c * count /\ c * count + count <= kRanks * count.
Proof.
  intros Hdo Hc. pose proof (do_count _ _ _ _ _ Hdo).
  assert ((c + 1) * count <= kRanks * count) by (apply Z.mul_le_mono_nonneg_r; lia).
  assert (0 <= c * count) by (apply Z.mul_nonneg_nonneg; lia). lia.
Qed.

Lemma ag_in_bounds r o : dense_ok sz count slot_elems step_elems channel -> 0 <= r < kRanks ->
  o ∈ ring_simple_all_gather_kernel sz (kargs r) kRanks channel ->
  0 < s_work o <= slot_elems /\ 0 <= s_local o /\ s_local o + s_work o <= count /\
  0 <= s_out o /\ s_out o + s_work o <= kRanks * count.
Proof.
  intros Hdo Hr Ho. pose proof (do_ranks _ _ _ _ _ Hdo).
  change (ring_simple_all_gather_kernel _ _ _ _)
    with (ag_prog sz count slot_elems step_elems channel r) in Ho.
  rewrite ag_prog_rounds in Ho by done. apply list_elem_of_bind in Ho as (d & Ho & Hd).
  rewrite (ag_round_shape _ _ _ _ _ Hdo r d Hr) in Ho.
  pose proof (part_range _ _ _ _ _ Hdo) as Hpt. pose proof (d_round_range _ _ _ _ _ Hdo d Hd).
  pose proof (do_slot _ _ _ _ _ Hdo).
  apply elem_of_round_prog in Ho as [Ho|(p & Hp & Ho)].
  - apply list_elem_of_singleton in Ho as ->. simpl.
    rewrite (at_rank_spec _ _ _ _ _ Hdo) by lia. pose proof (block_range r Hdo Hr). lia.
  - assert (0 <= ag_src r p < kRanks) as Hc by (apply Z.mod_pos_bound; lia).
    apply elem_of_prim_call in Ho as (e & He); [|apply Hdo|lia|apply Hdo].
    rewrite (at_rank_spec _ _ _ _ _ Hdo) in He by lia. pose proof (block_range _ Hdo Hc). lia.
Qed.

Lemma rs_in_bounds r o : dense_ok sz count slot_elems step_elems channel -> 0 <= r < kRanks ->
  o ∈ ring_simple_reduce_scatter_kernel sz (kargs r) kRanks channel ->
  0 < s_work o <= slot_elems /\ 0 <= s_local o /\ s_local o + s_work o <= kRanks * count /\
  0 <= s_out o /\ s_out o + s_work o <= count.
Proof.
  intros Hdo Hr Ho. pose proof (do_ranks _ _ _ _ _ Hdo).
  change (ring_simple_reduce_scatter_kernel _ _ _ _)
    with (rs_prog sz count slot_elems step_elems channel r) in Ho.
  rewrite rs_prog_rounds in Ho by done. apply list_elem_of_bind in Ho as (d & Ho & Hd).
  rewrite (rs_round_shape _ _ _ _ _ Hdo r d Hr) in Ho.
  pose proof (part_range _ _ _ _ _ Hdo) as Hpt. pose proof (d_round_range _ _ _ _ _ Hdo d Hd).
  pose proof (do_slot _ _ _ _ _ Hdo).
  apply elem_of_round_prog in Ho as [Ho|(p & Hp & Ho)]; [by apply elem_of_nil in Ho|].
  assert (0 <= rs_src r p < kRanks) as Hc by (apply Z.mod_pos_bound; lia).
  apply elem_of_prim_call in Ho as (e & He); [|apply Hdo|lia|apply Hdo].
  rewrite (at_rank_spec _ _ _ _ _ Hdo) in He by lia. pose proof (block_range _ Hdo Hc). lia.
Qed.

(** C11: Every slice of every kernel is non-empty, fits a FIFO slot, and
    reads and writes only inside the caller's buffers: [count] elements on
    both sides for AllReduce, [count] in and [count * kRanks] out for
    AllGather, the reverse for ReduceScatter. *)
Theorem kernel_accesses_in_bounds r o :
  launch_ok sz count slot_elems step_elems channel ->
  dense_ok sz count slot_elems step_elems channel ->
  0 <= r < kRanks ->
  (o ∈ ring_simple_kernel sz (kargs r) kRanks channel ->
     0 < s_work o <= slot_elems /\ 0 <= s_local o /\ s_local o + s_work o <= count /\
     0 <= s_out o /\ s_out o + s_work o <= count) /\
  (o ∈ ring_simple_all_gather_kernel sz (kargs r) kRanks channel ->
     0 < s_work o <= slot_elems /\ 0 <= s_local o /\ s_local o + s_work o <= count /\
     0 <= s_out o /\ s_out o + s_work o <= kRanks * count) /\
  (o ∈ ring_simple_reduce_scatter_kernel sz (kargs r) kRanks channel ->
     0 < s_work o <= slot_elems /\ 0 <= s_local o /\ s_local o + s_work o <= kRanks * count /\
     0 <= s_out o /\ s_out o + s_work o <= count).
Proof.
  intros Hlo Hdo Hr. split_and!.
  - by apply ar_in_bounds.
  - by apply ag_in_bounds.
  - by apply rs_in_bounds.
Qed.
End Bounds.

(** ** Back-to-back launches

    A kernel starts with [send_head_cache] equal to its send base step, as if
    the successor had consumed everything sent before.  Stream order only
    makes the previous kernel of the same rank finish first. *)

Module Relaunch.
Import Demo.

(** Two AllReduce kernels per rank, the second on other buffers. *)
Definition shift (d : Z) (o : sop) : sop :=
  Sop (s_prim o) (s_local o + d) (s_out o + d) (s_work o).
Definition twice (r : Z) : list (list sop) := [ar r; shift 1000 <$> ar r].
Definition start2 : sys Z := init 3 twice zero1 zero2 zero2.

Definition play (l : list (Z * Z)) (s : sys Z) : sys Z :=
  foldl (fun s '(r, k) => run_until op fin 4 32 3 input 200 r (Z.to_nat k) s) s l.

(** Rank 0 finishes its first kernel while rank 1 still has four slices to
    receive from it, and starts the second one. *)
Definition ahead : sys Z :=
  play [(0, 8); (1, 8); (2, 8); (0, 6); (1, 6); (2, 6); (0, 4); (1, 4); (2, 4);
        (2, 2); (0, 2); (0, 0)] start2.
Definition lapped : sys Z :=
  play [(0, 8)] (first_action op fin 4 32 3 input 0 ahead).
Definition final : sys Z :=
  round_robin op fin 4 32 3 input 300 lapped.

Lemma play_steps l s : (forall r k, (r, k) ∈ l -> 0 <= r < 3) ->
  steps (rank_step op fin 4 32 3 input) s (play l s).
Proof.
  intros Hl. apply fold_steps. intros s' [r k] Hin. apply run_until_steps. by eapply Hl.
Qed.

(** C10: Two AllReduce launches queued on every rank are not safe: there is an
    execution on three ranks in which the producer of edge 0 gets twelve steps
    ahead of the consumer of its eight-step FIFO, both kernels return on all
    ranks, and the first AllReduce leaves rank 1 with the wrong sum while rank 0
    has the right one. *)
Theorem relaunch_overwrites :
  exists s1 s2,
    steps (rank_step op fin 4 32 3 input) start2 s1 /\
    steps (rank_step op fin 4 32 3 input) s1 s2 /\
    tail (ed s1 0) = head (ed s1 0) + 12 /\
    finished 3 s2 /\ abort s2 = false /\
    output (rk s2 0) 0 = input 0 0 + input 1 0 + input 2 0 /\
    output (rk s2 1) 0 <> input 0 0 + input 1 0 + input 2 0.
Proof.
  exists lapped, final. split_and!.
  - apply (steps_trans _ _ ahead); [apply play_steps|].
    { intros r k Hin. repeat (apply elem_of_cons in Hin as [[= -> ->]|Hin]; [lia|]).
      by apply elem_of_nil in Hin. }
    eapply steps_trans; [apply (first_action_steps _ _ _ _ _ _ 0); lia|].
    apply play_steps. intros r k [= -> ->]%list_elem_of_singleton. lia.
  - apply round_robin_steps.
  - by vm_compute.
  - refine (ranks3 _ _ _ _); by vm_compute.
  - by vm_compute.
  - by vm_compute.
  - by vm_compute.
Qed.
End Relaunch.

(** ** The hypotheses hold: a launch on three ranks *)

Module Witness.
Import Demo.

Lemma all_reduce_result_witness : output (rk (ended ar) 1) 5 = 60015.
Proof.
  rewrite (all_reduce_result Sum 1 4 48 32 32 0 input zero1 zero2 zero2 (ended ar)
    ar_launch_ok ar_fit (ended_steps ar) eq_refl ar_done 1 5 ltac:(simpl; lia)).
  vm_compute. reflexivity.
Defined.

(** Integers with a NaN; rank 1 contributes NaN at element 5. *)
Definition with_nan (f : Z -> Z -> bool) (dflt : bool) (a b : option Z) : bool :=
  match a, b with Some x, Some y => f x y | _, _ => dflt end.
#[local] Instance nan_ops : FloatOps (option Z) := {|
  fadd a b := x ← a; y ← b; Some (x + y); fmul a b := x ← a; y ← b; Some (x * y);
  fneq := with_nan (fun x y => negb (x =? y)) true;
  fgt := with_nan Z.gtb false; flt := with_nan Z.ltb false |}.
Definition nan_input (r i : Z) : option Z := if (r =? 1) && (i =? 5) then None else Some (r - i).
Definition nan_start : sys (option Z) :=
  init 3 (fun r => [ar r]) zero1 (fun _ _ => Some 0) (fun _ _ => Some 0).
Definition nan_ended : sys (option Z) :=
  round_robin (redop_apply Max) (redop_finish Max (Some 1)) 4 32 3 nan_input 200 nan_start.

Lemma all_reduce_nan_witness : isnan (output (rk nan_ended 2) 5) = true.
Proof.
  apply (all_reduce_nan Max (Some 1) 4 48 32 32 0 nan_input zero1 (fun _ _ => Some 0)
    (fun _ _ => Some 0) nan_ended (or_introl eq_refl) ar_launch_ok ar_fit
    (rank_steps_steps _ _ _ _ _ _ _ _ (round_robin_steps _ _ _ _ _ _ _ _)) eq_refl);
    [refine (ranks3 _ _ _ _); by vm_compute|simpl; lia|vm_compute; done|].
  exists 1. split; [simpl; lia|reflexivity].
Defined.

Lemma all_reduce_completes_witness :
  (exists s', nsteps (fair_round op fin 4 32 3 input) (3 * weight 4 3 (start ar)) (start ar) s') /\
  forall s', nsteps (fair_round op fin 4 32 3 input) (3 * weight 4 3 (start ar)) (start ar) s' ->
    finished 3 s' /\ abort s' = false.
Proof.
  apply (all_reduce_completes Sum 1 4 48 32 32 0 input zero1 zero2 zero2 (start ar) _
    ar_launch_ok ar_fit (steps_refl _ _) eq_refl (le_n _)).
Defined.

Lemma all_reduce_reference_witness :
  exists c, 0 <= c < kChannels /\
    (forall c', 0 <= c' < kChannels ->
       (let pt := cbd_part 4 48 c' in
        part_offset pt <= 5 < part_offset pt + part_count pt) -> c' = c) /\
    forall s r,
      steps (step (redop_apply Sum) (redop_finish Sum 1) 4 32 kRanks input)
        (init kRanks (fun r => [ring_simple_kernel 4 (KArgs r 48 32 32) kRanks c])
           zero1 zero2 zero2) s ->
      abort s = false -> finished kRanks s -> 0 <= r < kRanks ->
      Some (output (rk s r) 5) =
      redop_finish Sum 1 <$> reduce_all (redop_apply Sum) kRanks (fun k => input k 5).
Proof.
  apply (all_reduce_reference Sum 1 4 48 32 32 input zero1 zero2 zero2 5);
    try (simpl; lia); [by left|by exists 8| | | ].
  - intros c Hc. assert (c = 0 \/ c = 1) as [-> | ->] by (simpl in Hc; lia);
      (refine (ranks3 _ _ _ _); by vm_compute).
  - intros x y z. simpl. lia.
  - intros x y. simpl. lia.
Defined.

Lemma all_gather_result_witness : output (rk (ended ag) 1) 22 = 30002.
Proof.
  rewrite (all_gather_result Sum 1 4 10 32 32 0 input zero1 zero2 zero2 (ended ag)
    dense_launch_ok ag_fit (ended_steps ag) eq_refl ag_done 1 22
    ltac:(simpl; lia) ltac:(simpl; lia)).
  vm_compute. reflexivity.
Defined.

Lemma reduce_scatter_result_witness : output (rk (ended rs) 2) 3 = 60069.
Proof.
  rewrite (reduce_scatter_result Sum 1 4 10 32 32 0 input zero1 zero2 zero2 (ended rs)
    dense_launch_ok rs_fit (ended_steps rs) eq_refl rs_done 2 3 ltac:(simpl; lia)).
  vm_compute. reflexivity.
Defined.

Lemma dense_completes_witness :
  (exists s', nsteps (fair_round op fin 4 32 3 input) (3 * weight 4 3 (start ag)) (start ag) s') /\
  forall s', nsteps (fair_round op fin 4 32 3 input) (3 * weight 4 3 (start ag)) (start ag) s' ->
    finished 3 s' /\ abort s' = false.
Proof.
  apply (dense_completes Sum 1 4 10 32 32 0 input zero1 zero2 zero2 (start ag) _
    dense_launch_ok ag_fit rs_fit (or_introl (steps_refl _ _)) eq_refl (le_n _)).
Defined.

(** The protocol theorems at the AllReduce program. *)
Definition demo_program : RingProgram op fin 32 3 input zero1 ar :=
  all_reduce_program op fin 4 48 32 32 0 input zero1 ar_launch_ok ar_fit.
#[local] Existing Instance demo_program.

Lemma fifo_never_overrun_witness :
  zero1 0 <= head (ed (ended ar) 0) <= tail (ed (ended ar) 0) /\
  tail (ed (ended ar) 0) <= head (ed (ended ar) 0) + kFifoSteps.
Proof.
  apply (fifo_never_overrun op fin 4 32 3 input zero1 ar zero2 zero2 (ended ar) 0
    (ended_steps ar) eq_refl). lia.
Defined.

(** Rank 1 about to copy its first received slice. *)
Definition reading : sys Z :=
  foldl (fun s r => first_action op fin 4 32 3 input r s) (start ar)
    (replicate 12 0 ++ replicate 14 1).

Lemma in_order_delivery_witness :
  exists k m, rp_messages (prev 3 1) !! k = Some (4, m) /\
    recv_step (rk reading 1) = zero1 (prev 3 1) + kSliceSteps * Z.of_nat k /\
    (forall i, 0 <= i < 4 ->
       fifo (ed reading (prev 3 1)) (slot_base 32 (recv_step (rk reading 1)) + i) = m i) /\
    payload_bytes (ed reading (prev 3 1)) (recv_step (rk reading 1) mod kFifoSteps) =
      u32 (slice_bytes 4 4).
Proof.
  apply (in_order_delivery op fin 4 32 3 input zero1 ar zero2 zero2 reading 1
    (CopyVolatileToDst 4) [ICredit; IData (ReduceLocalIntoDst 16 4); IReady 16; IAdvance true true]);
    [|by vm_compute|lia|by vm_compute|by vm_compute|done].
  apply rank_steps_steps, fold_steps. intros s r Hin. apply first_action_steps.
  apply elem_of_app in Hin as [Hin|Hin]; apply elem_of_replicate in Hin; lia.
Defined.

(** Another interleaving: rank 2 runs ahead as far as it can. *)
Definition ended' : sys Z :=
  round_robin op fin 4 32 3 input 200 (run_until op fin 4 32 3 input 40 2 0 (start ar)).

Lemma launch_deterministic_witness :
  output (rk (ended ar) 1) 5 = output (rk ended' 1) 5.
Proof.
  apply (launch_deterministic op fin 4 32 3 input zero1 ar zero2 zero2 (ended ar) ended' 1 5
    (ended_steps ar) eq_refl ar_done); [|by vm_compute| |lia].
  - apply rank_steps_steps. eapply steps_trans; [|apply round_robin_steps].
    apply run_until_steps. lia.
  - refine (ranks3 _ _ _ _); by vm_compute.
Defined.

Lemma launch_quiescent_witness :
  head (ed (ended ar) 2) = tail (ed (ended ar) 2) /\
  send_base (rk (ended ar) 2) = tail (ed (ended ar) 2) /\
  recv_base (rk (ended ar) (next 3 2)) = head (ed (ended ar) 2).
Proof.
  apply (launch_quiescent op fin 4 32 3 input zero1 ar zero2 zero2 (ended ar) 2
    (ended_steps ar) eq_refl ar_done). lia.
Defined.

(** Rank 1 waits for data nobody will send. *)
Definition waiting : sys Z :=
  raise_abort (run_until op fin 4 32 3 input 40 1 0 (start ar)).

Lemma abort_releases_witness :
  exists acts s', run op fin 4 32 3 input (pair 1 <$> acts) waiting = Some s' /\
    running (rk s' 1) = false.
Proof.
  apply (abort_releases op fin 4 32 3 input waiting 1); [reflexivity|by vm_compute|lia].
Defined.

Lemma kernel_accesses_in_bounds_witness :
  Sop DirectSend 16 16 4 ∈ ring_simple_kernel 4 (KArgs 0 48 32 32) kRanks 0 /\ 16 + 4 <= 48.
Proof.
  assert (Sop DirectSend 16 16 4 ∈ ring_simple_kernel 4 (KArgs 0 48 32 32) kRanks 0) as Hin.
  { apply (list_elem_of_lookup_2 _ 0). vm_compute. reflexivity. }
  assert (dense_ok 4 48 32 32 0) as Hd by (split; try (simpl; lia); by left).
  split; [exact Hin|].
  destruct (kernel_accesses_in_bounds 4 48 32 32 0 0 (Sop DirectSend 16 16 4)
    ar_launch_ok Hd ltac:(simpl; lia)) as (H1 & _ & _).
  destruct (H1 Hin) as (_ & _ & H2 & _). exact H2.
Defined.
End Witness.
