(* ===== verification/Workers.v ===== *)
(** * The worker routines of a thread block

    [kernels/ring_simple_kernel.cuh], lines 20-861: the data movements that
    [Ring] treats as one element-wise instruction are loops of [nworkers]
    threads over 16-byte vectors (unrolled or not) with a scalar tail.  Here
    every routine has its loops, its choice of vectors, the pointers it loads
    from and stores to, and the arithmetic of its vector and of its scalar code:
    [float4] lane by lane, 16-bit elements two to a word through the packed
    intrinsics.  The routines are run thread by thread, load by load and store
    by store, in every interleaving, and shown to have the element-wise effect
    of the protocol's data movement. *)

From Stdlib Require Import ZArith Lia Sorted.
From stdpp Require Import base option numbers tactics list.
From S2P Require Import Prelude Types Ring.

#[local] Open Scope Z_scope.

(** ** Two 16-bit elements in a word *)

(** The representation of a 16-bit element, and the intrinsics on pairs. *)
Class Half2 (T : Type) := {
  raw_bits : T -> Z;            (* __half_raw::x, __nv_bfloat16_raw::x *)
  of_raw : Z -> T;
  hadd2 : T * T -> T * T -> T * T;      (* __hadd2 *)
  hmax2_nan : T * T -> T * T -> T * T;  (* __hmax2_nan *)
  hmin2_nan : T * T -> T * T -> T * T;  (* __hmin2_nan *)
}.

Record uint4 := UInt4 { w_x : Z; w_y : Z; w_z : Z; w_w : Z }.

Definition half (z : Z) : Prop := 0 <= z < 2 ^ 16.

(** A word of two elements is their bits, the first element in the low half. *)
Definition word_of (x y : Z) : Z := Z.lor x (u32 (Z.shiftl y 16)).

Section Packed.
Context {T : Type} `{FloatOps T, Half2 T} (r : RedOp) (inverse : T).

(** [half2_from_bits] and [bfloat162_from_bits]: low half first. *)
Definition pair_from_bits (bits : Z) : T * T :=
  (of_raw (u16 bits), of_raw (u16 (Z.shiftr bits 16))).

(** [half2_to_bits] and [bfloat162_to_bits] *)
Definition pair_to_bits (p : T * T) : Z := word_of (raw_bits p.1) (raw_bits p.2).

(** [Packed16Traits<T, R>::apply] *)
Definition packed_apply (a b : Z) : Z :=
  let lhs := pair_from_bits a in
  let rhs := pair_from_bits b in
  match r with
  | Sum | Avg => pair_to_bits (hadd2 lhs rhs)
  | Max => pair_to_bits (hmax2_nan lhs rhs)
  | Min => pair_to_bits (hmin2_nan lhs rhs)
  end.

Definition reduce_packed16 (local recv : uint4) : uint4 :=
  UInt4 (packed_apply (w_x local) (w_x recv)) (packed_apply (w_y local) (w_y recv))
    (packed_apply (w_z local) (w_z recv)) (packed_apply (w_w local) (w_w recv)).

(** [scale_avg_packed16] on a word and on a vector. *)
Definition scale_avg_word (bits : Z) : Z :=
  let v := pair_from_bits bits in pair_to_bits (scale_avg inverse v.1, scale_avg inverse v.2).

Definition scale_avg_packed16 (v : uint4) : uint4 :=
  UInt4 (scale_avg_word (w_x v)) (scale_avg_word (w_y v))
    (scale_avg_word (w_z v)) (scale_avg_word (w_w v)).

(** Eight elements of memory read as a [uint4], and a [uint4] written back. *)
Definition load_uint4 (xs : list T) : option uint4 :=
  match xs with
  | [a0; a1; a2; a3; a4; a5; a6; a7] =>
      Some (UInt4 (pair_to_bits (a0, a1)) (pair_to_bits (a2, a3))
              (pair_to_bits (a4, a5)) (pair_to_bits (a6, a7)))
  | _ => None
  end.

Definition store_uint4 (v : uint4) : list T :=
  [w_x v; w_y v; w_z v; w_w v] ≫= fun b => [(pair_from_bits b).1; (pair_from_bits b).2].
End Packed.

(** ** Vectors of four floats *)

Record float4 (T : Type) := Float4 { f_x : T; f_y : T; f_z : T; f_w : T }.
Arguments Float4 {T}. Arguments f_x {T}. Arguments f_y {T}. Arguments f_z {T}. Arguments f_w {T}.

Definition load_float4 {T} (xs : list T) : option (float4 T) :=
  match xs with [x; y; z; w] => Some (Float4 x y z w) | _ => None end.
Definition store_float4 {T} (v : float4 T) : list T := [f_x v; f_y v; f_z v; f_w v].

(** ** What a routine stores: the values of a vector and of an element *)

Section Values.
Context {T : Type} `{FloatOps T, Half2 T} (dt : DType) (r : RedOp) (inverse : T).

(** [kScaleAvg && kRedOp == RedOp::Avg] *)
Definition scales (kScaleAvg : bool) : bool :=
  kScaleAvg && match r with Avg => true | _ => false end.

(** The scalar tail of the reductions. *)
Definition reduce_one (kScaleAvg : bool) (a b : T) : T :=
  let value := redop_apply r a b in
  if scales kScaleAvg then scale_avg inverse value else value.

Definition reduce_float4 (kScaleAvg : bool) (a b : float4 T) : float4 T :=
  let value := Float4 (redop_apply r (f_x a) (f_x b)) (redop_apply r (f_y a) (f_y b))
                 (redop_apply r (f_z a) (f_z b)) (redop_apply r (f_w a) (f_w b)) in
  if scales kScaleAvg
  then Float4 (scale_avg inverse (f_x value)) (scale_avg inverse (f_y value))
         (scale_avg inverse (f_z value)) (scale_avg inverse (f_w value))
  else value.

Definition reduce_uint4 (kScaleAvg : bool) (a b : uint4) : uint4 :=
  let value := reduce_packed16 r a b in
  if scales kScaleAvg then scale_avg_packed16 inverse value else value.

(** From the operands loaded for a vector, in the order of the loads. *)
Definition copy_vector (loaded : list (list T)) : list T :=
  match dt, loaded with
  | Float, [a] => from_option store_float4 [] (load_float4 a)
  | _, [a] => from_option store_uint4 [] (load_uint4 a)
  | _, _ => []
  end.

Definition reduce_vector (kScaleAvg : bool) (loaded : list (list T)) : list T :=
  match dt, loaded with
  | Float, [a; b] =>
      from_option store_float4 []
        (a ← load_float4 a; b ← load_float4 b; Some (reduce_float4 kScaleAvg a b))
  | _, [a; b] =>
      from_option store_uint4 []
        (a ← load_uint4 a; b ← load_uint4 b; Some (reduce_uint4 kScaleAvg a b))
  | _, _ => []
  end.

Definition copy_scalar (loaded : list (list T)) : list T :=
  match loaded with [[a]] => [a] | _ => [] end.

Definition reduce_scalar (kScaleAvg : bool) (loaded : list (list T)) : list T :=
  match loaded with [[a]; [b]] => [reduce_one kScaleAvg a b] | _ => [] end.
End Values.

(** ** The loops *)

(** [for (i = start; i < limit; i += stride)]; [fuel] rounds at most. *)
Fixpoint strided_loop (fuel : nat) (i stride limit : Z) : list Z :=
  match fuel with
  | O => []
  | S fuel => if i <? limit then i :: strided_loop fuel (i + stride) stride limit else []
  end.

(** A positive stride makes at most [limit] rounds from a start of 0 or more. *)
Definition strided (i stride limit : Z) : list Z := strided_loop (Z.to_nat limit) i stride limit.

(** Vector indices of thread [t], in groups whose loads precede their stores. *)
Definition vec_groups (unroll t nworkers vec_count : Z) : list (list Z) :=
  if unroll =? 1 then (fun i => [i]) <$> strided t nworkers vec_count
  else (fun base => filter (fun i => i < vec_count)
                      ((fun u => base + u * nworkers) <$> zrange unroll))
         <$> strided t (nworkers * unroll) vec_count.

(** How a routine walks its buffers: [float4] vectors, [uint4] vectors of
    eight 16-bit elements, or single elements. *)
Inductive layout := VecFloat | Vec16 | Scalar.
#[export] Instance layout_eq_dec : EqDecision layout.
Proof. solve_decision. Defined.

(** [aligned_vec4] and [aligned_packed16]: all three addresses are multiples
    of 16. *)
Definition aligned16 (a b c : Z) : bool := Z.land (Z.lor (Z.lor a b) c) 15 =? 0.

Definition choose_layout (d : DType) (aligned : bool) : layout :=
  match d, aligned with
  | Float, true => VecFloat
  | (Float16 | BFloat16), true => Vec16
  | _, false => Scalar
  end.

Definition vec_width (l : layout) : Z :=
  match l with VecFloat => 4 | Vec16 => 8 | Scalar => 1 end.

(** [scalar_begin] *)
Definition scalar_begin (l : layout) (count : Z) : Z :=
  match l with Scalar => 0 | _ => count / vec_width l * vec_width l end.

Section Threads.
Context (l : layout) (unroll count nworkers : Z).

(** The accesses of thread [t], in groups; an access is named by its first
    element.  Only the [float4] loops are unrolled. *)
Definition thread_groups (t : Z) : list (list Z) :=
  if nworkers <=? t then [] else
  match l with
  | Scalar => []
  | _ => (fun g : list Z => (fun i => vec_width l * i) <$> g) <$>
           vec_groups (match l with VecFloat => unroll | _ => 1 end) t nworkers
             (count / vec_width l)
  end ++
  ((fun i => [i]) <$> strided (scalar_begin l count + t) nworkers count).
End Threads.

(** The elements an access at [u] treats. *)
Definition access_width (l : layout) (count u : Z) : Z :=
  if u <? scalar_begin l count then vec_width l else 1.

(** ** The routines *)

(** Where a pointer argument points: into the local input, the receive slot,
    the send slot or the output, and its address. *)
Inductive place := PLocal | PRecv | PDst | POut.
#[export] Instance place_eq_dec : EqDecision place.
Proof. solve_decision. Defined.

Record ptr := Ptr { p_place : place; p_addr : Z }.

Record routine (T : Type) := Routine {
  r_layout : layout;
  r_srcs : list place;   (* loaded, in order *)
  r_dsts : list place;   (* stored to, in order *)
  r_vector : list (list T) -> list T;   (* the value of a vector *)
  r_scalar : list (list T) -> list T;   (* the value of one element *)
}.
Arguments Routine {T}. Arguments r_layout {T}. Arguments r_srcs {T}. Arguments r_dsts {T}.
Arguments r_vector {T}. Arguments r_scalar {T}.

(** [nworkers] of the kernels: one warp is left to waiting and posting. *)
Definition worker_count (block_dim : Z) : Z :=
  if 3 * 32 <=? block_dim then block_dim - 32 else block_dim.

Section Routines.
Context {T : Type} `{FloatOps T, Half2 T} (dt : DType) (r : RedOp) (inverse : T).

Definition copy_worker (src dst : ptr) : routine T :=
  Routine (choose_layout dt (aligned16 (p_addr src) (p_addr dst) (p_addr dst)))
    [p_place src] [p_place dst] (copy_vector dt) copy_scalar.

Definition copy_volatile_worker (src dst : ptr) : routine T :=
  Routine (choose_layout dt (aligned16 (p_addr src) (p_addr dst) (p_addr dst)))
    [p_place src] [p_place dst] (copy_vector dt) copy_scalar.

Definition reduce_volatile_worker (kScaleAvg : bool) (local recv dst : ptr) : routine T :=
  Routine (choose_layout dt (aligned16 (p_addr local) (p_addr recv) (p_addr dst)))
    [p_place local; p_place recv] [p_place dst]
    (reduce_vector dt r inverse kScaleAvg) (reduce_scalar r inverse kScaleAvg).

Definition copy_broadcast_volatile_worker (src dst0 dst1 : ptr) : routine T :=
  Routine (choose_layout dt (aligned16 (p_addr src) (p_addr dst0) (p_addr dst1)))
    [p_place src] [p_place dst0; p_place dst1] (copy_vector dt) copy_scalar.

Definition reduce_broadcast_volatile_worker (local recv dst0 dst1 : ptr) : routine T :=
  Routine (choose_layout dt (aligned16 (p_addr local) (p_addr recv) (p_addr dst0) &&
                             aligned16 (p_addr local) (p_addr recv) (p_addr dst1)))
    [p_place local; p_place recv] [p_place dst0; p_place dst1]
    (reduce_vector dt r inverse true) (reduce_scalar r inverse true).

Definition reduce_local_into_dst (kScaleAvg : bool) (local dst : ptr) : routine T :=
  Routine (choose_layout dt (aligned16 (p_addr local) (p_addr dst) (p_addr dst)))
    [p_place local; p_place dst] [p_place dst]
    (reduce_vector dt r inverse kScaleAvg) (reduce_scalar r inverse kScaleAvg).

Definition reduce_local_broadcast_worker (local dst0 dst1 : ptr) : routine T :=
  Routine (choose_layout dt (aligned16 (p_addr local) (p_addr dst0) (p_addr dst1)))
    [p_place local; p_place dst1] [p_place dst0; p_place dst1]
    (reduce_vector dt r inverse true) (reduce_scalar r inverse true).

(** The routine a data movement calls, on the pointers into the local input,
    the receive slot, the send slot and the output of the slice. *)
Definition data_routine (local recv dst out : Z) (d : data) : routine T :=
  let local := Ptr PLocal local in let recv := Ptr PRecv recv in
  let dst := Ptr PDst dst in let out := Ptr POut out in
  match d with
  | CopyToDst _ _ => copy_worker local dst
  | CopyToOut _ _ _ => copy_worker local out
  | CopyVolatileToDst _ => copy_volatile_worker recv dst
  | CopyVolatileToOut _ _ => copy_volatile_worker recv out
  | ReduceLocalIntoDst _ _ => reduce_local_into_dst false local dst
  | ReduceLocalIntoOut _ _ _ => reduce_local_into_dst true local out
  | ReduceVolatileToDst _ _ => reduce_volatile_worker false local recv dst
  | ReduceVolatileToOut _ _ _ => reduce_volatile_worker true local recv out
  | ReduceLocalBroadcast _ _ _ => reduce_local_broadcast_worker local out dst
  | ReduceBroadcastVolatile _ _ _ => reduce_broadcast_volatile_worker local recv out dst
  | CopyBroadcastVolatile _ _ => copy_broadcast_volatile_worker recv out dst
  end.
End Routines.

(** ** Thread programs and their interleavings *)

(** A load of the operands of an access, and a store of its value. *)
Inductive minstr := MLoad (u : Z) | MStore (u : Z) (p : place).

#[export] Instance minstr_eq_dec : EqDecision minstr.
Proof. solve_decision. Defined.

Definition m_idx (m : minstr) : Z := match m with MLoad u | MStore u _ => u end.

Record block_st (T : Type) := Block {
  b_prog : Z -> list minstr;             (* rest of each thread's program *)
  b_reg : Z -> Z -> list (list T);       (* loaded operands, per thread *)
  b_mem : place -> Z -> T;               (* the buffers of the slice *)
}.
Arguments Block {T} _ _ _. Arguments b_prog {T}. Arguments b_reg {T}. Arguments b_mem {T}.

Section Block.
Context {T : Type} (rt : routine T) (unroll count nworkers : Z).

Abbreviation width := (access_width (r_layout rt) count).

(** The stores of an access. *)
Definition stores_of (u : Z) : list minstr := MStore u <$> r_dsts rt.

(** The loads of a group precede its stores. *)
Definition group_prog (g : list Z) : list minstr := (MLoad <$> g) ++ (g ≫= stores_of).

Definition thread_prog (groups : list (list Z)) : list minstr := groups ≫= group_prog.

Definition read (mem : place -> Z -> T) (u : Z) (p : place) : list T :=
  (fun k => mem p (u + k)) <$> zrange (width u).

Definition operands (mem : place -> Z -> T) (u : Z) : list (list T) := read mem u <$> r_srcs rt.

(** The vector code stores a vector, the tail one element. *)
Definition value (u : Z) (loaded : list (list T)) : list T :=
  if u <? scalar_begin (r_layout rt) count then r_vector rt loaded else r_scalar rt loaded.

Definition write (mem : place -> Z -> T) (u : Z) (p : place) (vs : list T) : place -> Z -> T :=
  fun q e => if decide (q = p /\ u <= e < u + width u)
             then default (mem q e) (vs !! Z.to_nat (e - u)) else mem q e.

Definition block_act (t : Z) (s : block_st T) : option (block_st T) :=
  match b_prog s t with
  | [] => None
  | m :: rest =>
      let progs := upd (b_prog s) t rest in
      Some match m with
      | MLoad u => Block progs (upd (b_reg s) t (upd (b_reg s t) u (operands (b_mem s) u))) (b_mem s)
      | MStore u p => Block progs (b_reg s) (write (b_mem s) u p (value u (b_reg s t u)))
      end
  end.

Inductive block_step : block_st T -> block_st T -> Prop :=
| block_step_act t s s' : block_act t s = Some s' -> block_step s s'.

Definition block_done (s : block_st T) : Prop := forall t, b_prog s t = [].

(** Every worker thread is about to run the routine. *)
Definition block_start (reg : Z -> Z -> list (list T)) (mem : place -> Z -> T) : block_st T :=
  Block (fun t => if (0 <=? t) && (t <? nworkers)
                  then thread_prog (thread_groups (r_layout rt) unroll count nworkers t) else [])
    reg mem.
End Block.

(** ** What the loops visit *)

Lemma strided_loop_spec fuel i stride limit x : 0 < stride -> 0 <= i ->
  limit - i <= Z.of_nat fuel ->
  x ∈ strided_loop fuel i stride limit <-> i <= x < limit /\ (x - i) mod stride = 0.
Proof.
  intros Hs. revert i. induction fuel as [|fuel IH]; intros i Hi Hf; simpl.
  { rewrite elem_of_nil. lia. }
  destruct (Z.ltb_spec i limit); [|rewrite elem_of_nil; lia].
  rewrite elem_of_cons, IH by lia. split.
  - intros [->|[Hx Hm]]; [rewrite Z.sub_diag, Z.mod_0_l; lia|]. split; [lia|].
    rewrite <- Hm. apply (mod_congr 1); lia.
  - intros [Hx Hm]. destruct (decide (x = i)); [by left|right].
    assert (i + stride <= x).
    { apply Z.mod_divide in Hm as [k Hk]; [|lia]. assert (0 < k) by nia. nia. }
    split; [lia|]. rewrite <- Hm. apply (mod_congr (-1)); lia.
Qed.

Lemma strided_loop_sorted fuel i stride limit : 0 < stride ->
  StronglySorted Z.lt (strided_loop fuel i stride limit) /\
  forall x, x ∈ strided_loop fuel i stride limit -> i <= x < limit.
Proof.
  intros Hs. revert i. induction fuel as [|fuel IH]; intros i; simpl.
  { split; [constructor|]. by intros x ?%elem_of_nil. }
  destruct (Z.ltb_spec i limit); [|split; [constructor|by intros x ?%elem_of_nil]].
  destruct (IH (i + stride)) as [IH1 IH2]. split.
  - constructor; [done|]. apply Forall_forall. intros x Hx. specialize (IH2 x Hx). lia.
  - intros x [->|Hx]%elem_of_cons; [lia|]. specialize (IH2 x Hx). lia.
Qed.

Lemma strided_spec t stride limit x : 0 < stride -> 0 <= t ->
  x ∈ strided t stride limit <-> t <= x < limit /\ (x - t) mod stride = 0.
Proof.
  intros. unfold strided. destruct (decide (0 <= limit)).
  - apply strided_loop_spec; lia.
  - replace (Z.to_nat limit) with 0%nat by lia. simpl. rewrite elem_of_nil. lia.
Qed.

Lemma strided_sorted t stride limit : 0 < stride -> StronglySorted Z.lt (strided t stride limit).
Proof. intros. by apply strided_loop_sorted. Qed.

Lemma sorted_NoDup (l : list Z) : StronglySorted Z.lt l -> NoDup l.
Proof.
  induction 1 as [|x l Hs IH Hall]; constructor; [|done].
  intros Hin. rewrite Forall_forall in Hall. specialize (Hall x Hin). lia.
Qed.

Lemma sorted_filter (P : Z -> Prop) `{forall x, Decision (P x)} (l : list Z) :
  StronglySorted Z.lt l -> StronglySorted Z.lt (filter P l).
Proof.
  induction 1 as [|x l Hs IH Hall]; [constructor|]. rewrite filter_cons.
  case_decide; [|done]. constructor; [done|]. rewrite Forall_forall in Hall.
  apply Forall_forall. intros y [_ Hy]%list_elem_of_filter. auto.
Qed.

Lemma sorted_affine (m a b : Z) : 0 < a ->
  StronglySorted Z.lt ((fun k => b + k * a) <$> zrange m).
Proof.
  intros Ha. apply sorted_of_lookup. intros i j x y Hij Hx Hy.
  rewrite list_lookup_fmap in Hx, Hy. unfold zrange in *.
  destruct (seqZ 0 m !! i) as [x'|] eqn:Ei; simplify_eq/=.
  destruct (seqZ 0 m !! j) as [y'|] eqn:Ej; simplify_eq/=.
  apply lookup_seqZ in Ei as [-> _]; apply lookup_seqZ in Ej as [-> _]. nia.
Qed.

Lemma bind_assoc_list {A B C} (f : A -> list B) (g : B -> list C) l :
  (l ≫= f) ≫= g = l ≫= (fun x => f x ≫= g).
Proof. induction l as [|a l IH]; csimpl; [done|]. by rewrite bind_app, IH. Qed.

Definition flatten (gs : list (list Z)) : list Z := gs ≫= (fun g => g).

Lemma flatten_fmap {A} (f : A -> list Z) (l : list A) : flatten (f <$> l) = l ≫= f.
Proof. unfold flatten. by rewrite bind_fmap_list. Qed.

Lemma flatten_app g1 g2 : flatten (g1 ++ g2) = flatten g1 ++ flatten g2.
Proof. apply bind_app. Qed.

Lemma bind_singleton {A} (l : list A) : l ≫= (fun x => [x]) = l.
Proof. induction l as [|a l IH]; csimpl; [done|]. by rewrite IH. Qed.

Lemma sorted_app_lt (l1 l2 : list Z) m : StronglySorted Z.lt l1 -> StronglySorted Z.lt l2 ->
  (forall x, x ∈ l1 -> x < m) -> (forall x, x ∈ l2 -> m <= x) -> StronglySorted Z.lt (l1 ++ l2).
Proof.
  intros H1 H2 Hl Hr. induction H1 as [|x l1 H1 IH Hall]; simpl; [done|]. constructor.
  - apply IH. intros y Hy. apply Hl, elem_of_cons. by right.
  - apply Forall_app. split; [done|]. apply Forall_forall. intros y Hy.
    specialize (Hl x ltac:(apply elem_of_cons; by left)). specialize (Hr y Hy). lia.
Qed.

Section Visits.
Context (unroll nworkers : Z) (Hu : 0 < unroll) (Hw : 0 < nworkers).

(** Thread [t] visits the vectors congruent to [t], each once, in order. *)
Lemma vec_groups_spec t vc x : 0 <= t < nworkers ->
  x ∈ flatten (vec_groups unroll t nworkers vc) <-> 0 <= x < vc /\ x mod nworkers = t.
Proof.
  intros Ht. assert (forall x, t <= x < vc /\ (x - t) mod nworkers = 0 <->
    0 <= x < vc /\ x mod nworkers = t) as Hmod.
  { intros y. split.
    - intros [Hy Hm]. split; [lia|]. apply Z.mod_divide in Hm as [k Hk]; [|lia].
      apply mod_unique; [done|]. exists k. lia.
    - intros [Hy Hm]. pose proof (Z.div_mod y nworkers). split.
      + pose proof (Z.div_pos y nworkers). nia.
      + apply Z.mod_divide; [lia|]. exists (y / nworkers). lia. }
  unfold vec_groups. rewrite <- Hmod. destruct (Z.eqb_spec unroll 1).
  - rewrite flatten_fmap, bind_singleton. apply strided_spec; lia.
  - rewrite flatten_fmap, list_elem_of_bind. setoid_rewrite list_elem_of_filter.
    setoid_rewrite list_elem_of_fmap. setoid_rewrite elem_of_zrange.
    setoid_rewrite strided_spec; [|nia|lia]. split.
    + intros (b & [Hx (u & -> & Hur)] & Hb & Hm). split; [nia|].
      apply Z.mod_divide in Hm as [k Hk]; [|nia]. apply Z.mod_divide; [lia|].
      exists (k * unroll + u). nia.
    + intros [Hx Hm]. apply Z.mod_divide in Hm as [k Hk]; [|lia].
      pose proof (Z.div_mod k unroll ltac:(lia)) as Hd.
      pose proof (Z.mod_pos_bound k unroll Hu) as Hb.
      assert (0 <= k) by nia. assert (0 <= k / unroll) by (apply Z.div_pos; lia).
      assert (0 <= k mod unroll * nworkers) by (apply Z.mul_nonneg_nonneg; lia).
      exists (t + k / unroll * (nworkers * unroll)).
      assert (x = t + k / unroll * (nworkers * unroll) + k mod unroll * nworkers) as Hx'
        by (rewrite Hd in Hk; lia).
      assert (0 <= k / unroll * (nworkers * unroll)) by (repeat apply Z.mul_nonneg_nonneg; lia).
      split_and!; [lia|by exists (k mod unroll)|lia|lia|].
      apply Z.mod_divide; [nia|]. exists (k / unroll). lia.
Qed.

Lemma vec_groups_sorted t vc : StronglySorted Z.lt (flatten (vec_groups unroll t nworkers vc)).
Proof.
  unfold vec_groups. destruct (Z.eqb_spec unroll 1).
  - rewrite flatten_fmap, bind_singleton. by apply strided_sorted.
  - rewrite flatten_fmap. apply (sorted_bind (fun z => z) _ (fun z => z) (nworkers * unroll)).
    + intros b x _ [_ (u & -> & Hur%elem_of_zrange)%list_elem_of_fmap]%list_elem_of_filter. nia.
    + intros b _. apply sorted_filter. by apply sorted_affine.
    + unfold strided. generalize (Z.to_nat vc) as fuel. intros fuel. generalize t as i.
      induction fuel as [|fuel IH]; intros i; simpl; [constructor|].
      destruct (i <? vc); constructor; [done|]. apply Forall_forall. intros x Hx.
      apply strided_loop_sorted in Hx; nia.
Qed.
End Visits.
(** ** Every access has one owner *)

Lemma vec_width_pos l : 0 < vec_width l.
Proof. by destruct l. Qed.

(** The access that treats element [e], and its thread. *)
Definition access_of (l : layout) (count e : Z) : Z :=
  if e <? scalar_begin l count then vec_width l * (e / vec_width l) else e.

Definition owner (l : layout) (count nworkers u : Z) : Z :=
  if u <? scalar_begin l count then (u / vec_width l) mod nworkers
  else (u - scalar_begin l count) mod nworkers.

Section Owner.
Context (l : layout) (unroll count nworkers : Z).
Context (Hu : 0 < unroll) (Hw : 0 < nworkers) (Hc : 0 <= count).

Abbreviation v := (vec_width l).
Abbreviation u' := (match l with VecFloat => unroll | _ => 1 end).
Abbreviation vecs t := (flatten (vec_groups u' t nworkers (count / v))).

Definition accesses (t : Z) : list Z := flatten (thread_groups l unroll count nworkers t).

Lemma unroll_pos : 0 < u'.
Proof. by destruct l. Qed.

Lemma fmap_flatten (f : Z -> Z) (gs : list (list Z)) :
  flatten ((fun g : list Z => f <$> g) <$> gs) = f <$> flatten gs.
Proof.
  unfold flatten. induction gs as [|g gs IH]; csimpl; [done|]. by rewrite IH, fmap_app.
Qed.

Lemma accesses_eq t : t < nworkers ->
  accesses t = match l with Scalar => [] | _ => (fun i => v * i) <$> vecs t end ++
               strided (scalar_begin l count + t) nworkers count.
Proof.
  intros Ht. unfold accesses, thread_groups. destruct (Z.leb_spec nworkers t); [lia|].
  rewrite flatten_app, (flatten_fmap (fun i => [i])), bind_singleton.
  destruct l; try done; by rewrite fmap_flatten.
Qed.

Lemma scalar_begin_eq : l <> Scalar -> scalar_begin l count = v * (count / v).
Proof. intros Hl. unfold scalar_begin. destruct l; try done; lia. Qed.

Lemma scalar_begin_range : 0 <= scalar_begin l count <= count.
Proof.
  destruct (decide (l = Scalar)) as [->|Hl]; [unfold scalar_begin; lia|]. pose proof (vec_width_pos l).
  rewrite scalar_begin_eq by done. pose proof (Z.div_pos count v Hc ltac:(lia)).
  pose proof (Z.mul_div_le count v ltac:(lia)). nia.
Qed.

(** The vector part of thread [t]. *)
Lemma elem_of_vecs t u : 0 <= t < nworkers -> l <> Scalar ->
  u ∈ (fun i => v * i) <$> vecs t <->
  0 <= u < scalar_begin l count /\ v * (u / v) = u /\ (u / v) mod nworkers = t.
Proof.
  intros Ht Hl. pose proof (vec_width_pos l) as Hv. rewrite scalar_begin_eq by done.
  rewrite list_elem_of_fmap.
  setoid_rewrite (vec_groups_spec u' nworkers unroll_pos Hw t); [|done]. split.
  - intros (i & -> & Hi & Hm). rewrite Z.mul_comm, Z.div_mul by lia. split_and!; try done; nia.
  - intros (Hr & Hd & Hm). exists (u / v). split_and!; try done; nia.
Qed.

Lemma elem_of_accesses t u : 0 <= t < nworkers ->
  u ∈ accesses t <-> 0 <= u < count /\ access_of l count u = u /\ owner l count nworkers u = t.
Proof.
  intros Ht. rewrite accesses_eq, elem_of_app by lia. pose proof scalar_begin_range as Hsb.
  rewrite strided_spec by lia. unfold owner, access_of.
  assert (u ∈ match l with Scalar => [] | _ => (fun i => v * i) <$> vecs t end <->
    0 <= u < scalar_begin l count /\ v * (u / v) = u /\ (u / v) mod nworkers = t) as ->.
  { destruct (decide (l = Scalar)) as [->|Hl]; [rewrite elem_of_nil; simpl; lia|].
    rewrite <- (elem_of_vecs t u Ht Hl). by destruct l. }
  destruct (Z.ltb_spec u (scalar_begin l count)) as [Hlt|Hge].
  - split; [intros [?|?]; lia|]. intros (? & ? & ?). left. lia.
  - set (b := scalar_begin l count) in *. split.
    + intros [?|[He Hm]]; [lia|]. split; [lia|]. split; [done|].
      apply Z.mod_divide in Hm as [k Hk]; [|lia]. apply mod_unique; [done|]. exists k. lia.
    + intros (He & _ & Hm). right. pose proof (Z.div_mod (u - b) nworkers ltac:(lia)).
      pose proof (Z.div_pos (u - b) nworkers ltac:(lia) Hw). split; [nia|].
      apply Z.mod_divide; [lia|]. exists ((u - b) / nworkers). lia.
Qed.

Lemma accesses_NoDup t : 0 <= t < nworkers -> NoDup (accesses t).
Proof.
  intros Ht. apply sorted_NoDup. rewrite accesses_eq by lia. pose proof scalar_begin_range.
  pose proof (vec_width_pos l) as Hv.
  assert (StronglySorted Z.lt ((fun i => v * i) <$> vecs t)) as Hs.
  { pose proof (vec_groups_sorted u' nworkers unroll_pos Hw t (count / v)) as Hvs.
    clear -Hvs Hv. induction Hvs as [|x xs Hs IH Hall]; constructor; [done|].
    rewrite Forall_forall in Hall |- *.
    intros y (i & -> & Hi)%list_elem_of_fmap. specialize (Hall i Hi). nia. }
  apply (sorted_app_lt _ _ (scalar_begin l count)).
  - destruct l; [done|done|constructor].
  - by apply strided_sorted.
  - intros e He. destruct (decide (l = Scalar)) as [->|Hl]; [by apply elem_of_nil in He|].
    assert (e ∈ (fun i => v * i) <$> vecs t) as He' by (by destruct l).
    apply (elem_of_vecs t e Ht Hl) in He'. lia.
  - intros e He. apply strided_spec in He; lia.
Qed.

(** The accesses partition the elements. *)
Lemma access_range e : 0 <= e < count ->
  0 <= access_of l count e <= e /\ e < access_of l count e + access_width l count (access_of l count e) /\
  access_of l count (access_of l count e) = access_of l count e.
Proof.
  intros He. pose proof (vec_width_pos l) as Hv. unfold access_of, access_width.
  destruct (Z.ltb_spec e (scalar_begin l count)) as [Hlt|Hge].
  - pose proof (Z.div_mod e v ltac:(lia)). pose proof (Z.mod_pos_bound e v Hv).
    pose proof (Z.div_pos e v ltac:(lia) Hv).
    assert (v * (e / v) < scalar_begin l count) as Hb by lia. apply Z.ltb_lt in Hb. rewrite Hb.
    split; [nia|]. split; [lia|]. f_equal. rewrite Z.mul_comm, Z.div_mul; lia.
  - destruct (Z.ltb_spec e (scalar_begin l count)); lia.
Qed.

Lemma access_unique u e : 0 <= u < count -> access_of l count u = u ->
  u <= e < u + access_width l count u -> 0 <= e < count /\ access_of l count e = u.
Proof.
  intros Hr Ha He. pose proof (vec_width_pos l) as Hv. pose proof scalar_begin_range as Hsb.
  unfold access_of, access_width in *.
  destruct (Z.ltb_spec u (scalar_begin l count)) as [Hlt|Hge].
  - assert (l <> Scalar) as Hl by (intros ->; unfold scalar_begin in Hlt; simpl in *; lia).
    rewrite scalar_begin_eq in * by done. 
    assert (e / v = u / v) as Hd by (symmetry; apply Z.div_unique with (e - u); lia).
    assert (u / v < count / v) by nia.
    destruct (Z.ltb_spec e (v * (count / v))); [|nia]. split; [lia|]. by rewrite Hd.
  - assert (e = u) as -> by lia. destruct (Z.ltb_spec u (scalar_begin l count)); lia.
Qed.
End Owner.

(** ** Correctness under every interleaving *)

Definition proj (u : Z) (p : list minstr) : list minstr := filter (fun m => m_idx m = u) p.

Lemma proj_bind (h : Z -> list minstr) (g : list Z) i :
  (forall j m, m ∈ h j -> m_idx m = j) -> NoDup g ->
  proj i (g ≫= h) = if decide (i ∈ g) then h i else [].
Proof.
  intros Hh Hnd. induction Hnd as [|j g Hj Hnd IH]; csimpl.
  { done. }
  unfold proj in *. rewrite filter_app, IH. destruct (decide (i = j)) as [->|Hne].
  - destruct (decide (j ∈ g)) as [?|_]; [done|].
    rewrite decide_True by (apply elem_of_cons; by left).
    rewrite app_nil_r. apply filter_all. intros m Hm. by apply Hh.
  - assert (filter (fun m => m_idx m = i) (h j) = []) as ->.
    { apply filter_nothing. intros m Hm <-. by apply Hne, Hh. }
    simpl. destruct (decide (i ∈ g)).
    + by rewrite decide_True by (apply elem_of_cons; by right).
    + by rewrite decide_False by (by intros [->|?]%elem_of_cons).
Qed.

Section Correct.
Context {T : Type} (rt : routine T) (unroll count nworkers : Z).
Context (reg0 : Z -> Z -> list (list T)) (mem0 : place -> Z -> T).
Context (Hu : 0 < unroll) (Hw : 0 < nworkers) (Hc : 0 <= count).

Abbreviation l := (r_layout rt).
Abbreviation width := (access_width l count).
Abbreviation start := (block_start rt unroll count nworkers reg0 mem0).
Abbreviation bstep := (block_step rt count).

(** One access, in program order. *)
Definition full (u : Z) : list minstr := MLoad u :: stores_of rt u.

Lemma stores_of_idx j m : m ∈ stores_of rt j -> m_idx m = j.
Proof. by intros (p & -> & _)%list_elem_of_fmap. Qed.

Lemma proj_group g u : NoDup g ->
  proj u (group_prog rt g) = if decide (u ∈ g) then full u else [].
Proof.
  intros Hnd. unfold group_prog, proj. rewrite filter_app.
  assert (MLoad <$> g = g ≫= fun i => [MLoad i]) as ->.
  { clear Hnd. induction g as [|j g IH]; csimpl; [done|]. by rewrite IH. }
  fold (proj u (g ≫= fun i => [MLoad i])) (proj u (g ≫= stores_of rt)).
  rewrite !proj_bind; try done.
  - by destruct (decide (u ∈ g)).
  - apply stores_of_idx.
  - by intros j m ->%list_elem_of_singleton.
Qed.

Lemma proj_thread gs u : NoDup (flatten gs) ->
  proj u (thread_prog rt gs) = if decide (u ∈ flatten gs) then full u else [].
Proof.
  unfold thread_prog, flatten. induction gs as [|g gs IH]; csimpl; intros Hnd.
  { done. }
  apply NoDup_app in Hnd as (H1 & H2 & H3). unfold proj in *. rewrite filter_app.
  fold (proj u (group_prog rt g)). rewrite proj_group, IH by done.
  destruct (decide (u ∈ g)) as [Hg|Hg].
  - destruct (decide (u ∈ gs ≫= (fun g => g))) as [?|_]; [by destruct (H2 u)|].
    rewrite decide_True by (apply elem_of_app; by left). by rewrite app_nil_r.
  - destruct (decide (u ∈ gs ≫= (fun g => g))).
    + by rewrite decide_True by (apply elem_of_app; by right).
    + by rewrite decide_False by (by intros [?|?]%elem_of_app).
Qed.

(** The value of an access at [u], and what element [e] of it becomes. *)
Definition access_value (u : Z) : list T := value rt count u (operands rt count mem0 u).
Definition stored (u : Z) (p : place) (e : Z) : T :=
  default (mem0 p e) (access_value u !! Z.to_nat (e - u)).

Record tracked (s : block_st T) (u t : Z) (k : nat) : Prop := {
  tk_prog : proj u (b_prog s t) = drop k (full u);
  tk_other t' : t' <> t -> proj u (b_prog s t') = [];
  tk_reg : (0 < k)%nat -> b_reg s t u = operands rt count mem0 u;
  tk_mem p e : u <= e < u + width u ->
    b_mem s p e = if decide (MStore u p ∈ take k (full u)) then stored u p e else mem0 p e;
}.

Definition block_inv (s : block_st T) : Prop :=
  (forall u, 0 <= u < count /\ access_of l count u = u ->
     exists k, tracked s u (owner l count nworkers u) k) /\
  (forall u t, ~ (0 <= u < count /\ access_of l count u = u) -> proj u (b_prog s t) = []) /\
  (forall p e, ~ (0 <= e < count) -> b_mem s p e = mem0 p e).

Lemma owner_range u : 0 <= owner l count nworkers u < nworkers.
Proof. unfold owner. destruct (_ <? _); by apply Z.mod_pos_bound. Qed.

Lemma start_prog t u :
  proj u (b_prog start t) =
  if decide ((0 <= u < count /\ access_of l count u = u) /\ owner l count nworkers u = t) then full u else [].
Proof.
  simpl. pose proof (owner_range u).
  destruct (Z.leb_spec 0 t), (Z.ltb_spec t nworkers); simpl.
  2,3,4: by rewrite decide_False by lia.
  rewrite proj_thread by (by apply accesses_NoDup).
  fold (accesses l unroll count nworkers t).
  destruct (decide (u ∈ accesses l unroll count nworkers t)) as [Hin|Hin];
    rewrite elem_of_accesses in Hin by lia; case_decide; try done; exfalso; tauto.
Qed.

Lemma block_inv_start : block_inv start.
Proof.
  split_and!; [|intros u t Hn; rewrite start_prog, decide_False by tauto; done|done].
  intros u Hr. exists 0%nat. split.
  - by rewrite start_prog, decide_True by done.
  - intros t' Ht'. rewrite start_prog, decide_False; [done|]. intros [_ ?]. congruence.
  - lia.
  - done.
Qed.

Lemma full_head u k m rest : drop k (full u) = m :: rest ->
  (m = MLoad u /\ k = 0%nat) \/ ((exists p, m = MStore u p) /\ (0 < k)%nat).
Proof.
  intros Hd. destruct k as [|k]; [left; by injection Hd|right]. split; [|lia].
  cbn [full drop] in Hd. assert (m ∈ stores_of rt u) as Hm.
  { rewrite <- (take_drop k (stores_of rt u)), Hd. apply elem_of_app. right.
    apply elem_of_cons. by left. }
  apply list_elem_of_fmap in Hm as (p & -> & _). by exists p.
Qed.

Lemma take_S_elem {A} (x : A) k (xs : list A) m rest : drop k xs = m :: rest ->
  x ∈ take (S k) xs <-> x ∈ take k xs \/ x = m.
Proof.
  intros Hd. assert (xs !! k = Some m) as Hk.
  { rewrite <- (Nat.add_0_r k), <- lookup_drop, Hd. done. }
  rewrite (take_S_r _ _ _ Hk), elem_of_app. by rewrite list_elem_of_singleton.
Qed.

Lemma operands_start s u t : tracked s u t 0 -> operands rt count (b_mem s) u = operands rt count mem0 u.
Proof.
  intros [_ _ _ Km]. unfold operands, read. apply list_fmap_ext. intros _ p _.
  apply list_fmap_ext. intros _ k Hk%list_elem_of_lookup_2%elem_of_zrange. rewrite Km by lia. done.
Qed.

(** One action of thread [t] on access [u]. *)
Lemma act_tracked s s' t m rest u k :
  b_prog s t = m :: rest -> block_act rt count t s = Some s' ->
  m_idx m = u -> tracked s u (owner l count nworkers u) k ->
  tracked s' u (owner l count nworkers u) (S k).
Proof.
  intros Hp Ha Hm HK. pose proof HK as [Kp Ko Kr Km]. set (o := owner l count nworkers u) in *.
  assert (proj u (b_prog s t) = m :: proj u rest) as Hpt.
  { rewrite Hp. unfold proj. by rewrite filter_cons_True. }
  assert (t = o) as ->.
  { destruct (decide (t = o)); [done|]. rewrite Ko in Hpt; done. }
  rewrite Kp in Hpt.
  assert (proj u rest = drop (S k) (full u)) as Hrest.
  { replace (S k) with (k + 1)%nat by lia. by rewrite <- drop_drop, Hpt. }
  unfold block_act in Ha. rewrite Hp in Ha.
  destruct (full_head u k m _ Hpt) as [[-> ->]|[[p ->] Hk]]; injection Ha as <-.
  - split; simpl.
    + by rewrite upd_eq.
    + intros t' Ht'. rewrite upd_ne by done. by apply Ko.
    + intros _. rewrite !upd_eq. exact (operands_start s u o HK).
    + intros q e He. by rewrite Km.
  - split; simpl.
    + by rewrite upd_eq.
    + intros t' Ht'. rewrite upd_ne by done. by apply Ko.
    + auto.
    + intros q e He. unfold write. rewrite Kr by done. fold (access_value u).
      specialize (Km q e He). destruct (decide (q = p)) as [->|Hq].
      * rewrite decide_True by done. rewrite Km.
        rewrite (decide_True _ _ (proj2 (take_S_elem _ _ _ _ _ Hpt) (or_intror eq_refl))).
        unfold stored. destruct (access_value u !! Z.to_nat (e - u)); simpl; [done|by case_decide].
      * rewrite decide_False by tauto. rewrite Km. apply decide_ext.
        rewrite (take_S_elem _ _ _ _ _ Hpt). intuition congruence.
Qed.

(** Actions on other accesses do not matter. *)
Lemma act_frame s s' t m rest u :
  b_prog s t = m :: rest -> block_act rt count t s = Some s' -> m_idx m <> u ->
  (forall t', proj u (b_prog s' t') = proj u (b_prog s t')) /\
  (forall t', b_reg s' t' u = b_reg s t' u).
Proof.
  intros Hp Ha Hm. unfold block_act in Ha. rewrite Hp in Ha.
  assert (forall t', proj u (upd (b_prog s) t rest t') = proj u (b_prog s t')) as Hpr.
  { intros t'. destruct (decide (t' = t)) as [->|]; [|by rewrite upd_ne].
    rewrite upd_eq, Hp. unfold proj. by rewrite filter_cons_False. }
  destruct m as [j|j p]; simpl in Hm; injection Ha as <-; simpl; split; try done.
  intros t'. destruct (decide (t' = t)) as [->|]; [|by rewrite upd_ne].
  by rewrite upd_eq, upd_ne.
Qed.

Lemma act_mem s s' t m rest p e :
  b_prog s t = m :: rest -> block_act rt count t s = Some s' ->
  ~ (m_idx m <= e < m_idx m + width (m_idx m)) -> b_mem s' p e = b_mem s p e.
Proof.
  intros Hp Ha He. unfold block_act in Ha. rewrite Hp in Ha.
  destruct m as [j|j q]; simpl in He; injection Ha as <-; simpl; [done|].
  unfold write. by rewrite decide_False by tauto.
Qed.

Lemma block_inv_step s s' : block_inv s -> bstep s s' -> block_inv s'.
Proof.
  intros (HI & HN & HM) Hst. destruct Hst as [t s s' Ha].
  destruct (b_prog s t) as [|m rest] eqn:Hp; [by unfold block_act in Ha; rewrite Hp in Ha|].
  assert (0 <= m_idx m < count /\ access_of l count (m_idx m) = m_idx m) as Hm.
  { destruct (decide (0 <= m_idx m < count /\ access_of l count (m_idx m) = m_idx m)) as [?|Hn]; [done|].
    specialize (HN _ t Hn). rewrite Hp in HN. unfold proj in HN. by rewrite filter_cons_True in HN. }
  split_and!.
  - intros u Hr. destruct (HI u Hr) as [k HK]. destruct (decide (m_idx m = u)) as [Hmu|Hmu].
    + exists (S k). by eapply act_tracked.
    + exists k. destruct (act_frame s s' t m rest u Hp Ha Hmu) as [Fp Fr]. destruct HK as [Kp Ko Kr Km].
      split; [by rewrite Fp|intros; rewrite Fp; by apply Ko|intros; rewrite Fr; by apply Kr|].
      intros p e He. rewrite (act_mem s s' t m rest p e Hp Ha); [by apply Km|]. intros He'.
      apply (access_unique l count Hc u) in He as [_ E1]; [|tauto..].
      apply (access_unique l count Hc (m_idx m)) in He' as [_ E2]; [congruence|tauto..].
  - intros u t' Hn. destruct (decide (m_idx m = u)) as [<-|Hmu]; [done|].
    destruct (act_frame s s' t m rest u Hp Ha Hmu) as [-> _]. by apply HN.
  - intros p e He. rewrite (act_mem s s' t m rest p e Hp Ha); [by apply HM|]. intros He'.
    apply (access_unique l count Hc (m_idx m)) in He' as [? _]; tauto.
Qed.

Lemma block_inv_done s : block_inv s -> block_done s -> forall p e,
  b_mem s p e = if decide (0 <= e < count /\ p ∈ r_dsts rt)
                then stored (access_of l count e) p e else mem0 p e.
Proof.
  intros (HI & HN & HM) Hd p e. destruct (decide (0 <= e < count)) as [He|He];
    [|rewrite decide_False by tauto; by apply HM].
  pose proof (access_range l count e He) as (Hr1 & Hr2 & Hr3).
  destruct (HI (access_of l count e)) as [k [Kp _ _ Km]]; [lia|]. rewrite Hd in Kp.
  assert (take k (full (access_of l count e)) = full (access_of l count e)) as Ht.
  { apply take_ge. symmetry in Kp. apply (f_equal length) in Kp. rewrite length_drop in Kp. simpl in *. lia. }
  rewrite Km, Ht by lia. apply decide_ext. unfold full, stores_of.
  rewrite elem_of_cons, list_elem_of_fmap. split.
  - intros [?|(q & [= ->] & ?)]; done.
  - intros [_ ?]. right. by exists p.
Qed.

(** Threads outside the block have no program, and every step shortens one. *)
Definition rest_length (s : block_st T) : nat :=
  sum_list_with (fun t => length (b_prog s t)) (zrange nworkers).

Lemma act_length s s' t : block_act rt count t s = Some s' ->
  (forall t', t' <> t -> b_prog s' t' = b_prog s t') /\
  S (length (b_prog s' t)) = length (b_prog s t).
Proof.
  unfold block_act. destruct (b_prog s t) as [|m rest] eqn:Hp; [done|].
  intros [= <-]. destruct m; simpl; (split; [intros; by rewrite upd_ne|by rewrite upd_eq]).
Qed.

Definition confined (s : block_st T) : Prop :=
  forall t, ~ (0 <= t < nworkers) -> b_prog s t = [].

Lemma confined_step s s' : confined s -> bstep s s' -> confined s'.
Proof.
  intros Hcf Hst t Ht. destruct Hst as [t0 s s' Ha].
  destruct (act_length s s' t0 Ha) as [Ho Hl]. destruct (decide (t = t0)) as [->|].
  - rewrite (Hcf t0 Ht) in Hl. simpl in Hl. lia.
  - rewrite Ho by done. by apply Hcf.
Qed.

Lemma sum_lt (f g : Z -> nat) (xs : list Z) t : t ∈ xs ->
  (forall x, x ∈ xs -> (f x <= g x)%nat) -> (f t < g t)%nat ->
  (sum_list_with f xs < sum_list_with g xs)%nat.
Proof.
  induction xs as [|x xs IH]; intros Hin Hle Hlt; [by apply elem_of_nil in Hin|]. simpl.
  assert (sum_list_with f xs <= sum_list_with g xs)%nat as Hs.
  { clear IH Hin. assert (forall y, y ∈ xs -> (f y <= g y)%nat) as Hle'
      by (intros; apply Hle, elem_of_cons; by right). clear Hle.
    induction xs as [|y xs IH]; simpl; [lia|].
    pose proof (Hle' y ltac:(apply elem_of_cons; by left)).
    specialize (IH ltac:(intros; apply Hle', elem_of_cons; by right)). lia. }
  pose proof (Hle x ltac:(apply elem_of_cons; by left)).
  apply elem_of_cons in Hin as [->|Hin]; [lia|].
  specialize (IH Hin ltac:(intros; apply Hle, elem_of_cons; by right) Hlt). lia.
Qed.

Lemma block_progress s : confined s ->
  block_done s \/ exists s', steps bstep s s' /\ (rest_length s' < rest_length s)%nat.
Proof.
  intros Hcf.
  destruct (zrange_or nworkers (fun t => b_prog s t = [])
    (exists s', steps bstep s s' /\ (rest_length s' < rest_length s)%nat)) as [Hd|?].
  - intros t Ht. destruct (b_prog s t) as [|m rest] eqn:Hp; [by left|right].
    assert (exists s', block_act rt count t s = Some s') as [s' Ha].
    { unfold block_act. rewrite Hp. eauto. }
    exists s'. split; [by eapply steps_once, block_step_act|].
    destruct (act_length s s' t Ha) as [Ho Hl].
    apply (sum_lt _ _ _ t); [by apply elem_of_zrange| |lia].
    intros x _. destruct (decide (x = t)) as [->|]; [lia|]. by rewrite Ho.
  - left. intros t. destruct (decide (0 <= t < nworkers)); [by apply Hd|by apply Hcf].
  - by right.
Qed.

Lemma block_completes s : confined s -> exists s', steps bstep s s' /\ block_done s'.
Proof.
  intros Hcf. apply (steps_terminate bstep confined block_done rest_length); try done.
  - apply confined_step.
  - apply block_progress.
Qed.

Lemma confined_start : confined start.
Proof. intros t Ht. simpl. destruct (Z.leb_spec 0 t), (Z.ltb_spec t nworkers); simpl; lia || done. Qed.
End Correct.

(** ** The values of the vector code *)

Section Documented.
Context {T : Type} `{FloatOps T, Half2 T}.

(** The larger of two elements, in the sense of [pick]: NaN if one of them is,
    otherwise equal to the picked one, as the device compares (zeroes of either
    sign are equal). *)
Definition extremum (pick : T -> T -> bool) (a b m : T) : Prop :=
  isnan m = isnan a || isnan b /\
  (isnan a = false -> isnan b = false -> fneq m (if pick a b then a else b) = false).

(** Documented: an element is its sixteen bits, and the packed intrinsics work
    lane by lane, the extrema propagating NaN. *)
Record half2_documented : Prop := {
  raw_half a : half (raw_bits a);
  of_raw_bits a : of_raw (raw_bits a) = a;
  hadd2_lanes p q : hadd2 p q = (fadd p.1 q.1, fadd p.2 q.2);
  hmax2_lanes p q : extremum fgt p.1 q.1 (hmax2_nan p q).1 /\ extremum fgt p.2 q.2 (hmax2_nan p q).2;
  hmin2_lanes p q : extremum flt p.1 q.1 (hmin2_nan p q).1 /\ extremum flt p.2 q.2 (hmin2_nan p q).2;
}.

(** How far a stored element may differ from the element-wise result: packed
    extrema return some NaN for NaN, and either of two equal zeroes. *)
Definition stands_for (dt : DType) (r : RedOp) (v w : T) : Prop :=
  v = w \/ dt <> Float /\ (r = Max \/ r = Min) /\
           (isnan v = true /\ isnan w = true \/ fneq v w = false).
End Documented.

Lemma word_of_arith x y : half x -> half y -> word_of x y = x + y * 2 ^ 16.
Proof.
  unfold half, word_of. intros Hx Hy.
  rewrite u32_small by (rewrite Z.shiftl_mul_pow2 by lia; lia). apply lor_shiftl_add; lia.
Qed.

Lemma word_halves x y : half x -> half y ->
  u16 (word_of x y) = x /\ u16 (Z.shiftr (word_of x y) 16) = y.
Proof.
  intros Hx Hy. rewrite word_of_arith by done. unfold u16, half in *.
  rewrite Z.shiftr_div_pow2 by lia. split.
  - rewrite Z.mod_add by lia. by apply Z.mod_small.
  - rewrite Z.div_add, Z.div_small, Z.add_0_l by lia. by apply Z.mod_small.
Qed.

Section Lanes.
Context {T : Type} `{FloatOps T, Half2 T} (dt : DType) (r : RedOp) (inverse : T).
Context (HD : half2_documented (T := T)).

Lemma pair_round_trip (p : T * T) : pair_from_bits (pair_to_bits p) = p.
Proof.
  destruct p as [x y]. unfold pair_from_bits, pair_to_bits. simpl.
  destruct (word_halves (raw_bits x) (raw_bits y)) as [-> ->]; [apply HD..|].
  by rewrite !(of_raw_bits HD).
Qed.

(** The pair operation of a reduction, and the scaling of a pair. *)
Definition pair_op (p q : T * T) : T * T :=
  match r with Sum | Avg => hadd2 p q | Max => hmax2_nan p q | Min => hmin2_nan p q end.
Definition finish_pair (kScaleAvg : bool) (p : T * T) : T * T :=
  if scales r kScaleAvg then (scale_avg inverse p.1, scale_avg inverse p.2) else p.

Lemma packed_apply_pairs p q :
  packed_apply r (pair_to_bits p) (pair_to_bits q) = pair_to_bits (pair_op p q).
Proof. unfold packed_apply, pair_op. rewrite !pair_round_trip. by destruct r. Qed.

Lemma scale_avg_word_pair p :
  scale_avg_word inverse (pair_to_bits p) = pair_to_bits (scale_avg inverse p.1, scale_avg inverse p.2).
Proof. unfold scale_avg_word. by rewrite pair_round_trip. Qed.

Lemma extremum_stands_for R (pick : T -> T -> bool) a b m :
  dt <> Float -> R = Max \/ R = Min -> extremum pick a b m ->
  stands_for dt R m (if fneq a a then a else if fneq b b then b else if pick a b then a else b).
Proof.
  intros Hdt Hr [Hn Hv]. right. split_and!; [done..|]. unfold isnan in *.
  destruct (fneq a a) eqn:Ea; [left; by rewrite Ea|].
  destruct (fneq b b) eqn:Eb; [left; by rewrite Eb|]. right. by apply Hv.
Qed.

Lemma pair_lanes kScaleAvg p q : dt <> Float ->
  stands_for dt r (finish_pair kScaleAvg (pair_op p q)).1 (reduce_one r inverse kScaleAvg p.1 q.1) /\
  stands_for dt r (finish_pair kScaleAvg (pair_op p q)).2 (reduce_one r inverse kScaleAvg p.2 q.2).
Proof.
  intros Hdt. unfold finish_pair, pair_op, reduce_one, scales. destruct r; simpl.
  - rewrite andb_false_r, (hadd2_lanes HD). split; by left.
  - rewrite andb_true_r, (hadd2_lanes HD). destruct kScaleAvg; split; by left.
  - rewrite andb_false_r. destruct (hmax2_lanes HD p q). split; apply extremum_stands_for; auto.
  - rewrite andb_false_r. destruct (hmin2_lanes HD p q). split; apply extremum_stands_for; auto.
Qed.

(** Loading eight elements and storing them changes none. *)
Lemma store_load_uint4 (xs : list T) v : load_uint4 xs = Some v -> store_uint4 v = xs.
Proof.
  unfold load_uint4. do 9 (destruct xs as [|? xs]; try done). intros [= <-].
  unfold store_uint4. cbn -[pair_from_bits pair_to_bits]. by rewrite !pair_round_trip.
Qed.

Lemma load_uint4_some (xs : list T) : length xs = 8%nat -> exists v, load_uint4 xs = Some v.
Proof. do 9 (destruct xs as [|? xs]; try done). eauto. Qed.

Lemma store_reduce_uint4 kScaleAvg (xs ys : list T) a b : dt <> Float ->
  load_uint4 xs = Some a -> load_uint4 ys = Some b ->
  Forall2 (stands_for dt r) (store_uint4 (reduce_uint4 r inverse kScaleAvg a b))
    (zip_with (reduce_one r inverse kScaleAvg) xs ys).
Proof.
  intros Hdt. unfold load_uint4. do 9 (destruct xs as [|? xs]; try done).
  do 9 (destruct ys as [|? ys]; try done). intros [= <-] [= <-].
  unfold reduce_uint4, reduce_packed16, scale_avg_packed16. cbn [w_x w_y w_z w_w].
  rewrite !packed_apply_pairs.
  rewrite !scale_avg_word_pair.
  assert (forall p1 p2 p3 p4 : T * T,
    (if scales r kScaleAvg
     then UInt4 (pair_to_bits (scale_avg inverse p1.1, scale_avg inverse p1.2))
            (pair_to_bits (scale_avg inverse p2.1, scale_avg inverse p2.2))
            (pair_to_bits (scale_avg inverse p3.1, scale_avg inverse p3.2))
            (pair_to_bits (scale_avg inverse p4.1, scale_avg inverse p4.2))
     else UInt4 (pair_to_bits p1) (pair_to_bits p2) (pair_to_bits p3) (pair_to_bits p4)) =
    UInt4 (pair_to_bits (finish_pair kScaleAvg p1)) (pair_to_bits (finish_pair kScaleAvg p2))
      (pair_to_bits (finish_pair kScaleAvg p3)) (pair_to_bits (finish_pair kScaleAvg p4))) as ->
    by (intros; unfold finish_pair; by destruct (scales r kScaleAvg)).
  unfold store_uint4. cbn -[pair_from_bits pair_to_bits finish_pair pair_op reduce_one].
  rewrite !pair_round_trip. repeat (constructor; [apply (pair_lanes kScaleAvg (_, _) (_, _) Hdt)|]).
  constructor.
Qed.
End Lanes.

(** ** The value of every element *)

Lemma blit_at {A} (m : Z -> A) off n f i : 0 <= i < n -> blit m off n f (off + i) = f i.
Proof. intros Hi. rewrite blit_in by lia. f_equal. lia. Qed.

Section Elements.
Context {T : Type} `{FloatOps T, Half2 T} (dt : DType) (r : RedOp) (inverse : T).
Context (HD : dt <> Float -> half2_documented (T := T)).
Context (rt : routine T) (al : bool) (count : Z) (mem : place -> Z -> T).
Context (Hl : r_layout rt = choose_layout dt al).

Abbreviation width := (access_width (r_layout rt) count).
Abbreviation is_vector u := (u <? scalar_begin (r_layout rt) count).

Lemma read_lookup u p e : u <= e < u + width u ->
  read rt count mem u p !! Z.to_nat (e - u) = Some (mem p e).
Proof.
  intros He. unfold read. unfold zrange. rewrite list_lookup_fmap, lookup_seqZ_lt by lia. simpl. f_equal. f_equal. lia.
Qed.

Lemma read_length u p : length (read rt count mem u p) = Z.to_nat (width u).
Proof. unfold read. unfold zrange. by rewrite length_fmap, length_seqZ. Qed.

(** A vector access has the width of the type's vectors. *)
Lemma vector_width u : 0 <= u -> is_vector u = true ->
  width u = match dt with Float => 4 | _ => 8 end.
Proof.
  intros Hu Hv. unfold access_width. rewrite Hv. rewrite Hl in *. unfold choose_layout in *.
  destruct dt, al; try done; unfold scalar_begin in Hv; apply Z.ltb_lt in Hv; lia.
Qed.

Lemma read_scalar u p : is_vector u = false -> read rt count mem u p = [mem p u].
Proof.
  intros Hv. unfold read, access_width. rewrite Hv. change (zrange 1) with [0]. simpl.
  by rewrite Z.add_0_r.
Qed.

Lemma load_float4_some (xs : list T) : length xs = 4%nat -> exists v, load_float4 xs = Some v /\ store_float4 v = xs.
Proof. do 5 (destruct xs as [|? xs]; try done). eauto. Qed.

(** The copies store what they load. *)
Lemma copy_access u p : 0 <= u -> r_srcs rt = [p] ->
  r_vector rt = copy_vector dt -> r_scalar rt = copy_scalar ->
  access_value rt count mem u = read rt count mem u p.
Proof.
  intros Hu Hs Hvec Hsc. unfold access_value, value, operands. rewrite Hs, Hvec, Hsc. csimpl.
  destruct (is_vector u) eqn:Hv; [|by rewrite read_scalar].
  pose proof (read_length u p) as Hn. rewrite vector_width in Hn by done.
  unfold copy_vector. destruct dt eqn:Ed.
  - destruct (load_float4_some _ Hn) as (v & -> & Hst). done.
  - destruct (load_uint4_some _ Hn) as [v Hld]. rewrite Hld. simpl.
    apply store_load_uint4; [by apply HD|done].
  - destruct (load_uint4_some _ Hn) as [v Hld]. rewrite Hld. simpl.
    apply store_load_uint4; [by apply HD|done].
Qed.

(** The reductions store the reduction of what they load, lane by lane. *)
Lemma reduce_access k u p q : 0 <= u -> r_srcs rt = [p; q] ->
  r_vector rt = reduce_vector dt r inverse k -> r_scalar rt = reduce_scalar r inverse k ->
  Forall2 (stands_for dt r) (access_value rt count mem u)
    (zip_with (reduce_one r inverse k) (read rt count mem u p) (read rt count mem u q)).
Proof.
  intros Hu Hs Hvec Hsc. unfold access_value, value, operands. rewrite Hs, Hvec, Hsc. csimpl.
  destruct (is_vector u) eqn:Hv.
  2: { rewrite !read_scalar by done. repeat constructor. }
  pose proof (read_length u p) as Hp. pose proof (read_length u q) as Hq.
  rewrite vector_width in Hp, Hq by done.
  revert Hp Hq. generalize (read rt count mem u p), (read rt count mem u q). intros xs ys Hp Hq.
  unfold reduce_vector. destruct dt eqn:Ed.
  - do 5 (destruct xs as [|? xs]; try done). do 5 (destruct ys as [|? ys]; try done). simpl.
    unfold reduce_float4, reduce_one. destruct (scales r k); simpl; repeat (constructor; [by left|]); done.
  - destruct (load_uint4_some _ Hp) as [a Ha], (load_uint4_some _ Hq) as [b Hb]. rewrite Ha, Hb. simpl.
    apply store_reduce_uint4; [by apply HD|done..].
  - destruct (load_uint4_some _ Hp) as [a Ha], (load_uint4_some _ Hq) as [b Hb]. rewrite Ha, Hb. simpl.
    apply store_reduce_uint4; [by apply HD|done..].
Qed.

(** The same of an element of the slice. *)
Lemma copy_element p q e : 0 <= e < count -> r_srcs rt = [p] ->
  r_vector rt = copy_vector dt -> r_scalar rt = copy_scalar ->
  stored rt count mem (access_of (r_layout rt) count e) q e = mem p e.
Proof.
  intros He Hs Hvec Hsc. destruct (access_range (r_layout rt) count e He) as (? & ? & _).
  unfold stored. rewrite (copy_access _ p) by (done || lia). by rewrite read_lookup by lia.
Qed.

Lemma reduce_element k p1 p2 q e : 0 <= e < count -> r_srcs rt = [p1; p2] ->
  r_vector rt = reduce_vector dt r inverse k -> r_scalar rt = reduce_scalar r inverse k ->
  stands_for dt r (stored rt count mem (access_of (r_layout rt) count e) q e)
    (reduce_one r inverse k (mem p1 e) (mem p2 e)).
Proof.
  intros He Hs Hvec Hsc. destruct (access_range (r_layout rt) count e He) as (? & ? & _).
  unfold stored. set (u := access_of (r_layout rt) count e) in *.
  pose proof (reduce_access k u p1 p2 ltac:(lia) Hs Hvec Hsc) as HF.
  destruct (Forall2_lookup_r _ _ _ (Z.to_nat (e - u)) (reduce_one r inverse k (mem p1 e) (mem p2 e)) HF)
    as (v & -> & Hv); [|done].
  rewrite lookup_zip_with, !read_lookup by lia. done.
Qed.
End Elements.

Lemma reduce_one_op {T} `{FloatOps T} r (inverse a b : T) :
  reduce_one r inverse false a b = redop_apply r a b /\
  reduce_one r inverse true a b = redop_finish r inverse (redop_apply r a b).
Proof. by destruct r. Qed.

(** ** The theorem *)

Definition reduces (d : data) : bool :=
  match d with
  | CopyToDst _ _ | CopyToOut _ _ _ | CopyVolatileToDst _ | CopyVolatileToOut _ _
  | CopyBroadcastVolatile _ _ => false
  | _ => true
  end.

Section Refinement.
Context {T : Type} `{FloatOps T, Half2 T} (dt : DType) (r : RedOp) (inverse : T) (slot_elems : Z).
Context (d : data) (inp : Z -> T) (x : rank_st T) (eo ei : edge_st T).
Context (unroll block_dim : Z) (reg0 : Z -> Z -> list (list T)).
Context (local_addr recv_addr dst_addr out_addr : Z).

(** The buffers of the slice, indexed from its first element. *)
Definition slice_mem (p : place) (i : Z) : T :=
  match p with
  | PLocal => inp (d_local d + i)
  | PRecv => fifo ei (slot_base slot_elems (recv_step x) + i)
  | PDst => fifo eo (slot_base slot_elems (send_step x) + i)
  | POut => output x (default 0 (writes_out d) + i)
  end.

Abbreviation rt := (data_routine dt r inverse local_addr recv_addr dst_addr out_addr d).
Abbreviation wstep := (block_step rt (d_work d)).
Abbreviation wstart := (block_start rt unroll (d_work d) (worker_count block_dim) reg0 slice_mem).

(** A stored element against the protocol's: a copy is exact. *)
Definition renders (v w : T) : Prop := if reduces d then stands_for dt r v w else v = w.

Lemma data_routine_element p i : (dt <> Float -> half2_documented (T := T)) -> 0 <= i < d_work d ->
  renders (stored rt (d_work d) slice_mem (access_of (r_layout rt) (d_work d) i) p i)
    (d_elem (redop_apply r) (redop_finish r inverse) d
       (slice_mem PLocal i) (slice_mem PRecv i) (slice_mem PDst i) (slice_mem POut i)).
Proof.
  intros HD Hi. unfold renders. destruct d; cbn [reduces d_elem]; 
    first [rewrite <- (proj2 (reduce_one_op r inverse _ _))|rewrite <- (proj1 (reduce_one_op r inverse _ _))|idtac];
    first [eapply copy_element|eapply reduce_element];
    first [exact HD|exact Hi|reflexivity].
Qed.

Lemma data_routine_stores :
  (POut ∈ r_dsts rt <-> writes_out d <> None) /\ (PDst ∈ r_dsts rt <-> writes_dst d = true).
Proof. destruct d; simpl; split; rewrite ?elem_of_cons, ?elem_of_nil; intuition congruence. Qed.

End Refinement.

Module WorkersWitness.
(** Sixteen-bit integers stand for half-precision numbers. *)
Definition Z16 : Type := {z : Z | (0 <=? z) && (z <? 2 ^ 16) = true}.

Lemma u16_bits z : (0 <=? u16 z) && (u16 z <? 2 ^ 16) = true.
Proof. pose proof (u16_range z). apply andb_true_iff. split; [apply Z.leb_le|apply Z.ltb_lt]; lia. Qed.

Definition z16 (z : Z) : Z16 := exist _ (u16 z) (u16_bits z).

#[local] Instance z16_ops : FloatOps Z16 := {|
  fadd a b := z16 (`a + `b); fmul a b := z16 (`a * `b);
  fneq a b := negb (`a =? `b); fgt a b := `b <? `a; flt a b := `a <? `b |}.
#[local] Instance z16_half2 : Half2 Z16 := {|
  raw_bits a := `a; of_raw := z16;
  hadd2 p q := (fadd p.1 q.1, fadd p.2 q.2);
  hmax2_nan p q := (if fgt p.1 q.1 then p.1 else q.1, if fgt p.2 q.2 then p.2 else q.2);
  hmin2_nan p q := (if flt p.1 q.1 then p.1 else q.1, if flt p.2 q.2 then p.2 else q.2) |}.

Lemma z16_documented : half2_documented (T := Z16).
Proof.
  assert (forall pick a b, extremum pick a b (if pick a b then a else b : Z16)) as Hx.
  { intros pick a b. split; [|intros _ _; simpl; by rewrite Z.eqb_refl].
    unfold isnan. simpl. by rewrite !Z.eqb_refl. }
  split.
  - intros [z Hz]. simpl. unfold half. lia.
  - intros [z Hz]. apply (sig_eq_pi _). simpl. apply u16_small. lia.
  - done.
  - split; apply Hx.
  - split; apply Hx.
Qed.

(** A slice of eleven elements averaged by four threads: eight in a vector. *)
Definition rank0 : rank_st Z16 := Rank [] true [] [] 0 0 0 0 0 0 (fun _ => z16 0).
Definition edge0 : edge_st Z16 := Edge z16 0 0 (fun _ => 0).
Definition slice : data := ReduceVolatileToOut 100 0 11.
Abbreviation third := (z16 3).
Abbreviation averaging := (data_routine Float16 Avg third 4096 4096 0 8192 slice).
Definition begin : block_st Z16 :=
  block_start averaging 8 11 (worker_count 4) (fun _ _ => [])
    (slice_mem 32 slice z16 rank0 edge0 edge0).

End WorkersWitness.
