(* ===== verification/Topology.v ===== *)
(** * Process topology and transport plan

    src/collective/all_reduce/topology.cc (validation and rank lookup),
    src/transport/p2p/p2p_topology.cu (the per-edge transport plan and its
    resolution inside a process, NVLink discovery) and
    [resolve_interprocess_transports] of
    src/collective/all_reduce/mpi_communicator.cc.

    Vectors are lists; [v.at(i)] throws out of range, [v[i]] is only used where
    an index is in range.  What CUDA, NVML and the CUDA IPC probe answer is a
    parameter. *)

From Stdlib Require Import ZArith Lia Ascii.
From stdpp Require Import base option numbers tactics strings list gmap pretty.
From S2P Require Import Prelude Types.

#[local] Open Scope Z_scope.

(** ** ProcessTopology *)

Record ProcessTopology := {
  global_rank_count : Z;
  local_rank_offset : Z;
  devices : list Z;
  edge_kinds : list TransportKind;
  distributed : bool;
}.

Definition vec_size {A} (l : list A) : Z := Z.of_nat (length l).

(** [v.at(i)] *)
Definition vec_at {A} (l : list A) (i : Z) : res A :=
  if i <? 0 then Throw OutOfRange else
  match l !! Z.to_nat i with Some a => Ok a | None => Throw OutOfRange end.

Definition is_resolved_edge_kind (kind : TransportKind) : bool :=
  match kind with Shm | P2p | Socket | Rdma => true | Auto | Mixed => false end.

Section Topology.
Context `{BuildConfig}.

Definition validate_process_topology (t : ProcessTopology) : res unit :=
  check (global_rank_count t =? kRanks)
    (RuntimeError "process topology global rank count must match kRanks") ;;
  check (negb (vec_size (devices t) =? 0))
    (RuntimeError "process topology requires local devices") ;;
  check (negb (distributed t && negb (vec_size (devices t) =? 1)))
    (RuntimeError "distributed topology requires exactly one local GPU rank") ;;
  check (negb ((local_rank_offset t <? 0) ||
               (global_rank_count t <? local_rank_offset t + vec_size (devices t))))
    (RuntimeError "process topology local ranks are out of range") ;;
  check (vec_size (edge_kinds t) =? global_rank_count t)
    (RuntimeError "process topology requires one kind per global edge") ;;
  check_all is_resolved_edge_kind
    (fun _ => RuntimeError "process topology edge kind must be resolved") (edge_kinds t) ;;
  check (negb (negb (distributed t) &&
               (negb (local_rank_offset t =? 0) ||
                negb (vec_size (devices t) =? global_rank_count t))))
    (RuntimeError "single-process topology must own every rank").

Definition make_single_process_topology (ds : list Z) (kinds : list TransportKind) :
    res ProcessTopology :=
  let t := {| global_rank_count := vec_size ds; local_rank_offset := 0; devices := ds;
              edge_kinds := kinds; distributed := false |} in
  validate_process_topology t ;; Ok t.

Definition is_local_global_rank (t : ProcessTopology) (global_rank : Z) : bool :=
  (local_rank_offset t <=? global_rank) &&
  (global_rank <? local_rank_offset t + vec_size (devices t)).

Definition local_rank_for_global_rank (t : ProcessTopology) (global_rank : Z) : res Z :=
  if negb (is_local_global_rank t global_rank)
  then Throw (RuntimeError "global rank is not local to this process")
  else Ok (global_rank - local_rank_offset t).

(** What a topology that passed validation looks like. *)
Record valid_topology (t : ProcessTopology) : Prop := {
  vt_count : global_rank_count t = kRanks;
  vt_local : 0 <= local_rank_offset t;
  vt_devices : 0 < vec_size (devices t);
  vt_range : local_rank_offset t + vec_size (devices t) <= kRanks;
  vt_edges : vec_size (edge_kinds t) = kRanks;
  vt_kinds : Forall (fun k => is_resolved_edge_kind k = true) (edge_kinds t);
  vt_distributed : distributed t = true -> vec_size (devices t) = 1;
  vt_single : distributed t = false ->
    local_rank_offset t = 0 /\ vec_size (devices t) = kRanks;
}.

Lemma validate_process_topology_ok t u :
  validate_process_topology t = Ok u <-> valid_topology t.
Proof.
  destruct u. unfold validate_process_topology. rewrite !bind_ok.
  pose proof (Zle_0_nat (length (devices t))) as Hlen. fold (vec_size (devices t)) in Hlen.
  split.
  - intros ([] & H1 & H2). repeat (apply bind_ok in H2 as ([] & ? & H2)).
    rewrite ?check_ok, ?check_all_ok in *. destruct (distributed t) eqn:Ed; split;
      first [done | lia | rewrite Ed; done | intros _; lia].
  - intros []. exists tt. rewrite check_ok. split; [lia|].
    repeat (rewrite bind_ok; exists tt; rewrite ?check_ok, ?check_all_ok; split; [|]);
      rewrite ?check_ok, ?check_all_ok; try done; destruct (distributed t); lia.
Qed.
End Topology.

(** ** RingTransportPlan *)

(** The plan is the vector of its edge kinds; only [make_plan] builds one. *)
Record RingTransportPlan := Plan { plan_edge_kinds : list TransportKind }.

Section Plan.
Context `{BuildConfig}.

(** The constructor. *)
Definition make_plan (kinds : list TransportKind) : res RingTransportPlan :=
  check (vec_size kinds =? kRanks)
    (InvalidArgument "ring transport plan rank count must match kRanks") ;;
  check_all (fun k => negb (bool_decide (k = Auto \/ k = Mixed)))
    (fun _ => InvalidArgument "ring transport edges must be p2p or shm") kinds ;;
  Ok (Plan kinds).

Definition uniform (kind : TransportKind) (rank_count : Z) : res RingTransportPlan :=
  make_plan (replicate (Z.to_nat rank_count) kind).

Definition edge_kind (p : RingTransportPlan) (edge : Z) : res TransportKind :=
  vec_at (plan_edge_kinds p) edge.

Definition resolved_kind (p : RingTransportPlan) : TransportKind :=
  let first := default Auto (plan_edge_kinds p !! 0%nat) in
  if existsb (fun k => negb (bool_decide (k = first))) (plan_edge_kinds p)
  then Mixed else first.

Definition uses_p2p (p : RingTransportPlan) : bool :=
  existsb (fun k => bool_decide (k = P2p)) (plan_edge_kinds p).

Lemma make_plan_ok kinds p :
  make_plan kinds = Ok p <->
  p = Plan kinds /\ vec_size kinds = kRanks /\
  Forall (fun k => is_resolved_edge_kind k = true) kinds.
Proof.
  unfold make_plan. rewrite bind_ok.
  assert (forall k, negb (bool_decide (k = Auto \/ k = Mixed)) = true <->
                    is_resolved_edge_kind k = true) as Hk.
  { intros k. rewrite negb_true_iff, bool_decide_eq_false. destruct k; simpl; intuition congruence. }
  split.
  - intros ([] & H1 & ([] & H2 & [= <-])%bind_ok).
    apply check_ok in H1. apply check_all_ok in H2. split_and!; [done|lia|].
    eapply Forall_impl; [exact H2|]. intros k. apply Hk.
  - intros (-> & Hn & Hf). exists tt. rewrite check_ok. split; [lia|]. rewrite bind_ok.
    exists tt. split; [|done]. apply check_all_ok. eapply Forall_impl; [exact Hf|].
    intros k. apply Hk.
Qed.

Lemma edge_kind_ok kinds edge : 0 <= edge < vec_size kinds ->
  exists k, edge_kind (Plan kinds) edge = Ok k /\ kinds !! Z.to_nat edge = Some k.
Proof.
  unfold edge_kind, vec_at, vec_size. simpl. intros He. destruct (Z.ltb_spec edge 0); [lia|].
  destruct (lookup_lt_is_Some_2 kinds (Z.to_nat edge)) as [k ->]; [lia|eauto].
Qed.
End Plan.

(** ** NVLink discovery *)

(** [std::sscanf(text, "%x:%x:%x.%x", ...) == 4] and the four values.  A [%x]
    skips white space, takes an optional sign and an optional [0x], and needs
    a digit; the value is converted to [unsigned int]. *)
Definition hex_digit (c : ascii) : option Z :=
  let n := Z.of_nat (nat_of_ascii c) in
  if (48 <=? n) && (n <=? 57) then Some (n - 48)
  else if (97 <=? n) && (n <=? 102) then Some (n - 87)
  else if (65 <=? n) && (n <=? 70) then Some (n - 55)
  else None.

Definition is_space (c : ascii) : bool :=
  let n := Z.of_nat (nat_of_ascii c) in (n =? 32) || ((9 <=? n) && (n <=? 13)).

Fixpoint scan_digits (acc : Z) (s : list ascii) : Z * list ascii :=
  match s with
  | c :: s' => match hex_digit c with
               | Some d => scan_digits (acc * 16 + d) s'
               | None => (acc, s)
               end
  | [] => (acc, [])
  end.

Fixpoint skip_spaces (s : list ascii) : list ascii :=
  match s with
  | c :: s' => if is_space c then skip_spaces s' else s
  | [] => []
  end.

(** [0x] counts as a prefix only when a digit follows. *)
Definition skip_prefix (s : list ascii) : list ascii :=
  match s with
  | "0"%char :: x :: d :: s' =>
      if (Ascii.eqb x "x" || Ascii.eqb x "X") && bool_decide (is_Some (hex_digit d))
      then d :: s' else s
  | _ => s
  end.

Definition scan_hex (s : list ascii) : option (Z * list ascii) :=
  let s := skip_spaces s in
  let '(sign, s) := match s with
                    | "-"%char :: s' => (-1, s')
                    | "+"%char :: s' => (1, s')
                    | _ => (1, s)
                    end in
  let s := skip_prefix s in
  match s with
  | c :: _ => match hex_digit c with
              | Some _ => let '(v, rest) := scan_digits 0 s in Some (u32 (sign * v), rest)
              | None => None
              end
  | [] => None
  end.

Definition scan_char (c : ascii) (s : list ascii) : option (list ascii) :=
  match s with
  | c' :: s' => if Ascii.eqb c c' then Some s' else None
  | [] => None
  end.

Definition scan_pci (text : string) : option (Z * Z * Z * Z) :=
  '(domain, s) ← scan_hex (String.list_ascii_of_string text);
  s ← scan_char ":" s; '(bus, s) ← scan_hex s;
  s ← scan_char ":" s; '(device, s) ← scan_hex s;
  s ← scan_char "." s; '(function, _) ← scan_hex s;
  Some (domain, bus, device, function).

Definition pci_bus_ids_match (left right : string) : bool :=
  match scan_pci left, scan_pci right with
  | Some l, Some r => bool_decide (l = r)
  | _, _ => false
  end.

Example pci_ids : pci_bus_ids_match "00000000:3B:00.0" "0000:3b:0.0" = true.
Proof. reflexivity. Qed.

(** What the driver libraries answer; [None] stands for an error status. *)
Class GpuSystem := {
  nvml_initialized : bool;
  gpu_pci_bus_id : Z -> option string;             (* cudaDeviceGetPCIBusId *)
  nvml_handle : string -> option Z;                (* nvmlDeviceGetHandleByPciBusId *)
  NVML_NVLINK_MAX_LINKS : nat;
  nvlink_enabled : Z -> nat -> option bool;        (* nvmlDeviceGetNvLinkState *)
  nvlink_remote : Z -> nat -> option string;       (* nvmlDeviceGetNvLinkRemotePciInfo *)
  can_access_peer : Z -> Z -> option bool;         (* cudaDeviceCanAccessPeer *)
  set_device_error : Z -> option string;           (* cudaSetDevice *)
  enable_peer_error : Z -> Z -> option string;     (* cudaDeviceEnablePeerAccess *)
}.

Section Discovery.
Context `{GpuSystem}.

(** The link loop of the device-index overload: a failing query ends it. *)
Fixpoint nvlink_scan (links : list nat) (src_device : Z) (dst_id : string) : bool :=
  match links with
  | [] => false
  | link :: links =>
      match nvlink_enabled src_device link with
      | None => false
      | Some false => nvlink_scan links src_device dst_id
      | Some true =>
          match nvlink_remote src_device link with
          | None => false
          | Some remote => pci_bus_ids_match remote dst_id || nvlink_scan links src_device dst_id
          end
      end
  end.

Definition has_active_direct_nvlink (src dst : Z) : bool :=
  if negb nvml_initialized then false else
  match gpu_pci_bus_id src, gpu_pci_bus_id dst with
  | Some src_id, Some dst_id =>
      match nvml_handle src_id with
      | Some dev => nvlink_scan (seq 0 NVML_NVLINK_MAX_LINKS) dev dst_id
      | None => false
      end
  | _, _ => false
  end.

(** The overload on bus ids passes over links whose queries fail. *)
Definition has_active_direct_nvlink_ids (source_id destination_id : string) : bool :=
  if negb nvml_initialized then false else
  match nvml_handle source_id with
  | None => false
  | Some dev =>
      existsb (fun link =>
        match nvlink_enabled dev link with
        | Some true => match nvlink_remote dev link with
                       | Some remote => pci_bus_ids_match remote destination_id
                       | None => false
                       end
        | _ => false
        end) (seq 0 NVML_NVLINK_MAX_LINKS)
  end.

Definition has_bidirectional_direct_nvlink (first second : string) : bool :=
  has_active_direct_nvlink_ids first second && has_active_direct_nvlink_ids second first.

Definition cuda_peer_access_available (src dst : Z) : bool :=
  match can_access_peer src dst with Some b => b | None => false end.

Definition edge_supports_p2p (sender receiver : Z) : bool :=
  has_active_direct_nvlink sender receiver && has_active_direct_nvlink receiver sender &&
  cuda_peer_access_available sender receiver && cuda_peer_access_available receiver sender.

(** Pairs (src, dst) for which [src] may access [dst]. *)
Definition enable_peer_access_or_throw (src dst : Z) (enabled : gset (Z * Z)) :
    res (gset (Z * Z)) :=
  match set_device_error src with
  | Some msg => Throw (RuntimeError msg)
  | None =>
      if bool_decide ((src, dst) ∈ enabled) then Ok enabled else
      match enable_peer_error src dst with
      | Some msg => Throw (RuntimeError msg)
      | None => Ok ({[(src, dst)]} ∪ enabled)
      end
  end.

Lemma enable_peer_access_ok src dst en en' :
  enable_peer_access_or_throw src dst en = Ok en' -> en' = {[(src, dst)]} ∪ en.
Proof.
  unfold enable_peer_access_or_throw. destruct (set_device_error src); [done|].
  destruct (decide ((src, dst) ∈ en)); [rewrite bool_decide_true by done; intros [= <-]; set_solver|].
  rewrite bool_decide_false by done.
  destruct (enable_peer_error src dst); [done|]. by intros [= <-].
Qed.
End Discovery.

(** ** Resolution inside a process *)

Section Resolve.
Context `{BuildConfig} `{GpuSystem}.

Definition is_local_edge (t : ProcessTopology) (edge : Z) : bool :=
  let receiver := (edge + 1) mod global_rank_count t in
  is_local_global_rank t edge && is_local_global_rank t receiver.

Definition device_for_global_rank (t : ProcessTopology) (global_rank : Z) : res Z :=
  local_rank_for_global_rank t global_rank ≫= vec_at (devices t).

(** One turn of the loop for a requested [P2p]. *)
Definition resolve_p2p_edge (t : ProcessTopology) (edge : Z) (kinds : list TransportKind) :
    res (list TransportKind) :=
  if negb (is_local_edge t edge)
  then Throw (RuntimeError "p2p transport requires local ring edges") else
  let receiver := (edge + 1) mod kRanks in
  sender_device ← device_for_global_rank t edge;
  receiver_device ← device_for_global_rank t receiver;
  if negb (cuda_peer_access_available sender_device receiver_device) ||
     negb (cuda_peer_access_available receiver_device sender_device)
  then Throw (RuntimeError "p2p unavailable for local ring edge")
  else Ok (<[Z.to_nat edge := P2p]> kinds).

(** One turn of the loop for [Auto]. *)
Definition resolve_auto_edge (t : ProcessTopology) (edge : Z) (kinds : list TransportKind) :
    res (list TransportKind) :=
  if negb (is_local_edge t edge) then Ok kinds else
  let receiver := (edge + 1) mod kRanks in
  sender_device ← device_for_global_rank t edge;
  receiver_device ← device_for_global_rank t receiver;
  Ok (<[Z.to_nat edge :=
          if edge_supports_p2p sender_device receiver_device then P2p else Shm]> kinds).

Definition resolve_ring_transport (requested : TransportKind) (t : ProcessTopology) :
    res RingTransportPlan :=
  validate_process_topology t ;;
  match requested with
  | Shm => uniform Shm kRanks
  | P2p => foldM (resolve_p2p_edge t) (zrange kRanks) (replicate (Z.to_nat kRanks) Shm)
             ≫= make_plan
  | Auto => foldM (resolve_auto_edge t) (zrange kRanks) (edge_kinds t) ≫= make_plan
  | _ => Throw (InvalidArgument "mixed is a resolved transport only")
  end.

Definition enable_p2p_edge (p : RingTransportPlan) (t : ProcessTopology) (edge : Z)
    (enabled : gset (Z * Z)) : res (gset (Z * Z)) :=
  kind ← edge_kind p edge;
  if negb (bool_decide (kind = P2p)) || negb (is_local_edge t edge) then Ok enabled else
  let receiver := (edge + 1) mod kRanks in
  sender_device ← device_for_global_rank t edge;
  receiver_device ← device_for_global_rank t receiver;
  enable_peer_access_or_throw sender_device receiver_device enabled
    ≫= enable_peer_access_or_throw receiver_device sender_device.

Definition enable_p2p_ring_peer_access_or_throw (p : RingTransportPlan)
    (t : ProcessTopology) (enabled : gset (Z * Z)) : res (gset (Z * Z)) :=
  validate_process_topology t ;;
  foldM (enable_p2p_edge p t) (zrange kRanks) enabled.
End Resolve.

(** ** Resolution between processes *)

Section Interprocess.
Context `{BuildConfig} (rdma_enabled : bool).  (* NANO_NCCL_ENABLE_RDMA *)
Context (node_ids : list Z) (p2p_capable : list bool).

Definition same_host (edge : Z) : bool :=
  let receiver := (edge + 1) mod kRanks in
  bool_decide (node_ids !! Z.to_nat edge = node_ids !! Z.to_nat receiver).
Definition capable (edge : Z) : bool := default false (p2p_capable !! Z.to_nat edge).

(** [edge -> receiver] in messages. *)
Definition edge_text (edge : Z) : string :=
  (pretty edge +:+ "->" +:+ pretty ((edge + 1) mod kRanks))%string.

(** The kind one edge gets. *)
Definition interprocess_kind (requested : TransportKind) (edge : Z) : res TransportKind :=
  let local_kind := if capable edge then P2p else Shm in
  match requested with
  | Auto => Ok (if same_host edge then local_kind else Socket)
  | Shm =>
      if negb (same_host edge)
      then Throw (InvalidArgument ("SHM edge " +:+ edge_text edge +:+
             " unavailable across hosts; actual available backend is socket"))
      else Ok Shm
  | P2p =>
      if negb (same_host edge)
      then Throw (InvalidArgument ("P2P edge " +:+ edge_text edge +:+
             " unavailable across hosts; actual available backend is socket"))
      else if negb (capable edge)
      then Throw (InvalidArgument ("P2P edge " +:+ edge_text edge +:+
             " failed the CUDA IPC probe; actual available backend is shm"))
      else Ok P2p
  | Socket => Ok Socket
  | Rdma =>
      if rdma_enabled then Ok (if same_host edge then local_kind else Rdma)
      else Throw (InvalidArgument "rdma transport requires NANO_NCCL_ENABLE_RDMA=ON")
  | Mixed => Throw (InvalidArgument "mixed is a resolved transport and cannot be requested")
  end.

Definition resolve_interprocess_transports (requested : TransportKind) :
    res (list TransportKind) :=
  foldM (fun edge kinds => k ← interprocess_kind requested edge;
                           Ok (<[Z.to_nat edge := k]> kinds))
    (zrange kRanks) (replicate (Z.to_nat kRanks) Shm).
End Interprocess.

(** ** Facts *)

Section ResolveFacts.
Context `{BuildConfig} `{GpuSystem} (t : ProcessTopology) (Ht : valid_topology t).

Definition device_of (rank : Z) : Z :=
  default 0 (devices t !! Z.to_nat (rank - local_rank_offset t)).

Lemma device_for_local rank : is_local_global_rank t rank = true ->
  device_for_global_rank t rank = Ok (device_of rank).
Proof.
  intros Hl. unfold device_for_global_rank, local_rank_for_global_rank. rewrite Hl. simpl.
  unfold is_local_global_rank in Hl. unfold vec_at, device_of.
  destruct (Z.ltb_spec (rank - local_rank_offset t) 0); [lia|].
  unfold vec_size in Hl.
  destruct (lookup_lt_is_Some_2 (devices t) (Z.to_nat (rank - local_rank_offset t)))
    as [d ->]; [lia|done].
Qed.

Lemma local_edge_devices edge : is_local_edge t edge = true ->
  device_for_global_rank t edge = Ok (device_of edge) /\
  device_for_global_rank t ((edge + 1) mod kRanks) = Ok (device_of ((edge + 1) mod kRanks)).
Proof.
  unfold is_local_edge. rewrite (vt_count t Ht). intros [? ?]%andb_true_iff.
  auto using device_for_local.
Qed.

(** Both ends of an edge can reach each other's memory. *)
Definition mutual_access (edge : Z) : bool :=
  let s := device_of edge in let r := device_of ((edge + 1) mod kRanks) in
  cuda_peer_access_available s r && cuda_peer_access_available r s.

Definition auto_kind (edge : Z) : TransportKind :=
  if is_local_edge t edge
  then if edge_supports_p2p (device_of edge) (device_of ((edge + 1) mod kRanks))
       then P2p else Shm
  else default Shm (edge_kinds t !! Z.to_nat edge).

Lemma vec_size_nat {A} (l : list A) n : vec_size l = n -> length l = Z.to_nat n.
Proof. unfold vec_size. lia. Qed.

Lemma resolve_auto_loop :
  foldM (resolve_auto_edge t) (zrange kRanks) (edge_kinds t) = Ok (auto_kind <$> zrange kRanks).
Proof.
  apply foldM_write; [apply vec_size_nat, (vt_edges t Ht)|].
  intros e l He Hl. unfold resolve_auto_edge, auto_kind.
  destruct (is_local_edge t e) eqn:El; simpl.
  - destruct (local_edge_devices e El) as [-> ->]. done.
  - f_equal. symmetry. apply list_insert_id. rewrite Hl.
    destruct (lookup_lt_is_Some_2 (edge_kinds t) (Z.to_nat e)) as [k ->]; [|done].
    rewrite (vec_size_nat _ _ (vt_edges t Ht)). lia.
Qed.

Lemma auto_kind_resolved edge : 0 <= edge < kRanks ->
  is_resolved_edge_kind (auto_kind edge) = true.
Proof.
  intros He. unfold auto_kind. destruct (is_local_edge t edge); [by case_match|].
  destruct (edge_kinds t !! Z.to_nat edge) as [k|] eqn:Ek; [|done]. simpl.
  exact (proj1 (Forall_lookup _ _) (vt_kinds t Ht) _ _ Ek).
Qed.

Lemma resolve_p2p_loop kinds :
  foldM (resolve_p2p_edge t) (zrange kRanks) (replicate (Z.to_nat kRanks) Shm) = Ok kinds <->
  kinds = (fun _ => P2p) <$> zrange kRanks /\
  forall edge, 0 <= edge < kRanks -> is_local_edge t edge = true /\ mutual_access edge = true.
Proof.
  assert (forall e l, resolve_p2p_edge t e l =
    if negb (is_local_edge t e)
    then Throw (RuntimeError "p2p transport requires local ring edges")
    else if negb (mutual_access e)
    then Throw (RuntimeError "p2p unavailable for local ring edge")
    else Ok (<[Z.to_nat e := P2p]> l)) as Heq.
  { intros e l. unfold resolve_p2p_edge, mutual_access.
    destruct (is_local_edge t e) eqn:El; simpl; [|done].
    destruct (local_edge_devices e El) as [-> ->]. simpl. by rewrite negb_andb. }
  assert (length (replicate (Z.to_nat kRanks) Shm) = Z.to_nat kRanks) as Hl
    by apply length_replicate.
  split.
  - apply (foldM_write_inv _ (fun _ => P2p) _ _ Hl
      (fun e => is_local_edge t e = true /\ mutual_access e = true)).
    intros e l l' _. rewrite Heq. destruct (is_local_edge t e), (mutual_access e); try done.
    by intros [= <-].
  - intros [-> Hall]. apply foldM_write; [done|]. intros e l He _. rewrite Heq.
    by destruct (Hall e He) as [-> ->].
Qed.
End ResolveFacts.

Lemma vec_size_map {A B} (f : A -> B) l : vec_size (f <$> l) = vec_size l.
Proof. unfold vec_size. by rewrite length_fmap. Qed.

Lemma vec_size_zrange n : 0 <= n -> vec_size (zrange n) = n.
Proof. unfold vec_size, zrange. rewrite length_seqZ. lia. Qed.

(** C31: How a transport request becomes a plan inside a process.  [shm] always
    gives shared memory on every edge; [p2p] gives P2P on every edge exactly
    when every edge is local and both ends can access each other, and fails
    otherwise; [auto] never fails: a local edge becomes P2P exactly when both
    ends see each other over NVLink and peer access, else shared memory, and
    other edges keep their kind.  No other request is accepted. *)
Theorem resolve_ring_transport_spec `{BuildConfig} `{GpuSystem} t requested p :
  valid_topology t ->
  resolve_ring_transport requested t = Ok p <->
  match requested with
  | Shm => p = Plan ((fun _ => Shm) <$> zrange kRanks)
  | P2p => p = Plan ((fun _ => P2p) <$> zrange kRanks) /\
           forall edge, 0 <= edge < kRanks ->
             is_local_edge t edge = true /\ mutual_access t edge = true
  | Auto => p = Plan (auto_kind t <$> zrange kRanks)
  | _ => False
  end.
Proof.
  intros Ht. pose proof kRanks_pos. unfold resolve_ring_transport.
  rewrite (proj2 (validate_process_topology_ok t tt) Ht).
  assert (forall f, Forall (fun k => is_resolved_edge_kind k = true) (f <$> zrange kRanks) ->
    forall p, make_plan (f <$> zrange kRanks) = Ok p <-> p = Plan (f <$> zrange kRanks)) as Hmk.
  { intros f Hf q. rewrite make_plan_ok, vec_size_map, vec_size_zrange by lia. tauto. }
  destruct requested; simpl; try done.
  - rewrite resolve_auto_loop by done. simpl. apply Hmk. apply Forall_fmap, Forall_forall.
    intros e He%elem_of_zrange. by apply auto_kind_resolved.
  - unfold uniform. replace (replicate (Z.to_nat kRanks) Shm) with ((fun _ => Shm) <$> zrange kRanks).
    + apply Hmk, Forall_fmap, Forall_true. done.
    + rewrite (const_fmap _ _ Shm) by done. unfold zrange. by rewrite length_seqZ.
  - rewrite bind_ok. setoid_rewrite resolve_p2p_loop; [|done]. split.
    + intros (k & [-> Hall] & Hk). split; [|done]. apply Hmk in Hk; [done|].
      apply Forall_fmap, Forall_true. done.
    + intros [-> Hall]. eexists. split; [by split|]. apply Hmk; [|done].
      apply Forall_fmap, Forall_true. done.
Qed.

Section InterprocessFacts.
Context `{BuildConfig} (rdma_enabled : bool) (node_ids : list Z) (p2p_capable : list bool).

Abbreviation kind_of := (interprocess_kind rdma_enabled node_ids p2p_capable).
Abbreviation resolve := (resolve_interprocess_transports rdma_enabled node_ids p2p_capable).
Abbreviation co_located := (same_host node_ids).
Abbreviation ipc := (capable p2p_capable).

Definition kind_or_shm (requested : TransportKind) (edge : Z) : TransportKind :=
  match kind_of requested edge with Ok k => k | Throw _ => Shm end.

(** The vector is complete: every edge has the kind computed for it. *)
Lemma resolve_interprocess_ok requested kinds :
  resolve requested = Ok kinds <->
  kinds = kind_or_shm requested <$> zrange kRanks /\
  forall edge, 0 <= edge < kRanks -> kind_of requested edge = Ok (kind_or_shm requested edge).
Proof.
  unfold resolve_interprocess_transports, kind_or_shm. split.
  - apply (foldM_write_inv _ (kind_or_shm requested) _ _ (length_replicate _ _)
      (fun e => kind_of requested e = Ok (kind_or_shm requested e))).
    intros e l l' _. unfold kind_or_shm. destruct (kind_of requested e); simpl; [|done].
    by intros [= <-].
  - intros [-> Hall]. apply foldM_write; [apply length_replicate|].
    intros e l He _. rewrite (Hall e He). simpl. by destruct (kind_of requested e).
Qed.

(** When a request can be served. *)
Definition servable (requested : TransportKind) : Prop :=
  match requested with
  | Auto | Socket => True
  | Shm => forall edge, 0 <= edge < kRanks -> co_located edge = true
  | P2p => forall edge, 0 <= edge < kRanks -> co_located edge = true /\ ipc edge = true
  | Rdma => rdma_enabled = true
  | Mixed => False
  end.

Lemma resolve_interprocess_servable requested :
  (exists kinds, resolve requested = Ok kinds) <-> servable requested.
Proof.
  pose proof kRanks_pos. setoid_rewrite resolve_interprocess_ok.
  assert ((exists kinds, kinds = kind_or_shm requested <$> zrange kRanks /\
    forall edge, 0 <= edge < kRanks ->
      kind_of requested edge = Ok (kind_or_shm requested edge)) <->
    forall edge, 0 <= edge < kRanks ->
      kind_of requested edge = Ok (kind_or_shm requested edge)) as ->.
  { split; [by intros (? & ? & ?)|eauto]. }
  unfold kind_or_shm. destruct requested; simpl.
  - by split.
  - apply forall_proper. intros e. destruct (co_located e); simpl; intuition congruence.
  - apply forall_proper. intros e. destruct (co_located e), (ipc e); simpl; intuition congruence.
  - by split.
  - destruct rdma_enabled; [by split|].
    split; [|done]. intros Hall. by specialize (Hall 0 ltac:(lia)).
  - split; [|done]. intros Hall. by specialize (Hall 0 ltac:(lia)).
Qed.

(** What any edge of a resolved ring satisfies. *)
Record edge_sound (requested : TransportKind) (edge : Z) (k : TransportKind) : Prop := {
  es_remote : co_located edge = false -> k = Socket \/ k = Rdma;
  es_p2p : k = P2p -> co_located edge = true /\ ipc edge = true;
  es_shm : k = Shm -> co_located edge = true;
  es_socket : k = Socket -> requested = Auto \/ requested = Socket;
  es_rdma : k = Rdma -> requested = Rdma /\ rdma_enabled = true;
}.

Lemma kind_of_sound requested edge k :
  kind_of requested edge = Ok k -> edge_sound requested edge k.
Proof.
  unfold interprocess_kind.
  destruct requested, (co_located edge) eqn:?, (ipc edge) eqn:?; simpl; try done;
    try (destruct rdma_enabled eqn:?; [|done]); intros [= <-]; split; intuition congruence.
Qed.

Lemma kind_of_resolved requested edge k :
  kind_of requested edge = Ok k -> is_resolved_edge_kind k = true.
Proof.
  unfold interprocess_kind.
  destruct requested, (co_located edge), (ipc edge); simpl; try done;
    try (destruct rdma_enabled; [|done]); by intros [= <-].
Qed.

(** The transport of every ring edge between processes.  A request is
    served exactly when the hosts and the build allow it; the result has one
    resolved kind per edge, memory transports only inside a host, P2P only
    where the IPC probe succeeded, never sockets and RDMA in one ring; and
    the topology every rank builds from it is accepted by
    [validate_process_topology]. *)
Theorem resolve_interprocess_spec requested :
  ((exists kinds, resolve requested = Ok kinds) <-> servable requested) /\
  forall kinds, resolve requested = Ok kinds ->
    vec_size kinds = kRanks /\
    (forall edge k, 0 <= edge -> kinds !! Z.to_nat edge = Some k ->
       edge_sound requested edge k) /\
    ~ (Socket ∈ kinds /\ Rdma ∈ kinds) /\
    forall rank device, 0 <= rank < kRanks ->
      validate_process_topology {|
        global_rank_count := kRanks; local_rank_offset := rank; devices := [device];
        edge_kinds := kinds; distributed := true |} = Ok tt.
Proof.
  pose proof kRanks_pos. split; [apply resolve_interprocess_servable|].
  intros kinds [-> Hall]%resolve_interprocess_ok.
  assert (vec_size (kind_or_shm requested <$> zrange kRanks) = kRanks) as Hsz
    by (rewrite vec_size_map; apply vec_size_zrange; lia).
  assert (forall edge k, 0 <= edge ->
    (kind_or_shm requested <$> zrange kRanks) !! Z.to_nat edge = Some k ->
    kind_of requested edge = Ok k) as Hk.
  { intros edge k He Hl. apply list_lookup_fmap_Some in Hl as (e & -> & Hl).
    apply lookup_seqZ in Hl as [-> ?]. rewrite Z2Nat.id in * by lia. apply Hall. lia. }
  split_and!; [done| |..].
  - intros edge k He Hl. by apply kind_of_sound, Hk.
  - rewrite !list_elem_of_fmap. intros [(e1 & E1 & H1) (e2 & E2 & H2)].
    apply elem_of_zrange in H1, H2.
    pose proof (es_socket _ _ _ (kind_of_sound _ _ _ (Hall e1 H1)) (eq_sym E1)).
    pose proof (es_rdma _ _ _ (kind_of_sound _ _ _ (Hall e2 H2)) (eq_sym E2)).
    intuition congruence.
  - intros rank device Hr. apply validate_process_topology_ok.
    split; cbn -[vec_size]; try done; try (unfold vec_size in *; simpl length; lia).
    apply Forall_fmap, Forall_forall.
    intros e He%elem_of_zrange. eapply kind_of_resolved, Hall, He.
Qed.
End InterprocessFacts.

Section EnableFacts.
Context `{BuildConfig} `{GpuSystem}.

(** When enabling peer access has returned, both directions are enabled
    for every local P2P edge, and nothing that was enabled is lost. *)
Theorem enable_p2p_ring_spec p t enabled enabled' :
  enable_p2p_ring_peer_access_or_throw p t enabled = Ok enabled' ->
  enabled ⊆ enabled' /\
  forall edge, 0 <= edge < kRanks -> edge_kind p edge = Ok P2p -> is_local_edge t edge = true ->
    let s := device_of t edge in let r := device_of t ((edge + 1) mod kRanks) in
    (s, r) ∈ enabled' /\ (r, s) ∈ enabled'.
Proof.
  unfold enable_p2p_ring_peer_access_or_throw.
  intros ([] & Hv & Hf)%bind_ok. apply validate_process_topology_ok in Hv.
  apply (foldM_inv _ (fun past en => enabled ⊆ en /\ forall edge, edge ∈ past ->
    edge_kind p edge = Ok P2p -> is_local_edge t edge = true ->
    (device_of t edge, device_of t ((edge + 1) mod kRanks)) ∈ en /\
    (device_of t ((edge + 1) mod kRanks), device_of t edge) ∈ en)) in Hf as [Hsub Hall].
  - split; [done|]. intros edge He. by apply Hall, elem_of_zrange.
  - split; [done|]. by intros edge ?%elem_of_nil.
  - intros past e rest en en' Hz [Hsub Hall] He. unfold enable_p2p_edge in He.
    destruct (edge_kind p e) as [k|] eqn:Ek; simpl in He; [|done].
    destruct (bool_decide (k = P2p)) eqn:Ekb, (is_local_edge t e) eqn:El; simpl in He.
    2-4: injection He as <-; split; [done|]; intros e' [?| ->]%elem_of_snoc Hk' Hl';
      [by apply Hall|]; rewrite Hk' in Ek; injection Ek as <-;
      first [congruence | by rewrite bool_decide_true in Ekb].
    destruct (local_edge_devices t Hv e El) as [E1 E2]. rewrite E1, E2 in He. simpl in He.
    apply bind_ok in He as (en1 & H1 & H2).
    apply enable_peer_access_ok in H1 as ->. apply enable_peer_access_ok in H2 as ->.
    split; [set_solver|].
    intros e' [Hin| ->]%elem_of_snoc Hk' Hl'; [|set_solver].
    destruct (Hall e' Hin Hk' Hl'). set_solver.
Qed.
End EnableFacts.

Module TopologyWitness.
#[local] Existing Instance small_config.

(** Three GPUs that can all access each other; only 0 and 1 share an NVLink. *)
Definition bus_id (device : Z) : string :=
  if device =? 0 then "00000000:0A:00.0" else if device =? 1 then "00000000:1B:00.0"
  else "00000000:2C:00.0".
#[local] Instance three_gpus : GpuSystem := {|
  nvml_initialized := true;
  gpu_pci_bus_id d := Some (bus_id d);
  nvml_handle s := if decide (s = bus_id 0) then Some 0 else
                   if decide (s = bus_id 1) then Some 1 else Some 2;
  NVML_NVLINK_MAX_LINKS := 2;
  nvlink_enabled d link := Some (negb (d =? 2) && (link =? 1)%nat);
  nvlink_remote d _ := Some (if d =? 0 then "0000:1b:00.0" else "0000:0a:00.0");
  can_access_peer _ _ := Some true;
  set_device_error _ := None;
  enable_peer_error _ _ := None |}.

Definition local3 : ProcessTopology := {|
  global_rank_count := 3; local_rank_offset := 0; devices := [0; 1; 2];
  edge_kinds := [Shm; Shm; Shm]; distributed := false |}.

Lemma local3_valid : valid_topology local3.
Proof. by apply (validate_process_topology_ok local3 tt). Qed.

Lemma resolve_ring_transport_spec_witness :
  resolve_ring_transport Auto local3 = Ok (Plan [P2p; Shm; Shm]) /\
  resolve_ring_transport P2p local3 = Ok (Plan [P2p; P2p; P2p]).
Proof.
  split.
  - by apply (resolve_ring_transport_spec local3 Auto _ local3_valid).
  - apply (resolve_ring_transport_spec local3 P2p _ local3_valid).
    split; [done|]. intros edge He. simpl in He.
    assert (edge = 0 \/ edge = 1 \/ edge = 2) as [->|[->| ->]] by lia; by vm_compute.
Defined.

Lemma enable_p2p_ring_spec_witness :
  exists enabled, enable_p2p_ring_peer_access_or_throw (Plan [P2p; Shm; P2p]) local3 ∅ = Ok enabled
    /\ (2, 0) ∈ enabled.
Proof.
  eexists. split; [reflexivity|].
  refine (proj1 (proj2 (enable_p2p_ring_spec (Plan [P2p; Shm; P2p]) local3 ∅ _ eq_refl)
    2 _ eq_refl eq_refl)). simpl. lia.
Defined.
End TopologyWitness.
