(* ===== verification/Control.v ===== *)
(** * Control words, FIFO storage and how they are wired into a ring

    src/transport/shm/shm_fifo.h (step counters of one process),
    src/transport/p2p/p2p_step_counters.cu and p2p_fifo.cu (counters and FIFOs
    in device memory), src/transport/simple/connection.h (layout of a shared
    connection region), src/transport/connection.h (merging), the views built
    at the end of src/transport/shm/mpi_shm.cc and src/transport/p2p/mpi_p2p.cc,
    and the pointer selection of [launch_ring_simple] in communicator.cu.

    A pointer is an allocation and a byte offset, [None] is [nullptr].  Shared
    memory mapped by two processes is one allocation. *)

From Stdlib Require Import ZArith Lia.
From stdpp Require Import base option numbers tactics strings list pretty.
From S2P Require Import Prelude Types Geometry Topology.

#[local] Open Scope Z_scope.

(** ** Pointers *)

Record loc := Loc { l_block : Z; l_off : Z }.
Definition ptr := option loc.

#[export] Instance loc_eq_dec : EqDecision loc.
Proof. solve_decision. Defined.

(** [p + n] on [uint64_t*] and on bytes. *)
Definition byte_add (p : ptr) (n : Z) : ptr := (fun l => Loc (l_block l) (l_off l + n)) <$> p.
Definition word_add (p : ptr) (n : Z) : ptr := byte_add p (8 * n).

(** Ranges of [n1] and [n2] bytes do not meet. *)
Definition disjoint_ranges (p1 : ptr) (n1 : Z) (p2 : ptr) (n2 : Z) : Prop :=
  match p1, p2 with
  | Some a, Some b => l_block a <> l_block b \/ l_off a + n1 <= l_off b \/ l_off b + n2 <= l_off a
  | _, _ => True
  end.

(** ** What a kernel is given for one channel *)

Record ends := Ends {
  send_fifo : ptr; send_head : ptr; send_tail : ptr;
  recv_fifo : ptr; recv_head : ptr; recv_tail : ptr }.

Definition no_ends : ends := Ends None None None None None None.

(** [ControlArgs]; the arrays over channels are functions. *)
Record ControlArgs := {
  ca_send_head : Z -> ptr; ca_recv_tail : Z -> ptr;
  ca_send_tail : Z -> ptr; ca_recv_head : Z -> ptr;
  send_base_steps : ptr; recv_base_steps : ptr }.

Definition no_control : ControlArgs := {|
  ca_send_head _ := None; ca_recv_tail _ := None; ca_send_tail _ := None;
  ca_recv_head _ := None; send_base_steps := None; recv_base_steps := None |}.

(** The interface between the storage and the ring protocol of Ring.v, which
    gives every edge and channel one FIFO, one head and one tail: for the edges
    [on] the two ends of an edge hold the same non-null pointers, and storage of
    different edges or channels never overlaps. *)
Class RingWired `{BuildConfig} (on : Z -> bool) (fifo_bytes : Z) (w : Z -> Z -> ends) : Prop := {
  rw_agree e c : 0 <= e < kRanks -> on e = true -> 0 <= c < kChannels ->
    let s := w e c in let r := w ((e + 1) mod kRanks) c in
    send_fifo s = recv_fifo r /\ send_head s = recv_head r /\ send_tail s = recv_tail r /\
    is_Some (send_fifo s) /\ is_Some (send_head s) /\ is_Some (send_tail s);
  rw_apart e c e' c' : 0 <= e < kRanks -> on e = true -> 0 <= c < kChannels ->
    0 <= e' < kRanks -> on e' = true -> 0 <= c' < kChannels -> (e, c) <> (e', c') ->
    let s := w e c in let s' := w e' c' in
    disjoint_ranges (send_fifo s) fifo_bytes (send_fifo s') fifo_bytes /\
    disjoint_ranges (send_head s) 8 (send_head s') 8 /\
    disjoint_ranges (send_tail s) 8 (send_tail s') 8;
  rw_control e c e' c' : 0 <= e < kRanks -> on e = true -> 0 <= c < kChannels ->
    0 <= e' < kRanks -> on e' = true -> 0 <= c' < kChannels ->
    let s := w e c in let s' := w e' c' in
    disjoint_ranges (send_head s) 8 (send_tail s') 8 /\
    disjoint_ranges (send_head s) 8 (send_fifo s') fifo_bytes /\
    disjoint_ranges (send_tail s) 8 (send_fifo s') fifo_bytes;
}.

Section Control.
Context `{BuildConfig}.

(** ** Step counters of one process: shm_fifo.h *)

Definition step_idx (kind channel edge : Z) : Z := (kind * kChannels + channel) * kRanks + edge.

Definition make_simple_control_args (steps base_steps : ptr) (rank : Z) : ControlArgs :=
  let send_edge := rank in
  let recv_edge := (rank + kRanks - 1) mod kRanks in
  {| ca_send_head channel := word_add steps (step_idx 0 channel send_edge);
     ca_recv_tail channel := word_add steps (step_idx 1 channel recv_edge);
     ca_send_tail channel := word_add steps (step_idx 1 channel send_edge);
     ca_recv_head channel := word_add steps (step_idx 0 channel recv_edge);
     send_base_steps := word_add base_steps (rank * kChannels);
     recv_base_steps := word_add base_steps ((kRanks + rank) * kChannels) |}.

(** ** Counters in device memory: P2pStepCounters *)

Definition kHeadOffset : Z := 0.
Definition kTailOffset : Z := kChannels.
Definition kSendBaseStepOffset : Z := 2 * kChannels.
Definition kRecvBaseStepOffset : Z := 3 * kChannels.

(** The buffers the constructor allocates: [4 * kChannels] words for a local
    rank with a P2P edge; [alloc] is the allocation made for a rank. *)
Definition p2p_step_counters (plan : RingTransportPlan) (t : ProcessTopology)
    (alloc : Z -> Z) : res (Z -> ptr) :=
  validate_process_topology t ;;
  foldM (fun local_rank counters =>
    let global_rank := local_rank_offset t + local_rank in
    let prev := (global_rank + kRanks - 1) mod kRanks in
    send_kind ← edge_kind plan global_rank;
    (if bool_decide (send_kind = P2p)
     then Ok (upd counters global_rank (Some (Loc (alloc global_rank) 0)))
     else recv_kind ← edge_kind plan prev;
          if bool_decide (recv_kind = P2p)
          then Ok (upd counters global_rank (Some (Loc (alloc global_rank) 0)))
          else Ok counters))
    (zrange (vec_size (devices t))) (fun _ => None).

(** [control_args]; an edge of another kind leaves null pointers. *)
Definition p2p_control_args (plan : RingTransportPlan) (counters : Z -> ptr) (rank : Z) :
    res ControlArgs :=
  let prev := (rank + kRanks - 1) mod kRanks in
  let next := (rank + 1) mod kRanks in
  send_kind ← edge_kind plan rank;
  recv_kind ← edge_kind plan prev;
  let on (kind : TransportKind) (p : ptr) : ptr := if bool_decide (kind = P2p) then p else None in
  Ok {| ca_send_head channel := on send_kind (word_add (counters rank) (kHeadOffset + channel));
        ca_send_tail channel := on send_kind (word_add (counters next) (kTailOffset + channel));
        ca_recv_tail channel := on recv_kind (word_add (counters rank) (kTailOffset + channel));
        ca_recv_head channel := on recv_kind (word_add (counters prev) (kHeadOffset + channel));
        send_base_steps := word_add (counters rank) kSendBaseStepOffset;
        recv_base_steps := word_add (counters rank) kRecvBaseStepOffset |}.

(** FIFO buffers of the P2P edges, [kFifoSteps * slot_elems] elements each. *)
Definition p2p_fifo_one (plan : RingTransportPlan) (t : ProcessTopology)
    (alloc : Z -> Z -> Z) (channel edge : Z) (buffers : Z -> Z -> ptr) : res (Z -> Z -> ptr) :=
  kind ← edge_kind plan edge;
  if negb (bool_decide (kind = P2p)) then Ok buffers else
  let receiver_global_rank := (edge + 1) mod kRanks in
  if negb (is_local_global_rank t edge) || negb (is_local_global_rank t receiver_global_rank)
  then Throw (RuntimeError "P2pFifo requires local p2p edges") else
  receiver_local_rank ← local_rank_for_global_rank t receiver_global_rank;
  Ok (upd buffers channel (upd (buffers channel) edge (Some (Loc (alloc channel edge) 0)))).

Definition p2p_fifo (plan : RingTransportPlan) (t : ProcessTopology) (alloc : Z -> Z -> Z) :
    res (Z -> Z -> ptr) :=
  validate_process_topology t ;;
  foldM (fun channel buffers =>
    foldM (fun edge => p2p_fifo_one plan t alloc channel edge) (zrange kRanks) buffers)
    (zrange kChannels) (fun _ _ => None).

Definition edge_ptr (buffers : Z -> Z -> ptr) (channel edge : Z) : res ptr :=
  match buffers channel edge with
  | None => Throw (RuntimeError ("P2pFifo requested SHM edge " +:+ pretty edge))
  | p => Ok p
  end.

(** ** Connection regions: simple/connection.h *)

Definition kConnectionControlBytes : Z := 2 * kChannels * 8.
Definition kConnectionDataOffset : Z := (kConnectionControlBytes + 255) / 256 * 256.
Definition kConnectionRegionBytes : Z := kConnectionDataOffset + kChannels * kFifoBytes.

Definition connection_head (region : ptr) (channel : Z) : ptr := word_add region channel.
Definition connection_tail (region : ptr) (channel : Z) : ptr :=
  word_add region (kChannels + channel).
Definition connection_fifo (region : ptr) (channel : Z) : ptr :=
  byte_add region (kConnectionDataOffset + channel * kFifoBytes).

(** The view [create_mpi_shm_connections] and [create_mpi_p2p_connections]
    build for their kind, once the setup has succeeded everywhere: the
    receiver of an edge owns the region, the sender maps the region of its
    receiver.  [region r] is the allocation rank [r] shares. *)
Definition connection_view (kind : TransportKind) (region : Z -> Z)
    (kinds : list TransportKind) (global_rank channel : Z) : ends :=
  let incoming_edge := (global_rank + kRanks - 1) mod kRanks in
  let receiver := (global_rank + 1) mod kRanks in
  let has_incoming := bool_decide (kinds !! Z.to_nat incoming_edge = Some kind) in
  let has_outgoing := bool_decide (kinds !! Z.to_nat global_rank = Some kind) in
  let own := Some (Loc (region global_rank) 0) in
  let peer := Some (Loc (region receiver) 0) in
  let incoming (p : ptr) := if has_incoming then p else None in
  let outgoing (p : ptr) := if has_outgoing then p else None in
  Ends (outgoing (connection_fifo peer channel)) (outgoing (connection_head peer channel))
    (outgoing (connection_tail peer channel)) (incoming (connection_fifo own channel))
    (incoming (connection_head own channel)) (incoming (connection_tail own channel)).

(** [merge_connection_resources] on one channel. *)
Definition merge_channel (dst src : ends) : res ends :=
  d ← (match send_fifo src with
       | None => Ok dst
       | Some _ => match send_fifo dst with
                   | Some _ => Throw (LogicError
                       "multiple transports published one Simple send connection")
                   | None => Ok (Ends (send_fifo src) (send_head src) (send_tail src)
                                   (recv_fifo dst) (recv_head dst) (recv_tail dst))
                   end
       end);
  match recv_fifo src with
  | None => Ok d
  | Some _ => match recv_fifo d with
              | Some _ => Throw (LogicError
                  "multiple transports published one Simple receive connection")
              | None => Ok (Ends (send_fifo d) (send_head d) (send_tail d)
                              (recv_fifo src) (recv_head src) (recv_tail src))
              end
  end.

Definition merge_connection_resources (dst src : Z -> ends) : res (Z -> ends) :=
  foldM (fun channel acc => m ← merge_channel (acc channel) (src channel);
                            Ok (upd acc channel m)) (zrange kChannels) dst.

(** ** Pointers of a launch: [launch_ring_simple] *)

(** FIFO and control words of one socket or RDMA end. *)
Record net_resources := Net { net_fifo : ptr; net_control : ptr }.

Record launch_storage := {
  ls_plan : RingTransportPlan;
  ls_rdma_enabled : bool;                        (* NANO_NCCL_ENABLE_RDMA *)
  ls_socket_send : Z -> Z -> net_resources;      (* channel, edge *)
  ls_socket_recv : Z -> Z -> net_resources;
  ls_rdma_send : Z -> Z -> net_resources;
  ls_rdma_recv : Z -> Z -> net_resources;
  ls_view : Z -> ends;                           (* transport_connections_.view *)
  ls_shm_fifo : Z -> Z -> ptr;
  ls_p2p_fifo : Z -> Z -> ptr;
  ls_shm_control : ControlArgs;
  ls_p2p_control : ControlArgs;
}.

Definition is_memory (k : TransportKind) : bool :=
  match k with Shm | P2p => true | _ => false end.
Definition not_null (p : ptr) : bool := match p with Some _ => true | None => false end.

(** FIFO, head and tail of the sending side. *)
Definition send_end (ls : launch_storage) (kind : TransportKind) (edge channel : Z) :
    res (ptr * ptr * ptr) :=
  let net n := (net_fifo n, net_control n, word_add (net_control n) 1) in
  let v := ls_view ls channel in
  if bool_decide (kind = Socket) then Ok (net (ls_socket_send ls channel edge))
  else if ls_rdma_enabled ls && bool_decide (kind = Rdma)
  then Ok (net (ls_rdma_send ls channel edge))
  else if is_memory kind && not_null (send_fifo v)
  then Ok (send_fifo v, send_head v, send_tail v)
  else if bool_decide (kind = P2p)
  then fifo ← edge_ptr (ls_p2p_fifo ls) channel edge;
       Ok (fifo, ca_send_head (ls_p2p_control ls) channel, ca_send_tail (ls_p2p_control ls) channel)
  else Ok (ls_shm_fifo ls channel edge, ca_send_head (ls_shm_control ls) channel,
           ca_send_tail (ls_shm_control ls) channel).

Definition recv_end (ls : launch_storage) (kind : TransportKind) (edge channel : Z) :
    res (ptr * ptr * ptr) :=
  let net n := (net_fifo n, net_control n, word_add (net_control n) 1) in
  let v := ls_view ls channel in
  if bool_decide (kind = Socket) then Ok (net (ls_socket_recv ls channel edge))
  else if ls_rdma_enabled ls && bool_decide (kind = Rdma)
  then Ok (net (ls_rdma_recv ls channel edge))
  else if is_memory kind && not_null (recv_fifo v)
  then Ok (recv_fifo v, recv_head v, recv_tail v)
  else if bool_decide (kind = P2p)
  then fifo ← edge_ptr (ls_p2p_fifo ls) channel edge;
       Ok (fifo, ca_recv_head (ls_p2p_control ls) channel, ca_recv_tail (ls_p2p_control ls) channel)
  else Ok (ls_shm_fifo ls channel edge, ca_recv_head (ls_shm_control ls) channel,
           ca_recv_tail (ls_shm_control ls) channel).

Definition kernel_ends (ls : launch_storage) (global_rank channel : Z) : res ends :=
  let next := (global_rank + 1) mod kRanks in
  let previous := (global_rank + kRanks - 1) mod kRanks in
  let send_edge := ring_edge_index global_rank next kRanks in
  let recv_edge := ring_edge_index previous global_rank kRanks in
  if (send_edge <? 0) || (recv_edge <? 0)
  then Throw (RuntimeError "ring_simple saw an unexpected ring edge") else
  send_kind ← edge_kind (ls_plan ls) send_edge;
  recv_kind ← edge_kind (ls_plan ls) recv_edge;
  '(sf, sh, st) ← send_end ls send_kind send_edge channel;
  '(rf, rh, rt) ← recv_end ls recv_kind recv_edge channel;
  Ok (Ends sf sh st rf rh rt).
End Control.

(** ** Facts *)

Section ControlFacts.
Context `{BuildConfig}.

Lemma idx_inj n a b a' b' : 0 <= b < n -> 0 <= b' < n -> a * n + b = a' * n + b' ->
  a = a' /\ b = b'.
Proof. intros Hb Hb' E. apply (Z.div_mod_unique n); [by left|by left|lia]. Qed.

Lemma step_idx_inj k c e k' c' e' :
  0 <= c < kChannels -> 0 <= c' < kChannels -> 0 <= e < kRanks -> 0 <= e' < kRanks ->
  step_idx k c e = step_idx k' c' e' -> k = k' /\ c = c' /\ e = e'.
Proof.
  intros Hc Hc' He He' E. unfold step_idx in E.
  apply idx_inj in E as [E ->]; [|done..]. apply idx_inj in E as [-> ->]; done.
Qed.

Lemma step_idx_range k c e : 0 <= k < 2 -> 0 <= c < kChannels -> 0 <= e < kRanks ->
  0 <= step_idx k c e < 2 * kChannels * kRanks.
Proof.
  intros Hk Hc He. unfold step_idx.
  assert (0 <= k * kChannels + c <= 2 * kChannels - 1) as Hq.
  { assert (k = 0 \/ k = 1) as [-> | ->] by lia; lia. }
  revert Hq. generalize (k * kChannels + c) as q. intros q Hq. nia.
Qed.

Lemma prev_of_next r : 0 <= r < kRanks -> ((r + 1) mod kRanks + kRanks - 1) mod kRanks = r.
Proof.
  intros Hr. pose proof kRanks_pos. pose proof (Z.div_mod (r + 1) kRanks).
  apply mod_unique; [done|]. exists (1 - (r + 1) / kRanks). lia.
Qed.

Lemma ring_edges r : 0 <= r < kRanks ->
  ring_edge_index r ((r + 1) mod kRanks) kRanks = r /\
  ring_edge_index ((r + kRanks - 1) mod kRanks) r kRanks = (r + kRanks - 1) mod kRanks.
Proof.
  intros Hr. unfold ring_edge_index. rewrite Z.eqb_refl. split; [done|].
  destruct (Z.eqb_spec r (((r + kRanks - 1) mod kRanks + 1) mod kRanks)) as [|Hne]; [done|].
  exfalso. apply Hne. pose proof kRanks_pos. pose proof (Z.div_mod (r + kRanks - 1) kRanks).
  symmetry. apply mod_unique; [done|]. exists (1 - (r + kRanks - 1) / kRanks). lia.
Qed.

Lemma byte_add_apart p n1 n2 w1 w2 : n1 + w1 <= n2 \/ n2 + w2 <= n1 ->
  disjoint_ranges (byte_add p n1) w1 (byte_add p n2) w2.
Proof. intros Hd. destruct p; simpl; [|done]. right. lia. Qed.

Lemma word_add_apart p i j : i <> j -> disjoint_ranges (word_add p i) 8 (word_add p j) 8.
Proof. intros Hij. apply byte_add_apart. lia. Qed.

Lemma block_apart b b' o o' n n' : b <> b' ->
  disjoint_ranges (Some (Loc b o)) n (Some (Loc b' o')) n'.
Proof. intros Hb. by left. Qed.

(** *** Regions *)

Lemma data_offset_control : kConnectionControlBytes <= kConnectionDataOffset.
Proof. unfold kConnectionDataOffset. zdiv. Qed.

Lemma region_apart region c c' : 0 <= c < kChannels -> 0 <= c' < kChannels ->
  let head := connection_head region in let tail := connection_tail region in
  let fifo := connection_fifo region in
  (c <> c' -> disjoint_ranges (fifo c) kFifoBytes (fifo c') kFifoBytes /\
              disjoint_ranges (head c) 8 (head c') 8 /\
              disjoint_ranges (tail c) 8 (tail c') 8) /\
  disjoint_ranges (head c) 8 (tail c') 8 /\
  disjoint_ranges (head c) 8 (fifo c') kFifoBytes /\
  disjoint_ranges (tail c) 8 (fifo c') kFifoBytes.
Proof.
  intros Hc Hc'. pose proof data_offset_control as Hd. pose proof kFifoBytes_pos.
  unfold kConnectionControlBytes in Hd. simpl.
  unfold connection_head, connection_tail, connection_fifo, word_add.
  split_and!; [intros Hne; split_and!|..]; apply byte_add_apart; nia.
Qed.
End ControlFacts.

(** ** Rings of processes on one host *)

Section Views.
Context `{BuildConfig}.

(** The connections of one process: shared memory merged with CUDA IPC, as in
    [create_communicator_from_mpi]. *)
Definition process_view (shm_region p2p_region : Z -> Z) (kinds : list TransportKind)
    (rank : Z) : res (Z -> ends) :=
  v ← merge_connection_resources (fun _ => no_ends) (connection_view Shm shm_region kinds rank);
  merge_connection_resources v (connection_view P2p p2p_region kinds rank).

(** What merging two channels gives when both may be merged. *)
Definition overlay (d s : ends) : ends :=
  let pick (p q : ptr) (b : bool) := if b then q else p in
  let bs := not_null (send_fifo s) in let br := not_null (recv_fifo s) in
  Ends (pick (send_fifo d) (send_fifo s) bs) (pick (send_head d) (send_head s) bs)
    (pick (send_tail d) (send_tail s) bs) (pick (recv_fifo d) (recv_fifo s) br)
    (pick (recv_head d) (recv_head s) br) (pick (recv_tail d) (recv_tail s) br).

Definition mergeable (d s : ends) : Prop :=
  (send_fifo s = None \/ send_fifo d = None) /\ (recv_fifo s = None \/ recv_fifo d = None).

Lemma merge_channel_ok d s : mergeable d s -> merge_channel d s = Ok (overlay d s).
Proof.
  intros [Hs Hr]. unfold merge_channel, overlay.
  destruct d as [dsf dsh dst drf drh drt], s as [ssf ssh sst srf srh srt]. simpl in *.
  destruct ssf, srf, dsf, drf; simpl; try done; by destruct Hs, Hr.
Qed.

Lemma merge_ok dst src : (forall c, 0 <= c < kChannels -> mergeable (dst c) (src c)) ->
  exists m, merge_connection_resources dst src = Ok m /\
    forall c, 0 <= c < kChannels -> m c = overlay (dst c) (src c).
Proof.
  intros Hm. unfold merge_connection_resources.
  destruct (foldM_ok (fun channel acc => m ← merge_channel (acc channel) (src channel);
              Ok (upd acc channel m))
    (fun past acc => forall c, acc c = if bool_decide (c ∈ past) then overlay (dst c) (src c) else dst c)
    (zrange kChannels) dst) as (m & -> & HI).
  - intros c. rewrite bool_decide_false; [done|]. by intros ?%elem_of_nil.
  - intros past c rest acc Hz HI. destruct (zrange_split _ _ _ _ Hz) as (Hp & Hc & _).
    assert (acc c = dst c) as Hacc.
    { rewrite HI, bool_decide_false; [done|]. rewrite Hp, elem_of_zrange. lia. }
    rewrite Hacc, merge_channel_ok by by apply Hm. simpl. eexists. split; [done|]. intros c'.
    destruct (decide (c' = c)) as [->|Hne].
    + rewrite upd_eq, bool_decide_true; [done|]. apply elem_of_snoc. by right.
    + rewrite upd_ne, HI by done.
      erewrite bool_decide_ext; [done|]. rewrite elem_of_snoc. tauto.
  - eexists. split; [done|]. intros c Hc. rewrite HI, bool_decide_true; [done|]. by apply elem_of_zrange.
Qed.

Context (shm_region p2p_region : Z -> Z) (kinds : list TransportKind).
Context (Hkinds : vec_size kinds = kRanks).
(** The regions of different ranks and transports are different allocations. *)
Context (Hshm : forall r r', shm_region r = shm_region r' -> r = r').
Context (Hp2p : forall r r', p2p_region r = p2p_region r' -> r = r').
Context (Hmix : forall r r', shm_region r <> p2p_region r').

Abbreviation next r := ((r + 1) mod kRanks).
Abbreviation prev r := ((r + kRanks - 1) mod kRanks).
Abbreviation kind_at e := (kinds !! Z.to_nat e).

Definition memory_edge (e : Z) : bool :=
  match kind_at e with Some k => is_memory k | None => false end.

(** The region of an edge belongs to its receiver. *)
Definition edge_region (e : Z) : ptr :=
  match kind_at e with
  | Some Shm => Some (Loc (shm_region (next e)) 0)
  | Some P2p => Some (Loc (p2p_region (next e)) 0)
  | _ => None
  end.

Definition edge_ends (r c : Z) : ends :=
  Ends (connection_fifo (edge_region r) c) (connection_head (edge_region r) c)
    (connection_tail (edge_region r) c) (connection_fifo (edge_region (prev r)) c)
    (connection_head (edge_region (prev r)) c) (connection_tail (edge_region (prev r)) c).

Lemma ring_next_prev r : 0 <= r < kRanks -> next (prev r) = r.
Proof.
  intros Hr. pose proof (proj2 (ring_edges r Hr)) as E. unfold ring_edge_index in E.
  destruct (Z.eqb_spec r (next (prev r))) as [<-|]; [done|].
  pose proof (Z.mod_pos_bound (r + kRanks - 1) kRanks kRanks_pos). lia.
Qed.

(** Merging shared memory into nothing, and CUDA IPC into the result. *)
Lemma merge_shm r src : (forall c, src c = connection_view Shm shm_region kinds r c) ->
  exists v, merge_connection_resources (fun _ => no_ends) src = Ok v /\
    forall c, 0 <= c < kChannels -> v c = overlay no_ends (connection_view Shm shm_region kinds r c).
Proof.
  intros Hs. destruct (merge_ok (fun _ => no_ends) src) as (v & -> & Hv).
  { intros c _. split; by right. }
  exists v. split; [done|]. intros c Hc. by rewrite Hv, Hs.
Qed.

Lemma merge_p2p r v1 src : 0 <= r < kRanks ->
  (forall c, 0 <= c < kChannels -> v1 c = overlay no_ends (connection_view Shm shm_region kinds r c)) ->
  (forall c, src c = connection_view P2p p2p_region kinds r c) ->
  exists v, merge_connection_resources v1 src = Ok v /\
    forall c, 0 <= c < kChannels -> v c = edge_ends r c.
Proof.
  intros Hr H1 Hsrc. destruct (merge_ok v1 src) as (v & -> & H2).
  - intros c Hc. rewrite H1, Hsrc by done. unfold connection_view, overlay, no_ends, mergeable.
    cbn [send_fifo recv_fifo]. split.
    + destruct (decide (kind_at r = Some P2p)) as [E|];
        [right; rewrite E; by rewrite bool_decide_false|left; by rewrite bool_decide_false].
    + destruct (decide (kind_at (prev r) = Some P2p)) as [E|];
        [right; rewrite E; by rewrite bool_decide_false|left; by rewrite bool_decide_false].
  - eexists. split; [done|]. intros c Hc. rewrite H2, H1, Hsrc by done.
    unfold connection_view, overlay, no_ends, edge_ends, edge_region.
    cbn [send_fifo recv_fifo send_head send_tail recv_head recv_tail]. rewrite (ring_next_prev r Hr).
    assert (forall k : option TransportKind, k = Some Shm \/ k = Some P2p \/
      (bool_decide (k = Some Shm) = false /\ bool_decide (k = Some P2p) = false /\
       forall A (x y z : A), match k with Some Shm => x | Some P2p => y | _ => z end = z)) as Hcase.
    { intros [[]|]; auto; right; right; done. }
    destruct (Hcase (kind_at r)) as [->|[->|(-> & -> & Hd)]],
      (Hcase (kind_at (prev r))) as [->|[->|(-> & -> & Hd')]]; rewrite ?Hd, ?Hd'; reflexivity.
Qed.

(** The merged view of a process is the region of each of its two edges. *)
Lemma process_view_ok r : 0 <= r < kRanks ->
  exists v, process_view shm_region p2p_region kinds r = Ok v /\
    forall c, 0 <= c < kChannels -> v c = edge_ends r c.
Proof.
  intros Hr. unfold process_view.
  destruct (merge_shm r (connection_view Shm shm_region kinds r)) as (v1 & -> & H1); [done|].
  simpl. by apply merge_p2p.
Qed.

Lemma region_is_memory e : memory_edge e = true <-> is_Some (edge_region e).
Proof.
  unfold memory_edge, edge_region. split.
  - destruct (kind_at e) as [[]|]; simpl; intros ?; try done; eauto.
  - intros [? E]. by destruct (kind_at e) as [[]|].
Qed.

Lemma regions_apart e e' : 0 <= e < kRanks -> 0 <= e' < kRanks -> e <> e' ->
  forall l l', edge_region e = Some l -> edge_region e' = Some l' -> l_block l <> l_block l'.
Proof.
  intros He He' Hne l l'. assert (next e <> next e') as Hn.
  { intros E. apply Hne. rewrite <- (prev_of_next e He), <- (prev_of_next e' He'). by rewrite E. }
  unfold edge_region.
  destruct (kind_at e) as [[]|], (kind_at e') as [[]|]; try done; intros [= <-] [= <-]; simpl; eauto.
Qed.

Lemma apart_blocks p p' n n' :
  (forall l l', p = Some l -> p' = Some l' -> l_block l <> l_block l') -> disjoint_ranges p n p' n'.
Proof. intros Hb. destruct p, p'; simpl; auto. Qed.

Lemma byte_add_block p n l : byte_add p n = Some l -> exists l0, p = Some l0 /\ l_block l0 = l_block l.
Proof. destruct p as [l0|]; [|done]. intros [= <-]. eauto. Qed.

Lemma far_apart e e' n m i j : 0 <= e < kRanks -> 0 <= e' < kRanks -> e <> e' ->
  disjoint_ranges (byte_add (edge_region e) i) n (byte_add (edge_region e') j) m.
Proof.
  intros He He' Hne. apply apart_blocks.
  intros l l' (l0 & E & <-)%byte_add_block (l1 & E' & <-)%byte_add_block.
  by eapply (regions_apart e e').
Qed.

#[export] Instance edge_ends_wired : RingWired memory_edge kFifoBytes edge_ends.
Proof.
  split.
  - intros e c He Hon Hc. simpl. rewrite (prev_of_next e He).
    destruct (proj1 (region_is_memory e) Hon) as [l ->]. split_and!; try done; eauto.
  - intros e c e' c' He _ Hc He' _ Hc' Hne. simpl.
    destruct (decide (e = e')) as [<-|Hee].
    + apply region_apart; [done|done|congruence].
    + split_and!; by apply far_apart.
  - intros e c e' c' He _ Hc He' _ Hc'. simpl.
    destruct (decide (e = e')) as [<-|Hee].
    + by apply region_apart.
    + split_and!; by apply far_apart.
Qed.

(** The launch picks these regions for memory edges. *)
Lemma kernel_ends_memory ls r c : 0 <= r < kRanks -> 0 <= c < kChannels ->
  ls_plan ls = Plan kinds -> ls_view ls c = edge_ends r c ->
  exists w, kernel_ends ls r c = Ok w /\
    (memory_edge r = true -> send_fifo w = send_fifo (edge_ends r c) /\
       send_head w = send_head (edge_ends r c) /\ send_tail w = send_tail (edge_ends r c)) /\
    (memory_edge (prev r) = true -> recv_fifo w = recv_fifo (edge_ends r c) /\
       recv_head w = recv_head (edge_ends r c) /\ recv_tail w = recv_tail (edge_ends r c)).
Proof.
  intros Hr Hc Hp Hv. unfold kernel_ends. destruct (ring_edges r Hr) as [-> ->].
  pose proof (Z.mod_pos_bound (r + kRanks - 1) kRanks kRanks_pos) as Hprev.
  rewrite !(proj2 (Z.ltb_ge _ _)) by lia. rewrite Hp. cbn [orb].
  destruct (edge_kind_ok kinds r ltac:(rewrite Hkinds; lia)) as (ks & -> & Es).
  destruct (edge_kind_ok kinds (prev r) ltac:(rewrite Hkinds; lia)) as (kr & -> & Er).
  cbn [mbind res_bind].
  assert (exists sf sh st, send_end ls ks r c = Ok (sf, sh, st) /\ (memory_edge r = true ->
    sf = send_fifo (edge_ends r c) /\ sh = send_head (edge_ends r c) /\
    st = send_tail (edge_ends r c))) as (sf & sh & st & -> & Hs).
  { unfold send_end, memory_edge. rewrite Hv, Es. unfold edge_ends, edge_region.
    cbn [send_fifo send_head send_tail]. rewrite Es.
    destruct ks, (ls_rdma_enabled ls); simpl; do 3 eexists; split; try reflexivity; done. }
  cbn [mbind res_bind].
  assert (exists rf rh rt, recv_end ls kr (prev r) c = Ok (rf, rh, rt) /\
    (memory_edge (prev r) = true ->
    rf = recv_fifo (edge_ends r c) /\ rh = recv_head (edge_ends r c) /\
    rt = recv_tail (edge_ends r c))) as (rf & rh & rt & -> & Hrr).
  { unfold recv_end, memory_edge. rewrite Hv, Er. unfold edge_ends, edge_region.
    cbn [recv_fifo recv_head recv_tail]. rewrite Er.
    destruct kr, (ls_rdma_enabled ls); simpl; do 3 eexists; split; try reflexivity; done. }
  eexists. split; [done|]. by split.
Qed.
End Views.

(** What every process passes to its kernel; a throw leaves nothing. *)
Definition launched `{BuildConfig} (storage : Z -> launch_storage) (r c : Z) : ends :=
  match kernel_ends (storage r) r c with Ok w => w | Throw _ => no_ends end.

(** C14: Rings over shared memory and CUDA IPC are wired correctly: in every
    process merging the transports succeeds, and the pointers the launches hand
    to the kernels satisfy the storage interface of the ring protocol on every
    memory edge: both ends of an edge use the same FIFO, head and tail, and no
    two of these overlap. *)
Theorem memory_ring_wired `{BuildConfig} shm_region p2p_region kinds storage :
  vec_size kinds = kRanks ->
  (forall r r', shm_region r = shm_region r' -> r = r') ->
  (forall r r', p2p_region r = p2p_region r' -> r = r') ->
  (forall r r', shm_region r <> p2p_region r') ->
  (forall r, 0 <= r < kRanks ->
     exists v, process_view shm_region p2p_region kinds r = Ok v) /\
  ((forall r, 0 <= r < kRanks -> ls_plan (storage r) = Plan kinds /\
      process_view shm_region p2p_region kinds r = Ok (ls_view (storage r))) ->
   RingWired (memory_edge kinds) kFifoBytes (launched storage)).
Proof.
  intros Hk Hshm Hp2p Hmix. split.
  { intros r Hr. destruct (process_view_ok shm_region p2p_region kinds r Hr) as (v & Hv & _). eauto. }
  intros Hst.
  pose proof (edge_ends_wired shm_region p2p_region kinds Hshm Hp2p Hmix) as W.
  set (ee := edge_ends shm_region p2p_region kinds) in *.
  assert (forall r c, 0 <= r < kRanks -> 0 <= c < kChannels ->
    (memory_edge kinds r = true -> send_fifo (launched storage r c) = send_fifo (ee r c) /\
       send_head (launched storage r c) = send_head (ee r c) /\
       send_tail (launched storage r c) = send_tail (ee r c)) /\
    (memory_edge kinds ((r + kRanks - 1) mod kRanks) = true ->
       recv_fifo (launched storage r c) = recv_fifo (ee r c) /\
       recv_head (launched storage r c) = recv_head (ee r c) /\
       recv_tail (launched storage r c) = recv_tail (ee r c))) as Hl.
  { intros r c Hr Hc. destruct (Hst r Hr) as [Hp Hv].
    destruct (process_view_ok shm_region p2p_region kinds r Hr) as (v & Hv' & Hve).
    rewrite Hv in Hv'. injection Hv' as <-.
    destruct (kernel_ends_memory shm_region p2p_region kinds Hk (storage r) r c Hr Hc Hp (Hve c Hc))
      as (w & Hw & Hs & Hrr). unfold launched. rewrite Hw. done. }
  split.
  - intros e c He Hon Hc. pose proof (Z.mod_pos_bound (e + 1) kRanks kRanks_pos) as Hn.
    destruct (proj1 (Hl e c He Hc) Hon) as (E1 & E2 & E3).
    destruct (proj2 (Hl ((e + 1) mod kRanks) c Hn Hc)) as (F1 & F2 & F3);
      [by rewrite prev_of_next|].
    cbv zeta. rewrite E1, E2, E3, F1, F2, F3. by apply (rw_agree (w := ee)).
  - intros e c e' c' He Hon Hc He' Hon' Hc' Hne. cbv zeta.
    destruct (proj1 (Hl e c He Hc) Hon) as (-> & -> & ->).
    destruct (proj1 (Hl e' c' He' Hc') Hon') as (-> & -> & ->).
    by apply (rw_apart (w := ee)).
  - intros e c e' c' He Hon Hc He' Hon' Hc'. cbv zeta.
    destruct (proj1 (Hl e c He Hc) Hon) as (_ & -> & ->).
    destruct (proj1 (Hl e' c' He' Hc') Hon') as (-> & _ & ->).
    by apply (rw_control (w := ee)).
Qed.

(** ** Rings inside one process *)

Section Local.
Context `{BuildConfig}.

(** The ends of a ring over the mapped step counters. *)
Definition shm_ends (fifo : Z -> Z -> ptr) (steps base_steps : ptr) (r c : Z) : ends :=
  let ctl := make_simple_control_args steps base_steps r in
  Ends (fifo c r) (ca_send_head ctl c) (ca_send_tail ctl c)
    (fifo c ((r + kRanks - 1) mod kRanks)) (ca_recv_head ctl c) (ca_recv_tail ctl c).

(** The step counters of one process wire a ring: the [2 * kChannels *
    kRanks] words are used without overlap, inside the array, with both ends
    of an edge on the same words, and the base steps of different ranks,
    channels and directions are different words of theirs. *)
Theorem shm_control_wired fifo_block steps base_steps fifo_bytes :
  (forall c e c' e', 0 <= c < kChannels -> 0 <= e < kRanks -> 0 <= c' < kChannels ->
     0 <= e' < kRanks -> fifo_block c e = fifo_block c' e' -> c = c' /\ e = e') ->
  (forall c e, 0 <= c < kChannels -> 0 <= e < kRanks -> fifo_block c e <> steps) ->
  let w := shm_ends (fun c e => Some (Loc (fifo_block c e) 0)) (Some (Loc steps 0))
             (Some (Loc base_steps 0)) in
  RingWired (fun _ => true) fifo_bytes w /\
  (forall r c p, 0 <= r < kRanks -> 0 <= c < kChannels ->
     p = send_head (w r c) \/ p = send_tail (w r c) ->
     exists i, p = Some (Loc steps (8 * i)) /\ 0 <= i < 2 * kChannels * kRanks) /\
  (forall k k' r r' c c', 0 <= k < 2 -> 0 <= k' < 2 ->
     0 <= r < kRanks -> 0 <= r' < kRanks -> 0 <= c < kChannels -> 0 <= c' < kChannels ->
     let base k r := if k =? 0
       then send_base_steps (make_simple_control_args (Some (Loc steps 0)) (Some (Loc base_steps 0)) r)
       else recv_base_steps (make_simple_control_args (Some (Loc steps 0)) (Some (Loc base_steps 0)) r) in
     word_add (base k r) c = word_add (base k' r') c' -> k = k' /\ r = r' /\ c = c').
Proof.
  intros Hf Hs w. pose proof kRanks_pos. split_and!; [split| |].
  - intros e c He _ Hc. simpl. rewrite (prev_of_next e He). split_and!; eauto.
  - intros e c e' c' He _ Hc He' _ Hc' Hne. simpl. split_and!.
    + left. intros [-> ->]%Hf; [|done..]. by apply Hne.
    + apply (word_add_apart (Some (Loc steps 0))).
      intros (_ & -> & ->)%step_idx_inj; [by apply Hne|done..].
    + apply (word_add_apart (Some (Loc steps 0))).
      intros (_ & -> & ->)%step_idx_inj; [by apply Hne|done..].
  - intros e c e' c' He _ Hc He' _ Hc'. simpl. split_and!.
    + apply (word_add_apart (Some (Loc steps 0))). by intros ([=] & _)%step_idx_inj.
    + left. by apply not_eq_sym, Hs.
    + left. by apply not_eq_sym, Hs.
  - intros r c p Hr Hc [-> | ->]; simpl; eexists; (split; [done|apply step_idx_range; lia]).
  - intros k k' r r' c c' Hk Hk' Hr Hr' Hc Hc' base E. unfold base in E.
    assert ((k * kRanks + r) * kChannels + c = (k' * kRanks + r') * kChannels + c') as E'.
    { assert (k = 0 \/ k = 1) as [-> | ->] by lia; assert (k' = 0 \/ k' = 1) as [-> | ->] by lia;
        simpl in E; injection E; lia. }
    apply idx_inj in E' as [E' ->]; [|done..]. apply idx_inj in E' as [-> ->]; done.
Qed.

(** The ends of a ring over counters in device memory. *)
Definition p2p_ends (plan : RingTransportPlan) (fifo : Z -> Z -> ptr) (counters : Z -> ptr)
    (r c : Z) : ends :=
  match p2p_control_args plan counters r with
  | Ok ctl => Ends (fifo c r) (ca_send_head ctl c) (ca_send_tail ctl c)
                (fifo c ((r + kRanks - 1) mod kRanks)) (ca_recv_head ctl c) (ca_recv_tail ctl c)
  | Throw _ => no_ends
  end.

Lemma p2p_counters_ok plan t alloc : valid_topology t -> vec_size (plan_edge_kinds plan) = kRanks ->
  exists counters, p2p_step_counters plan t alloc = Ok counters /\
    forall r, 0 <= r - local_rank_offset t < vec_size (devices t) ->
      edge_kind plan r = Ok P2p \/ edge_kind plan ((r + kRanks - 1) mod kRanks) = Ok P2p ->
      counters r = Some (Loc (alloc r) 0).
Proof.
  intros Ht Hpl. destruct Ht. unfold p2p_step_counters.
  rewrite (proj2 (validate_process_topology_ok t tt)) by by split. simpl.
  set (body := fun local_rank counters => _). set (off := local_rank_offset t) in *.
  destruct (foldM_ok body (fun past counters => forall r, r - off ∈ past ->
      edge_kind plan r = Ok P2p \/ edge_kind plan ((r + kRanks - 1) mod kRanks) = Ok P2p ->
      counters r = Some (Loc (alloc r) 0)) (zrange (vec_size (devices t))) (fun _ => None))
    as (counters & -> & Hc).
  - by intros r ?%elem_of_nil.
  - intros past l rest counters Hz Hc. destruct (zrange_split _ _ _ _ Hz) as (_ & Hl & _).
    unfold body. fold off. set (g := off + l). destruct plan as [kinds]. simpl in Hpl.
    pose proof (Z.mod_pos_bound (g + kRanks - 1) kRanks kRanks_pos) as Hm.
    destruct (edge_kind_ok kinds g) as (ks & Es & _); [lia|].
    destruct (edge_kind_ok kinds ((g + kRanks - 1) mod kRanks)) as (kr & Er & _); [lia|].
    rewrite Es, Er. simpl.
    assert (forall r, r - off ∈ past ++ [l] -> r - off ∈ past \/ r = g) as Hin.
    { intros r [?|?]%elem_of_snoc; [by left|right; unfold g; lia]. }
    destruct (decide (ks = P2p)) as [->|Hks]; [|destruct (decide (kr = P2p)) as [->|Hkr]].
    + rewrite bool_decide_true by done. eexists. split; [done|]. intros r Hr Hk.
      destruct (decide (r = g)) as [->|]; [by rewrite upd_eq|rewrite upd_ne by done].
      destruct (Hin r Hr); [by apply Hc|done].
    + rewrite bool_decide_false by done. simpl.
      eexists. split; [done|]. intros r Hr Hk.
      destruct (decide (r = g)) as [->|]; [by rewrite upd_eq|rewrite upd_ne by done].
      destruct (Hin r Hr); [by apply Hc|done].
    + rewrite !bool_decide_false by done. simpl.
      eexists. split; [done|]. intros r Hr Hk. destruct (Hin r Hr) as [| ->]; [by apply Hc|].
      exfalso. rewrite Es, Er in Hk. destruct Hk; congruence.
  - exists counters. split; [done|]. intros r Hr. apply Hc. by apply elem_of_zrange.
Qed.

(** Counters and FIFOs in device memory wire the P2P edges of a ring: in a
    process that owns every rank the counters of both ends of a P2P edge
    exist, both ends use the same words, and nothing overlaps. *)
Theorem p2p_control_wired plan t alloc fifo_block fifo_bytes :
  valid_topology t -> distributed t = false -> vec_size (plan_edge_kinds plan) = kRanks ->
  (forall r r', 0 <= r < kRanks -> 0 <= r' < kRanks -> alloc r = alloc r' -> r = r') ->
  (forall c e c' e', 0 <= c < kChannels -> 0 <= e < kRanks -> 0 <= c' < kChannels ->
     0 <= e' < kRanks -> fifo_block c e = fifo_block c' e' -> c = c' /\ e = e') ->
  (forall c e r, 0 <= c < kChannels -> 0 <= e < kRanks -> 0 <= r < kRanks ->
     fifo_block c e <> alloc r) ->
  exists counters, p2p_step_counters plan t alloc = Ok counters /\
    RingWired (fun e => bool_decide (edge_kind plan e = Ok P2p)) fifo_bytes
      (p2p_ends plan (fun c e => Some (Loc (fifo_block c e) 0)) counters).
Proof.
  intros Ht Hd Hpl Ha Hf Hfa. pose proof kRanks_pos as Hn. pose proof kChannels_pos.
  destruct (vt_single t Ht Hd) as [Ho Hdev].
  destruct (p2p_counters_ok plan t alloc Ht Hpl) as (counters & Hc & Hcnt).
  exists counters. split; [done|].
  assert (forall r, 0 <= r < kRanks -> exists k, edge_kind plan r = Ok k) as Hk.
  { intros r Hr. destruct plan as [kinds]. simpl in Hpl.
    destruct (edge_kind_ok kinds r) as (k & ? & _); [lia|eauto]. }
  assert (forall e c, 0 <= e < kRanks -> bool_decide (edge_kind plan e = Ok P2p) = true ->
    let nx := (e + 1) mod kRanks in
    let fifo := Some (Loc (fifo_block c e) 0) in
    let head := word_add (Some (Loc (alloc e) 0)) (kHeadOffset + c) in
    let tail := word_add (Some (Loc (alloc nx) 0)) (kTailOffset + c) in
    let s := p2p_ends plan (fun c e => Some (Loc (fifo_block c e) 0)) counters e c in
    let r := p2p_ends plan (fun c e => Some (Loc (fifo_block c e) 0)) counters nx c in
    send_fifo s = fifo /\ send_head s = head /\ send_tail s = tail /\
    recv_fifo r = fifo /\ recv_head r = head /\ recv_tail r = tail) as Hw.
  { intros e c He Hon%bool_decide_eq_true. cbv zeta.
    pose proof (Z.mod_pos_bound (e + 1) kRanks Hn) as Hnx.
    pose proof (Z.mod_pos_bound (e + kRanks - 1) kRanks Hn) as Hpv.
    destruct (Hk _ Hpv) as [kp Ekp]. destruct (Hk _ Hnx) as [kn Ekn].
    unfold p2p_ends, p2p_control_args. rewrite (prev_of_next e He), Hon, Ekp, Ekn. simpl.
    rewrite (Hcnt e), (Hcnt ((e + 1) mod kRanks));
      [done|lia|right; by rewrite prev_of_next|lia|by left]. }
  assert (forall a b i j, 0 <= a < kRanks -> 0 <= b < kRanks -> 0 <= i < kChannels -> 0 <= j < kChannels -> (a, i) <> (b, j) ->
    forall o, disjoint_ranges (word_add (Some (Loc (alloc a) 0)) (o + i)) 8
                (word_add (Some (Loc (alloc b) 0)) (o + j)) 8) as Hap.
  { intros a b i j Hra Hrb Hi Hj Hne o. destruct (decide (a = b)) as [->|Hab].
    - apply word_add_apart. intros E. apply Hne. f_equal. lia.
    - left. simpl. auto. }
  assert (forall e, 0 <= (e + 1) mod kRanks < kRanks) as Hnx by (intros; by apply Z.mod_pos_bound).
  split.
  - intros e c He Hon Hc0. cbv zeta. destruct (Hw e c He Hon) as (-> & -> & -> & -> & -> & ->).
    split_and!; try done; eauto.
  - intros e c e' c' He Hon Hc0 He' Hon' Hc0' Hne. cbv zeta.
    destruct (Hw e c He Hon) as (-> & -> & -> & _), (Hw e' c' He' Hon') as (-> & -> & -> & _).
    split_and!; [|by apply Hap|].
    + left. simpl. intros [-> ->]%Hf; [|done..]. by apply Hne.
    + apply Hap; [auto..|]. intros [= E ->]. apply Hne. f_equal.
      rewrite <- (prev_of_next e He), <- (prev_of_next e' He'). by rewrite E.
  - intros e c e' c' He Hon Hc0 He' Hon' Hc0'. cbv zeta.
    destruct (Hw e c He Hon) as (_ & -> & -> & _), (Hw e' c' He' Hon') as (-> & _ & -> & _).
    split_and!; [|left; simpl; by apply not_eq_sym, Hfa|left; simpl; by apply not_eq_sym, Hfa].
    destruct (decide (e = (e' + 1) mod kRanks)) as [->|Hne]; [|left; simpl; auto].
    apply word_add_apart. unfold kHeadOffset, kTailOffset. lia.
Qed.
End Local.

Module ControlWitness.
#[local] Existing Instance small_config.

Definition ring_kinds : list TransportKind := [Shm; P2p; Socket].
Definition view_of (r : Z) : Z -> ends :=
  match process_view (fun r => 2 * r) (fun r => 2 * r + 1) ring_kinds r with
  | Ok v => v | Throw _ => fun _ => no_ends end.
Definition storage (r : Z) : launch_storage := {|
  ls_plan := Plan ring_kinds; ls_rdma_enabled := false;
  ls_socket_send _ _ := Net None None; ls_socket_recv _ _ := Net None None;
  ls_rdma_send _ _ := Net None None; ls_rdma_recv _ _ := Net None None;
  ls_view := view_of r; ls_shm_fifo _ _ := None; ls_p2p_fifo _ _ := None;
  ls_shm_control := no_control; ls_p2p_control := no_control |}.

Lemma memory_ring_wired_witness : RingWired (memory_edge ring_kinds) kFifoBytes (launched storage).
Proof.
  refine (proj2 (memory_ring_wired (fun r => 2 * r) (fun r => 2 * r + 1) ring_kinds storage
    eq_refl _ _ _) _); [lia|lia|lia|].
  intros r Hr. split; [done|]. simpl in Hr.
  assert (r = 0 \/ r = 1 \/ r = 2) as [->|[->| ->]] by lia; reflexivity.
Defined.

(** Allocation numbers of the FIFO of an edge and channel. *)
Definition block (c e : Z) : Z := 10 + c + 2 * e.

Lemma shm_control_wired_witness :
  RingWired (fun _ => true) 1024
    (shm_ends (fun c e => Some (Loc (block c e) 0)) (Some (Loc 0 0)) (Some (Loc 1 0))).
Proof.
  refine (proj1 (shm_control_wired block 0 1 1024 _ _)); unfold block; simpl; lia.
Defined.

Definition local3 : ProcessTopology := {|
  global_rank_count := 3; local_rank_offset := 0; devices := [0; 1; 2];
  edge_kinds := [P2p; Shm; P2p]; distributed := false |}.

Lemma p2p_control_wired_witness :
  exists counters, p2p_step_counters (Plan [P2p; Shm; P2p]) local3 (fun r => r) = Ok counters /\
    RingWired (fun e => bool_decide (edge_kind (Plan [P2p; Shm; P2p]) e = Ok P2p)) 1024
      (p2p_ends (Plan [P2p; Shm; P2p]) (fun c e => Some (Loc (block c e) 0)) counters).
Proof.
  apply (p2p_control_wired (Plan [P2p; Shm; P2p]) local3 (fun r => r) block 1024);
    [by apply (validate_process_topology_ok local3 tt)|done|done|unfold block; simpl; lia..].
Defined.

End ControlWitness.
