(* ===== verification/Communicator.v ===== *)
(** * The communicator: validation and launches

    [Communicator::Impl] of src/collective/all_reduce/communicator.cu: argument
    validation, FIFO sizing, the launch of one collective with its error
    handling, and the tracking of unfinished work for destruction.

    A member function is a state transformer on [Impl] that ends in a value or
    an exception; state changes made before a throw stay.  A process owns one
    rank ([devices_] has one element).  Results of CUDA calls come from an
    environment. *)

From Stdlib Require Import ZArith Lia.
From stdpp Require Import base option numbers tactics strings list gmap.
From S2P Require Import Prelude Types Geometry RingSafety Kernels AllReduce Topology Control.

#[local] Open Scope Z_scope.

(** ** State *)

Inductive collective := CAllReduce | CReduceScatter | CAllGather.

#[export] Instance collective_eq_dec : EqDecision collective.
Proof. solve_decision. Defined.

(** [AllReduceArgs], [ReduceScatterArgs] and [AllGatherArgs]: [a_count] is
    [count], [recv_count] or [send_count]; AllGather has no [redop].  Addresses
    and streams are integers, 0 is null. *)
Record CollectiveArgs := {
  a_send_buffer : Z; a_recv_buffer : Z; a_stream : Z;
  a_count : Z; a_dtype : DType; a_redop : RedOp }.

(** [FifoResources<T>]; FIFO pointers by channel and edge. *)
Record FifoResources := {
  fr_slot_elems : Z; fr_shm_fifo : Z -> Z -> ptr; fr_p2p_fifo : Z -> Z -> ptr }.

(** What the constructor sets up once: the transport plan, the network storage,
    the view of the connections and the mapped step counters. *)
Record Resources := {
  r_plan : RingTransportPlan;
  r_rdma_enabled : bool;                 (* NANO_NCCL_ENABLE_RDMA *)
  r_rdma_gdr_enabled : bool;
  r_socket_send : Z -> Z -> net_resources;
  r_socket_recv : Z -> Z -> net_resources;
  r_rdma_send : Z -> Z -> net_resources;
  r_rdma_recv : Z -> Z -> net_resources;
  r_view : Z -> ends;
  r_steps : ptr;                         (* simple_fifo_steps_ *)
  r_base_steps : ptr;                    (* simple_fifo_base_steps_ *)
  r_socket_abort : ptr;
  r_rdma_abort : ptr }.

(** The tracking of unfinished work. *)
Record lifetime := Life {
  f_event : bool;                        (* completion_events_[0] != nullptr *)
  f_recorded : bool;                     (* completion_recorded_[0] *)
  f_fallback_stream : Z;
  f_fallback_in_flight : bool;
  f_has_launch : bool;
  f_has_untracked_launch : bool }.

(** A kernel handed to CUDA; null pointers stand for absent storage. *)
Record launch := Launched {
  l_collective : collective; l_dtype : DType; l_redop : RedOp;
  l_args : kernel_args; l_input : Z; l_output : Z;
  l_ends : Z -> res ends; l_abort : ptr;
  l_send_base_steps : ptr; l_recv_base_steps : ptr; l_stream : Z }.

(** The work given to CUDA, numbered in the order of its submission.
    [t_follows s] holds the work that ends before anything submitted to stream
    [s] next starts, [t_covers] the work the completion event was recorded
    after, and [t_launches] every kernel with its number and the work it
    waits for.  [t_clock] counts CUDA calls; [t_clears] lists the mapped arrays
    the host has cleared, with the number of kernels submitted by then. *)
Record cuda_state := Cuda {
  t_clock : nat;
  t_work : nat;
  t_follows : Z -> gset nat;
  t_covers : gset nat;
  t_launches : list (launch * nat * gset nat);
  t_clears : list (ptr * nat) }.

Record Impl := {
  i_device : Z;
  i_topology : ProcessTopology;
  i_res : Resources;
  i_socket_errors : option (option string);  (* null, or the message if any *)
  i_rdma_errors : option (option string);    (* null without RDMA *)
  i_fifo : DType -> FifoResources;
  i_p2p_steps : option (Z -> ptr);           (* the counters by global rank *)
  i_bf16_devices_validated : bool;
  i_control_initialized : bool;
  i_life : lifetime;
  i_cuda : cuda_state;
}.

Definition set_errors (socket rdma : option (option string)) (s : Impl) : Impl :=
  {| i_device := i_device s; i_topology := i_topology s; i_res := i_res s;
     i_socket_errors := socket; i_rdma_errors := rdma; i_fifo := i_fifo s;
     i_p2p_steps := i_p2p_steps s; i_bf16_devices_validated := i_bf16_devices_validated s;
     i_control_initialized := i_control_initialized s; i_life := i_life s; i_cuda := i_cuda s |}.
Definition set_fifo (d : DType) (fifo : FifoResources) (s : Impl) : Impl :=
  {| i_device := i_device s; i_topology := i_topology s; i_res := i_res s;
     i_socket_errors := i_socket_errors s; i_rdma_errors := i_rdma_errors s;
     i_fifo := fun d' => if decide (d' = d) then fifo else i_fifo s d';
     i_p2p_steps := i_p2p_steps s; i_bf16_devices_validated := i_bf16_devices_validated s;
     i_control_initialized := i_control_initialized s; i_life := i_life s; i_cuda := i_cuda s |}.
Definition set_flags (p2p_steps : option (Z -> ptr)) (bf16 control : bool) (s : Impl) : Impl :=
  {| i_device := i_device s; i_topology := i_topology s; i_res := i_res s;
     i_socket_errors := i_socket_errors s; i_rdma_errors := i_rdma_errors s; i_fifo := i_fifo s;
     i_p2p_steps := p2p_steps; i_bf16_devices_validated := bf16;
     i_control_initialized := control; i_life := i_life s; i_cuda := i_cuda s |}.
Definition set_life (f : lifetime -> lifetime) (s : Impl) : Impl :=
  {| i_device := i_device s; i_topology := i_topology s; i_res := i_res s;
     i_socket_errors := i_socket_errors s; i_rdma_errors := i_rdma_errors s; i_fifo := i_fifo s;
     i_p2p_steps := i_p2p_steps s; i_bf16_devices_validated := i_bf16_devices_validated s;
     i_control_initialized := i_control_initialized s; i_life := f (i_life s); i_cuda := i_cuda s |}.
Definition set_cuda (f : cuda_state -> cuda_state) (s : Impl) : Impl :=
  {| i_device := i_device s; i_topology := i_topology s; i_res := i_res s;
     i_socket_errors := i_socket_errors s; i_rdma_errors := i_rdma_errors s; i_fifo := i_fifo s;
     i_p2p_steps := i_p2p_steps s; i_bf16_devices_validated := i_bf16_devices_validated s;
     i_control_initialized := i_control_initialized s; i_life := i_life s; i_cuda := f (i_cuda s) |}.

Definition set_untracked (l : lifetime) : lifetime :=
  Life (f_event l) (f_recorded l) (f_fallback_stream l) (f_fallback_in_flight l)
    (f_has_launch l) true.

(** ** Results of CUDA calls

    The [k]-th call answers what the environment says for [k]; [None] is
    success. *)

Inductive cuda_call :=
| SetDevice | EventQuery | StreamWaitEvent | EventCreate | EventRecord | EventDestroy
| LaunchKernel | AllocateFifo | AllocateCounters | MemsetCounters | DeviceProperties
| StreamSynchronize | EventSynchronize.

Record cuda_env := {
  e_error : nat -> cuda_call -> option string;
  e_event_ready : nat -> bool;           (* not cudaErrorNotReady *)
  e_major : Z;                           (* compute capability *)
  e_fifo_block : nat -> Z -> Z -> Z;     (* a new allocation, by channel and edge *)
  e_counter_block : nat -> Z -> Z;       (* a new allocation, by rank *)
}.

(** ** State transformers *)

Definition M (A : Type) := Impl -> Impl * res A.
#[export] Instance M_ret : MRet M := fun A a s => (s, Ok a).
#[export] Instance M_bind : MBind M := fun A B f m s =>
  match m s with (s', Ok a) => f a s' | (s', Throw e) => (s', Throw e) end.

Definition gets {A} (f : Impl -> A) : M A := fun s => (s, Ok (f s)).
Definition modify (f : Impl -> Impl) : M unit := fun s => (f s, Ok tt).
Definition lift {A} (r : res A) : M A := fun s => (s, r).
Definition throw {A} (e : exn) : M A := fun s => (s, Throw e).
(** [try { m } catch (...) { h; throw; }] *)
Definition on_throw {A} (m : M A) (h : Impl -> Impl) : M A := fun s =>
  match m s with (s', Throw e) => (h s', Throw e) | r => r end.
Definition guard_not (b : bool) (e : exn) : M unit := if b then throw e else mret tt.

Definition tick : M unit :=
  modify (set_cuda (fun t => Cuda (S (t_clock t)) (t_work t) (t_follows t) (t_covers t) (t_launches t)
    (t_clears t))).

(** [CUDA_CHECK_THROW]. *)
Definition cuda (env : cuda_env) (c : cuda_call) : M unit :=
  k ← gets (fun s => t_clock (i_cuda s));
  tick ;;
  match e_error env k c with None => mret tt | Some what => throw (RuntimeError what) end.

(** ** Effects of stream operations *)

Definition follow (t : cuda_state) (stream : Z) (more : gset nat) : Z -> gset nat :=
  fun s => if decide (s = stream) then more ∪ t_follows t s else t_follows t s.

Definition enqueue (stream : Z) (t : cuda_state) : cuda_state :=
  Cuda (t_clock t) (S (t_work t)) (follow t stream {[t_work t]}) (t_covers t) (t_launches t) (t_clears t).
Definition enqueue_kernel (l : launch) (t : cuda_state) : cuda_state :=
  Cuda (t_clock t) (S (t_work t)) (follow t (l_stream l) {[t_work t]}) (t_covers t)
    (t_launches t ++ [(l, t_work t, t_follows t (l_stream l))]) (t_clears t).
Definition stream_wait (stream : Z) (t : cuda_state) : cuda_state :=
  Cuda (t_clock t) (t_work t) (follow t stream (t_covers t)) (t_covers t) (t_launches t) (t_clears t).
Definition event_record (stream : Z) (t : cuda_state) : cuda_state :=
  Cuda (t_clock t) (t_work t) (t_follows t) (t_follows t stream) (t_launches t) (t_clears t).
(** [clear_host] of a mapped array: at once, whatever the streams do. *)
Definition clear_words (array : ptr) (t : cuda_state) : cuda_state :=
  Cuda (t_clock t) (t_work t) (t_follows t) (t_covers t) (t_launches t)
    (t_clears t ++ [(array, length (t_launches t))]).

Section Communicator.
Context `{BuildConfig} (env : cuda_env).

(** ** Validation *)

Definition checked_multiply (lhs rhs : Z) (message : string) : res Z :=
  if SIZE_MAX / rhs <? lhs then Throw (RuntimeError message) else Ok (u64 (lhs * rhs)).

Definition address_range (pointer bytes : Z) : res (Z * Z) :=
  if SIZE_MAX - pointer <? bytes
  then Throw (RuntimeError "collective buffer address range overflows")
  else Ok (pointer, u64 (pointer + bytes)).

Definition validate_buffer_args (a : CollectiveArgs) (send_count recv_count : Z)
    (collective_name : string) : res unit :=
  check (negb ((send_count =? 0) || (recv_count =? 0)))
    (RuntimeError "collective count must be positive") ;;
  check (negb ((a_send_buffer a =? 0) || (a_recv_buffer a =? 0) || (a_stream a =? 0)))
    (RuntimeError "collective buffers and stream must be non-null") ;;
  let element_size := dtype_size (a_dtype a) in
  send_bytes ← checked_multiply send_count element_size "collective send byte count overflows";
  recv_bytes ← checked_multiply recv_count element_size "collective receive byte count overflows";
  send ← address_range (a_send_buffer a) send_bytes;
  recv ← address_range (a_recv_buffer a) recv_bytes;
  check (negb ((send.1 <? recv.2) && (recv.1 <? send.2)))
    (RuntimeError ("overlapping " +:+ collective_name +:+
                   " send and receive buffers are unsupported")).

(** The [redop] of the model is always a valid one. *)
Definition validate_args (c : collective) (a : CollectiveArgs) : res unit :=
  match c with
  | CAllReduce => validate_buffer_args a (a_count a) (a_count a) "all_reduce"
  | CReduceScatter =>
      send_count ← checked_multiply (a_count a) kRanks "reduce_scatter element count overflows";
      validate_buffer_args a send_count (a_count a) "reduce_scatter"
  | CAllGather =>
      recv_count ← checked_multiply (a_count a) kRanks "all_gather element count overflows";
      validate_buffer_args a (a_count a) recv_count "all_gather"
  end.

Definition check_async_error : M unit :=
  socket ← gets i_socket_errors;
  match socket with
  | Some (Some what) => throw (RuntimeError what)
  | _ =>
      rdma ← gets i_rdma_errors;
      match rdma with Some (Some what) => throw (RuntimeError what) | _ => mret tt end
  end.

(** For the one local device. *)
Definition require_bf16_devices : M unit :=
  cuda env DeviceProperties ;;
  guard_not (e_major env <? 8) (RuntimeError "bf16 requires compute capability 8.0 or newer").
Definition ensure_bf16_devices_validated : M unit :=
  validated ← gets i_bf16_devices_validated;
  if (validated : bool) then mret tt else
  require_bf16_devices ;;
  modify (fun s => set_flags (i_p2p_steps s) true (i_control_initialized s) s).

(** ** FIFO sizing *)

Definition require_previous_launch_complete : M unit :=
  life ← gets i_life;
  guard_not (f_has_untracked_launch life)
    (RuntimeError "cannot grow communicator FIFO after completion tracking failed") ;;
  if negb (f_has_launch life) then mret tt else
  cuda env SetDevice ;;
  ready ← gets (fun s => e_event_ready env (t_clock (i_cuda s)));
  if negb ready
  then throw (RuntimeError "cannot grow communicator FIFO while a prior collective is running")
  else cuda env EventQuery.

(** The largest chunk of any channel, at least one. *)
Definition required_slots (sz count : Z) : Z :=
  Z.max (foldl (fun acc channel => Z.max acc (chunk_count (cbd_part sz count channel))) 0
           (zrange kChannels)) 1.

(** New storage for the Shm edges with two local ranks and, when a ring of one
    process uses P2P, for its P2P edges. *)
Definition new_fifo (s : Impl) (slot_elems : Z) : res FifoResources :=
  let block := e_fifo_block env (t_clock (i_cuda s)) in
  let t := i_topology s in
  let plan := r_plan (i_res s) in
  p2p ← (if uses_p2p plan && negb (distributed t) then p2p_fifo plan t block
         else Ok (fun _ _ => None));
  Ok {| fr_slot_elems := slot_elems;
        fr_shm_fifo channel edge :=
          if bool_decide (edge_kind plan edge = Ok Shm) && is_local_global_rank t edge &&
             is_local_global_rank t ((edge + 1) mod kRanks)
          then Some (Loc (block channel edge) 0) else None;
        fr_p2p_fifo := p2p |}.

Definition ensure_fifo_buffers (d : DType) (count : Z) : M unit :=
  topology ← gets i_topology;
  let sz := dtype_size d in
  let required_slot_elems :=
    if distributed topology then step_elems sz else required_slots sz count in
  resources ← gets (fun s => i_fifo s d);
  if required_slot_elems <=? fr_slot_elems resources then mret tt else
  require_previous_launch_complete ;;
  s ← gets id;
  replacement ← lift (new_fifo s required_slot_elems);
  cuda env AllocateFifo ;;
  modify (set_fifo d replacement).

(** ** Completion tracking *)

Definition wait_for_previous_launch_on_stream (stream : Z) : M unit :=
  life ← gets i_life;
  guard_not (f_has_untracked_launch life)
    (RuntimeError "cannot launch collective after completion tracking failed") ;;
  if negb (f_has_launch life) then mret tt else
  cuda env SetDevice ;;
  cuda env StreamWaitEvent ;;
  modify (set_cuda (stream_wait stream)).

Definition ensure_completion_events : M unit :=
  cuda env SetDevice ;;
  life ← gets i_life;
  if f_event life then mret tt else
  cuda env EventCreate ;;
  modify (set_life (fun l => Life true (f_recorded l) (f_fallback_stream l)
    (f_fallback_in_flight l) (f_has_launch l) (f_has_untracked_launch l))).

Definition record_completion (stream : Z) : M unit :=
  on_throw (cuda env EventRecord) (set_life set_untracked) ;;
  modify (set_cuda (event_record stream)) ;;
  modify (set_life (fun l => Life (f_event l) true (f_fallback_stream l) false true
    (f_has_untracked_launch l))).

Definition begin_fallback_tracking (stream : Z) : M unit :=
  modify (set_life (fun l => Life (f_event l) (f_recorded l) stream true
    (f_has_launch l) (f_has_untracked_launch l))).

(** Called by the destructor; the throw of a failed call is [std::terminate].
    The value is the work it has waited for. *)
Definition release_lifetime_tracking : M (gset nat) :=
  cuda env SetDevice ;;
  life ← gets i_life;
  t ← gets i_cuda;
  (if f_fallback_in_flight life then cuda env StreamSynchronize else mret tt) ;;
  (if f_event life && f_recorded life then cuda env EventSynchronize else mret tt) ;;
  (if f_event life
   then cuda env EventDestroy ;;
        modify (set_life (fun l => Life false (f_recorded l) (f_fallback_stream l)
          (f_fallback_in_flight l) (f_has_launch l) (f_has_untracked_launch l)))
   else mret tt) ;;
  mret ((if f_fallback_in_flight life then t_follows t (f_fallback_stream life) else ∅) ∪
        (if f_event life && f_recorded life then t_covers t else ∅)).

(** ** Launching *)

(** [P2pStepCounters::reset] for the one local rank, when it has counters. *)
Definition reset_p2p_steps (counters : Z -> ptr) (stream : Z) : M unit :=
  t ← gets i_topology;
  if negb (not_null (counters (local_rank_offset t))) then mret tt else
  cuda env SetDevice ;;
  modify (set_cuda (enqueue stream)) ;;
  cuda env MemsetCounters.

(** [ResetEvents] for the one local rank.  [destroy_noexcept] runs when the
    scope is left with the event not destroyed; a call that fails in it ends
    the process ([fail_stop_on_cuda_cleanup_error]), otherwise the exception
    goes on. *)
Definition reset_events_create : M unit := cuda env SetDevice ;; cuda env EventCreate.
Definition reset_events_record : M unit := cuda env SetDevice ;; cuda env EventRecord.
Definition reset_events_destroy : M unit := cuda env SetDevice ;; cuda env EventDestroy.
Definition reset_events_scope (m : M unit) : M unit :=
  reset_events_create ;;
  on_throw (reset_events_record ;; m ;; reset_events_destroy) (fun s => (reset_events_destroy s).1).

Definition reset_control (stream : Z) : M unit :=
  modify (fun s => set_cuda (clear_words (r_steps (i_res s))) s) ;;
  modify (fun s => set_cuda (clear_words (r_base_steps (i_res s))) s) ;;
  steps ← gets i_p2p_steps;
  match steps with
  | None => mret tt
  | Some counters =>
      reset_p2p_steps counters stream ;;
      reset_events_scope (cuda env SetDevice ;; cuda env StreamWaitEvent)
  end.

(** The storage the kernel arguments are taken from. *)
Definition storage_of (s : Impl) (d : DType) (p2p_control : ControlArgs) : launch_storage :=
  let r := i_res s in
  let global_rank := local_rank_offset (i_topology s) in
  {| ls_plan := r_plan r; ls_rdma_enabled := r_rdma_enabled r;
     ls_socket_send := r_socket_send r; ls_socket_recv := r_socket_recv r;
     ls_rdma_send := r_rdma_send r; ls_rdma_recv := r_rdma_recv r; ls_view := r_view r;
     ls_shm_fifo := fr_shm_fifo (i_fifo s d); ls_p2p_fifo := fr_p2p_fifo (i_fifo s d);
     ls_shm_control := make_simple_control_args (r_steps r) (r_base_steps r) global_rank;
     ls_p2p_control := p2p_control |}.

Definition first_not_null (p q : ptr) : ptr := if not_null p then p else q.

Definition launch_ring_simple (c : collective) (a : CollectiveArgs) (count : Z) : M unit :=
  ensure_completion_events ;;
  s ← gets id;
  let d := a_dtype a in
  let r := i_res s in
  let global_rank := local_rank_offset (i_topology s) in
  p2p_control ← lift (match i_p2p_steps s with
                      | Some counters => p2p_control_args (r_plan r) counters global_rank
                      | None => Ok no_control
                      end);
  let storage := storage_of s d p2p_control in
  (* every channel, so that the first throw ends the launch *)
  lift (foldM (fun channel _ => kernel_ends storage global_rank channel ;; Ok tt)
          (zrange kChannels) tt) ;;
  let shm_control := ls_shm_control storage in
  let l := Launched c d (a_redop a)
    (KArgs global_rank count (fr_slot_elems (i_fifo s d)) (step_elems (dtype_size d)))
    (a_send_buffer a) (a_recv_buffer a) (kernel_ends storage global_rank)
    (match i_rdma_errors s, i_socket_errors s with
     | Some _, _ => r_rdma_abort r
     | None, Some _ => r_socket_abort r
     | None, None => None
     end)
    (first_not_null (send_base_steps p2p_control) (send_base_steps shm_control))
    (first_not_null (recv_base_steps p2p_control) (recv_base_steps shm_control))
    (a_stream a) in
  cuda env SetDevice ;;
  modify (set_cuda (enqueue_kernel l)) ;;
  cuda env LaunchKernel ;;
  record_completion (a_stream a).

Definition run_typed (c : collective) (a : CollectiveArgs) (count fifo_count : Z) : M unit :=
  ensure_fifo_buffers (a_dtype a) fifo_count ;;
  life ← gets i_life;
  guard_not (f_has_untracked_launch life)
    (RuntimeError "cannot launch collective after completion tracking failed") ;;
  begin_fallback_tracking (a_stream a) ;;
  on_throw
    (wait_for_previous_launch_on_stream (a_stream a) ;;
     initialized ← gets i_control_initialized;
     (if (initialized : bool) then mret tt else
      s ← gets id;
      (if uses_p2p (r_plan (i_res s)) && negb (distributed (i_topology s)) then
         counters ← lift (p2p_step_counters (r_plan (i_res s)) (i_topology s)
                            (e_counter_block env (t_clock (i_cuda s))));
         cuda env AllocateCounters ;;
         modify (fun s => set_flags (Some counters) (i_bf16_devices_validated s)
           (i_control_initialized s) s)
       else mret tt) ;;
      reset_control (a_stream a) ;;
      modify (fun s => set_flags (i_p2p_steps s) (i_bf16_devices_validated s) true s)) ;;
     launch_ring_simple c a count)
    (set_life set_untracked).

(** [all_reduce_typed], [all_gather_typed] and [reduce_scatter_typed] with their
    dispatch on the operation: the counts of the kernel and of the FIFO. *)
Definition collective_typed (c : collective) (a : CollectiveArgs) : M unit :=
  run_typed c a (a_count a)
    (match c with CAllReduce => a_count a | _ => u64 (a_count a * kRanks) end).

(** [all_reduce], [all_gather] and [reduce_scatter] with their dispatch on the
    element type. *)
Definition run_collective (c : collective) (a : CollectiveArgs) : M unit :=
  check_async_error ;;
  lift (validate_args c a) ;;
  (if decide (a_dtype a = BFloat16) then ensure_bf16_devices_validated else mret tt) ;;
  collective_typed c a.

(** ** Queries *)

Definition transport (s : Impl) : TransportKind := resolved_kind (r_plan (i_res s)).

Definition edge_transport (s : Impl) (source_global_rank : Z) : res TransportKind :=
  if (source_global_rank <? 0) || (kRanks <=? source_global_rank)
  then Throw (InvalidArgument "source_global_rank must identify a Ring edge")
  else edge_kind (r_plan (i_res s)) source_global_rank.

Definition edge_uses_gdr (s : Impl) (source_global_rank : Z) : res bool :=
  kind ← edge_transport s source_global_rank;
  Ok (bool_decide (kind = Rdma) && r_rdma_enabled (i_res s) && r_rdma_gdr_enabled (i_res s)).
End Communicator.

(** ** Validation accepts exactly the supported arguments *)

(** Elements read and written by one rank. *)
Definition send_elems `{BuildConfig} (c : collective) (count : Z) : Z :=
  match c with CReduceScatter => count * kRanks | _ => count end.
Definition recv_elems `{BuildConfig} (c : collective) (count : Z) : Z :=
  match c with CAllGather => count * kRanks | _ => count end.

(** Values a caller can pass. *)
Record representable (a : CollectiveArgs) : Prop := {
  rp_count : 0 <= a_count a <= SIZE_MAX;
  rp_send : 0 <= a_send_buffer a <= SIZE_MAX;
  rp_recv : 0 <= a_recv_buffer a <= SIZE_MAX }.

(** A buffer of [bytes] bytes at [p] ends inside the address space. *)
Definition addressable (p bytes : Z) : Prop := p <> 0 /\ p + bytes <= SIZE_MAX.

Section Validation.
Context `{BuildConfig}.

Lemma checked_multiply_ok x y m z : 0 <= x -> 0 < y ->
  checked_multiply x y m = Ok z <-> z = x * y /\ x * y <= SIZE_MAX.
Proof.
  intros Hx Hy. unfold checked_multiply.
  assert (SIZE_MAX / y < x <-> SIZE_MAX < x * y) as E.
  { split; intros Hlt.
    - pose proof (Z.mul_succ_div_gt SIZE_MAX y Hy). nia.
    - by apply Z.div_lt_upper_bound; [|rewrite Z.mul_comm]. }
  destruct (Z.ltb_spec (SIZE_MAX / y) x) as [Hlt|Hle].
  - split; [done|]. intros [_ ?]. apply E in Hlt. lia.
  - assert (x * y <= SIZE_MAX) by (apply Z.nlt_ge; rewrite <-E; lia).
    rewrite u64_small by (unfold SIZE_MAX in *; nia).
    split; [by intros [= <-]|by intros [-> _]].
Qed.

Lemma address_range_ok p bytes r : 0 <= p <= SIZE_MAX -> 0 <= bytes ->
  address_range p bytes = Ok r <-> r = (p, p + bytes) /\ p + bytes <= SIZE_MAX.
Proof.
  intros Hp Hb. unfold address_range. destruct (Z.ltb_spec (SIZE_MAX - p) bytes).
  - split; [done|]. lia.
  - rewrite u64_small by (unfold SIZE_MAX in *; lia).
    split; [intros [= <-]; split; [done|lia]|by intros [-> _]].
Qed.

Lemma validate_buffer_args_ok a send_count recv_count name :
  representable a -> 0 <= send_count -> 0 <= recv_count ->
  validate_buffer_args a send_count recv_count name = Ok tt <->
  0 < send_count /\ 0 < recv_count /\ a_stream a <> 0 /\
  addressable (a_send_buffer a) (send_count * dtype_size (a_dtype a)) /\
  addressable (a_recv_buffer a) (recv_count * dtype_size (a_dtype a)) /\
  (a_send_buffer a + send_count * dtype_size (a_dtype a) <= a_recv_buffer a \/
   a_recv_buffer a + recv_count * dtype_size (a_dtype a) <= a_send_buffer a).
Proof.
  intros [_ Hs Hr] Hsc Hrc. unfold validate_buffer_args, addressable. cbv zeta.
  assert (0 < dtype_size (a_dtype a)) as Hd by by destruct (a_dtype a).
  set (sz := dtype_size (a_dtype a)) in *.
  assert (0 <= send_count * sz) by nia. assert (0 <= recv_count * sz) by nia. split.
  - intros Hc. apply bind_ok in Hc as (? & Hk1 & Hc). apply bind_ok in Hc as (? & Hk2 & Hc).
    apply check_ok in Hk1, Hk2. rewrite negb_true_iff, !orb_false_iff, !Z.eqb_neq in Hk1, Hk2.
    apply bind_ok in Hc as (? & Hk3 & Hc). apply checked_multiply_ok in Hk3 as [-> ?]; [|lia..].
    apply bind_ok in Hc as (? & Hk4 & Hc). apply checked_multiply_ok in Hk4 as [-> ?]; [|lia..].
    apply bind_ok in Hc as (? & Hk5 & Hc). apply address_range_ok in Hk5 as [-> ?]; [|lia..].
    apply bind_ok in Hc as (? & Hk6 & Hc). apply address_range_ok in Hk6 as [-> ?]; [|lia..].
    apply check_ok in Hc. simpl in Hc. rewrite negb_true_iff, andb_false_iff, !Z.ltb_ge in Hc.
    lia.
  - intros (? & ? & ? & [? ?] & [? ?] & Hdj).
    apply bind_ok. exists tt. split; [apply check_ok; lia|].
    apply bind_ok. exists tt. split; [apply check_ok; lia|].
    apply bind_ok. exists (send_count * sz). split; [apply checked_multiply_ok; lia|].
    apply bind_ok. exists (recv_count * sz). split; [apply checked_multiply_ok; lia|].
    apply bind_ok. eexists. split; [apply address_range_ok; [lia..|]; split; [done|lia]|].
    apply bind_ok. eexists. split; [apply address_range_ok; [lia..|]; split; [done|lia]|].
    apply check_ok. simpl. rewrite negb_true_iff, andb_false_iff, !Z.ltb_ge. lia.
Qed.

(** What validation accepts, for the functions that call it. *)
Lemma validate_args_ok c a : representable a ->
  validate_args c a = Ok tt <->
  0 < a_count a /\ a_stream a <> 0 /\
  let sz := dtype_size (a_dtype a) in
  let send_bytes := send_elems c (a_count a) * sz in
  let recv_bytes := recv_elems c (a_count a) * sz in
  addressable (a_send_buffer a) send_bytes /\ addressable (a_recv_buffer a) recv_bytes /\
  (a_send_buffer a + send_bytes <= a_recv_buffer a \/
   a_recv_buffer a + recv_bytes <= a_send_buffer a).
Proof.
  intros Ha. pose proof (rp_count a Ha) as Hc. pose proof kRanks_pos as Hn. cbv zeta.
  assert (0 < dtype_size (a_dtype a)) as Hd by by destruct (a_dtype a).
  assert (forall p b, addressable p b -> 0 <= p -> b <= SIZE_MAX) as Hfit
    by (unfold addressable; lia).
  pose proof (rp_send a Ha) as Hs. pose proof (rp_recv a Ha) as Hr.
  destruct c; simpl; unfold send_elems, recv_elems.
  - rewrite validate_buffer_args_ok by (done || lia). tauto.
  - rewrite bind_ok. setoid_rewrite (checked_multiply_ok (a_count a) kRanks _ _); [|lia..]. split.
    + intros (z & [-> ?] & Hv). apply validate_buffer_args_ok in Hv; [|done|nia|lia]. tauto.
    + intros Hv. pose proof Hv as (? & ? & Hb & _). apply Hfit in Hb; [|lia].
      exists (a_count a * kRanks). split; [split; [done|nia]|].
      apply validate_buffer_args_ok; [done|nia|lia|]. split; [nia|]. tauto.
  - rewrite bind_ok. setoid_rewrite (checked_multiply_ok (a_count a) kRanks _ _); [|lia..]. split.
    + intros (z & [-> ?] & Hv). apply validate_buffer_args_ok in Hv; [|done|lia|nia]. tauto.
    + intros Hv. pose proof Hv as (? & ? & _ & Hb & _). apply Hfit in Hb; [|lia].
      exists (a_count a * kRanks). split; [split; [done|nia]|].
      apply validate_buffer_args_ok; [done|lia|nia|]. split; [lia|]. split; [nia|]. tauto.
Qed.

(** C33: The communicator accepts exactly the supported arguments: a positive
    count, non-null buffers and stream, element and byte counts and buffer
    ends that fit [std::size_t], and a send and a receive buffer that share
    no byte. *)
Theorem validate_args_exact c a : representable a ->
  validate_args c a = Ok tt <->
  0 < a_count a /\ a_stream a <> 0 /\
  let sz := dtype_size (a_dtype a) in
  let send_bytes := send_elems c (a_count a) * sz in
  let recv_bytes := recv_elems c (a_count a) * sz in
  addressable (a_send_buffer a) send_bytes /\ addressable (a_recv_buffer a) recv_bytes /\
  (a_send_buffer a + send_bytes <= a_recv_buffer a \/
   a_recv_buffer a + recv_bytes <= a_send_buffer a).
Proof. exact (validate_args_ok c a). Qed.
End Validation.

(** ** Reasoning about state transformers *)

(** [m] keeps [I]: in the final state, whether it returns or throws. *)
Definition keeps {A} (I : Impl -> Prop) (m : M A) : Prop := forall s, I s -> I (m s).1.

(** [m] started in [P] ends in [Q] when it returns and in [E] when it throws. *)
Definition triple {A} (P : Impl -> Prop) (m : M A) (E : Impl -> Prop) (Q : A -> Impl -> Prop) : Prop :=
  forall s, P s -> match m s with (s', Ok a) => Q a s' | (s', Throw _) => E s' end.

Lemma triple_bind {A B} P E R Q (m : M A) (f : A -> M B) :
  triple P m E R -> (forall a, triple (R a) (f a) E Q) -> triple P (m ≫= f) E Q.
Proof.
  intros Hm Hf s Hs. specialize (Hm s Hs). unfold mbind, M_bind.
  destruct (m s) as [s' [a|e]]; [|done]. by apply Hf.
Qed.

Lemma keeps_triple {A} I (m : M A) : keeps I m -> triple I m I (fun _ => I).
Proof. intros Hm s Hs. specialize (Hm s Hs). by destruct (m s) as [s' [a|e]]. Qed.

Lemma triple_conseq {A} (P P' E E' : Impl -> Prop) (Q Q' : A -> Impl -> Prop) (m : M A) :
  triple P' m E' Q' -> (forall s, P s -> P' s) -> (forall s, E' s -> E s) ->
  (forall a s, Q' a s -> Q a s) -> triple P m E Q.
Proof.
  intros Hm HP HE HQ s Hs. specialize (Hm s (HP s Hs)). destruct (m s) as [s' [a|e]]; eauto.
Qed.

Lemma triple_ret {A} (P E : Impl -> Prop) (Q : A -> Impl -> Prop) a :
  (forall s, P s -> Q a s) -> triple P (mret a) E Q.
Proof. intros Hq s Hs. by apply Hq. Qed.

Lemma triple_gets {A} (P E : Impl -> Prop) (f : Impl -> A) :
  triple P (gets f) E (fun a s => P s /\ a = f s).
Proof. by intros s Hs. Qed.

Lemma triple_modify (P E : Impl -> Prop) (Q : unit -> Impl -> Prop) f :
  (forall s, P s -> Q tt (f s)) -> triple P (modify f) E Q.
Proof. intros Hf s Hs. by apply Hf. Qed.

Lemma triple_guard (P E : Impl -> Prop) b e : (forall s, P s -> b = true -> E s) ->
  triple P (guard_not b e) E (fun _ s => P s /\ b = false).
Proof. intros HE s Hs. destruct b; simpl; eauto. Qed.

Lemma triple_on_throw {A} (P E : Impl -> Prop) (Q : A -> Impl -> Prop) m h :
  triple P m (fun s => E (h s)) Q -> triple P (on_throw m h) E Q.
Proof.
  intros Hm s Hs. specialize (Hm s Hs). unfold on_throw. by destruct (m s) as [s' [a|e]].
Qed.

Lemma mbind_inv {A B} (m : M A) (f : A -> M B) s s' b :
  (m ≫= f) s = (s', Ok b) -> exists s1 a, m s = (s1, Ok a) /\ f a s1 = (s', Ok b).
Proof. unfold mbind, M_bind. destruct (m s) as [s1 [a|e]]; [eauto|done]. Qed.

Lemma cuda_inv env c s s' u : cuda env c s = (s', Ok u) -> s' = (tick s).1.
Proof.
  unfold cuda. intros Hc. apply mbind_inv in Hc as (? & ? & [= <- <-] & Hc).
  apply mbind_inv in Hc as (s1 & ? & [= <- <-] & Hc). destruct (e_error env _ c); [done|].
  by injection Hc as <-.
Qed.

Section Keeps.
Context (env : cuda_env) (I : Impl -> Prop).

Lemma keeps_bind {A B} (m : M A) (f : A -> M B) :
  keeps I m -> (forall a, keeps I (f a)) -> keeps I (m ≫= f).
Proof.
  intros Hm Hf s Hs. unfold mbind, M_bind. specialize (Hm s Hs).
  destruct (m s) as [s' [a|e]]; [by apply Hf|done].
Qed.
Lemma keeps_ret {A} (a : A) : keeps I (mret a). Proof. by intros s Hs. Qed.
Lemma keeps_gets {A} (f : Impl -> A) : keeps I (gets f). Proof. by intros s Hs. Qed.
Lemma keeps_lift {A} (r : res A) : keeps I (lift r). Proof. by intros s Hs. Qed.
Lemma keeps_throw {A} e : keeps I (@throw A e). Proof. by intros s Hs. Qed.
Lemma keeps_guard b e : keeps I (guard_not b e). Proof. destruct b; by intros s Hs. Qed.
Lemma keeps_modify f : (forall s, I s -> I (f s)) -> keeps I (modify f).
Proof. intros Hf s Hs. by apply Hf. Qed.

(** The invariants of this file do not depend on the clock. *)
Definition clock_free : Prop := forall s, I s -> I (tick s).1.

Lemma keeps_cuda c : clock_free -> keeps I (cuda env c).
Proof.
  intros HI s Hs. unfold cuda, mbind, M_bind, gets.
  change (tick s) with ((tick s).1, @Ok unit tt).
  destruct (e_error env _ c); by apply HI.
Qed.

Lemma keeps_on_throw {A} (m : M A) h : keeps I m -> (forall s, I s -> I (h s)) -> keeps I (on_throw m h).
Proof.
  intros Hm Hh s Hs. specialize (Hm s Hs). unfold on_throw.
  destruct (m s) as [s' [x|e]]; [done|]. by apply Hh.
Qed.

Lemma keeps_final {A} (m : M A) s : keeps I m -> I s -> I (m s).1.
Proof. intros Hm Hs. specialize (Hm s Hs). by destruct (m s). Qed.

Lemma keeps_reset_events m : clock_free -> keeps I m -> keeps I (reset_events_scope env m).
Proof.
  intros HI Hm. unfold reset_events_scope, reset_events_create, reset_events_record, reset_events_destroy.
  assert (forall c c', keeps I (cuda env c ;; cuda env c')) as Hcc.
  { intros c c'. by apply keeps_bind; [|intros ?]; apply keeps_cuda. }
  apply keeps_bind; [apply Hcc|intros ?]. apply keeps_on_throw.
  - apply keeps_bind; [apply Hcc|intros ?]. by apply keeps_bind; [|intros ?; apply Hcc].
  - intros s Hs. by apply (keeps_final _ s (Hcc SetDevice EventDestroy)).
Qed.
End Keeps.

Create HintDb keeps.
#[export] Hint Resolve keeps_ret keeps_gets keeps_lift keeps_throw keeps_guard keeps_cuda : keeps.

(** Splits a program into its calls. *)
Ltac keeps_step :=
  match goal with
  | |- keeps _ (_ ≫= _) => apply keeps_bind; [|intros ?]
  | |- keeps _ (reset_events_scope _ _) => apply keeps_reset_events; [solve [auto with keeps]|]
  | |- keeps _ (match ?x with _ => _ end) => destruct x
  | |- keeps _ (modify _) => apply keeps_modify
  | |- keeps _ _ => solve [eauto with keeps]
  end.
Ltac keeps_auto := repeat keeps_step.

(** ** Nothing is launched and nothing changes *)

(** [s] differs from [s0] at most in the clock and in [bf16_devices_validated_]. *)
Definition untouched (s0 s : Impl) : Prop :=
  i_life s = i_life s0 /\ i_fifo s = i_fifo s0 /\ i_control_initialized s = i_control_initialized s0 /\
  i_p2p_steps s = i_p2p_steps s0 /\ i_topology s = i_topology s0 /\ i_res s = i_res s0 /\
  t_work (i_cuda s) = t_work (i_cuda s0) /\ t_launches (i_cuda s) = t_launches (i_cuda s0) /\
  t_follows (i_cuda s) = t_follows (i_cuda s0) /\ t_covers (i_cuda s) = t_covers (i_cuda s0) /\
  i_socket_errors s = i_socket_errors s0 /\ i_rdma_errors s = i_rdma_errors s0.

Section Stickiness.
Context `{BuildConfig} (env : cuda_env).

Lemma untouched_clock s0 : clock_free (untouched s0).
Proof. intros s Hs. exact Hs. Qed.
Hint Resolve untouched_clock : keeps.

Lemma untouched_check s0 : keeps (untouched s0) check_async_error.
Proof. unfold check_async_error. keeps_auto. Qed.
Lemma untouched_bf16 s0 : keeps (untouched s0) (ensure_bf16_devices_validated env).
Proof. unfold ensure_bf16_devices_validated, require_bf16_devices. keeps_auto. by intros s Hs. Qed.
Lemma untouched_require s0 : keeps (untouched s0) (require_previous_launch_complete env).
Proof. unfold require_previous_launch_complete. keeps_auto. Qed.

(** A call that fails before the launch leaves the FIFO as it was. *)
Lemma ensure_fifo_throw s0 d n :
  triple (untouched s0) (ensure_fifo_buffers env d n) (untouched s0)
    (fun _ s => f_has_untracked_launch (i_life s0) = true -> untouched s0 s).
Proof.
  unfold ensure_fifo_buffers. eapply triple_bind; [apply keeps_triple; eauto with keeps|].
  intros t. eapply triple_bind; [apply keeps_triple; eauto with keeps|]. intros fr.
  destruct (_ <=? _); [by apply triple_ret|].
  eapply (triple_bind _ _ (fun _ s => untouched s0 s /\ f_has_untracked_launch (i_life s0) = false)).
  { intros s Hs. pose proof (untouched_require s0 s Hs) as Hk.
    destruct (f_has_untracked_launch (i_life s0)) eqn:Eu.
    - unfold require_previous_launch_complete, mbind, M_bind, gets, guard_not. simpl.
      pose proof Hs as [El _]. rewrite El, Eu. exact Hs.
    - by destruct (require_previous_launch_complete env s) as [s' [[]|e]]. }
  intros _. apply (triple_conseq _ (fun s => untouched s0 s /\ f_has_untracked_launch (i_life s0) = false)
    _ (fun s => untouched s0 s /\ f_has_untracked_launch (i_life s0) = false) _
    (fun _ _ => f_has_untracked_launch (i_life s0) = false) _); try tauto; [|intros; congruence].
  assert (clock_free (fun s => untouched s0 s /\ f_has_untracked_launch (i_life s0) = false))
    as Hcf by (by intros s Hs).
  do 3 (eapply triple_bind; [apply keeps_triple; eauto with keeps|]; intros ?).
  apply triple_modify. tauto.
Qed.

(** Nothing has happened, or tracking failed during this call. *)
Definition refused (s0 s : Impl) : Prop :=
  untouched s0 s \/
  f_has_untracked_launch (i_life s0) = false /\ f_has_untracked_launch (i_life s) = true.

Lemma run_typed_throw s0 c a n m :
  triple (untouched s0) (run_typed env c a n m) (refused s0)
    (fun _ _ => f_has_untracked_launch (i_life s0) = false).
Proof.
  unfold run_typed. eapply (triple_bind _ _
    (fun _ s => f_has_untracked_launch (i_life s0) = true -> untouched s0 s)).
  { eapply triple_conseq; [apply (ensure_fifo_throw s0)|done|by left|done]. }
  intros _. eapply triple_bind; [apply triple_gets|]. intros life. cbn beta.
  eapply triple_bind; [apply triple_guard|intros []; cbn beta].
  { intros s [Hs ->] Hu. destruct (f_has_untracked_launch (i_life s0)) eqn:Eu;
      [left; by apply Hs|by right]. }
  eapply (triple_bind _ _ (fun _ _ => f_has_untracked_launch (i_life s0) = false));
    [apply triple_modify|intros []].
  { intros s [[Hs ->] Hu]. destruct (f_has_untracked_launch (i_life s0)) eqn:Eu; [|done].
    destruct (Hs eq_refl) as [El _]. congruence. }
  apply triple_on_throw. intros s Eu. match goal with |- context [?m s] => destruct (m s) as [s' [[]|e]] end;
    [done|by right].
Qed.

Lemma run_collective_throw s0 c a :
  triple (untouched s0) (run_collective env c a) (refused s0)
    (fun _ _ => f_has_untracked_launch (i_life s0) = false).
Proof.
  unfold run_collective, collective_typed.
  assert (forall A (m : M A), keeps (untouched s0) m ->
    triple (untouched s0) m (refused s0) (fun _ => untouched s0)) as Hk.
  { intros A m Hm. eapply triple_conseq; [by apply keeps_triple|done|by left|done]. }
  apply (triple_bind _ _ (fun _ => untouched s0)); [apply Hk, untouched_check|intros []].
  apply (triple_bind _ _ (fun _ => untouched s0)); [apply Hk, keeps_lift|intros []].
  apply (triple_bind _ _ (fun _ => untouched s0)); [|intros []; apply run_typed_throw].
  destruct (decide _); apply Hk; [apply untouched_bf16|apply keeps_ret].
Qed.

(** C34: Failures are contained and final.  A collective that throws has either
    changed nothing and launched nothing, or has marked the communicator;
    once it is marked every later collective throws, launches nothing and
    changes nothing. *)
Theorem failures_are_final s c a :
  (forall s' e, run_collective env c a s = (s', Throw e) ->
     untouched s s' \/ f_has_untracked_launch (i_life s') = true) /\
  (f_has_untracked_launch (i_life s) = true ->
     exists s' e, run_collective env c a s = (s', Throw e) /\ untouched s s').
Proof.
  assert (untouched s s) as Hs by (by unfold untouched).
  pose proof (run_collective_throw s c a s Hs) as Hr.
  destruct (run_collective env c a s) as [s1 [[]|e1]].
  - split; [by intros s' e [=]|]. congruence.
  - unfold refused in Hr. split;
      [|intros Hu; exists s1, e1; split; [done|destruct Hr as [?|[? ?]]; [done|congruence]]].
    intros s' e [= <- <-]. tauto.
Qed.
End Stickiness.
