(* ===== verification/Lifetime.v ===== *)
(** * Lifetime of the communicator's work

    What the completion tracking of [Communicator::Impl] achieves over any
    sequence of collective calls and asynchronous failures: kernels never run
    concurrently, FIFO storage is replaced only when no kernel can use it, and
    the destructor waits for everything that was submitted. *)

From Stdlib Require Import ZArith Lia.
From stdpp Require Import base option numbers tactics strings list gmap.
From S2P Require Import Prelude Types Geometry RingSafety Kernels.
From S2P Require Import AllReduce Standalone Topology Control Communicator.

#[local] Open Scope Z_scope.

(** ** What happens to a communicator *)

Inductive api_event :=
| Call (c : collective) (a : CollectiveArgs)
| SocketFails (what : string)      (* a proxy records its first failure *)
| RdmaFails (what : string).

Definition fail_with (errors : option (option string)) (what : string) : option (option string) :=
  match errors with Some None => Some (Some what) | e => e end.

Definition api_step `{BuildConfig} (env : cuda_env) (s : Impl) (e : api_event) : Impl :=
  match e with
  | Call c a => (run_collective env c a s).1
  | SocketFails what => set_errors (fail_with (i_socket_errors s) what) (i_rdma_errors s) s
  | RdmaFails what => set_errors (i_socket_errors s) (fail_with (i_rdma_errors s) what) s
  end.

Definition api_run `{BuildConfig} (env : cuda_env) (s : Impl) (es : list api_event) : Impl :=
  foldl (api_step env) s es.

(** A communicator after its constructor. *)
Record fresh (s : Impl) : Prop := {
  fr_life : i_life s = Life false false 0 false false false;
  fr_work : t_work (i_cuda s) = 0%nat;
  fr_launches : t_launches (i_cuda s) = [];
  fr_fifo : forall d, fr_slot_elems (i_fifo s d) = 0;
  fr_control : i_control_initialized s = false /\ t_clears (i_cuda s) = [] }.

(** ** The invariant *)

Abbreviation work s := (t_work (i_cuda s)).
Abbreviation after s stream := (t_follows (i_cuda s) stream).

(** Every kernel waits for all the work submitted before it; the kernels are
    listed in the order of their submission. *)
Definition serial (s : Impl) : Prop :=
  (forall l k before, (l, k, before) ∈ t_launches (i_cuda s) ->
     (k < work s)%nat /\ forall j, (j < k)%nat -> j ∈ before) /\
  (forall i j x y, (i < j)%nat -> t_launches (i_cuda s) !! i = Some x ->
     t_launches (i_cuda s) !! j = Some y -> (x.1.2 < y.1.2)%nat).

(** All work is covered by the completion event or by stream [fb], if any. *)
Definition covered (fb : option Z) (s : Impl) : Prop :=
  forall k, (k < work s)%nat ->
    f_recorded (i_life s) = true /\ k ∈ t_covers (i_cuda s) \/
    (exists stream, fb = Some stream /\ k ∈ after s stream).

Definition consistent (s : Impl) : Prop :=
  f_has_launch (i_life s) = f_recorded (i_life s) /\
  (f_recorded (i_life s) = true -> f_event (i_life s) = true).

Definition fallback (s : Impl) : option Z :=
  if f_fallback_in_flight (i_life s) then Some (f_fallback_stream (i_life s)) else None.

(** Between calls. *)
Record tracked (s : Impl) : Prop := {
  tr_consistent : consistent s;
  tr_covered : covered (fallback s) s;
  tr_serial : serial s;
  tr_clean : f_has_untracked_launch (i_life s) = false -> f_fallback_in_flight (i_life s) = false }.

(** During the launch on [stream], before ([mid]) and after ([ordered]) the
    stream waits for the previous launch. *)
Record mid (stream : Z) (s : Impl) : Prop := {
  md_consistent : consistent s;
  md_fallback : fallback s = Some stream;
  md_covered : covered (Some stream) s;
  md_serial : serial s }.
Record ordered (stream : Z) (s : Impl) : Prop := {
  od_mid : mid stream s;
  od_all : forall k, (k < work s)%nat -> k ∈ after s stream }.

Section Tracking.
Context `{BuildConfig} (env : cuda_env).

Lemma tracked_clock : clock_free tracked.
Proof. by intros s []. Qed.
Lemma mid_clock stream : clock_free (mid stream).
Proof. by intros s []. Qed.
Lemma ordered_clock stream : clock_free (ordered stream).
Proof. by intros s [[] ?]. Qed.
#[local] Hint Resolve tracked_clock mid_clock ordered_clock : keeps.

(** The event exists. *)
Definition armed (stream : Z) (s : Impl) : Prop := ordered stream s /\ f_event (i_life s) = true.
Lemma armed_clock stream : clock_free (armed stream).
Proof. by intros s [[[] ?] ?]. Qed.
#[local] Hint Resolve armed_clock : keeps.

Lemma ensure_arms stream :
  triple (ordered stream) (ensure_completion_events env) (ordered stream) (fun _ => armed stream).
Proof.
  unfold ensure_completion_events.
  eapply (triple_bind _ _ (fun _ => ordered stream)); [apply keeps_triple; eauto with keeps|intros []].
  eapply triple_bind; [apply triple_gets|]. intros life. destruct (f_event life) eqn:El.
  { apply triple_ret. by intros s [? ->]. }
  eapply (triple_bind _ _ (fun _ => ordered stream)); [|intros []].
  { eapply triple_conseq; [apply (keeps_triple (ordered stream)); eauto with keeps|tauto|done|done]. }
  apply triple_modify. intros s [[[E1 E2] E3 E4 E5] E6].
  split; [split; [split; [by split|exact E3|exact E4|exact E5]|exact E6]|done].
Qed.

Lemma mid_untracked stream s : mid stream s -> tracked (set_life set_untracked s).
Proof.
  intros [[E1 E2] E3 E4 E5]. split; [by split| |done|done].
  change (fallback (set_life set_untracked s)) with (fallback s). by rewrite E3.
Qed.

(** Work submitted to the stream keeps the order. *)
Lemma ordered_enqueue stream s (t : cuda_state) :
  ordered stream s -> t_work t = S (work s) -> t_covers t = t_covers (i_cuda s) ->
  t_follows t = follow (i_cuda s) stream {[work s]} ->
  (t_launches t = t_launches (i_cuda s) \/
   exists l, t_launches t = t_launches (i_cuda s) ++ [(l, work s, after s stream)]) ->
  ordered stream (set_cuda (fun _ => t) s).
Proof.
  intros [[E1 E2 E3 E4] E5] Hw Hc Hf Hl.
  assert (forall k, (k < S (work s))%nat -> k ∈ follow (i_cuda s) stream {[work s]} stream) as Hall.
  { intros k Hk. unfold follow. rewrite decide_True by done. rewrite elem_of_union, elem_of_singleton.
    destruct (decide (k = work s)); [by left|right]. apply E5. lia. }
  split; [split|]; [done|done| | |]; simpl.
  - intros k Hk. simpl in Hk. right. exists stream. split; [done|]. simpl. rewrite Hf.
    apply Hall. lia.
  - destruct E4 as [E4 E4']. unfold serial. simpl. destruct Hl as [Hl|[l' Hl]]; rewrite Hl, Hw.
    + split; [|done]. intros l k before Hin. destruct (E4 l k before Hin). split; [lia|done].
    + split.
      * intros l k before. rewrite elem_of_app, list_elem_of_singleton.
        intros [Hin|[= -> -> ->]]; [destruct (E4 l k before Hin)|]; split; (done || lia).
      * intros i j x y Hij Hi [Hj|[Hj Hy]]%lookup_app_Some;
          [rewrite lookup_app_l in Hi by (apply lookup_lt_Some in Hj; lia); by apply (E4' i j)|].
        apply list_lookup_singleton_Some in Hy as [Hj0 <-]. rewrite lookup_app_l in Hi by lia.
        destruct x as [[lx kx] bx]. apply list_elem_of_lookup_2 in Hi. by apply E4 in Hi as [? _].
  - intros k Hk. simpl in *. rewrite Hf. apply Hall. lia.
Qed.

Lemma ordered_reset stream counters : keeps (ordered stream) (reset_p2p_steps env counters stream).
Proof.
  unfold reset_p2p_steps. keeps_auto. intros s Hs.
  by eapply (ordered_enqueue stream s (enqueue stream (i_cuda s))); [..|left].
Qed.

Lemma ordered_control stream : keeps (ordered stream) (reset_control env stream).
Proof. unfold reset_control. keeps_auto; try (by intros s [[] ?]). apply ordered_reset. Qed.

Lemma wait_orders stream :
  triple (fun s => mid stream s)
    (wait_for_previous_launch_on_stream env stream) (mid stream) (fun _ => ordered stream).
Proof.
  unfold wait_for_previous_launch_on_stream. eapply triple_bind; [apply triple_gets|]. intros life.
  eapply triple_bind; [apply triple_guard; by intros s [? _]|intros []; cbn beta].
  destruct (f_has_launch life) eqn:El; simpl.
  - eapply (triple_bind _ _ (fun _ s => mid stream s)).
    { eapply triple_conseq; [apply (keeps_triple (mid stream)); eauto with keeps|tauto|done|done]. }
    intros []. eapply (triple_bind _ _ (fun _ s => mid stream s)); [apply keeps_triple; eauto with keeps|].
    intros []. apply triple_modify. intros s [E1 E2 E3 E4].
    assert (forall k, (k < work s)%nat -> k ∈ after (set_cuda (stream_wait stream) s) stream) as Hall.
    { intros k Hk. simpl. unfold follow. rewrite decide_True by done. apply elem_of_union.
      destruct (E3 k Hk) as [[_ ?]|(? & [= <-] & ?)]; tauto. }
    split; [split|]; [done|done| |done|done].
    intros k Hk. right. exists stream. split; [done|]. by apply Hall.
  - apply triple_ret. intros s [[[E1 E2 E3 E4] ->] _]. split; [done|]. intros k Hk.
    destruct (E3 k Hk) as [[Hr _]|(? & [= <-] & ?)]; [|done].
    destruct E1 as [E1 _]. congruence.
Qed.

Lemma record_tracks stream :
  triple (armed stream) (record_completion env stream) (mid stream) (fun _ => tracked).
Proof.
  unfold record_completion. eapply (triple_bind _ _ (fun _ => armed stream)).
  { apply triple_on_throw.
    eapply triple_conseq; [apply (keeps_triple (armed stream)); eauto with keeps|done| |done].
    intros s [[[[E1 E2] E3 E4 E5] _] _]. by split. }
  intros []. eapply (triple_bind _ _ (fun _ s => tracked (set_life (fun l =>
    Life (f_event l) true (f_fallback_stream l) false true (f_has_untracked_launch l)) s)));
    [|intros []; by apply triple_modify].
  apply triple_modify. intros s [[[_ _ _ E5] E6] E7]. split; [by split| |exact E5|done].
  intros k Hk. left. split; [done|]. by apply E6.
Qed.

Lemma launch_tracks stream c a n : a_stream a = stream ->
  triple (ordered stream) (launch_ring_simple env c a n) (mid stream) (fun _ => tracked).
Proof.
  intros Ha. unfold launch_ring_simple.
  assert (forall A (m : M A), keeps (armed stream) m ->
    triple (armed stream) m (mid stream) (fun _ => armed stream)) as Hk.
  { intros A m Hm. eapply triple_conseq; [by apply keeps_triple|done|by intros s [[] ?]|done]. }
  eapply (triple_bind _ _ (fun _ => armed stream)).
  { eapply triple_conseq; [apply ensure_arms|done|by intros s []|done]. }
  intros []. do 3 (eapply (triple_bind _ _ (fun _ => armed stream)); [apply Hk; eauto with keeps|];
    intros ?).
  eapply (triple_bind _ _ (fun _ => armed stream)); [apply Hk; eauto with keeps|intros []].
  eapply (triple_bind _ _ (fun _ => armed stream)); [apply triple_modify|intros []].
  { intros s [Ho He]. split; [|done].
    eapply (ordered_enqueue stream s (enqueue_kernel _ (i_cuda s)) Ho eq_refl eq_refl);
      simpl; rewrite Ha; [done|]. right. by eexists. }
  eapply (triple_bind _ _ (fun _ => armed stream)); [apply Hk; eauto with keeps|intros []].
  rewrite Ha. apply record_tracks.
Qed.

Lemma tracked_fifo d n : keeps tracked (ensure_fifo_buffers env d n).
Proof.
  unfold ensure_fifo_buffers, require_previous_launch_complete. keeps_auto. by intros s [].
Qed.

Lemma begin_mid life stream : f_has_untracked_launch life = false ->
  triple (fun s => tracked s /\ life = i_life s) (begin_fallback_tracking stream) (mid stream)
    (fun _ => mid stream).
Proof.
  intros Hu. apply triple_modify. intros s [[[E1 E2] E3 E4 E5] ->]. split; [by split|done| |exact E4].
  intros k Hk. unfold fallback in E3. rewrite (E5 Hu) in E3.
  destruct (E3 k Hk) as [?|(? & [=] & _)]. by left.
Qed.

Lemma run_typed_tracked c a n m : keeps tracked (run_typed env c a n m).
Proof.
  assert (triple tracked (run_typed env c a n m) tracked (fun _ => tracked)) as Ht;
    [|intros s Hs; specialize (Ht s Hs); by destruct (run_typed env c a n m s) as [s' [[]|e]]].
  unfold run_typed. set (st := a_stream a).
  eapply (triple_bind _ _ (fun _ => tracked)); [apply keeps_triple, tracked_fifo|intros []].
  eapply triple_bind; [apply triple_gets|]. intros life. cbn beta.
  eapply triple_bind; [apply triple_guard; tauto|intros []; cbn beta].
  eapply (triple_bind _ _ (fun _ => mid st)); [|intros []].
  { intros s [Hs Hu]. exact (begin_mid life st Hu s Hs). }
  apply triple_on_throw. eapply (triple_conseq _ (mid st) _ (mid st) _ (fun _ => tracked));
    [|done|apply mid_untracked|done].
  eapply (triple_bind _ _ (fun _ => ordered st)); [apply wait_orders|intros []].
  eapply (triple_bind _ _ (fun _ => ordered st)).
  { eapply triple_conseq; [apply keeps_triple, keeps_gets|done|by intros s []|done]. }
  intros init. eapply (triple_bind _ _ (fun _ => ordered st)); [|intros []; by apply launch_tracks].
  eapply triple_conseq; [apply (keeps_triple (ordered st))|done|by intros s []|done].
  keeps_auto; try (by intros s [[] ?]). apply ordered_control.
Qed.

Lemma tracked_step s e : tracked s -> tracked (api_step env s e).
Proof.
  intros Hs. destruct e as [c a|what|what]; [|by destruct Hs..].
  revert s Hs. change (keeps tracked (run_collective env c a)). unfold run_collective, collective_typed.
  unfold check_async_error, ensure_bf16_devices_validated, require_bf16_devices.
  keeps_auto; try apply run_typed_tracked. by intros s [].
Qed.

Lemma tracked_run s es : fresh s -> tracked (api_run env s es).
Proof.
  intros [Hl Hw Hk _ _]. assert (tracked s) as Hs.
  { split; unfold consistent, fallback, covered, serial; rewrite ?Hl, ?Hw, ?Hk;
      [done|intros k; lia|split; [by intros l k b ?%elem_of_nil|done]|done]. }
  clear Hl Hw Hk. revert s Hs. induction es as [|e es IH]; [done|]. intros s Hs. by apply IH, tracked_step.
Qed.

(** C35: The destructor's wait for the kernels is complete.  After any sequence
    of collectives on any streams, successful or not, and of network failures,
    [release_lifetime_tracking], with which the body of [~Impl] begins, has
    waited for all submitted work when it returns, and it does not throw when no
    CUDA call fails.  The drain, shutdown and join of the proxies that follow in
    the destructor are in RdmaProgress.v. *)
Theorem destructor_waits_for_all s0 es : fresh s0 ->
  let s := api_run env s0 es in
  (forall s' waited, release_lifetime_tracking env s = (s', Ok waited) ->
     forall k, (k < work s)%nat -> k ∈ waited) /\
  ((forall k c, e_error env k c = None) ->
     exists s' waited, release_lifetime_tracking env s = (s', Ok waited)).
Proof.
  intros Hf s. pose proof (tracked_run s0 es Hf) as [[E1 E2] E3 _ _]. fold s in E1, E2, E3. split.
  - intros s' waited Hr.
    assert (waited = (if f_fallback_in_flight (i_life s) then after s (f_fallback_stream (i_life s))
      else ∅) ∪ (if f_event (i_life s) && f_recorded (i_life s) then t_covers (i_cuda s) else ∅))
      as ->.
    { revert Hr. unfold release_lifetime_tracking, cuda, mbind, M_bind, gets, modify, mret, M_ret, throw, tick.
      simpl. repeat (destruct (e_error env _ _); simpl; [done|]).
      repeat (case_match; simpl; try done); congruence. }
    intros k Hk. destruct (E3 k Hk) as [[Hrec Hc]|(st & Hfb & Hc)].
    + rewrite (E2 Hrec), Hrec. apply elem_of_union. by right.
    + unfold fallback in Hfb. destruct (f_fallback_in_flight (i_life s)); [|done].
      injection Hfb as <-. apply elem_of_union. by left.
  - intros He. unfold release_lifetime_tracking, cuda, mbind, M_bind, gets, modify, mret, M_ret, tick.
    simpl. rewrite He. simpl.
    destruct (f_fallback_in_flight (i_life s)), (f_event (i_life s)), (f_recorded (i_life s));
      repeat (simpl; rewrite He); simpl; eauto.
Qed.

(** C36: Collectives of one communicator never run concurrently: whatever
    streams are used, each kernel waits for every kernel launched earlier,
    and for the initialisation of the step counters. *)
Theorem kernels_serialised s0 es i j earlier later : fresh s0 -> (i < j)%nat ->
  t_launches (i_cuda (api_run env s0 es)) !! i = Some earlier ->
  t_launches (i_cuda (api_run env s0 es)) !! j = Some later ->
  earlier.1.2 ∈ later.2 /\ forall k, (k < later.1.2)%nat -> k ∈ later.2.
Proof.
  intros Hf Hij Hi Hj. destruct (tr_serial _ (tracked_run s0 es Hf)) as [Hk Ho].
  pose proof (Ho i j earlier later Hij Hi Hj) as Hlt.
  destruct later as [[l k] before]. apply list_elem_of_lookup_2 in Hj.
  apply Hk in Hj as [_ Hb]. auto.
Qed.
End Tracking.

(** ** FIFO storage *)

Section Storage.
Context `{BuildConfig} (env : cuda_env).

(** FIFO storage in use is never replaced: when a call replaces it, all
    work submitted so far is covered by the completion event, and the event,
    if any work was submitted, has just been found complete. *)
Theorem fifo_replaced_idle s0 es d n s' : fresh s0 ->
  let s := api_run env s0 es in
  ensure_fifo_buffers env d n s = (s', Ok tt) -> i_fifo s' d <> i_fifo s d ->
  (forall k, (k < work s)%nat -> k ∈ t_covers (i_cuda s)) /\
  (work s <> 0%nat -> e_event_ready env (S (t_clock (i_cuda s))) = true).
Proof.
  intros Hf s Hr Hne. pose proof (tracked_run env s0 es Hf) as [[E1 E2] E3 _ E5].
  fold s in E1, E2, E3, E5. clearbody s.
  unfold ensure_fifo_buffers in Hr.
  apply mbind_inv in Hr as (? & t & [= <- <-] & Hr).
  apply mbind_inv in Hr as (? & fr & [= <- <-] & Hr).
  destruct (_ <=? _); [by injection Hr as <-|].
  apply mbind_inv in Hr as (s1 & [] & Hr & _). unfold require_previous_launch_complete in Hr.
  apply mbind_inv in Hr as (? & life & [= <- <-] & Hr).
  apply mbind_inv in Hr as (? & [] & Hg & Hr).
  destruct (f_has_untracked_launch (i_life s)) eqn:Eu; [done|]. injection Hg as <-.
  unfold covered, fallback in E3. rewrite (E5 eq_refl) in E3.
  assert (forall k, (k < work s)%nat -> f_recorded (i_life s) = true /\ k ∈ t_covers (i_cuda s)) as Hc.
  { intros k Hk. by destruct (E3 k Hk) as [?|(? & [=] & _)]. }
  split; [by intros k Hk; apply Hc|]. intros Hw.
  destruct (Hc 0%nat ltac:(lia)) as [Hrec _]. rewrite E1, Hrec in Hr. cbn [negb] in Hr.
  apply mbind_inv in Hr as (? & [] & ->%cuda_inv & Hr).
  apply mbind_inv in Hr as (? & ready & [= <- <-] & Hr). simpl in Hr.
  by destruct (e_event_ready env (S (t_clock (i_cuda s)))).
Qed.

(** ** The kernel of a successful call *)

(** What the constructor and the set-ups of the transports leave behind for the
    kernels of rank [rank]: the FIFO and the control words of its two edges on
    every channel, wherever its transports keep them, and the step counters. *)
Definition net_stored (n : net_resources) : bool := not_null (net_fifo n) && not_null (net_control n).
Definition send_stored (r : Resources) (edge channel : Z) : bool :=
  let v := r_view r channel in
  match edge_kind (r_plan r) edge with
  | Ok Socket => net_stored (r_socket_send r channel edge)
  | Ok Rdma => r_rdma_enabled r && net_stored (r_rdma_send r channel edge)
  | Ok Shm | Ok P2p => not_null (send_fifo v) && not_null (send_head v) && not_null (send_tail v)
  | _ => false
  end.
Definition recv_stored (r : Resources) (edge channel : Z) : bool :=
  let v := r_view r channel in
  match edge_kind (r_plan r) edge with
  | Ok Socket => net_stored (r_socket_recv r channel edge)
  | Ok Rdma => r_rdma_enabled r && net_stored (r_rdma_recv r channel edge)
  | Ok Shm | Ok P2p => not_null (recv_fifo v) && not_null (recv_head v) && not_null (recv_tail v)
  | _ => false
  end.
Record wired (r : Resources) (rank : Z) : Prop := {
  wi_rank : 0 <= rank < kRanks;
  wi_base : not_null (r_base_steps r) = true;
  wi_send channel : 0 <= channel < kChannels -> send_stored r rank channel = true;
  wi_recv channel : 0 <= channel < kChannels ->
    recv_stored r ((rank + kRanks - 1) mod kRanks) channel = true }.

(** No pointer that the kernel follows is null. *)
Definition complete (w : ends) : Prop :=
  not_null (send_fifo w) = true /\ not_null (send_head w) = true /\ not_null (send_tail w) = true /\
  not_null (recv_fifo w) = true /\ not_null (recv_head w) = true /\ not_null (recv_tail w) = true.

Lemma word_add_stored p n : not_null (word_add p n) = not_null p.
Proof. by destruct p. Qed.

Definition all_stored (x : ptr * ptr * ptr) : Prop :=
  not_null x.1.1 = true /\ not_null x.1.2 = true /\ not_null x.2 = true.

Lemma send_end_stored s d pc edge channel : send_stored (i_res s) edge channel = true ->
  exists kind x, edge_kind (r_plan (i_res s)) edge = Ok kind /\
    send_end (storage_of s d pc) kind edge channel = Ok x /\ all_stored x.
Proof.
  unfold send_stored, net_stored. destruct (edge_kind _ _) as [kind|]; [|done].
  destruct kind; try done; rewrite ?andb_true_iff; intros Hs; destruct_and?;
    do 2 eexists; (split; [reflexivity|]); unfold send_end, all_stored; simpl;
    repeat match goal with E : _ = true |- _ => rewrite E; revert E end; rewrite ?andb_false_r; simpl; intros;
    (split; [reflexivity|]); simpl; rewrite ?word_add_stored; by split_and!.
Qed.

Lemma recv_end_stored s d pc edge channel : recv_stored (i_res s) edge channel = true ->
  exists kind x, edge_kind (r_plan (i_res s)) edge = Ok kind /\
    recv_end (storage_of s d pc) kind edge channel = Ok x /\ all_stored x.
Proof.
  unfold recv_stored, net_stored. destruct (edge_kind _ _) as [kind|]; [|done].
  destruct kind; try done; rewrite ?andb_true_iff; intros Hs; destruct_and?;
    do 2 eexists; (split; [reflexivity|]); unfold recv_end, all_stored; simpl;
    repeat match goal with E : _ = true |- _ => rewrite E; revert E end; rewrite ?andb_false_r; simpl; intros;
    (split; [reflexivity|]); simpl; rewrite ?word_add_stored; by split_and!.
Qed.

Lemma kernel_ends_complete s d pc channel : wired (i_res s) (local_rank_offset (i_topology s)) ->
  0 <= channel < kChannels ->
  exists w, kernel_ends (storage_of s d pc) (local_rank_offset (i_topology s)) channel = Ok w /\ complete w.
Proof.
  intros [Hr _ Hs Hv] Hc. unfold kernel_ends. destruct (ring_edges _ Hr) as [-> ->].
  rewrite !(proj2 (Z.ltb_ge _ _)) by (try apply Z.mod_pos_bound, kRanks_pos; lia). simpl.
  destruct (send_end_stored s d pc _ channel (Hs channel Hc)) as (k1 & [[sf sh] st] & -> & H1 & ?).
  destruct (recv_end_stored s d pc _ channel (Hv channel Hc)) as (k2 & [[rf rh] rt] & -> & H2 & ?).
  simpl. rewrite H1. simpl. rewrite H2. simpl. eexists. split; [reflexivity|].
  unfold complete, all_stored in *. simpl in *. tauto.
Qed.

(** What no call changes, and the size of the slots. *)
Definition fifo_sized (t : ProcessTopology) (R : Resources) (s : Impl) : Prop :=
  (i_topology s = t /\ i_res s = R) /\
  forall d, fr_slot_elems (i_fifo s d) = 0 \/ fr_slot_elems (i_fifo s d) = step_elems (dtype_size d).

Lemma fifo_sized_clock t R : clock_free (fifo_sized t R).
Proof. by intros s []. Qed.
Hint Resolve fifo_sized_clock : keeps.

Lemma new_fifo_slots s n fr : new_fifo env s n = Ok fr -> fr_slot_elems fr = n.
Proof. unfold new_fifo. intros Hn. apply bind_ok in Hn as (? & _ & [= <-]). done. Qed.

Lemma fifo_sized_set t R d fr s : fr_slot_elems fr = step_elems (dtype_size d) ->
  fifo_sized t R s -> fifo_sized t R (set_fifo d fr s).
Proof.
  intros Hfr [Ht Hs]. split; [done|]. intros d'. simpl. destruct (decide (d' = d)) as [->|]; auto.
Qed.

Lemma ensure_fifo_sized t R d n : distributed t = true ->
  triple (fifo_sized t R) (ensure_fifo_buffers env d n) (fifo_sized t R)
    (fun _ s => fifo_sized t R s /\ fr_slot_elems (i_fifo s d) = step_elems (dtype_size d)).
Proof.
  intros Hd. unfold ensure_fifo_buffers.
  eapply triple_bind; [apply triple_gets|]. intros t'. cbn beta.
  eapply triple_bind; [apply triple_gets|]. intros fr. cbn beta.
  intros s [[Hs ->] ->]. pose proof Hs as [[-> _] Hsz]. rewrite Hd.
  destruct (Z.leb_spec (step_elems (dtype_size d)) (fr_slot_elems (i_fifo s d))) as [Hle|Hlt].
  - assert (0 <= step_elems (dtype_size d)).
    { unfold step_elems. pose proof kFifoBytes_pos. apply Z.div_pos; [|by destruct d].
      apply Z.div_pos; [lia|done]. }
    split; [done|]. destruct (Hsz d); lia.
  - revert s Hs Hsz Hlt. enough (triple (fifo_sized t R) (require_previous_launch_complete env ;;
      s ← gets id; replacement ← lift (new_fifo env s (step_elems (dtype_size d)));
      cuda env AllocateFifo ;; modify (set_fifo d replacement)) (fifo_sized t R)
      (fun _ s => fifo_sized t R s /\ fr_slot_elems (i_fifo s d) = step_elems (dtype_size d))) as Ht
      by (intros s Hs _ _; exact (Ht s Hs)).
    eapply (triple_bind _ _ (fun _ => fifo_sized t R)).
    { apply keeps_triple. unfold require_previous_launch_complete. keeps_auto. }
    intros []. eapply triple_bind; [apply triple_gets|]. intros s1. cbn beta.
    intros s [Hs ->]. unfold id, mbind at 1, M_bind, lift.
    destruct (new_fifo env s (step_elems (dtype_size d))) as [fr|e] eqn:En; [|done].
    apply new_fifo_slots in En. revert s Hs.
    apply (triple_bind (fifo_sized t R) _ (fun _ => fifo_sized t R)).
    { apply keeps_triple. eauto with keeps. }
    intros []. apply triple_modify. intros s Hs. split; [by apply fifo_sized_set|].
    simpl. by rewrite decide_True.
Qed.

(** Before the kernel is submitted: no new kernel, and the FIFO is sized. *)
Definition staged L t R d (s : Impl) : Prop :=
  t_launches (i_cuda s) = L /\ (i_topology s = t /\ i_res s = R) /\
  fr_slot_elems (i_fifo s d) = step_elems (dtype_size d).
Lemma staged_clock L t R d : clock_free (staged L t R d).
Proof. by intros s []. Qed.
Hint Resolve staged_clock : keeps.

(** The kernel a call is expected to submit. *)
Definition expected t c a (l : launch) : Prop :=
  l_collective l = c /\ l_dtype l = a_dtype a /\ l_redop l = a_redop a /\
  l_input l = a_send_buffer a /\ l_output l = a_recv_buffer a /\ l_stream l = a_stream a /\
  l_args l = KArgs (local_rank_offset t) (a_count a) (step_elems (dtype_size (a_dtype a)))
               (step_elems (dtype_size (a_dtype a))) /\
  (forall channel, 0 <= channel < kChannels -> exists w, l_ends l channel = Ok w /\ complete w) /\
  not_null (l_send_base_steps l) = true /\ not_null (l_recv_base_steps l) = true.

Definition submitted L t c a (s : Impl) : Prop :=
  exists l k before, t_launches (i_cuda s) = L ++ [(l, k, before)] /\ expected t c a l.
Lemma submitted_clock L t c a : clock_free (submitted L t c a).
Proof. by intros s (l & k & b & ? & ?); exists l, k, b. Qed.
Hint Resolve submitted_clock : keeps.

Abbreviation anything := (fun _ : Impl => True).

Lemma triple_any {A} I (m : M A) : keeps I m -> triple I m anything (fun _ => I).
Proof. intros Hm. by eapply triple_conseq; [by apply keeps_triple|..]. Qed.

Lemma launch_submits L t R c a : wired R (local_rank_offset t) ->
  triple (staged L t R (a_dtype a)) (launch_ring_simple env c a (a_count a)) anything
    (fun _ => submitted L t c a).
Proof.
  intros Hw. unfold launch_ring_simple. set (d := a_dtype a).
  apply (triple_bind _ _ (fun _ => staged L t R d)).
  { apply triple_any. unfold ensure_completion_events. by keeps_auto. }
  intros []. eapply triple_bind; [apply triple_gets|]. intros s1. cbn beta.
  intros s [Hs ->]. unfold id. unfold mbind at 1, M_bind at 1, lift at 1.
  destruct (match i_p2p_steps s with Some _ => _ | None => _ end) as [ctl|e]; [|done].
  cbv zeta. unfold mbind at 1, M_bind at 1, lift.
  destruct (foldM _ (zrange kChannels) tt) as [[]|e]; [|done].
  pose proof Hs as (HL & [Ht HR] & Hd). rewrite <- Ht, <- HR in Hw.
  match goal with |- context [enqueue_kernel ?l] => set (kernel := l) end.
  assert (expected t c a kernel) as Hexp.
  { unfold expected, kernel. simpl. rewrite Ht, Hd. split_and!; try done.
    - intros channel Hc. rewrite <-Ht. by apply kernel_ends_complete.
    - unfold first_not_null. destruct (not_null (send_base_steps ctl)) eqn:E; [done|].
      rewrite word_add_stored. apply Hw.
    - unfold first_not_null. destruct (not_null (recv_base_steps ctl)) eqn:E; [done|].
      rewrite word_add_stored. apply Hw. }
  clearbody kernel. clear Hw HL Ht HR Hd. revert s Hs.
  apply (triple_bind (staged L t R d) _ (fun _ => staged L t R d)); [apply triple_any; eauto with keeps|intros []].
  apply (triple_bind _ _ (fun _ => submitted L t c a)); [apply triple_modify|intros []].
  { intros s (HL & _ & _). exists kernel. do 2 eexists. simpl. by rewrite HL. }
  apply (triple_bind _ _ (fun _ => submitted L t c a)); [apply triple_any; eauto with keeps|intros []].
  apply triple_any. unfold record_completion. keeps_auto; [|by intros s (l & k & b & ? & ?); exists l, k, b..].
  intros s Hs. unfold on_throw. pose proof (keeps_cuda env _ EventRecord (submitted_clock L t c a) s Hs) as Hk.
  by destruct (cuda env EventRecord s) as [s' [[]|e]].
Qed.

Lemma run_typed_submits L t R c a m : distributed t = true -> wired R (local_rank_offset t) ->
  triple (fun s => fifo_sized t R s /\ t_launches (i_cuda s) = L) (run_typed env c a (a_count a) m)
    anything (fun _ => submitted L t c a).
Proof.
  intros Hd Hwired. unfold run_typed. set (d := a_dtype a).
  apply (triple_bind _ _ (fun _ => staged L t R d)).
  { intros s [Hs HL]. pose proof (ensure_fifo_sized t R d m Hd s Hs) as Ht.
    assert (keeps (fun s => t_launches (i_cuda s) = L) (ensure_fifo_buffers env d m)) as Hk.
    { unfold ensure_fifo_buffers, require_previous_launch_complete.
      assert (clock_free (fun s => t_launches (i_cuda s) = L)) by (by intros ? ?). by keeps_auto. }
    specialize (Hk s HL). destruct (ensure_fifo_buffers env d m s) as [s' [[]|e]]; [|done].
    by destruct Ht as [[? ?] ?]. }
  intros []. eapply (triple_bind _ _ (fun _ => staged L t R d)); [apply triple_any; eauto with keeps|].
  intros life. eapply (triple_bind _ _ (fun _ => staged L t R d)); [apply triple_any; eauto with keeps|intros []].
  eapply (triple_bind _ _ (fun _ => staged L t R d)); [|intros []].
  { apply triple_any. unfold begin_fallback_tracking. by keeps_auto. }
  apply triple_on_throw. eapply (triple_bind _ _ (fun _ => staged L t R d)); [|intros []].
  { eapply triple_conseq; [apply (triple_any (staged L t R d))|done..].
    unfold wait_for_previous_launch_on_stream. by keeps_auto. }
  eapply (triple_bind _ _ (fun _ => staged L t R d)).
  { eapply triple_conseq; [apply (triple_any (staged L t R d)); eauto with keeps|done..]. }
  intros init. eapply (triple_bind _ _ (fun _ => staged L t R d)); [|intros []].
  { eapply triple_conseq; [apply (triple_any (staged L t R d))|done..].
    unfold reset_control, reset_p2p_steps. by keeps_auto. }
  eapply triple_conseq; [by apply (launch_submits L t R)|done..].
Qed.

Lemma run_collective_submits L t R c a : distributed t = true -> wired R (local_rank_offset t) ->
  triple (fun s => fifo_sized t R s /\ t_launches (i_cuda s) = L) (run_collective env c a)
    anything (fun _ s => submitted L t c a s /\ validate_args c a = Ok tt).
Proof.
  intros Hd Hwired. unfold run_collective, collective_typed.
  assert (clock_free (fun s => fifo_sized t R s /\ t_launches (i_cuda s) = L)) as Hcf by by intros s [[[]] ?].
  apply (triple_bind _ _ (fun _ s => fifo_sized t R s /\ t_launches (i_cuda s) = L)); [|intros []].
  { apply triple_any. unfold check_async_error. keeps_auto. }
  intros s Hs. unfold mbind at 1, M_bind at 1, lift.
  destruct (validate_args c a) as [[]|e]; [|done]. revert s Hs.
  apply (triple_bind _ _ (fun _ s => fifo_sized t R s /\ t_launches (i_cuda s) = L)); [|intros []].
  { apply triple_any. destruct (decide _); [|eauto with keeps].
    unfold ensure_bf16_devices_validated, require_bf16_devices. by keeps_auto. }
  eapply triple_conseq; [by apply (run_typed_submits L t R)|done|done|done].
Qed.

Lemma fifo_sized_step t R s e : distributed t = true -> fifo_sized t R s -> fifo_sized t R (api_step env s e).
Proof.
  intros Hd Hs. destruct e as [c a|what|what]; [|by destruct Hs..].
  revert s Hs. change (keeps (fifo_sized t R) (run_collective env c a)).
  assert (forall d n, keeps (fifo_sized t R) (ensure_fifo_buffers env d n)) as He.
  { intros d n s Hs. pose proof (ensure_fifo_sized t R d n Hd s Hs) as Ht.
    by destruct (ensure_fifo_buffers env d n s) as [s' [[]|e]]; [destruct Ht|]. }
  assert (forall A (m : M A) h, keeps (fifo_sized t R) m -> (forall s, fifo_sized t R s -> fifo_sized t R (h s)) ->
    keeps (fifo_sized t R) (on_throw m h)) as Ho.
  { intros A m h Hm Hh s Hs. specialize (Hm s Hs). unfold on_throw.
    destruct (m s) as [s' [x|e]]; [done|]. by apply Hh. }
  unfold run_collective, collective_typed, run_typed, check_async_error, ensure_bf16_devices_validated,
    require_bf16_devices,
    begin_fallback_tracking, wait_for_previous_launch_on_stream, reset_control, reset_p2p_steps,
    launch_ring_simple, ensure_completion_events, record_completion.
  keeps_auto; try done; try apply He; try (apply Ho; [keeps_auto|]; done).
Qed.

Lemma fifo_sized_run s0 es : fresh s0 -> distributed (i_topology s0) = true ->
  fifo_sized (i_topology s0) (i_res s0) (api_run env s0 es).
Proof.
  intros [_ _ _ Hf _] Hd. assert (fifo_sized (i_topology s0) (i_res s0) s0) as Hs by (split; auto).
  clear Hf. revert Hs. generalize (i_res s0) as R. generalize s0 at 2 4. induction es as [|e es IH]; [done|].
  intros R s Hs. by apply IH, fifo_sized_step.
Qed.

(** *** The step counters

    The host clears them once, before it submits the first kernel: the kernels
    find zeros or what the kernels before them have left. *)
Record cleared_once (s : Impl) : Prop := {
  co_first x n : (x, n) ∈ t_clears (i_cuda s) -> n = 0%nat;
  co_idle : i_control_initialized s = false -> t_launches (i_cuda s) = [];
  co_done : i_control_initialized s = true ->
    (r_steps (i_res s), 0%nat) ∈ t_clears (i_cuda s) /\
    (r_base_steps (i_res s), 0%nat) ∈ t_clears (i_cuda s) }.
Definition cleared_before (s : Impl) : Prop := cleared_once s /\ i_control_initialized s = true.

Lemma cleared_once_clock : clock_free cleared_once.
Proof. by intros s []. Qed.
Lemma cleared_before_clock : clock_free cleared_before.
Proof. by intros s [[] ?]. Qed.
Hint Resolve cleared_once_clock cleared_before_clock : keeps.

Lemma cleared_same s s' : t_clears (i_cuda s') = t_clears (i_cuda s) ->
  i_control_initialized s' = i_control_initialized s -> t_launches (i_cuda s') = t_launches (i_cuda s) ->
  i_res s' = i_res s -> cleared_once s -> cleared_once s'.
Proof. intros E1 E2 E3 E4 []. by split; rewrite ?E1, ?E2, ?E3, ?E4. Qed.

Lemma cleared_fifo d n : keeps cleared_once (ensure_fifo_buffers env d n).
Proof.
  unfold ensure_fifo_buffers, require_previous_launch_complete. keeps_auto. intros s. by apply cleared_same.
Qed.

(** While the counters are being cleared. *)
Definition uninitialised (s : Impl) : Prop := cleared_once s /\ i_control_initialized s = false.
Definition both_cleared (s : Impl) : Prop := uninitialised s /\
  (r_steps (i_res s), 0%nat) ∈ t_clears (i_cuda s) /\ (r_base_steps (i_res s), 0%nat) ∈ t_clears (i_cuda s).
Lemma uninitialised_clock : clock_free uninitialised.
Proof. by intros s [[] ?]. Qed.
Lemma both_cleared_clock : clock_free both_cleared.
Proof. by intros s [[[] ?] ?]. Qed.
Hint Resolve uninitialised_clock both_cleared_clock : keeps.

Lemma clear_uninitialised array s : uninitialised s -> uninitialised (set_cuda (clear_words array) s).
Proof.
  intros [[H1 H2 H3] H4]. split; [|done]. split; simpl; [|done|by rewrite H4].
  intros x n [Hin|[= -> ->]%list_elem_of_singleton]%elem_of_app; [by eapply H1|]. by rewrite (H2 H4).
Qed.

Lemma both_cleared_same s s' : t_clears (i_cuda s') = t_clears (i_cuda s) ->
  i_control_initialized s' = i_control_initialized s -> t_launches (i_cuda s') = t_launches (i_cuda s) ->
  i_res s' = i_res s -> both_cleared s -> both_cleared s'.
Proof.
  intros E1 E2 E3 E4 [[H1 H2] H3]. unfold both_cleared, uninitialised. rewrite E1, E2, E4.
  split; [|done]. split; [|done]. by eapply cleared_same.
Qed.

Lemma reset_control_clears stream :
  triple uninitialised (reset_control env stream) cleared_once (fun _ => both_cleared).
Proof.
  unfold reset_control.
  eapply (triple_bind _ _ (fun _ s => uninitialised s /\ (r_steps (i_res s), 0%nat) ∈ t_clears (i_cuda s))).
  { apply triple_modify. intros s Hs. split; [by apply clear_uninitialised|]. simpl.
    apply elem_of_app. right. rewrite (co_idle _ (proj1 Hs) (proj2 Hs)). left. }
  intros []. eapply (triple_bind _ _ (fun _ => both_cleared)).
  { apply triple_modify. intros s [Hs Hin]. split; [by apply clear_uninitialised|]. simpl.
    split; [apply elem_of_app; by left|]. apply elem_of_app. right.
    rewrite (co_idle _ (proj1 Hs) (proj2 Hs)). left. }
  intros []. eapply triple_conseq; [apply (keeps_triple both_cleared)|done|by intros s [[] _]|done].
  unfold reset_p2p_steps. keeps_auto. intros s. by apply both_cleared_same.
Qed.

Lemma launch_cleared c a n : triple cleared_before (launch_ring_simple env c a n) cleared_once (fun _ => cleared_once).
Proof.
  eapply triple_conseq; [apply (keeps_triple cleared_before)|done|by intros s []|by intros _ s []].
  unfold launch_ring_simple, ensure_completion_events, record_completion.
  keeps_auto; try (intros s [Hs Hi]; split; [|done]; revert Hs; by apply cleared_same).
  2: { apply keeps_on_throw; [eauto with keeps|].
       intros s [Hs Hi]. split; [|done]. revert Hs. by apply cleared_same. }
  intros s [[H1 H2 H3] Hi]. split; [|done]. split; [exact H1| |exact H3]. intros Hf. simpl in Hf. congruence.
Qed.

Lemma run_typed_cleared c a n m : keeps cleared_once (run_typed env c a n m).
Proof.
  assert (triple cleared_once (run_typed env c a n m) cleared_once (fun _ => cleared_once)) as Ht;
    [|intros s Hs; specialize (Ht s Hs); by destruct (run_typed env c a n m s) as [s' [[]|e]]].
  unfold run_typed.
  eapply (triple_bind _ _ (fun _ => cleared_once)); [apply keeps_triple, cleared_fifo|intros []].
  eapply (triple_bind _ _ (fun _ => cleared_once)); [apply keeps_triple; eauto with keeps|intros life].
  eapply (triple_bind _ _ (fun _ => cleared_once)); [apply keeps_triple; eauto with keeps|intros []].
  eapply (triple_bind _ _ (fun _ => cleared_once)).
  { apply keeps_triple, keeps_modify. intros s. by apply cleared_same. }
  intros []. apply triple_on_throw.
  eapply (triple_conseq _ cleared_once _ cleared_once _ (fun _ => cleared_once));
    [|done|intros s; by apply cleared_same|done].
  eapply (triple_bind _ _ (fun _ => cleared_once)).
  { apply keeps_triple. unfold wait_for_previous_launch_on_stream. keeps_auto. intros s. by apply cleared_same. }
  intros []. eapply triple_bind; [apply triple_gets|]. intros init. cbn beta.
  eapply (triple_bind _ _ (fun _ => cleared_before)); [|intros []; apply launch_cleared].
  destruct init; [apply triple_ret; by intros s [? ?]|].
  eapply (triple_conseq _ uninitialised _ cleared_once _ (fun _ => cleared_before)); [|by intros s [? ?]|done|done].
  assert (forall A (x : M A), keeps uninitialised x ->
    triple uninitialised x cleared_once (fun _ => uninitialised)) as Hk.
  { intros A x Hx. eapply triple_conseq; [by apply keeps_triple|done|by intros s []|done]. }
  eapply (triple_bind _ _ (fun _ => uninitialised)); [apply Hk; eauto with keeps|intros s1].
  eapply (triple_bind _ _ (fun _ => uninitialised)).
  { apply Hk. keeps_auto. intros s [Hs Hi]. split; [|done]. revert Hs. by apply cleared_same. }
  intros []. eapply (triple_bind _ _ (fun _ => both_cleared)); [apply reset_control_clears|intros []].
  apply triple_modify. intros s [[[H1 H2 H3] Hi] [H4 H5]]. split; [|done]. by split.
Qed.

Lemma cleared_run s0 es : fresh s0 -> cleared_once (api_run env s0 es).
Proof.
  intros [_ _ Hl _ [Hc Ht]]. assert (cleared_once s0) as Hs.
  { split; rewrite ?Hl, ?Hc, ?Ht; [by intros x n ?%elem_of_nil|done|done]. }
  clear Hl Hc Ht. revert s0 Hs. induction es as [|e es IH]; intros s Hs; [done|]. apply IH.
  destruct e as [c a|what|what]; [|revert Hs; by apply cleared_same..].
  revert s Hs. change (keeps cleared_once (run_collective env c a)). unfold run_collective, collective_typed.
  unfold check_async_error, ensure_bf16_devices_validated, require_bf16_devices.
  keeps_auto; try apply run_typed_cleared. intros s. by apply cleared_same.
Qed.

(** FIFO slots of a distributed ring hold whole vectors when [kFifoBytes] is a
    multiple of eight of them. *)
Lemma step_elems_vectors d : (kFifoSteps * kVectorBytes | kFifoBytes) -> kFifoBytes < 2 ^ 60 ->
  0 < step_elems (dtype_size d) < 2 ^ 60 /\
  (kVectorBytes / dtype_size d | step_elems (dtype_size d)).
Proof.
  intros [q Hq] Hb. pose proof kFifoBytes_pos as Hp. unfold step_elems. rewrite Hq in *.
  change kFifoSteps with 8 in *. change kVectorBytes with 16 in *.
  replace (q * (8 * 16) / 8) with (16 * q) by (replace (q * (8 * 16)) with (16 * q * 8) by lia;
    by rewrite Z.div_mul).
  destruct d; simpl.
  1: replace (16 * q / 4) with (q * 4) by (replace (16 * q) with (q * 4 * 4) by lia; by rewrite Z.div_mul);
     change (16 / 4) with 4.
  2, 3: replace (16 * q / 2) with (q * 8) by (replace (16 * q) with (q * 8 * 2) by lia; by rewrite Z.div_mul);
     change (16 / 2) with 8.
  all: split; [lia|by exists q].
Qed.

(** C12: On a communicator of a distributed ring whose constructor has wired the
    edges of its rank, whatever happened before, a collective that returns has
    submitted exactly one kernel, for the buffers, count, element type and
    stream of the call.  On every channel all six pointers of the kernel's ends
    and both pointers to its base steps are there; the step counters have been
    cleared, and never after a kernel had been submitted; and the element size,
    count, slot size and channel meet the conditions [launch_ok] or [dense_ok]
    under which the ring kernels are correct, for at least two ranks, a FIFO of
    whole vectors and counts below 2^62. *)
Theorem launch_meets_preconditions s0 es c a s' :
  fresh s0 -> distributed (i_topology s0) = true -> wired (i_res s0) (local_rank_offset (i_topology s0)) ->
  representable a ->
  2 <= kRanks -> (kFifoSteps * kVectorBytes | kFifoBytes) -> kFifoBytes < 2 ^ 60 ->
  (a_count a + 1024 * kRanks) * kChannels < 2 ^ 62 -> kRanks * a_count a < 2 ^ 62 ->
  let s := api_run env s0 es in
  run_collective env c a s = (s', Ok tt) ->
  exists l k before,
    t_launches (i_cuda s') = t_launches (i_cuda s) ++ [(l, k, before)] /\
    expected (i_topology s0) c a l /\
    ((r_steps (i_res s0), 0%nat) ∈ t_clears (i_cuda s') /\ (r_base_steps (i_res s0), 0%nat) ∈ t_clears (i_cuda s') /\
     forall array submitted, (array, submitted) ∈ t_clears (i_cuda s') -> submitted = 0%nat) /\
    let sz := dtype_size (l_dtype l) in
    let k := l_args l in
    forall channel, 0 <= channel < kChannels ->
      match c with
      | CAllReduce => launch_ok sz (ka_count k) (ka_slot_elems k) (ka_step_elems k) channel
      | _ => dense_ok sz (ka_count k) (ka_slot_elems k) (ka_step_elems k) channel
      end.
Proof.
  intros Hf Hd Hwd Ha Hn Hv Hb Hfit Htot s Hr.
  pose proof (run_collective_submits (t_launches (i_cuda s)) (i_topology s0) (i_res s0) c a Hd Hwd s
    (conj (fifo_sized_run s0 es Hf Hd) eq_refl)) as Ht. rewrite Hr in Ht.
  destruct Ht as [(l & k & before & HL & Hexp) Hval]. exists l, k, before.
  split; [done|]. split; [done|]. split.
  { pose proof (cleared_run s0 (es ++ [Call c a]) Hf) as Hc.
    pose proof (fifo_sized_run s0 (es ++ [Call c a]) Hf Hd) as [[_ HR] _].
    unfold api_run in Hc, HR. rewrite foldl_app in Hc, HR. simpl in Hc, HR. fold (api_run env s0 es) in Hc, HR.
    fold s in Hc, HR. rewrite Hr in Hc, HR. simpl in Hc, HR. destruct Hc as [H1 H2 H3]. rewrite HR in H3.
    destruct (i_control_initialized s'); [by destruct (H3 eq_refl)|].
    rewrite (H2 eq_refl) in HL. by destruct (t_launches (i_cuda s)). }
  apply validate_args_ok in Hval as (Hpos & _); [|done].
  destruct Hexp as (_ & -> & _ & _ & _ & _ & -> & _). simpl. intros channel Hch.
  destruct (step_elems_vectors (a_dtype a) Hv Hb) as [Hs Hdiv].
  assert (elem_size (dtype_size (a_dtype a))) by (destruct (a_dtype a); [by left|by right..]).
  destruct c; split; (done || lia).
Qed.
End Storage.

Module LifetimeWitness.
#[local] Existing Instance small_config.

(** No CUDA call fails, and previous work is found complete. *)
Definition quiet : cuda_env := {|
  e_error _ _ := None; e_event_ready _ := true; e_major := 9;
  e_fifo_block k c e := Z.of_nat k + 100 * c + 1000 * e; e_counter_block k r := Z.of_nat k + r |}.
(** The fifth call fails: the first kernel launch. *)
Definition failing : cuda_env := {|
  e_error k _ := if decide (k = 4%nat) then Some "launch failure"%string else None;
  e_event_ready _ := true; e_major := 9;
  e_fifo_block k c e := Z.of_nat k + 100 * c + 1000 * e; e_counter_block k r := Z.of_nat k + r |}.

Definition process0 : ProcessTopology := {|
  global_rank_count := 3; local_rank_offset := 0; devices := [0];
  edge_kinds := ControlWitness.ring_kinds; distributed := true |}.
Definition process0_local : ProcessTopology := {|
  global_rank_count := 3; local_rank_offset := 0; devices := [0; 1; 2];
  edge_kinds := [Shm; Shm; Shm]; distributed := false |}.

Definition start_with (t : ProcessTopology) (view : Z -> ends) : Impl := {|
  i_device := 0; i_topology := t;
  i_res := {| r_plan := Plan (edge_kinds t); r_rdma_enabled := false; r_rdma_gdr_enabled := false;
    r_socket_send _ _ := Net None None; r_socket_recv c _ := Net (Some (Loc (50 + c) 0)) (Some (Loc (60 + c) 0));
    r_rdma_send _ _ := Net None None; r_rdma_recv _ _ := Net None None;
    r_view := view; r_steps := Some (Loc 70 0); r_base_steps := Some (Loc 71 0);
    r_socket_abort := Some (Loc 72 0); r_rdma_abort := None |};
  i_socket_errors := Some None; i_rdma_errors := None;
  i_fifo _ := {| fr_slot_elems := 0; fr_shm_fifo _ _ := None; fr_p2p_fifo _ _ := None |};
  i_p2p_steps := None; i_bf16_devices_validated := false; i_control_initialized := false;
  i_life := Life false false 0 false false false;
  i_cuda := Cuda 0 0 (fun _ => ∅) ∅ [] [] |}.
Definition start : Impl := start_with process0 (ControlWitness.view_of 0).
Definition start_local : Impl := start_with process0_local (fun _ => no_ends).

Definition args (stream count : Z) : CollectiveArgs :=
  {| a_send_buffer := 4096; a_recv_buffer := 8192; a_stream := stream; a_count := count;
     a_dtype := Float; a_redop := Sum |}.
Lemma start_fresh : fresh start.
Proof. by split. Qed.
Lemma start_wired : wired (i_res start) (local_rank_offset (i_topology start)).
Proof.
  split; [by vm_compute|done|..]; intros channel Hc;
    (assert (channel = 0 \/ channel = 1) as [-> | ->] by (simpl in Hc; lia)); by vm_compute.
Qed.
Definition two_streams : list api_event := [Call CAllReduce (args 7 48); Call CAllGather (args 8 10)].

Lemma validate_args_exact_witness :
  validate_args CReduceScatter (args 7 341) = Ok tt /\ validate_args CReduceScatter (args 7 342) <> Ok tt.
Proof.
  assert (representable (args 7 341)) as H1 by (by split).
  assert (representable (args 7 342)) as H2 by (by split).
  split.
  - apply (validate_args_exact CReduceScatter _ H1). vm_compute. intuition congruence.
  - intros Hv. apply (validate_args_exact CReduceScatter _ H2) in Hv. vm_compute in Hv.
    destruct Hv as (_ & _ & _ & _ & [Hv|Hv]); by apply Hv.
Defined.

Lemma failing_run : exists s e,
  run_collective failing CAllReduce (args 7 48) start = (s, Throw e) /\
  f_has_untracked_launch (i_life s) = true /\ work s = 1%nat.
Proof. do 2 eexists. split; [vm_compute; reflexivity|]. done. Qed.

Lemma destructor_waits_for_all_witness :
  (exists s' waited, release_lifetime_tracking quiet (api_run quiet start two_streams) = (s', Ok waited)) /\
  (forall s' waited, release_lifetime_tracking failing (api_run failing start two_streams) = (s', Ok waited) ->
     0%nat ∈ waited).
Proof.
  split.
  - apply (destructor_waits_for_all quiet start two_streams); done.
  - destruct (destructor_waits_for_all failing start two_streams) as [H _]; [by split|].
    intros s' waited Hr. apply (H s' waited Hr). vm_compute. lia.
Defined.

Lemma kernels_serialised_witness : exists earlier later,
  t_launches (i_cuda (api_run quiet start two_streams)) = [earlier; later] /\ earlier.1.2 ∈ later.2.
Proof.
  destruct (t_launches (i_cuda (api_run quiet start two_streams))) as [|x [|y [|z l]]] eqn:E;
    [by vm_compute in E..| |by vm_compute in E].
  exists x, y. split; [done|].
  destruct (kernels_serialised quiet start two_streams 0 1 x y) as [H _];
    [exact start_fresh|lia|by rewrite E..|exact H].
Defined.

(** A ring inside one process grows its FIFO for a larger count. *)
Definition grown : Impl := (ensure_fifo_buffers quiet Float 100000 (api_run quiet start_local
  [Call CAllReduce (args 7 48)])).1.

Lemma fifo_replaced_idle_witness :
  work (api_run quiet start_local [Call CAllReduce (args 7 48)]) = 1%nat /\
  0%nat ∈ t_covers (i_cuda (api_run quiet start_local [Call CAllReduce (args 7 48)])).
Proof.
  split; [by vm_compute|].
  refine (proj1 (fifo_replaced_idle quiet start_local [Call CAllReduce (args 7 48)] Float 100000 grown
    _ _ _) 0%nat _); [by split|by vm_compute| |vm_compute; lia].
  intros E. apply (f_equal fr_slot_elems) in E. by vm_compute in E.
Defined.

Lemma launch_meets_preconditions_witness : exists l k before,
  t_launches (i_cuda (api_run quiet start two_streams)) =
    t_launches (i_cuda (api_run quiet start [Call CAllReduce (args 7 48)])) ++ [(l, k, before)] /\
  l_args l = KArgs 0 10 32 32.
Proof.
  destruct (launch_meets_preconditions quiet start [Call CAllReduce (args 7 48)] CAllGather (args 8 10)
    (api_run quiet start two_streams)) as (l & k & before & HL & Hx & _);
    [exact start_fresh|done|exact start_wired|by split|done| |done..| |].
  - by exists 8.
  - by vm_compute.
  - exists l, k, before. split; [exact HL|]. by destruct Hx as (_ & _ & _ & _ & _ & _ & -> & _).
Defined.
End LifetimeWitness.
