(* ===== verification/CApi.v ===== *)
(** * The C interface

    src/c_api.cc, src/c_api_internal.h and
    src/collective/all_reduce/mpi_c_api.cc: argument checks in front of the C++
    communicator, the translation of exceptions to statuses, the diagnostic of
    the last call, and the leases on the MPI runtime.

    [return fail(NANO_NCCL_STATUS_INVALID_ARGUMENT, message)] in a check is
    written as the exception that has the same effect. *)

From Stdlib Require Import ZArith Lia.
From stdpp Require Import base option numbers tactics strings list gmap.
From S2P Require Import Prelude Types Topology Communicator Lifetime.

#[local] Open Scope Z_scope.

(** ** Values of the interface *)

Definition STATUS_SUCCESS : Z := 0.
Definition STATUS_INVALID_ARGUMENT : Z := 1.
Definition STATUS_UNSUPPORTED : Z := 2.
Definition STATUS_ERROR : Z := 3.

Definition to_cpp_dtype (value : Z) : option DType :=
  if value =? 0 then Some Float else if value =? 1 then Some Float16
  else if value =? 2 then Some BFloat16 else None.

Definition to_cpp_redop (value : Z) : option RedOp :=
  if value =? 0 then Some Sum else if value =? 1 then Some Avg
  else if value =? 2 then Some Max else if value =? 3 then Some Min else None.

Definition from_cpp_transport (transport : TransportKind) : Z :=
  match transport with
  | Auto => 0 | Shm => 1 | P2p => 2 | Socket => 3 | Rdma => 4 | Mixed => 5
  end.

Definition to_cpp_transport (transport : Z) : res TransportKind :=
  if transport =? 0 then Ok Auto else if transport =? 1 then Ok Shm
  else if transport =? 2 then Ok P2p else if transport =? 3 then Ok Socket
  else if transport =? 4 then Ok Rdma
  else Throw (InvalidArgument "MPI subgroup transport must be auto, shm, p2p, socket, or rdma").

Definition status_string (status : Z) : string :=
  if status =? STATUS_SUCCESS then "success"
  else if status =? STATUS_INVALID_ARGUMENT then "invalid argument"
  else if status =? STATUS_UNSUPPORTED then "unsupported"
  else if status =? STATUS_ERROR then "error" else "unknown status".

(** The argument structs; AllGather has no [ca_redop]. *)
Record c_args := {
  ca_send_buffer : Z; ca_recv_buffer : Z; ca_stream : Z; ca_count : Z;
  ca_dtype : Z; ca_redop : Z }.

(** ** The diagnostic *)

(** The thread's [last_error] and the communicator behind a handle: a null
    handle, a handle without communicator, or a communicator. *)
Record c_state := CState { last_error : string; handle : option (option Impl) }.

(** [snprintf] into [last_error[1024]]. *)
Definition fail (status : Z) (message : string) (st : c_state) : c_state * Z :=
  (CState (String.substring 0 1023 message) (handle st), status).
Definition begin_call (st : c_state) : c_state := CState "" (handle st).

Section CApi.
Context `{BuildConfig} (env : cuda_env) (out_of_range_what : string).

Definition what (e : exn) : string :=
  match e with
  | RuntimeError w | InvalidArgument w | LogicError w => w
  | OutOfRange => out_of_range_what
  end.

Definition translate_exceptions {A} (r : res A) (st : c_state) : c_state * Z :=
  match r with
  | Ok _ => (st, STATUS_SUCCESS)
  | Throw (InvalidArgument w) => fail STATUS_INVALID_ARGUMENT w st
  | Throw e => fail STATUS_ERROR (what e) st
  end.

(** ** Checks *)

Definition refuse {A} (message : string) : res A := Throw (InvalidArgument message).

Definition validate_handle (h : option (option Impl)) : res Impl :=
  match h with
  | Some (Some impl) => Ok impl
  | _ => refuse "communicator must be non-null"
  end.

Definition c_validate_buffer_args (send_buffer recv_buffer stream count : Z) : res unit :=
  if (send_buffer =? 0) || (recv_buffer =? 0) || (stream =? 0)
  then refuse "collective buffers and stream must be non-null" else
  if count =? 0 then refuse "collective count must be positive" else
  if send_buffer =? recv_buffer then refuse "in-place collectives are unsupported" else Ok tt.

Definition c_checked_multiply (lhs rhs : Z) : option Z :=
  if SIZE_MAX / rhs <? lhs then None else Some (u64 (lhs * rhs)).

Definition c_dtype_size (dtype : Z) : Z := if dtype =? 0 then 4 else 2.

Definition validate_buffer_overlap (send_buffer recv_buffer send_count recv_count dtype : Z) :
    res unit :=
  let element_size := c_dtype_size dtype in
  match c_checked_multiply send_count element_size, c_checked_multiply recv_count element_size with
  | Some send_bytes, Some recv_bytes =>
      if SIZE_MAX - send_buffer <? send_bytes
      then refuse "collective send address range overflows" else
      if SIZE_MAX - recv_buffer <? recv_bytes
      then refuse "collective receive address range overflows" else
      if (send_buffer <? u64 (recv_buffer + recv_bytes)) &&
         (recv_buffer <? u64 (send_buffer + send_bytes))
      then refuse "overlapping send and receive buffers are unsupported" else Ok tt
  | _, _ => refuse "collective byte count overflows"
  end.

Definition some_or {A} (o : option A) (message : string) : res A :=
  match o with Some a => Ok a | None => refuse message end.

(** ** Collectives: the checks, then the call *)

Definition check_all_reduce (st : c_state) (args : option c_args) : res (Impl * CollectiveArgs) :=
  impl ← validate_handle (handle st);
  a ← some_or args "all_reduce args must be non-null";
  c_validate_buffer_args (ca_send_buffer a) (ca_recv_buffer a) (ca_stream a) (ca_count a) ;;
  dtype ← some_or (to_cpp_dtype (ca_dtype a)) "unsupported dtype value";
  validate_buffer_overlap (ca_send_buffer a) (ca_recv_buffer a) (ca_count a) (ca_count a)
    (ca_dtype a) ;;
  redop ← some_or (to_cpp_redop (ca_redop a)) "unsupported reduction operation value";
  Ok (impl, Build_CollectiveArgs (ca_send_buffer a) (ca_recv_buffer a) (ca_stream a) (ca_count a)
              dtype redop).

Definition check_reduce_scatter (st : c_state) (args : option c_args) : res (Impl * CollectiveArgs) :=
  impl ← validate_handle (handle st);
  a ← some_or args "reduce_scatter args must be non-null";
  c_validate_buffer_args (ca_send_buffer a) (ca_recv_buffer a) (ca_stream a) (ca_count a) ;;
  dtype ← some_or (to_cpp_dtype (ca_dtype a)) "unsupported dtype value";
  send_count ← some_or (c_checked_multiply (ca_count a) kRanks) "reduce_scatter element count overflows";
  validate_buffer_overlap (ca_send_buffer a) (ca_recv_buffer a) send_count (ca_count a)
    (ca_dtype a) ;;
  redop ← some_or (to_cpp_redop (ca_redop a)) "unsupported reduction operation value";
  Ok (impl, Build_CollectiveArgs (ca_send_buffer a) (ca_recv_buffer a) (ca_stream a) (ca_count a)
              dtype redop).

(** The operation of the record is not used. *)
Definition check_all_gather (st : c_state) (args : option c_args) : res (Impl * CollectiveArgs) :=
  impl ← validate_handle (handle st);
  a ← some_or args "all_gather args must be non-null";
  c_validate_buffer_args (ca_send_buffer a) (ca_recv_buffer a) (ca_stream a) (ca_count a) ;;
  dtype ← some_or (to_cpp_dtype (ca_dtype a)) "unsupported dtype value";
  recv_count ← some_or (c_checked_multiply (ca_count a) kRanks) "all_gather element count overflows";
  validate_buffer_overlap (ca_send_buffer a) (ca_recv_buffer a) (ca_count a) recv_count
    (ca_dtype a) ;;
  Ok (impl, Build_CollectiveArgs (ca_send_buffer a) (ca_recv_buffer a) (ca_stream a) (ca_count a)
              dtype Sum).

Definition check_args (c : collective) : c_state -> option c_args -> res (Impl * CollectiveArgs) :=
  match c with
  | CAllReduce => check_all_reduce
  | CReduceScatter => check_reduce_scatter
  | CAllGather => check_all_gather
  end.

(** [nano_nccl_all_reduce], [nano_nccl_reduce_scatter], [nano_nccl_all_gather]. *)
Definition nano_nccl_collective (c : collective) (args : option c_args) (st : c_state) :
    c_state * Z :=
  let st := begin_call st in
  match check_args c st args with
  | Throw e => translate_exceptions (@Throw unit e) st
  | Ok (impl, a) =>
      let '(impl', r) := run_collective env c a impl in
      translate_exceptions r (CState (last_error st) (Some (Some impl')))
  end.

(** ** Queries; an output pointer is null or receives the value *)

Definition query {A} (read : Impl -> res A) (message : string) (output : option unit) (st : c_state) :
    c_state * Z * option A :=
  let st := begin_call st in
  let r := (impl ← validate_handle (handle st);
            some_or output message ;;
            read impl) in
  (translate_exceptions r st, match r with Ok v => Some v | Throw _ => None end).

Definition nano_nccl_check_async_error (st : c_state) : c_state * Z :=
  let st := begin_call st in
  translate_exceptions
    (impl ← validate_handle (handle st); (check_async_error impl).2) st.

Definition nano_nccl_local_rank_count : option unit -> c_state -> c_state * Z * option Z :=
  query (fun _ => Ok 1) "rank_count output must be non-null".
Definition nano_nccl_global_rank_count : option unit -> c_state -> c_state * Z * option Z :=
  query (fun _ => Ok kRanks) "rank_count output must be non-null".
Definition nano_nccl_transport : option unit -> c_state -> c_state * Z * option Z :=
  query (fun impl => Ok (from_cpp_transport (transport impl))) "transport output must be non-null".
Definition nano_nccl_edge_transport (source_global_rank : Z) :
    option unit -> c_state -> c_state * Z * option Z :=
  query (fun impl => kind ← edge_transport impl source_global_rank; Ok (from_cpp_transport kind))
    "transport output must be non-null".
Definition nano_nccl_edge_uses_gdr (source_global_rank : Z) :
    option unit -> c_state -> c_state * Z * option Z :=
  query (fun impl => gdr ← edge_uses_gdr impl source_global_rank; Ok (if (gdr : bool) then 1 else 0))
    "uses_gdr output must be non-null".
End CApi.

(** ** The checks accept exactly what the communicator accepts *)

Section Checks.
Context `{BuildConfig}.

Record c_representable (a : c_args) : Prop := {
  cr_count : 0 <= ca_count a <= SIZE_MAX;
  cr_send : 0 <= ca_send_buffer a <= SIZE_MAX;
  cr_recv : 0 <= ca_recv_buffer a <= SIZE_MAX }.

(** [a'] holds the converted values of [a]. *)
Record converts (c : collective) (a : c_args) (a' : CollectiveArgs) : Prop := {
  cv_send : a_send_buffer a' = ca_send_buffer a;
  cv_recv : a_recv_buffer a' = ca_recv_buffer a;
  cv_stream : a_stream a' = ca_stream a;
  cv_count : a_count a' = ca_count a;
  cv_dtype : to_cpp_dtype (ca_dtype a) = Some (a_dtype a');
  cv_redop : if decide (c = CAllGather) then a_redop a' = Sum
             else to_cpp_redop (ca_redop a) = Some (a_redop a') }.

Lemma c_checked_multiply_ok x y z : 0 <= x -> 0 < y ->
  c_checked_multiply x y = Some z <-> z = x * y /\ x * y <= SIZE_MAX.
Proof.
  intros Hx Hy. rewrite <-(checked_multiply_ok x y "" z Hx Hy).
  unfold c_checked_multiply, checked_multiply. destruct (_ <? _); [done|]. split; by intros [= <-].
Qed.

Lemma some_or_ok {A} (o : option A) m a : some_or o m = Ok a <-> o = Some a.
Proof. destruct o; simpl; [|done]. split; by intros [= <-]. Qed.

Lemma c_dtype_size_ok value d : to_cpp_dtype value = Some d -> c_dtype_size value = dtype_size d.
Proof.
  unfold to_cpp_dtype, c_dtype_size. destruct (Z.eqb_spec value 0); [by intros [= <-]|].
  destruct (_ =? 1); [by intros [= <-]|]. destruct (_ =? 2); [by intros [= <-]|done].
Qed.

Lemma c_validate_buffer_args_ok s r st n : 0 <= n ->
  c_validate_buffer_args s r st n = Ok tt <-> s <> 0 /\ r <> 0 /\ st <> 0 /\ 0 < n /\ s <> r.
Proof.
  intros Hn. unfold c_validate_buffer_args.
  destruct (Z.eqb_spec s 0), (Z.eqb_spec r 0), (Z.eqb_spec st 0), (Z.eqb_spec n 0), (Z.eqb_spec s r);
    simpl; split; (done || lia).
Qed.

Lemma overlap_ok s r sc rc value d : to_cpp_dtype value = Some d ->
  0 <= s <= SIZE_MAX -> 0 <= r <= SIZE_MAX -> 0 <= sc -> 0 <= rc ->
  let sb := sc * dtype_size d in
  let rb := rc * dtype_size d in
  validate_buffer_overlap s r sc rc value = Ok tt <->
  s + sb <= SIZE_MAX /\ r + rb <= SIZE_MAX /\ (s + sb <= r \/ r + rb <= s).
Proof.
  intros Hd Hs Hr Hsc Hrc sb rb. unfold validate_buffer_overlap. cbv zeta.
  rewrite (c_dtype_size_ok _ _ Hd). assert (0 < dtype_size d) as Hsz by by destruct d.
  pose proof (c_checked_multiply_ok sc (dtype_size d)) as Es.
  pose proof (c_checked_multiply_ok rc (dtype_size d)) as Er.
  assert (0 <= sb) by (unfold sb; nia). assert (0 <= rb) by (unfold rb; nia).
  destruct (c_checked_multiply sc _) as [zs|]; [|specialize (Es sb); simpl; split; [done|];
    intros (? & ? & ?); exfalso; assert (None = Some sb) as [=] by (apply Es; [lia|lia|split; [done|lia]])].
  destruct (proj1 (Es zs Hsc Hsz) eq_refl) as [-> _]. fold sb.
  destruct (c_checked_multiply rc _) as [zr|]; [|specialize (Er rb); simpl; split; [done|];
    intros (? & ? & ?); exfalso; assert (None = Some rb) as [=] by (apply Er; [lia|lia|split; [done|lia]])].
  destruct (proj1 (Er zr Hrc Hsz) eq_refl) as [-> _]. fold rb.
  destruct (Z.ltb_spec (SIZE_MAX - s) sb); [split; [done|lia]|].
  destruct (Z.ltb_spec (SIZE_MAX - r) rb); [split; [done|lia]|].
  rewrite !u64_small by (unfold SIZE_MAX in *; lia).
  destruct (Z.ltb_spec s (r + rb)), (Z.ltb_spec r (s + sb)); simpl; split; (done || lia).
Qed.

Lemma checks_core a d sc rc : c_representable a -> to_cpp_dtype (ca_dtype a) = Some d ->
  ca_count a <= sc -> ca_count a <= rc ->
  (c_validate_buffer_args (ca_send_buffer a) (ca_recv_buffer a) (ca_stream a) (ca_count a) = Ok tt /\
   validate_buffer_overlap (ca_send_buffer a) (ca_recv_buffer a) sc rc (ca_dtype a) = Ok tt) <->
  0 < ca_count a /\ ca_stream a <> 0 /\
  addressable (ca_send_buffer a) (sc * dtype_size d) /\
  addressable (ca_recv_buffer a) (rc * dtype_size d) /\
  (ca_send_buffer a + sc * dtype_size d <= ca_recv_buffer a \/
   ca_recv_buffer a + rc * dtype_size d <= ca_send_buffer a).
Proof.
  intros [Hc Hs Hr] Hd Hsc Hrc. rewrite c_validate_buffer_args_ok, (overlap_ok _ _ _ _ _ d) by (done || lia).
  unfold addressable. assert (0 < dtype_size d) by by destruct d.
  assert (0 < ca_count a -> 0 < sc * dtype_size d /\ 0 < rc * dtype_size d) by nia. lia.
Qed.

Lemma elems_ge c n : 0 <= n -> n <= send_elems c n /\ n <= recv_elems c n.
Proof. intros Hn. pose proof kRanks_pos. unfold send_elems, recv_elems. destruct c; nia. Qed.

(** The element counts the checks compute. *)
Definition c_elems (c : collective) (count : Z) : option (Z * Z) :=
  match c with
  | CAllReduce => Some (count, count)
  | CReduceScatter => (fun n => (n, count)) <$> c_checked_multiply count kRanks
  | CAllGather => (fun n => (count, n)) <$> c_checked_multiply count kRanks
  end.

Lemma c_elems_ok c n sc rc : 0 <= n <= SIZE_MAX ->
  c_elems c n = Some (sc, rc) <->
  sc = send_elems c n /\ rc = recv_elems c n /\ sc <= SIZE_MAX /\ rc <= SIZE_MAX.
Proof.
  intros Hn. pose proof kRanks_pos. destruct c; simpl; unfold send_elems, recv_elems.
  - split; [intros [= <- <-]|intros (-> & -> & _)]; repeat split; lia.
  - rewrite fmap_Some. setoid_rewrite c_checked_multiply_ok; [|lia..]. split.
    + intros (? & [-> ?] & [= -> ->]). repeat split; lia.
    + intros (-> & -> & ? & ?). eauto.
  - rewrite fmap_Some. setoid_rewrite c_checked_multiply_ok; [|lia..]. split.
    + intros (? & [-> ?] & [= -> ->]). repeat split; lia.
    + intros (-> & -> & ? & ?). eauto.
Qed.

(** Every check in one list of conditions. *)
Lemma check_args_ok c st args impl a' :
  check_args c st args = Ok (impl, a') <->
  handle st = Some (Some impl) /\ exists a sc rc, args = Some a /\ converts c a a' /\
    c_elems c (ca_count a) = Some (sc, rc) /\
    c_validate_buffer_args (ca_send_buffer a) (ca_recv_buffer a) (ca_stream a) (ca_count a) = Ok tt /\
    validate_buffer_overlap (ca_send_buffer a) (ca_recv_buffer a) sc rc (ca_dtype a) = Ok tt.
Proof.
  assert (forall i, validate_handle (handle st) = Ok i <-> handle st = Some (Some i)) as Hh.
  { intros i. unfold validate_handle, refuse. destruct (handle st) as [[?|]|]; simpl; split; congruence. }
  split.
  - destruct c; simpl; unfold check_all_reduce, check_reduce_scatter, check_all_gather; intros Hk;
      apply bind_ok in Hk as (i & Hi%Hh & Hk); apply bind_ok in Hk as (a & Ha%some_or_ok & Hk);
      apply bind_ok in Hk as ([] & Hb & Hk); apply bind_ok in Hk as (d & Hd%some_or_ok & Hk).
    + apply bind_ok in Hk as ([] & Ho & Hk). apply bind_ok in Hk as (op & Hop%some_or_ok & [= <- <-]).
      split; [done|]. exists a. do 2 eexists. by repeat split.
    + apply bind_ok in Hk as (n & Hn%some_or_ok & Hk).
      apply bind_ok in Hk as ([] & Ho & Hk). apply bind_ok in Hk as (op & Hop%some_or_ok & [= <- <-]).
      split; [done|]. exists a. do 2 eexists. simpl. rewrite Hn. by repeat split.
    + apply bind_ok in Hk as (n & Hn%some_or_ok & Hk). apply bind_ok in Hk as ([] & Ho & [= <- <-]).
      split; [done|]. exists a. do 2 eexists. simpl. rewrite Hn. by repeat split.
  - intros (Hi & a & sc & rc & -> & [E1 E2 E3 E4 E5 E6] & He & Hb & Ho). destruct a' as [sb rb str n d op].
    simpl in *. subst. apply Hh in Hi.
    destruct c; simpl in *; unfold check_all_reduce, check_reduce_scatter, check_all_gather; rewrite Hi;
      simpl; rewrite Hb; simpl; rewrite E5; simpl.
    + injection He as <- <-. rewrite Ho. simpl. by rewrite E6.
    + apply fmap_Some in He as (? & -> & [= -> ->]). simpl. rewrite Ho. simpl. by rewrite E6.
    + apply fmap_Some in He as (? & -> & [= -> ->]). simpl. rewrite Ho. simpl. by rewrite E6.
Qed.

(** C37: The C interface and the communicator agree on what is supported: the
    checks of the C functions accept a call exactly when the handle holds a
    communicator, the enumeration values are known and the communicator's own
    validation accepts the converted arguments. *)
Theorem c_checks_exact c st args impl a' : (forall a, args = Some a -> c_representable a) ->
  check_args c st args = Ok (impl, a') <->
  handle st = Some (Some impl) /\
  exists a, args = Some a /\ converts c a a' /\ validate_args c a' = Ok tt.
Proof.
  intros Hrep. rewrite check_args_ok.
  assert (forall a, args = Some a -> converts c a a' ->
    ((exists sc rc, c_elems c (ca_count a) = Some (sc, rc) /\
       c_validate_buffer_args (ca_send_buffer a) (ca_recv_buffer a) (ca_stream a) (ca_count a) = Ok tt /\
       validate_buffer_overlap (ca_send_buffer a) (ca_recv_buffer a) sc rc (ca_dtype a) = Ok tt) <->
     validate_args c a' = Ok tt)) as Heq; cycle 1.
  { split; [intros (Hi & a & sc & rc & Ha & Hv & Hx)|intros (Hi & a & Ha & Hv & Hx)];
      (split; [done|]); exists a.
    - split_and!; [done..|]. apply (Heq a Ha Hv). eauto.
    - apply (Heq a Ha Hv) in Hx as (sc & rc & Hx). by exists sc, rc. }
  intros a Ha [E1 E2 E3 E4 E5 _]. pose proof (Hrep a Ha) as Hr. pose proof Hr as [Hc Hs Hv].
  assert (representable a') as Hr' by (split; congruence).
  rewrite (validate_args_ok c a' Hr'). cbv zeta. rewrite E1, E2, E3, E4.
  destruct (elems_ge c (ca_count a)) as [Hge1 Hge2]; [lia|].
  rewrite <-(checks_core a _ (send_elems c (ca_count a)) (recv_elems c (ca_count a)) Hr E5 Hge1 Hge2).
  setoid_rewrite (c_elems_ok c (ca_count a) _ _ Hc). split.
  - intros (sc & rc & (-> & -> & _) & Hb & Ho). done.
  - intros Hk. pose proof Hk as Hb. apply (checks_core a _ _ _ Hr E5 Hge1 Hge2) in Hb.
    destruct Hb as (? & _ & [_ ?] & [_ ?] & _). do 2 eexists. split; [|exact Hk].
    assert (0 < dtype_size (a_dtype a')) by by destruct (a_dtype a'). repeat split; nia.
Qed.
End Checks.

(** ** Statuses *)

(** The only exception of a check is an invalid argument. *)
Definition refuses {A} (r : res A) : Prop := forall e, r = Throw e -> exists w, e = InvalidArgument w.

Lemma refuses_bind {A B} (m : res A) (f : A -> res B) :
  refuses m -> (forall a, refuses (f a)) -> refuses (m ≫= f).
Proof. intros Hm Hf e. destruct m as [a|e']; simpl; [apply Hf|]. intros [= <-]. by apply Hm. Qed.
Lemma refuses_refuse {A} w : refuses (@refuse A w).
Proof. intros e [= <-]. eauto. Qed.
Lemma refuses_ok {A} (a : A) : refuses (Ok a).
Proof. done. Qed.
Lemma refuses_some {A} (o : option A) w : refuses (some_or o w).
Proof. destruct o; [apply refuses_ok|apply refuses_refuse]. Qed.
Create HintDb refuses.
#[export] Hint Resolve refuses_refuse refuses_ok refuses_some : refuses.

Lemma refuses_handle h : refuses (validate_handle h).
Proof. destruct h as [[]|]; simpl; eauto with refuses. Qed.
Lemma refuses_buffers s r st n : refuses (c_validate_buffer_args s r st n).
Proof. unfold c_validate_buffer_args. repeat case_match; eauto with refuses. Qed.
Lemma refuses_overlap s r sc rc d : refuses (validate_buffer_overlap s r sc rc d).
Proof. unfold validate_buffer_overlap. cbv zeta. repeat case_match; eauto with refuses. Qed.
#[export] Hint Resolve refuses_handle refuses_buffers refuses_overlap : refuses.

Lemma check_args_refuses `{BuildConfig} c st args : refuses (check_args c st args).
Proof.
  destruct c; simpl; unfold check_all_reduce, check_reduce_scatter, check_all_gather;
    repeat (apply refuses_bind; [solve [eauto with refuses]|intros ?]); apply refuses_ok.
Qed.

Section Statuses.
Context `{BuildConfig} (env : cuda_env) (out_of_range_what : string).
Abbreviation collective_call := (nano_nccl_collective env out_of_range_what).

(** Statuses tell what happened.  A collective of the C interface returns
    success, invalid argument or error.  Success: the communicator returned,
    and the diagnostic is empty.  A call refused by the checks is an invalid
    argument with its message, and leaves the communicator as it was.
    Otherwise the communicator threw, and the diagnostic holds the first 1023
    characters of the message. *)
Theorem c_status_exact c args st st' status :
  collective_call c args st = (st', status) ->
  (status = STATUS_SUCCESS /\ last_error st' = "" /\
   exists impl a impl', check_args c st args = Ok (impl, a) /\
     run_collective env c a impl = (impl', Ok tt) /\ handle st' = Some (Some impl')) \/
  (exists w, status = STATUS_INVALID_ARGUMENT /\ check_args c st args = Throw (InvalidArgument w) /\
     last_error st' = String.substring 0 1023 w /\ handle st' = handle st) \/
  (exists impl a impl' e, check_args c st args = Ok (impl, a) /\
     run_collective env c a impl = (impl', Throw e) /\ handle st' = Some (Some impl') /\
     last_error st' = String.substring 0 1023 (what out_of_range_what e) /\
     status = match e with InvalidArgument _ => STATUS_INVALID_ARGUMENT | _ => STATUS_ERROR end).
Proof.
  unfold nano_nccl_collective.
  assert (check_args c (begin_call st) args = check_args c st args) as -> by by destruct c.
  destruct (check_args c st args) as [[impl a]|e] eqn:Ec.
  - destruct (run_collective env c a impl) as [impl' [[]|e]] eqn:Er.
    + intros [= <- <-]. left. eauto 8.
    + destruct e; intros [= <- <-]; right; right; do 4 eexists; eauto.
  - assert (exists w, e = InvalidArgument w) as [w ->]; [|intros [= <- <-]; right; left; eauto].
    by eapply check_args_refuses.
Qed.
End Statuses.
Module CApiWitness.
#[local] Existing Instance small_config.

Definition st : c_state := CState "" (Some (Some LifetimeWitness.start)).
Definition request (dtype : Z) : c_args := {|
  ca_send_buffer := 4096; ca_recv_buffer := 8192; ca_stream := 7; ca_count := 48;
  ca_dtype := dtype; ca_redop := 0 |}.

Lemma c_checks_exact_witness :
  check_args CAllReduce st (Some (request 0)) = Ok (LifetimeWitness.start, LifetimeWitness.args 7 48).
Proof.
  apply (c_checks_exact CAllReduce st (Some (request 0)) LifetimeWitness.start (LifetimeWitness.args 7 48)).
  - intros a [= <-]. by split.
  - split; [done|]. exists (request 0). split; [done|]. split; [by split|by vm_compute].
Defined.

(** An unknown element type is refused; a supported call succeeds. *)
Lemma c_status_exact_witness :
  (exists w, check_args CAllReduce st (Some (request 9)) = Throw (InvalidArgument w)) /\
  (exists impl a impl', check_args CAllReduce st (Some (request 0)) = Ok (impl, a) /\
     run_collective LifetimeWitness.quiet CAllReduce a impl = (impl', Ok tt)).
Proof.
  split.
  - destruct (nano_nccl_collective LifetimeWitness.quiet "" CAllReduce (Some (request 9)) st)
      as [st' status] eqn:E.
    destruct (c_status_exact LifetimeWitness.quiet "" CAllReduce (Some (request 9)) st st' status E)
      as [(-> & _)|[(w & _ & Hw & _)|(impl & a & impl' & e & Hw & _)]]; [by vm_compute in E|by exists w|done].
  - destruct (nano_nccl_collective LifetimeWitness.quiet "" CAllReduce (Some (request 0)) st)
      as [st' status] eqn:E.
    assert (status = 0) as Hs by (apply (f_equal snd) in E; vm_compute in E; done).
    destruct (c_status_exact LifetimeWitness.quiet "" CAllReduce (Some (request 0)) st st' status E)
      as [(_ & _ & impl & a & impl' & Hc & Hr & _)|[(w & Hw & _)|(impl & a & impl' & e & Hw & Hr & _ & _ & He)]];
      [by exists impl, a, impl'|rewrite Hs in Hw; done|rewrite Hs in He; by destruct e].
Defined.
End CApiWitness.
