(* ===== verification/MpiRuntime.v ===== *)
(** * Leases on the MPI runtime

    src/collective/all_reduce/mpi_c_api.cc: communicators created through the C
    interface share one MPI runtime.  The first one may initialise it; the last
    one finalises what the adapter has initialised.  [acquire_mpi] runs under a
    mutex as a whole; [release_mpi] asks whether MPI is active before it takes
    the mutex, so releases of different threads interleave in two steps. *)

From Stdlib Require Import ZArith Lia.
From stdpp Require Import base option numbers tactics strings list gmap.
From S2P Require Import Prelude Types Communicator CApi.

#[local] Open Scope Z_scope.

(** ** The runtime and its state *)

Inductive mpi_phase := NotInitialized | Active | Finalized.
#[export] Instance mpi_phase_eq_dec : EqDecision mpi_phase.
Proof. solve_decision. Defined.

(** The process's MPI library and [MpiRuntimeState]; [m_comms] counts live
    communicators made by [MPI_Comm_split], [m_inits] and [m_finalizes] the
    calls of [MPI_Init_thread] that succeeded and of [MPI_Finalize] that the
    adapter has made. *)
Record mpi_state := Mpi {
  m_phase : mpi_phase; m_leases : nat; m_initialized_by_adapter : bool; m_comms : nat;
  m_inits : nat; m_finalizes : nat }.

Inductive mpi_call := MPI_Initialized | MPI_Init_thread | MPI_Finalized | MPI_Comm_split.

(** Failures of MPI calls, and whether MPI_THREAD_FUNNELED is provided. *)
Record mpi_env := { v_error : mpi_call -> option string; v_funneled : bool }.

Definition mpi_check (env : mpi_env) (c : mpi_call) : res unit :=
  match v_error env c with None => Ok tt | Some message => Throw (RuntimeError message) end.

(** ** Operations *)

Definition acquire_mpi (env : mpi_env) (s : mpi_state) : mpi_state * res unit :=
  match mpi_check env MPI_Initialized with
  | Throw e => (s, Throw e)
  | Ok _ =>
      if decide (m_phase s = NotInitialized) then
        match mpi_check env MPI_Init_thread with
        | Throw e => (s, Throw e)
        | Ok _ =>
            if v_funneled env
            then (Mpi Active (S (m_leases s)) true (m_comms s) (S (m_inits s)) (m_finalizes s), Ok tt)
            else (Mpi Finalized (m_leases s) (m_initialized_by_adapter s) (m_comms s)
                    (S (m_inits s)) (S (m_finalizes s)),
                  Throw (RuntimeError "MPI does not provide MPI_THREAD_FUNNELED"))
        end
      else
        match mpi_check env MPI_Finalized with
        | Throw e => (s, Throw e)
        | Ok _ =>
            if decide (m_phase s = Finalized)
            then (s, Throw (RuntimeError "MPI has already been finalized"))
            else (Mpi (m_phase s) (S (m_leases s)) (m_initialized_by_adapter s) (m_comms s)
                    (m_inits s) (m_finalizes s), Ok tt)
        end
  end.

(** [release_mpi] before the mutex: [mpi_active], and the communicator freed. *)
Definition mpi_active (env : mpi_env) (s : mpi_state) : bool :=
  match v_error env MPI_Finalized with
  | None => negb (bool_decide (m_phase s = Finalized))
  | Some _ => false
  end.
Definition free_comm (active has_comm : bool) (s : mpi_state) : mpi_state :=
  if active && has_comm
  then Mpi (m_phase s) (m_leases s) (m_initialized_by_adapter s) (pred (m_comms s)) (m_inits s) (m_finalizes s)
  else s.

(** [release_mpi] under the mutex. *)
Definition release_lease (active : bool) (s : mpi_state) : mpi_state :=
  let leases := pred (m_leases s) in
  if active && m_initialized_by_adapter s && bool_decide (leases = 0%nat)
  then Mpi Finalized leases false (m_comms s) (m_inits s) (S (m_finalizes s))
  else Mpi (m_phase s) leases (m_initialized_by_adapter s) (m_comms s) (m_inits s) (m_finalizes s).

Definition release_mpi (env : mpi_env) (has_comm : bool) (s : mpi_state) : mpi_state :=
  let active := mpi_active env s in release_lease active (free_comm active has_comm s).

Record mpi_config := { c_device : Z; c_color : Z; c_key : Z; c_transport : Z }.

(** [nano_nccl_create_mpi_subgroup_communicator]; [create device kind] stands for
    [create_communicator_from_mpi]. *)
Definition create_subgroup (env : mpi_env) (oor : string) (create : Z -> TransportKind -> res Impl)
    (output_null : bool) (config : option mpi_config) (st : c_state) (s : mpi_state) :
    mpi_state * (c_state * Z) :=
  let st := begin_call st in
  if output_null then (s, fail STATUS_INVALID_ARGUMENT "communicator output must be non-null" st) else
  let st := CState (last_error st) None in
  match config with
  | None => (s, fail STATUS_INVALID_ARGUMENT "MPI subgroup config must be non-null" st)
  | Some config =>
      if (c_color config <? 0) || (c_key config <? 0)
      then (s, fail STATUS_INVALID_ARGUMENT "MPI subgroup color and key must be non-negative" st) else
      match acquire_mpi env s with
      | (s, Throw e) => (s, translate_exceptions oor (@Throw unit e) st)
      | (s, Ok _) =>
          match mpi_check env MPI_Comm_split with
          | Throw e => (release_mpi env false s, translate_exceptions oor (@Throw unit e) st)
          | Ok _ =>
              let s := Mpi (m_phase s) (m_leases s) (m_initialized_by_adapter s) (S (m_comms s))
                (m_inits s) (m_finalizes s) in
              match (kind ← to_cpp_transport (c_transport config); create (c_device config) kind) with
              | Throw e => (release_mpi env true s, translate_exceptions oor (@Throw unit e) st)
              | Ok impl => (s, (CState (last_error st) (Some (Some impl)), STATUS_SUCCESS))
              end
          end
      end
  end.

(** ** Creation takes one lease or none *)

Lemma acquire_mpi_ok env s s' u : acquire_mpi env s = (s', Ok u) ->
  m_phase s' = Active /\ m_leases s' = S (m_leases s) /\ m_comms s' = m_comms s /\
  m_initialized_by_adapter s' =
    (if decide (m_phase s = NotInitialized) then true else m_initialized_by_adapter s) /\
  m_phase s <> Finalized /\ m_finalizes s' = m_finalizes s /\
  m_inits s' = (if decide (m_phase s = NotInitialized) then S (m_inits s) else m_inits s).
Proof.
  unfold acquire_mpi, mpi_check. destruct (v_error env MPI_Initialized); [done|].
  destruct (decide (m_phase s = NotInitialized)) as [Hp|Hp].
  - destruct (v_error env MPI_Init_thread); [done|]. destruct (v_funneled env); [|done].
    intros [= <- <-]. by rewrite Hp.
  - destruct (v_error env MPI_Finalized); [done|]. destruct (decide (m_phase s = Finalized)); [done|].
    intros [= <- <-]. simpl. by destruct (m_phase s).
Qed.

Lemma acquire_mpi_throw env s s' e : acquire_mpi env s = (s', Throw e) ->
  m_leases s' = m_leases s /\ m_comms s' = m_comms s /\
  m_initialized_by_adapter s' = m_initialized_by_adapter s /\
  (m_phase s' = m_phase s /\ m_inits s' = m_inits s /\ m_finalizes s' = m_finalizes s \/
   m_phase s = NotInitialized /\ m_phase s' = Finalized /\ m_inits s' = S (m_inits s) /\
   m_finalizes s' = S (m_finalizes s)).
Proof.
  unfold acquire_mpi, mpi_check. destruct (v_error env MPI_Initialized); [intros [= <- _]; auto 9|].
  destruct (decide (m_phase s = NotInitialized)).
  - destruct (v_error env MPI_Init_thread); [intros [= <- _]; auto 9|].
    destruct (v_funneled env); [done|]. intros [= <- _]. simpl. auto 9.
  - destruct (v_error env MPI_Finalized); [intros [= <- _]; auto 9|].
    destruct (decide (m_phase s = Finalized)); [intros [= <- _]; auto 9|done].
Qed.

Lemma release_lease_count active s :
  m_leases (release_lease active s) = pred (m_leases s) /\ m_comms (release_lease active s) = m_comms s.
Proof. unfold release_lease. by case_match. Qed.

Lemma release_mpi_count env has_comm s :
  v_error env MPI_Finalized = None -> m_phase s = Active ->
  m_leases (release_mpi env has_comm s) = pred (m_leases s) /\
  m_comms (release_mpi env has_comm s) = if has_comm then pred (m_comms s) else m_comms s.
Proof.
  intros Hv Hp. unfold release_mpi, mpi_active. rewrite Hv, Hp. simpl.
  destruct (release_lease_count true (free_comm true has_comm s)) as [-> ->]. by destruct has_comm.
Qed.

Lemma translate_throw oor (e : exn) st st' status :
  translate_exceptions oor (@Throw unit e) st = (st', status) ->
  (status = STATUS_INVALID_ARGUMENT \/ status = STATUS_ERROR) /\ handle st' = handle st.
Proof. destruct e; intros [= <- <-]; auto. Qed.

(** Creating a communicator through the C interface takes a lease and an MPI
    communicator exactly when it succeeds: then the output holds the
    communicator and MPI is active.  Otherwise the output is null, if it can be
    written, the status is an invalid argument or an error, and the leases and
    MPI communicators are as before. *)
Theorem create_takes_one_lease env oor create output_null config st s s' st' status :
  v_error env MPI_Finalized = None ->
  create_subgroup env oor create output_null config st s = (s', (st', status)) ->
  status = STATUS_SUCCESS /\ last_error st' = "" /\
    (exists impl, handle st' = Some (Some impl)) /\ m_phase s' = Active /\
    m_leases s' = S (m_leases s) /\ m_comms s' = S (m_comms s) \/
  (status = STATUS_INVALID_ARGUMENT \/ status = STATUS_ERROR) /\
    (output_null = false -> handle st' = None) /\
    m_leases s' = m_leases s /\ m_comms s' = m_comms s.
Proof.
  intros Hv. unfold create_subgroup, fail. cbv zeta. destruct output_null; [intros [= <- <- <-]; right; split_and!; [by left|done..]|].
  destruct config as [config|]; [|intros [= <- <- <-]; right; split_and!; [by left|done..]].
  destruct (_ || _); [intros [= <- <- <-]; right; split_and!; [by left|done..]|].
  destruct (acquire_mpi env s) as [s1 [[]|e]] eqn:Ea.
  2: { intros [= <- Ht]. apply acquire_mpi_throw in Ea as (-> & -> & _).
       apply translate_throw in Ht as [? ->]. by right. }
  apply acquire_mpi_ok in Ea as (Hp & Hl & Hc & _).
  destruct (mpi_check env MPI_Comm_split) as [[]|e].
  2: { intros [= <- Ht]. apply translate_throw in Ht as [? ->].
       destruct (release_mpi_count env false s1 Hv Hp) as [-> ->]. rewrite Hl, Hc. by right. }
  destruct (to_cpp_transport _ ≫= _) as [impl|e].
  - intros [= <- <- <-]. left. simpl. rewrite Hl, Hc. eauto 8.
  - intros [= <- Ht]. apply translate_throw in Ht as [? ->].
    match goal with |- context [release_mpi env true ?s] =>
      destruct (release_mpi_count env true s Hv Hp) as [-> ->] end.
    simpl. rewrite Hl, Hc. by right.
Qed.

(** ** Threads *)

(** The runtime, the communicators whose release has not begun, and those
    between the two steps of their release, by the answer they got. *)
Record world := World {
  w_mpi : mpi_state; w_held : nat; w_checked_active : nat; w_checked_inactive : nat }.

Definition outstanding (w : world) : nat := w_held w + w_checked_active w + w_checked_inactive w.

(** The application may initialise MPI, and finalises it only if it did. *)
Inductive mpi_step : world -> world -> Prop :=
| AppInit s h a i : m_phase s = NotInitialized ->
    mpi_step (World s h a i)
      (World (Mpi Active (m_leases s) (m_initialized_by_adapter s) (m_comms s) (m_inits s) (m_finalizes s)) h a i)
| AppFinalize s h a i : m_phase s = Active -> m_initialized_by_adapter s = false ->
    mpi_step (World s h a i)
      (World (Mpi Finalized (m_leases s) (m_initialized_by_adapter s) (m_comms s) (m_inits s) (m_finalizes s)) h a i)
| Acquire env s s' h a i u : acquire_mpi env s = (s', Ok u) ->
    mpi_step (World s h a i) (World s' (S h) a i)
| AcquireFails env s s' h a i e : acquire_mpi env s = (s', Throw e) ->
    mpi_step (World s h a i) (World s' h a i)
| CheckActive env has_comm s h a i : mpi_active env s = true ->
    mpi_step (World s (S h) a i) (World (free_comm true has_comm s) h (S a) i)
| CheckInactive env has_comm s h a i : mpi_active env s = false ->
    mpi_step (World s (S h) a i) (World (free_comm false has_comm s) h a (S i))
| ReleaseActive s h a i :
    mpi_step (World s h (S a) i) (World (release_lease true s) h a i)
| ReleaseInactive s h a i :
    mpi_step (World s h a (S i)) (World (release_lease false s) h a i).

Definition mpi_start : world := World (Mpi NotInitialized 0 false 0 0 0) 0 0 0.

(** A step in which [MPI_Finalized] does not fail while MPI is active. *)
Definition answered_step (w w' : world) : Prop := mpi_step w w' /\
  (m_phase (w_mpi w) = Active -> (w_checked_inactive w' <= w_checked_inactive w)%nat).

Record mpi_inv (w : world) : Prop := {
  mi_leases : m_leases (w_mpi w) = outstanding w;
  mi_adapter : m_initialized_by_adapter (w_mpi w) = true -> m_phase (w_mpi w) = Active;
  mi_none : m_phase (w_mpi w) = NotInitialized -> outstanding w = 0%nat /\ m_inits (w_mpi w) = 0%nat;
  mi_balance : m_inits (w_mpi w) =
    (m_finalizes (w_mpi w) + (if m_initialized_by_adapter (w_mpi w) then 1 else 0))%nat;
  mi_once : (m_inits (w_mpi w) <= 1)%nat;
  mi_over : m_inits (w_mpi w) = 1%nat -> m_initialized_by_adapter (w_mpi w) = false ->
    m_phase (w_mpi w) = Finalized }.

Lemma mpi_inv_step w w' : mpi_inv w -> mpi_step w w' -> mpi_inv w'.
Proof.
  intros [E1 E2 E3 E4 E6 E5] Hs. unfold outstanding in *.
  destruct Hs as [s h a i Hp|s h a i Hp Hb|env s s' h a i u Ha|env s s' h a i e Ha|env c s h a i Hm
    |env c s h a i Hm|s h a i|s h a i]; simpl in *.
  - destruct (E3 Hp) as [? Hi]. rewrite Hi in *. split; unfold outstanding; simpl; rewrite ?Hi; (done || auto).
  - split; unfold outstanding; simpl; (done || congruence).
  - apply acquire_mpi_ok in Ha as (Hp & Hl & _ & Hb & Hn & Hf & Hi). destruct (decide _) as [Hp'|Hp'].
    + destruct (E3 Hp') as [? Hi']. rewrite Hi' in *.
      assert (m_initialized_by_adapter s = false) as Hb' by (destruct (m_initialized_by_adapter s); simpl in E4; [lia|done]).
      rewrite Hb' in E4. split; unfold outstanding; simpl; rewrite ?Hi, ?Hf, ?Hb, ?Hp; (done || lia).
    + split; unfold outstanding; simpl; rewrite ?Hi, ?Hf, ?Hb, ?Hp; try done; [lia|].
      intros H1 H2. specialize (E5 H1 H2). congruence.
  - apply acquire_mpi_throw in Ha as (Hl & _ & Hb & [(Hp & Hi & Hf)|(Hp & Hp' & Hi & Hf)]).
    + split; unfold outstanding; simpl; rewrite ?Hi, ?Hf, ?Hb, ?Hp, ?Hl; done.
    + destruct (E3 Hp) as [? Hi']. assert (m_initialized_by_adapter s = false) as Hb'.
      { destruct (m_initialized_by_adapter s); [by rewrite (E2 eq_refl) in Hp|done]. }
      rewrite Hb', Hi' in E4. split; unfold outstanding; simpl; rewrite ?Hi, ?Hf, ?Hb, ?Hb', ?Hp', ?Hl, ?Hi'; (done || lia).
  - unfold free_comm. split; unfold outstanding; simpl; destruct c; simpl; try done; try lia;
      intros Hn; specialize (E3 Hn); lia.
  - unfold free_comm. split; unfold outstanding; simpl; try done; try lia; intros Hn; specialize (E3 Hn); lia.
  - unfold release_lease. destruct (m_initialized_by_adapter s) eqn:Hb; simpl.
    + destruct (bool_decide _); split; unfold outstanding; simpl; rewrite ?Hb; try done; try lia;
        intros Hn; specialize (E3 Hn); lia.
    + split; unfold outstanding; simpl; rewrite ?Hb; try done; try lia; intros Hn; specialize (E3 Hn); lia.
  - unfold release_lease. split; unfold outstanding; simpl; try done; try lia; intros Hn; specialize (E3 Hn); lia.
Qed.

(** While all checks are answered, MPI that the adapter has initialised is in
    use, and every release that has begun found it active. *)
Definition in_use (w : world) : Prop := mpi_inv w /\
  (m_initialized_by_adapter (w_mpi w) = true -> (0 < outstanding w)%nat /\ w_checked_inactive w = 0%nat).

Lemma in_use_step w w' : in_use w -> answered_step w w' -> in_use w'.
Proof.
  intros [Hi Hu] [Hs Hc]. split; [by eapply mpi_inv_step|]. destruct Hi as [E1 E2 E3 E4 E6 E5].
  unfold outstanding in *.
  destruct Hs as [s h a i Hp|s h a i Hp Hb|env s s' h a i u Ha|env s s' h a i e Ha|env c s h a i Hm
    |env c s h a i Hm|s h a i|s h a i]; simpl in *.
  - done.
  - congruence.
  - apply acquire_mpi_ok in Ha as (_ & _ & _ & Hb & _). intros Hb'. split; [lia|].
    destruct (decide _) as [Hp|_]; [specialize (E3 Hp); lia|]. apply Hu. congruence.
  - apply acquire_mpi_throw in Ha as (_ & _ & -> & _). done.
  - unfold free_comm. destruct c; simpl; intros Hb; specialize (Hu Hb); lia.
  - intros Hb. specialize (Hc (E2 Hb)). lia.
  - unfold release_lease. destruct (m_initialized_by_adapter s) eqn:Hb; simpl; [|done].
    case_bool_decide as Hl; simpl; [done|]. intros _. destruct (Hu eq_refl). split; [lia|done].
  - unfold release_lease. simpl. intros Hb. destruct (Hu Hb). done.
Qed.

Lemma reachable_inv w : rtc mpi_step mpi_start w -> mpi_inv w.
Proof.
  intros Hr. assert (mpi_inv mpi_start) as H0 by (split; simpl; (done || lia)).
  revert H0. induction Hr; [done|]. eauto using mpi_inv_step.
Qed.

Lemma answered_in_use w : rtc answered_step mpi_start w -> in_use w.
Proof.
  intros Hr. assert (in_use mpi_start) as H0 by (split; [split; simpl; (done || lia)|done]).
  revert H0. induction Hr; [done|]. eauto using in_use_step.
Qed.

(** C38: The MPI runtime outlives the communicators that need it, and no longer.
    In every interleaving the lease count is the number of communicators not
    yet released; MPI initialised by the adapter stays active until the last of
    them is released, and stays finalised after that; the adapter initialises it
    at most once and has finalised it once if that is no longer recorded.  The
    last release finalises it when it found MPI active; hence, when no call of
    [MPI_Finalized] has failed while MPI was active and all communicators have
    been released, what the adapter has initialised it has finalised exactly
    once. *)
Theorem mpi_leases_safe w w' : rtc mpi_step mpi_start w -> mpi_step w w' ->
  let s := w_mpi w in let s' := w_mpi w' in
  m_leases s = outstanding w /\
  (m_initialized_by_adapter s = true -> m_phase s = Active) /\
  (m_initialized_by_adapter s = true -> m_phase s' <> Active ->
     outstanding w = 1%nat /\ outstanding w' = 0%nat /\ m_phase s' = Finalized /\
     m_initialized_by_adapter s' = false) /\
  (m_phase s = Finalized -> m_phase s' = Finalized /\ (outstanding w' <= outstanding w)%nat) /\
  m_inits s = (m_finalizes s + (if m_initialized_by_adapter s then 1 else 0))%nat /\ (m_inits s <= 1)%nat /\
  (m_initialized_by_adapter s = true -> (w_checked_active w' < w_checked_active w)%nat -> outstanding w' = 0%nat ->
     m_phase s' = Finalized /\ m_finalizes s' = S (m_finalizes s)) /\
  (rtc answered_step mpi_start w -> outstanding w = 0%nat ->
     m_finalizes s = m_inits s /\ (m_inits s = 1%nat -> m_phase s = Finalized)).
Proof.
  intros Hr Hs. pose proof (reachable_inv w Hr) as Hi. destruct Hi as [E1 E2 E3 E4 E6 E5]. simpl.
  split; [done|]. split; [done|]. split; [|split; [|split; [done|split; [done|split]]]].
  - intros Hb Hna. specialize (E2 Hb). unfold outstanding in *.
    destruct Hs as [s h a i Hp|s h a i Hp Hb'|env s s' h a i u Ha|env s s' h a i e Ha|env c s h a i Hm
      |env c s h a i Hm|s h a i|s h a i]; unfold free_comm in *; simpl in *; try congruence.
    + by apply acquire_mpi_ok in Ha as (? & _).
    + apply acquire_mpi_throw in Ha as (_ & _ & _ & [(? & _)|[? _]]); congruence.
    + by destruct c.
    + revert Hna. unfold release_lease. rewrite Hb. simpl. case_bool_decide; simpl; [|done].
      intros _. split_and!; (done || lia).
  - intros Hf. unfold outstanding in *.
    destruct Hs as [s h a i Hp|s h a i Hp Hb'|env s s' h a i u Ha|env s s' h a i e Ha|env c s h a i Hm
      |env c s h a i Hm|s h a i|s h a i]; simpl in *; try congruence.
    + by apply acquire_mpi_ok in Ha as (_ & _ & _ & _ & ? & _).
    + apply acquire_mpi_throw in Ha as (_ & _ & _ & [(? & _)|[? _]]); [split; [congruence|lia]|congruence].
    + unfold free_comm. split; [by destruct c|lia].
    + split; [done|lia].
    + unfold release_lease. simpl. destruct (_ && _); simpl; (split; [done|lia]).
    + split; [done|lia].
  - intros Hb Hlt H0. unfold outstanding in *.
    destruct Hs as [s h a i Hp|s h a i Hp Hb'|env s s' h a i u Ha|env s s' h a i e Ha|env c s h a i Hm
      |env c s h a i Hm|s h a i|s h a i]; simpl in *; try lia.
    clear E2 E3 E5 E6. unfold release_lease. rewrite Hb, bool_decide_eq_true_2 by lia. done.
  - intros Ha H0. destruct (answered_in_use w Ha) as [_ Hu].
    destruct (m_initialized_by_adapter (w_mpi w)) eqn:Hb; [destruct (Hu eq_refl); lia|].
    split; [lia|]. intros H1. by apply E5.
Qed.

Module MpiWitness.
Definition quiet_mpi : mpi_env := {| v_error _ := None; v_funneled := true |}.
Definition request : mpi_config := {| c_device := 0; c_color := 1; c_key := 0; c_transport := 5 |}.
Definition nothing : mpi_state := Mpi NotInitialized 0 false 0 0 0.
Definition no_impl (_ : Z) (_ : TransportKind) : res Impl := Throw (RuntimeError "no peers").

(** Mixed cannot be requested: the call fails after it has initialised MPI, and
    gives the lease back. *)
Lemma create_takes_one_lease_witness :
  let '(s', (st', status)) :=
    create_subgroup quiet_mpi "" no_impl false (Some request) (CState "" None) nothing in
  m_leases s' = 0%nat /\ m_comms s' = 0%nat /\ handle st' = None /\ m_phase s' = Finalized.
Proof.
  destruct (create_subgroup quiet_mpi "" no_impl false (Some request) (CState "" None) nothing)
    as [s' [st' status]] eqn:E.
  destruct (create_takes_one_lease quiet_mpi "" no_impl false (Some request) (CState "" None) nothing
    s' st' status eq_refl E) as [(Hs & _)|(_ & Hh & Hl & Hc)].
  - rewrite Hs in E. by vm_compute in E.
  - rewrite Hl, Hc, (Hh eq_refl). by vm_compute in E; injection E as <- _ _.
Defined.

(** Two communicators; the second release finalises. *)
Definition both : mpi_state := Mpi Active 2 true 0 1 0.
Definition one : mpi_state := release_lease true both.

Lemma mpi_leases_safe_witness :
  m_leases (w_mpi (World one 0 1 0)) = 1%nat /\ m_phase (w_mpi (World (release_lease true one) 0 0 0)) = Finalized.
Proof.
  assert (rtc answered_step mpi_start (World one 0 1 0)) as Hr.
  { eapply rtc_l; [split; [eapply (Acquire quiet_mpi); reflexivity|done]|].
    eapply rtc_l; [split; [eapply (Acquire quiet_mpi); reflexivity|done]|].
    eapply rtc_l; [split; [apply (CheckActive quiet_mpi false); reflexivity|done]|].
    eapply rtc_l; [split; [apply (CheckActive quiet_mpi false); reflexivity|done]|].
    apply rtc_once. split; [apply ReleaseActive|done]. }
  assert (rtc mpi_step mpi_start (World one 0 1 0)) as Hr'.
  { revert Hr. apply rtc_subrel. intros x y. by intros []. }
  destruct (mpi_leases_safe _ _ Hr' (ReleaseActive _ _ _ _)) as (Hl & _ & _ & _ & _ & _ & Hf & _).
  split; [exact Hl|]. apply Hf; [reflexivity|constructor|reflexivity].
Defined.
End MpiWitness.
