(* ===== verification/Wire.v ===== *)
(** * The TCP wire format and its transfer loops

    src/transport/socket/socket_endpoint.cc (the HELLO record, [write_all] and
    [read_all]) and src/transport/socket/socket_proxy.cc ([send_iov_all],
    [send_all], [recv_all], [send_slice], [recv_slice]).

    Bytes are integers below 256.  A socket call takes its outcome from a list,
    so that a theorem about every list speaks of every way the kernel can cut
    a transfer into pieces or interrupt it.  [None] is a transfer that has used
    up its list and would call the kernel again. *)

From Stdlib Require Import ZArith Lia.
From stdpp Require Import base option numbers tactics strings list.
From S2P Require Import Prelude Types.

#[local] Open Scope Z_scope.

Abbreviation bytes := (list Z).

(** ** Byte order *)

(** The [k]-th byte of a word, least significant first, and the memory image
    of 16-bit and 32-bit words on the little-endian hosts. *)
Definition byte_at (x k : Z) : Z := Z.land (Z.shiftr x (8 * k)) 255.
Definition mem16 (x : Z) : bytes := [byte_at x 0; byte_at x 1].
Definition mem32 (x : Z) : bytes := [byte_at x 0; byte_at x 1; byte_at x 2; byte_at x 3].

Definition load16 (b : bytes) : Z :=
  match b with [a; b] => Z.lor a (Z.shiftl b 8) | _ => 0 end.
Definition load32 (b : bytes) : Z :=
  match b with
  | [a; b; c; d] => Z.lor (Z.lor a (Z.shiftl b 8)) (Z.lor (Z.shiftl c 16) (Z.shiftl d 24))
  | _ => 0
  end.

(** [htonl] and [htons]; [ntohl] and [ntohs] are the same functions. *)
Definition htonl (x : Z) : Z := load32 [byte_at x 3; byte_at x 2; byte_at x 1; byte_at x 0].
Definition htons (x : Z) : Z := load16 [byte_at x 1; byte_at x 0].

(** ** Outcomes of socket calls

    [Moved n] moves as many bytes as asked for, but at most [n], and a read at
    most what has arrived; [Moved 0] is a call that returns 0. *)

Inductive io :=
| Eintr                 (* -1, errno == EINTR *)
| Fail (what : string)  (* -1, any other errno; the text strerror gives *)
| Moved (n : nat).      (* up to n bytes written or read *)

Definition socket_error (operation what : string) : exn :=
  RuntimeError (operation +:+ ": " +:+ what).

(** [write_all]: what has been accepted by the kernel so far is kept. *)
Fixpoint write_all (os : list io) (data accepted : bytes) : option (res unit * bytes) :=
  match data with
  | [] => Some (Ok tt, accepted)
  | _ =>
      match os with
      | [] => None
      | Eintr :: os => write_all os data accepted
      | Fail what :: _ => Some (Throw (socket_error "send" what), accepted)
      | Moved n :: os =>
          if (n =? 0)%nat then Some (Throw (RuntimeError "send returned zero bytes"), accepted)
          else write_all os (drop n data) (accepted ++ take n data)
      end
  end.

(** The inner loop of [send_iov_all]: buffers written completely are dropped,
    the next one is cut. *)
Fixpoint consume (iov : list bytes) (consumed : nat) : list bytes :=
  match iov with
  | [] => []
  | b :: rest =>
      if (length b <=? consumed)%nat then consume rest (consumed - length b)
      else drop consumed b :: rest
  end.

Fixpoint send_iov_loop (os : list io) (iov : list bytes) (accepted : bytes) :
    option (res unit * bytes) :=
  match iov with
  | [] => Some (Ok tt, accepted)
  | _ =>
      match os with
      | [] => None
      | Eintr :: os => send_iov_loop os iov accepted
      | Fail what :: _ => Some (Throw (socket_error "sendmsg" what), accepted)
      | Moved n :: os =>
          if (n =? 0)%nat then Some (Throw (RuntimeError "sendmsg returned zero bytes"), accepted)
          else send_iov_loop os (consume iov n) (accepted ++ take n (mjoin iov))
      end
  end.

Definition send_iov_all (os : list io) (first second accepted : bytes) :
    option (res unit * bytes) :=
  send_iov_loop os
    ((if decide (first = []) then [] else [first]) ++
     (if decide (second = []) then [] else [second])) accepted.

(** [recv_all] and [read_all] differ only in the text for a closed peer.  The
    result is the data read, what is left in the stream and unused outcomes.
    With nothing in the stream the call blocks. *)
Fixpoint recv_loop (closed : string) (os : list io) (want : nat) (stream got : bytes) :
    option (res bytes * bytes * list io) :=
  match want with
  | O => Some (Ok got, stream, os)
  | S _ =>
      match os with
      | [] => None
      | Eintr :: os => recv_loop closed os want stream got
      | Fail what :: os => Some (Throw (socket_error "recv" what), stream, os)
      | Moved n :: os =>
          if (n =? 0)%nat then Some (Throw (RuntimeError closed), stream, os)
          else if decide (stream = []) then None
          else let k := (n `min` (want `min` length stream))%nat in
               recv_loop closed os (want - k) (drop k stream) (got ++ take k stream)
      end
  end.

Definition recv_all (os : list io) (want : nat) (stream : bytes) :=
  recv_loop "recv: peer closed" os want stream [].
Definition read_all (os : list io) (want : nat) (stream : bytes) :=
  recv_loop "socket peer closed during HELLO" os want stream [].

(** ** Slices *)

(** [SocketSliceHeader] and payload, as [send_slice] puts them on the wire. *)
Definition slice_header (payload : bytes) : bytes := mem32 (htonl (u32 (Z.of_nat (length payload)))).
Definition frame (payload : bytes) : bytes := slice_header payload ++ payload.

Definition send_slice (os : list io) (payload accepted : bytes) : option (res unit * bytes) :=
  send_iov_all os (slice_header payload) payload accepted.

Definition recv_slice (os : list io) (payload_capacity : Z) (stream : bytes) :
    option (res bytes * bytes * list io) :=
  match recv_all os 4 stream with
  | None => None
  | Some (Throw e, stream, os) => Some (Throw e, stream, os)
  | Some (Ok header, stream, os) =>
      let payload_bytes := htonl (load32 header) in
      if payload_capacity <? payload_bytes
      then Some (Throw (RuntimeError "socket slice payload exceeds capacity"), stream, os)
      else recv_all os (Z.to_nat payload_bytes) stream
  end.

(** ** HELLO *)

Record SocketHello := Hello {
  source_global_rank : Z; destination_global_rank : Z; hello_channel : Z }.

#[export] Instance SocketHello_eq_dec : EqDecision SocketHello.
Proof. solve_decision. Defined.

Definition kSocketHelloMagic : Z := 0x4e4e434c.
Definition kSocketProtocolVersion : Z := 1.

(** The sixteen bytes [connect] writes: [WireHello] in field order. *)
Definition wire_hello (h : SocketHello) : bytes :=
  mem32 (htonl kSocketHelloMagic) ++
  mem16 (htons kSocketProtocolVersion) ++
  mem16 (htons (u16 (hello_channel h))) ++
  mem32 (htonl (u32 (source_global_rank h))) ++
  mem32 (htonl (u32 (destination_global_rank h))).

(** [read_hello] on the bytes read. *)
Definition parse_hello (b : bytes) : res SocketHello :=
  let magic := take 4 b in
  let version := take 2 (drop 4 b) in
  let channel := take 2 (drop 6 b) in
  let source := take 4 (drop 8 b) in
  let destination := take 4 (drop 12 b) in
  if negb (htonl (load32 magic) =? kSocketHelloMagic)
  then Throw (RuntimeError "socket HELLO has invalid magic")
  else if negb (htons (load16 version) =? kSocketProtocolVersion)
  then Throw (RuntimeError "socket HELLO has unsupported version")
  else Ok (Hello (to_int32 (htonl (load32 source))) (to_int32 (htonl (load32 destination)))
             (htons (load16 channel))).

Definition read_hello (os : list io) (stream : bytes) : option (res SocketHello) :=
  match read_all os 16 stream with
  | None => None
  | Some (Throw e, _, _) => Some (Throw e)
  | Some (Ok b, _, _) => Some (parse_hello b)
  end.

Definition send_hello (os : list io) (h : SocketHello) : option (res unit * bytes) :=
  write_all os (wire_hello h) [].

(** ** Byte order facts *)

Lemma byte_at_arith x k : 0 <= k -> byte_at x k = x / 2 ^ (8 * k) mod 2 ^ 8.
Proof.
  intros Hk. unfold byte_at. change 255 with (Z.ones 8).
  by rewrite Z.land_ones, Z.shiftr_div_pow2 by lia.
Qed.

Lemma byte_at_range x k : 0 <= k -> 0 <= byte_at x k < 256.
Proof. intros Hk. rewrite byte_at_arith by done. apply Z.mod_pos_bound. lia. Qed.

Definition is_byte (b : Z) : Prop := 0 <= b < 256.

Lemma load16_arith a b : is_byte a -> load16 [a; b] = a + b * 2 ^ 8.
Proof. intros Ha. unfold load16. by rewrite lor_shiftl_add. Qed.

Lemma load32_arith a b c d : is_byte a -> is_byte b -> is_byte c ->
  load32 [a; b; c; d] = a + b * 2 ^ 8 + c * 2 ^ 16 + d * 2 ^ 24.
Proof.
  unfold is_byte. intros Ha Hb Hc. unfold load32.
  replace (Z.shiftl d 24) with (Z.shiftl (Z.shiftl d 8) 16) by (rewrite Z.shiftl_shiftl by lia; done).
  rewrite <- Z.shiftl_lor, (lor_shiftl_add a b 8), (lor_shiftl_add c d 8) by lia.
  rewrite lor_shiftl_add by lia. lia.
Qed.

Lemma byte_split x n : 0 <= n -> x / 2 ^ n = x / 2 ^ n mod 2 ^ 8 + x / 2 ^ (n + 8) * 2 ^ 8.
Proof.
  intros Hn. pose proof (Z.div_mod (x / 2 ^ n) (2 ^ 8) ltac:(lia)) as E.
  rewrite Z.pow_add_r, <- Zdiv.Zdiv_Zdiv by lia. lia.
Qed.

Lemma load32_mem32 x : 0 <= x < 2 ^ 32 -> load32 (mem32 x) = x.
Proof.
  intros Hx. unfold mem32. rewrite load32_arith by (apply byte_at_range; lia).
  rewrite !byte_at_arith by lia.
  pose proof (byte_split x 0 ltac:(lia)) as E0. pose proof (byte_split x 8 ltac:(lia)) as E1.
  pose proof (byte_split x 16 ltac:(lia)) as E2. pose proof (byte_split x 24 ltac:(lia)) as E3.
  rewrite Z.pow_0_r, Z.div_1_r in E0. assert (x / 2 ^ (24 + 8) = 0) by (apply Z.div_small; lia).
  change (0 + 8) with 8 in *. change (8 + 8) with 16 in *. change (16 + 8) with 24 in *.
  change (8 * 1) with 8. change (8 * 2) with 16. change (8 * 3) with 24.
  rewrite Z.mul_0_r, Z.pow_0_r, Z.div_1_r. lia.
Qed.

Lemma load16_mem16 x : 0 <= x < 2 ^ 16 -> load16 (mem16 x) = x.
Proof.
  intros Hx. unfold mem16. rewrite load16_arith by (apply byte_at_range; lia).
  rewrite !byte_at_arith by lia.
  pose proof (byte_split x 0 ltac:(lia)) as E0. pose proof (byte_split x 8 ltac:(lia)) as E1.
  rewrite Z.pow_0_r, Z.div_1_r in E0. assert (x / 2 ^ (8 + 8) = 0) by (apply Z.div_small; lia).
  change (0 + 8) with 8 in *. change (8 * 1) with 8. rewrite Z.mul_0_r, Z.pow_0_r, Z.div_1_r. lia.
Qed.

(** The bytes of a word built from bytes. *)
Lemma byte_at_load32 a b c d : is_byte a -> is_byte b -> is_byte c -> is_byte d ->
  mem32 (load32 [a; b; c; d]) = [a; b; c; d].
Proof.
  intros Ha Hb Hc Hd. rewrite load32_arith by done. unfold is_byte, mem32 in *.
  rewrite !byte_at_arith by lia. rewrite Z.mul_0_r, Z.pow_0_r, Z.div_1_r.
  repeat f_equal; Z.to_euclidean_division_equations; lia.
Qed.

Lemma byte_at_load16 a b : is_byte a -> is_byte b -> mem16 (load16 [a; b]) = [a; b].
Proof.
  intros Ha Hb. rewrite load16_arith by done. unfold is_byte, mem16 in *.
  rewrite !byte_at_arith by lia. rewrite Z.mul_0_r, Z.pow_0_r, Z.div_1_r.
  repeat f_equal; Z.to_euclidean_division_equations; lia.
Qed.

Lemma mem32_htonl x :
  mem32 (htonl x) = [byte_at x 3; byte_at x 2; byte_at x 1; byte_at x 0].
Proof. apply byte_at_load32; apply byte_at_range; lia. Qed.

Lemma mem16_htons x : mem16 (htons x) = [byte_at x 1; byte_at x 0].
Proof. apply byte_at_load16; apply byte_at_range; lia. Qed.

Lemma htonl_range x : 0 <= htonl x < 2 ^ 32.
Proof.
  unfold htonl. rewrite load32_arith by (apply byte_at_range; lia).
  pose proof (byte_at_range x 0). pose proof (byte_at_range x 1).
  pose proof (byte_at_range x 2). pose proof (byte_at_range x 3). lia.
Qed.

(** A word sent in network order and read back. *)
Lemma ntohl_of_wire x : 0 <= x < 2 ^ 32 -> htonl (load32 (mem32 (htonl x))) = x.
Proof.
  intros Hx. rewrite load32_mem32 by apply htonl_range.
  pose proof (mem32_htonl x) as Hm. unfold mem32 in Hm. injection Hm as E0 E1 E2 E3.
  unfold htonl at 1. rewrite E0, E1, E2, E3. by apply load32_mem32.
Qed.

Lemma ntohs_of_wire x : 0 <= x < 2 ^ 16 -> htons (load16 (mem16 (htons x))) = x.
Proof.
  intros Hx. rewrite load16_mem16.
  - pose proof (mem16_htons x) as Hm. unfold mem16 in Hm. injection Hm as E0 E1.
    unfold htons at 1. rewrite E0, E1. by apply load16_mem16.
  - unfold htons. rewrite load16_arith by (apply byte_at_range; lia).
    pose proof (byte_at_range x 0). pose proof (byte_at_range x 1). lia.
Qed.

(** ** Transfer facts *)

(** Whatever the cuts, a write that returns has put exactly the data on the
    wire, and one that throws a prefix of it. *)
Lemma write_all_prefix os data acc r out : write_all os data acc = Some (r, out) ->
  exists k, out = acc ++ take k data /\ (r = Ok tt -> out = acc ++ data).
Proof.
  revert data acc. induction os as [|o os IH]; intros data acc; destruct data as [|b data];
    simpl; try done.
  1,2: intros [= <- <-]; exists 0%nat; by rewrite !app_nil_r.
  destruct o as [|what|n].
  - apply (IH (b :: data)).
  - intros [= <- <-]. exists 0%nat. by rewrite app_nil_r.
  - destruct (Nat.eqb_spec n 0) as [->|Hn].
    { intros [= <- <-]. exists 0%nat. by rewrite app_nil_r. }
    set (d := b :: data) in *. change (b :: data) with d. intros (k & -> & Hr)%IH.
    exists (n + k)%nat. rewrite <- app_assoc. split.
    + f_equal. rewrite <- (take_drop n (take (n + k) d)), take_take, Nat.min_l by lia.
      f_equal. rewrite skipn_firstn_comm. f_equal. lia.
    + intros Hu. by rewrite app_assoc, (Hr Hu), <- app_assoc, take_drop.
Qed.

(** Outcomes without errors, and how many of them move data. *)
Definition benign (os : list io) : Prop :=
  Forall (fun o => match o with Eintr => True | Fail _ => False | Moved n => (0 < n)%nat end) os.
Fixpoint moves (os : list io) : nat :=
  match os with [] => 0 | Moved _ :: os => S (moves os) | _ :: os => moves os end.

Lemma write_all_completes os data acc : benign os -> (length data <= moves os)%nat ->
  write_all os data acc = Some (Ok tt, acc ++ data).
Proof.
  intros Hb Hm.
  enough (exists out, write_all os data acc = Some (Ok tt, out)) as [out Hw].
  { pose proof (write_all_prefix _ _ _ _ _ Hw) as (k & _ & Hr). by rewrite Hw, Hr. }
  revert data acc Hm. induction Hb as [|o os Ho Hb IH]; intros data acc Hm; destruct data as [|b data];
    simpl; eauto; [simpl in Hm; lia|].
  destruct o as [|what|n]; [apply IH; done|done|].
  destruct (Nat.eqb_spec n 0); [lia|]. apply IH. simpl in Hm. rewrite length_drop. simpl. lia.
Qed.

Lemma consume_join iov n : mjoin (consume iov n) = drop n (mjoin iov).
Proof.
  revert n. induction iov as [|b iov IH]; intros n; simpl; [by rewrite drop_nil|].
  destruct (Nat.leb_spec (length b) n).
  - rewrite IH, drop_app_ge by lia. done.
  - simpl. by rewrite drop_app_le by lia.
Qed.

Lemma consume_nonempty iov n : Forall (fun b => b <> []) iov ->
  Forall (fun b => b <> []) (consume iov n).
Proof.
  intros Hf. revert n. induction Hf as [|b iov Hb Hf IH]; intros n; simpl; [done|].
  destruct (Nat.leb_spec (length b) n); [apply IH|]. constructor; [|done].
  intros Hd%(f_equal length). rewrite length_drop in Hd. simpl in Hd. lia.
Qed.

(** Same effect: the same bytes accepted, and both return, throw or go on. *)
Definition same_transfer (x y : option (res unit * bytes)) : Prop :=
  match x, y with
  | None, None => True
  | Some (Ok _, a), Some (Ok _, b) | Some (Throw _, a), Some (Throw _, b) => a = b
  | _, _ => False
  end.

Lemma send_iov_loop_write os iov acc : Forall (fun b => b <> []) iov ->
  same_transfer (send_iov_loop os iov acc) (write_all os (mjoin iov) acc).
Proof.
  revert iov acc. induction os as [|o os IH]; intros iov acc Hf.
  - destruct Hf as [|b iov Hb Hf]; [done|]. by destruct b.
  - destruct Hf as [|b iov Hb Hf]; [done|].
    assert (exists x d, mjoin (b :: iov) = x :: d) as (x & d & Ed).
    { destruct b as [|x b]; [done|]. simpl. eauto. }
    cbn [send_iov_loop write_all]. rewrite Ed. destruct o as [|what|n]; [|done|].
    + rewrite <- Ed. apply IH. by constructor.
    + destruct (Nat.eqb_spec n 0); [done|]. rewrite <- Ed, <- consume_join.
      apply IH, consume_nonempty. by constructor.
Qed.

Lemma recv_loop_completes closed os want stream got :
  benign os -> (want <= moves os)%nat -> (want <= length stream)%nat ->
  exists os', recv_loop closed os want stream got =
                Some (Ok (got ++ take want stream), drop want stream, os') /\
              benign os' /\ (moves os <= moves os' + want)%nat.
Proof.
  intros Hb. revert want stream got. induction Hb as [|o os Ho Hb IH]; intros want stream got Hm Hs.
  - simpl in Hm. assert (want = 0%nat) as -> by lia. simpl.
    rewrite app_nil_r. eexists. split_and!; [done|constructor|lia].
  - destruct want as [|want]; cbn [recv_loop].
    { rewrite take_0, drop_0, app_nil_r. eexists. split_and!; [done|by constructor|lia]. }
    destruct o as [|what|n]; [by apply (IH (S want))|done|].
    destruct (Nat.eqb_spec n 0); [lia|].
    destruct (decide (stream = [])) as [->|Hne]; [simpl in Hs; lia|].
    set (k := (n `min` (S want `min` length stream))%nat).
    assert (0 < length stream)%nat by (destruct stream; [done|simpl; lia]).
    assert (0 < k <= S want)%nat as Hk by (unfold k; lia).
    cbn [moves] in Hm |- *.
    destruct (IH (S want - k)%nat (drop k stream) (got ++ take k stream)) as (os' & -> & Hb' & Hm');
      [lia|rewrite length_drop; lia|].
    exists os'. split_and!; [|done|lia].
    assert (take k stream ++ take (S want - k) (drop k stream) = take (S want) stream) as Ht.
    { rewrite <- (take_drop k (take (S want) stream)), take_take, Nat.min_l by lia.
      f_equal. by rewrite skipn_firstn_comm. }
    rewrite drop_drop, <- app_assoc, Ht. replace (k + (S want - k))%nat with (S want) by lia. done.
Qed.

(** ** Slices and HELLO records survive the wire *)

Lemma length_mem32 x : length (mem32 x) = 4%nat.
Proof. done. Qed.

Lemma recv_slice_frame os payload capacity rest :
  Z.of_nat (length payload) < 2 ^ 32 -> Z.of_nat (length payload) <= capacity ->
  benign os -> (4 + length payload <= moves os)%nat ->
  exists os', recv_slice os capacity (frame payload ++ rest) = Some (Ok payload, rest, os').
Proof.
  intros Hl Hc Hb Hm. unfold recv_slice, frame, slice_header, recv_all.
  rewrite u32_small, <- app_assoc by lia. set (hdr := mem32 _).
  destruct (recv_loop_completes "recv: peer closed" os 4 (hdr ++ payload ++ rest) [])
    as (os1 & -> & Hb1 & Hm1); [done|lia|rewrite length_app; unfold hdr; rewrite length_mem32; lia|].
  rewrite take_app_length', drop_app_length' by done. rewrite app_nil_l.
  unfold hdr. rewrite ntohl_of_wire, (proj2 (Z.ltb_ge _ _)) by lia. rewrite Nat2Z.id.
  destruct (recv_loop_completes "recv: peer closed" os1 (length payload) (payload ++ rest) [])
    as (os2 & -> & _); [done|lia|rewrite length_app; lia|].
  rewrite take_app_length, drop_app_length. eauto.
Qed.

Lemma send_iov_all_same os first second accepted :
  same_transfer (send_iov_all os first second accepted)
                (write_all os (first ++ second) accepted).
Proof.
  unfold send_iov_all. set (iov := _ ++ _).
  assert (first ++ second = mjoin iov) as ->.
  { unfold iov. destruct (decide (first = [])) as [->|], (decide (second = [])) as [->|]; simpl;
      rewrite ?app_nil_r; done. }
  apply send_iov_loop_write. unfold iov.
  destruct (decide (first = [])), (decide (second = [])); repeat constructor; done.
Qed.

(** The gathered write of header and payload, [sendmsg] on two buffers with
    its bookkeeping of partly written buffers, does the same as writing the
    concatenation: for every sequence of partial writes, interrupts and errors
    the kernel accepts the same bytes and the call ends the same way. *)
Theorem send_iov_all_write_all os first second accepted :
  same_transfer (send_iov_all os first second accepted)
                (write_all os (first ++ second) accepted).
Proof. apply send_iov_all_same. Qed.

(** C29: A slice crosses the connection unchanged however the kernel cuts the
    transfer: with no socket error, [send_slice] puts exactly header and
    payload on the wire, and [recv_slice] takes exactly that slice off the
    stream and leaves what follows; a payload over the capacity of the
    receiver's slot is rejected before any of it is stored. *)
Theorem slice_transfer os1 os2 payload rest capacity :
  Z.of_nat (length payload) < 2 ^ 32 ->
  benign os1 -> (4 + length payload <= moves os1)%nat ->
  benign os2 -> (4 + length payload <= moves os2)%nat ->
  exists wire os', send_slice os1 payload [] = Some (Ok tt, wire) /\
    recv_slice os2 capacity (wire ++ rest) =
    Some (if Z.of_nat (length payload) <=? capacity then (Ok payload, rest, os')
          else (Throw (RuntimeError "socket slice payload exceeds capacity"), payload ++ rest, os')).
Proof.
  intros Hl Hb1 Hm1 Hb2 Hm2. exists (frame payload).
  assert (send_slice os1 payload [] = Some (Ok tt, frame payload)) as Hs.
  { pose proof (send_iov_all_same os1 (slice_header payload) payload []) as Hsame.
    rewrite write_all_completes in Hsame; [|done|rewrite length_app; simpl; lia].
    unfold send_slice. destruct (send_iov_all _ _ _ _) as [[[[]|] out]|]; try done.
    by rewrite Hsame. }
  destruct (Z.leb_spec (Z.of_nat (length payload)) capacity) as [Hc|Hc].
  { destruct (recv_slice_frame os2 payload capacity rest) as [os' ->]; eauto. }
  destruct (recv_loop_completes "recv: peer closed" os2 4
    (mem32 (htonl (Z.of_nat (length payload))) ++ payload ++ rest) []) as (os3 & E & _);
    [done|lia|rewrite length_app, length_mem32; lia|].
  exists os3. split; [exact Hs|]. unfold recv_slice, recv_all, frame, slice_header.
  rewrite u32_small, <- app_assoc, E by lia.
  rewrite take_app_length', drop_app_length', app_nil_l, ntohl_of_wire by (done || lia).
  by rewrite (proj2 (Z.ltb_lt _ _)) by lia.
Qed.

(** The record survives when ranks and channel fit the fields. *)
Definition hello_fits (h : SocketHello) : Prop :=
  0 <= source_global_rank h < 2 ^ 31 /\ 0 <= destination_global_rank h < 2 ^ 31 /\
  0 <= hello_channel h < 2 ^ 16.

Lemma to_int32_small x : 0 <= x < 2 ^ 31 -> to_int32 x = x.
Proof.
  intros Hx. unfold to_int32. rewrite u32_small by lia. by rewrite (proj2 (Z.ltb_lt _ _)) by lia.
Qed.

Lemma parse_wire_hello h : hello_fits h -> parse_hello (wire_hello h) = Ok h.
Proof.
  destruct h as [src dst ch]. intros (Hs & Hd & Hc). simpl in *.
  unfold wire_hello. cbn [source_global_rank destination_global_rank hello_channel].
  rewrite u16_small, !u32_small by lia.
  change (mem32 (htonl kSocketHelloMagic)) with [0x4e; 0x4e; 0x43; 0x4c].
  change (mem16 (htons kSocketProtocolVersion)) with [0; 1].
  transitivity (Ok (Hello (to_int32 (htonl (load32 (mem32 (htonl src)))))
    (to_int32 (htonl (load32 (mem32 (htonl dst))))) (htons (load16 (mem16 (htons ch)))))).
  - unfold parse_hello, mem16, mem32. reflexivity.
  - by rewrite !ntohl_of_wire, ntohs_of_wire, !to_int32_small by lia.
Qed.

(** The HELLO record: for ranks and channels that fit its fields the peer
    reads back, over any sequence of partial transfers, the record that was
    sent; a record with another magic or version is refused. *)
Theorem hello_round_trip os1 os2 h :
  hello_fits h -> benign os1 -> (16 <= moves os1)%nat -> benign os2 -> (16 <= moves os2)%nat ->
  exists wire, send_hello os1 h = Some (Ok tt, wire) /\ read_hello os2 wire = Some (Ok h) /\
    forall b, length b = 16%nat -> parse_hello b = Ok h ->
      htonl (load32 (take 4 b)) = kSocketHelloMagic /\
      htons (load16 (take 2 (drop 4 b))) = kSocketProtocolVersion.
Proof.
  intros Hh Hb1 Hm1 Hb2 Hm2. exists (wire_hello h).
  assert (length (wire_hello h) = 16%nat) as Hl by done. split_and!.
  - unfold send_hello. rewrite write_all_completes by (done || lia). done.
  - unfold read_hello, read_all.
    destruct (recv_loop_completes "socket peer closed during HELLO" os2 16 (wire_hello h) [])
      as (os' & -> & _); [done|lia|lia|].
    rewrite take_ge, app_nil_l, parse_wire_hello by (done || lia). done.
  - intros b _. unfold parse_hello.
    destruct (Z.eqb_spec (htonl (load32 (take 4 b))) kSocketHelloMagic); [|done].
    destruct (Z.eqb_spec (htons (load16 (take 2 (drop 4 b)))) kSocketProtocolVersion); done.
Qed.

Module WireWitness.
(** Three bytes at a time, with an interrupt in between. *)
Definition choppy : list io := Eintr :: replicate 40 (Moved 3).

Lemma choppy_ok : benign choppy /\ (20 <= moves choppy)%nat.
Proof. split; [repeat constructor|simpl; lia]. Qed.

Lemma slice_transfer_witness :
  exists wire os', send_slice choppy [7; 8; 9; 10; 11] [] = Some (Ok tt, wire) /\
    recv_slice choppy 64 (wire ++ [1; 2]) = Some (Ok [7; 8; 9; 10; 11], [1; 2], os').
Proof.
  destruct choppy_ok as [Hb Hm].
  refine (slice_transfer choppy choppy [7; 8; 9; 10; 11] [1; 2] 64 _ Hb _ Hb _); simpl; lia.
Defined.

Lemma hello_round_trip_witness :
  exists wire, send_hello choppy (Hello 2 0 1) = Some (Ok tt, wire) /\
    read_hello choppy wire = Some (Ok (Hello 2 0 1)).
Proof.
  destruct choppy_ok as [Hb Hm].
  destruct (hello_round_trip choppy choppy (Hello 2 0 1)) as (w & H1 & H2 & _);
    [unfold hello_fits; simpl; lia|done|lia|done|lia|]. eauto.
Defined.
End WireWitness.
