(* ===== verification/Listener.v ===== *)
(** * Listening sockets and connections

    [SocketEndpoint] and [SocketConnection] of
    src/transport/socket/socket_endpoint.cc: the address of the interface that
    NANO_NCCL_SOCKET_IFNAME names, the listening socket, connecting with a HELLO
    record, accepting and reading it.  System calls answer as an environment
    says; a process records its open descriptors.  Transfers are those of
    Wire.v. *)

From Stdlib Require Import ZArith Lia.
From stdpp Require Import base option numbers tactics strings list.
From S2P Require Import Prelude Types Resources Wire.

#[local] Open Scope Z_scope.

(** ** Data *)

(** The reserved field is zero; the address is in network order, the port is
    not. *)
Record SocketAddress := Address { ipv4_address : Z; port : Z }.

(** An entry of [getifaddrs]; [ifa_ipv4] is the address when its family is
    AF_INET. *)
Record ifaddrs := IfAddrs {
  ifa_name : option string; ifa_ipv4 : option Z; ifa_up : bool; ifa_loopback : bool }.

(** Descriptor of a connection, negative when it owns none, and its HELLO. *)
Record SocketConnection := Connection { cn_fd : Z; cn_hello : SocketHello }.
Definition no_hello : SocketHello := Hello (-1) (-1) (-1).
Record SocketEndpoint := SocketListener { listener_fd : Z; ep_address : SocketAddress }.

Record socket_calls := SocketCalls {
  socket_ifname : option string;                   (* NANO_NCCL_SOCKET_IFNAME *)
  getifaddrs : list ifaddrs + string;              (* or strerror(errno) *)
  new_socket : list Z -> Z * string;               (* [socket] given the open descriptors; strerror(errno) *)
  set_reuse_address : Z -> option string;
  bind : Z -> Z -> option string;                  (* descriptor, address; port 0 *)
  listen : Z -> option string;
  getsockname : Z -> Z + string;                   (* sin_port, in network order *)
  connect_socket : Z -> Z -> Z -> option string }. (* descriptor, address, sin_port *)

Abbreviation FM := (PM (list Z)).

(** ** Operations *)

Section Endpoint.
Context (N : socket_calls).

(** [close] of either class. *)
Definition close_fd (fd : Z) (s : list Z) : list Z := if 0 <=? fd then release fd s else s.

Definition usable (interface_name : string) (entry : ifaddrs) : option Z :=
  match ifa_name entry with
  | Some name =>
      if String.eqb name interface_name && ifa_up entry && negb (ifa_loopback entry)
      then ifa_ipv4 entry else None
  | None => None
  end.

(** The last usable entry is selected; [matches] counts them. *)
Fixpoint scan_interfaces (interface_name : string) (entries : list ifaddrs) (selected matches : Z) : Z * Z :=
  match entries with
  | [] => (selected, matches)
  | entry :: entries =>
      match usable interface_name entry with
      | Some address => scan_interfaces interface_name entries address (matches + 1)
      | None => scan_interfaces interface_name entries selected matches
      end
  end.

Definition select_interface_address : res Z :=
  match socket_ifname N with
  | None => Throw (RuntimeError "NANO_NCCL_SOCKET_IFNAME must be set")
  | Some interface_name =>
      if String.eqb interface_name "" then Throw (RuntimeError "NANO_NCCL_SOCKET_IFNAME must be set") else
      match getifaddrs N with
      | inr text => Throw (socket_error "getifaddrs" text)
      | inl entries =>
          let '(selected, matches) := scan_interfaces interface_name entries 0 0 in
          if negb (matches =? 1)
          then Throw (RuntimeError "NANO_NCCL_SOCKET_IFNAME must identify exactly one usable IPv4 address")
          else Ok selected
      end
  end.

Definition system_call {S} (operation : string) (answer : option string) : PM S unit :=
  match answer with None => mret tt | Some text => p_throw (socket_error operation text) end.

Definition open_socket : FM Z := fun s =>
  let '(fd, text) := new_socket N s in
  if fd <? 0 then (s, Throw (socket_error "socket" text)) else (fd :: s, Ok fd).

(** The block of [create_from_environment] whose handler closes the socket. *)
Definition start_listening (address listener_fd : Z) : FM Z :=
  _ ← system_call "setsockopt(SO_REUSEADDR)" (set_reuse_address N listener_fd);
  _ ← system_call "bind" (bind N listener_fd address);
  _ ← system_call "listen" (listen N listener_fd);
  match getsockname N listener_fd with
  | inr text => p_throw (socket_error "getsockname" text)
  | inl sin_port => mret (htons sin_port)
  end.

Definition create_from_environment : FM SocketEndpoint :=
  address ← p_lift select_interface_address;
  listener_fd ← open_socket;
  port ← p_unwind (release listener_fd) (start_listening address listener_fd);
  mret (SocketListener listener_fd (Address address port)).

Definition close_endpoint (e : SocketEndpoint) (s : list Z) : list Z * SocketEndpoint :=
  (close_fd (listener_fd e) s, if 0 <=? listener_fd e then SocketListener (-1) (ep_address e) else e).

(** [connect], with the bytes the kernel has taken; [None] while a transfer
    would go on. *)
Definition connect (os : list io) (remote : SocketAddress) (hello : SocketHello) (s : list Z) :
    option (list Z * res SocketConnection * bytes) :=
  match open_socket s with
  | (s, Throw e) => Some (s, Throw e, [])
  | (s, Ok fd) =>
      match connect_socket N fd (ipv4_address remote) (htons (u16 (port remote))) with
      | Some text => Some (release fd s, Throw (socket_error "connect" text), [])
      | None =>
          match send_hello os hello with
          | None => None
          | Some (Throw e, sent) => Some (release fd s, Throw e, sent)
          | Some (Ok _, sent) => Some (s, Ok (Connection fd hello), sent)
          end
      end
  end.
End Endpoint.

Inductive accept_answer := AcceptInterrupted | AcceptFailed (text : string) | Accepted (fd : Z).

Fixpoint accept (answers : list accept_answer) (s : list Z) : option (list Z * res SocketConnection) :=
  match answers with
  | [] => None
  | AcceptInterrupted :: answers => accept answers s
  | AcceptFailed text :: _ => Some (s, Throw (socket_error "accept" text))
  | Accepted fd :: _ => Some (fd :: s, Ok (Connection fd no_hello))
  end.

(** [close] and [release] of a connection, and move assignment: what is open
    and the new values of both objects. *)
Definition close_connection (c : SocketConnection) (s : list Z) : list Z * SocketConnection :=
  (close_fd (cn_fd c) s, if 0 <=? cn_fd c then Connection (-1) (cn_hello c) else c).
Definition release_fd (c : SocketConnection) : Z * SocketConnection := (cn_fd c, Connection (-1) (cn_hello c)).
Definition move_assign (same : bool) (c other : SocketConnection) (s : list Z) :
    list Z * SocketConnection * SocketConnection :=
  if same then (s, c, other)
  else ((close_connection c s).1, Connection (cn_fd other) (cn_hello other),
        Connection (-1) (cn_hello other)).

(** ** The interface *)

Lemma scan_interfaces_spec name entries : forall selected matches,
  scan_interfaces name entries selected matches =
  (List.last (omap (usable name) entries) selected, matches + Z.of_nat (length (omap (usable name) entries))).
Proof.
  induction entries as [|entry entries IH]; intros selected matches; cbn [scan_interfaces omap list_omap].
  { f_equal. simpl. lia. }
  destruct (usable name entry) as [a|]; rewrite IH; [|done]. f_equal; [|simpl length; lia].
  destruct (omap (usable name) entries) as [|x l]; [done|]. change (List.last (a :: x :: l) selected) with (List.last (x :: l) selected).
  clear. revert x. induction l as [|y l IH]; intros x; [done|]. exact (IH y).
Qed.

(** The address is that of the one usable entry of the interface. *)
Lemma select_interface_ok N a : select_interface_address N = Ok a <->
  exists name entries, socket_ifname N = Some name /\ name <> ""%string /\ getifaddrs N = inl entries /\
    omap (usable name) entries = [a].
Proof.
  unfold select_interface_address. split.
  - destruct (socket_ifname N) as [name|]; [|done].
    destruct (String.eqb_spec name ""); [done|]. destruct (getifaddrs N) as [entries|]; [|done].
    rewrite scan_interfaces_spec. destruct (omap (usable name) entries) as [|x [|y l]] eqn:El; [done| |].
    + intros [= ->]. by exists name, entries.
    + rewrite (proj2 (Z.eqb_neq _ _)) by (simpl length; lia). done.
  - intros (name & entries & -> & Hne & -> & Ho). rewrite (proj2 (String.eqb_neq _ _) Hne).
    rewrite scan_interfaces_spec, Ho. done.
Qed.

(** ** Descriptors *)

Section Owned.
Context (N : socket_calls).

Lemma system_call_spec (P : list Z -> Prop) operation answer : spec P (system_call operation answer) P (fun _ => P).
Proof. intros s Hs. unfold system_call. by destruct answer. Qed.

Lemma start_listening_spec (P : list Z -> Prop) address fd : spec P (start_listening N address fd) P
  (fun port s => (exists sin_port, getsockname N fd = inl sin_port /\ port = htons sin_port) /\ P s).
Proof.
  unfold start_listening. do 3 (eapply spec_bind; [apply system_call_spec|]; intros ?).
  destruct (getsockname N fd) as [sin_port|text]; [|by apply spec_throw].
  apply spec_ret. intros s Hs. split; [by exists sin_port|done].
Qed.

(** The listening socket is open when the endpoint exists, and nothing is when
    a call has failed. *)
Lemma listener_owned fds : spec (fun s => s ≡ₚ fds) (create_from_environment N) (fun s => s ≡ₚ fds)
  (fun e s => (select_interface_address N = Ok (ipv4_address (ep_address e)) /\
     exists sin_port, getsockname N (listener_fd e) = inl sin_port /\ port (ep_address e) = htons sin_port) /\
     0 <= listener_fd e /\ s ≡ₚ listener_fd e :: fds).
Proof.
  unfold create_from_environment. intros s Hs. unfold mbind at 1, PM_bind at 1, p_lift.
  destruct (select_interface_address N) as [a|e] eqn:Ha; [|done].
  unfold mbind at 1, PM_bind at 1, open_socket.
  destruct (new_socket N s) as [fd text]. destruct (Z.ltb_spec fd 0); [done|].
  unfold mbind, PM_bind, p_unwind.
  pose proof (start_listening_spec (fun s => s ≡ₚ fd :: fds) a fd (fd :: s)
    (perm_skip fd Hs)) as Hl.
  destruct (start_listening N a fd (fd :: s)) as [s' [p|e]].
  - destruct Hl as [Hp Hl]. by split.
  - by apply release_perm.
Qed.

(** The descriptors before and after one process has created its listener and
    destroyed it again. *)
Lemma listener_alone fds r : create_from_environment N [] = (fds, r) ->
  match r with
  | Ok e => fds = [listener_fd e] /\ (close_endpoint e fds).1 = []
  | Throw _ => fds = []
  end.
Proof.
  intros Hc. pose proof (listener_owned [] []) as Hl. rewrite Hc in Hl. specialize (Hl ltac:(done)).
  destruct r as [e|e]; [|by apply Permutation_nil_r in Hl]. destruct Hl as (_ & Hfd & Hp).
  apply Permutation_singleton_r in Hp as ->. split; [done|]. unfold close_endpoint, close_fd.
  rewrite (proj2 (Z.leb_le _ _) Hfd). simpl. by rewrite decide_True.
Qed.

(** A failed [connect] leaves no descriptor behind; a connection that is
    returned owns a new one, and the peer has been sent its record. *)
Lemma connect_owned os remote hello s fds s' r sent : s ≡ₚ fds ->
  connect N os remote hello s = Some (s', r, sent) ->
  match r with
  | Ok c => 0 <= cn_fd c /\ s' ≡ₚ cn_fd c :: fds /\ cn_hello c = hello /\ sent = wire_hello hello
  | Throw _ => s' ≡ₚ fds
  end.
Proof.
  intros Hs. unfold connect, open_socket.
  destruct (new_socket N s) as [fd errno]. destruct (Z.ltb_spec fd 0); [by intros [= <- <- <-]|].
  pose proof (perm_skip fd Hs) as Hfd.
  destruct (connect_socket N fd _ _) as [text|].
  { intros [= <- <- <-]. exact (release_perm fd _ _ Hfd). }
  destruct (send_hello os hello) as [[[u|e] out]|] eqn:Hsend; [| |done]; intros [= <- <- <-].
  - split_and!; [done|done|done|]. destruct u. destruct (write_all_prefix _ _ _ _ _ Hsend) as (k & _ & Hw). by apply Hw.
  - exact (release_perm fd _ _ Hfd).
Qed.

(** A connection that is destroyed gives back the descriptor it owns, and one
    that gave it up by [release] or a move nothing. *)
Lemma close_connection_owned c s fds : 0 <= cn_fd c -> s ≡ₚ cn_fd c :: fds ->
  (close_connection c s).1 ≡ₚ fds /\ (close_connection c s).2 = (release_fd c).2 /\
  close_connection (release_fd c).2 s = (s, (release_fd c).2).
Proof.
  intros Hfd Hs. unfold close_connection, close_fd, release_fd. rewrite (proj2 (Z.leb_le _ _)) by done.
  split; [by apply release_perm|done].
Qed.

Lemma moved_connection_owned c other s fds : 0 <= cn_fd c -> s ≡ₚ cn_fd c :: cn_fd other :: fds ->
  let '(s', c', other') := move_assign false c other s in
  s' ≡ₚ cn_fd c' :: fds /\ cn_fd c' = cn_fd other /\ (close_connection other' s').1 = s'.
Proof.
  intros Hfd Hs. unfold move_assign. split_and!; [|done|done].
  by apply (close_connection_owned c s _ Hfd).
Qed.
End Owned.

(** ** Accepting *)

(** Interrupts are retried; the first other answer decides. *)
Lemma accept_interrupted n answers s :
  accept (replicate n AcceptInterrupted ++ answers) s = accept answers s.
Proof. by induction n. Qed.

Lemma accept_total answers s : Exists (fun a => a <> AcceptInterrupted) answers ->
  exists s' r, accept answers s = Some (s', r) /\
    match r with Ok c => s' = cn_fd c :: s | Throw _ => s' = s end.
Proof.
  induction 1 as [a answers Ha|a answers _ IH].
  - destruct a; [done|eexists _, _; split; [done|done]..].
  - destruct a; [exact IH|eexists _, _; split; [done|done]..].
Qed.

(** ** Two hosts *)

Lemma htons_range x : 0 <= htons x < 2 ^ 16.
Proof.
  unfold htons. rewrite load16_arith by (apply byte_at_range; lia).
  pose proof (byte_at_range x 0). pose proof (byte_at_range x 1). lia.
Qed.

Lemma htons_involutive x : 0 <= x < 2 ^ 16 -> htons (htons x) = x.
Proof.
  intros Hx. rewrite <- (ntohs_of_wire x Hx) at 2. by rewrite load16_mem16 by apply htons_range.
Qed.

(** The address a listener advertises names the port it is bound to: a peer
    that connects to it uses [sin_port] as [getsockname] gave it.  Over any cuts
    of the transfers the peer that accepts the connection reads the record the
    connecting rank sent. *)
Theorem connection_established L C fds e s os1 os2 hello sin_port (held : list Z) fd text :
  create_from_environment L fds = (s, Ok e) ->
  getsockname L (listener_fd e) = inl sin_port -> 0 <= sin_port < 2 ^ 16 ->
  new_socket C held = (fd, text) -> 0 <= fd ->
  connect_socket C fd (ipv4_address (ep_address e)) sin_port = None ->
  hello_fits hello -> benign os1 -> (16 <= moves os1)%nat -> benign os2 -> (16 <= moves os2)%nat ->
  exists wire, connect C os1 (ep_address e) hello held = Some (fd :: held, Ok (Connection fd hello), wire) /\
    read_hello os2 wire = Some (Ok hello).
Proof.
  intros He Hname Hport Hnew Hfd Hconn Hh Hb1 Hm1 Hb2 Hm2.
  pose proof (listener_owned L fds fds) as Hl. rewrite He in Hl.
  destruct Hl as ((_ & sp & Hsp & Hp) & _); [done|]. rewrite Hname in Hsp. injection Hsp as <-.
  exists (wire_hello hello). split.
  - unfold connect, open_socket. rewrite Hnew, (proj2 (Z.ltb_ge _ _) Hfd), Hp, u16_small, htons_involutive, Hconn by (done || apply htons_range).
    unfold send_hello. by rewrite write_all_completes.
  - unfold read_hello, read_all.
    destruct (recv_loop_completes "socket peer closed during HELLO" os2 16 (wire_hello hello) [])
      as (os' & -> & _); [done|lia|done|].
    by rewrite take_ge, app_nil_l, parse_wire_hello.
Qed.

Module ListenerWitness.
(** Two interfaces carry the name; one of them is down. *)
Definition host : socket_calls := {|
  socket_ifname := Some "eth1"%string;
  getifaddrs := inl [IfAddrs (Some "lo"%string) (Some 16777343) true true;
                     IfAddrs (Some "eth1"%string) None true false;
                     IfAddrs (Some "eth1"%string) (Some 33597632) true false;
                     IfAddrs (Some "eth1"%string) (Some 50374848) false false];
  new_socket := fun held => (3 + Z.of_nat (length held), ""%string);
  set_reuse_address := fun _ => None; bind := fun _ _ => None; listen := fun _ => None;
  getsockname := fun _ => inl 0x3930; connect_socket := fun _ _ _ => None |}.

Example listener_created :
  create_from_environment host [] = ([3], Ok (SocketListener 3 (Address 33597632 12345))).
Proof. reflexivity. Qed.

Example bind_fails : create_from_environment (SocketCalls (socket_ifname host) (getifaddrs host)
    (new_socket host) (set_reuse_address host) (fun _ _ => Some "Address in use"%string) (listen host)
    (getsockname host) (connect_socket host)) [7] =
  ([7], Throw (RuntimeError "bind: Address in use")).
Proof. reflexivity. Qed.

Lemma connection_established_witness :
  exists wire, connect host WireWitness.choppy (Address 33597632 12345) (Hello 2 0 1) [9] =
      Some ([4; 9], Ok (Connection 4 (Hello 2 0 1)), wire) /\
    read_hello WireWitness.choppy wire = Some (Ok (Hello 2 0 1)).
Proof.
  destruct WireWitness.choppy_ok as [Hb Hm].
  refine (connection_established host host [] (SocketListener 3 (Address 33597632 12345)) [3]
    WireWitness.choppy WireWitness.choppy (Hello 2 0 1) 0x3930 [9] 4 "" eq_refl eq_refl _ eq_refl
    _ eq_refl _ Hb _ Hb _); try (unfold hello_fits; simpl); lia.
Defined.
End ListenerWitness.
