(* ===== verification/SocketProxy.v ===== *)
(** * The socket proxies of one ring edge and channel

    src/transport/socket/socket_proxy.cc: the send proxy of the source process,
    the receive proxy of the destination process, the TCP stream between them
    and the error state.  The kernels at both ends are the environment: the
    sender's kernel fills slots while it has credit, the receiver's kernel
    empties slots that are ready (the protocol of Ring.v).  Threads interleave
    freely, a write or read moves any number of bytes. *)

From Stdlib Require Import ZArith Lia.
From stdpp Require Import base option numbers tactics strings list pretty.
From S2P Require Import Prelude Types Geometry Wire.

#[local] Open Scope Z_scope.

(** ** Error state *)

Record SocketProxyIdentity := Identity {
  id_source : Z; id_destination : Z; id_channel : Z }.

Record SocketAsyncErrorState := ErrState {
  has_error : bool; message : string; device_abort : option Z }.

Definition format_failure (i : SocketProxyIdentity) (step : Z) (reason : string) : string :=
  "socket proxy source=" +:+ pretty (id_source i) +:+
  " destination=" +:+ pretty (id_destination i) +:+
  " channel=" +:+ pretty (id_channel i) +:+ " step=" +:+ pretty step +:+ ": " +:+ reason.

(** The first failure wins; [None] is a null abort pointer. *)
Definition record_failure (i : SocketProxyIdentity) (step : Z) (reason : string)
    (e : SocketAsyncErrorState) : SocketAsyncErrorState :=
  if has_error e then e
  else ErrState true (format_failure i step reason)
         (match device_abort e with Some _ => Some 1 | None => None end).

(** ** FIFO of a proxy *)

Record SocketProxyFifo := Fifo {
  slot_bytes : Z; slot_count : Z; step_increment : Z }.

(** [validate_fifo]; the pointers are not null. *)
Definition validate_fifo (f : SocketProxyFifo) : res unit :=
  if (slot_bytes f =? 0) || (slot_count f =? 0) || (step_increment f =? 0) ||
     (SIZE_MAX / slot_bytes f <? slot_count f)
  then Throw (RuntimeError "socket proxy has invalid FIFO storage") else Ok tt.

Definition slot_addr (f : SocketProxyFifo) (step : Z) : Z :=
  u64 (step mod slot_count f * slot_bytes f).

Definition read_mem (mem : Z -> Z) (off : Z) (n : nat) : bytes :=
  (fun i => mem (off + i)) <$> zrange (Z.of_nat n).
Definition write_mem (mem : Z -> Z) (off : Z) (b : bytes) : Z -> Z :=
  blit mem off (Z.of_nat (length b)) (fun i => default 0 (b !! Z.to_nat i)).

(** ** State *)

(** A proxy thread at the head of its loop, inside [send_slice] (payload size
    and bytes of the frame written), inside [recv_slice] (header bytes read, or
    payload size and payload bytes stored), or ended. *)
Inductive send_pc := SIdle | SSending (payload_bytes : Z) (pos : nat) | SEnded.
Inductive recv_pc := RIdle | RHeader (got : bytes) | RPayload (payload_bytes : Z) (got : nat) | REnded.

Record half_st (PC : Type) := Half {
  mem : Z -> Z;           (* fifo.data *)
  sizes : Z -> Z;         (* fifo.slot_sizes *)
  c_head : Z; c_tail : Z; (* the control words *)
  p_step : Z;             (* step_ *)
  p_pc : PC;
  stop_requested : bool;
  errs : SocketAsyncErrorState;
}.
Arguments Half {PC} _ _ _ _ _ _ _ _. Arguments mem {PC}. Arguments sizes {PC}.
Arguments c_head {PC}. Arguments c_tail {PC}. Arguments p_step {PC}. Arguments p_pc {PC}.
Arguments stop_requested {PC}. Arguments errs {PC}.

(** [produced] and [consumed] record the slices the two kernels handed over. *)
Record link_st := Link {
  snd_half : half_st send_pc; rcv_half : half_st recv_pc;
  stream : bytes; produced : list bytes; consumed : list bytes }.

Definition set_pc {PC} (h : half_st PC) (pc : PC) : half_st PC :=
  Half (mem h) (sizes h) (c_head h) (c_tail h) (p_step h) pc (stop_requested h) (errs h).

Section Proxies.
Context (f : SocketProxyFifo) (ident : SocketProxyIdentity).

(** *** Send proxy: [SocketSendProxy::run] *)

Definition send_slot (h : half_st send_pc) : Z := slot_addr f (p_step h).

(** The catch clause: the failure is recorded unless a stop was requested. *)
Definition send_throw (h : half_st send_pc) (what : string) : half_st send_pc :=
  Half (mem h) (sizes h) (c_head h) (c_tail h) (p_step h) SEnded (stop_requested h)
    (if stop_requested h then errs h else record_failure ident (p_step h) what (errs h)).

(** One turn of the loop up to the call of [send_slice]. *)
Definition send_turn (h : half_st send_pc) : half_st send_pc :=
  if stop_requested h || has_error (errs h) then set_pc h SEnded
  else if c_tail h <=? p_step h then h
  else let payload_bytes := sizes h (p_step h mod slot_count f) in
       if slot_bytes f <? payload_bytes
       then send_throw h "socket proxy send payload exceeds FIFO capacity"
       else set_pc h (SSending payload_bytes 0).

(** The frame [send_slice] is writing, read from the slot. *)
Definition send_frame (h : half_st send_pc) (payload_bytes : Z) : bytes :=
  mem32 (htonl payload_bytes) ++ read_mem (mem h) (send_slot h) (Z.to_nat payload_bytes).

(** After [send_slice]: publish the credit, advance. *)
Definition send_done (h : half_st send_pc) : half_st send_pc :=
  let step := u64 (p_step h + step_increment f) in
  Half (mem h) (sizes h) step (c_tail h) step SIdle (stop_requested h) (errs h).

(** *** Receive proxy: [SocketRecvProxy::run] *)

Definition recv_slot (h : half_st recv_pc) : Z := slot_addr f (p_step h).

Definition recv_throw (h : half_st recv_pc) (what : string) : half_st recv_pc :=
  Half (mem h) (sizes h) (c_head h) (c_tail h) (p_step h) REnded (stop_requested h)
    (if stop_requested h then errs h else record_failure ident (p_step h) what (errs h)).

Definition recv_turn (h : half_st recv_pc) : half_st recv_pc :=
  if stop_requested h || has_error (errs h) then set_pc h REnded
  else if u64 (c_head h + slot_count f) <? u64 (p_step h + step_increment f) then h
  else set_pc h (RHeader []).

(** The header is complete: the size is checked against the slot. *)
Definition recv_header (h : half_st recv_pc) (header : bytes) : half_st recv_pc :=
  let payload_bytes := htonl (load32 header) in
  if slot_bytes f <? payload_bytes
  then recv_throw h "socket slice payload exceeds capacity"
  else set_pc h (RPayload payload_bytes 0).

Definition recv_store (h : half_st recv_pc) (got : nat) (b : bytes) : Z -> Z :=
  write_mem (mem h) (recv_slot h + Z.of_nat got) b.

(** After [recv_slice]: store the size, publish the slot, advance. *)
Definition recv_done (h : half_st recv_pc) (payload_bytes : Z) : half_st recv_pc :=
  let step := u64 (p_step h + step_increment f) in
  Half (mem h) (upd (sizes h) (p_step h mod slot_count f) payload_bytes)
    (c_head h) step step RIdle (stop_requested h) (errs h).

(** *** [stop] and [shutdown] of either proxy; [stop] also reports *)

Definition halt {PC} (report : bool) (h : half_st PC) : half_st PC :=
  if stop_requested h then h else
  Half (mem h) (sizes h) (c_head h) (c_tail h) (p_step h) (p_pc h) true
    (if report then record_failure ident (p_step h) "stop requested" (errs h) else errs h).

(** The condition under which [drain] returns. *)
Definition send_drained {PC} (h : half_st PC) : bool :=
  has_error (errs h) || negb (c_head h <? c_tail h).
Definition recv_drained {PC} (h : half_st PC) : bool :=
  has_error (errs h) || negb (c_tail h <? c_head h).

(** *** Kernels *)

(** The sender's kernel has credit for one more slice: it fills the slot,
    stores the size and publishes the tail. *)
Definition kernel_send {PC} (h : half_st PC) (p : bytes) : option (half_st PC) :=
  if (u64 (c_head h + slot_count f) <? u64 (c_tail h + step_increment f)) ||
     (slot_bytes f <? Z.of_nat (length p)) then None
  else Some (Half (write_mem (mem h) (slot_addr f (c_tail h)) p)
               (upd (sizes h) (c_tail h mod slot_count f) (Z.of_nat (length p)))
               (c_head h) (u64 (c_tail h + step_increment f)) (p_step h) (p_pc h)
               (stop_requested h) (errs h)).

(** The receiver's kernel finds a slice ready, reads the slot and returns the
    credit. *)
Definition kernel_recv {PC} (h : half_st PC) : option (bytes * half_st PC) :=
  if c_tail h <? u64 (c_head h + step_increment f) then None
  else Some (read_mem (mem h) (slot_addr f (c_head h))
               (Z.to_nat (sizes h (c_head h mod slot_count f))),
             Half (mem h) (sizes h) (u64 (c_head h + step_increment f)) (c_tail h) (p_step h)
               (p_pc h) (stop_requested h) (errs h)).

(** *** Steps of the whole link *)

Inductive act :=
| KSend (p : bytes) | KRecv
| STurn | SMove (n : nat) | SDone | SFail (what : string)
| RTurn | RMove (n : nat) | RDone | RFail (what : string)
| SHalt (report : bool) | RHalt (report : bool).

(** A loop turn, [n] more bytes moved (at least one), the end of a transfer,
    or a socket call that fails with a text. *)
Definition link_act (a : act) (s : link_st) : option link_st :=
  let '(Link sn rc st pr co) := s in
  match a with
  | KSend p => sn' ← kernel_send sn p; Some (Link sn' rc st (pr ++ [p]) co)
  | KRecv => '(p, rc') ← kernel_recv rc; Some (Link sn rc' st pr (co ++ [p]))
  | STurn => match p_pc sn with
             | SIdle => Some (Link (send_turn sn) rc st pr co)
             | _ => None
             end
  | SMove n =>
      match p_pc sn with
      | SSending size pos =>
          let rest := drop pos (send_frame sn size) in
          if decide (n = 0%nat \/ rest = []) then None
          else Some (Link (set_pc sn (SSending size (pos + (n `min` length rest)))) rc
                      (st ++ take n rest) pr co)
      | _ => None
      end
  | SDone =>
      match p_pc sn with
      | SSending size pos =>
          if decide (drop pos (send_frame sn size) = [])
          then Some (Link (send_done sn) rc st pr co) else None
      | _ => None
      end
  | SFail what => match p_pc sn with
                  | SSending _ _ => Some (Link (send_throw sn what) rc st pr co)
                  | _ => None
                  end
  | RTurn => match p_pc rc with
             | RIdle => Some (Link sn (recv_turn rc) st pr co)
             | _ => None
             end
  | RMove n =>
      let k want := (n `min` (want `min` length st))%nat in
      match p_pc rc with
      | RHeader got =>
          let k := k (4 - length got)%nat in
          if decide (k = 0%nat) then None
          else Some (Link sn (set_pc rc (RHeader (got ++ take k st))) (drop k st) pr co)
      | RPayload size got =>
          let k := k (Z.to_nat size - got)%nat in
          if decide (k = 0%nat) then None
          else Some (Link sn (Half (recv_store rc got (take k st)) (sizes rc) (c_head rc)
                                (c_tail rc) (p_step rc) (RPayload size (got + k))
                                (stop_requested rc) (errs rc)) (drop k st) pr co)
      | _ => None
      end
  | RDone =>
      match p_pc rc with
      | RHeader got => if decide (length got = 4%nat)
                       then Some (Link sn (recv_header rc got) st pr co) else None
      | RPayload size got => if decide (got = Z.to_nat size)
                             then Some (Link sn (recv_done rc size) st pr co) else None
      | _ => None
      end
  | RFail what => match p_pc rc with
                  | RHeader _ | RPayload _ _ => Some (Link sn (recv_throw rc what) st pr co)
                  | _ => None
                  end
  | SHalt report => Some (Link (halt report sn) rc st pr co)
  | RHalt report => Some (Link sn (halt report rc) st pr co)
  end.

Inductive link_step : link_st -> link_st -> Prop :=
| link_step_act a s s' : link_act a s = Some s' -> link_step s s'.
End Proxies.

(** Both proxies of the library use eight slots and steps of two, and start on
    zeroed control words. *)
Definition proxy_fifo (sb : Z) : SocketProxyFifo := Fifo sb kFifoSteps kSliceSteps.

Definition half_init {PC} (pc : PC) (m z : Z -> Z) : half_st PC :=
  Half m z 0 0 0 pc false (ErrState false "" (Some 0)).
Definition link_init (m1 z1 m2 z2 : Z -> Z) : link_st :=
  Link (half_init SIdle m1 z1) (half_init RIdle m2 z2) [] [] [].

(** ** Memory *)

Lemma length_read_mem m off n : length (read_mem m off n) = n.
Proof. unfold read_mem, zrange. rewrite length_fmap, length_seqZ. lia. Qed.

Lemma lookup_read_mem m off n i : (i < n)%nat ->
  read_mem m off n !! i = Some (m (off + Z.of_nat i)).
Proof.
  intros Hi. unfold read_mem, zrange. rewrite list_lookup_fmap, lookup_seqZ_lt by lia. done.
Qed.

Lemma read_write_same m off b n : n = length b -> read_mem (write_mem m off b) off n = b.
Proof.
  intros ->. apply list_eq. intros i. destruct (decide (i < length b)%nat) as [Hi|Hi].
  - rewrite lookup_read_mem by done. unfold write_mem. rewrite blit_in by lia.
    replace (off + Z.of_nat i - off) with (Z.of_nat i) by lia. rewrite Nat2Z.id.
    by destruct (lookup_lt_is_Some_2 b i Hi) as [x ->].
  - rewrite !lookup_ge_None_2; [done|lia|rewrite length_read_mem; lia].
Qed.

Lemma read_write_other m off b off' n :
  off' + Z.of_nat n <= off \/ off + Z.of_nat (length b) <= off' ->
  read_mem (write_mem m off b) off' n = read_mem m off' n.
Proof.
  intros Hd. apply list_eq. intros i. destruct (decide (i < n)%nat) as [Hi|Hi].
  - rewrite !lookup_read_mem by done. unfold write_mem. by rewrite blit_out by lia.
  - rewrite !lookup_ge_None_2; [done|rewrite length_read_mem; lia..].
Qed.

Lemma read_mem_app m off n k :
  read_mem m off (n + k) = read_mem m off n ++ read_mem m (off + Z.of_nat n) k.
Proof.
  unfold read_mem, zrange. rewrite Nat2Z.inj_add, seqZ_app, fmap_app by lia. f_equal.
  rewrite Z.add_0_l. apply list_eq. intros i. rewrite !list_lookup_fmap.
  destruct (decide (i < k)%nat).
  - rewrite !lookup_seqZ_lt by lia. simpl. do 2 f_equal. lia.
  - by rewrite !lookup_seqZ_ge by lia.
Qed.

(** ** The invariant of a link *)

Definition frames (l : list bytes) : bytes := l ≫= frame.

Lemma frames_app l1 l2 : frames (l1 ++ l2) = frames l1 ++ frames l2.
Proof. apply bind_app. Qed.

Lemma frames_cons p l : frames (p :: l) = frame p ++ frames l.
Proof. done. Qed.

Lemma frames_split (P : list bytes) c : frames P = frames (take c P) ++ frames (drop c P).
Proof. by rewrite <- frames_app, take_drop. Qed.

Lemma frames_take_S (P : list bytes) c p : P !! c = Some p ->
  frames (take (S c) P) = frames (take c P) ++ frame p.
Proof.
  intros Hp. rewrite (take_S_r P c p) by done. rewrite frames_app. unfold frames at 2. simpl.
  by rewrite app_nil_r.
Qed.

Section LinkInv.
Context (sb : Z) (Hsb : 0 < sb < 2 ^ 32) (ident : SocketProxyIdentity).

Abbreviation fifo := (proxy_fifo sb).
Abbreviation slot k := (2 * Z.of_nat k mod 8).

(** Slice [k] lies in its slot. *)
Record stored {PC} (h : half_st PC) (k : nat) (p : bytes) : Prop := {
  st_bytes : read_mem (mem h) (slot k * sb) (length p) = p;
  st_size : sizes h (slot k) = Z.of_nat (length p);
  st_fits : Z.of_nat (length p) <= sb;
}.

(** Slices [from .. upto - 1] of [P] lie in their slots. *)
Definition window {PC} (h : half_st PC) (P : list bytes) (from upto : nat) : Prop :=
  forall k, (from <= k < upto)%nat -> exists p, P !! k = Some p /\ stored h k p.

(** Bytes written so far, given the slices sent completely. *)
Definition out_bytes (h : half_st send_pc) (P : list bytes) (a : nat) (out : bytes) : Prop :=
  match p_pc h with
  | SIdle => out = frames (take a P)
  | SSending size pos =>
      exists p, P !! a = Some p /\ size = Z.of_nat (length p) /\
                (pos <= length (frame p))%nat /\ out = frames (take a P) ++ take pos (frame p)
  | SEnded => True
  end.

(** Bytes read so far, given the slices received completely. *)
Definition in_bytes (h : half_st recv_pc) (P : list bytes) (c : nat) (inb : bytes) : Prop :=
  match p_pc h with
  | RIdle => inb = frames (take c P)
  | RHeader got => (length got <= 4)%nat /\ inb = frames (take c P) ++ got
  | RPayload size got =>
      exists p, P !! c = Some p /\ size = Z.of_nat (length p) /\ (got <= length p)%nat /\
                Z.of_nat (length p) <= sb /\
                read_mem (mem h) (slot c * sb) got = take got p /\
                inb = frames (take c P) ++ slice_header p ++ take got p
  | REnded => True
  end.

(** The receive proxy only starts a transfer with a free slot. *)
Definition has_room (h : half_st recv_pc) (c nc : nat) : Prop :=
  match p_pc h with
  | RHeader _ | RPayload _ _ => (c < nc + 4)%nat
  | _ => True
  end.

Record link_inv (s : link_st) (a c : nat) (out inb : bytes) : Prop := {
  li_stail : c_tail (snd_half s) = 2 * Z.of_nat (length (produced s));
  li_shead : c_head (snd_half s) = 2 * Z.of_nat a;
  li_sstep : p_step (snd_half s) = 2 * Z.of_nat a;
  li_a : (a <= length (produced s) <= a + 4)%nat;
  li_swin : window (snd_half s) (produced s) a (length (produced s));
  li_rhead : c_head (rcv_half s) = 2 * Z.of_nat (length (consumed s));
  li_rtail : c_tail (rcv_half s) = 2 * Z.of_nat c;
  li_rstep : p_step (rcv_half s) = 2 * Z.of_nat c;
  li_c : (length (consumed s) <= c <= length (consumed s) + 4)%nat;
  li_cp : (c <= length (produced s))%nat;
  li_room : has_room (rcv_half s) c (length (consumed s));
  li_rwin : window (rcv_half s) (produced s) (length (consumed s)) c;
  li_cons : consumed s = take (length (consumed s)) (produced s);
  li_out : out_bytes (snd_half s) (produced s) a out;
  li_prefix : out `prefix_of` frames (produced s);
  li_in : in_bytes (rcv_half s) (produced s) c inb;
  li_wire : inb ++ stream s = out;
  li_len : Forall (fun p => Z.of_nat (length p) <= sb) (produced s);
}.

(** No stop was requested, nothing failed, both threads run. *)
Definition alive (s : link_st) : Prop :=
  stop_requested (snd_half s) = false /\ has_error (errs (snd_half s)) = false /\
  p_pc (snd_half s) <> SEnded /\
  stop_requested (rcv_half s) = false /\ has_error (errs (rcv_half s)) = false /\
  p_pc (rcv_half s) <> REnded.

Lemma slot_addr_eq k : slot_addr fifo (2 * Z.of_nat k) = slot k * sb.
Proof.
  unfold slot_addr, proxy_fifo, kFifoSteps. simpl.
  pose proof (Z.mod_pos_bound (2 * Z.of_nat k) 8). apply u64_small. nia.
Qed.

Lemma slot_range k : 0 <= slot k < 8.
Proof. apply Z.mod_pos_bound. lia. Qed.

Lemma slot_ne j k : (j < k < j + 4)%nat -> slot j <> slot k.
Proof. intros Hjk. zdiv. Qed.

(** Writing one slot keeps another. *)
Lemma stored_write {PC} (h h' : half_st PC) j k p off b z :
  stored h k p -> slot j <> slot k -> 0 <= off -> off + Z.of_nat (length b) <= sb ->
  mem h' = write_mem (mem h) (slot j * sb + off) b ->
  (sizes h' = sizes h \/ sizes h' = upd (sizes h) (slot j) z) -> stored h' k p.
Proof.
  intros [Hb Hs Hf] Hne Ho Hl Hm Hz. split; [|by destruct Hz as [->| ->]; rewrite ?upd_ne|done].
  rewrite Hm, read_write_other; [done|].
  pose proof (slot_range j). pose proof (slot_range k).
  destruct (decide (slot j < slot k)); [right|left]; nia.
Qed.

Lemma stored_pc {PC} (h h' : half_st PC) k p :
  stored h k p -> mem h' = mem h -> sizes h' = sizes h -> stored h' k p.
Proof. intros [] Hm Hz. split; [by rewrite Hm|by rewrite Hz|done]. Qed.

Lemma window_pc {PC} (h h' : half_st PC) P i j :
  window h P i j -> mem h' = mem h -> sizes h' = sizes h -> window h' P i j.
Proof. intros Hw Hm Hz k Hk. destruct (Hw k Hk) as (p & ? & ?). eauto using stored_pc. Qed.

Lemma window_sub {PC} (h : half_st PC) P i j i' j' :
  window h P i j -> (i <= i')%nat -> (j' <= j)%nat -> window h P i' j'.
Proof. intros Hw ?? k Hk. apply Hw. lia. Qed.

Lemma window_snoc {PC} (h : half_st PC) P i j p :
  window h P i j -> window h (P ++ [p]) i j.
Proof.
  intros Hw k Hk. destruct (Hw k Hk) as (q & Hq & ?). exists q. split; [|done].
  by apply lookup_app_l_Some.
Qed.

Lemma out_bytes_snoc h P a out p : (a <= length P)%nat ->
  out_bytes h P a out -> out_bytes h (P ++ [p]) a out.
Proof.
  intros Ha. unfold out_bytes. destruct (p_pc h); rewrite ?take_app_le by lia; try done.
  intros (q & Hq & ?). exists q. split; [by apply lookup_app_l_Some|done].
Qed.

Lemma in_bytes_snoc h P c inb p : (c <= length P)%nat ->
  in_bytes h P c inb -> in_bytes h (P ++ [p]) c inb.
Proof.
  intros Hc. unfold in_bytes. destruct (p_pc h); rewrite ?take_app_le by lia; try done.
  intros (q & Hq & ?). exists q. split; [by apply lookup_app_l_Some|done].
Qed.

(** *** Kernel steps *)

(** The sender's kernel, on a half that holds slices [a ..] of [P]. *)
Lemma kernel_send_window {PC} (h h' : half_st PC) P a p :
  c_tail h = 2 * Z.of_nat (length P) -> c_head h = 2 * Z.of_nat a ->
  (a <= length P)%nat -> window h P a (length P) ->
  2 * Z.of_nat (length P) + 16 < 2 ^ 64 -> kernel_send fifo h p = Some h' ->
  (length P < a + 4)%nat /\ Z.of_nat (length p) <= sb /\
  window h' (P ++ [p]) a (length P + 1) /\
  exists m z, h' = Half m z (c_head h) (2 * Z.of_nat (length P + 1)) (p_step h) (p_pc h)
                (stop_requested h) (errs h).
Proof.
  intros Ht Hh Ha Hw Hfit. unfold kernel_send.
  rewrite Ht, Hh. cbn [slot_count step_increment slot_bytes proxy_fifo].
  unfold kFifoSteps, kSliceSteps. rewrite !u64_small by lia.
  destruct (Z.ltb_spec (2 * Z.of_nat a + 8) (2 * Z.of_nat (length P) + 2)), (Z.ltb_spec sb (Z.of_nat (length p)));
    simpl; try done. intros [= <-].
  assert (length P < a + 4)%nat as Hroom by lia.
  split_and!; [lia|lia| |do 2 eexists; f_equal; rewrite ?Hh; lia].
  intros k Hk. destruct (decide (k = length P)) as [->|Hne].
  - exists p. split; [by rewrite list_lookup_middle|].
    rewrite slot_addr_eq. split; simpl; [by apply read_write_same|by rewrite upd_eq|lia].
  - destruct (Hw k ltac:(lia)) as (q & Hq & Hst). exists q.
    split; [by apply lookup_app_l_Some|].
    eapply (stored_write _ _ (length P) k q 0 p); [done| |lia|lia| |by right].
    + apply not_eq_sym, slot_ne. lia.
    + simpl. by rewrite slot_addr_eq, Z.add_0_r.
Qed.

(** The receiver's kernel, on a half with slices [n .. c - 1] of [P] ready. *)
Lemma kernel_recv_window {PC} (h h' : half_st PC) P n c q :
  c_tail h = 2 * Z.of_nat c -> c_head h = 2 * Z.of_nat n -> window h P n c ->
  2 * Z.of_nat n + 16 < 2 ^ 64 -> kernel_recv fifo h = Some (q, h') ->
  (n < c)%nat /\ P !! n = Some q /\
  h' = Half (mem h) (sizes h) (2 * Z.of_nat (S n)) (c_tail h) (p_step h) (p_pc h)
         (stop_requested h) (errs h).
Proof.
  intros Ht Hh Hw Hfit. unfold kernel_recv.
  rewrite Ht, Hh. cbn [slot_count step_increment proxy_fifo].
  unfold kFifoSteps, kSliceSteps. rewrite !u64_small by lia.
  destruct (Z.ltb_spec (2 * Z.of_nat c) (2 * Z.of_nat n + 2)); simpl; [done|].
  intros [= <- <-]. destruct (Hw n ltac:(lia)) as (p & Hp & [Hb Hs Hf]).
  rewrite slot_addr_eq, Hs, Nat2Z.id, Hb. split_and!; [lia|done|f_equal; lia].
Qed.

Lemma ksend_inv s s' p a c out inb :
  link_inv s a c out inb -> 2 * Z.of_nat (length (produced s)) + 16 < 2 ^ 64 ->
  link_act fifo ident (KSend p) s = Some s' -> link_inv s' a c out inb.
Proof.
  destruct s as [sn rc st P C]. intros [] Hfit. simpl in *.
  intros (sn' & Hk & [= <-])%bind_Some.
  destruct (kernel_send_window _ _ P a p li_stail0 li_shead0 ltac:(lia) li_swin0 Hfit Hk)
    as (Hroom & Hlp & Hw & m & z & ->).
  split; simpl; rewrite ?length_app, ?take_app_le by (simpl; lia); simpl length; try done; try lia.
  - by apply window_snoc.
  - by apply out_bytes_snoc; [lia|].
  - rewrite frames_app. by apply prefix_app_r.
  - by apply in_bytes_snoc.
  - apply Forall_app. split; [done|]. by constructor.
Qed.

Lemma krecv_inv s s' a c out inb :
  link_inv s a c out inb -> 2 * Z.of_nat (length (produced s)) + 16 < 2 ^ 64 ->
  link_act fifo ident KRecv s = Some s' ->
  link_inv s' a c out inb /\
  exists p, produced s !! length (consumed s) = Some p /\ consumed s' = consumed s ++ [p].
Proof.
  destruct s as [sn rc st P C]. intros [] Hfit. simpl in *.
  intros ([p rc'] & Hk & [= <-])%bind_Some.
  destruct (kernel_recv_window _ _ P (length C) c p li_rtail0 li_rhead0 li_rwin0 ltac:(lia) Hk)
    as (Hlt & Hp & ->). split; [|eauto].
  split; simpl; rewrite ?length_app; simpl length; try done; try lia.
  - unfold has_room in *. simpl. destruct (p_pc rc); lia.
  - eapply window_sub; [eapply window_pc; [exact li_rwin0|done..]|lia|lia].
  - rewrite Nat.add_1_r, (take_S_r P _ p) by done. by rewrite <- li_cons0.
Qed.

(** *** Send proxy steps *)

(** A step of the send proxy that leaves counters and memory alone. *)
Lemma snd_pc_inv sn rc st P C a c out inb sn' st' out' :
  link_inv (Link sn rc st P C) a c out inb ->
  mem sn' = mem sn -> sizes sn' = sizes sn -> c_head sn' = c_head sn ->
  c_tail sn' = c_tail sn -> p_step sn' = p_step sn ->
  out_bytes sn' P a out' -> out' `prefix_of` frames P -> inb ++ st' = out' ->
  link_inv (Link sn' rc st' P C) a c out' inb.
Proof.
  intros [] Hm Hz Hh Ht Hs Ho Hp Hw. simpl in *.
  split; simpl; rewrite ?Hh, ?Ht, ?Hs; try done. by eapply window_pc.
Qed.

Lemma send_frame_eq h k p : p_step h = 2 * Z.of_nat k -> stored h k p ->
  send_frame fifo h (Z.of_nat (length p)) = frame p.
Proof.
  intros Hs [Hb _ Hf]. unfold send_frame, send_slot, frame, slice_header.
  rewrite Hs, slot_addr_eq, Nat2Z.id, Hb, u32_small by lia. done.
Qed.

Lemma prefix_frame P a p pos : P !! a = Some p ->
  (frames (take a P) ++ take pos (frame p)) `prefix_of` frames P.
Proof.
  intros Hp. rewrite (frames_split P a). apply prefix_app.
  rewrite (drop_S P p a), frames_cons by done. apply prefix_app_r. exists (drop pos (frame p)). by rewrite take_drop.
Qed.

Lemma sturn_inv s s' a c out inb :
  link_inv s a c out inb -> link_act fifo ident STurn s = Some s' ->
  link_inv s' a c out inb /\ (alive s -> alive s').
Proof.
  destruct s as [sn rc st P C]. intros Hinv. pose proof Hinv as []. simpl in *.
  destruct (p_pc sn) eqn:Epc; [|done..]. intros [= <-].
  unfold out_bytes in li_out0. rewrite Epc in li_out0. unfold send_turn.
  unfold alive at 1. simpl.
  destruct (stop_requested sn) eqn:Es; simpl; [by split; [eapply snd_pc_inv|intros []]|].
  destruct (has_error (errs sn)) eqn:Ee; [by split; [eapply snd_pc_inv|intros (_ & ? & _)]|].
  rewrite li_stail0, li_sstep0.
  destruct (Z.leb_spec (2 * Z.of_nat (length P)) (2 * Z.of_nat a)) as [|Hlt].
  { split; [done|]. unfold alive. simpl. intuition congruence. }
  cbn [slot_count slot_bytes proxy_fifo]. unfold kFifoSteps.
  destruct (li_swin0 a ltac:(lia)) as (p & Hp & Hst). rewrite (st_size _ _ _ Hst).
  pose proof (st_fits _ _ _ Hst). rewrite (proj2 (Z.ltb_ge _ _)) by lia.
  split; [|unfold alive; simpl; intuition congruence].
  eapply snd_pc_inv; [exact Hinv|done..| |done|done].
  unfold out_bytes. simpl. exists p. rewrite app_nil_r. split_and!; [done..|lia|done].
Qed.

Lemma smove_inv s s' n a c out inb :
  link_inv s a c out inb -> link_act fifo ident (SMove n) s = Some s' ->
  exists out', link_inv s' a c out' inb.
Proof.
  destruct s as [sn rc st P C]. intros Hinv. pose proof Hinv as []. simpl in *.
  destruct (p_pc sn) as [|size pos|] eqn:Epc; try done.
  unfold out_bytes in li_out0. rewrite Epc in li_out0. destruct li_out0 as (p & Hp & -> & Hpos & ->).
  pose proof (lookup_lt_Some _ _ _ Hp). destruct (li_swin0 a ltac:(lia)) as (q & Hq & Hst).
  assert (q = p) as -> by congruence. rewrite (send_frame_eq sn a p) by done.
  case_decide; [done|]. intros [= <-].
  set (r := drop pos (frame p)) in *.
  assert (take (pos + n `min` length r) (frame p) = take pos (frame p) ++ take n r) as Ht.
  { rewrite <- (take_drop pos (take _ (frame p))), take_take, Nat.min_l by lia. f_equal.
    rewrite skipn_firstn_comm. fold r. replace (pos + n `min` length r - pos)%nat
      with (n `min` length r)%nat by lia. by rewrite <- take_take, (firstn_all r). }
  exists (frames (take a P) ++ take (pos + n `min` length r) (frame p)).
  eapply snd_pc_inv; [exact Hinv|done..| | |].
  - unfold out_bytes. cbn [set_pc p_pc]. exists p. split_and!; [done..| |done].
    unfold r. rewrite length_drop. lia.
  - by apply prefix_frame.
  - by rewrite Ht, app_assoc, li_wire0, app_assoc.
Qed.

Lemma sdone_inv s s' a c out inb :
  link_inv s a c out inb -> 2 * Z.of_nat (length (produced s)) + 16 < 2 ^ 64 ->
  link_act fifo ident SDone s = Some s' -> link_inv s' (S a) c out inb.
Proof.
  destruct s as [sn rc st P C]. intros [] Hfit. simpl in *.
  destruct (p_pc sn) as [|size pos|] eqn:Epc; try done.
  unfold out_bytes in li_out0. rewrite Epc in li_out0. destruct li_out0 as (p & Hp & -> & Hpos & Hout).
  pose proof (lookup_lt_Some _ _ _ Hp). destruct (li_swin0 a ltac:(lia)) as (q & Hq & Hst).
  assert (q = p) as -> by congruence. rewrite (send_frame_eq sn a p) by done.
  case_decide as Hd; [|done]. intros [= <-].
  split; simpl; rewrite ?li_sstep0; unfold kSliceSteps; rewrite ?u64_small by lia; try done; try lia.
  - eapply window_sub; [eapply window_pc; [exact li_swin0|done..]|lia|lia].
  - unfold out_bytes. simpl. rewrite (frames_take_S P a p) by done. rewrite Hout. f_equal.
    by rewrite <- (take_drop pos (frame p)) at 2; rewrite Hd, app_nil_r.
Qed.

Lemma send_end_inv s sn' a c out inb :
  link_inv s a c out inb ->
  mem sn' = mem (snd_half s) -> sizes sn' = sizes (snd_half s) ->
  c_head sn' = c_head (snd_half s) -> c_tail sn' = c_tail (snd_half s) ->
  p_step sn' = p_step (snd_half s) -> (p_pc sn' = p_pc (snd_half s) \/ p_pc sn' = SEnded) ->
  link_inv (Link sn' (rcv_half s) (stream s) (produced s) (consumed s)) a c out inb.
Proof.
  destruct s as [sn rc st P C]. intros Hinv. pose proof Hinv as []. simpl in *.
  intros ????? Hpc. eapply snd_pc_inv; [exact Hinv|done..| |done|done].
  unfold out_bytes in *. destruct Hpc as [-> | ->]; done.
Qed.

(** *** Receive proxy steps *)

Lemma rcv_pc_inv sn rc st P C a c out inb rc' st' inb' :
  link_inv (Link sn rc st P C) a c out inb ->
  mem rc' = mem rc -> sizes rc' = sizes rc -> c_head rc' = c_head rc ->
  c_tail rc' = c_tail rc -> p_step rc' = p_step rc ->
  has_room rc' c (length C) -> in_bytes rc' P c inb' -> inb' ++ st' = out ->
  link_inv (Link sn rc' st' P C) a c out inb'.
Proof.
  intros [] Hm Hz Hh Ht Hs Hr Hi Hw. simpl in *.
  split; simpl; rewrite ?Hh, ?Ht, ?Hs; try done. by eapply window_pc.
Qed.

(** What is read next are the bytes of the next slice. *)
Lemma next_header P c x : x `prefix_of` frames (drop c P) -> length x = 4%nat ->
  exists p, P !! c = Some p /\ x = slice_header p.
Proof.
  intros Hx Hl. destruct (drop c P) as [|p l] eqn:Ed.
  { apply prefix_nil_inv in Hx as ->. done. }
  exists p. split.
  - rewrite <- (Nat.add_0_r c), <- lookup_drop, Ed. done.
  - rewrite frames_cons in Hx. unfold frame in Hx. rewrite <- app_assoc in Hx.
    destruct Hx as [k Hk]. apply (f_equal (take 4)) in Hk.
    rewrite !take_app_length' in Hk by done. done.
Qed.

Lemma next_payload P c p got x : P !! c = Some p ->
  (slice_header p ++ take got p ++ x) `prefix_of` frames (drop c P) ->
  (got + length x <= length p)%nat -> take got p ++ x = take (got + length x) p.
Proof.
  intros Hp Hx Hl. rewrite (drop_S P p c), frames_cons in Hx by done.
  unfold frame in Hx. rewrite <- app_assoc in Hx. apply prefix_app_inv in Hx.
  destruct Hx as [k Hk]. apply (f_equal (take (got + length x))) in Hk.
  rewrite take_app_le in Hk by lia. rewrite Hk, take_app_length'; [done|].
  rewrite length_app, length_take. lia.
Qed.

Lemma inb_prefix P c x out st :
  (frames (take c P) ++ x) ++ st = out -> out `prefix_of` frames P ->
  x `prefix_of` frames (drop c P).
Proof.
  intros <- Hp. rewrite (frames_split P c), <- app_assoc in Hp. apply prefix_app_inv in Hp.
  etrans; [|exact Hp]. by exists st.
Qed.

Lemma rturn_inv s s' a c out inb :
  link_inv s a c out inb -> 2 * Z.of_nat (length (produced s)) + 16 < 2 ^ 64 ->
  link_act fifo ident RTurn s = Some s' ->
  link_inv s' a c out inb /\ (alive s -> alive s').
Proof.
  destruct s as [sn rc st P C]. intros Hinv Hfit. pose proof Hinv as []. simpl in *.
  destruct (p_pc rc) eqn:Epc; [|done..]. intros [= <-].
  unfold in_bytes in li_in0. rewrite Epc in li_in0. unfold recv_turn.
  unfold alive at 1. simpl.
  destruct (stop_requested rc) eqn:Es; simpl; [by split; [eapply rcv_pc_inv|intros (_ & _ & _ & ? & _)]|].
  destruct (has_error (errs rc)) eqn:Ee;
    [by split; [eapply rcv_pc_inv|intros (_ & _ & _ & _ & ? & _)]|].
  rewrite li_rhead0, li_rstep0. cbn [slot_count step_increment proxy_fifo].
  unfold kFifoSteps, kSliceSteps. rewrite !u64_small by lia.
  destruct (Z.ltb_spec (2 * Z.of_nat (length C) + 8) (2 * Z.of_nat c + 2)).
  { split; [done|]. unfold alive. simpl. intuition congruence. }
  split; [|unfold alive; simpl; intuition congruence].
  eapply rcv_pc_inv; [exact Hinv|done..| | |done].
  - unfold has_room. simpl. lia.
  - unfold in_bytes. simpl. rewrite app_nil_r. split; [lia|done].
Qed.

Lemma rmove_inv s s' n a c out inb :
  link_inv s a c out inb -> link_act fifo ident (RMove n) s = Some s' ->
  exists inb', link_inv s' a c out inb'.
Proof.
  destruct s as [sn rc st P C]. intros Hinv. pose proof Hinv as []. simpl in *.
  unfold in_bytes in li_in0. unfold has_room in li_room0.
  destruct (p_pc rc) as [|got|size got|] eqn:Epc; try done; case_decide as Hk; try done;
    intros [= <-].
  - set (k := (n `min` ((4 - length got) `min` length st))%nat) in *.
    exists (inb ++ take k st).
    eapply rcv_pc_inv; [exact Hinv|done..| | |by rewrite <- app_assoc, take_drop].
    + unfold has_room. simpl. lia.
    + destruct li_in0 as [Hg ->]. unfold in_bytes. simpl. rewrite length_app, length_take, <- app_assoc.
      split; [lia|done].
  - destruct li_in0 as (p & Hp & -> & Hg & Hf & Hr & ->). rewrite Nat2Z.id in *.
    set (k := (n `min` ((length p - got) `min` length st))%nat) in *.
    assert (length (take k st) = k) as Hlk by (rewrite length_take; lia).
    assert (take got p ++ take k st = take (got + k) p) as Ht.
    { rewrite <- Hlk at 2. apply (next_payload P c p got); [done| |lia].
      apply (inb_prefix P c _ out (drop k st)); [|done].
      rewrite <- li_wire0, <- !app_assoc, take_drop. done. }
    exists (frames (take c P) ++ slice_header p ++ take (got + k) p).
    unfold recv_store, recv_slot. rewrite li_rstep0, slot_addr_eq.
    split; cbn [snd_half rcv_half stream produced consumed c_head c_tail p_step]; try done.
    + intros j Hj. destruct (li_rwin0 j Hj) as (q & Hq & Hst). exists q. split; [done|].
      eapply (stored_write _ _ c j q (Z.of_nat got) (take k st) 0); [done| |lia|lia|done|by left].
      apply not_eq_sym, slot_ne. lia.
    + exists p. split_and!; try done; [lia|]. cbn [mem].
      rewrite read_mem_app, read_write_same, read_write_other, Hr by lia. done.
    + by rewrite <- Ht, <- li_wire0, <- !app_assoc, take_drop.
Qed.

Lemma rdone_inv s s' a c out inb :
  link_inv s a c out inb -> 2 * Z.of_nat (length (produced s)) + 16 < 2 ^ 64 ->
  link_act fifo ident RDone s = Some s' ->
  (exists c', link_inv s' a c' out inb) /\ (alive s -> alive s').
Proof.
  destruct s as [sn rc st P C]. intros Hinv Hfit. pose proof Hinv as []. simpl in *.
  unfold in_bytes in li_in0. unfold has_room in li_room0.
  destruct (p_pc rc) as [|got|size got|] eqn:Epc; try done; case_decide as Hd; try done;
    intros [= <-].
  - destruct li_in0 as [_ ->].
    destruct (next_header P c got) as (p & Hp & ->); [by eapply inb_prefix|done|].
    assert (Z.of_nat (length p) <= sb) as Hl by exact (proj1 (Forall_lookup _ _) li_len0 _ _ Hp).
    assert (htonl (load32 (slice_header p)) = Z.of_nat (length p)) as Hh.
    { unfold slice_header. by rewrite u32_small, ntohl_of_wire by lia. }
    unfold recv_header. rewrite Hh. cbn [slot_bytes proxy_fifo].
    rewrite (proj2 (Z.ltb_ge _ _)) by lia.
    split; [exists c|unfold alive; simpl; intuition congruence].
    eapply rcv_pc_inv; [exact Hinv|done..| | |exact li_wire0].
    + unfold has_room. cbn [set_pc p_pc]. lia.
    + unfold in_bytes. cbn [set_pc p_pc]. exists p. rewrite take_0, app_nil_r.
      split_and!; try done. lia.
  - split; [exists (S c)|unfold alive; simpl; intuition congruence].
    destruct li_in0 as (p & Hp & -> & Hg & Hf & Hr & ->). rewrite Nat2Z.id in *.
    subst got. rewrite firstn_all in *. pose proof (lookup_lt_Some _ _ _ Hp).
    split; simpl; rewrite ?li_rstep0; unfold kSliceSteps, kFifoSteps; rewrite ?u64_small by lia;
      try done; try lia.
    + intros j Hj. destruct (decide (j = c)) as [->|Hne].
      * exists p. split; [done|]. split; simpl; [done| |done]. by rewrite li_rstep0, upd_eq.
      * destruct (li_rwin0 j ltac:(lia)) as (q & Hq & [Hb Hs Hq']). exists q. split; [done|].
        split; simpl; [done| |done]. rewrite li_rstep0, upd_ne; [done|]. apply slot_ne. lia.
    + unfold in_bytes. simpl. by rewrite (frames_take_S P c p).
Qed.

Lemma recv_end_inv s rc' a c out inb :
  link_inv s a c out inb ->
  mem rc' = mem (rcv_half s) -> sizes rc' = sizes (rcv_half s) ->
  c_head rc' = c_head (rcv_half s) -> c_tail rc' = c_tail (rcv_half s) ->
  p_step rc' = p_step (rcv_half s) -> (p_pc rc' = p_pc (rcv_half s) \/ p_pc rc' = REnded) ->
  link_inv (Link (snd_half s) rc' (stream s) (produced s) (consumed s)) a c out inb.
Proof.
  destruct s as [sn rc st P C]. intros Hinv. pose proof Hinv as []. simpl in *.
  intros Hm ???? Hpc. eapply rcv_pc_inv; [exact Hinv|done..| | |done].
  - unfold has_room in *. destruct Hpc as [-> | ->]; done.
  - unfold in_bytes in *. rewrite Hm. destruct Hpc as [-> | ->]; done.
Qed.

(** *** Every step *)

Definition fits (s : link_st) : Prop := 2 * Z.of_nat (length (produced s)) + 16 < 2 ^ 64.
Definition inv (s : link_st) : Prop := exists a c out inb, link_inv s a c out inb.

(** Steps that are not failures or stops. *)
Definition quiet (a : act) : Prop :=
  match a with SFail _ | RFail _ | SHalt _ | RHalt _ => False | _ => True end.

Lemma act_inv a s s' : inv s -> fits s -> link_act fifo ident a s = Some s' ->
  inv s' /\ (quiet a -> alive s -> alive s').
Proof.
  intros (na & nc & out & inb & Hi) Hf Ha.
  destruct a as [p| | |n| |what| |n| |what|report|report].
  - split; [exists na, nc, out, inb; by eapply ksend_inv|]. intros _.
    destruct s. simpl in Ha. unfold kernel_send in Ha. destruct (_ || _); [done|].
    injection Ha as <-. done.
  - split; [exists na, nc, out, inb; by eapply krecv_inv|]. intros _.
    destruct s. simpl in Ha. unfold kernel_recv in Ha. destruct (_ <? _); [done|].
    injection Ha as <-. done.
  - destruct (sturn_inv _ _ _ _ _ _ Hi Ha). split; [by exists na, nc, out, inb|done].
  - destruct (smove_inv _ _ _ _ _ _ _ Hi Ha) as [out' ?]. split; [by exists na, nc, out', inb|].
    intros _. destruct s as [sn rc]. simpl in Ha. destruct (p_pc sn) eqn:E; try done.
    case_decide; [done|]. injection Ha as <-. unfold alive. simpl. intuition congruence.
  - split; [exists (S na), nc, out, inb; by eapply sdone_inv|].
    intros _. destruct s as [sn rc]. simpl in Ha. destruct (p_pc sn) eqn:E; try done.
    case_decide; [|done]. injection Ha as <-. unfold alive. simpl. intuition congruence.
  - split; [|done]. destruct s as [sn rc st P C]. simpl in Ha.
    destruct (p_pc sn); try done. injection Ha as <-. exists na, nc, out, inb.
    apply (send_end_inv (Link sn rc st P C)); auto.
  - destruct (rturn_inv _ _ _ _ _ _ Hi Hf Ha). split; [by exists na, nc, out, inb|done].
  - destruct (rmove_inv _ _ _ _ _ _ _ Hi Ha) as [inb' ?]. split; [by exists na, nc, out, inb'|].
    intros _. destruct s as [sn rc]. simpl in Ha.
    destruct (p_pc rc) eqn:E; try done; case_decide; try done; injection Ha as <-;
      unfold alive; simpl; intuition congruence.
  - destruct (rdone_inv _ _ _ _ _ _ Hi Hf Ha) as [[c' ?] ?].
    split; [by exists na, c', out, inb|done].
  - split; [|done]. destruct s as [sn rc st P C]. simpl in Ha.
    destruct (p_pc rc); try done; injection Ha as <-; exists na, nc, out, inb;
      apply (recv_end_inv (Link sn rc st P C)); auto.
  - split; [|done]. destruct s as [sn rc st P C]. injection Ha as <-. exists na, nc, out, inb.
    apply (send_end_inv (Link sn rc st P C)); try done; unfold halt; destruct (stop_requested sn); auto.
  - split; [|done]. destruct s as [sn rc st P C]. injection Ha as <-. exists na, nc, out, inb.
    apply (recv_end_inv (Link sn rc st P C)); try done; unfold halt; destruct (stop_requested rc); auto.
Qed.

(** Slices only ever enter the record. *)
Lemma act_produced a s s' : link_act fifo ident a s = Some s' ->
  (produced s' = produced s \/ exists p, a = KSend p /\ produced s' = produced s ++ [p]) /\
  (a <> KRecv -> consumed s' = consumed s).
Proof.
  destruct s as [sn rc st P C], a; simpl; intros Ha.
  1: destruct (kernel_send _ _ _); simpl in Ha; [|done].
  2: destruct (kernel_recv _ _) as [[? ?]|]; simpl in Ha; [|done].
  3-10: destruct (p_pc _); try done; try (case_decide; try done).
  all: injection Ha as <-; simpl; split; eauto; done.
Qed.

Lemma link_inv_init m1 z1 m2 z2 : inv (link_init m1 z1 m2 z2).
Proof.
  exists 0%nat, 0%nat, [], []. split; simpl; try done; try lia; intros k Hk; lia.
Qed.

Lemma steps_inv m1 z1 m2 z2 s :
  steps (link_step fifo ident) (link_init m1 z1 m2 z2) s -> fits s -> inv s.
Proof.
  intros Hst. remember (link_init m1 z1 m2 z2) as s0 eqn:E0.
  induction Hst as [|s1 s2 s3 _ IH Hs]; intros Hf; [subst; apply link_inv_init|].
  destruct Hs as [a s2 s3 Ha].
  assert (fits s2) as Hf2.
  { unfold fits in *. destruct (act_produced _ _ _ Ha) as [[E|(p & _ & E)] _]; rewrite E in Hf;
      rewrite ?length_app in Hf; lia. }
  by eapply act_inv; eauto.
Qed.

(** *** Progress *)

(** Work left: slices to consume, bytes to send, bytes to receive, each with
    the turns around them. *)
Definition sum_with (w : Z) (l : list bytes) : Z :=
  foldr (fun p acc => Z.of_nat (length p) + w + acc) 0 l.

Definition send_work (pc : send_pc) : Z :=
  match pc with SSending _ pos => - (1 + Z.of_nat pos) | _ => 0 end.
Definition recv_work (pc : recv_pc) : Z :=
  match pc with
  | RHeader got => 9 - Z.of_nat (length got)
  | RPayload _ got => 4 - Z.of_nat got
  | _ => 10
  end.

Definition work (s : link_st) (a c : nat) : Z :=
  Z.of_nat (length (produced s)) - Z.of_nat (length (consumed s)) +
  (sum_with 6 (drop a (produced s)) + send_work (p_pc (snd_half s))) +
  (sum_with 20 (drop c (produced s)) + recv_work (p_pc (rcv_half s))).

Lemma sum_with_drop w (P : list bytes) k p : P !! k = Some p ->
  sum_with w (drop k P) = Z.of_nat (length p) + w + sum_with w (drop (S k) P).
Proof. intros Hp. by rewrite (drop_S P p k). Qed.

Lemma sum_with_nonneg w l : 0 <= w -> 0 <= sum_with w l.
Proof. intros Hw. induction l; simpl; lia. Qed.

Lemma length_frame p : length (frame p) = (4 + length p)%nat.
Proof. done. Qed.

Lemma work_nonneg s a c out inb : link_inv s a c out inb -> 0 <= work s a c.
Proof.
  intros []. unfold work.
  assert (length (consumed s) <= length (produced s))%nat as Hcp by lia.
  assert (0 <= sum_with 6 (drop a (produced s)) + send_work (p_pc (snd_half s))).
  { unfold out_bytes in li_out0. pose proof (sum_with_nonneg 6 (drop a (produced s))).
    destruct (p_pc (snd_half s)) as [|size pos|]; simpl; try lia.
    destruct li_out0 as (p & Hp & _ & Hpos & _). rewrite length_frame in Hpos.
    rewrite (sum_with_drop 6 _ _ _ Hp).
    pose proof (sum_with_nonneg 6 (drop (S a) (produced s))). lia. }
  assert (0 <= sum_with 20 (drop c (produced s)) + recv_work (p_pc (rcv_half s))); [|lia].
  unfold in_bytes in li_in0. pose proof (sum_with_nonneg 20 (drop c (produced s))).
  destruct (p_pc (rcv_half s)) as [|got|size got|]; simpl; try lia.
  destruct li_in0 as (p & Hp & _ & Hg & _). rewrite (sum_with_drop 20 _ _ _ Hp).
  pose proof (sum_with_nonneg 20 (drop (S c) (produced s))). lia.
Qed.

Definition advance (s : link_st) (a c : nat) : Prop :=
  exists t s' a' c' out inb, quiet t /\ (forall p, t <> KSend p) /\
    link_act fifo ident t s = Some s' /\ link_inv s' a' c' out inb /\ work s' a' c' < work s a c.

(** The send proxy can always move when it has something to send. *)
Lemma send_advance s a c out inb : link_inv s a c out inb -> fits s -> alive s ->
  (p_pc (snd_half s) = SIdle -> (a < length (produced s))%nat) -> advance s a c.
Proof.
  intros Hi Hf Hal Hmore. destruct s as [sn rc st P C]. pose proof Hi as []. simpl in *.
  destruct Hal as (Hs & He & Hne & _). simpl in *.
  destruct (p_pc sn) as [|size pos|] eqn:Epc; [| |done].
  - specialize (Hmore eq_refl). destruct (li_swin0 a ltac:(lia)) as (p & Hp & Hst).
    assert (link_act fifo ident STurn (Link sn rc st P C) =
      Some (Link (set_pc sn (SSending (Z.of_nat (length p)) 0)) rc st P C)) as Ha.
    { simpl. rewrite Epc. unfold send_turn. rewrite Hs, He, li_stail0, li_sstep0. simpl.
      rewrite (proj2 (Z.leb_gt _ _)) by lia. unfold kFifoSteps. rewrite (st_size _ _ _ Hst).
      pose proof (st_fits _ _ _ Hst). by rewrite (proj2 (Z.ltb_ge _ _)) by lia. }
    exists STurn, (Link (set_pc sn (SSending (Z.of_nat (length p)) 0)) rc st P C), a, c, out, inb.
    split_and!; [done|done|exact Ha|by eapply sturn_inv|]. unfold work. simpl. rewrite Epc. simpl. lia.
  - unfold out_bytes in li_out0. rewrite Epc in li_out0. destruct li_out0 as (p & Hp & -> & Hpos & Hout).
    pose proof (lookup_lt_Some _ _ _ Hp). destruct (li_swin0 a ltac:(lia)) as (q & Hq & Hst).
    assert (q = p) as -> by congruence.
    destruct (decide (drop pos (frame p) = [])) as [Hd|Hd].
    + assert (link_act fifo ident SDone (Link sn rc st P C) =
        Some (Link (send_done fifo sn) rc st P C)) as Ha.
      { simpl. by rewrite Epc, (send_frame_eq sn a p), decide_True. }
      exists SDone, (Link (send_done fifo sn) rc st P C), (S a), c, out, inb.
      split_and!; [done|done|exact Ha|by eapply sdone_inv|]. unfold work. simpl. rewrite Epc.
      rewrite (sum_with_drop 6 _ _ _ Hp). apply (f_equal length) in Hd.
      rewrite length_drop, length_frame in *. simpl in *. lia.
    + assert (link_act fifo ident (SMove 1) (Link sn rc st P C) = Some (Link (set_pc sn
        (SSending (Z.of_nat (length p)) (pos + 1 `min` length (drop pos (frame p))))) rc
        (st ++ take 1 (drop pos (frame p))) P C)) as Ha.
      { simpl. rewrite Epc, (send_frame_eq sn a p), decide_False by (done || by intros []). done. }
      destruct (smove_inv _ _ _ _ _ _ _ Hi Ha) as [out' Hi'].
      eexists (SMove 1), _, a, c, out', inb. split_and!; [done|done|exact Ha|exact Hi'|].
      unfold work. cbn [produced consumed snd_half rcv_half set_pc p_pc send_work]. rewrite Epc.
      cbn [send_work].
      assert (0 < length (drop pos (frame p)))%nat by (destruct (drop pos (frame p)); [done|simpl; lia]).
      lia.
Qed.

(** With an empty stream and a slice still to receive, the sender is not
    through. *)
Lemma sender_behind sn rc P C a c out inb x :
  link_inv (Link sn rc [] P C) a c out inb -> inb = frames (take c P) ++ x ->
  (exists p, P !! c = Some p /\ length x < length (frame p))%nat ->
  p_pc sn = SIdle -> (a < length P)%nat.
Proof.
  intros [] -> (p & Hp & Hx) Epc. simpl in *. destruct (decide (a = length P)) as [->|]; [|lia].
  exfalso. unfold out_bytes in li_out0. rewrite Epc, firstn_all in li_out0. subst out.
  rewrite app_nil_r, (frames_split P c) in li_wire0. apply app_inv_head in li_wire0. subst x.
  rewrite (drop_S P p c), frames_cons, length_app, length_frame in Hx by done. lia.
Qed.

Lemma recv_advance s a c out inb : link_inv s a c out inb -> fits s -> alive s ->
  length (consumed s) = c -> (c < length (produced s))%nat -> advance s a c.
Proof.
  intros Hi Hf Hal Hc Hlt. destruct s as [sn rc st P C]. pose proof Hi as []. simpl in *.
  pose proof Hal as (_ & _ & _ & Hs & He & Hne). simpl in *.
  destruct (lookup_lt_is_Some_2 P c Hlt) as [p Hp].
  unfold in_bytes in li_in0. unfold has_room in li_room0.
  destruct (p_pc rc) as [|got|size got|] eqn:Epc; [| | |done].
  - assert (link_act fifo ident RTurn (Link sn rc st P C) =
      Some (Link sn (set_pc rc (RHeader [])) st P C)) as Ha.
    { simpl. rewrite Epc. unfold recv_turn. rewrite Hs, He, li_rhead0, li_rstep0. simpl.
      unfold fits in Hf. simpl in Hf. unfold kFifoSteps, kSliceSteps. rewrite !u64_small by lia.
      by rewrite (proj2 (Z.ltb_ge _ _)) by lia. }
    eexists RTurn, _, a, c, out, inb.
    split_and!; [done|done|exact Ha|by eapply rturn_inv|]. unfold work. simpl. rewrite Epc. simpl. lia.
  - destruct li_in0 as [Hg ->]. destruct (decide (length got = 4%nat)) as [Hl|Hl].
    + destruct (next_header P c got) as (q & Hq & ->); [by eapply inb_prefix|done|].
      assert (q = p) as -> by congruence.
      assert (Z.of_nat (length p) <= sb) as Hlp by exact (proj1 (Forall_lookup _ _) li_len0 _ _ Hp).
      assert (link_act fifo ident RDone (Link sn rc st P C) =
        Some (Link sn (set_pc rc (RPayload (Z.of_nat (length p)) 0)) st P C)) as Ha.
      { cbn [link_act]. rewrite Epc, decide_True by done. unfold recv_header, slice_header.
        rewrite u32_small, ntohl_of_wire by lia. cbn [slot_bytes proxy_fifo].
        by rewrite (proj2 (Z.ltb_ge _ _)) by lia. }
      destruct (rdone_inv _ _ _ _ _ _ Hi Hf Ha) as [[c' Hi'] _].
      assert (c' = c) as ->.
      { pose proof (li_rtail _ _ _ _ _ Hi') as E. simpl in E. lia. }
      eexists RDone, _, a, c, out, _. split_and!; [done|done|exact Ha|exact Hi'|].
      unfold work. simpl. rewrite Epc. simpl. lia.
    + destruct st as [|x st].
      { eapply send_advance; [exact Hi|done..|]. intros Es.
        eapply sender_behind; [exact Hi|done| |exact Es]. exists p. rewrite length_frame. split; [done|lia]. }
      set (k := (4 `min` ((4 - length got) `min` length (x :: st)))%nat).
      assert (0 < k <= 4 - length got /\ k <= length (x :: st))%nat as Hk by (unfold k; simpl length; lia).
      assert (link_act fifo ident (RMove 4) (Link sn rc (x :: st) P C) =
        Some (Link sn (set_pc rc (RHeader (got ++ take k (x :: st)))) (drop k (x :: st)) P C)) as Ha.
      { cbn [link_act]. rewrite Epc. fold k. by rewrite decide_False by lia. }
      destruct (rmove_inv _ _ _ _ _ _ _ Hi Ha) as [inb' Hi'].
      eexists (RMove 4), _, a, c, out, inb'. split_and!; [done|done|exact Ha|exact Hi'|].
      unfold work. cbn [produced consumed snd_half rcv_half set_pc p_pc]. rewrite Epc.
      cbn [recv_work]. rewrite length_app, length_take. lia.
  - destruct li_in0 as (q & Hq & -> & Hg & Hfit & Hr & Hinb). assert (q = p) as -> by congruence.
    destruct (decide (got = length p)) as [->|Hl].
    + assert (link_act fifo ident RDone (Link sn rc st P C) =
        Some (Link sn (recv_done fifo rc (Z.of_nat (length p))) st P C)) as Ha.
      { simpl. by rewrite Epc, Nat2Z.id, decide_True. }
      destruct (rdone_inv _ _ _ _ _ _ Hi Hf Ha) as [[c' Hi'] _].
      assert (c' = S c) as ->.
      { pose proof (li_rtail _ _ _ _ _ Hi') as E. simpl in E. rewrite li_rstep0 in E.
        unfold fits in Hf. simpl in Hf. unfold kSliceSteps in E. rewrite u64_small in E by lia. lia. }
      eexists RDone, _, a, (S c), out, _. split_and!; [done|done|exact Ha|exact Hi'|].
      unfold work. simpl. rewrite Epc, (sum_with_drop 20 _ _ _ Hp). simpl. lia.
    + destruct st as [|x st].
      { eapply send_advance; [exact Hi|done..|]. intros Es.
        eapply sender_behind; [exact Hi|exact Hinb| |exact Es]. exists p. rewrite length_frame.
        split; [done|]. rewrite length_app, length_take. simpl. lia. }
      set (k := (1 `min` ((length p - got) `min` length (x :: st)))%nat).
      assert (0 < k <= length p - got)%nat as Hk by (unfold k; simpl length; lia).
      assert (exists rc', link_act fifo ident (RMove 1) (Link sn rc (x :: st) P C) =
        Some (Link sn rc' (drop k (x :: st)) P C) /\
        p_pc rc' = RPayload (Z.of_nat (length p)) (got + k)) as (rc' & Ha & Epc').
      { cbn [link_act]. rewrite Epc, Nat2Z.id. fold k. rewrite decide_False by lia. eauto. }
      destruct (rmove_inv _ _ _ _ _ _ _ Hi Ha) as [inb' Hi'].
      eexists (RMove 1), _, a, c, out, inb'. split_and!; [done|done|exact Ha|exact Hi'|].
      unfold work. cbn [produced consumed snd_half rcv_half]. rewrite Epc, Epc'. cbn [recv_work]. lia.
Qed.

Lemma link_advance s a c out inb : link_inv s a c out inb -> fits s -> alive s ->
  (consumed s = produced s /\ a = length (produced s)) \/ advance s a c.
Proof.
  intros Hi Hf Hal. destruct (decide (length (consumed s) < c)%nat) as [Hlt|Hge].
  - right. pose proof Hi as []. destruct s as [sn rc st P C]. simpl in *.
    assert (exists p rc', link_act fifo ident KRecv (Link sn rc st P C) =
      Some (Link sn rc' st P (C ++ [p])) /\ p_pc rc' = p_pc rc) as (p & rc' & Ha & Epc).
    { simpl. unfold kernel_recv. rewrite li_rtail0, li_rhead0. simpl. unfold kSliceSteps.
      unfold fits in Hf. simpl in Hf. rewrite u64_small by lia.
      rewrite (proj2 (Z.ltb_ge _ _)) by lia. simpl. eauto. }
    destruct (krecv_inv _ _ _ _ _ _ Hi Hf Ha) as [Hi' _].
    eexists KRecv, _, a, c, out, inb. split_and!; [done|done|exact Ha|exact Hi'|].
    unfold work. simpl. rewrite Epc, length_app. simpl. lia.
  - pose proof Hi as []. destruct (decide (c < length (produced s))%nat).
    + right. eapply recv_advance; [exact Hi|done..|lia|done].
    + destruct (decide (a = length (produced s))).
      * left. split; [|done]. rewrite li_cons0. apply take_ge. lia.
      * right. eapply send_advance; [exact Hi|done..|lia].
Qed.
End LinkInv.

(** ** The theorems *)

(** Slices handed over and not yet taken. *)
Definition in_flight (s : link_st) : list bytes := drop (length (consumed s)) (produced s).

Section LinkTheorems.
Context (sb : Z) (Hsb : 0 < sb < 2 ^ 32) (ident : SocketProxyIdentity).
Context (m1 z1 m2 z2 : Z -> Z).

Abbreviation lstep := (link_step (proxy_fifo sb) ident).
Abbreviation lstart := (link_init m1 z1 m2 z2).

(** C15: The two proxies and the TCP stream refine a queue of slices: in every
    reachable state, whatever the interleaving and the cuts of the stream,
    and also after failures and stops, a step of the sender's kernel appends
    its slice, a step of the receiver's kernel takes exactly the oldest slice,
    byte for byte, and every other step leaves the queue as it is. *)
Theorem socket_link_queue s s' a :
  steps lstep lstart s -> 2 * Z.of_nat (length (produced s)) + 16 < 2 ^ 64 ->
  link_act (proxy_fifo sb) ident a s = Some s' ->
  match a with
  | KSend p => in_flight s' = in_flight s ++ [p] /\ consumed s' = consumed s
  | KRecv => exists p, in_flight s = p :: in_flight s' /\ consumed s' = consumed s ++ [p]
  | _ => in_flight s' = in_flight s /\ consumed s' = consumed s
  end.
Proof.
  intros Hst Hf Ha. destruct (steps_inv sb Hsb ident _ _ _ _ _ Hst Hf) as (na & c & out & inb & Hi).
  destruct (act_produced _ _ _ _ _ Ha) as [Hp Hc]. pose proof (li_c _ _ _ _ _ _ Hi).
  pose proof (li_cp _ _ _ _ _ _ Hi). unfold in_flight. destruct a.
  1: { rewrite Hc by done. destruct Hp as [Hp|(q & [= ->] & ->)].
       - exfalso. destruct s as [sn rc st P C]. simpl in Ha.
         destruct (kernel_send _ _ _); [|done]. injection Ha as <-. simpl in Hp.
         apply (f_equal length) in Hp. rewrite length_app in Hp. simpl in Hp. lia.
       - by rewrite drop_app_le by lia. }
  1: { destruct Hp as [->|(? & ? & _)]; [|done].
       destruct (krecv_inv sb Hsb ident _ _ _ _ _ _ Hi Hf Ha) as [_ (q & Hq & ->)]. exists q.
       split; [|done]. rewrite length_app, Nat.add_1_r. by apply drop_S. }
  all: destruct Hp as [->|(? & ? & _)]; [|done]; by rewrite Hc.
Qed.

(** C16: The socket path cannot get stuck: from every reachable state in which
    nothing failed and no stop was requested, the proxies and the receiver's
    kernel can go on until every slice handed over has been taken, in order,
    and both [drain] loops return. *)
Theorem socket_link_drains s :
  steps lstep lstart s -> 2 * Z.of_nat (length (produced s)) + 16 < 2 ^ 64 -> alive s ->
  exists s', steps lstep s s' /\ produced s' = produced s /\ consumed s' = produced s' /\
    send_drained (snd_half s') = true /\ recv_drained (rcv_half s') = true.
Proof.
  intros Hst Hf Hal. pose proof (steps_inv sb Hsb ident _ _ _ _ _ Hst Hf) as Hinv.
  set (R := fun s1 s2 => exists t, quiet t /\ (forall p, t <> KSend p) /\
              link_act (proxy_fifo sb) ident t s1 = Some s2).
  set (m := fun s : link_st => Z.to_nat (work s (Z.to_nat (p_step (snd_half s) / 2))
              (Z.to_nat (p_step (rcv_half s) / 2)))).
  assert (forall s a c out inb, link_inv sb s a c out inb -> m s = Z.to_nat (work s a c)) as Hm.
  { intros s0 a c out inb []. unfold m. rewrite li_sstep0, li_rstep0.
    rewrite !(Z.mul_comm 2), !Z.div_mul, !Nat2Z.id by lia. done. }
  destruct (steps_terminate R (fun s1 => inv sb s1 /\ fits s1 /\ alive s1 /\ produced s1 = produced s)
    (fun s1 => consumed s1 = produced s1 /\ send_drained (snd_half s1) = true) m)
    with (s := s) as (s' & Hs' & Hc' & Hd').
  - intros s1 s2 (Hi & Hf1 & Hal1 & Hp) (t & Hq & Hk & Ha).
    destruct (act_inv sb Hsb ident _ _ _ Hi Hf1 Ha) as [Hi2 Hal2].
    destruct (act_produced _ _ _ _ _ Ha) as [[E|(p & -> & _)] _]; [|by destruct (Hk p)].
    unfold fits in *. rewrite E, Hp. split_and!; auto.
  - intros s1 ((a & c & out & inb & Hi) & Hf1 & Hal1 & Hp).
    destruct (link_advance sb Hsb ident s1 a c out inb Hi Hf1 Hal1)
      as [[Hc Ha]|(t & s2 & a' & c' & out' & inb' & Hq & Hk & Ha & Hi' & Hw)]; [left|right].
    { split; [done|]. unfold send_drained. rewrite (li_shead _ _ _ _ _ _ Hi), (li_stail _ _ _ _ _ _ Hi), Ha.
      rewrite Z.ltb_irrefl. by rewrite orb_true_r. }
    exists s2. split; [apply steps_once; by exists t|].
    rewrite (Hm _ _ _ _ _ Hi), (Hm _ _ _ _ _ Hi').
    pose proof (work_nonneg _ _ _ _ _ _ Hi'). lia.
  - done.
  - assert (forall s1 s2, steps R s1 s2 -> steps lstep s1 s2 /\ produced s2 = produced s1) as Hemb.
    { intros s1 s2 H12. induction H12 as [|s1 s2 s3 _ [IH1 IH2] (t & Hq & Hk & Ha)]; [done|].
      split; [eapply steps_snoc; [done|by econstructor]|].
      destruct (act_produced _ _ _ _ _ Ha) as [[E|(p & -> & _)] _]; [by rewrite E|by destruct (Hk p)]. }
    destruct (Hemb _ _ Hs') as [Hst' Hp']. exists s'. split_and!; [done..|].
    destruct (steps_inv sb Hsb ident m1 z1 m2 z2 s') as (a & c & out & inb & Hi);
      [by eapply steps_trans|unfold fits; by rewrite Hp'|].
    unfold recv_drained. rewrite (li_rhead _ _ _ _ _ _ Hi), (li_rtail _ _ _ _ _ _ Hi).
    pose proof (li_c _ _ _ _ _ _ Hi). rewrite (proj2 (Z.ltb_ge _ _)) by lia. by rewrite orb_true_r.
Qed.
End LinkTheorems.

(** Failures are sticky and reach the kernel: however many proxies report,
    in whatever order, the message of the first report stays and the abort
    word the kernels poll is set. *)
Theorem first_failure_wins e reports i step reason :
  has_error e = false ->
  let report := fun e '(i, step, reason) => record_failure i step reason e in
  let e' := foldl report (record_failure i step reason e) reports in
  has_error e' = true /\ message e' = format_failure i step reason /\
  (device_abort e <> None -> device_abort e' = Some 1).
Proof.
  intros He report. assert (forall e, has_error e = true -> foldl report e reports = e) as Hs.
  { intros e0 He0. induction reports as [|[[j st] r] l IH]; simpl; [done|].
    unfold record_failure. by rewrite He0. }
  set (e1 := record_failure i step reason e). cbv zeta.
  assert (e1 = ErrState true (format_failure i step reason)
    (match device_abort e with Some _ => Some 1 | None => None end)) as ->
    by (unfold e1, record_failure; by rewrite He).
  rewrite Hs by done. split_and!; [done|done|]. simpl. by destruct (device_abort e).
Qed.

Module SocketWitness.
Definition zero (_ : Z) : Z := 0.
Definition who : SocketProxyIdentity := Identity 0 1 0.
Definition start : link_st := link_init zero zero zero zero.

(** Two slices handed over, the first frame half on the wire. *)
Definition acts : list act := [KSend [1; 2; 3]; STurn; SMove 5; KSend [4; 5]; RTurn; RMove 9].
Definition midway : link_st :=
  default start (run_list (link_act (proxy_fifo 16) who) acts start).

Lemma midway_steps : steps (link_step (proxy_fifo 16) who) start midway.
Proof.
  apply (run_list_steps (link_act (proxy_fifo 16) who) _ acts); [|done].
  apply Forall_forall. intros a _. apply link_step_act.
Qed.

Lemma socket_link_queue_witness :
  exists s', link_act (proxy_fifo 16) who (SMove 2) midway = Some s' /\
    in_flight s' = [[1; 2; 3]; [4; 5]].
Proof.
  eexists. split; [reflexivity|].
  exact (proj1 (socket_link_queue 16 ltac:(lia) who zero zero zero zero midway _ (SMove 2)
    midway_steps ltac:(done) eq_refl)).
Defined.

Lemma socket_link_drains_witness :
  exists s', steps (link_step (proxy_fifo 16) who) midway s' /\
    consumed s' = [[1; 2; 3]; [4; 5]].
Proof.
  destruct (socket_link_drains 16 ltac:(lia) who zero zero zero zero midway midway_steps
    ltac:(done) ltac:(split_and!; done)) as (s' & Hs & Hp & Hc & _).
  exists s'. split; [exact Hs|]. rewrite Hc, Hp. reflexivity.
Defined.

Lemma first_failure_wins_witness :
  message (record_failure who 8 "second" (record_failure who 4 "first" (ErrState false "" (Some 0)))) =
  format_failure who 4 "first".
Proof.
  exact (proj1 (proj2 (first_failure_wins (ErrState false "" (Some 0)) [(who, 8, "second"%string)]
    who 4 "first" eq_refl))).
Defined.
End SocketWitness.
