(* ===== verification/RdmaProxy.v ===== *)
(** * The RDMA proxies of one ring edge and channel, SEND/RECV data plane

    src/transport/rdma/rdma_proxy.cc: the send proxy of the source process and
    the receive proxy of the destination process over a reliable connected
    queue pair.  The proxies keep several work requests in flight, ask for a
    completion of only some of them and complete slices of zero bytes without
    a transfer.  The kernels at both ends are those of SocketProxy.v.

    The queue pair executes sends in order, each into the oldest posted
    receive buffer, and waits while there is none; a completion is found at
    any later poll.  Threads, kernels and the queue pair interleave freely. *)

From Stdlib Require Import ZArith Lia.
From stdpp Require Import base option numbers tactics strings list pretty.
From S2P Require Import Prelude Types Geometry Wire SocketProxy.

#[local] Open Scope Z_scope.

(** [RdmaProxyFifo] and [RdmaProxyIdentity] have the fields of their socket
    counterparts. *)
Abbreviation RdmaProxyFifo := SocketProxyFifo.
Abbreviation RdmaProxyIdentity := SocketProxyIdentity.

(** ** Error state *)

Definition rdma_format_failure (i : RdmaProxyIdentity) (step : Z) (reason : string) : string :=
  "rdma proxy source=" +:+ pretty (id_source i) +:+
  " destination=" +:+ pretty (id_destination i) +:+
  " channel=" +:+ pretty (id_channel i) +:+ " step=" +:+ pretty step +:+ ": " +:+ reason.

(** [RdmaAsyncErrorState::record_failure]; [formats] is false when building the
    message runs out of memory. *)
Definition rdma_record_failure (formats : bool) (i : RdmaProxyIdentity) (step : Z)
    (reason : string) (e : SocketAsyncErrorState) : SocketAsyncErrorState :=
  if has_error e then e
  else ErrState true (if formats then rdma_format_failure i step reason else message e)
         (match device_abort e with Some _ => Some 1 | None => None end).

Definition rdma_message (e : SocketAsyncErrorState) : string :=
  if bool_decide (message e = ""%string)
  then "rdma asynchronous failure (details unavailable)" else message e.

(** ** FIFO and work request ids *)

Definition rdma_validate_fifo (f : RdmaProxyFifo) : res unit :=
  if (slot_bytes f =? 0) || (slot_count f =? 0) || (step_increment f =? 0) ||
     negb (slot_count f mod step_increment f =? 0) ||
     (SIZE_MAX / slot_bytes f <? slot_count f)
  then Throw (RuntimeError "rdma proxy has invalid FIFO storage") else Ok tt.

(** [max_inflight] of a FIFO that passed [validate_fifo]. *)
Definition max_inflight (f : RdmaProxyFifo) : Z := slot_count f / step_increment f.

Definition kSignalEvery : Z := 4.
Definition kPollBatch : nat := 16.

Definition slot_to_wr_id (slot : Z) : Z := slot.
Definition wr_id_to_slot (wr_id : Z) : Z := wr_id.

(** A send request and a receive request as the proxies build them. *)
Record send_wr := SendWr { sw_id : Z; sw_addr : Z; sw_length : Z; sw_signaled : bool }.
Record recv_wr := RecvWr { rw_id : Z; rw_addr : Z; rw_length : Z }.
(** A successful receive completion: [wr_id] and [byte_len]. *)
Record recv_wc := RecvWc { rc_id : Z; rc_len : Z }.

(** ** State *)

(** A proxy thread between two turns, in the loop that posts, about to poll,
    with polled completions to handle, or out of its loop. *)
Inductive phase (WC : Type) :=
| Waiting | Posting | Polling | Polled (wcs : list WC) | Exited.
Arguments Waiting {WC}. Arguments Posting {WC}. Arguments Polling {WC}.
Arguments Polled {WC}. Arguments Exited {WC}.

(** The private counters of either proxy. *)
Record proxy (WC : Type) := Proxy {
  next_post_step : Z; next_complete_step : Z; inflight : Z; p_phase : phase WC }.
Arguments Proxy {WC}. Arguments next_post_step {WC}. Arguments next_complete_step {WC}.
Arguments inflight {WC}. Arguments p_phase {WC}.

Abbreviation send_half := (half_st (proxy Z)).
Abbreviation recv_half := (half_st (proxy recv_wc)).

(** [sq], [rq]: posted requests; [scq], [rcq]: completions not polled yet. *)
Record rdma_st := RLink {
  r_snd : send_half; r_rcv : recv_half;
  sq : list send_wr; scq : list Z; rq : list recv_wr; rcq : list recv_wc;
  r_produced : list bytes; r_consumed : list bytes }.

Definition with_phase {WC} (h : half_st (proxy WC)) (ph : phase WC) : half_st (proxy WC) :=
  let q := p_pc h in
  set_pc h (Proxy (next_post_step q) (next_complete_step q) (inflight q) ph).

Section Rdma.
Context (f : RdmaProxyFifo) (ident : RdmaProxyIdentity).

Abbreviation step_inc := (step_increment f).

(** The catch clause of [progress]: the failure is recorded unless a stop was
    requested; the loop of [run] then ends. *)
Definition rdma_throw {WC} (h : half_st (proxy WC)) (what : string) : half_st (proxy WC) :=
  Half (mem h) (sizes h) (c_head h) (c_tail h) (p_step h) (p_pc (with_phase h Exited))
    (stop_requested h)
    (if stop_requested h then errs h else rdma_record_failure true ident (p_step h) what (errs h)).

(** [check_wc] on a failed completion: recorded at the completion step even
    after a stop, and thrown. *)
Definition rdma_failed_wc {WC} (h : half_st (proxy WC)) (reason : string) : half_st (proxy WC) :=
  Half (mem h) (sizes h) (c_head h) (c_tail h) (p_step h) (p_pc (with_phase h Exited))
    (stop_requested h)
    (rdma_record_failure true ident (next_complete_step (p_pc h)) reason (errs h)).

(** The head of the loop of [run], and the guard of [progress]. *)
Definition rdma_begin {WC} (h : half_st (proxy WC)) : half_st (proxy WC) :=
  with_phase h (if stop_requested h || has_error (errs h) then Exited else Posting).

(** *** [RdmaSendProxy::progress_send_recv] *)

(** One turn of the posting loop: the new state and the request posted. *)
Definition send_post (h : send_half) : send_half * option send_wr :=
  let q := p_pc h in
  if negb (inflight q <? max_inflight f) then (with_phase h Polling, None) else
  let tail := c_tail h in
  if negb (next_post_step q <? tail) then (with_phase h Polling, None) else
  let slot := next_post_step q mod slot_count f in
  let payload_bytes := sizes h slot in
  if slot_bytes f <? payload_bytes
  then (rdma_throw h "rdma proxy send payload exceeds FIFO capacity", None) else
  if payload_bytes =? 0 then
    if negb (next_post_step q =? next_complete_step q) then (with_phase h Polling, None)
    else let complete := u64 (next_complete_step q + step_inc) in
         (Half (mem h) (sizes h) (u64 (next_post_step q + step_inc)) (c_tail h) complete
            (Proxy (u64 (next_post_step q + step_inc)) complete (inflight q) Posting)
            (stop_requested h) (errs h), None)
  else
  let post_step := next_post_step q in
  let more_pending := u64 (post_step + step_inc) <? tail in
  let next_zero_needs_head :=
    more_pending && (sizes h (u64 (post_step + step_inc) mod slot_count f) =? 0) in
  let signal := (max_inflight f <=? inflight q + 1) || negb more_pending ||
                next_zero_needs_head || ((post_step / step_inc) mod kSignalEvery =? 0) in
  (set_pc h (Proxy (u64 (post_step + step_inc)) (next_complete_step q) (inflight q + 1) Posting),
   Some (SendWr (slot_to_wr_id post_step) (u64 (slot * slot_bytes f)) payload_bytes signal)).

(** One successful completion; [rest] are the polled ones behind it. *)
Definition send_complete (h : send_half) (wr_id : Z) (rest : list Z) : send_half :=
  let q := p_pc h in
  let completed_through := wr_id_to_slot wr_id in
  if (completed_through <? next_complete_step q) ||
     negb ((completed_through - next_complete_step q) mod step_inc =? 0)
  then rdma_throw h "rdma send completion has unexpected step" else
  let advanced := u64 ((completed_through - next_complete_step q) / step_inc + 1) in
  if inflight q <? advanced
  then rdma_throw h "rdma send completion advances past inflight" else
  let complete := u64 (completed_through + step_inc) in
  Half (mem h) (sizes h) complete (c_tail h) complete
    (Proxy (next_post_step q) complete (inflight q - advanced) (Polled rest))
    (stop_requested h) (errs h).

(** *** [RdmaRecvProxy::progress_send_recv] *)

(** Credit for the next receive buffer. *)
Definition recv_credit (h : recv_half) : bool :=
  negb (u64 (c_head h + slot_count f) <? u64 (next_post_step (p_pc h) + step_inc)).

Definition try_elide_zero_payload (elide_zero_payload : bool) (h : recv_half) :
    option recv_half :=
  let q := p_pc h in
  if negb elide_zero_payload then None else
  if negb (next_post_step q =? next_complete_step q) then None else
  if negb (recv_credit h) then None else
  let slot := next_post_step q mod slot_count f in
  if negb (sizes h slot =? 0) then None else
  let complete := u64 (next_complete_step q + step_inc) in
  Some (Half (mem h) (upd (sizes h) slot 0) (c_head h) complete complete
          (Proxy (u64 (next_post_step q + step_inc)) complete (inflight q) (p_phase q))
          (stop_requested h) (errs h)).

Definition pre_post_recv (slot : Z) : recv_wr :=
  RecvWr (slot_to_wr_id slot) (u64 (slot * slot_bytes f)) (u32 (slot_bytes f)).

(** One turn of the posting loop; [prepare] runs the same loop. *)
Definition recv_post (elide_zero_payload : bool) (h : recv_half) : recv_half * option recv_wr :=
  let q := p_pc h in
  if negb ((inflight q <? max_inflight f) && recv_credit h) then (with_phase h Polling, None) else
  match try_elide_zero_payload elide_zero_payload h with
  | Some h' => (h', None)
  | None =>
      let slot := next_post_step q mod slot_count f in
      if elide_zero_payload && (sizes h slot =? 0) then (with_phase h Polling, None) else
      (set_pc h (Proxy (u64 (next_post_step q + step_inc)) (next_complete_step q)
                   (inflight q + 1) (p_phase q)),
       Some (pre_post_recv slot))
  end.

(** [prepare]: posts until the loop breaks. *)
Fixpoint recv_prepare (fuel : nat) (elide : bool) (h : recv_half) (posted : list recv_wr) :
    recv_half * list recv_wr :=
  match fuel with
  | O => (h, posted)
  | S fuel =>
      let '(h', w) := recv_post elide h in
      match p_phase (p_pc h') with
      | Polling => (with_phase h' Waiting, posted)
      | _ => recv_prepare fuel elide h' (posted ++ option_list w)
      end
  end.

Definition recv_complete (h : recv_half) (wc : recv_wc) (rest : list recv_wc) : recv_half :=
  let q := p_pc h in
  let slot := wr_id_to_slot (rc_id wc) in
  if negb (slot =? next_complete_step q mod slot_count f)
  then rdma_throw h "rdma recv completion has unexpected FIFO slot" else
  let complete := u64 (next_complete_step q + step_inc) in
  Half (mem h) (upd (sizes h) slot (rc_len wc)) (c_head h) complete complete
    (Proxy (next_post_step q) complete (inflight q - 1) (Polled rest))
    (stop_requested h) (errs h).

(** *** [stop] and [shutdown] of either proxy; [stop] also reports *)

Definition rdma_halt {WC} (report : bool) (h : half_st (proxy WC)) : half_st (proxy WC) :=
  if stop_requested h then h else
  Half (mem h) (sizes h) (c_head h) (c_tail h) (p_step h) (p_pc h) true
    (if report then rdma_record_failure true ident (p_step h) "stop requested" (errs h)
     else errs h).

(** *** The queue pair *)

(** The oldest send goes into the oldest receive buffer. *)
Definition qp_move (s : rdma_st) : option rdma_st :=
  match sq s, rq s with
  | w :: sq', b :: rq' =>
      if rw_length b <? sw_length w then None else
      let rc := r_rcv s in
      let data := read_mem (mem (r_snd s)) (sw_addr w) (Z.to_nat (sw_length w)) in
      Some (RLink (r_snd s)
        (Half (write_mem (mem rc) (rw_addr b) data) (sizes rc) (c_head rc) (c_tail rc)
           (p_step rc) (p_pc rc) (stop_requested rc) (errs rc))
        sq' (scq s ++ if sw_signaled w then [sw_id w] else [])
        rq' (rcq s ++ [RecvWc (rw_id b) (sw_length w)]) (r_produced s) (r_consumed s))
  | _, _ => None
  end.

(** *** Steps of the whole link *)

Inductive rdma_act :=
| KPut (p : bytes) | KGet | Move
| SBegin | SPost | SPoll (n : nat) | SWc | SThrow (what : string) | SBadWc (reason : string)
| RBegin | RPost | RPoll (n : nat) | RWc | RThrow (what : string) | RBadWc (reason : string)
| SStop (report : bool) | RStop (report : bool).

Definition set_snd (s : rdma_st) (h : send_half) : rdma_st :=
  RLink h (r_rcv s) (sq s) (scq s) (rq s) (rcq s) (r_produced s) (r_consumed s).
Definition set_rcv (s : rdma_st) (h : recv_half) : rdma_st :=
  RLink (r_snd s) h (sq s) (scq s) (rq s) (rcq s) (r_produced s) (r_consumed s).

(** [SThrow], [RThrow]: a call of the verbs library fails while posting or
    polling; [SBadWc], [RBadWc]: a completion reports an error. *)
Definition rdma_act_on (elide : bool) (a : rdma_act) (s : rdma_st) : option rdma_st :=
  let sn := r_snd s in
  let rc := r_rcv s in
  match a with
  | KPut p =>
      sn' ← kernel_send f sn p;
      Some (RLink sn' rc (sq s) (scq s) (rq s) (rcq s) (r_produced s ++ [p]) (r_consumed s))
  | KGet =>
      '(p, rc') ← kernel_recv f rc;
      Some (RLink sn rc' (sq s) (scq s) (rq s) (rcq s) (r_produced s) (r_consumed s ++ [p]))
  | Move => qp_move s
  | SBegin => match p_phase (p_pc sn) with
              | Waiting => Some (set_snd s (rdma_begin sn)) | _ => None end
  | SPost =>
      match p_phase (p_pc sn) with
      | Posting =>
          let '(sn', w) := send_post sn in
          Some (RLink sn' rc (sq s ++ option_list w) (scq s) (rq s) (rcq s)
                  (r_produced s) (r_consumed s))
      | _ => None
      end
  | SPoll n =>
      match p_phase (p_pc sn) with
      | Polling =>
          let k := (n `min` kPollBatch)%nat in
          Some (RLink (with_phase sn (Polled (take k (scq s)))) rc (sq s) (drop k (scq s))
                  (rq s) (rcq s) (r_produced s) (r_consumed s))
      | _ => None
      end
  | SWc =>
      match p_phase (p_pc sn) with
      | Polled [] => Some (set_snd s (with_phase sn Waiting))
      | Polled (w :: rest) => Some (set_snd s (send_complete sn w rest))
      | _ => None
      end
  | SThrow what => match p_phase (p_pc sn) with
                   | Posting | Polling => Some (set_snd s (rdma_throw sn what)) | _ => None end
  | SBadWc reason => match p_phase (p_pc sn) with
                     | Polled _ => Some (set_snd s (rdma_failed_wc sn reason)) | _ => None end
  | RBegin => match p_phase (p_pc rc) with
              | Waiting => Some (set_rcv s (rdma_begin rc)) | _ => None end
  | RPost =>
      match p_phase (p_pc rc) with
      | Posting =>
          let '(rc', w) := recv_post elide rc in
          Some (RLink sn rc' (sq s) (scq s) (rq s ++ option_list w) (rcq s)
                  (r_produced s) (r_consumed s))
      | _ => None
      end
  | RPoll n =>
      match p_phase (p_pc rc) with
      | Polling =>
          let k := (n `min` kPollBatch)%nat in
          Some (RLink sn (with_phase rc (Polled (take k (rcq s)))) (sq s) (scq s)
                  (rq s) (drop k (rcq s)) (r_produced s) (r_consumed s))
      | _ => None
      end
  | RWc =>
      match p_phase (p_pc rc) with
      | Polled [] => Some (set_rcv s (with_phase rc Waiting))
      | Polled (w :: rest) => Some (set_rcv s (recv_complete rc w rest))
      | _ => None
      end
  | RThrow what => match p_phase (p_pc rc) with
                   | Posting | Polling => Some (set_rcv s (rdma_throw rc what)) | _ => None end
  | RBadWc reason => match p_phase (p_pc rc) with
                     | Polled _ => Some (set_rcv s (rdma_failed_wc rc reason)) | _ => None end
  | SStop report => Some (set_snd s (rdma_halt report sn))
  | RStop report => Some (set_rcv s (rdma_halt report rc))
  end.

Inductive rdma_step (elide : bool) : rdma_st -> rdma_st -> Prop :=
| rdma_step_act a s s' : rdma_act_on elide a s = Some s' -> rdma_step elide s s'.
End Rdma.

(** The constructors on zeroed control words, then [prepare]. *)
Definition proxy_init {WC} (m z : Z -> Z) : half_st (proxy WC) :=
  half_init (Proxy 0 0 0 Waiting) m z.
Definition rdma_init (f : RdmaProxyFifo) (elide : bool) (m1 z1 m2 z2 : Z -> Z) : rdma_st :=
  let '(rc, posted) := recv_prepare f (S (Z.to_nat (max_inflight f))) elide (proxy_init m2 z2) [] in
  RLink (proxy_init m1 z1) rc [] [] posted [] [] [].
