(* ===== verification/RdmaLink.v ===== *)
(** * Correctness of the RDMA link, SEND/RECV data plane

    The invariant of the two proxies of RdmaProxy.v and the queue pair between
    them, and its consequences: the link is a queue of the slices that are not
    empty, it never fails by itself, and it always drains.  The receive proxy
    runs as the communicator creates it, without eliding. *)

From Stdlib Require Import ZArith Lia.
From stdpp Require Import base option numbers tactics strings list.
From S2P Require Import Prelude Types Geometry Wire SocketProxy RdmaProxy.

#[local] Open Scope Z_scope.

(** Slices of zero bytes never cross the link. *)
Definition nonempty (P : list bytes) : list bytes := filter (fun p => p <> []) P.

Lemma nonempty_app P1 P2 : nonempty (P1 ++ P2) = nonempty P1 ++ nonempty P2.
Proof. apply filter_app. Qed.

Lemma nonempty_snoc P p : p <> [] -> nonempty (P ++ [p]) = nonempty P ++ [p].
Proof. intros Hp. rewrite nonempty_app. unfold nonempty at 2. by rewrite filter_cons_True. Qed.

Lemma nonempty_snoc_nil P : nonempty (P ++ [[]]) = nonempty P.
Proof. rewrite nonempty_app. unfold nonempty at 2. rewrite filter_cons_False by (by intros []). apply app_nil_r. Qed.

Lemma length_nonempty P : (length (nonempty P) <= length P)%nat.
Proof. apply length_filter. Qed.

(** The next slice that is not empty. *)
Lemma nonempty_lookup P m p : P !! m = Some p -> p <> [] ->
  nonempty (take (S m) P) = nonempty (take m P) ++ [p] /\
  nonempty P !! length (nonempty (take m P)) = Some p.
Proof.
  intros Hp Hne. rewrite (take_S_r P m p) by done. split; [by apply nonempty_snoc|].
  rewrite <- (take_drop_middle P m p) at 2 by done.
  rewrite nonempty_app. unfold nonempty at 3. rewrite filter_cons_True by done.
  by rewrite list_lookup_middle.
Qed.

(** ** Requests in flight *)

(** Requests [k ..] and their completions, given who asked for one. *)
Fixpoint requests (sb : Z) (P : list bytes) (k : nat) (sig : list bool) : list send_wr :=
  match sig with
  | [] => []
  | b :: sig => SendWr (2 * Z.of_nat k) (2 * Z.of_nat k mod 8 * sb)
                  (Z.of_nat (length (P !!! k))) b :: requests sb P (S k) sig
  end.

Fixpoint completions (k : nat) (sig : list bool) : list Z :=
  match sig with
  | [] => []
  | b :: sig => (if b then [2 * Z.of_nat k] else []) ++ completions (S k) sig
  end.

Lemma requests_snoc sb P k sig b :
  requests sb P k (sig ++ [b]) =
  requests sb P k sig ++ [SendWr (2 * Z.of_nat (k + length sig)) (2 * Z.of_nat (k + length sig) mod 8 * sb)
                            (Z.of_nat (length (P !!! (k + length sig)%nat))) b].
Proof.
  revert k. induction sig as [|x sig IH]; intros k; simpl; [by rewrite Nat.add_0_r|].
  by rewrite IH, Nat.add_succ_r.
Qed.

Lemma requests_grow sb P k sig p : (k + length sig <= length P)%nat ->
  requests sb (P ++ [p]) k sig = requests sb P k sig.
Proof.
  revert k. induction sig as [|x sig IH]; intros k Hk; simpl in *; [done|].
  rewrite IH, lookup_total_app_l by lia. done.
Qed.

Lemma completions_snoc k sig b :
  completions k (sig ++ [b]) = completions k sig ++ if b then [2 * Z.of_nat (k + length sig)] else [].
Proof.
  revert k. induction sig as [|x sig IH]; intros k; simpl; [by rewrite Nat.add_0_r, app_nil_r|].
  by rewrite IH, Nat.add_succ_r, app_assoc.
Qed.

Lemma completions_cons k sig w rest : completions k sig = w :: rest ->
  exists i, w = 2 * Z.of_nat (k + i) /\ (i < length sig)%nat /\
            rest = completions (k + S i) (drop (S i) sig).
Proof.
  revert k. induction sig as [|[] sig IH]; intros k; simpl; [done| |].
  - intros [= <- <-]. exists 0%nat. rewrite Nat.add_0_r, Nat.add_1_r, drop_0. auto with lia.
  - intros (i & -> & Hi & ->)%IH. exists (S i). rewrite <- !Nat.add_succ_comm. auto with lia.
Qed.

Lemma length_completions k sig : (length (completions k sig) <= length sig)%nat.
Proof. revert k. induction sig as [|[] sig IH]; intros k; simpl; [lia|specialize (IH (S k)); lia..]. Qed.

Lemma last_drop_ge {A} (l : list A) n : (n < length l)%nat -> last (drop n l) = last l.
Proof.
  revert l. induction n as [|n IH]; intros [|x l] Hn; simpl in *; try done; try lia.
  rewrite IH by lia. destruct l; simpl in *; [lia|done].
Qed.

Section RdmaInv.
Context (sb : Z) (Hsb : 0 < sb < 2 ^ 32) (ident : RdmaProxyIdentity).

Abbreviation fifo := (proxy_fifo sb).
Abbreviation slot k := (2 * Z.of_nat k mod 8).
Abbreviation racts := (rdma_act_on fifo ident false).

(** The bytes of slice [k] lie in their slot. *)
Definition placed {PC} (h : half_st PC) (k : nat) (q : bytes) : Prop :=
  read_mem (mem h) (slot k * sb) (length q) = q /\ Z.of_nat (length q) <= sb.

Definition polled {WC} (h : half_st (proxy WC)) : list WC :=
  match p_phase (p_pc h) with Polled wcs => wcs | _ => [] end.
Definition running {WC} (h : half_st (proxy WC)) : Prop := p_phase (p_pc h) <> Exited.

Definition receive_buffer (j : nat) : recv_wr := RecvWr (slot j) (slot j * sb) sb.
Definition receipt (Q : list bytes) (j : nat) : recv_wc :=
  RecvWc (slot j) (Z.of_nat (length (Q !!! j))).

(** The send proxy has completed [a] slices, the queue pair moved [m] and the
    proxy posted [b]; [sig] tells which of [a .. b - 1] are signaled. *)
Record send_inv (s : rdma_st) (a m b : nat) (sig : list bool) : Prop := {
  si_tail : c_tail (r_snd s) = 2 * Z.of_nat (length (r_produced s));
  si_head : c_head (r_snd s) = 2 * Z.of_nat a;
  si_step : p_step (r_snd s) = 2 * Z.of_nat a;
  si_post : next_post_step (p_pc (r_snd s)) = 2 * Z.of_nat b;
  si_complete : next_complete_step (p_pc (r_snd s)) = 2 * Z.of_nat a;
  si_inflight : inflight (p_pc (r_snd s)) = Z.of_nat b - Z.of_nat a;
  si_am : (a <= m <= b)%nat;
  si_bn : (b <= length (r_produced s) <= a + 4)%nat;
  si_win : window sb (r_snd s) (r_produced s) a (length (r_produced s));
  si_sig : length sig = (b - a)%nat;
  si_full : forall k, (a <= k < b)%nat -> r_produced s !! k <> Some [];
  si_sq : sq s = requests sb (r_produced s) m (drop (m - a) sig);
  si_scq : running (r_snd s) ->
           polled (r_snd s) ++ scq s = completions a (take (m - a) sig);
  (* the last request in flight is signaled, or another one can follow *)
  si_last : (a < b)%nat -> last sig = Some true \/
    (b < length (r_produced s) /\ b < a + 4)%nat /\ r_produced s !! b <> Some [];
}.

(** Of the slices [Q] that are not empty, [n] were moved, the receive proxy
    has published [c] and posted buffers for [d]. *)
Record recv_inv (s : rdma_st) (Q : list bytes) (n c d : nat) : Prop := {
  ri_head : c_head (r_rcv s) = 2 * Z.of_nat (length (r_consumed s));
  ri_tail : c_tail (r_rcv s) = 2 * Z.of_nat c;
  ri_step : p_step (r_rcv s) = 2 * Z.of_nat c;
  ri_post : next_post_step (p_pc (r_rcv s)) = 2 * Z.of_nat d;
  ri_complete : next_complete_step (p_pc (r_rcv s)) = 2 * Z.of_nat c;
  ri_inflight : inflight (p_pc (r_rcv s)) = Z.of_nat d - Z.of_nat c;
  ri_cn : (length (r_consumed s) <= c <= n)%nat;
  ri_nd : (n <= d <= length (r_consumed s) + 4)%nat;
  ri_nq : (n <= length Q)%nat;
  ri_win : window sb (r_rcv s) Q (length (r_consumed s)) c;
  ri_placed : forall j, (c <= j < n)%nat -> exists q, Q !! j = Some q /\ placed (r_rcv s) j q;
  ri_rq : rq s = receive_buffer <$> seq n (d - n);
  ri_rcq : running (r_rcv s) -> polled (r_rcv s) ++ rcq s = receipt Q <$> seq c (n - c);
  ri_cons : r_consumed s = take (length (r_consumed s)) Q;
}.

Definition moved (P : list bytes) (m : nat) : nat := length (nonempty (take m P)).

Definition rdma_inv (s : rdma_st) (a m b : nat) (sig : list bool) (c d : nat) : Prop :=
  send_inv s a m b sig /\ recv_inv s (nonempty (r_produced s)) (moved (r_produced s) m) c d.

Definition rfits (s : rdma_st) : Prop := 2 * Z.of_nat (length (r_produced s)) + 16 < 2 ^ 64.

(** No stop was requested, nothing failed, both threads run. *)
Definition calm {WC} (h : half_st (proxy WC)) : Prop :=
  stop_requested h = false /\ has_error (errs h) = false /\ running h.
Definition ralive (s : rdma_st) : Prop := calm (r_snd s) /\ calm (r_rcv s).

Lemma moved_le P m : (moved P m <= length (nonempty P))%nat.
Proof.
  unfold moved. rewrite <- (take_drop m P) at 2. rewrite nonempty_app, length_app. lia.
Qed.

Lemma recv_count s Q n c d : recv_inv s Q n c d ->
  (length (r_consumed s) <= length Q)%nat.
Proof. intros []. lia. Qed.

Lemma rfits_q s : rfits s -> 2 * Z.of_nat (length (nonempty (r_produced s))) + 16 < 2 ^ 64.
Proof. unfold rfits. pose proof (length_nonempty (r_produced s)). lia. Qed.

(** A step that leaves the receiving side alone keeps its invariant. *)
Lemma recv_inv_other s s' Q n c d : recv_inv s Q n c d ->
  r_rcv s' = r_rcv s -> rq s' = rq s -> rcq s' = rcq s -> r_consumed s' = r_consumed s ->
  recv_inv s' Q n c d.
Proof. intros [] H1 H2 H3 H4. split; rewrite ?H1, ?H2, ?H3, ?H4; done. Qed.

Lemma send_inv_other s s' a m b sig : send_inv s a m b sig ->
  r_snd s' = r_snd s -> sq s' = sq s -> scq s' = scq s -> r_produced s' = r_produced s ->
  send_inv s' a m b sig.
Proof. intros [] H1 H2 H3 H4. split; rewrite ?H1, ?H2, ?H3, ?H4; done. Qed.

(** *** Kernels *)

Lemma put_inv s s' p a m b sig c d : rdma_inv s a m b sig c d -> rfits s ->
  racts (KPut p) s = Some s' -> rdma_inv s' a m b sig c d.
Proof.
  intros [Hs Hr] Hf. pose proof Hs as []. cbn [rdma_act_on].
  intros (sn' & Hk & [= <-])%bind_Some.
  destruct (kernel_send_window sb Hsb _ _ (r_produced s) a p si_tail0 si_head0 ltac:(lia) si_win0 Hf Hk)
    as (Hroom & Hlp & Hw & mm & z & ->).
  split.
  - split; cbn [r_snd r_produced sq scq c_tail c_head p_step p_pc]; rewrite ?length_app; simpl length; try done; try lia.
    + intros k Hk'. rewrite lookup_app_l by lia. by apply si_full0.
    + rewrite requests_grow; [done|]. rewrite length_drop. lia.
    + intros Hab. destruct (si_last0 Hab) as [?|[[? ?] Hne]]; [by left|right].
      rewrite lookup_app_l by lia. split; [lia|done].
  - cbn [r_produced]. unfold moved in *. rewrite take_app_le by lia.
    destruct (decide (p = [])) as [->|Hne].
    { rewrite nonempty_snoc_nil. by eapply recv_inv_other. }
    rewrite nonempty_snoc by done. pose proof Hr as [].
    split; cbn [r_rcv r_consumed rq rcq]; try done.
    + rewrite length_app. lia.
    + by apply window_snoc.
    + intros j Hj. destruct (ri_placed0 j Hj) as (q & Hq & Hp). exists q.
      split; [by apply lookup_app_l_Some|done].
    + intros Hrun. rewrite ri_rcq0 by done. apply list_fmap_ext. intros i j [-> Hj]%lookup_seq.
      unfold receipt. rewrite lookup_total_app_l by lia. done.
    + rewrite take_app_le by lia. done.
Qed.

Lemma get_inv s s' a m b sig c d : rdma_inv s a m b sig c d -> rfits s ->
  racts KGet s = Some s' -> rdma_inv s' a m b sig c d /\
  exists q, nonempty (r_produced s) !! length (r_consumed s) = Some q /\
            r_consumed s' = r_consumed s ++ [q].
Proof.
  intros [Hs Hr] Hf%rfits_q. pose proof Hr as []. cbn [rdma_act_on].
  intros ([q rc'] & Hk & [= <-])%bind_Some.
  destruct (kernel_recv_window sb Hsb _ _ _ (length (r_consumed s)) c q ri_tail0 ri_head0 ri_win0
    ltac:(lia) Hk) as (Hlt & Hq & ->). split; [split|eauto].
  - by eapply send_inv_other.
  - split; cbn [r_rcv r_consumed rq rcq c_head c_tail p_step p_pc r_produced]; rewrite ?length_app; simpl length; try done; try lia.
    + eapply window_sub; [eapply window_pc; [exact ri_win0|done..]|lia|lia].
    + rewrite Nat.add_1_r, (take_S_r _ _ q) by done. by rewrite <- ri_cons0.
Qed.

(** *** The queue pair *)

Lemma placed_write {PC} (h h' : half_st PC) j k q b :
  placed h k q -> slot j <> slot k -> Z.of_nat (length b) <= sb ->
  mem h' = write_mem (mem h) (slot j * sb) b -> placed h' k q.
Proof.
  intros [Hb Hf] Hne Hl Hm. split; [|done]. rewrite Hm, read_write_other; [done|].
  pose proof (slot_range j). pose proof (slot_range k).
  destruct (decide (slot j < slot k)); [right|left]; nia.
Qed.

Lemma move_inv s s' a m b sig c d : rdma_inv s a m b sig c d ->
  racts Move s = Some s' -> rdma_inv s' a (S m) b sig c d /\
  r_snd s' = r_snd s /\ polled (r_rcv s') = polled (r_rcv s) /\
  p_phase (p_pc (r_rcv s')) = p_phase (p_pc (r_rcv s)).
Proof.
  intros [Hs Hr] Ha. pose proof Hs as []. pose proof Hr as []. cbn [rdma_act_on] in Ha.
  unfold qp_move in Ha. rewrite si_sq0, ri_rq0 in Ha.
  destruct (drop (m - a) sig) as [|fl fs] eqn:Ed; [done|].
  set (n := moved (r_produced s) m) in *.
  destruct (d - n)%nat as [|dn] eqn:En; [done|]. simpl in Ha.
  assert (m < b)%nat as Hmb.
  { apply (f_equal length) in Ed. rewrite length_drop in Ed. simpl in Ed. lia. }
  destruct (lookup_lt_is_Some_2 (r_produced s) m ltac:(lia)) as [p Hp].
  rewrite (list_lookup_total_correct _ _ _ Hp) in Ha.
  destruct (si_win0 m ltac:(lia)) as (q & Hq & [Hqb Hqs Hqf]).
  assert (q = p) as -> by congruence. rewrite (proj2 (Z.ltb_ge _ _)) in Ha by lia.
  rewrite Nat2Z.id, Hqb in Ha.
  assert (p <> []) as Hne by (intros ->; apply (si_full0 m); [lia|done]).
  destruct (nonempty_lookup _ _ _ Hp Hne) as [Hm' HQ].
  change (length (nonempty (take m (r_produced s)))) with n in HQ.
  assert (moved (r_produced s) (S m) = S n) as HSm.
  { unfold moved. rewrite Hm', length_app. simpl. fold (moved (r_produced s) m). lia. }
  assert (sig !! (m - a)%nat = Some fl) as Hfl.
  { rewrite <- (Nat.add_0_r (m - a)), <- lookup_drop, Ed. done. }
  injection Ha as <-. split; [split|by split_and!].
  - split; cbn [r_snd r_produced sq scq]; try done; try lia.
    + replace (S m - a)%nat with (S (m - a)) by lia. by rewrite (drop_S sig fl) in Ed by done;
        injection Ed as ->.
    + intros Hrun. replace (S m - a)%nat with (S (m - a)) by lia.
      rewrite (take_S_r sig _ fl) by done. rewrite completions_snoc, length_take, <- si_scq0 by done.
      rewrite app_assoc. do 2 f_equal. replace (a + (m - a) `min` length sig)%nat with m by lia. done.
  - cbn [r_produced]. rewrite HSm.
    assert (forall j, (length (r_consumed s) <= j < n)%nat -> slot n <> slot j) as Hslot.
    { intros j Hj. apply not_eq_sym, slot_ne. lia. }
    split; cbn [r_rcv r_consumed rq rcq c_head c_tail p_step p_pc]; try done; try lia.
    + apply lookup_lt_Some in HQ. lia.
    + intros j Hj. destruct (ri_win0 j Hj) as (q & Hq' & Hst). exists q. split; [done|].
      eapply (stored_write sb Hsb _ _ n j q 0 p 0); [done|apply Hslot; lia|lia|lia| |by left].
      cbn [mem]. by rewrite Z.add_0_r.
    + intros j Hj. destruct (decide (j = n)) as [->|Hnj].
      * exists p. split; [done|]. split; [|lia]. cbn [mem]. by apply read_write_same.
      * destruct (ri_placed0 j ltac:(lia)) as (q & Hq' & Hpl). exists q. split; [done|].
        eapply (placed_write _ _ n j q p); [done|apply Hslot; lia|lia|done].
    + by replace (d - S n)%nat with dn by lia.
    + intros Hrun. unfold polled in *. cbn [p_pc]. rewrite app_assoc, ri_rcq0 by done.
      replace (S n - c)%nat with (S (n - c)) by lia. rewrite seq_S, fmap_app. simpl.
      replace (c + (n - c))%nat with n by lia. unfold receipt at 3.
      by rewrite (list_lookup_total_correct _ _ _ HQ).
Qed.

(** *** Send proxy *)

(** What a change of phase leaves alone. *)
Definition core {WC} (h : half_st (proxy WC)) :=
  (mem h, sizes h, c_head h, c_tail h, p_step h,
   (next_post_step (p_pc h), next_complete_step (p_pc h), inflight (p_pc h))).

Lemma send_same s s' a m b sig : send_inv s a m b sig ->
  core (r_snd s') = core (r_snd s) -> sq s' = sq s -> r_produced s' = r_produced s ->
  (running (r_snd s') -> running (r_snd s) /\
     polled (r_snd s') ++ scq s' = polled (r_snd s) ++ scq s) ->
  send_inv s' a m b sig.
Proof.
  intros [] [= E1 E2 E3 E4 E5 E6 E7 E8] Hsq HP Hpol.
  split; rewrite ?E3, ?E4, ?E5, ?E6, ?E7, ?E8, ?HP, ?Hsq; try done.
  - by eapply window_pc.
  - intros [Hrun ->]%Hpol. auto.
Qed.

Lemma recv_same s s' Q n c d : recv_inv s Q n c d ->
  core (r_rcv s') = core (r_rcv s) -> rq s' = rq s -> r_consumed s' = r_consumed s ->
  (running (r_rcv s') -> running (r_rcv s) /\
     polled (r_rcv s') ++ rcq s' = polled (r_rcv s) ++ rcq s) ->
  recv_inv s' Q n c d.
Proof.
  intros [] [= E1 E2 E3 E4 E5 E6 E7 E8] Hrq HC Hpol.
  split; rewrite ?E3, ?E4, ?E5, ?E6, ?E7, ?E8, ?HC, ?Hrq; try done.
  - by eapply window_pc.
  - intros j Hj. destruct (ri_placed0 j Hj) as (q & Hq & Hp & Hl). exists q.
    split; [done|]. split; [by rewrite E1|done].
  - intros [Hrun ->]%Hpol. auto.
Qed.

(** A step of one side that only changes its phase. *)
Lemma snd_phase_inv s h' scq' a m b sig c d : rdma_inv s a m b sig c d ->
  core h' = core (r_snd s) ->
  (running h' -> running (r_snd s) /\ polled h' ++ scq' = polled (r_snd s) ++ scq s) ->
  rdma_inv (RLink h' (r_rcv s) (sq s) scq' (rq s) (rcq s) (r_produced s) (r_consumed s)) a m b sig c d.
Proof. intros [Hs Hr] Hc Hp. split; [by eapply send_same|by eapply recv_inv_other]. Qed.

Lemma rcv_phase_inv s h' rcq' a m b sig c d : rdma_inv s a m b sig c d ->
  core h' = core (r_rcv s) ->
  (running h' -> running (r_rcv s) /\ polled h' ++ rcq' = polled (r_rcv s) ++ rcq s) ->
  rdma_inv (RLink (r_snd s) h' (sq s) (scq s) (rq s) rcq' (r_produced s) (r_consumed s)) a m b sig c d.
Proof. intros [Hs Hr] Hc Hp. split; [by eapply send_inv_other|by eapply recv_same]. Qed.

(** The posting loop of the send proxy stops. *)
Definition send_full (P : list bytes) (a b : nat) : Prop :=
  b = (a + 4)%nat \/ b = length P \/ (a < b)%nat /\ P !! b = Some [].

Lemma step_succ k : 2 * Z.of_nat k + 2 < 2 ^ 64 ->
  u64 (2 * Z.of_nat k + kSliceSteps) = 2 * Z.of_nat (S k).
Proof. intros. unfold kSliceSteps. rewrite u64_small; lia. Qed.

Lemma window_size {PC} (h : half_st PC) P i j k p : window sb h P i j -> (i <= k < j)%nat ->
  P !! k = Some p -> sizes h (slot k) = Z.of_nat (length p) /\ Z.of_nat (length p) <= sb.
Proof.
  intros Hw Hk Hp. destruct (Hw k Hk) as (q & Hq & []). by simplify_eq.
Qed.

(** One turn of the loop breaks, elides an empty slice or posts the next one;
    an unsignaled request is always followed by another. *)
Lemma send_post_cases s a m b sig : send_inv s a m b sig -> rfits s ->
  let h := r_snd s in let P := r_produced s in
  (send_full P a b /\ send_post fifo ident h = (with_phase h Polling, None)) \/
  (a = b /\ P !! b = Some [] /\ send_post fifo ident h =
     (Half (mem h) (sizes h) (2 * Z.of_nat (S b)) (c_tail h) (2 * Z.of_nat (S a))
        (Proxy (2 * Z.of_nat (S b)) (2 * Z.of_nat (S a)) 0 Posting) (stop_requested h) (errs h), None)) \/
  (exists p fl, P !! b = Some p /\ p <> [] /\ (b < a + 4)%nat /\
     (fl = true \/ (S b < length P /\ S b < a + 4)%nat /\ P !! S b <> Some []) /\
     send_post fifo ident h =
     (set_pc h (Proxy (2 * Z.of_nat (S b)) (2 * Z.of_nat a) (Z.of_nat (S b) - Z.of_nat a) Posting),
      Some (SendWr (2 * Z.of_nat b) (slot b * sb) (Z.of_nat (length p)) fl))).
Proof.
  intros Hs Hf. cbv zeta. pose proof Hs as []. unfold rfits in Hf.
  set (h := r_snd s) in *. set (P := r_produced s) in *.
  unfold send_post. rewrite si_inflight0, si_post0, si_complete0, si_tail0.
  change (max_inflight fifo) with 4. unfold send_full.
  destruct (Z.ltb_spec (Z.of_nat b - Z.of_nat a) 4); [|left; simpl; split; [lia|done]].
  destruct (Z.ltb_spec (2 * Z.of_nat b) (2 * Z.of_nat (length P))); [|left; simpl; split; [lia|done]].
  cbn [negb slot_count slot_bytes step_increment proxy_fifo]. unfold kFifoSteps.
  destruct (lookup_lt_is_Some_2 P b ltac:(lia)) as [p Hp].
  destruct (window_size h P a (length P) b p si_win0 ltac:(lia) Hp) as [-> Hle].
  rewrite (proj2 (Z.ltb_ge _ _)) by lia. rewrite !step_succ by lia.
  destruct (Z.eqb_spec (Z.of_nat (length p)) 0) as [E0|E0].
  { assert (p = []) as -> by (destruct p; [done|simpl in E0; lia]).
    destruct (Z.eqb_spec (2 * Z.of_nat b) (2 * Z.of_nat a)); [right; left|left].
    - assert (a = b) as -> by lia. by rewrite Z.sub_diag.
    - simpl. split; [|done]. right; right. split; [lia|done]. }
  right; right. eexists p, _. split_and!; [done|by intros ->|lia| |].
  2: { unfold slot_to_wr_id. do 3 f_equal; [lia|]. pose proof (slot_range b).
       apply u64_small. nia. }
  destruct (Z.leb_spec 4 (Z.of_nat b - Z.of_nat a + 1)); [by left|].
  destruct (Z.ltb_spec (2 * Z.of_nat (S b)) (2 * Z.of_nat (length P))); [|by left].
  destruct (lookup_lt_is_Some_2 P (S b) ltac:(lia)) as [q Hq].
  destruct (window_size h P a (length P) (S b) q si_win0 ltac:(lia) Hq) as [-> _].
  destruct (Z.eqb_spec (Z.of_nat (length q)) 0); [by left|]. right. split; [lia|].
  rewrite Hq. by intros [= ->].
Qed.

(** What one turn of the loop did to the link. *)
Inductive post_outcome (s s' : rdma_st) (a m b : nat) (sig : list bool) :
    nat -> nat -> nat -> list bool -> Prop :=
| post_breaks : send_full (r_produced s) a b -> p_phase (p_pc (r_snd s')) = Polling ->
    post_outcome s s' a m b sig a m b sig
| post_elides : p_phase (p_pc (r_snd s')) = Posting ->
    post_outcome s s' a m b sig (S a) (S m) (S b) []
| post_sends fl : p_phase (p_pc (r_snd s')) = Posting ->
    post_outcome s s' a m b sig a m (S b) (sig ++ [fl]).

Lemma moved_elide P m : P !! m = Some [] -> moved P (S m) = moved P m.
Proof. intros Hm. unfold moved. by rewrite (take_S_r P m []), nonempty_snoc_nil. Qed.

Lemma calm_phase {WC} (h : half_st (proxy WC)) q : calm h -> p_phase q <> Exited -> calm (set_pc h q).
Proof. intros (? & ? & ?) ?. done. Qed.

Lemma spost_inv s s' a m b sig c d : rdma_inv s a m b sig c d -> rfits s ->
  racts SPost s = Some s' -> exists a' m' b' sig',
    rdma_inv s' a' m' b' sig' c d /\ post_outcome s s' a m b sig a' m' b' sig' /\
    r_rcv s' = r_rcv s /\ r_produced s' = r_produced s /\ r_consumed s' = r_consumed s /\
    (calm (r_snd s) -> calm (r_snd s')).
Proof.
  intros Hinv Hf Ha. pose proof Hinv as [Hs Hr]. pose proof Hs as []. cbn [rdma_act_on] in Ha.
  destruct (p_phase (p_pc (r_snd s))) eqn:Eph; try done.
  assert (running (r_snd s)) as Hrun by (unfold running; by rewrite Eph).
  assert (polled (r_snd s) = []) as Hpol by (unfold polled; by rewrite Eph).
  destruct (send_post_cases s a m b sig Hs Hf)
    as [[Hfull E]|[(<- & Hb & E)|(p & fl & Hb & Hne & Hroom & Hsig & E)]]; rewrite E in Ha;
    injection Ha as <-; simpl option_list; rewrite ?app_nil_r.
  - exists a, m, b, sig. split_and!; [|by constructor|done..|by intros; apply calm_phase].
    apply snd_phase_inv; [done..|]. intros _. by rewrite Hpol.
  - exists (S a), (S m), (S a), []. assert (m = a) as -> by lia.
    apply lookup_lt_Some in Hb as Hlt.
    split_and!; [|by apply post_elides|done|done|done|by intros (? & ? & _)]. split.
    + split; cbn [r_snd r_produced sq scq c_tail c_head p_step p_pc next_post_step next_complete_step inflight];
        try done; try lia.
      * eapply window_sub; [eapply window_pc; [exact si_win0|done..]|lia|lia].
      * simpl length. lia.
      * rewrite si_sq0, drop_ge by lia. by rewrite drop_nil.
      * intros _. specialize (si_scq0 Hrun). rewrite Hpol, Nat.sub_diag, take_0 in si_scq0.
        rewrite take_nil. done.
    + cbn [r_produced]. rewrite moved_elide by done. by eapply recv_inv_other.
  - exists a, m, (S b), (sig ++ [fl]). apply lookup_lt_Some in Hb as Hlt.
    split_and!; [|by constructor|done..|by intros; apply calm_phase]. split; [|by eapply recv_inv_other].
    split; cbn [r_snd r_produced sq scq set_pc c_tail c_head p_step p_pc next_post_step next_complete_step inflight];
      try done; try lia.
    + by eapply window_pc.
    + rewrite length_app. simpl. lia.
    + intros k Hk. destruct (decide (k = b)) as [->|]; [rewrite Hb; congruence|apply si_full0; lia].
    + rewrite drop_app_le, requests_snoc, length_drop, si_sq0, si_sig0 by lia.
      replace (m + (b - a - (m - a)))%nat with b by lia.
      by rewrite (list_lookup_total_correct _ _ _ Hb).
    + intros _. rewrite take_app_le by lia. specialize (si_scq0 Hrun). by rewrite Hpol in si_scq0.
    + intros _. rewrite last_snoc. destruct Hsig as [->|]; [by left|by right].
Qed.

Lemma swc_inv s s' a m b sig c d : rdma_inv s a m b sig c d -> rfits s ->
  racts SWc s = Some s' -> exists a' sig', (a <= a' <= m)%nat /\
    rdma_inv s' a' m b sig' c d /\
    match polled (r_snd s) with
    | [] => a' = a /\ p_phase (p_pc (r_snd s')) = Waiting
    | _ :: rest => (a < a')%nat /\ p_phase (p_pc (r_snd s')) = Polled rest
    end /\
    r_rcv s' = r_rcv s /\ r_produced s' = r_produced s /\ r_consumed s' = r_consumed s /\
    (calm (r_snd s) -> calm (r_snd s')).
Proof.
  intros Hinv Hf Ha. pose proof Hinv as [Hs Hr]. pose proof Hs as []. cbn [rdma_act_on] in Ha.
  unfold rfits in Hf. destruct (p_phase (p_pc (r_snd s))) as [| | |wcs|] eqn:Eph; try done.
  assert (running (r_snd s)) as Hrun by (unfold running; by rewrite Eph).
  specialize (si_scq0 Hrun). unfold polled in *. rewrite Eph in *. destruct wcs as [|w rest]; injection Ha as <-.
  { exists a, sig. split_and!; [lia|lia| |done..|by intros; apply calm_phase].
    apply snd_phase_inv; [done..|]. intros _. unfold polled. by rewrite Eph. }
  symmetry in si_scq0. apply completions_cons in si_scq0 as (i & -> & Hi & Hrest).
  rewrite length_take in Hi. assert (i < m - a)%nat as Hi' by lia.
  assert (send_complete fifo ident (r_snd s) (2 * Z.of_nat (a + i)) rest =
    Half (mem (r_snd s)) (sizes (r_snd s)) (2 * Z.of_nat (a + S i)) (c_tail (r_snd s))
      (2 * Z.of_nat (a + S i)) (Proxy (2 * Z.of_nat b) (2 * Z.of_nat (a + S i))
        (Z.of_nat b - Z.of_nat (a + S i)) (Polled rest)) (stop_requested (r_snd s)) (errs (r_snd s))) as ->.
  { unfold send_complete, wr_id_to_slot. cbn [step_increment proxy_fifo].
    rewrite si_complete0, si_inflight0, si_post0.
    replace (2 * Z.of_nat (a + i) - 2 * Z.of_nat a) with (Z.of_nat i * kSliceSteps) by (unfold kSliceSteps; lia).
    rewrite Z.mod_mul, Z.div_mul by done. rewrite (proj2 (Z.ltb_ge _ _)) by lia. cbn [orb negb Z.eqb].
    rewrite u64_small, (proj2 (Z.ltb_ge _ _)), step_succ by lia.
    replace (a + S i)%nat with (S (a + i)) by lia. do 2 f_equal. lia. }
  exists (a + S i)%nat, (drop (S i) sig). split_and!; [lia|lia| |lia|done|done|done|done|by intros (? & ? & _)].
  split; [|by eapply recv_inv_other].
  assert (rest ++ scq s = completions (a + S i) (take (m - (a + S i)) (drop (S i) sig))) as Hrest'.
  { etrans; [exact Hrest|]. rewrite skipn_firstn_comm. do 2 f_equal. lia. }
  assert (length (drop (S i) sig) = (b - (a + S i))%nat) as Hls by (rewrite length_drop; lia).
  split; cbn [r_snd r_produced sq scq set_snd set_pc c_tail c_head p_step p_pc next_post_step next_complete_step inflight];
    try done; try lia.
  - eapply window_sub; [eapply window_pc; [exact si_win0|done..]|lia|lia].
  - intros k Hk. apply si_full0. lia.
  - rewrite si_sq0, drop_drop. do 2 f_equal. lia.
  - intros Hab. rewrite last_drop_ge by lia. destruct (si_last0 ltac:(lia)) as [?|[? ?]]; [by left|right].
    split; [lia|done].
Qed.

(** *** Receive proxy *)

Lemma receive_buffer_eq j : pre_post_recv fifo (slot j) = receive_buffer j.
Proof.
  unfold pre_post_recv, receive_buffer, slot_to_wr_id. cbn [slot_bytes proxy_fifo].
  pose proof (slot_range j). rewrite u64_small, u32_small by nia. done.
Qed.

(** The loop posts a buffer exactly while the receiver's kernel has room. *)
Lemma recv_post_cases s Q n c d : recv_inv s Q n c d -> 2 * Z.of_nat (length Q) + 16 < 2 ^ 64 ->
  let h := r_rcv s in
  (d = (length (r_consumed s) + 4)%nat /\ recv_post fifo false h = (with_phase h Polling, None)) \/
  ((d < length (r_consumed s) + 4)%nat /\ recv_post fifo false h =
     (set_pc h (Proxy (2 * Z.of_nat (S d)) (2 * Z.of_nat c) (Z.of_nat (S d) - Z.of_nat c) (p_phase (p_pc h))),
      Some (receive_buffer d))).
Proof.
  intros [] Hf. cbv zeta. unfold recv_post, recv_credit, try_elide_zero_payload.
  rewrite ri_inflight0, ri_head0, ri_post0, ri_complete0.
  change (max_inflight fifo) with 4. cbn [slot_count step_increment proxy_fifo negb].
  unfold kFifoSteps. rewrite step_succ, u64_small by lia.
  destruct (Z.ltb_spec (2 * Z.of_nat (length (r_consumed s)) + 8) (2 * Z.of_nat (S d))).
  { left. rewrite andb_false_r. split; [lia|done]. }
  right. rewrite (proj2 (Z.ltb_lt _ _)) by lia. simpl. rewrite receive_buffer_eq.
  split; [lia|]. do 3 f_equal. lia.
Qed.

Lemma recv_post_inv s Q n c d : recv_inv s Q n c d -> running (r_rcv s) ->
  (d < length (r_consumed s) + 4)%nat ->
  recv_inv (RLink (r_snd s) (set_pc (r_rcv s) (Proxy (2 * Z.of_nat (S d)) (2 * Z.of_nat c)
      (Z.of_nat (S d) - Z.of_nat c) (p_phase (p_pc (r_rcv s))))) (sq s) (scq s)
      (rq s ++ [receive_buffer d]) (rcq s) (r_produced s) (r_consumed s)) Q n c (S d).
Proof.
  intros [] Hrun Hd. split; cbn [r_rcv r_consumed rq rcq c_head c_tail p_step p_pc set_pc next_post_step
    next_complete_step inflight]; try done; try lia.
  - by eapply window_pc.
  - rewrite ri_rq0. replace (S d - n)%nat with (S (d - n)) by lia. rewrite seq_S, fmap_app. simpl.
    by replace (n + (d - n))%nat with d by lia.
Qed.

Lemma rpost_inv s s' a m b sig c d : rdma_inv s a m b sig c d -> rfits s ->
  racts RPost s = Some s' -> exists d',
    rdma_inv s' a m b sig c d' /\
    (d = d' /\ d = (length (r_consumed s) + 4)%nat /\ p_phase (p_pc (r_rcv s')) = Polling \/
     d' = S d /\ p_phase (p_pc (r_rcv s')) = Posting) /\
    r_snd s' = r_snd s /\ r_produced s' = r_produced s /\ r_consumed s' = r_consumed s /\
    (calm (r_rcv s) -> calm (r_rcv s')).
Proof.
  intros Hinv Hf Ha. pose proof Hinv as [Hs Hr]. cbn [rdma_act_on] in Ha.
  destruct (p_phase (p_pc (r_rcv s))) eqn:Eph; try done.
  assert (running (r_rcv s)) as Hrun by (unfold running; by rewrite Eph).
  destruct (recv_post_cases _ _ _ _ _ Hr (rfits_q _ Hf)) as [[Hd E]|[Hd E]]; rewrite E in Ha;
    injection Ha as <-; simpl option_list; rewrite ?app_nil_r.
  - exists d. split_and!; [|by left|done..|by intros; apply calm_phase].
    apply rcv_phase_inv; [done..|]. intros _. unfold polled. by rewrite Eph.
  - exists (S d). split_and!; [|by right|done..|by intros ?; apply calm_phase; [|simpl; rewrite Eph]].
    split; [by eapply send_inv_other|]. by apply recv_post_inv.
Qed.

Lemma rwc_inv s s' a m b sig c d : rdma_inv s a m b sig c d -> rfits s ->
  racts RWc s = Some s' -> exists c',
    rdma_inv s' a m b sig c' d /\
    match polled (r_rcv s) with
    | [] => c' = c /\ p_phase (p_pc (r_rcv s')) = Waiting
    | _ :: rest => c' = S c /\ p_phase (p_pc (r_rcv s')) = Polled rest
    end /\
    r_snd s' = r_snd s /\ r_produced s' = r_produced s /\ r_consumed s' = r_consumed s /\
    (calm (r_rcv s) -> calm (r_rcv s')).
Proof.
  intros Hinv Hf%rfits_q Ha. pose proof Hinv as [Hs Hr]. pose proof Hr as []. cbn [rdma_act_on] in Ha.
  destruct (p_phase (p_pc (r_rcv s))) as [| | |wcs|] eqn:Eph; try done.
  assert (running (r_rcv s)) as Hrun by (unfold running; by rewrite Eph).
  specialize (ri_rcq0 Hrun). unfold polled in *. rewrite Eph in *. destruct wcs as [|w rest]; injection Ha as <-.
  { exists c. split_and!; [|done..|by intros; apply calm_phase].
    apply rcv_phase_inv; [done..|]. intros _. unfold polled. by rewrite Eph. }
  set (n := moved (r_produced s) m) in *. set (Q := nonempty (r_produced s)) in *.
  destruct (n - c)%nat as [|k] eqn:Ek; [done|]. simpl in ri_rcq0. injection ri_rcq0 as -> Hrest.
  destruct (ri_placed0 c ltac:(lia)) as (q & Hq & Hqb & Hql).
  unfold recv_complete, wr_id_to_slot, receipt. cbn [rc_id rc_len slot_count step_increment proxy_fifo].
  rewrite ri_complete0, ri_post0, ri_inflight0, (list_lookup_total_correct _ _ _ Hq), step_succ by lia.
  unfold kFifoSteps. rewrite Z.eqb_refl. cbn [negb].
  exists (S c). split_and!; [|done|done|done|done|done|by intros (? & ? & _)].
  split; [by eapply send_inv_other|]. fold Q. cbn [r_produced set_rcv]. fold Q n.
  split; cbn [r_rcv r_consumed rq rcq set_rcv c_head c_tail p_step p_pc next_post_step next_complete_step inflight];
    try done; try lia.
  - intros j Hj. destruct (decide (j = c)) as [->|Hne].
    + exists q. split; [done|]. split; cbn [mem sizes]; [done|by rewrite upd_eq|done].
    + destruct (ri_win0 j ltac:(lia)) as (q' & Hq' & [Hb Hs' Hf']). exists q'. split; [done|].
      split; cbn [mem sizes]; [done| |done]. rewrite upd_ne; [done|]. apply slot_ne. lia.
  - intros j Hj. apply ri_placed0. lia.
  - intros _. unfold polled. cbn [p_pc p_phase]. replace (n - S c)%nat with k by lia. exact Hrest.
Qed.

(** *** Every step *)

(** Steps in which no library call fails and nobody asks to stop. *)
Definition rquiet (a : rdma_act) : Prop :=
  match a with
  | SThrow _ | SBadWc _ | RThrow _ | RBadWc _ | SStop _ | RStop _ => False
  | _ => True
  end.

Definition rinv (s : rdma_st) : Prop := exists a m b sig c d, rdma_inv s a m b sig c d.

Lemma rinv_intro s a m b sig c d : rdma_inv s a m b sig c d -> rinv s.
Proof. intros Hi. by exists a, m, b, sig, c, d. Qed.

(** Changes of phase keep the completions in order. *)
Lemma phase_polled {WC} (h h' : half_st (proxy WC)) (cq cq' : list WC) :
  p_phase (p_pc h) <> Exited -> polled h' ++ cq' = polled h ++ cq ->
  running h' -> running h /\ polled h' ++ cq' = polled h ++ cq.
Proof. done. Qed.

Lemma exited_polled {WC} (h h' : half_st (proxy WC)) (cq cq' : list WC) :
  p_phase (p_pc h') = Exited -> running h' -> running h /\ polled h' ++ cq' = polled h ++ cq.
Proof. unfold running. congruence. Qed.

Lemma begin_polled {WC} (h : half_st (proxy WC)) (cq : list WC) : p_phase (p_pc h) = Waiting ->
  running (rdma_begin h) -> running h /\ polled (rdma_begin h) ++ cq = polled h ++ cq.
Proof.
  intros E. apply phase_polled; [by rewrite E|]. unfold polled, rdma_begin. rewrite E. simpl.
  by destruct (_ || _).
Qed.

Lemma begin_calm {WC} (h : half_st (proxy WC)) : calm h ->
  calm (rdma_begin h) /\ p_phase (p_pc (rdma_begin h)) = Posting.
Proof. intros (Hs & He & _). unfold calm, running, rdma_begin. simpl. by rewrite Hs, He. Qed.

Lemma poll_polled {WC} (h : half_st (proxy WC)) (cq : list WC) k : p_phase (p_pc h) = Polling ->
  running (with_phase h (Polled (take k cq))) ->
  running h /\ polled (with_phase h (Polled (take k cq))) ++ drop k cq = polled h ++ cq.
Proof.
  intros E. apply phase_polled; [by rewrite E|]. unfold polled. rewrite E. simpl. apply take_drop.
Qed.

Lemma halt_core {WC} report (h : half_st (proxy WC)) : core (rdma_halt ident report h) = core h.
Proof. unfold rdma_halt. by destruct (stop_requested h). Qed.

Lemma halt_polled {WC} report (h : half_st (proxy WC)) (cq : list WC) :
  running (rdma_halt ident report h) ->
  running h /\ polled (rdma_halt ident report h) ++ cq = polled h ++ cq.
Proof. unfold rdma_halt. by destruct (stop_requested h). Qed.

(** A step that only moves one thread between phases. *)
Definition phase_act (a : rdma_act) : Prop :=
  match a with
  | SBegin | SPoll _ | SThrow _ | SBadWc _ | SStop _
  | RBegin | RPoll _ | RThrow _ | RBadWc _ | RStop _ => True
  | _ => False
  end.

Lemma phase_act_inv t s s' a m b sig c d : phase_act t -> rdma_inv s a m b sig c d ->
  racts t s = Some s' -> rdma_inv s' a m b sig c d /\
  r_produced s' = r_produced s /\ r_consumed s' = r_consumed s.
Proof.
  intros Ht Hinv Ha. destruct t; try done; cbn [rdma_act_on] in Ha.
  all: try (destruct (p_phase (p_pc _)) eqn:Eph in Ha; try done); injection Ha as <-.
  all: split; [first [apply snd_phase_inv | apply rcv_phase_inv]; [exact Hinv|..]|done].
  all: first [done | apply halt_core | apply halt_polled | by apply begin_polled
             | by apply poll_polled | by apply exited_polled].
Qed.

Lemma act_keeps t s s' a m b sig c d : rdma_inv s a m b sig c d -> rfits s ->
  racts t s = Some s' -> rinv s' /\ (rquiet t -> ralive s -> ralive s') /\
  r_produced s' = r_produced s ++ (if t is KPut p then [p] else []) /\
  (t <> KGet -> r_consumed s' = r_consumed s).
Proof.
  intros Hinv Hf Ha.
  assert (forall t', t = t' -> phase_act t' -> (rquiet t' -> ralive s -> ralive s') ->
    rinv s' /\ (rquiet t' -> ralive s -> ralive s') /\
    r_produced s' = r_produced s ++ (if t' is KPut p then [p] else []) /\
    (t' <> KGet -> r_consumed s' = r_consumed s)) as Hphase.
  { intros t' -> Hp Hal. destruct (phase_act_inv _ _ _ _ _ _ _ _ _ Hp Hinv Ha) as (Hi & HP & HC).
    split_and!; [by eapply rinv_intro|done| |done]. rewrite HP. by destruct t'; try rewrite app_nil_r. }
  unfold ralive in *. destruct t.
  - pose proof (put_inv _ _ _ _ _ _ _ _ _ Hinv Hf Ha) as Hi.
    cbn [rdma_act_on] in Ha. apply bind_Some in Ha as (sn' & Hk & [= <-]).
    split_and!; [by eapply rinv_intro| |done..]. unfold kernel_send in Hk. destruct (_ || _); [done|].
    by injection Hk as <-.
  - destruct (get_inv _ _ _ _ _ _ _ _ Hinv Hf Ha) as [Hi _].
    cbn [rdma_act_on] in Ha. apply bind_Some in Ha as ([p rc'] & Hk & [= <-]).
    split_and!; [by eapply rinv_intro| |by rewrite app_nil_r|done]. unfold kernel_recv in Hk.
    destruct (_ <? _); [done|]. by injection Hk as <- <-.
  - destruct (move_inv _ _ _ _ _ _ _ _ Hinv Ha) as [Hi _]. cbn [rdma_act_on] in Ha.
    unfold qp_move in Ha. destruct (sq s), (rq s); try done. destruct (_ <? _); [done|].
    injection Ha as <-. split_and!; [by eapply rinv_intro|done|by rewrite app_nil_r|done].
  - apply (Hphase SBegin); [done..|]. cbn [rdma_act_on] in Ha. intros _ [Hc ?].
    destruct (p_phase _); try done. injection Ha as <-. split; [by apply begin_calm|done].
  - destruct (spost_inv _ _ _ _ _ _ _ _ Hinv Hf Ha) as (? & ? & ? & ? & Hi & _ & Hr & HP & HC & Hal).
    split_and!; [by eapply rinv_intro|rewrite Hr; intros _ []; auto|by rewrite app_nil_r|done].
  - apply (Hphase (SPoll n)); [done..|]. cbn [rdma_act_on] in Ha. intros _ [Hc ?].
    destruct (p_phase _); try done. injection Ha as <-. split; [by apply calm_phase|done].
  - destruct (swc_inv _ _ _ _ _ _ _ _ Hinv Hf Ha) as (? & ? & _ & Hi & _ & Hr & HP & HC & Hal).
    split_and!; [by eapply rinv_intro|rewrite Hr; intros _ []; auto|by rewrite app_nil_r|done].
  - by apply (Hphase (SThrow what)).
  - by apply (Hphase (SBadWc reason)).
  - apply (Hphase RBegin); [done..|]. cbn [rdma_act_on] in Ha. intros _ [? Hc].
    destruct (p_phase _); try done. injection Ha as <-. split; [done|by apply begin_calm].
  - destruct (rpost_inv _ _ _ _ _ _ _ _ Hinv Hf Ha) as (? & Hi & _ & Hr & HP & HC & Hal).
    split_and!; [by eapply rinv_intro|rewrite Hr; intros _ []; auto|by rewrite app_nil_r|done].
  - apply (Hphase (RPoll n)); [done..|]. cbn [rdma_act_on] in Ha. intros _ [? Hc].
    destruct (p_phase _); try done. injection Ha as <-. split; [done|by apply calm_phase].
  - destruct (rwc_inv _ _ _ _ _ _ _ _ Hinv Hf Ha) as (? & Hi & _ & Hr & HP & HC & Hal).
    split_and!; [by eapply rinv_intro|rewrite Hr; intros _ []; auto|by rewrite app_nil_r|done].
  - by apply (Hphase (RThrow what)).
  - by apply (Hphase (RBadWc reason)).
  - by apply (Hphase (SStop report)).
  - by apply (Hphase (RStop report)).
Qed.

(** *** The initial state *)

Lemma prepare_inv fuel s c d : recv_inv s [] 0 c d -> p_phase (p_pc (r_rcv s)) = Waiting ->
  r_consumed s = [] -> (4 - d < fuel)%nat ->
  forall h l, recv_prepare fifo fuel false (r_rcv s) (rq s) = (h, l) ->
  recv_inv (RLink (r_snd s) h (sq s) (scq s) l (rcq s) (r_produced s) (r_consumed s)) [] 0 c 4.
Proof.
  revert s d. induction fuel as [|fuel IH]; intros s d Hr Hph HC Hd h l; [lia|]. cbn [recv_prepare].
  assert (running (r_rcv s)) as Hrun by (unfold running; by rewrite Hph).
  destruct (recv_post_cases s [] 0 c d Hr ltac:(done)) as [[Hd' ->]|[Hd' ->]]; rewrite HC in Hd'; simpl in Hd'.
  - cbn. intros [= <- <-]. subst d. eapply recv_same; [exact Hr|done..|]. intros _.
    split; [done|]. unfold polled. by rewrite Hph.
  - cbn [set_pc p_pc p_phase option_list]. rewrite Hph.
    pose proof (recv_post_inv s [] 0 c d Hr Hrun ltac:(rewrite HC; simpl; lia)) as Hr'.
    rewrite Hph in Hr'. intros E. apply (IH _ (S d) Hr'); [done..|lia|exact E].
Qed.

Lemma rdma_inv_init m1 z1 m2 z2 : rinv (rdma_init fifo false m1 z1 m2 z2).
Proof.
  exists 0%nat, 0%nat, 0%nat, [], 0%nat, 4%nat. unfold rdma_init.
  change (Z.to_nat (max_inflight fifo)) with 4%nat.
  destruct (recv_prepare fifo 5 false (proxy_init m2 z2) []) as [rc posted] eqn:E.
  pose proof (prepare_inv 5 (RLink (proxy_init m1 z1) (proxy_init m2 z2) [] [] [] [] [] []) 0 0) as Hp.
  split.
  - split; simpl; try done; try lia. intros k Hk. lia.
  - apply Hp; [|done..|lia|done]. split; simpl; try done; try lia; intros k Hk; lia.
Qed.

(** *** Progress *)

(** Steps of the proxies, the queue pair and the receiver's kernel. *)
Definition own (s s' : rdma_st) : Prop :=
  exists t, rquiet t /\ (forall p, t <> KPut p) /\ racts t s = Some s'.

Definition good (s : rdma_st) (a m b : nat) (sig : list bool) (c d : nat) : Prop :=
  rdma_inv s a m b sig c d /\ rfits s /\ ralive s.

Lemma own_step t s s' a m b sig c d : good s a m b sig c d ->
  rquiet t -> (forall p, t <> KPut p) -> racts t s = Some s' ->
  own s s' /\ r_produced s' = r_produced s /\ rfits s' /\ ralive s'.
Proof.
  intros (Hi & Hf & Hal) Hq Ht Ha.
  destruct (act_keeps _ _ _ _ _ _ _ _ _ Hi Hf Ha) as (_ & Hal' & HP & _).
  assert (r_produced s' = r_produced s) as E.
  { rewrite HP. destruct t; try apply app_nil_r. by destruct (Ht p). }
  unfold rfits. rewrite E. split_and!; [by exists t|done..|by apply Hal'].
Qed.

(** A phase step that is enabled. *)
Lemma own_phase t s s' a m b sig c d : good s a m b sig c d ->
  rquiet t -> phase_act t -> racts t s = Some s' ->
  own s s' /\ good s' a m b sig c d /\ r_produced s' = r_produced s /\ r_consumed s' = r_consumed s.
Proof.
  intros Hg Hq Hp Ha. destruct (own_step t s s' a m b sig c d Hg Hq) as (? & ? & ? & ?); [|done|].
  { by destruct t. }
  destruct Hg as (Hi & _). destruct (phase_act_inv _ _ _ _ _ _ _ _ _ Hp Hi Ha) as (? & ? & ?).
  by split_and!.
Qed.

(** One side works on its own: what [keep] shows of the other side stays. *)
Definition moves {A} (keep : rdma_st -> A) (s s' : rdma_st) : Prop :=
  steps own s s' /\ keep s' = keep s /\ r_produced s' = r_produced s /\ r_consumed s' = r_consumed s.

Lemma moves_refl {A} (keep : rdma_st -> A) s : moves keep s s.
Proof. by split_and!. Qed.
Lemma moves_step {A} (keep : rdma_st -> A) s s' s'' : own s s' -> keep s' = keep s ->
  r_produced s' = r_produced s -> r_consumed s' = r_consumed s -> moves keep s' s'' -> moves keep s s''.
Proof.
  intros Ho ??? (Hs & ? & ? & ?). split; [|split_and!; congruence].
  eapply steps_trans; [by apply steps_once|done].
Qed.
Lemma moves_trans {A} (keep : rdma_st -> A) s s' s'' :
  moves keep s s' -> moves keep s' s'' -> moves keep s s''.
Proof.
  intros (Hs1 & ? & ? & ?) (Hs2 & ? & ? & ?). split; [by eapply steps_trans|split_and!; congruence].
Qed.

Abbreviation recv_moves := (moves r_snd).
Abbreviation send_moves := (moves r_rcv).

Lemma rposting_ends s a m b sig c d : good s a m b sig c d -> p_phase (p_pc (r_rcv s)) = Posting ->
  exists s', recv_moves s s' /\ good s' a m b sig c (length (r_consumed s) + 4) /\
    p_phase (p_pc (r_rcv s')) = Polling.
Proof.
  remember (length (r_consumed s) + 4 - d)%nat as k eqn:Ek. revert s d Ek.
  induction k as [k IH] using lt_wf_ind. intros s d Ek Hg Hph. pose proof Hg as (Hi & Hf & Hal).
  assert (exists s1, racts RPost s = Some s1) as [s1 Ha].
  { cbn [rdma_act_on]. rewrite Hph. destruct (recv_post _ _ _). eauto. }
  destruct (own_step RPost s s1 _ _ _ _ _ _ Hg) as (Ho & HP & Hf1 & Hal1); [done..|].
  destruct (rpost_inv _ _ _ _ _ _ _ _ Hi Hf Ha) as (d1 & Hi1 & Hout & Hsn & _ & HC & _).
  pose proof (ri_nd _ _ _ _ _ (proj2 Hi1)) as Hd1. rewrite HC in Hd1.
  destruct Hout as [(<- & Hd & Hph1)|(-> & Hph1)].
  - exists s1. rewrite <- Hd. split_and!; [|done..].
    eapply moves_step; [done..|apply moves_refl].
  - destruct (IH (length (r_consumed s) + 4 - S d)%nat ltac:(lia) s1 (S d)) as (s2 & Hm & Hg2 & Hph2);
      [by rewrite HC|done|done|].
    exists s2. rewrite HC in Hg2. split_and!; [|done..]. by eapply moves_step.
Qed.

Lemma rpolled_ends ws : forall s a m b sig c d, good s a m b sig c d ->
  p_phase (p_pc (r_rcv s)) = Polled ws ->
  exists s', recv_moves s s' /\ good s' a m b sig (c + length ws) d /\
    p_phase (p_pc (r_rcv s')) = Waiting.
Proof.
  induction ws as [|w ws IH]; intros s a m b sig c d Hg Hph; pose proof Hg as (Hi & Hf & Hal);
    assert (exists s1, racts RWc s = Some s1) as [s1 Ha] by (cbn [rdma_act_on]; rewrite Hph; eauto);
    destruct (own_step RWc s s1 _ _ _ _ _ _ Hg) as (Ho & HP & Hf1 & Hal1); try done;
    destruct (rwc_inv _ _ _ _ _ _ _ _ Hi Hf Ha) as (c1 & Hi1 & Hout & Hsn & _ & HC & _);
    unfold polled in Hout; rewrite Hph in Hout; destruct Hout as [-> Hph1].
  - exists s1. rewrite Nat.add_0_r. split_and!; [|done..].
    eapply moves_step; [done..|apply moves_refl].
  - destruct (IH s1 a m b sig (S c) d) as (s2 & Hm & Hg2 & Hph2); [done..|].
    exists s2. simpl length. rewrite <- Nat.add_succ_comm. split_and!; [|done..]. by eapply moves_step.
Qed.

(** From a poll that returns everything: all slices moved are published. *)
Lemma rpolling_ends s a m b sig c d : good s a m b sig c d -> p_phase (p_pc (r_rcv s)) = Polling ->
  exists s', recv_moves s s' /\ good s' a m b sig (moved (r_produced s) m) d /\
    p_phase (p_pc (r_rcv s')) = Waiting.
Proof.
  intros Hg Hph.
  assert (exists s1, racts (RPoll 16) s = Some s1) as [s1 Ha]
    by (cbn [rdma_act_on]; rewrite Hph; eauto).
  destruct (own_phase (RPoll 16) s s1 _ _ _ _ _ _ Hg) as (Ho & Hg1 & HP & HC); [done..|].
  cbn [rdma_act_on] in Ha. rewrite Hph in Ha. injection Ha as <-.
  pose proof (proj2 (proj1 Hg1)) as [].
  specialize (ri_rcq0 ltac:(done)). pose proof (proj2 (proj1 Hg)) as Hr.
  assert (length (rcq s) = (moved (r_produced s) m - c)%nat) as Hlen.
  { pose proof (ri_rcq _ _ _ _ _ Hr) as E. unfold running, polled in E. rewrite Hph in E.
    specialize (E ltac:(done)). simpl in E. by rewrite E, length_fmap, length_seq. }
  cbn [r_produced r_consumed] in *.
  change ((16 `min` kPollBatch)%nat) with 16%nat in *. rewrite (firstn_all2 (rcq s)) in Ho, Hg1 by lia.
  edestruct rpolled_ends as (s2 & Hm & Hg2 & Hph2); [exact Hg1|done|].
  exists s2. replace (moved (r_produced s) m) with (c + length (rcq s))%nat by lia.
  split_and!; [|done..]. eapply moves_step; [exact Ho|done..].
Qed.

Lemma recv_idle s a m b sig c d : good s a m b sig c d ->
  exists s' c' d', recv_moves s s' /\ good s' a m b sig c' d' /\ p_phase (p_pc (r_rcv s')) = Waiting.
Proof.
  intros Hg. pose proof Hg as (_ & _ & _ & _ & _ & Hrun). unfold running in Hrun.
  destruct (p_phase (p_pc (r_rcv s))) as [| | |ws|] eqn:Hph; [| | | |done].
  - exists s, c, d. split_and!; [apply moves_refl|done..].
  - destruct (rposting_ends _ _ _ _ _ _ _ Hg Hph) as (s1 & Hm1 & Hg1 & Hph1).
    destruct (rpolling_ends _ _ _ _ _ _ _ Hg1 Hph1) as (s2 & Hm2 & Hg2 & Hph2).
    eexists s2, _, _. split_and!; [by eapply moves_trans|done..].
  - destruct (rpolling_ends _ _ _ _ _ _ _ Hg Hph) as (s2 & Hm2 & Hg2 & Hph2). by eexists s2, _, _.
  - destruct (rpolled_ends _ _ _ _ _ _ _ _ Hg Hph) as (s2 & Hm2 & Hg2 & Hph2). by eexists s2, _, _.
Qed.

(** The receive proxy can publish all that was moved and post all buffers. *)
Lemma recv_service s a m b sig c d : good s a m b sig c d ->
  exists s', recv_moves s s' /\
    good s' a m b sig (moved (r_produced s) m) (length (r_consumed s) + 4).
Proof.
  intros Hg. destruct (recv_idle _ _ _ _ _ _ _ Hg) as (s1 & c1 & d1 & Hm1 & Hg1 & Hph1).
  assert (exists s2, racts RBegin s1 = Some s2) as [s2 Ha] by (cbn [rdma_act_on]; rewrite Hph1; eauto).
  destruct (own_phase RBegin s1 s2 _ _ _ _ _ _ Hg1) as (Ho & Hg2 & HP & HC); [done..|].
  assert (r_snd s2 = r_snd s1 /\ p_phase (p_pc (r_rcv s2)) = Posting) as [Hsn Hph2].
  { cbn [rdma_act_on] in Ha. rewrite Hph1 in Ha. injection Ha as <-. split; [done|].
    apply begin_calm. apply Hg1. }
  destruct (rposting_ends _ _ _ _ _ _ _ Hg2 Hph2) as (s3 & Hm3 & Hg3 & Hph3).
  destruct (rpolling_ends _ _ _ _ _ _ _ Hg3 Hph3) as (s4 & Hm4 & Hg4 & Hph4).
  pose proof Hm1 as (_ & _ & HP1 & HC1). pose proof Hm3 as (_ & _ & HP3 & HC3).
  exists s4. rewrite HP3, HP, HP1, HC, HC1 in Hg4. split; [|done].
  eapply moves_trans; [done|]. eapply moves_step; [done..|]. by eapply moves_trans.
Qed.

(** The posting loop runs until it breaks; the credit moves only for slices
    that were elided. *)
Lemma sposting_ends s a m b sig c d : good s a m b sig c d -> p_phase (p_pc (r_snd s)) = Posting ->
  exists s' a' m' b' sig', send_moves s s' /\ good s' a' m' b' sig' c d /\
    p_phase (p_pc (r_snd s')) = Polling /\ send_full (r_produced s) a' b' /\
    ((a < a')%nat \/ a' = a /\ m' = m).
Proof.
  remember (length (r_produced s) - b)%nat as k eqn:Ek. revert s a m b sig Ek.
  induction k as [k IH] using lt_wf_ind. intros s a m b sig Ek Hg Hph. pose proof Hg as (Hi & Hf & Hal).
  assert (exists s1, racts SPost s = Some s1) as [s1 Ha].
  { cbn [rdma_act_on]. rewrite Hph. destruct (send_post _ _ _). eauto. }
  destruct (own_step SPost s s1 _ _ _ _ _ _ Hg) as (Ho & HP & Hf1 & Hal1); [done..|].
  destruct (spost_inv _ _ _ _ _ _ _ _ Hi Hf Ha) as (a1 & m1 & b1 & sig1 & Hi1 & Hout & Hrc & _ & HC & _).
  pose proof (si_bn _ _ _ _ _ (proj1 Hi1)) as Hb1. rewrite HP in Hb1.
  assert (forall a1 m1 sig1, rdma_inv s1 a1 m1 (S b) sig1 c d -> p_phase (p_pc (r_snd s1)) = Posting ->
    (S b <= length (r_produced s))%nat -> ((a < a1)%nat \/ a1 = a /\ m1 = m) ->
    exists s' a' m' b' sig', send_moves s s' /\ good s' a' m' b' sig' c d /\
    p_phase (p_pc (r_snd s')) = Polling /\ send_full (r_produced s) a' b' /\
    ((a < a')%nat \/ a' = a /\ m' = m)) as Hnext.
  { intros a2 m2 sig2 Hi2 Hph2 Hle Hcase.
    destruct (IH (length (r_produced s) - S b)%nat ltac:(lia) s1 a2 m2 (S b) sig2)
      as (s3 & a3 & m3 & b3 & sig3 & Hm & Hg3 & Hph3 & Hfull & Hcase3); [by rewrite HP|done|done|].
    rewrite HP in Hfull. exists s3, a3, m3, b3, sig3. split_and!; try done; [by eapply moves_step|lia]. }
  destruct Hout as [Hfull Hph1|Hph1|fl Hph1].
  - exists s1, a, m, b, sig. split_and!; try done; [|by right].
    eapply moves_step; [done..|apply moves_refl].
  - apply (Hnext (S a) (S m) []); [done|done|lia|lia].
  - apply (Hnext a m (sig ++ [fl])); [done|done|lia|by right].
Qed.

Lemma spolled_ends ws : forall s a m b sig c d, good s a m b sig c d ->
  p_phase (p_pc (r_snd s)) = Polled ws ->
  exists s' a' sig', send_moves s s' /\ good s' a' m b sig' c d /\
    p_phase (p_pc (r_snd s')) = Waiting /\ (a <= a')%nat /\ (ws <> [] -> (a < a')%nat).
Proof.
  induction ws as [|w ws IH]; intros s a m b sig c d Hg Hph; pose proof Hg as (Hi & Hf & Hal);
    assert (exists s1, racts SWc s = Some s1) as [s1 Ha] by (cbn [rdma_act_on]; rewrite Hph; eauto);
    destruct (own_step SWc s s1 _ _ _ _ _ _ Hg) as (Ho & HP & Hf1 & Hal1); try done;
    destruct (swc_inv _ _ _ _ _ _ _ _ Hi Hf Ha) as (a1 & sig1 & Hle & Hi1 & Hout & Hrc & _ & HC & _);
    unfold polled in Hout; rewrite Hph in Hout; destruct Hout as [Ha1 Hph1].
  - exists s1, a1, sig1. split_and!; [|done..|lia|done].
    eapply moves_step; [done..|apply moves_refl].
  - destruct (IH s1 a1 m b sig1 c d) as (s2 & a2 & sig2 & Hm & Hg2 & Hph2 & Hle2 & _); [done..|].
    exists s2, a2, sig2. split_and!; [by eapply moves_step|done..|lia|lia].
Qed.

(** A poll that returns everything; the credit moves when a completion was
    there. *)
Lemma spolling_ends s a m b sig c d : good s a m b sig c d -> p_phase (p_pc (r_snd s)) = Polling ->
  exists s' a' sig', send_moves s s' /\ good s' a' m b sig' c d /\
    p_phase (p_pc (r_snd s')) = Waiting /\ (a <= a')%nat /\
    (completions a (take (m - a) sig) <> [] -> (a < a')%nat).
Proof.
  intros Hg Hph.
  assert (exists s1, racts (SPoll 16) s = Some s1) as [s1 Ha]
    by (cbn [rdma_act_on]; rewrite Hph; eauto).
  destruct (own_phase (SPoll 16) s s1 _ _ _ _ _ _ Hg) as (Ho & Hg1 & HP & HC); [done..|].
  cbn [rdma_act_on] in Ha. rewrite Hph in Ha. injection Ha as <-. cbn [r_produced r_consumed] in *.
  pose proof (proj1 (proj1 Hg)) as [].
  assert (scq s = completions a (take (m - a) sig)) as Hcq.
  { unfold running, polled in si_scq0. rewrite Hph in si_scq0. by specialize (si_scq0 ltac:(done)). }
  pose proof (length_completions a (take (m - a) sig)) as Hlen. rewrite length_take in Hlen.
  change ((16 `min` kPollBatch)%nat) with 16%nat in *.
  rewrite (firstn_all2 (scq s)) in Ho, Hg1 by (rewrite Hcq; lia).
  edestruct spolled_ends as (s2 & a2 & sig2 & Hm & Hg2 & Hph2 & Hle & Hlt); [exact Hg1|done|].
  exists s2, a2, sig2. rewrite <- Hcq. split_and!; [|done..].
  eapply moves_step; [exact Ho|done..].
Qed.

(** With everything posted moved, a turn of the send proxy returns credit,
    posts a request, or nothing is left to send. *)
Definition send_result (s : rdma_st) (a m c d : nat) : Prop :=
  exists s' a' m' b' sig', send_moves s s' /\ good s' a' m' b' sig' c d /\
    ((a < a')%nat \/ a' = a /\ m' = m /\ ((m' < b')%nat \/ a' = b' /\ b' = length (r_produced s))).

Lemma send_result_after s s1 a m c d : send_moves s s1 -> send_result s1 a m c d ->
  send_result s a m c d.
Proof.
  intros Hm (s2 & a2 & m2 & b2 & sig2 & Hm2 & Hg2 & Hc). pose proof Hm as (_ & _ & HP & _).
  exists s2, a2, m2, b2, sig2. rewrite <- HP. split_and!; [by eapply moves_trans|done..].
Qed.

Lemma last_signaled k sig : last sig = Some true -> completions k sig <> [].
Proof.
  intros [l ->]%last_Some. rewrite completions_snoc. intros [_ E]%app_eq_nil. done.
Qed.

Lemma sposting_result s a m b sig c d : good s a m b sig c d ->
  p_phase (p_pc (r_snd s)) = Posting -> send_result s a m c d.
Proof.
  intros Hg Hph. destruct (sposting_ends _ _ _ _ _ _ _ Hg Hph)
    as (s1 & a1 & m1 & b1 & sig1 & Hm1 & Hg1 & Hph1 & Hfull & Hcase).
  pose proof Hm1 as (_ & _ & HP & _). pose proof (proj1 (proj1 Hg1)) as [].
  destruct Hcase as [Hlt|[-> ->]].
  { exists s1, a1, m1, b1, sig1. split_and!; [done..|by left]. }
  destruct (decide (m < b1)%nat) as [Hlt|Hge].
  { exists s1, a, m, b1, sig1. split_and!; [done..|right]. auto. }
  assert (m = b1) as -> by lia. rewrite HP in *.
  destruct (decide (a = b1)) as [->|Hne].
  { exists s1, b1, b1, b1, sig1. split_and!; [done..|right]. split_and!; [done..|right].
    unfold send_full in Hfull. split; [done|lia]. }
  destruct (spolling_ends _ _ _ _ _ _ _ Hg1 Hph1) as (s2 & a2 & sig2 & Hm2 & Hg2 & Hph2 & _ & Hlt).
  exists s2, a2, b1, b1, sig2. split_and!; [by eapply moves_trans|done|left]. apply Hlt.
  rewrite take_ge by lia. apply last_signaled.
  destruct (si_last0 ltac:(lia)) as [?|[? Hz]]; [done|exfalso].
  destruct Hfull as [?|[?|[_ ?]]]; [lia|lia|done].
Qed.

Lemma swaiting_result s a m b sig c d : good s a m b sig c d ->
  p_phase (p_pc (r_snd s)) = Waiting -> send_result s a m c d.
Proof.
  intros Hg Hph.
  assert (exists s2, racts SBegin s = Some s2) as [s2 Ha] by (cbn [rdma_act_on]; rewrite Hph; eauto).
  destruct (own_phase SBegin s s2 _ _ _ _ _ _ Hg) as (Ho & Hg2 & HP & HC); [done..|].
  assert (r_rcv s2 = r_rcv s /\ p_phase (p_pc (r_snd s2)) = Posting) as [Hrc Hph2].
  { cbn [rdma_act_on] in Ha. rewrite Hph in Ha. injection Ha as <-. split; [done|].
    apply begin_calm. apply Hg. }
  eapply send_result_after; [|by eapply sposting_result].
  eapply moves_step; [done..|apply moves_refl].
Qed.

Lemma send_service s a m b sig c d : good s a m b sig c d -> send_result s a m c d.
Proof.
  intros Hg. pose proof Hg as (_ & _ & (_ & _ & Hrun) & _). unfold running in Hrun.
  assert (forall s' a' sig', send_moves s s' -> good s' a' m b sig' c d ->
    p_phase (p_pc (r_snd s')) = Waiting -> (a <= a')%nat -> send_result s a m c d) as Hidle.
  { intros s' a' sig' Hm Hg' Hph Hle. destruct (decide (a = a')) as [<-|Hne].
    - eapply send_result_after; [exact Hm|]. by eapply swaiting_result.
    - exists s', a', m, b, sig'. split_and!; [done..|left; lia]. }
  destruct (p_phase (p_pc (r_snd s))) as [| | |ws|] eqn:Hph; [| | | |done].
  - by eapply swaiting_result.
  - by eapply sposting_result.
  - destruct (spolling_ends _ _ _ _ _ _ _ Hg Hph) as (s1 & a1 & sig1 & ? & ? & ? & ? & _). by eapply Hidle.
  - destruct (spolled_ends _ _ _ _ _ _ _ _ Hg Hph) as (s1 & a1 & sig1 & ? & ? & ? & ? & _). by eapply Hidle.
Qed.

(** What is left: slices to take and credit to return. *)
Definition left_over (s : rdma_st) (a : nat) : nat :=
  (length (nonempty (r_produced s)) - length (r_consumed s) + (length (r_produced s) - a))%nat.

Definition less_left (s : rdma_st) (a : nat) : Prop :=
  exists s' a' m' b' sig' c' d', steps own s s' /\ r_produced s' = r_produced s /\
    good s' a' m' b' sig' c' d' /\ (left_over s' a' < left_over s a)%nat.

(** With a slice published, the receiver's kernel takes it. *)
Lemma get_advances s a m b sig c d : good s a m b sig c d ->
  (length (r_consumed s) < c)%nat -> less_left s a.
Proof.
  intros Hg Hlt. pose proof Hg as (Hi & Hf & Hal). pose proof (proj2 Hi) as [].
  pose proof (rfits_q _ Hf) as Hfq.
  assert (exists s1, racts KGet s = Some s1) as [s1 Ha].
  { cbn [rdma_act_on]. unfold kernel_recv. rewrite ri_tail0, ri_head0.
    cbn [step_increment proxy_fifo]. rewrite step_succ by lia.
    rewrite (proj2 (Z.ltb_ge _ _)) by lia. simpl. eauto. }
  destruct (own_step KGet s s1 _ _ _ _ _ _ Hg) as (Ho & HP & Hf1 & Hal1); [done..|].
  destruct (get_inv _ _ _ _ _ _ _ _ Hi Hf Ha) as (Hi1 & q & Hq & HC).
  exists s1, a, m, b, sig, c, d. split_and!; [by apply steps_once|done..|].
  unfold left_over. rewrite HP, HC, length_app. simpl. lia.
Qed.

Lemma less_left_after {A} (keep : rdma_st -> A) s s1 a : moves keep s s1 ->
  less_left s1 a -> less_left s a.
Proof.
  intros (Hs & _ & HP & HC) (s2 & a2 & m2 & b2 & sig2 & c2 & d2 & Hs2 & HP2 & Hg2 & Hlt).
  exists s2, a2, m2, b2, sig2, c2, d2. split_and!; [by eapply steps_trans|congruence|done|].
  unfold left_over in *. by rewrite <- HP, <- HC.
Qed.

(** With buffers posted, a request in flight reaches the receiver's kernel. *)
Lemma deliver_advances s a m b sig c : good s a m b sig c (length (r_consumed s) + 4) ->
  moved (r_produced s) m = length (r_consumed s) -> (m < b)%nat -> less_left s a.
Proof.
  intros Hg Hn Hlt. pose proof Hg as (Hi & Hf & Hal). pose proof (proj1 Hi) as []. pose proof (proj2 Hi) as [].
  assert (exists s1, racts Move s = Some s1) as [s1 Ha].
  { cbn [rdma_act_on]. unfold qp_move. rewrite si_sq0, ri_rq0, Hn.
    destruct (drop (m - a) sig) as [|fl fs] eqn:Ed.
    { apply (f_equal length) in Ed. rewrite length_drop in Ed. simpl in Ed. lia. }
    rewrite Nat.add_comm, Nat.add_sub. simpl.
    destruct (lookup_lt_is_Some_2 (r_produced s) m ltac:(lia)) as [p Hp].
    rewrite (list_lookup_total_correct _ _ _ Hp).
    destruct (window_size _ _ _ _ m p si_win0 ltac:(lia) Hp). rewrite (proj2 (Z.ltb_ge _ _)) by lia. eauto. }
  destruct (own_step Move s s1 _ _ _ _ _ _ Hg) as (Ho & HP & Hf1 & Hal1); [done..|].
  destruct (move_inv _ _ _ _ _ _ _ _ Hi Ha) as (Hi1 & _).
  assert (r_consumed s1 = r_consumed s) as HC.
  { destruct (act_keeps _ _ _ _ _ _ _ _ _ Hi Hf Ha) as (_ & _ & _ & E). by apply E. }
  destruct (recv_service s1 a (S m) b sig c (length (r_consumed s) + 4)) as (s2 & Hm2 & Hg2); [done|].
  eapply (less_left_after (fun _ => tt)).
  { eapply moves_step; [exact Ho|done..|]. pose proof Hm2 as (? & _ & ? & ?). by split_and!. }
  pose proof Hm2 as (_ & _ & HP2 & HC2). eapply get_advances; [exact Hg2|]. rewrite HC2, HC, HP.
  pose proof (ri_nq _ _ _ _ _ (proj2 (proj1 Hg2))) as Hnq.
  destruct (lookup_lt_is_Some_2 (r_produced s) m ltac:(lia)) as [p Hp].
  assert (p <> []) as Hne by (intros ->; by apply (si_full0 m ltac:(lia))).
  destruct (nonempty_lookup _ _ _ Hp Hne) as [E _]. unfold moved in *. rewrite E, length_app. simpl. lia.
Qed.

Lemma rdma_advance s a m b sig c d : good s a m b sig c d ->
  (r_consumed s = nonempty (r_produced s) /\ a = length (r_produced s)) \/ less_left s a.
Proof.
  intros Hg. destruct (recv_service _ _ _ _ _ _ _ Hg) as (s1 & Hm1 & Hg1).
  pose proof Hm1 as (_ & _ & HP1 & HC1). rewrite <- HP1, <- HC1 in Hg1.
  pose proof (proj2 (proj1 Hg1)) as []. pose proof (proj1 (proj1 Hg1)) as [].
  destruct (decide (length (r_consumed s1) < moved (r_produced s1) m)%nat) as [Hlt|Hge].
  { right. eapply less_left_after; [exact Hm1|]. by eapply get_advances. }
  assert (moved (r_produced s1) m = length (r_consumed s1)) as Hn by lia. clear Hge.
  destruct (send_service _ _ _ _ _ _ _ Hg1) as (s2 & a2 & m2 & b2 & sig2 & Hm2 & Hg2 & Hcase).
  pose proof Hm2 as (_ & _ & HP2 & HC2). rewrite <- HP2 in Hn, Hg2, Hcase.
  rewrite <- HC2 in Hn, Hg2.
  pose proof (proj1 (proj1 Hg2)) as Hs2. pose proof (si_bn _ _ _ _ _ Hs2) as Hbn.
  pose proof (si_am _ _ _ _ _ Hs2).
  destruct Hcase as [Hlt|(-> & -> & [Hlt|[<- Hb]])].
  - right. eapply less_left_after; [exact Hm1|]. pose proof Hm2 as (Hst & _).
    exists s2, a2, m2, b2, sig2, (moved (r_produced s2) m), (length (r_consumed s2) + 4)%nat.
    split_and!; [done..|]. unfold left_over. rewrite HP2 in *. rewrite HC2. lia.
  - right. eapply less_left_after; [exact Hm1|]. eapply less_left_after; [exact Hm2|].
    eapply deliver_advances; [exact Hg2|done|done].
  - left. rewrite <- HP1, <- HC1, <- HP2, <- HC2.
    assert (m = a) as -> by lia. rewrite Hb in Hn. unfold moved in Hn. rewrite firstn_all in Hn.
    split; [|done].
    assert (r_consumed s2 = take (length (r_consumed s2)) (nonempty (r_produced s2))) as ->
      by (rewrite HC2, HP2; exact ri_cons0). apply take_ge. lia.
Qed.
End RdmaInv.

(** ** The theorems *)

(** Slices handed over, not empty and not yet taken. *)
Definition rdma_in_flight (s : rdma_st) : list bytes :=
  drop (length (r_consumed s)) (nonempty (r_produced s)).

Section RdmaTheorems.
Context (sb : Z) (Hsb : 0 < sb < 2 ^ 32) (ident : RdmaProxyIdentity).
Context (m1 z1 m2 z2 : Z -> Z).

Abbreviation fifo := (proxy_fifo sb).
Abbreviation rstep := (rdma_step fifo ident false).
Abbreviation rstart := (rdma_init fifo false m1 z1 m2 z2).

Lemma rsteps_inv s : steps rstep rstart s -> rfits s -> rinv sb s.
Proof.
  intros Hst. remember rstart as s0 eqn:E0.
  induction Hst as [|s1 s2 s3 _ IH Hs]; intros Hf; [subst; by apply rdma_inv_init|].
  destruct Hs as [t s2 s3 Ha].
  assert (rfits s2) as Hf2.
  { unfold rfits in *. enough (length (r_produced s2) <= length (r_produced s3))%nat by lia.
    destruct s2. destruct t; cbn [rdma_act_on] in Ha; unfold qp_move in Ha; simplify_option_eq;
      repeat case_match; simplify_eq; simpl; rewrite ?length_app; lia. }
  destruct (IH E0 Hf2) as (a & m & b & sig & c & d & Hi).
  by destruct (act_keeps sb Hsb ident _ _ _ _ _ _ _ _ _ Hi Hf2 Ha).
Qed.

(** C17: The two RDMA proxies and the queue pair refine a queue of slices: in every
    reachable state, whatever the interleaving, the number of requests in
    flight and the choice of signaled requests, and also after failures and
    stops, a step of the sender's kernel appends its slice unless it is empty,
    a step of the receiver's kernel takes exactly the oldest slice, byte for
    byte, and every other step leaves the queue as it is. *)
Theorem rdma_link_queue s s' a :
  steps rstep rstart s -> 2 * Z.of_nat (length (r_produced s)) + 16 < 2 ^ 64 ->
  rdma_act_on fifo ident false a s = Some s' ->
  match a with
  | KPut p => rdma_in_flight s' = rdma_in_flight s ++ (if decide (p = []) then [] else [p]) /\
              r_consumed s' = r_consumed s
  | KGet => exists p, rdma_in_flight s = p :: rdma_in_flight s' /\ r_consumed s' = r_consumed s ++ [p]
  | _ => rdma_in_flight s' = rdma_in_flight s /\ r_consumed s' = r_consumed s
  end.
Proof.
  intros Hst Hf Ha. destruct (rsteps_inv _ Hst Hf) as (na & m & b & sig & c & d & Hi).
  destruct (act_keeps sb Hsb ident _ _ _ _ _ _ _ _ _ Hi Hf Ha) as (_ & _ & HP & HC).
  pose proof (recv_count _ _ _ _ _ _ (proj2 Hi)) as Hle. unfold rdma_in_flight.
  destruct a; try (rewrite HC, HP, app_nil_r by done; done).
  - rewrite HC, HP by done. split; [|done]. case_decide as Hp.
    + subst. by rewrite nonempty_snoc_nil, app_nil_r.
    + by rewrite nonempty_snoc, drop_app_le by done.
  - destruct (get_inv sb Hsb ident _ _ _ _ _ _ _ _ Hi Hf Ha) as (_ & q & Hq & HC').
    exists q. rewrite HP, HC', app_nil_r, length_app, Nat.add_1_r. split; [by apply drop_S|done].
Qed.

(** The bookkeeping of the proxies never raises an error of its own: from a
    reachable state in which nothing failed and no stop was requested, a step
    that is not a failing library call or a stop leads to such a state, so no
    completion arrives for an unexpected step or slot, none advances past the
    requests in flight, and no payload exceeds its slot. *)
Theorem rdma_link_never_fails s s' a :
  steps rstep rstart s -> 2 * Z.of_nat (length (r_produced s)) + 16 < 2 ^ 64 -> ralive s ->
  rquiet a -> rdma_act_on fifo ident false a s = Some s' -> ralive s'.
Proof.
  intros Hst Hf Hal Hq Ha. destruct (rsteps_inv _ Hst Hf) as (na & m & b & sig & c & d & Hi).
  destruct (act_keeps sb Hsb ident _ _ _ _ _ _ _ _ _ Hi Hf Ha) as (_ & Hal' & _). auto.
Qed.

(** C18: The RDMA path cannot get stuck, although only some requests are signaled
    and empty slices wait for earlier completions: from every reachable state
    in which nothing failed and no stop was requested, the proxies, the queue
    pair and the receiver's kernel can go on until every slice that is not
    empty has been taken, in order, all credit has been returned to the
    sender, and both [drain] loops return. *)
Theorem rdma_link_drains s :
  steps rstep rstart s -> 2 * Z.of_nat (length (r_produced s)) + 16 < 2 ^ 64 -> ralive s ->
  exists s', steps rstep s s' /\ r_produced s' = r_produced s /\
    r_consumed s' = nonempty (r_produced s) /\
    send_drained (r_snd s') = true /\ recv_drained (r_rcv s') = true.
Proof.
  intros Hst Hf Hal. pose proof (rsteps_inv _ Hst Hf) as Hinv.
  set (m := fun s : rdma_st => left_over s (Z.to_nat (c_head (r_snd s) / 2))).
  assert (forall s a mm b sig c d, good sb s a mm b sig c d -> m s = left_over s a) as Hm.
  { intros s0 a mm b sig c d ([[] _] & _). unfold m. rewrite si_head0.
    by rewrite Z.mul_comm, Z.div_mul, Nat2Z.id by lia. }
  destruct (steps_terminate (own sb ident)
    (fun s1 => rinv sb s1 /\ rfits s1 /\ ralive s1 /\ r_produced s1 = r_produced s)
    (fun s1 => r_consumed s1 = nonempty (r_produced s1) /\
               c_head (r_snd s1) = 2 * Z.of_nat (length (r_produced s1))) m)
    with (s := s) as (s' & Hs' & Hc' & Hd').
  - intros s1 s2 ((a & mm & b & sig & c & d & Hi) & Hf1 & Hal1 & HP) (t & Hq & Hk & Ha).
    destruct (own_step sb Hsb ident t s1 s2 a mm b sig c d) as (_ & HP2 & ? & ?); [done..|].
    destruct (act_keeps sb Hsb ident _ _ _ _ _ _ _ _ _ Hi Hf1 Ha) as (Hi2 & _).
    split_and!; [done..|congruence].
  - intros s1 ((a & mm & b & sig & c & d & Hi) & Hf1 & Hal1 & HP).
    destruct (rdma_advance sb Hsb ident s1 a mm b sig c d)
      as [[Hc Ha]|(s2 & a2 & m3 & b2 & sig2 & c2 & d2 & Hst2 & HP2 & Hg2 & Hlt)]; [done|left|right].
    { split; [done|]. by rewrite (si_head _ _ _ _ _ _ (proj1 Hi)), Ha. }
    exists s2. split; [done|]. by rewrite (Hm _ _ _ _ _ _ _ Hg2), (Hm s1 a mm b sig c d).
  - done.
  - assert (forall s1 s2, rinv sb s1 -> rfits s1 -> steps (own sb ident) s1 s2 ->
      steps rstep s1 s2 /\ r_produced s2 = r_produced s1 /\ rinv sb s2) as Hemb.
    { intros s1 s2 Hi1 Hf1 H12. induction H12 as [|s1 s2 s3 _ IH (t & Hq & Hk & Ha)]; [done|].
      destruct (IH Hi1 Hf1) as (IH1 & IH2 & a & mm & b & sig & c & d & Hi2).
      assert (rfits s2) as Hf2 by (unfold rfits; by rewrite IH2).
      destruct (act_keeps sb Hsb ident _ _ _ _ _ _ _ _ _ Hi2 Hf2 Ha) as (Hi3 & _ & HP & _).
      split_and!; [eapply steps_snoc; [done|by econstructor]| |done].
      rewrite HP, IH2. destruct t; try apply app_nil_r. by destruct (Hk p). }
    destruct (Hemb _ _ Hinv Hf Hs') as (Hst' & Hp' & a & mm & b & sig & c & d & Hi).
    exists s'. split_and!; [done|done|by rewrite Hc', Hp'| |].
    + unfold send_drained. rewrite Hd', (si_tail _ _ _ _ _ _ (proj1 Hi)), Z.ltb_irrefl. by rewrite orb_true_r.
    + unfold recv_drained. pose proof (proj2 Hi) as []. rewrite ri_head0, ri_tail0.
      rewrite (proj2 (Z.ltb_ge _ _)) by lia. by rewrite orb_true_r.
Qed.
End RdmaTheorems.

Module RdmaWitness.
Definition zero (_ : Z) : Z := 0.
Definition who : RdmaProxyIdentity := Identity 0 1 0.
Definition start : rdma_st := rdma_init (proxy_fifo 16) false zero zero zero zero.

(** Three slices, the second empty: the first two requests are in flight or
    waiting for the completion of the first. *)
Definition acts : list rdma_act :=
  [KPut [1; 2; 3]; KPut []; KPut [4; 5]; SBegin; SPost; SPost; Move; SPoll 0].
Definition midway : rdma_st :=
  default start (run_list (rdma_act_on (proxy_fifo 16) who false) acts start).

Lemma rdma_midway_steps : steps (rdma_step (proxy_fifo 16) who false) start midway.
Proof.
  apply (run_list_steps (rdma_act_on (proxy_fifo 16) who false) _ acts); [|vm_compute; reflexivity].
  apply Forall_forall. intros a _. apply rdma_step_act.
Qed.

Lemma rdma_midway_alive : ralive midway.
Proof. split_and!; vm_compute; done. Qed.

Lemma rdma_link_queue_witness :
  exists s', rdma_act_on (proxy_fifo 16) who false SWc midway = Some s' /\
    rdma_in_flight s' = [[1; 2; 3]; [4; 5]].
Proof.
  eexists. split; [reflexivity|].
  exact (proj1 (rdma_link_queue 16 ltac:(lia) who zero zero zero zero midway _ SWc
    rdma_midway_steps ltac:(done) eq_refl)).
Defined.

Lemma rdma_link_never_fails_witness :
  exists s', rdma_act_on (proxy_fifo 16) who false SWc midway = Some s' /\ ralive s'.
Proof.
  eexists. split; [reflexivity|].
  exact (rdma_link_never_fails 16 ltac:(lia) who zero zero zero zero midway _ SWc
    rdma_midway_steps ltac:(done) rdma_midway_alive I eq_refl).
Defined.

Lemma rdma_link_drains_witness :
  exists s', steps (rdma_step (proxy_fifo 16) who false) midway s' /\
    r_consumed s' = [[1; 2; 3]; [4; 5]].
Proof.
  destruct (rdma_link_drains 16 ltac:(lia) who zero zero zero zero midway rdma_midway_steps
    ltac:(done) rdma_midway_alive) as (s' & Hs & Hp & Hc & _).
  exists s'. split; [exact Hs|]. rewrite Hc. reflexivity.
Defined.
End RdmaWitness.
