(* ===== verification/RdmaWrite.v ===== *)
(** * The RDMA proxies of one ring edge and channel, WRITE+CTS data plane

    src/transport/rdma/rdma_proxy.cc with NANO_NCCL_RDMA_USE_WRITE: the receive
    proxy grants slots by writing clear-to-send records into the memory of the
    sender, the send proxy writes a slice straight into the granted slot with
    an immediate that carries its size.

    The proxies, the kernels and the queue pair interleave freely.  Posting a
    write and clearing the record it used are two steps of the send proxy. *)

From Stdlib Require Import ZArith Lia.
From stdpp Require Import base option numbers tactics strings list pretty.
From S2P Require Import Prelude Types Geometry Wire SocketProxy RdmaProxy.

#[local] Open Scope Z_scope.

(** ** Records and work requests *)

(** [RdmaCtsSlot]; the reserved word is left out. *)
Record RdmaCtsSlot := Cts {
  cts_raddr : Z; cts_rkey : Z; cts_nbytes : Z; cts_step_tag : Z; cts_ready : Z }.
Definition kCtsSlotBytes : Z := 32.

(** The high bit of [wr_id] marks completions of clear-to-send writes. *)
Definition kCtsWrIdBit : Z := 2 ^ 63.
Definition is_cts_wr_id (wr_id : Z) : bool := negb (Z.land wr_id kCtsWrIdBit =? 0).
Definition make_cts_wr_id (step : Z) : Z := Z.lor kCtsWrIdBit step.
Definition cts_wr_id_to_step (wr_id : Z) : Z := Z.land wr_id (u64 (Z.lnot kCtsWrIdBit)).

(** A data write; a clear-to-send write, whose record is sent inline; a
    completion on the queue of the receiver, with the immediate of a data
    write. *)
Record write_wr := WriteWr {
  ww_id : Z; ww_addr : Z; ww_length : Z; ww_signaled : bool;
  ww_imm : Z; ww_raddr : Z; ww_rkey : Z }.
Record cts_wr := CtsWr { cw_id : Z; cw_record : RdmaCtsSlot; cw_addr : Z; cw_signaled : bool }.
Record write_wc := WriteWc { wc_id : Z; wc_imm : option Z }.

(** The counters of the receive proxy for its grants; [cts_loop] holds in the
    first of the two posting loops of a turn. *)
Record cts_counters := CtsCounters {
  next_cts_step : Z; next_cts_complete_step : Z; inflight_cts : Z; cts_loop : bool }.

Abbreviation write_recv_half := (half_st (proxy write_wc)).

(** [w_cts]: the records in the sender's memory; [clearing]: the slot whose
    record the send proxy is about to clear; [w_sq], [w_rq], [w_cq]: data
    writes, receives for immediates (by step) and clear-to-send writes that
    were posted; [w_scq], [w_rcq]: completions not polled yet. *)
Record write_st := WLink {
  w_snd : send_half; w_cts : Z -> RdmaCtsSlot; clearing : option Z;
  w_rcv : write_recv_half; w_grants : cts_counters;
  w_sq : list write_wr; w_scq : list Z;
  w_rq : list Z; w_cq : list cts_wr; w_rcq : list write_wc;
  w_produced : list bytes; w_consumed : list bytes }.

Section Write.
Context (f : RdmaProxyFifo) (ident : RdmaProxyIdentity).
(** [local_recv_fifo_addr], [local_recv_fifo_rkey], [remote_cts_addr]; both
    sides have [cts_slot_count] records. *)
Context (recv_addr recv_rkey cts_addr : Z) (cts_slot_count : Z).

Abbreviation step_inc := (step_increment f).

(** ** [RdmaSendProxy::progress_write_cts] *)

(** One turn of the posting loop, up to the return of [ibv_post_send]. *)
Definition write_post (h : send_half) (cts : Z -> RdmaCtsSlot) : send_half * option write_wr :=
  let q := p_pc h in
  if negb (inflight q <? max_inflight f) then (with_phase h Polling, None) else
  let slot := next_post_step q mod slot_count f in
  let tail := c_tail h in
  if negb (next_post_step q <? tail) then (with_phase h Polling, None) else
  let payload_bytes := sizes h slot in
  if slot_bytes f <? payload_bytes
  then (rdma_throw ident h "rdma proxy send payload exceeds FIFO capacity", None) else
  if payload_bytes =? 0 then
    if negb (next_post_step q =? next_complete_step q) then (with_phase h Polling, None)
    else let complete := u64 (next_complete_step q + step_inc) in
         (Half (mem h) (sizes h) (u64 (next_post_step q + step_inc)) (c_tail h) complete
            (Proxy (u64 (next_post_step q + step_inc)) complete (inflight q) Posting)
            (stop_requested h) (errs h), None)
  else
  if cts_slot_count <=? slot
  then (rdma_throw ident h "rdma WriteCts slot exceeds CTS FIFO", None) else
  let c := cts slot in
  let step_tag := if cts_ready c =? 1 then cts_step_tag c else 0 in
  if negb ((cts_ready c =? 1) && (step_tag =? next_post_step q)) then
    if (cts_ready c =? 1) && negb (step_tag =? next_post_step q)
    then (rdma_throw ident h "rdma WriteCts CTS step_tag mismatch", None)
    else (with_phase h Polling, None)
  else
  if (cts_raddr c =? 0) || (cts_nbytes c <? payload_bytes)
  then (rdma_throw ident h "rdma WriteCts CTS target invalid for payload", None) else
  let post_step := next_post_step q in
  let more_pending := u64 (post_step + step_inc) <? tail in
  let next_zero_needs_head :=
    more_pending && (sizes h (u64 (post_step + step_inc) mod slot_count f) =? 0) in
  let signal := (max_inflight f <=? inflight q + 1) || negb more_pending ||
                next_zero_needs_head || ((post_step / step_inc) mod kSignalEvery =? 0) in
  (set_pc h (Proxy (u64 (post_step + step_inc)) (next_complete_step q) (inflight q + 1) Posting),
   Some (WriteWr (slot_to_wr_id post_step) (u64 (slot * slot_bytes f)) payload_bytes signal
           (htonl payload_bytes) (cts_raddr c) (cts_rkey c))).

(** [ready] is cleared after the post. *)
Definition clear_ready (cts : Z -> RdmaCtsSlot) (slot : Z) : Z -> RdmaCtsSlot :=
  let c := cts slot in
  upd cts slot (Cts (cts_raddr c) (cts_rkey c) (cts_nbytes c) (cts_step_tag c) 0).

Definition write_complete (h : send_half) (wr_id : Z) (rest : list Z) : send_half :=
  let q := p_pc h in
  let completed_through := wr_id_to_slot wr_id in
  if (completed_through <? next_complete_step q) ||
     negb ((completed_through - next_complete_step q) mod step_inc =? 0)
  then rdma_throw ident h "rdma WriteCts send completion has unexpected step" else
  let advanced := u64 ((completed_through - next_complete_step q) / step_inc + 1) in
  if inflight q <? advanced
  then rdma_throw ident h "rdma WriteCts send completion advances past inflight" else
  let complete := u64 (completed_through + step_inc) in
  Half (mem h) (sizes h) complete (c_tail h) complete
    (Proxy (next_post_step q) complete (inflight q - advanced) (Polled rest))
    (stop_requested h) (errs h).

(** ** [RdmaRecvProxy::progress_write_cts] *)

Definition post_cts (h : write_recv_half) (g : cts_counters) (step : Z) : cts_wr :=
  let slot := step mod cts_slot_count in
  let record := Cts (u64 (recv_addr + slot * slot_bytes f)) recv_rkey (u32 (slot_bytes f)) step 1 in
  let more_credit :=
    (inflight_cts g + 1 <? max_inflight f) &&
    negb (u64 (c_head h + slot_count f) <? u64 (step + 2 * step_inc)) in
  let signal := (max_inflight f <=? inflight_cts g + 1) || negb more_credit ||
                ((step / step_inc) mod kSignalEvery =? 0) in
  CtsWr (make_cts_wr_id step) record (u64 (cts_addr + slot * kCtsSlotBytes)) signal.

(** One turn of the loop that grants slots. *)
Definition grant_post (h : write_recv_half) (g : cts_counters) : cts_counters * option cts_wr :=
  if (inflight_cts g <? max_inflight f) &&
     negb (u64 (c_head h + slot_count f) <? u64 (next_cts_step g + step_inc))
  then (CtsCounters (u64 (next_cts_step g + step_inc)) (next_cts_complete_step g)
          (inflight_cts g + 1) (cts_loop g),
        Some (post_cts h g (next_cts_step g)))
  else (CtsCounters (next_cts_step g) (next_cts_complete_step g) (inflight_cts g) false, None).

(** One turn of the loop that posts receives for immediates
    ([pre_post_imm_recv]): the step is the [wr_id]. *)
Definition imm_post (h : write_recv_half) : write_recv_half * option Z :=
  let q := p_pc h in
  if (inflight q <? max_inflight f) &&
     negb (u64 (c_head h + slot_count f) <? u64 (next_post_step q + step_inc))
  then (set_pc h (Proxy (u64 (next_post_step q + step_inc)) (next_complete_step q)
                    (inflight q + 1) (p_phase q)), Some (slot_to_wr_id (next_post_step q)))
  else (with_phase h Polling, None).

(** The completion of a clear-to-send write covers the earlier ones. *)
Definition cts_complete (h : write_recv_half) (g : cts_counters) (wr_id : Z)
    (rest : list write_wc) : write_recv_half * cts_counters :=
  let completed_through := cts_wr_id_to_step wr_id in
  if (completed_through <? next_cts_complete_step g) ||
     negb ((completed_through - next_cts_complete_step g) mod step_inc =? 0)
  then (rdma_throw ident h "rdma WriteCts CTS completion has unexpected step", g) else
  let advanced := u64 ((completed_through - next_cts_complete_step g) / step_inc + 1) in
  if inflight_cts g <? advanced
  then (rdma_throw ident h "rdma WriteCts CTS completion advances past inflight", g) else
  (with_phase h (Polled rest),
   CtsCounters (next_cts_step g) (u64 (completed_through + step_inc))
     (inflight_cts g - advanced) (cts_loop g)).

(** A slice has landed in its slot. *)
Definition imm_complete (h : write_recv_half) (wr_id : Z) (imm : option Z)
    (rest : list write_wc) : write_recv_half :=
  let q := p_pc h in
  match imm with
  | None => rdma_throw ident h "rdma WriteCts unexpected recv WC opcode"
  | Some imm_data =>
      let completed_step := wr_id_to_slot wr_id in
      if negb (completed_step =? next_complete_step q)
      then rdma_throw ident h "rdma WriteCts IMM completion has unexpected step" else
      let slot := completed_step mod slot_count f in
      let payload := htonl imm_data in
      if slot_bytes f <? payload
      then rdma_throw ident h "rdma WriteCts IMM payload exceeds FIFO capacity" else
      let complete := u64 (next_complete_step q + step_inc) in
      Half (mem h) (upd (sizes h) slot payload) (c_head h) complete complete
        (Proxy (next_post_step q) complete (inflight q - 1) (Polled rest))
        (stop_requested h) (errs h)
  end.

(** [prepare]: receives for immediates first, then grants. *)
Fixpoint imm_prepare (fuel : nat) (h : write_recv_half) (posted : list Z) :
    write_recv_half * list Z :=
  match fuel with
  | O => (h, posted)
  | S fuel =>
      let '(h', w) := imm_post h in
      match w with
      | Some _ => imm_prepare fuel h' (posted ++ option_list w)
      | None => (h, posted)
      end
  end.

Fixpoint cts_prepare (fuel : nat) (h : write_recv_half) (g : cts_counters) (posted : list cts_wr) :
    cts_counters * list cts_wr :=
  match fuel with
  | O => (g, posted)
  | S fuel =>
      let '(g', w) := grant_post h g in
      match w with
      | Some _ => cts_prepare fuel h g' (posted ++ option_list w)
      | None => (g, posted)
      end
  end.

(** ** The queue pairs *)

(** The oldest data write lands in the memory of the receiver and uses up a
    receive; the target must lie in the registered FIFO. *)
Definition data_move (s : write_st) : option write_st :=
  match w_sq s, w_rq s with
  | w :: sq', r :: rq' =>
      let rc := w_rcv s in
      let off := ww_raddr w - recv_addr in
      if (ww_rkey w =? recv_rkey) && (0 <=? off) && (off + ww_length w <=? slot_count f * slot_bytes f)
      then
        let data := read_mem (mem (w_snd s)) (ww_addr w) (Z.to_nat (ww_length w)) in
        Some (WLink (w_snd s) (w_cts s) (clearing s)
          (Half (write_mem (mem rc) off data) (sizes rc) (c_head rc) (c_tail rc)
             (p_step rc) (p_pc rc) (stop_requested rc) (errs rc))
          (w_grants s) sq' (w_scq s ++ if ww_signaled w then [ww_id w] else [])
          rq' (w_cq s) (w_rcq s ++ [WriteWc r (Some (ww_imm w))]) (w_produced s) (w_consumed s))
      else None
  | _, _ => None
  end.

(** The oldest clear-to-send write lands in the memory of the sender. *)
Definition cts_move (s : write_st) : option write_st :=
  match w_cq s with
  | w :: cq' =>
      Some (WLink (w_snd s) (upd (w_cts s) ((cw_addr w - cts_addr) / kCtsSlotBytes) (cw_record w))
        (clearing s) (w_rcv s) (w_grants s) (w_sq s) (w_scq s) (w_rq s) cq'
        (w_rcq s ++ if cw_signaled w then [WriteWc (cw_id w) None] else [])
        (w_produced s) (w_consumed s))
  | [] => None
  end.

(** ** Steps of the whole link *)

Inductive write_act :=
| WPut (p : bytes) | WGet | WData | WCts
| WSBegin | WSPost | WSClear | WSPoll (n : nat) | WSWc
| WRBegin | WRGrant | WRPost | WRPoll (n : nat) | WRWc
| WSThrow (what : string) | WSBadWc (reason : string)
| WRThrow (what : string) | WRBadWc (reason : string)
| WSStop (report : bool) | WRStop (report : bool).

Definition w_set_snd (s : write_st) (h : send_half) : write_st :=
  WLink h (w_cts s) (clearing s) (w_rcv s) (w_grants s) (w_sq s) (w_scq s) (w_rq s) (w_cq s)
    (w_rcq s) (w_produced s) (w_consumed s).
Definition w_set_rcv (s : write_st) (h : write_recv_half) (g : cts_counters) : write_st :=
  WLink (w_snd s) (w_cts s) (clearing s) h g (w_sq s) (w_scq s) (w_rq s) (w_cq s)
    (w_rcq s) (w_produced s) (w_consumed s).

Definition write_act_on (a : write_act) (s : write_st) : option write_st :=
  let sn := w_snd s in
  let rc := w_rcv s in
  let g := w_grants s in
  match a with
  | WPut p =>
      sn' ← kernel_send f sn p;
      Some (WLink sn' (w_cts s) (clearing s) rc g (w_sq s) (w_scq s) (w_rq s) (w_cq s) (w_rcq s)
              (w_produced s ++ [p]) (w_consumed s))
  | WGet =>
      '(p, rc') ← kernel_recv f rc;
      Some (WLink sn (w_cts s) (clearing s) rc' g (w_sq s) (w_scq s) (w_rq s) (w_cq s) (w_rcq s)
              (w_produced s) (w_consumed s ++ [p]))
  | WData => data_move s
  | WCts => cts_move s
  | WSBegin => match p_phase (p_pc sn) with
               | Waiting => Some (w_set_snd s (rdma_begin sn)) | _ => None end
  | WSPost =>
      match p_phase (p_pc sn), clearing s with
      | Posting, None =>
          let '(sn', w) := write_post sn (w_cts s) in
          Some (WLink sn' (w_cts s)
                  (match w with Some _ => Some (next_post_step (p_pc sn) mod slot_count f) | None => None end)
                  rc g (w_sq s ++ option_list w) (w_scq s) (w_rq s) (w_cq s) (w_rcq s)
                  (w_produced s) (w_consumed s))
      | _, _ => None
      end
  | WSClear =>
      slot ← clearing s;
      Some (WLink sn (clear_ready (w_cts s) slot) None rc g (w_sq s) (w_scq s) (w_rq s) (w_cq s)
              (w_rcq s) (w_produced s) (w_consumed s))
  | WSPoll n =>
      match p_phase (p_pc sn) with
      | Polling =>
          let k := (n `min` kPollBatch)%nat in
          Some (WLink (with_phase sn (Polled (take k (w_scq s)))) (w_cts s) (clearing s) rc g (w_sq s)
                  (drop k (w_scq s)) (w_rq s) (w_cq s) (w_rcq s) (w_produced s) (w_consumed s))
      | _ => None
      end
  | WSWc =>
      match p_phase (p_pc sn) with
      | Polled [] => Some (w_set_snd s (with_phase sn Waiting))
      | Polled (w :: rest) => Some (w_set_snd s (write_complete sn w rest))
      | _ => None
      end
  | WRBegin =>
      match p_phase (p_pc rc) with
      | Waiting => Some (w_set_rcv s (rdma_begin rc)
                     (CtsCounters (next_cts_step g) (next_cts_complete_step g) (inflight_cts g) true))
      | _ => None
      end
  | WRGrant =>
      match p_phase (p_pc rc), cts_loop g with
      | Posting, true =>
          let '(g', w) := grant_post rc g in
          Some (WLink sn (w_cts s) (clearing s) rc g' (w_sq s) (w_scq s) (w_rq s)
                  (w_cq s ++ option_list w) (w_rcq s) (w_produced s) (w_consumed s))
      | _, _ => None
      end
  | WRPost =>
      match p_phase (p_pc rc), cts_loop g with
      | Posting, false =>
          let '(rc', w) := imm_post rc in
          Some (WLink sn (w_cts s) (clearing s) rc' g (w_sq s) (w_scq s) (w_rq s ++ option_list w)
                  (w_cq s) (w_rcq s) (w_produced s) (w_consumed s))
      | _, _ => None
      end
  | WRPoll n =>
      match p_phase (p_pc rc) with
      | Polling =>
          let k := (n `min` kPollBatch)%nat in
          Some (WLink sn (w_cts s) (clearing s) (with_phase rc (Polled (take k (w_rcq s)))) g (w_sq s)
                  (w_scq s) (w_rq s) (w_cq s) (drop k (w_rcq s)) (w_produced s) (w_consumed s))
      | _ => None
      end
  | WRWc =>
      match p_phase (p_pc rc) with
      | Polled [] => Some (w_set_rcv s (with_phase rc Waiting) g)
      | Polled (w :: rest) =>
          if is_cts_wr_id (wc_id w)
          then let '(rc', g') := cts_complete rc g (wc_id w) rest in Some (w_set_rcv s rc' g')
          else Some (w_set_rcv s (imm_complete rc (wc_id w) (wc_imm w) rest) g)
      | _ => None
      end
  | WSThrow what => match p_phase (p_pc sn), clearing s with
                    | (Posting | Polling), None => Some (w_set_snd s (rdma_throw ident sn what))
                    | _, _ => None end
  | WSBadWc reason => match p_phase (p_pc sn) with
                      | Polled _ => Some (w_set_snd s (rdma_failed_wc ident sn reason)) | _ => None end
  | WRThrow what => match p_phase (p_pc rc) with
                    | Posting | Polling => Some (w_set_rcv s (rdma_throw ident rc what) g) | _ => None end
  | WRBadWc reason => match p_phase (p_pc rc) with
                      | Polled _ => Some (w_set_rcv s (rdma_failed_wc ident rc reason) g) | _ => None end
  | WSStop report => Some (w_set_snd s (rdma_halt ident report sn))
  | WRStop report => Some (w_set_rcv s (rdma_halt ident report rc) g)
  end.

Inductive write_step : write_st -> write_st -> Prop :=
| write_step_act a s s' : write_act_on a s = Some s' -> write_step s s'.

(** The constructors on zeroed memory, then [prepare]. *)
Definition write_init (m1 z1 m2 z2 : Z -> Z) : write_st :=
  let fuel := S (Z.to_nat (max_inflight f)) in
  let '(rc, posted) := imm_prepare fuel (proxy_init m2 z2) [] in
  let '(g, granted) := cts_prepare fuel rc (CtsCounters 0 0 0 false) [] in
  WLink (proxy_init m1 z1) (fun _ => Cts 0 0 0 0 0) None rc g [] [] posted granted [] [] [].
End Write.
