(* ===== verification/RdmaWriteLink.v ===== *)
(** * Safety of the RDMA link, WRITE+CTS data plane

    With grants taken out of the picture, the link of RdmaWrite.v is the link
    of RdmaProxy.v: [to_send_recv] maps its states, and every step is a step of
    the SEND/RECV link or leaves the mapped state alone.  What remains is an
    invariant of the grants: a record that is ready for the next slice names
    the slot the receiver has reserved for it. *)

From Stdlib Require Import ZArith Lia.
From stdpp Require Import base option numbers tactics strings list.
From S2P Require Import Prelude Types Geometry Wire SocketProxy RdmaProxy RdmaLink RdmaWrite.

#[local] Open Scope Z_scope.

(** ** Work request ids *)

Lemma is_cts_make step : is_cts_wr_id (make_cts_wr_id step) = true.
Proof.
  unfold is_cts_wr_id, make_cts_wr_id. apply negb_true_iff, Z.eqb_neq. intros E.
  apply (f_equal (fun z => Z.testbit z 63)) in E. revert E.
  rewrite Z.land_spec, Z.lor_spec, Z.bits_0. done.
Qed.

Lemma is_cts_step step : 0 <= step < 2 ^ 63 -> is_cts_wr_id step = false.
Proof.
  intros Hs. unfold is_cts_wr_id, kCtsWrIdBit. apply negb_false_iff, Z.eqb_eq.
  apply Z.bits_inj'. intros i Hi. rewrite Z.land_spec, Z.bits_0, Z.pow2_bits_eqb by lia.
  destruct (Z.eqb_spec 63 i) as [<-|]; [|by rewrite andb_false_r].
  rewrite andb_true_r. rewrite Z.testbit_false by lia. rewrite Z.div_small by lia. done.
Qed.

(** The tag of a grant can be taken off again. *)
Lemma cts_to_step_make step : 0 <= step < 2 ^ 63 -> cts_wr_id_to_step (make_cts_wr_id step) = step.
Proof.
  intros Hs. unfold cts_wr_id_to_step, make_cts_wr_id.
  change (u64 (Z.lnot kCtsWrIdBit)) with (Z.ones 63). rewrite Z.land_ones by lia.
  rewrite Z.lor_comm. change kCtsWrIdBit with (Z.shiftl 1 63).
  rewrite lor_shiftl_add, Z.mul_1_l, <- (Z.mul_1_l (2 ^ 63)) at 1 by lia.
  rewrite Z.mod_add, Z.mod_small by lia. done.
Qed.

Lemma htonl_twice x : 0 <= x < 2 ^ 32 -> htonl (htonl x) = x.
Proof.
  intros Hx. rewrite <- (ntohl_of_wire x) at 2 by done. by rewrite load32_mem32 by apply htonl_range.
Qed.

Lemma nonempty_all P : Forall (fun p => p <> []) P -> nonempty P = P.
Proof. induction 1; [done|]. unfold nonempty in *. rewrite filter_cons_True by done. by f_equal. Qed.

(** ** Completions of two kinds on one queue *)

Definition data_part (l : list write_wc) : list write_wc :=
  filter (fun w => is_cts_wr_id (wc_id w) = false) l.
Definition cts_part (l : list write_wc) : list Z :=
  wc_id <$> filter (fun w => is_cts_wr_id (wc_id w) = true) l.

Lemma data_part_app l1 l2 : data_part (l1 ++ l2) = data_part l1 ++ data_part l2.
Proof. apply filter_app. Qed.
Lemma cts_part_app l1 l2 : cts_part (l1 ++ l2) = cts_part l1 ++ cts_part l2.
Proof. unfold cts_part. by rewrite filter_app, fmap_app. Qed.

Lemma part_cts w l : is_cts_wr_id (wc_id w) = true ->
  data_part (w :: l) = data_part l /\ cts_part (w :: l) = wc_id w :: cts_part l.
Proof.
  intros E. unfold data_part, cts_part.
  rewrite filter_cons_False, filter_cons_True by congruence. done.
Qed.

Lemma part_data w l : is_cts_wr_id (wc_id w) = false ->
  data_part (w :: l) = w :: data_part l /\ cts_part (w :: l) = cts_part l.
Proof.
  intros E. unfold data_part, cts_part.
  rewrite filter_cons_True, filter_cons_False by congruence. done.
Qed.

Section WriteInv.
Context (sb : Z) (Hsb : 0 < sb < 2 ^ 32) (ident : RdmaProxyIdentity).
Context (recv_addr recv_rkey cts_addr : Z).
Context (Hrecv : 0 < recv_addr /\ recv_addr + 8 * sb < 2 ^ 64).
Context (Hcts : 0 <= cts_addr /\ cts_addr + 256 < 2 ^ 64).

Abbreviation fifo := (proxy_fifo sb).
Abbreviation slot k := (2 * Z.of_nat k mod 8).
Abbreviation wact := (write_act_on fifo ident recv_addr recv_rkey cts_addr kFifoSteps).

(** ** The SEND/RECV link behind the grants *)

Definition to_send_wr (w : write_wr) : send_wr :=
  SendWr (ww_id w) (ww_addr w) (ww_length w) (ww_signaled w).
Definition to_recv_wr (step : Z) : recv_wr := RecvWr (step mod 8) (step mod 8 * sb) sb.
Definition to_recv_wc (w : write_wc) : recv_wc :=
  RecvWc (wc_id w mod 8) (htonl (default 0 (wc_imm w))).

Definition to_phase (ph : phase write_wc) : phase recv_wc :=
  match ph with
  | Waiting => Waiting | Posting => Posting | Polling => Polling
  | Polled wcs => Polled (to_recv_wc <$> data_part wcs)
  | Exited => Exited
  end.
Definition to_proxy (q : proxy write_wc) : proxy recv_wc :=
  Proxy (next_post_step q) (next_complete_step q) (inflight q) (to_phase (p_phase q)).
Definition to_half (h : write_recv_half) : recv_half :=
  Half (mem h) (sizes h) (c_head h) (c_tail h) (p_step h) (to_proxy (p_pc h))
    (stop_requested h) (errs h).

Definition to_send_recv (s : write_st) : rdma_st :=
  RLink (w_snd s) (to_half (w_rcv s)) (to_send_wr <$> w_sq s) (w_scq s)
    (to_recv_wr <$> w_rq s) (to_recv_wc <$> data_part (w_rcq s)) (w_produced s) (w_consumed s).

(** ** Grants *)

Definition grant (k : nat) : RdmaCtsSlot := Cts (recv_addr + slot k * sb) recv_rkey sb (2 * Z.of_nat k) 1.

Fixpoint grants (k : nat) (gsig : list bool) : list cts_wr :=
  match gsig with
  | [] => []
  | b :: gsig => CtsWr (make_cts_wr_id (2 * Z.of_nat k)) (grant k) (cts_addr + slot k * 32) b ::
                 grants (S k) gsig
  end.

Lemma grants_snoc k gsig b :
  grants k (gsig ++ [b]) = grants k gsig ++
    [CtsWr (make_cts_wr_id (2 * Z.of_nat (k + length gsig))) (grant (k + length gsig))
       (cts_addr + slot (k + length gsig) * 32) b].
Proof.
  revert k. induction gsig as [|x gsig IH]; intros k; simpl; [by rewrite Nat.add_0_r|].
  by rewrite IH, Nat.add_succ_r.
Qed.

(** A data write goes where the receive buffer of its slice lies. *)
Definition write_ok (w : write_wr) : Prop :=
  ww_raddr w = recv_addr + ww_addr w /\ ww_rkey w = recv_rkey /\ ww_imm w = htonl (ww_length w).

(** Of the grants, the receive proxy has seen [e] complete, the queue pair
    wrote [x] and the proxy posted [y]; the send proxy has used [b]. *)
Record grant_inv (s : write_st) (b e x y : nat) (gsig : list bool) : Prop := {
  gi_next : next_cts_step (w_grants s) = 2 * Z.of_nat y;
  gi_complete : next_cts_complete_step (w_grants s) = 2 * Z.of_nat e;
  gi_inflight : inflight_cts (w_grants s) = Z.of_nat y - Z.of_nat e;
  gi_order : (e <= x <= y)%nat;
  gi_bx : (b <= x)%nat;
  gi_room : (y <= length (w_consumed s) + 4)%nat;
  gi_sig : length gsig = (y - e)%nat;
  gi_cq : w_cq s = grants x (drop (x - e) gsig);
  gi_done : running (w_rcv s) ->
    cts_part (polled (w_rcv s) ++ w_rcq s) = make_cts_wr_id <$> completions e (take (x - e) gsig);
  (* a ready record grants a slice not yet posted, or is about to be cleared *)
  gi_ready : forall i, cts_ready (w_cts s i) = 1 -> exists k, w_cts s i = grant k /\ i = slot k /\
    ((b <= k < x)%nat \/ clearing s = Some i /\ S k = b);
}.

Record write_inv (s : write_st) (a m b : nat) (sig : list bool) (c d : nat)
    (e x y : nat) (gsig : list bool) : Prop := {
  wi_link : rdma_inv sb (to_send_recv s) a m b sig c d;
  wi_grants : grant_inv s b e x y gsig;
  wi_full : Forall (fun p => p <> []) (w_produced s);
  wi_rq : w_rq s = (fun j => 2 * Z.of_nat j) <$> seq m (d - m);
  wi_sq : Forall write_ok (w_sq s);
  wi_data : running (w_rcv s) -> data_part (polled (w_rcv s) ++ w_rcq s) =
    (fun j => WriteWc (2 * Z.of_nat j) (Some (htonl (Z.of_nat (length (w_produced s !!! j)))))) <$> seq c (m - c);
}.

(** Work request ids of data stay clear of the tag bit. *)
Definition wfits (s : write_st) : Prop := 2 * Z.of_nat (length (w_produced s)) + 16 < 2 ^ 63.

Lemma wfits_rfits s : wfits s -> rfits (to_send_recv s).
Proof. unfold wfits, rfits. simpl. lia. Qed.

Lemma moved_all P m : Forall (fun p => p <> []) P -> (m <= length P)%nat -> moved P m = m.
Proof.
  intros Hf Hm. unfold moved. rewrite nonempty_all by (by apply Forall_take).
  rewrite length_take. lia.
Qed.

(** The counters of the grants. *)
Definition grant_counts (s : write_st) :=
  let g := w_grants s in (next_cts_step g, next_cts_complete_step g, inflight_cts g).

(** Steps that leave the grants alone. *)
Lemma grant_same s s' b e x y gsig : grant_inv s b e x y gsig ->
  grant_counts s' = grant_counts s -> (length (w_consumed s) <= length (w_consumed s'))%nat ->
  w_cq s' = w_cq s -> w_cts s' = w_cts s -> clearing s' = clearing s ->
  (running (w_rcv s') -> running (w_rcv s) /\
     cts_part (polled (w_rcv s') ++ w_rcq s') = cts_part (polled (w_rcv s) ++ w_rcq s)) ->
  grant_inv s' b e x y gsig.
Proof.
  intros [] [= H0 H1 H1'] H2 H3 H4 H5 H6.
  split; rewrite ?H0, ?H1, ?H1', ?H3, ?H4, ?H5; try done; try lia.
  intros [? ->]%H6. auto.
Qed.

Lemma polled_to_half h : polled (to_half h) = to_recv_wc <$> data_part (polled h).
Proof. unfold polled, to_half, to_proxy. simpl. by destruct (p_phase (p_pc h)). Qed.

Lemma running_to_half h : running (to_half h) <-> running h.
Proof. unfold running, to_half, to_proxy. simpl. by destruct (p_phase (p_pc h)). Qed.

(** *** Kernels *)

Lemma wput_inv s s' p a m b sig c d e x y gsig : write_inv s a m b sig c d e x y gsig -> wfits s ->
  p <> [] -> wact (WPut p) s = Some s' -> write_inv s' a m b sig c d e x y gsig.
Proof.
  intros [] Hf Hp Ha. cbn [write_act_on] in Ha. apply bind_Some in Ha as (sn' & Hk & [= <-]).
  pose proof (si_am _ _ _ _ _ _ (proj1 wi_link0)). pose proof (si_bn _ _ _ _ _ _ (proj1 wi_link0)) as Hbn.
  simpl in Hbn. split; cbn [w_rq w_sq w_produced w_rcv w_rcq]; try done.
  - eapply (put_inv sb Hsb ident _ _ p); [exact wi_link0|by apply wfits_rfits|].
    cbn [rdma_act_on to_send_recv r_snd]. rewrite Hk. done.
  - by eapply grant_same.
  - apply Forall_app. split; [done|]. by constructor.
  - intros Hrun. rewrite wi_data0 by done. apply list_fmap_ext. intros i j [-> Hj]%lookup_seq.
    rewrite lookup_total_app_l by lia. done.
Qed.

Lemma wget_inv s s' a m b sig c d e x y gsig : write_inv s a m b sig c d e x y gsig -> wfits s ->
  wact WGet s = Some s' -> write_inv s' a m b sig c d e x y gsig /\
  exists q, w_produced s !! length (w_consumed s) = Some q /\ w_consumed s' = w_consumed s ++ [q].
Proof.
  intros [] Hf Ha. cbn [write_act_on] in Ha. apply bind_Some in Ha as ([p rc'] & Hk & [= <-]).
  assert (rdma_act_on fifo ident false KGet (to_send_recv s) =
    Some (to_send_recv (WLink (w_snd s) (w_cts s) (clearing s) rc' (w_grants s) (w_sq s) (w_scq s)
      (w_rq s) (w_cq s) (w_rcq s) (w_produced s) (w_consumed s ++ [p])))) as Ha'.
  { cbn [rdma_act_on to_send_recv r_rcv]. revert Hk. unfold kernel_recv. cbn [to_half c_tail c_head].
    destruct (_ <? _); [done|]. by intros [= <- <-]. }
  destruct (get_inv sb Hsb ident _ _ _ _ _ _ _ _ wi_link0 (wfits_rfits _ Hf) Ha') as (Hi & q & Hq & HC).
  cbn [to_send_recv r_produced r_consumed] in Hq, HC. rewrite nonempty_all in Hq by done.
  assert (polled rc' = polled (w_rcv s) /\ p_phase (p_pc rc') = p_phase (p_pc (w_rcv s))) as [Hpol Hph].
  { revert Hk. unfold kernel_recv. destruct (_ <? _); [done|]. by intros [= _ <-]. }
  split; [|eauto]. split; cbn [w_rq w_sq w_produced w_rcv w_rcq]; try done.
  - eapply grant_same; [done..| |done|done|done|].
    + cbn [w_consumed]. rewrite length_app. lia.
    + cbn [w_rcv w_rcq]. unfold running. rewrite Hph, Hpol. done.
  - unfold running. rewrite Hph, Hpol. done.
Qed.

(** *** The queue pairs *)

Lemma wdata_inv s s' a m b sig c d e x y gsig : write_inv s a m b sig c d e x y gsig -> wfits s ->
  wact WData s = Some s' -> write_inv s' a (S m) b sig c d e x y gsig.
Proof.
  intros [] Hf Ha. cbn [write_act_on] in Ha. unfold data_move in Ha.
  destruct (w_sq s) as [|w wsq] eqn:Esq; [done|]. destruct (w_rq s) as [|r wrq] eqn:Erq; [done|].
  pose proof (proj1 wi_link0) as []. pose proof (proj2 wi_link0) as [].
  cbn [to_send_recv r_snd r_rcv r_produced r_consumed sq rq] in *. rewrite Esq in si_sq. rewrite Erq in ri_rq.
  apply Forall_cons in wi_sq0 as [(Hraddr & Hrkey & Himm) Hwsq].
  rewrite Hraddr, Hrkey in Ha. replace (recv_addr + ww_addr w - recv_addr) with (ww_addr w) in Ha by lia.
  destruct (drop (m - a) sig) as [|fl fs] eqn:Ed; [done|]. simpl in si_sq.
  injection si_sq as Hid Haddr Hlen Hsig Hrest.
  assert (m < b)%nat as Hmb.
  { apply (f_equal length) in Ed. rewrite length_drop in Ed. simpl in Ed. lia. }
  rewrite moved_all in * by (done || lia).
  destruct (d - m)%nat as [|dm] eqn:Edm; [done|]. simpl in wi_rq0. injection wi_rq0 as Hr Hwrq.
  destruct (lookup_lt_is_Some_2 (w_produced s) m ltac:(lia)) as [p Hp].
  rewrite (list_lookup_total_correct _ _ _ Hp) in Hlen.
  destruct (window_size sb _ _ _ _ m p si_win ltac:(lia) Hp) as [Hsz Hfit].
  destruct (_ && _) eqn:Ec in Ha; [|done]. injection Ha as <-.
  assert (0 <= 2 * Z.of_nat m < 2 ^ 63) as Hm63 by (unfold wfits in Hf; lia).
  destruct (part_data (WriteWc r (Some (ww_imm w))) []) as [Hdp Hcp].
  { cbn [wc_id]. subst r. by apply is_cts_step. }
  split; cbn [w_rq w_sq w_produced w_rcv w_rcq]; try done.
  - eapply (move_inv sb Hsb ident _ _ a m b sig c d wi_link0).
    cbn [rdma_act_on]. unfold qp_move, to_send_recv.
    cbn [sq rq r_snd r_rcv scq rcq r_produced r_consumed w_snd w_rcv w_sq w_scq w_rq w_rcq w_produced w_consumed].
    rewrite Esq, Erq. cbn [fmap list_fmap]. cbn [to_send_wr to_recv_wr rw_length sw_length sw_addr rw_addr sw_signaled sw_id rw_id].
    rewrite (proj2 (Z.ltb_ge _ _)) by lia. rewrite data_part_app, fmap_app, Hdp.
    subst r. do 2 f_equal.
    + unfold to_half. cbn [mem sizes c_head c_tail p_step p_pc stop_requested errs]. by rewrite Haddr.
    + f_equal. simpl. unfold to_recv_wc. simpl. rewrite Himm, htonl_twice by lia. done.
  - eapply grant_same; [done..|]. intros Hrun. split; [done|]. cbn [w_rcv w_rcq].
    unfold polled in *. cbn [p_pc]. rewrite !cts_part_app, Hcp. unfold cts_part at 3. simpl.
    by rewrite app_nil_r.
  - by replace (d - S m)%nat with dm by lia.
  - intros Hrun. unfold polled in *. cbn [p_pc]. rewrite app_assoc, data_part_app, Hdp, wi_data0 by done.
    replace (S m - c)%nat with (S (m - c)) by lia. rewrite seq_S, fmap_app. simpl.
    replace (c + (m - c))%nat with m by lia. rewrite (list_lookup_total_correct _ _ _ Hp), Himm, Hlen, Hr. done.
Qed.

(** Where the write lands: in the slot that the receiver has granted for the step
    of its oldest posted receive, which holds no slice that the kernel has still
    to take. *)
Definition lands_reserved (s : write_st) : Prop := exists w wsq m wrq p,
  w_sq s = w :: wsq /\ w_rq s = 2 * Z.of_nat m :: wrq /\
  w_produced s !! m = Some p /\ ww_length w = Z.of_nat (length p) /\ ww_length w <= sb /\
  ww_raddr w = recv_addr + 2 * Z.of_nat m mod kFifoSteps * sb /\ ww_rkey w = recv_rkey /\
  (length (w_consumed s) <= m < length (w_consumed s) + 4)%nat /\
  forall k, (length (w_consumed s) <= k < m)%nat -> 2 * Z.of_nat k mod kFifoSteps <> 2 * Z.of_nat m mod kFifoSteps.

Lemma wdata_lands s s' a m b sig c d e x y gsig : write_inv s a m b sig c d e x y gsig ->
  wact WData s = Some s' -> lands_reserved s.
Proof.
  intros [] Ha. cbn [write_act_on] in Ha. unfold data_move in Ha.
  destruct (w_sq s) as [|w wsq] eqn:Esq; [done|]. destruct (w_rq s) as [|r wrq] eqn:Erq; [done|].
  pose proof (proj1 wi_link0) as []. pose proof (proj2 wi_link0) as [].
  cbn [to_send_recv r_snd r_rcv r_produced r_consumed sq rq] in *. rewrite Esq in si_sq.
  apply Forall_cons in wi_sq0 as [(Hraddr & Hrkey & _) _].
  destruct (drop (m - a) sig) as [|fl fs] eqn:Ed; [done|]. simpl in si_sq.
  injection si_sq as Hid Haddr Hlen Hsig Hrest.
  assert (m < b)%nat as Hmb.
  { apply (f_equal length) in Ed. rewrite length_drop in Ed. simpl in Ed. lia. }
  rewrite moved_all in * by (done || lia).
  destruct (d - m)%nat as [|dm] eqn:Edm; [done|]. simpl in wi_rq0. injection wi_rq0 as Hr Hwrq.
  destruct (lookup_lt_is_Some_2 (w_produced s) m ltac:(lia)) as [p Hp].
  rewrite (list_lookup_total_correct _ _ _ Hp) in Hlen.
  destruct (window_size sb _ _ _ _ m p si_win ltac:(lia) Hp) as [_ Hfit].
  exists w, wsq, m, wrq, p. rewrite Esq, Erq, Hr, Hraddr, Haddr, Hlen. change kFifoSteps with 8.
  split_and!; try done; try lia. intros k Hk E. 
  assert (length (w_consumed s) <= k < m /\ m < length (w_consumed s) + 4)%nat as Hk' by lia.
  Z.div_mod_to_equations. lia.
Qed.

(** Changes of phase on either side, seen through the map. *)
Lemma map_snd_phase s h cts cl scq' a m b sig c d : rdma_inv sb (to_send_recv s) a m b sig c d ->
  core h = core (w_snd s) ->
  (running h -> running (w_snd s) /\ polled h ++ scq' = polled (w_snd s) ++ w_scq s) ->
  rdma_inv sb (to_send_recv (WLink h cts cl (w_rcv s) (w_grants s) (w_sq s) scq' (w_rq s) (w_cq s)
    (w_rcq s) (w_produced s) (w_consumed s))) a m b sig c d.
Proof. intros Hi Hc Hp. by apply (snd_phase_inv sb (to_send_recv s)). Qed.

Lemma map_rcv_phase s h cts cl g cq rcq' a m b sig c d : rdma_inv sb (to_send_recv s) a m b sig c d ->
  core h = core (w_rcv s) ->
  (running h -> running (w_rcv s) /\
     data_part (polled h ++ rcq') = data_part (polled (w_rcv s) ++ w_rcq s)) ->
  rdma_inv sb (to_send_recv (WLink (w_snd s) cts cl h g (w_sq s) (w_scq s) (w_rq s) cq
    rcq' (w_produced s) (w_consumed s))) a m b sig c d.
Proof.
  intros Hi Hc Hp. apply (rcv_phase_inv sb (to_send_recv s)); [done| |].
  - revert Hc. unfold core, to_half, to_proxy. simpl. by intros [= -> -> -> -> -> -> -> ->].
  - cbn [to_send_recv r_rcv rcq]. rewrite !running_to_half, !polled_to_half. intros Hrun.
    destruct (Hp Hrun) as [? E]. split; [done|]. rewrite !data_part_app in E.
    rewrite <- !fmap_app. cbn [w_rcv w_rcq]. by rewrite E.
Qed.

Lemma slot_index k : (cts_addr + slot k * 32 - cts_addr) / kCtsSlotBytes = slot k.
Proof.
  replace (cts_addr + slot k * 32 - cts_addr) with (slot k * 32) by lia. by apply Z.div_mul.
Qed.

Lemma wcts_inv s s' a m b sig c d e x y gsig : write_inv s a m b sig c d e x y gsig -> wfits s ->
  wact WCts s = Some s' -> write_inv s' a m b sig c d e (S x) y gsig.
Proof.
  intros [] Hf Ha. cbn [write_act_on] in Ha. unfold cts_move in Ha.
  destruct wi_grants0. destruct (w_cq s) as [|w cq'] eqn:Ecq; [done|]. injection Ha as <-.
  destruct (drop (x - e) gsig) as [|fl fs] eqn:Ed; [done|]. simpl in gi_cq0. injection gi_cq0 as -> ->.
  assert (x < y)%nat as Hxy.
  { apply (f_equal length) in Ed. rewrite length_drop in Ed. simpl in Ed. lia. }
  assert (gsig !! (x - e)%nat = Some fl) as Hfl.
  { rewrite <- (Nat.add_0_r (x - e)), <- lookup_drop, Ed. done. }
  cbn [cw_addr cw_record cw_signaled cw_id]. rewrite slot_index.
  set (tl := if fl then [WriteWc (make_cts_wr_id (2 * Z.of_nat x)) None] else []).
  assert (data_part tl = [] /\ cts_part tl = make_cts_wr_id <$> if fl then [2 * Z.of_nat x] else []) as [Hdp Hcp].
  { unfold tl. destruct fl; [|done]. apply part_cts, is_cts_make. }
  assert (forall l, data_part (l ++ w_rcq s ++ tl) = data_part (l ++ w_rcq s)) as Hdata.
  { intros l. by rewrite app_assoc, data_part_app, Hdp, app_nil_r. }
  split; cbn [w_rq w_sq w_produced w_rcv w_rcq]; try done.
  - apply (map_rcv_phase s); [done..|]. intros Hrun. by rewrite Hdata.
  - split; cbn [w_grants w_consumed w_cq w_rcv w_rcq w_cts clearing]; try done; try lia.
    + replace (S x - e)%nat with (S (x - e)) by lia.
      rewrite (drop_S gsig fl) in Ed by done. by injection Ed as ->.
    + intros Hrun. rewrite app_assoc, cts_part_app, Hcp, gi_done0 by done.
      replace (S x - e)%nat with (S (x - e)) by lia.
      rewrite (take_S_r gsig _ fl), completions_snoc, fmap_app, length_take by done.
      do 2 f_equal. by replace (e + (x - e) `min` length gsig)%nat with x by lia.
    + intros i Hi. destruct (decide (i = slot x)) as [->|Hne].
      * rewrite upd_eq. exists x. split_and!; [done..|left; lia].
      * rewrite upd_ne in Hi |- * by done. destruct (gi_ready0 i Hi) as (k & -> & Hk & Hc).
        exists k. split_and!; [done..|]. destruct Hc; [left; lia|by right].
  - intros Hrun. rewrite Hdata. auto.
Qed.

(** *** Send proxy *)

(** The posting loop is that of the SEND/RECV plane with the grant consulted
    before the request goes out. *)
Lemma write_post_eq h cts :
  write_post fifo ident kFifoSteps h cts =
  match send_post fifo ident h with
  | (h', Some w) =>
      let step := next_post_step (p_pc h) in
      let c := cts (step mod 8) in
      if cts_ready c =? 1 then
        if negb (cts_step_tag c =? step)
        then (rdma_throw ident h "rdma WriteCts CTS step_tag mismatch", None)
        else if (cts_raddr c =? 0) || (cts_nbytes c <? sw_length w)
        then (rdma_throw ident h "rdma WriteCts CTS target invalid for payload", None)
        else (h', Some (WriteWr (sw_id w) (sw_addr w) (sw_length w) (sw_signaled w)
                          (htonl (sw_length w)) (cts_raddr c) (cts_rkey c)))
      else (with_phase h Polling, None)
  | (h', None) => (h', None)
  end.
Proof.
  unfold write_post, send_post. cbn [slot_count proxy_fifo]. unfold kFifoSteps.
  destruct (negb _); [done|]. destruct (negb _); [done|]. destruct (slot_bytes _ <? _); [done|].
  destruct (_ =? 0); [by destruct (negb _)|].
  pose proof (Z.mod_pos_bound (next_post_step (p_pc h)) 8).
  rewrite (proj2 (Z.leb_gt _ _)) by lia. cbn zeta.
  destruct (cts_ready _ =? 1); [|done]. simpl. by destruct (cts_step_tag _ =? _).
Qed.

Lemma wspost_inv s s' a m b sig c d e x y gsig : write_inv s a m b sig c d e x y gsig -> wfits s ->
  wact WSPost s = Some s' -> exists b' sig', write_inv s' a m b' sig' c d e x y gsig /\
    (calm (w_snd s) -> calm (w_snd s')).
Proof.
  intros Hinv Hf Ha. pose proof Hinv as []. pose proof wi_grants0 as []. pose proof (proj1 wi_link0) as [].
  pose proof (proj2 wi_link0) as []. cbn [to_send_recv r_snd r_rcv r_produced r_consumed] in *.
  rewrite moved_all in * by (done || lia).
  cbn [write_act_on] in Ha. destruct (p_phase (p_pc (w_snd s))) eqn:Eph; try done.
  destruct (clearing s) eqn:Ecl; [done|]. rewrite write_post_eq in Ha.
  assert (polled (w_snd s) = []) as Hpol by (unfold polled; by rewrite Eph).
  assert (running (w_snd s)) as Hrun by (unfold running; by rewrite Eph).
  assert (write_inv (WLink (with_phase (w_snd s) Polling) (w_cts s) None (w_rcv s) (w_grants s)
    (w_sq s ++ []) (w_scq s) (w_rq s) (w_cq s) (w_rcq s) (w_produced s) (w_consumed s))
    a m b sig c d e x y gsig) as Hbreak.
  { rewrite app_nil_r. split; cbn [w_rq w_sq w_produced w_rcv w_rcq]; try done.
    apply (map_snd_phase s); [done..|]. intros _. by rewrite Hpol. }
  destruct (send_post_cases sb Hsb ident (to_send_recv s) a m b sig (proj1 wi_link0) (wfits_rfits _ Hf))
    as [[_ E]|[(_ & Hb & _)|(p & fl & Hb & Hne & Hroom & Hsig & E)]];
    cbn [to_send_recv r_snd r_produced] in *.
  - rewrite E in Ha. injection Ha as <-. exists b, sig. split; [done|]. by intros; apply calm_phase.
  - by destruct (proj1 (Forall_lookup _ _) wi_full0 _ _ Hb).
  - rewrite E in Ha. cbn zeta in Ha. rewrite si_post in Ha.
    destruct (Z.eqb_spec (cts_ready (w_cts s (slot b))) 1) as [Hready|Hready].
    2: { injection Ha as <-. exists b, sig. split; [done|]. by intros; apply calm_phase. }
    destruct (gi_ready0 _ Hready) as (k & Hk & Hslot & [Hbk|[? _]]); [|congruence].
    assert (k = b) as ->.
    { destruct (decide (k = b)); [done|]. exfalso. apply (slot_ne b k); [lia|done]. }
    rewrite Hk in Ha. cbn [grant cts_step_tag cts_raddr cts_nbytes cts_rkey sw_length sw_id sw_addr sw_signaled] in Ha.
    pose proof (slot_range b) as Hsl. apply lookup_lt_Some in Hb as Hlt.
    destruct (window_size sb _ _ _ _ b p si_win ltac:(lia) Hb) as [_ Hfit].
    rewrite Z.eqb_refl, (proj2 (Z.eqb_neq _ 0)), (proj2 (Z.ltb_ge _ _)) in Ha by nia.
    cbn [negb orb] in Ha. injection Ha as <-. simpl option_list.
    assert (rdma_act_on fifo ident false SPost (to_send_recv s) = Some (to_send_recv (WLink
      (set_pc (w_snd s) (Proxy (2 * Z.of_nat (S b)) (2 * Z.of_nat a) (Z.of_nat (S b) - Z.of_nat a) Posting))
      (w_cts s) (Some (slot b)) (w_rcv s) (w_grants s)
      (w_sq s ++ [WriteWr (2 * Z.of_nat b) (slot b * sb) (Z.of_nat (length p)) fl
         (htonl (Z.of_nat (length p))) (recv_addr + slot b * sb) recv_rkey])
      (w_scq s) (w_rq s) (w_cq s) (w_rcq s) (w_produced s) (w_consumed s)))) as Hact.
    { cbn [rdma_act_on to_send_recv r_snd]. rewrite Eph, E. unfold to_send_recv.
      cbn [w_snd w_rcv w_sq w_scq w_rq w_rcq w_produced w_consumed r_rcv sq scq rq rcq r_produced r_consumed].
      by rewrite fmap_app. }
    destruct (spost_inv sb Hsb ident _ _ _ _ _ _ _ _ wi_link0 (wfits_rfits _ Hf) Hact)
      as (a' & m' & b' & sig' & Hi & Hout & _ & _ & _ & Hcalm).
    assert (a' = a /\ m' = m /\ b' = S b) as (-> & -> & ->).
    { pose proof Hi as [[_ _ _ E2 E1 _ _ _ _ _ _ _ _ _] _].
      cbn in E1, E2. destruct Hout; simpl in *; lia. }
    exists (S b), sig'. split; [|done]. split; cbn [w_rq w_sq w_produced w_rcv w_rcq]; try done.
    + split; cbn [w_grants w_consumed w_cq w_rcv w_rcq w_cts clearing]; try done; try lia.
      intros i Hi'. destruct (gi_ready0 i Hi') as (k & Hk' & -> & [Hkb|[? _]]); [|congruence].
      exists k. split_and!; [done..|]. destruct (decide (k = b)) as [->|]; [by right|left; lia].
    + apply Forall_app. split; [done|]. by constructor.
Qed.

Lemma wsclear_inv s s' a m b sig c d e x y gsig : write_inv s a m b sig c d e x y gsig ->
  wact WSClear s = Some s' -> write_inv s' a m b sig c d e x y gsig.
Proof.
  intros [] Ha. cbn [write_act_on] in Ha. apply bind_Some in Ha as (sl & Hcl & [= <-]).
  split; try done. destruct wi_grants0.
  split; cbn [w_grants w_consumed w_cq w_rcv w_rcq w_cts clearing]; try done.
  intros i. unfold clear_ready. destruct (decide (i = sl)) as [->|Hne]; [by rewrite upd_eq|].
  rewrite upd_ne by done. intros Hi. destruct (gi_ready0 i Hi) as (k & ? & ? & [?|[E ?]]); [|congruence].
  exists k. auto.
Qed.

Lemma write_complete_eq h w rest :
  write_complete fifo ident h w rest = send_complete fifo ident h w rest \/
  p_phase (p_pc (send_complete fifo ident h w rest)) = Exited.
Proof.
  unfold write_complete, send_complete. destruct (_ || _); [by right|].
  destruct (_ <? _); [by right|by left].
Qed.

Lemma wswc_inv s s' a m b sig c d e x y gsig : write_inv s a m b sig c d e x y gsig -> wfits s ->
  wact WSWc s = Some s' -> exists a' sig', write_inv s' a' m b sig' c d e x y gsig /\
    (calm (w_snd s) -> calm (w_snd s')).
Proof.
  intros [] Hf Ha. cbn [write_act_on] in Ha.
  destruct (p_phase (p_pc (w_snd s))) as [| | |wcs|] eqn:Eph; try done.
  assert (exists s1, rdma_act_on fifo ident false SWc (to_send_recv s) = Some s1) as [s1 Hact].
  { cbn [rdma_act_on to_send_recv r_snd]. rewrite Eph. destruct wcs; eauto. }
  destruct (swc_inv sb ident _ _ _ _ _ _ _ _ wi_link0 (wfits_rfits _ Hf) Hact)
    as (a' & sig' & _ & Hi & Hout & _ & _ & _ & Hcalm).
  cbn [rdma_act_on to_send_recv r_snd] in Hact. unfold polled in Hout. cbn [to_send_recv r_snd] in Hout.
  rewrite Eph in Hact, Hout.
  assert (exists h, s' = w_set_snd s h /\ s1 = to_send_recv (w_set_snd s h)) as (h & -> & ->).
  { destruct wcs as [|w rest]; injection Ha as <-; injection Hact as <-; [by eexists|].
    cbn in Hout. destruct (write_complete_eq (w_snd s) w rest) as [->|E]; [by eexists|].
    destruct Hout as [_ Hout]. congruence. }
  exists a', sig'. split; [|done]. split; try done. by eapply grant_same.
Qed.

(** *** Receive proxy *)

Lemma post_cts_eq h g y : next_cts_step g = 2 * Z.of_nat y -> exists fl,
  post_cts fifo recv_addr recv_rkey cts_addr kFifoSteps h g (next_cts_step g) =
  CtsWr (make_cts_wr_id (2 * Z.of_nat y)) (grant y) (cts_addr + slot y * 32) fl.
Proof.
  intros E. unfold post_cts, grant. rewrite E. cbn [slot_bytes proxy_fifo]. unfold kFifoSteps, kCtsSlotBytes.
  pose proof (slot_range y). rewrite !(u64_small (_ + slot y * _)), u32_small by nia. eauto.
Qed.

Lemma wrgrant_inv s s' a m b sig c d e x y gsig : write_inv s a m b sig c d e x y gsig -> wfits s ->
  wact WRGrant s = Some s' -> exists y' gsig', write_inv s' a m b sig c d e x y' gsig' /\
    w_rcv s' = w_rcv s.
Proof.
  intros [] Hf Ha. pose proof wi_grants0 as []. cbn [write_act_on] in Ha.
  destruct (p_phase (p_pc (w_rcv s))) eqn:Eph; try done. destruct (cts_loop _); [|done].
  pose proof (ri_head _ _ _ _ _ _ (proj2 wi_link0)) as Hhead. pose proof (ri_cn _ _ _ _ _ _ (proj2 wi_link0)) as Hcn.
  pose proof (si_am _ _ _ _ _ _ (proj1 wi_link0)). pose proof (si_bn _ _ _ _ _ _ (proj1 wi_link0)).
  cbn [to_send_recv r_rcv r_produced r_consumed to_half c_head] in *. rewrite moved_all in Hcn by (done || lia).
  unfold wfits in Hf. unfold grant_post in Ha. rewrite gi_inflight0, gi_next0, Hhead in Ha.
  cbn [slot_count step_increment proxy_fifo] in Ha. change (max_inflight fifo) with 4 in Ha.
  unfold kFifoSteps in Ha at 1. rewrite step_succ, u64_small in Ha by lia.
  destruct (Z.ltb_spec (Z.of_nat y - Z.of_nat e) 4) as [Hlt|].
  2: { injection Ha as <-. exists y, gsig. split; [|done]. split; try done. simpl option_list.
       split; cbn [w_grants w_consumed w_cq w_rcv w_rcq w_cts clearing next_cts_step next_cts_complete_step inflight_cts];
         rewrite ?app_nil_r; done. }
  destruct (Z.ltb_spec (2 * Z.of_nat (length (w_consumed s)) + 8) (2 * Z.of_nat (S y))) as [|Hroom].
  { injection Ha as <-. exists y, gsig. split; [|done]. split; try done. simpl option_list.
    split; cbn [w_grants w_consumed w_cq w_rcv w_rcq w_cts clearing next_cts_step next_cts_complete_step inflight_cts];
      rewrite ?app_nil_r; done. }
  destruct (post_cts_eq (w_rcv s) (w_grants s) y gi_next0) as [fl Hw]. rewrite gi_next0 in Hw.
  cbn [negb andb] in Ha. rewrite Hw in Ha. injection Ha as <-.
  exists (S y), (gsig ++ [fl]). split; [|done]. split; try done. simpl option_list.
  split; cbn [w_grants w_consumed w_cq w_rcv w_rcq w_cts clearing next_cts_step next_cts_complete_step inflight_cts];
    try done; try lia.
  - rewrite length_app. simpl. lia.
  - rewrite drop_app_le, grants_snoc, gi_cq0, length_drop by lia.
    by replace (x + (length gsig - (x - e)))%nat with y by lia.
  - intros Hrun. rewrite take_app_le by lia. auto.
Qed.

Lemma wrpost_inv s s' a m b sig c d e x y gsig : write_inv s a m b sig c d e x y gsig -> wfits s ->
  wact WRPost s = Some s' -> exists d', write_inv s' a m b sig c d' e x y gsig /\
    (calm (w_rcv s) -> calm (w_rcv s')).
Proof.
  intros [] Hf Ha. cbn [write_act_on] in Ha.
  destruct (p_phase (p_pc (w_rcv s))) eqn:Eph; try done. destruct (cts_loop _); [done|].
  pose proof (si_am _ _ _ _ _ _ (proj1 wi_link0)). pose proof (si_bn _ _ _ _ _ _ (proj1 wi_link0)).
  pose proof (proj2 wi_link0) as Hr. pose proof (ri_post _ _ _ _ _ _ Hr) as Hpost. pose proof (ri_nd _ _ _ _ _ _ Hr) as Hnd.
  cbn [to_send_recv r_rcv r_produced r_consumed] in *. rewrite moved_all in Hnd by (done || lia).
  cbn [to_half to_proxy p_pc next_post_step] in Hpost.
  assert (running (w_rcv s)) as Hrun by (unfold running; by rewrite Eph).
  assert (polled (w_rcv s) = []) as Hpol by (unfold polled; by rewrite Eph).
  assert (rdma_act_on fifo ident false RPost (to_send_recv s) = Some (to_send_recv s')) as Hact.
  { cbn [rdma_act_on to_send_recv r_rcv]. cbn [to_half to_proxy p_pc p_phase]. rewrite Eph. cbn [to_phase].
    revert Ha. unfold imm_post, recv_post, recv_credit, try_elide_zero_payload.
    cbn [to_half to_proxy p_pc next_post_step next_complete_step inflight p_phase c_head negb andb].
    cbn [slot_count step_increment proxy_fifo]. unfold kFifoSteps. rewrite Hpost, receive_buffer_eq by done.
    destruct (_ && _); cbn [negb]; intros [= <-]; unfold to_send_recv;
      cbn [w_snd w_rcv w_sq w_scq w_rq w_rcq w_produced w_consumed option_list];
      unfold to_half, to_proxy, with_phase, set_pc;
      cbn [mem sizes c_head c_tail p_step p_pc stop_requested errs next_post_step next_complete_step inflight p_phase];
      rewrite ?Eph, ?Hpost, ?app_nil_r, ?fmap_app; done. }
  destruct (rpost_inv sb Hsb ident _ _ _ _ _ _ _ _ wi_link0 (wfits_rfits _ Hf) Hact)
    as (d' & Hi & Hout & _ & _ & _ & Hcalm).
  cbn [to_send_recv r_rcv r_consumed] in Hout. unfold imm_post in Ha.
  destruct (_ && _) in Ha; injection Ha as <-; simpl option_list in *; cbn in Hout; rewrite ?Eph in Hout.
  - destruct Hout as [(_ & _ & ?)|[-> _]]; [done|]. exists (S d). split.
    + split; cbn [w_rq w_sq w_produced w_rcv w_rcq]; try done.
      * eapply grant_same; [done..|]. intros _. split; [done|]. cbn [w_rcv w_rcq]. unfold polled. simpl. by rewrite Eph.
      * rewrite wi_rq0. replace (S d - m)%nat with (S (d - m)) by lia. rewrite seq_S, fmap_app. simpl.
        unfold slot_to_wr_id. rewrite Hpost. by replace (m + (d - m))%nat with d by lia.
    + intros. apply calm_phase; [done|]. simpl. by rewrite Eph.
  - destruct Hout as [(<- & _ & _)|[_ ?]]; [|done]. exists d. split; [|by intros; apply calm_phase].
    split; cbn [w_rq w_sq w_produced w_rcv w_rcq]; try done.
    + eapply grant_same; [done..|]. intros _. split; [done|]. by rewrite Hpol.
    + by rewrite app_nil_r.
    + intros _. rewrite <- wi_data0 by done. by rewrite Hpol.
Qed.

(** The completion of a grant covers the grants before it. *)
Lemma wrwc_cts_inv s w rest a m b sig c d e x y gsig : write_inv s a m b sig c d e x y gsig -> wfits s ->
  p_phase (p_pc (w_rcv s)) = Polled (w :: rest) -> is_cts_wr_id (wc_id w) = true ->
  exists e' gsig' g', cts_complete fifo ident (w_rcv s) (w_grants s) (wc_id w) rest =
      (with_phase (w_rcv s) (Polled rest), g') /\
    write_inv (w_set_rcv s (with_phase (w_rcv s) (Polled rest)) g') a m b sig c d e' x y gsig'.
Proof.
  intros [] Hf Eph Hw. pose proof wi_grants0 as [].
  pose proof (si_am _ _ _ _ _ _ (proj1 wi_link0)). pose proof (si_bn _ _ _ _ _ _ (proj1 wi_link0)) as Hbn.
  pose proof (ri_cn _ _ _ _ _ _ (proj2 wi_link0)) as Hcn.
  cbn [to_send_recv r_produced r_consumed] in *. rewrite moved_all in Hcn by (done || lia). unfold wfits in Hf.
  assert (running (w_rcv s)) as Hrun by (unfold running; by rewrite Eph).
  assert (polled (w_rcv s) = w :: rest) as Hpol by (unfold polled; by rewrite Eph).
  destruct (part_cts w (rest ++ w_rcq s) Hw) as [Hdp Hcp].
  specialize (gi_done0 Hrun). rewrite Hpol in gi_done0. simpl in gi_done0. rewrite Hcp in gi_done0.
  destruct (completions e (take (x - e) gsig)) as [|w0 ws] eqn:Ec; [done|].
  simpl in gi_done0. injection gi_done0 as -> Hrest.
  apply completions_cons in Ec as (i & -> & Hi & ->). rewrite length_take in Hi.
  assert (0 <= 2 * Z.of_nat (e + i) < 2 ^ 63) by lia.
  exists (e + S i)%nat, (drop (S i) gsig), (CtsCounters (2 * Z.of_nat y) (2 * Z.of_nat (e + S i))
    (Z.of_nat y - Z.of_nat (e + S i)) (cts_loop (w_grants s))). split.
  { unfold cts_complete. rewrite cts_to_step_make, gi_complete0, gi_inflight0, gi_next0 by done.
    cbn [step_increment proxy_fifo].
    replace (2 * Z.of_nat (e + i) - 2 * Z.of_nat e) with (Z.of_nat i * kSliceSteps) by (unfold kSliceSteps; lia).
    rewrite Z.mod_mul, Z.div_mul by done. rewrite (proj2 (Z.ltb_ge _ _)) by lia. cbn [orb negb Z.eqb].
    rewrite u64_small, (proj2 (Z.ltb_ge _ _)), step_succ by lia.
    replace (e + S i)%nat with (S (e + i)) by lia. do 2 f_equal. lia. }
  split; cbn [w_set_rcv w_rq w_sq w_produced w_rcv w_rcq]; try done.
  - apply (map_rcv_phase s); [done..|]. intros _. split; [done|]. rewrite Hpol. symmetry. exact Hdp.
  - split; cbn [w_set_rcv w_grants w_consumed w_cq w_rcv w_rcq w_cts clearing next_cts_step next_cts_complete_step inflight_cts];
      try done; try lia.
    + rewrite length_drop. lia.
    + rewrite gi_cq0, drop_drop. do 2 f_equal. lia.
    + intros _. unfold polled. cbn [with_phase set_pc p_pc p_phase]. rewrite Hrest, skipn_firstn_comm.
      do 3 f_equal. lia.
  - intros _. specialize (wi_data0 Hrun). rewrite Hpol in wi_data0. rewrite <- wi_data0. symmetry. exact Hdp.
Qed.

(** The completion of a data write publishes its slice. *)
Lemma wrwc_data_inv s w rest a m b sig c d e x y gsig : write_inv s a m b sig c d e x y gsig -> wfits s ->
  p_phase (p_pc (w_rcv s)) = Polled (w :: rest) -> is_cts_wr_id (wc_id w) = false ->
  let h := imm_complete fifo ident (w_rcv s) (wc_id w) (wc_imm w) rest in
  write_inv (w_set_rcv s h (w_grants s)) a m b sig (S c) d e x y gsig /\
  (calm (w_rcv s) -> calm h).
Proof.
  intros [] Hf Eph Hw. cbv zeta. pose proof wi_grants0 as [].
  pose proof (si_am _ _ _ _ _ _ (proj1 wi_link0)). pose proof (si_bn _ _ _ _ _ _ (proj1 wi_link0)) as Hbn.
  pose proof (proj2 wi_link0) as Hr. pose proof (ri_cn _ _ _ _ _ _ Hr) as Hcn.
  pose proof (ri_complete _ _ _ _ _ _ Hr) as Hcomp. pose proof (si_win _ _ _ _ _ _ (proj1 wi_link0)) as Hwin.
  cbn [to_send_recv r_produced r_consumed r_rcv r_snd to_half to_proxy p_pc next_complete_step] in *.
  rewrite moved_all in Hcn by (done || lia).
  assert (running (w_rcv s)) as Hrun by (unfold running; by rewrite Eph).
  assert (polled (w_rcv s) = w :: rest) as Hpol by (unfold polled; by rewrite Eph).
  destruct (part_data w (rest ++ w_rcq s) Hw) as [Hdp Hcp].
  specialize (wi_data0 Hrun). rewrite Hpol in wi_data0. simpl in wi_data0. rewrite Hdp in wi_data0.
  destruct (m - c)%nat as [|k] eqn:Ek; [done|]. simpl in wi_data0. injection wi_data0 as -> Hrest.
  destruct (lookup_lt_is_Some_2 (w_produced s) c ltac:(lia)) as [p Hp].
  rewrite (list_lookup_total_correct _ _ _ Hp) in *.
  assert (Z.of_nat (length p) <= sb) as Hfit.
  { destruct (ri_placed _ _ _ _ _ _ Hr c) as (q & Hq & _ & Hq').
    - cbn [to_send_recv r_produced]. rewrite moved_all by (done || lia). lia.
    - cbn [to_send_recv r_produced] in Hq. rewrite nonempty_all in Hq by done. by simplify_eq. }
  assert (imm_complete fifo ident (w_rcv s) (2 * Z.of_nat c) (Some (htonl (Z.of_nat (length p)))) rest =
    Half (mem (w_rcv s)) (upd (sizes (w_rcv s)) (slot c) (Z.of_nat (length p))) (c_head (w_rcv s))
      (u64 (2 * Z.of_nat c + kSliceSteps)) (u64 (2 * Z.of_nat c + kSliceSteps))
      (Proxy (next_post_step (p_pc (w_rcv s))) (u64 (2 * Z.of_nat c + kSliceSteps))
        (inflight (p_pc (w_rcv s)) - 1) (Polled rest))
      (stop_requested (w_rcv s)) (errs (w_rcv s))) as Himm.
  { unfold imm_complete, wr_id_to_slot. rewrite Hcomp, Z.eqb_refl, htonl_twice by lia.
    cbn [negb slot_bytes slot_count step_increment proxy_fifo]. unfold kFifoSteps.
    by rewrite (proj2 (Z.ltb_ge _ _)) by lia. }
  cbn [wc_id wc_imm]. rewrite Himm.
  set (h := Half _ _ _ _ _ _ _ _).
  assert (rdma_act_on fifo ident false RWc (to_send_recv s) = Some (to_send_recv (w_set_rcv s h (w_grants s)))) as Hact.
  { cbn [rdma_act_on to_send_recv r_rcv to_half to_proxy p_pc p_phase]. rewrite Eph. cbn [to_phase].
    destruct (part_data (WriteWc (2 * Z.of_nat c) (Some (htonl (Z.of_nat (length p))))) rest Hw) as [-> _].
    cbn [fmap list_fmap]. f_equal. unfold set_rcv, to_send_recv, w_set_rcv.
    cbn [r_snd r_rcv sq scq rq rcq r_produced r_consumed w_snd w_rcv w_sq w_scq w_rq w_rcq w_produced w_consumed].
    f_equal. unfold recv_complete, wr_id_to_slot, to_recv_wc.
    cbn [rc_id rc_len wc_id wc_imm default to_half to_proxy p_pc next_complete_step slot_count step_increment proxy_fifo].
    rewrite Hcomp. unfold kFifoSteps. unfold id. rewrite Z.eqb_refl, htonl_twice by lia. done. }
  destruct (rwc_inv sb ident _ _ _ _ _ _ _ _ wi_link0 (wfits_rfits _ Hf) Hact)
    as (c' & Hi & Hout & _ & _ & _ & Hcalm).
  cbn [to_send_recv r_rcv] in Hout. rewrite polled_to_half, Hpol in Hout.
  destruct (part_data (WriteWc (2 * Z.of_nat c) (Some (htonl (Z.of_nat (length p))))) rest Hw) as [E _].
  rewrite E in Hout. cbn [fmap list_fmap] in Hout. destruct Hout as [-> _].
  split; [|by intros (? & ? & _)]. split; cbn [w_set_rcv w_rq w_sq w_produced w_rcv w_rcq]; try done.
  - eapply grant_same; [done..|]. intros _. split; [done|]. cbn [w_set_rcv w_rcv w_rcq].
    rewrite Hpol. simpl. rewrite Hcp. done.
  - intros _. replace (m - S c)%nat with k by lia. exact Hrest.
Qed.

(** *** Every step *)

Definition wquiet (a : write_act) : Prop :=
  match a with
  | WSThrow _ | WSBadWc _ | WRThrow _ | WRBadWc _ | WSStop _ | WRStop _ => False
  | _ => True
  end.
Definition walive (s : write_st) : Prop := calm (w_snd s) /\ calm (w_rcv s).

(** Steps that move one thread between phases. *)
Lemma wsnd_phase_inv s h scq' a m b sig c d e x y gsig : write_inv s a m b sig c d e x y gsig ->
  core h = core (w_snd s) ->
  (running h -> running (w_snd s) /\ polled h ++ scq' = polled (w_snd s) ++ w_scq s) ->
  write_inv (WLink h (w_cts s) (clearing s) (w_rcv s) (w_grants s) (w_sq s) scq' (w_rq s) (w_cq s)
    (w_rcq s) (w_produced s) (w_consumed s)) a m b sig c d e x y gsig.
Proof.
  intros [] Hc Hp. split; try done; [by apply (map_snd_phase s)|by eapply grant_same].
Qed.

Lemma wrcv_phase_inv s h g rcq' a m b sig c d e x y gsig : write_inv s a m b sig c d e x y gsig ->
  core h = core (w_rcv s) ->
  (next_cts_step g, next_cts_complete_step g, inflight_cts g) = grant_counts s ->
  (running h -> running (w_rcv s) /\ polled h ++ rcq' = polled (w_rcv s) ++ w_rcq s) ->
  write_inv (WLink (w_snd s) (w_cts s) (clearing s) h g (w_sq s) (w_scq s) (w_rq s) (w_cq s)
    rcq' (w_produced s) (w_consumed s)) a m b sig c d e x y gsig.
Proof.
  intros [] Hc Hg Hp. split; try done.
  - apply (map_rcv_phase s); [done..|]. intros [? ->]%Hp. done.
  - eapply grant_same; [done..|]. cbn [w_rcv w_rcq]. intros [? ->]%Hp. done.
  - cbn [w_rcv w_rcq w_produced]. intros [? ->]%Hp. auto.
Qed.

Definition winv (s : write_st) : Prop :=
  exists a m b sig c d e x y gsig, write_inv s a m b sig c d e x y gsig.

Lemma winv_intro s a m b sig c d e x y gsig : write_inv s a m b sig c d e x y gsig -> winv s.
Proof. intros Hi. by exists a, m, b, sig, c, d, e, x, y, gsig. Qed.

Lemma wact_inv t s s' a m b sig c d e x y gsig : write_inv s a m b sig c d e x y gsig -> wfits s ->
  (forall p, t = WPut p -> p <> []) -> wact t s = Some s' ->
  winv s' /\ (wquiet t -> walive s -> walive s').
Proof.
  intros Hinv Hf Hne Ha. unfold walive. destruct t.
  - split; [by eapply winv_intro, wput_inv; eauto|]. cbn [write_act_on] in Ha.
    apply bind_Some in Ha as (sn' & Hk & [= <-]). unfold kernel_send in Hk.
    destruct (_ || _); [done|]. by injection Hk as <-.
  - split; [by eapply winv_intro, wget_inv; eauto|]. cbn [write_act_on] in Ha.
    apply bind_Some in Ha as ([p rc'] & Hk & [= <-]). unfold kernel_recv in Hk.
    destruct (_ <? _); [done|]. by injection Hk as <- <-.
  - split; [by eapply winv_intro, wdata_inv|]. cbn [write_act_on] in Ha. unfold data_move in Ha.
    destruct (w_sq s), (w_rq s); try done. destruct (_ && _); [|done]. by injection Ha as <-.
  - split; [by eapply winv_intro, wcts_inv|]. cbn [write_act_on] in Ha. unfold cts_move in Ha.
    destruct (w_cq s); try done. by injection Ha as <-.
  - cbn [write_act_on] in Ha. destruct (p_phase (p_pc (w_snd s))) eqn:Eph; try done. injection Ha as <-.
    split; [|intros _ [Hc ?]; split; [by apply begin_calm|done]].
    eapply winv_intro, wsnd_phase_inv; [exact Hinv|done|]. by apply begin_polled.
  - destruct (wspost_inv _ _ _ _ _ _ _ _ _ _ _ _ Hinv Hf Ha) as (b' & sig' & Hi & Hc).
    split; [by eapply winv_intro|]. intros _ [? Hr]. split; [auto|]. cbn [write_act_on] in Ha.
    destruct (p_phase _); try done. destruct (clearing s); [done|]. destruct (write_post _ _ _ _ _).
    by injection Ha as <-.
  - split; [by eapply winv_intro, wsclear_inv|]. cbn [write_act_on] in Ha.
    apply bind_Some in Ha as (sl & _ & [= <-]). done.
  - cbn [write_act_on] in Ha. destruct (p_phase (p_pc (w_snd s))) eqn:Eph; try done. injection Ha as <-.
    split; [|intros _ [Hc ?]; split; [by apply calm_phase|done]].
    eapply winv_intro, wsnd_phase_inv; [exact Hinv|done|]. by apply poll_polled.
  - destruct (wswc_inv _ _ _ _ _ _ _ _ _ _ _ _ Hinv Hf Ha) as (a' & sig' & Hi & Hc).
    split; [by eapply winv_intro|]. intros _ [? Hr]. split; [auto|]. cbn [write_act_on] in Ha.
    destruct (p_phase _) as [| | |[]|]; try done; by injection Ha as <-.
  - cbn [write_act_on] in Ha. destruct (p_phase (p_pc (w_rcv s))) eqn:Eph; try done. injection Ha as <-.
    split; [|intros _ [? Hc]; split; [done|by apply begin_calm]].
    eapply winv_intro, wrcv_phase_inv; [exact Hinv|done|done|]. by apply begin_polled.
  - destruct (wrgrant_inv _ _ _ _ _ _ _ _ _ _ _ _ Hinv Hf Ha) as (y' & gsig' & Hi & Hc).
    split; [by eapply winv_intro|]. intros _ [? Hr]. rewrite Hc. split; [|done]. cbn [write_act_on] in Ha.
    destruct (p_phase _); try done. destruct (cts_loop _); [|done]. destruct (grant_post _ _ _ _ _ _ _).
    by injection Ha as <-.
  - destruct (wrpost_inv _ _ _ _ _ _ _ _ _ _ _ _ Hinv Hf Ha) as (d' & Hi & Hc).
    split; [by eapply winv_intro|]. intros _ [? Hr]. split; [|auto]. cbn [write_act_on] in Ha.
    destruct (p_phase _); try done. destruct (cts_loop _); [done|]. destruct (imm_post _ _).
    by injection Ha as <-.
  - cbn [write_act_on] in Ha. destruct (p_phase (p_pc (w_rcv s))) eqn:Eph; try done. injection Ha as <-.
    split; [|intros _ [? Hc]; split; [done|by apply calm_phase]].
    eapply winv_intro, wrcv_phase_inv; [exact Hinv|done|done|]. by apply poll_polled.
  - cbn [write_act_on] in Ha. destruct (p_phase (p_pc (w_rcv s))) as [| | |[|w rest]|] eqn:Eph; try done.
    + injection Ha as <-. split; [|intros _ [? Hc]; split; [done|by apply calm_phase]].
      eapply winv_intro, wrcv_phase_inv; [exact Hinv|done|done|].
      apply phase_polled; [by rewrite Eph|]. unfold polled. by rewrite Eph.
    + destruct (is_cts_wr_id (wc_id w)) eqn:Ew.
      * destruct (wrwc_cts_inv _ _ _ _ _ _ _ _ _ _ _ _ _ Hinv Hf Eph Ew) as (e' & gsig' & g' & E & Hi).
        rewrite E in Ha. injection Ha as <-. split; [by eapply winv_intro|].
        intros _ [? Hc]; split; [done|by apply calm_phase].
      * destruct (wrwc_data_inv _ _ _ _ _ _ _ _ _ _ _ _ _ Hinv Hf Eph Ew) as [Hi Hc].
        injection Ha as <-. split; [by eapply winv_intro|]. intros _ [? ?]. split; [done|auto].
  - split; [|done]. cbn [write_act_on] in Ha.
    destruct (p_phase (p_pc (w_snd s))) eqn:Eph; try done; destruct (clearing s); try done; injection Ha as <-;
      (eapply winv_intro, wsnd_phase_inv; [exact Hinv|done|by apply exited_polled]).
  - split; [|done]. cbn [write_act_on] in Ha.
    destruct (p_phase (p_pc (w_snd s))) eqn:Eph; try done; injection Ha as <-.
    eapply winv_intro, wsnd_phase_inv; [exact Hinv|done|by apply exited_polled].
  - split; [|done]. cbn [write_act_on] in Ha.
    destruct (p_phase (p_pc (w_rcv s))) eqn:Eph; try done; injection Ha as <-;
      (eapply winv_intro, wrcv_phase_inv; [exact Hinv|done|done|by apply exited_polled]).
  - split; [|done]. cbn [write_act_on] in Ha.
    destruct (p_phase (p_pc (w_rcv s))) eqn:Eph; try done; injection Ha as <-.
    eapply winv_intro, wrcv_phase_inv; [exact Hinv|done|done|by apply exited_polled].
  - split; [|done]. injection Ha as <-.
    eapply winv_intro, wsnd_phase_inv; [exact Hinv|by apply halt_core|by apply halt_polled].
  - split; [|done]. injection Ha as <-.
    eapply winv_intro, wrcv_phase_inv; [exact Hinv|by apply halt_core|done|by apply halt_polled].
Qed.

(** Slices only ever enter the record. *)
Lemma wact_record t s s' : wact t s = Some s' ->
  w_produced s' = w_produced s ++ (if t is WPut p then [p] else []) /\
  (t <> WGet -> w_consumed s' = w_consumed s).
Proof.
  destruct t; cbn [write_act_on]; unfold data_move, cts_move; intros Ha; simplify_option_eq;
    repeat case_match; simplify_eq; simpl; rewrite ?app_nil_r; done.
Qed.

(** *** The initial state *)

Lemma imm_prepare_init m z :
  imm_prepare fifo 5 (proxy_init m z) [] = (half_init (Proxy 8 0 4 Waiting) m z, [0; 2; 4; 6]).
Proof. reflexivity. Qed.

(** [prepare] grants slices [k .. 3]. *)
Lemma cts_prepare_from (h : write_recv_half) n : c_head h = 0 -> forall k gsig,
  (k + n = 4)%nat -> length gsig = k -> exists gsig', length gsig' = 4%nat /\
  cts_prepare fifo recv_addr recv_rkey cts_addr kFifoSteps (S n) h
    (CtsCounters (2 * Z.of_nat k) 0 (Z.of_nat k) false) (grants 0 gsig) =
  (CtsCounters 8 0 4 false, grants 0 gsig').
Proof.
  intros Hh. induction n as [|n IH]; intros k gsig Hk Hl.
  { assert (k = 4%nat) as -> by lia. exists gsig. split; [done|]. cbn [cts_prepare]. unfold grant_post. done. }
  destruct (post_cts_eq h (CtsCounters (2 * Z.of_nat k) 0 (Z.of_nat k) false) k eq_refl) as [fl Hw].
  destruct (IH (S k) (gsig ++ [fl])) as (gsig' & Hl' & E); [lia|rewrite length_app; simpl; lia|].
  exists gsig'. split; [done|]. rewrite <- E, grants_snoc, Hl. remember (S n) as fuel.
  cbn [cts_prepare]. unfold grant_post.
  cbn [next_cts_step next_cts_complete_step inflight_cts cts_loop] in *. rewrite Hw, Hh.
  change (max_inflight fifo) with 4. cbn [slot_count step_increment proxy_fifo]. unfold kFifoSteps at 1.
  rewrite step_succ, (proj2 (Z.ltb_lt _ _)), (proj2 (Z.ltb_ge _ _)) by (rewrite ?u64_small; lia).
  cbn [andb negb option_list]. rewrite Nat.add_0_l. do 2 f_equal. lia.
Qed.

Lemma write_inv_init m1 z1 m2 z2 :
  winv (write_init fifo recv_addr recv_rkey cts_addr kFifoSteps m1 z1 m2 z2).
Proof.
  unfold write_init. change (S (Z.to_nat (max_inflight fifo))) with 5%nat. rewrite imm_prepare_init.
  destruct (cts_prepare_from (half_init (Proxy 8 0 4 Waiting) m2 z2) 4 eq_refl 0 [] eq_refl eq_refl)
    as (gsig & Hl & E).
  change (2 * Z.of_nat 0) with 0 in E. change (Z.of_nat 0) with 0 in E. cbn [grants] in E. rewrite E.
  exists 0%nat, 0%nat, 0%nat, [], 0%nat, 4%nat, 0%nat, 0%nat, 4%nat, gsig.
  split; try done.
  - split; split; simpl; try done; try lia; try (intros k Hk; lia).
    + change (moved [] 0) with 0%nat. lia.
    + change (moved [] 0) with 0%nat. intros j Hj. lia.
  - split; simpl; try done; try lia.
Qed.
End WriteInv.

(** ** The theorems *)

Definition write_in_flight (s : write_st) : list bytes :=
  drop (length (w_consumed s)) (w_produced s).

Section WriteTheorems.
Context (sb : Z) (Hsb : 0 < sb < 2 ^ 32) (ident : RdmaProxyIdentity).
Context (recv_addr recv_rkey cts_addr : Z).
Context (Hrecv : 0 < recv_addr /\ recv_addr + 8 * sb < 2 ^ 64).
Context (Hcts : 0 <= cts_addr /\ cts_addr + 256 < 2 ^ 64).
Context (m1 z1 m2 z2 : Z -> Z).

Abbreviation fifo := (proxy_fifo sb).
Abbreviation wact := (write_act_on fifo ident recv_addr recv_rkey cts_addr kFifoSteps).
Abbreviation wstep := (write_step fifo ident recv_addr recv_rkey cts_addr kFifoSteps).
Abbreviation wstart := (write_init fifo recv_addr recv_rkey cts_addr kFifoSteps m1 z1 m2 z2).

Lemma wsteps_inv s : steps wstep wstart s -> wfits s -> Forall (fun p => p <> []) (w_produced s) ->
  winv sb recv_addr recv_rkey cts_addr s.
Proof.
  intros Hst. remember wstart as s0 eqn:E0.
  induction Hst as [|s1 s2 s3 _ IH Hs]; intros Hf Hne; [subst; by apply write_inv_init|].
  destruct Hs as [t s2 s3 Ha]. destruct (wact_record _ _ _ _ _ _ _ _ Ha) as [HP _].
  rewrite HP in Hne. apply Forall_app in Hne as [Hne Hp].
  assert (wfits s2) as Hf2 by (unfold wfits in *; rewrite HP, length_app in Hf; lia).
  destruct (IH E0 Hf2 Hne) as (a & m & b & sig & c & d & e & x & y & gsig & Hi).
  eapply (wact_inv sb Hsb ident); [done..|exact Hi|done| |exact Ha].
  intros p ->. exact (proj1 (Forall_singleton _ _) Hp).
Qed.

(** C19: The WRITE+CTS data plane keeps the promise of a queue: as long as no empty
    slice is handed over, in every reachable state, whatever the interleaving
    of the two proxies, the grants, the data writes and the kernels, and also
    after failures and stops, a step of the receiver's kernel takes exactly
    the oldest slice, byte for byte.  Every data write that arrives carries the
    slice of the step of the oldest receive, and lands, with the right key and
    within the slot, where the receiver's grant for that step points, in a slot
    that holds no slice the kernel has still to take. *)
Theorem write_link_queue s s' a :
  steps wstep wstart s -> 2 * Z.of_nat (length (w_produced s)) + 16 < 2 ^ 63 ->
  Forall (fun p => p <> []) (w_produced s) -> wact a s = Some s' ->
  match a with
  | WPut p => write_in_flight s' = write_in_flight s ++ [p] /\ w_consumed s' = w_consumed s
  | WGet => exists p, write_in_flight s = p :: write_in_flight s' /\ w_consumed s' = w_consumed s ++ [p]
  | _ => write_in_flight s' = write_in_flight s /\ w_consumed s' = w_consumed s
  end /\ (a = WData -> lands_reserved sb recv_addr recv_rkey s).
Proof.
  intros Hst Hf Hne Ha. destruct (wsteps_inv _ Hst Hf Hne) as (na & m & b & sig & c & d & e & x & y & gsig & Hi).
  destruct (wact_record _ _ _ _ _ _ _ _ Ha) as [HP HC]. unfold write_in_flight.
  pose proof (recv_count _ _ _ _ _ _ (proj2 (wi_link _ _ _ _ _ _ _ _ _ _ _ _ _ _ _ Hi))) as Hle.
  cbn [to_send_recv r_consumed r_produced] in Hle. rewrite nonempty_all in Hle by done.
  split; [|intros ->; by eapply wdata_lands].
  destruct a; try (rewrite HC, HP, app_nil_r by done; done).
  - rewrite HC, HP by done. by rewrite drop_app_le by lia.
  - edestruct (wget_inv sb Hsb ident) as (_ & q & Hq & HC'); [done..|exact Hi|done|exact Ha|].
    exists q. rewrite HP, HC', app_nil_r, length_app, Nat.add_1_r. split; [by apply drop_S|done].
Qed.

(** Nor does its bookkeeping raise an error of its own: a record the sender
    finds ready always carries the tag of the step it is at, and completions
    of data writes, grants and immediates always arrive for the expected step. *)
Theorem write_link_never_fails s s' a :
  steps wstep wstart s -> 2 * Z.of_nat (length (w_produced s)) + 16 < 2 ^ 63 ->
  Forall (fun p => p <> []) (w_produced s) -> walive s ->
  wquiet a -> (forall p, a = WPut p -> p <> []) -> wact a s = Some s' -> walive s'.
Proof.
  intros Hst Hf Hne Hal Hq Hp Ha.
  destruct (wsteps_inv _ Hst Hf Hne) as (na & m & b & sig & c & d & e & x & y & gsig & Hi).
  eapply (wact_inv sb Hsb ident) in Ha; [|done..|exact Hi|done|done]. destruct Ha as [_ Hal']. auto.
Qed.
End WriteTheorems.

(** ** Two executions the data plane does not survive *)

Module WriteExamples.
Definition zero (_ : Z) : Z := 0.
Definition who : RdmaProxyIdentity := Identity 0 1 0.
Definition act : write_act -> write_st -> option write_st :=
  write_act_on (proxy_fifo 16) who 4096 7 65536 kFifoSteps.
Definition start : write_st := write_init (proxy_fifo 16) 4096 7 65536 kFifoSteps zero zero zero zero.

(** Steps in which no library call fails and nobody asks to stop. *)
Definition quiet_step (s s' : write_st) : Prop := exists a, wquiet a /\ act a s = Some s'.

Lemma quiet_run l s s' : Forall wquiet l -> run_list act l s = Some s' -> steps quiet_step s s'.
Proof.
  intros Hl. apply run_list_steps. eapply Forall_impl; [exact Hl|]. intros a Ha ???. by exists a.
Qed.

Lemma quiet_steps s s' : steps quiet_step s s' ->
  steps (write_step (proxy_fifo 16) who 4096 7 65536 kFifoSteps) s s'.
Proof.
  induction 1 as [|s1 s2 s3 _ IH (a & _ & Ha)]; [done|]. eapply steps_snoc; [done|by econstructor].
Qed.

(** A turn of the receive proxy with [g] grants, [p] receives and [j - 1]
    completions. *)
Definition recv_turn (g p j : nat) : list write_act :=
  [WRBegin] ++ repeat WRGrant (S g) ++ repeat WRPost (S p) ++ [WRPoll 16] ++ repeat WRWc j.

(** The first slice is taken and its slot granted again before the send proxy,
    back from posting it, clears the record; then three more slices go
    through and the sender's kernel fills the FIFO. *)
Definition race : list write_act :=
  [WCts; WCts; WCts; WCts; WPut [1]; WSBegin; WSPost; WData] ++
  recv_turn 0 0 4 ++ [WGet] ++ recv_turn 1 1 1 ++ [WCts; WSClear] ++
  [WPut [2]; WPut [3]; WPut [4]; WSPost; WSClear; WSPost; WSClear; WSPost; WSClear; WSPost] ++
  [WData; WData; WData; WSPoll 16; WSWc; WSWc; WSWc] ++
  recv_turn 0 0 5 ++ [WGet; WGet; WGet] ++ recv_turn 3 3 1 ++ [WCts; WCts; WCts] ++
  recv_turn 0 0 2 ++ [WPut [5]; WPut [6]; WPut [7]; WPut [8]].
Definition stuck : write_st := default start (run_list act race start).

Lemma stuck_steps : steps quiet_step start stuck.
Proof. apply (quiet_run race); [by repeat constructor|vm_compute; reflexivity]. Qed.

(** Sender at step 8 with a full FIFO and no grant, receiver with every slot
    granted. *)
Record frozen (s : write_st) : Prop := {
  fz_snd : calm (w_snd s) /\ polled (w_snd s) = [] /\ c_head (w_snd s) = 8 /\ c_tail (w_snd s) = 16 /\
           next_post_step (p_pc (w_snd s)) = 8 /\ inflight (p_pc (w_snd s)) = 0 /\ sizes (w_snd s) 0 = 1;
  fz_rcv : calm (w_rcv s) /\ polled (w_rcv s) = [] /\ c_head (w_rcv s) = 8 /\ c_tail (w_rcv s) = 8 /\
           inflight (p_pc (w_rcv s)) = 4;
  fz_cts : clearing s = None /\ cts_ready (w_cts s 0) = 0;
  fz_grants : next_cts_step (w_grants s) = 16 /\ inflight_cts (w_grants s) = 0;
  fz_queues : w_sq s = [] /\ w_scq s = [] /\ w_cq s = [] /\ w_rcq s = [];
  fz_record : w_produced s = [[1]; [2]; [3]; [4]; [5]; [6]; [7]; [8]] /\
              w_consumed s = [[1]; [2]; [3]; [4]];
}.

Lemma stuck_frozen : frozen stuck.
Proof. split; vm_compute; split_and!; done. Qed.
(** Nothing leads out of such a state. *)
Lemma frozen_step a s s' : frozen s -> wquiet a -> act a s = Some s' -> frozen s'.
Proof.
  intros [((Hs1 & Hs2 & Hs3) & Hsp & Hsh & Hst & Hsn & Hsi & Hsz)
    ((Hr1 & Hr2 & Hr3) & Hrp & Hrh & Hrt & Hri) [Hcl Hrdy] [Hg1 Hg2] (Hq1 & Hq2 & Hq3 & Hq4) [HP HC]] Hq Ha.
  unfold act in Ha. unfold polled, running in *.
  destruct a; try done; cbn [write_act_on] in Ha.
  - unfold kernel_send in Ha. rewrite Hsh, Hst in Ha. done.
  - unfold kernel_recv in Ha. rewrite Hrh, Hrt in Ha. done.
  - unfold data_move in Ha. by rewrite Hq1 in Ha.
  - unfold cts_move in Ha. by rewrite Hq3 in Ha.
  - destruct (p_phase (p_pc (w_snd s))); try done. injection Ha as <-.
    split; unfold calm, polled, running, rdma_begin; simpl; rewrite ?Hs1, ?Hs2; by split_and!.
  - destruct (p_phase (p_pc (w_snd s))); try done. rewrite Hcl in Ha. unfold write_post in Ha.
    rewrite Hsi, Hsn, Hst in Ha. change (8 mod slot_count (proxy_fifo 16)) with 0 in Ha.
    rewrite Hsz, Hrdy, Hq1 in Ha. injection Ha as <-. split; unfold calm, polled, running; simpl; by split_and!.
  - by rewrite Hcl in Ha.
  - destruct (p_phase (p_pc (w_snd s))); try done. rewrite Hq2, take_nil, drop_nil in Ha.
    injection Ha as <-. split; unfold calm, polled, running; simpl; by split_and!.
  - destruct (p_phase (p_pc (w_snd s))) as [| | |[]|]; try done. injection Ha as <-.
    split; unfold calm, polled, running; simpl; by split_and!.
  - destruct (p_phase (p_pc (w_rcv s))); try done. injection Ha as <-.
    split; unfold calm, polled, running, rdma_begin; simpl; rewrite ?Hr1, ?Hr2; by split_and!.
  - destruct (p_phase (p_pc (w_rcv s))) eqn:E; try done. destruct (cts_loop _); [|done].
    unfold grant_post in Ha. rewrite Hg1, Hg2, Hrh in Ha. cbn in Ha. rewrite Hq3 in Ha. injection Ha as <-.
    split; unfold calm, polled, running; simpl; rewrite ?E; by split_and!.
  - destruct (p_phase (p_pc (w_rcv s))) eqn:E; try done. destruct (cts_loop _); [done|].
    unfold imm_post in Ha. rewrite Hri in Ha. cbn in Ha. injection Ha as <-.
    split; unfold calm, polled, running; simpl; by split_and!.
  - destruct (p_phase (p_pc (w_rcv s))); try done. rewrite Hq4, take_nil, drop_nil in Ha.
    injection Ha as <-. split; unfold calm, polled, running; simpl; by split_and!.
  - destruct (p_phase (p_pc (w_rcv s))) as [| | |[]|]; try done. injection Ha as <-.
    split; unfold calm, polled, running; simpl; by split_and!.
Qed.

Lemma frozen_steps s s' : steps quiet_step s s' -> frozen s -> frozen s'.
Proof.
  intros Hst Hfz. induction Hst as [|s1 s2 s3 _ IH (a & Hq & Ha)]; [done|].
  exact (frozen_step a _ _ (IH Hfz) Hq Ha).
Qed.

(** C40: The WRITE+CTS data plane can lose a grant and wait forever: the send proxy
    clears [ready] after the post has returned, so a grant for the next round
    that arrives in between is erased.  There is a reachable state without any
    failure in which four slices wait in the sender's FIFO and no continuation
    without a failure or a stop ever delivers another slice. *)
Theorem write_grant_lost : exists s,
  steps quiet_step start s /\ walive s /\
  write_in_flight s = [[5]; [6]; [7]; [8]] /\
  forall s', steps quiet_step s s' -> walive s' /\ w_consumed s' = w_consumed s.
Proof.
  exists stuck. pose proof stuck_frozen as Hfz.
  assert (forall s, frozen s -> walive s /\ w_consumed s = [[1]; [2]; [3]; [4]]) as Hout.
  { intros s [(? & _) (? & _) _ _ _ [_ ?]]. by split_and!. }
  split; [exact stuck_steps|]. split; [exact (proj1 (Hout _ Hfz))|].
  split; [vm_compute; reflexivity|].
  intros s' Hst.
  pose proof (frozen_steps _ _ Hst Hfz) as Hfz'.
  split; [exact (proj1 (Hout _ Hfz'))|].
  exact (eq_trans (proj2 (Hout _ Hfz')) (eq_sym (proj2 (Hout _ Hfz)))).
Qed.

(** On this data plane the guard for slices of zero bytes in the send proxy is
    not enough: the elided slice leaves its grant behind, the next slice goes
    into the slot after it while the immediate completes the slot before, and
    the receiver's kernel reads a slot nobody wrote. *)
Theorem write_empty_slice_misplaced : exists s,
  steps quiet_step start s /\ w_produced s = [[]; [9]] /\ w_consumed s = [[0]].
Proof.
  set (l := [WCts; WCts; WCts; WCts; WPut []; WPut [9]; WSBegin; WSPost; WSPost; WSClear; WData] ++
            recv_turn 0 0 4 ++ [WGet]).
  exists (default start (run_list act l start)).
  split; [apply (quiet_run l); [by repeat constructor|]|split]; vm_compute; reflexivity.
Qed.

(** *** Witnesses *)

Definition midway : write_st :=
  default start (run_list act [WCts; WCts; WPut [1; 2]; WPut [3]; WSBegin; WSPost; WSClear; WSPost; WData] start).

Lemma write_midway_steps : steps (write_step (proxy_fifo 16) who 4096 7 65536 kFifoSteps) start midway.
Proof.
  apply quiet_steps, (quiet_run [WCts; WCts; WPut [1; 2]; WPut [3]; WSBegin; WSPost; WSClear; WSPost; WData]);
    [by repeat constructor|vm_compute; reflexivity].
Qed.

Lemma write_midway_alive : walive midway.
Proof. split_and!; vm_compute; done. Qed.

Definition cleared : write_st := default start (act WSClear midway).

Lemma cleared_act : act WSClear midway = Some cleared.
Proof. vm_compute. reflexivity. Qed.

Lemma midway_full : Forall (fun p => p <> []) (w_produced midway).
Proof. vm_compute. repeat (constructor; [discriminate|]). constructor. Qed.

Lemma midway_fits : 2 * Z.of_nat (length (w_produced midway)) + 16 < 2 ^ 63.
Proof. vm_compute. reflexivity. Qed.

(** The write of the first slice lands. *)
Definition posted : write_st :=
  default start (run_list act [WCts; WCts; WPut [1; 2]; WPut [3]; WSBegin; WSPost; WSClear] start).
Definition landed : write_st := default start (act WData posted).

Lemma posted_steps : steps (write_step (proxy_fifo 16) who 4096 7 65536 kFifoSteps) start posted.
Proof.
  apply quiet_steps, (quiet_run [WCts; WCts; WPut [1; 2]; WPut [3]; WSBegin; WSPost; WSClear]);
    [by repeat constructor|vm_compute; reflexivity].
Qed.

Lemma write_link_queue_witness : lands_reserved 16 4096 7 posted /\ write_in_flight landed = [[1; 2]; [3]].
Proof.
  assert (act WData posted = Some landed) as Ha by (vm_compute; reflexivity).
  assert (Forall (fun p => p <> []) (w_produced posted)) as Hfull.
  { vm_compute. repeat (constructor; [discriminate|]). constructor. }
  assert (2 * Z.of_nat (length (w_produced posted)) + 16 < 2 ^ 63) as Hfits by (vm_compute; reflexivity).
  destruct (write_link_queue 16 ltac:(lia) who 4096 7 65536 ltac:(lia) ltac:(lia) zero zero zero zero posted landed WData
    posted_steps Hfits Hfull Ha) as [[H _] Hl].
  split; [exact (Hl eq_refl)|]. rewrite H. vm_compute. reflexivity.
Defined.

Lemma write_link_never_fails_witness : walive cleared.
Proof.
  refine (write_link_never_fails 16 _ who 4096 7 65536 _ _ zero zero zero zero midway cleared WSClear
    write_midway_steps midway_fits midway_full write_midway_alive I _ cleared_act); [lia|lia|lia|done].
Defined.
End WriteExamples.
