(* ===== verification/Bootstrap.v ===== *)
(** * Connecting the ring over TCP

    [create_communicator_from_mpi] of
    src/collective/all_reduce/mpi_communicator.cc, from the resolved edge kinds
    to the list of connections: which process connects to which for every
    socket or RDMA edge and channel, how many connections a process accepts,
    and how it checks the HELLO of each.  MPI makes the same edge kinds and
    addresses known to all processes. *)

From Stdlib Require Import ZArith Lia.
From stdpp Require Import base option numbers tactics strings list gmap.
From S2P Require Import Prelude Types Topology Wire.

#[local] Open Scope Z_scope.

(** ** The code *)

(** The loop of [process_for_global_rank] with [process] and [offset]. *)
Fixpoint process_loop (counts : list Z) (process offset global_rank : Z) : res Z :=
  match counts with
  | [] => Throw (RuntimeError "global rank does not belong to an MPI process")
  | count :: counts =>
      if global_rank <? offset + count then Ok process
      else process_loop counts (process + 1) (offset + count) global_rank
  end.

Definition process_for_global_rank (counts : list Z) (global_rank : Z) : res Z :=
  process_loop counts 0 0 global_rank.

Definition hello_key (h : SocketHello) : Z :=
  Z.lor (Z.lor (Z.shiftl (u32 (source_global_rank h)) 32)
               (Z.shiftl (u16 (destination_global_rank h)) 16))
        (u16 (hello_channel h)).

Definition is_network (k : TransportKind) : bool :=
  match k with Socket | Rdma => true | _ => false end.

Section Bootstrap.
Context `{BuildConfig}.

Definition is_expected_hello (h : SocketHello) (t : ProcessTopology)
    (process_counts : list Z) (mpi_rank : Z) : res bool :=
  let src := source_global_rank h in
  let dst := destination_global_rank h in
  if (src <? 0) || (kRanks <=? src) || negb (dst =? (src + 1) mod kRanks) ||
     (hello_channel h <? 0) || (kChannels <=? hello_channel h)
  then Ok false else
  source_process ← process_for_global_rank process_counts src;
  destination_process ← process_for_global_rank process_counts dst;
  let edge_kind := default Auto (edge_kinds t !! Z.to_nat src) in
  Ok (negb (source_process =? destination_process) &&
      ((source_process =? mpi_rank) || (destination_process =? mpi_rank)) &&
      (mpi_rank =? Z.max source_process destination_process) &&
      is_network edge_kind).

(** One edge of the connect loop: connections made (to which process, with
    which HELLO) and connections to accept. *)
Definition connect_edge (t : ProcessTopology) (process_counts : list Z) (mpi_rank edge : Z)
    (acc : list (Z * SocketHello) * Z) : res (list (Z * SocketHello) * Z) :=
  if negb (is_network (default Auto (edge_kinds t !! Z.to_nat edge))) then Ok acc else
  let receiver := (edge + 1) mod kRanks in
  source_process ← process_for_global_rank process_counts edge;
  destination_process ← process_for_global_rank process_counts receiver;
  let remote_process :=
    if source_process =? mpi_rank then destination_process else source_process in
  if negb (source_process =? mpi_rank) && negb (destination_process =? mpi_rank) then Ok acc
  else if mpi_rank <? remote_process
  then Ok (acc.1 ++ ((fun channel => (remote_process, Hello edge receiver channel))
                       <$> zrange kChannels), acc.2)
  else Ok (acc.1, acc.2 + kChannels).

Definition connect_loop (t : ProcessTopology) (mpi_rank : Z) :
    res (list (Z * SocketHello) * Z) :=
  foldM (connect_edge t (replicate (Z.to_nat kRanks) 1) mpi_rank) (zrange kRanks) ([], 0).

(** One accepted connection: keys seen and connections so far. *)
Definition accept_one (t : ProcessTopology) (process_counts : list Z) (mpi_rank : Z)
    (h : SocketHello) (acc : gset Z * list SocketHello) : res (gset Z * list SocketHello) :=
  expected ← is_expected_hello h t process_counts mpi_rank;
  if negb expected
  then Throw (RuntimeError "socket HELLO describes an unexpected ring edge")
  else if bool_decide (hello_key h ∈ acc.1)
  then Throw (RuntimeError "socket HELLO duplicates a ring edge and channel")
  else Ok ({[hello_key h]} ∪ acc.1, acc.2 ++ [h]).

(** The accept loop on HELLOs in the order they arrive. *)
Definition accept_loop (t : ProcessTopology) (mpi_rank : Z) (arrivals : list SocketHello) :
    res (list SocketHello) :=
  '(_, connections) ← foldM (accept_one t (replicate (Z.to_nat kRanks) 1) mpi_rank)
                        arrivals (∅, []);
  Ok connections.

(** ** What the loops do *)

Lemma process_loop_ones k n rank process : 0 <= rank - process < Z.of_nat n ->
  k = process -> process_loop (replicate n 1) process k rank = Ok rank.
Proof.
  revert k process. induction n as [|n IH]; intros k process Hr ->; [lia|]. simpl.
  destruct (Z.ltb_spec rank (process + 1)); [f_equal; lia|]. apply IH; [lia|done].
Qed.

Lemma process_one_per_rank rank : 0 <= rank < kRanks ->
  process_for_global_rank (replicate (Z.to_nat kRanks) 1) rank = Ok rank.
Proof. intros Hr. apply process_loop_ones; lia. Qed.

Context (t : ProcessTopology) (Hn : 2 <= kRanks).

Definition receiver (edge : Z) : Z := (edge + 1) mod kRanks.
Definition network (edge : Z) : bool := is_network (default Auto (edge_kinds t !! Z.to_nat edge)).
Definition low (edge : Z) : Z := Z.min edge (receiver edge).
Definition high (edge : Z) : Z := Z.max edge (receiver edge).
Definition hellos (edge : Z) : list SocketHello :=
  (fun channel => Hello edge (receiver edge) channel) <$> zrange kChannels.

Lemma receiver_range edge : 0 <= receiver edge < kRanks.
Proof. apply Z.mod_pos_bound. lia. Qed.

Lemma receiver_ne edge : 0 <= edge < kRanks -> receiver edge <> edge.
Proof.
  intros He Heq. unfold receiver in Heq. destruct (decide (edge + 1 = kRanks)) as [E|].
  - rewrite E, Z.mod_same in Heq by lia. lia.
  - rewrite Z.mod_small in Heq by lia. lia.
Qed.

(** Edges selected by a test, with their channels. *)
Definition select (f : Z -> bool) : list SocketHello :=
  zrange kRanks ≫= fun edge => if f edge then hellos edge else [].

Definition dialled (p edge : Z) : list (Z * SocketHello) :=
  if network edge && (low edge =? p) then (high edge,.) <$> hellos edge else [].

Lemma connect_edge_eq p edge acc : 0 <= edge < kRanks ->
  connect_edge t (replicate (Z.to_nat kRanks) 1) p edge acc =
  Ok (acc.1 ++ dialled p edge,
      acc.2 + (if network edge && (high edge =? p) then kChannels else 0)).
Proof.
  intros He. pose proof (receiver_range edge) as Hr. pose proof (receiver_ne edge He) as Hne.
  destruct acc as [l k]. unfold connect_edge, dialled, network.
  destruct (is_network _); simpl; [|by rewrite app_nil_r, Z.add_0_r].
  fold (receiver edge). rewrite !process_one_per_rank by lia. simpl. unfold low, high.
  destruct (Z.eqb_spec edge p) as [->|Hp]; simpl.
  - destruct (Z.ltb_spec p (receiver p)).
    + rewrite Z.min_l, Z.max_r, Z.eqb_refl, (proj2 (Z.eqb_neq _ _)), Z.add_0_r by lia.
      unfold hellos. by rewrite <- list_fmap_compose.
    + rewrite Z.min_r, Z.max_l, Z.eqb_refl, (proj2 (Z.eqb_neq _ _)), app_nil_r by lia. done.
  - destruct (Z.eqb_spec (receiver edge) p) as [<-|Hq]; simpl.
    + destruct (Z.ltb_spec (receiver edge) edge).
      * rewrite Z.min_r, Z.max_l, Z.eqb_refl, (proj2 (Z.eqb_neq _ _)), Z.add_0_r by lia.
        unfold hellos. by rewrite <- list_fmap_compose.
      * rewrite Z.min_l, Z.max_r, Z.eqb_refl, (proj2 (Z.eqb_neq _ _)), app_nil_r by lia. done.
    + rewrite !(proj2 (Z.eqb_neq _ _)), app_nil_r, Z.add_0_r by lia. done.
Qed.

Lemma connect_loop_eq p :
  connect_loop t p =
  Ok (zrange kRanks ≫= dialled p,
      Z.of_nat (length (select (fun e => network e && (high e =? p))))).
Proof.
  pose proof kChannels_pos.
  destruct (foldM_ok (connect_edge t (replicate (Z.to_nat kRanks) 1) p)
    (fun past acc => acc = (past ≫= dialled p, Z.of_nat (length (past ≫= fun e =>
       if network e && (high e =? p) then hellos e else [])))) (zrange kRanks) ([], 0))
    as (acc & Hacc & ->); [done| |exact Hacc].
  intros past e rest acc Hz ->. destruct (zrange_split _ _ _ _ Hz) as (_ & He & _).
  rewrite connect_edge_eq by done. eexists. split; [done|]. simpl.
  rewrite !bind_app. simpl. rewrite !app_nil_r, length_app. f_equal.
  destruct (network e && (high e =? p)); simpl; [|lia].
  unfold hellos, zrange. rewrite length_fmap, length_seqZ. lia.
Qed.

(** The HELLOs that all processes send to process [q]. *)
Definition sent_to (q : Z) : list SocketHello :=
  zrange kRanks ≫= fun p =>
    omap (fun '(dst, h) => if dst =? q then Some h else None) (zrange kRanks ≫= dialled p).

Lemma omap_dialled p q e :
  omap (fun '(dst, h) => if dst =? q then Some h else None) (dialled p e) =
  if bool_decide (p = low e) then (if network e && (high e =? q) then hellos e else []) else [].
Proof.
  unfold dialled. rewrite Z.eqb_sym. destruct (network e); simpl; [|by destruct (bool_decide _)].
  destruct (Z.eqb_spec p (low e)) as [->|Hne]; simpl;
    [rewrite bool_decide_true by done|by rewrite bool_decide_false].
  destruct (Z.eqb_spec (high e) q) as [->|Hq].
  - induction (hellos e) as [|h l IH]; simpl; [done|]. rewrite Z.eqb_refl. f_equal. apply IH.
  - induction (hellos e) as [|h l IH]; simpl; [done|]. rewrite (proj2 (Z.eqb_neq _ _)) by done. apply IH.
Qed.

Lemma sent_to_perm q : sent_to q ≡ₚ select (fun e => network e && (high e =? q)).
Proof.
  unfold sent_to, select.
  transitivity (zrange kRanks ≫= fun p => zrange kRanks ≫= fun e =>
    if bool_decide (p = low e) then (if network e && (high e =? q) then hellos e else []) else []).
  { apply bind_perm_ext. intros p _. rewrite omap_bind.
    apply bind_perm_ext. intros e _. by rewrite omap_dialled. }
  rewrite bind_swap. apply bind_perm_ext. intros e He%elem_of_zrange.
  rewrite bind_only; [done|apply NoDup_seqZ|]. apply elem_of_zrange.
  pose proof (receiver_range e). unfold low. lia.
Qed.

Lemma elem_of_select f h : h ∈ select f <->
  0 <= source_global_rank h < kRanks /\ f (source_global_rank h) = true /\
  destination_global_rank h = receiver (source_global_rank h) /\
  0 <= hello_channel h < kChannels.
Proof.
  unfold select. rewrite list_elem_of_bind. setoid_rewrite elem_of_zrange. split.
  - intros (e & Hh & He). destruct (f e) eqn:Ef; [|by apply elem_of_nil in Hh].
    unfold hellos in Hh. apply list_elem_of_fmap in Hh as (c & -> & Hc%elem_of_zrange). done.
  - destruct h as [src dst ch]. simpl. intros (Hs & Hf & -> & Hc). exists src. split; [|done].
    rewrite Hf. apply list_elem_of_fmap. exists ch. by rewrite elem_of_zrange.
Qed.

(** Keys tell apart the HELLOs of a ring whose ranks and channels fit. *)
Lemma hello_key_inj h1 h2 f : kRanks <= 2 ^ 16 -> kChannels <= 2 ^ 16 ->
  h1 ∈ select f -> h2 ∈ select f -> hello_key h1 = hello_key h2 -> h1 = h2.
Proof.
  intros Hr Hc. rewrite !elem_of_select. destruct h1 as [s1 d1 c1], h2 as [s2 d2 c2]. simpl.
  intros (Hs1 & _ & -> & Hc1) (Hs2 & _ & -> & Hc2).
  pose proof (receiver_range s1). pose proof (receiver_range s2).
  assert (forall s c, 0 <= s < kRanks -> 0 <= c < kChannels ->
    hello_key (Hello s (receiver s) c) = c + (receiver s + s * 2 ^ 16) * 2 ^ 16) as Hkey.
  { intros s c Hs0 Hc0. pose proof (receiver_range s). unfold hello_key. simpl.
    rewrite u32_small, !u16_small by lia.
    rewrite Z.lor_comm. replace (Z.shiftl s 32) with (Z.shiftl (Z.shiftl s 16) 16)
      by (rewrite Z.shiftl_shiftl by lia; done).
    rewrite <- Z.shiftl_lor, (Z.lor_comm (Z.shiftl s 16)), !lor_shiftl_add by lia. done. }
  rewrite !Hkey by lia. intros Heq. assert (s1 = s2) as -> by nia. f_equal; lia.
Qed.

Lemma expected_selected q h : 0 <= q < kRanks ->
  h ∈ select (fun e => network e && (high e =? q)) ->
  is_expected_hello h t (replicate (Z.to_nat kRanks) 1) q = Ok true.
Proof.
  intros Hq (Hs & Hf & Hd & Hc)%elem_of_select. apply andb_true_iff in Hf as [Hnet Hhi].
  unfold is_expected_hello. fold (receiver (source_global_rank h)). rewrite Hd.
  pose proof (receiver_range (source_global_rank h)). pose proof (receiver_ne _ Hs).
  rewrite !(proj2 (Z.ltb_ge _ _)), !(proj2 (Z.leb_gt _ _)), Z.eqb_refl by lia. simpl.
  rewrite !process_one_per_rank by lia. simpl. unfold high in Hhi. unfold network in Hnet.
  rewrite Hnet. f_equal. lia.
Qed.

Lemma select_NoDup f : NoDup (select f).
Proof.
  unfold select. apply NoDup_bind.
  - intros e1 e2 h _ _ H1 H2.
    destruct (f e1), (f e2); try by apply elem_of_nil in H1 || apply elem_of_nil in H2.
    unfold hellos in *. apply list_elem_of_fmap in H1 as (? & -> & _).
    apply list_elem_of_fmap in H2 as (? & [= ->] & _). done.
  - intros e _. destruct (f e); [|constructor]. apply NoDup_fmap_2_strong; [|apply NoDup_seqZ].
    by intros c1 c2 _ _ [= ->].
  - apply NoDup_seqZ.
Qed.

Lemma accept_all q arrivals : kRanks <= 2 ^ 16 -> kChannels <= 2 ^ 16 -> 0 <= q < kRanks ->
  arrivals ≡ₚ select (fun e => network e && (high e =? q)) ->
  accept_loop t q arrivals = Ok arrivals.
Proof.
  intros Hr Hc Hq Hp. assert (NoDup arrivals) as Hnd by (rewrite Hp; apply select_NoDup).
  assert (forall h, h ∈ arrivals -> h ∈ select (fun e => network e && (high e =? q))) as Hin
    by by intros h; rewrite Hp.
  destruct (foldM_ok (accept_one t (replicate (Z.to_nat kRanks) 1) q)
    (fun past acc => acc.2 = past /\ forall k, k ∈ acc.1 -> exists h, h ∈ past /\ k = hello_key h)
    arrivals (∅, [])) as ([seen conns] & E & Hconns & _).
  - split; [done|]. intros k Hk. set_solver.
  - intros past h rest [seen conns] -> [Hconns Hseen]. simpl in *. subst conns.
    assert (h ∈ past ++ h :: rest) as Hh by (apply elem_of_app; right; apply elem_of_cons; by left).
    unfold accept_one. rewrite (expected_selected q h) by auto. simpl.
    rewrite bool_decide_false.
    + eexists. split; [done|]. simpl. split; [done|]. intros k [->%elem_of_singleton|Hk]%elem_of_union.
      * exists h. split; [|done]. apply elem_of_snoc. by right.
      * destruct (Hseen k Hk) as (h' & ? & ->). exists h'. split; [|done]. apply elem_of_snoc. by left.
    + intros (h' & Hh' & Hkey)%Hseen.
      assert (h = h') as <-.
      { eapply hello_key_inj; [done|done|by apply Hin| |exact Hkey].
        apply Hin, elem_of_app. by left. }
      apply NoDup_app in Hnd as (_ & Hd & _). apply (Hd h Hh'). apply elem_of_cons. by left.
  - unfold accept_loop. rewrite E. simpl in *. by rewrite Hconns.
Qed.
End Bootstrap.

(** ** The theorems *)

(** [n] connections survive only with ranks and channels in 16 bits. *)
Definition ring_fits `{BuildConfig} : Prop := 2 <= kRanks <= 2 ^ 16 /\ kChannels <= 2 ^ 16.

(** C30: The TCP bootstrap completes: every process accepts exactly as many
    connections as the others open to it, whatever the order in which they
    arrive all of them pass the HELLO checks, and afterwards the process holds
    exactly one connection for every channel of every socket or RDMA edge it
    is an end of. *)
Theorem bootstrap_completes `{BuildConfig} t q :
  ring_fits -> 0 <= q < kRanks ->
  exists dials, connect_loop t q = Ok (dials, Z.of_nat (length (sent_to t q))) /\
    forall arrivals, arrivals ≡ₚ sent_to t q ->
      accept_loop t q arrivals = Ok arrivals /\
      (dials.*2 ++ arrivals) ≡ₚ
        select (fun e => network t e && ((e =? q) || (receiver e =? q))).
Proof.
  intros [Hr Hc] Hq. assert (2 <= kRanks) as Hn by lia. eexists. rewrite connect_loop_eq by lia. split.
  { do 3 f_equal. by rewrite sent_to_perm by lia. }
  intros arrivals Hp. rewrite sent_to_perm in Hp by lia. split; [apply accept_all; lia || done|].
  rewrite Hp. unfold select. rewrite fmap_bind_list, <- bind_app_perm. apply bind_perm_ext.
  intros e He%elem_of_zrange. pose proof (receiver_ne Hn e He) as Hne.
  unfold dialled. destruct (network t e); simpl; [|done].
  assert (((high e,.) <$> hellos e).*2 = hellos e) as Hsnd.
  { rewrite <- list_fmap_compose. apply list_fmap_id. }
  unfold low, high in *.
  destruct (Z.eqb_spec e q) as [->|Hnq]; simpl.
  - destruct (Z.ltb_spec q (receiver q)).
    + rewrite Z.min_l, Z.max_r, Z.eqb_refl, (proj2 (Z.eqb_neq _ _)), app_nil_r by lia.
      by rewrite Z.max_r in Hsnd by lia; rewrite Hsnd.
    + rewrite Z.min_r, Z.max_l, Z.eqb_refl, (proj2 (Z.eqb_neq _ _)) by lia. done.
  - destruct (Z.eqb_spec (receiver e) q) as [<-|Hnr]; simpl.
    + destruct (Z.ltb_spec (receiver e) e).
      * rewrite Z.min_r, Z.max_l, Z.eqb_refl, (proj2 (Z.eqb_neq _ _)), app_nil_r by lia.
        by rewrite Z.max_l in Hsnd by lia; rewrite Hsnd.
      * rewrite Z.min_l, Z.max_r, Z.eqb_refl, (proj2 (Z.eqb_neq _ _)) by lia. done.
    + by rewrite !(proj2 (Z.eqb_neq _ _)) by lia.
Qed.

(** The accept loop lets nothing else in: when it returns, the connections
    are what arrived, no edge and channel occurs twice, and each describes a
    network edge between this process and a lower one. *)
Theorem accept_loop_sound `{BuildConfig} t q arrivals conns :
  0 <= q < kRanks -> accept_loop t q arrivals = Ok conns ->
  conns = arrivals /\ NoDup (hello_key <$> conns) /\
  forall h, h ∈ conns ->
    0 <= hello_channel h < kChannels /\ 0 <= source_global_rank h < kRanks /\
    destination_global_rank h = receiver (source_global_rank h) /\
    network t (source_global_rank h) = true /\ high (source_global_rank h) = q.
Proof.
  intros Hq. unfold accept_loop. intros ([seen l] & E & [= <-])%bind_ok.
  apply (foldM_inv _ (fun past acc => acc.2 = past /\ NoDup (hello_key <$> past) /\
    (forall k, k ∈ acc.1 <-> k ∈ hello_key <$> past) /\
    forall h, h ∈ past ->
      0 <= hello_channel h < kChannels /\ 0 <= source_global_rank h < kRanks /\
      destination_global_rank h = receiver (source_global_rank h) /\
      network t (source_global_rank h) = true /\ high (source_global_rank h) = q)) in E
    as (Hl & Hnd & _ & Hall).
  - simpl in Hl. subst l. done.
  - simpl. split_and!; [done|constructor| |]; intros k; [set_solver|by intros ?%elem_of_nil].
  - intros past h rest [sn cs] [sn' cs'] _ (Hcs & Hnd & Hsn & Hall) Ha. simpl in *. subst cs.
    unfold accept_one in Ha. apply bind_ok in Ha as (ex & Hex & Ha).
    destruct ex; simpl in Ha; [|done].
    destruct (decide (hello_key h ∈ sn)) as [|Hni];
      [by rewrite bool_decide_true in Ha|rewrite bool_decide_false in Ha by done].
    injection Ha as <- <-. rewrite fmap_app. simpl. split_and!; [done| | |].
    + apply NoDup_app. split_and!; [done| |apply NoDup_singleton].
      intros k Hk ->%list_elem_of_singleton. by apply Hni, Hsn.
    + intros k. rewrite elem_of_union, elem_of_singleton, elem_of_snoc, Hsn. tauto.
    + intros h' [?| ->]%elem_of_snoc; [by apply Hall|].
      unfold is_expected_hello in Hex. fold (receiver (source_global_rank h)) in Hex.
      destruct (Z.ltb_spec (source_global_rank h) 0), (Z.leb_spec kRanks (source_global_rank h)),
        (Z.eqb_spec (destination_global_rank h) (receiver (source_global_rank h))),
        (Z.ltb_spec (hello_channel h) 0), (Z.leb_spec kChannels (hello_channel h));
        simpl in Hex; try done.
      pose proof (Z.mod_pos_bound (source_global_rank h + 1) kRanks kRanks_pos) as Hrr.
      fold (receiver (source_global_rank h)) in Hrr.
      rewrite e, !process_one_per_rank in Hex by lia.
      simpl in Hex. injection Hex as Hex. unfold network, high.
      destruct (is_network _) eqn:En; [|by rewrite andb_false_r in Hex]. split_and!; lia || done.
Qed.

Module BootstrapWitness.
#[local] Existing Instance small_config.

Definition mixed (rank : Z) : ProcessTopology := {|
  global_rank_count := 3; local_rank_offset := rank; devices := [0];
  edge_kinds := [Socket; Socket; Shm]; distributed := true |}.

(** Process 1 dials process 2 and accepts process 0, here in reverse order. *)
Lemma bootstrap_completes_witness :
  connect_loop (mixed 1) 1 = Ok ([(2, Hello 1 2 0); (2, Hello 1 2 1)], 2) /\
  accept_loop (mixed 1) 1 [Hello 0 1 1; Hello 0 1 0] = Ok [Hello 0 1 1; Hello 0 1 0].
Proof.
  destruct (bootstrap_completes (mixed 1) 1) as (dials & Hd & Ha);
    [unfold ring_fits; simpl; lia|simpl; lia|].
  split; [reflexivity|]. refine (proj1 (Ha _ _)). vm_compute. apply perm_swap.
Defined.

Lemma accept_loop_sound_witness : NoDup (hello_key <$> [Hello 0 1 1; Hello 0 1 0]).
Proof.
  refine (proj1 (proj2 (accept_loop_sound (mixed 1) 1 [Hello 0 1 1; Hello 0 1 0] _ _ eq_refl))).
  simpl. lia.
Defined.
End BootstrapWitness.

(** A one-rank build that asks for sockets: the process waits for connections
    to itself that nobody opens. *)
Module SingleRank.
#[local] Instance one_rank : BuildConfig.
Proof.
  refine {| kRanks := 1; kChannels := 4; kBlockThreads := 288; kFloat4Unroll := 8;
            kFifoBytes := 33554432 |};
    first [ lia | split; [lia | reflexivity] | by right ].
Defined.

Lemma single_rank_waits : connect_loop {|
  global_rank_count := 1; local_rank_offset := 0; devices := [0];
  edge_kinds := [Socket]; distributed := true |} 0 = Ok ([], 4).
Proof. reflexivity. Qed.
End SingleRank.
