(* ===== verification/NetSetup.v ===== *)
(** * Setting up the network transports of a communicator

    [setup_socket_transport] and [setup_rdma_transport] of
    src/collective/all_reduce/communicator.cu: from the connections of the
    bootstrap to the proxies.  Storage is allocated for every network edge the
    process is an end of, every connection is given to the proxy of its edge
    and channel, and the RDMA ends exchange what they need to reach each other
    before the receivers are prepared and the senders start.

    Storage, queue pairs and registration come from an environment that may
    refuse.  The order and the readiness bytes of the last phase are a step
    system at the end of the file. *)

From Stdlib Require Import ZArith Lia.
From stdpp Require Import base option numbers tactics strings list pretty.
From S2P Require Import Prelude Types Geometry Topology Control Wire SocketProxy RdmaProxy Bootstrap.

#[local] Open Scope Z_scope.

(** ** Storage of the network edges *)

(** [socket_send_resources_] and [socket_recv_resources_], by channel and edge;
    [None] is a null [unique_ptr]. *)
Record tables (A : Type) := Tables { tb_send : Z -> Z -> option A; tb_recv : Z -> Z -> option A }.
Arguments Tables {A} tb_send tb_recv.
Arguments tb_send {A} t channel edge.
Arguments tb_recv {A} t channel edge.

(** A local end of an edge on a channel. *)
Record end_key := EndKey { ek_sending : bool; ek_device : Z; ek_channel : Z; ek_edge : Z }.

Definition set2 {A} (m : Z -> Z -> option A) (channel edge : Z) (a : A) : Z -> Z -> option A :=
  upd m channel (upd (m channel) edge (Some a)).

(** A null pointer that is dereferenced has no behaviour; the theorems show
    that this does not happen. *)
Definition deref {A} (p : option A) : res A :=
  match p with Some a => Ok a | None => Throw (LogicError "null resources") end.

(** The local ends of the edges of a kind in the order of the loops that give
    them storage: per edge the sending end on every channel, then the receiving
    one. *)
Section LocalEnds.
Context `{BuildConfig} (t : ProcessTopology) (plan : RingTransportPlan) (kind : TransportKind).

Definition ends_at (sending : bool) (rank edge : Z) : res (list end_key) :=
  if negb (is_local_global_rank t rank) then Ok [] else
  local ← local_rank_for_global_rank t rank;
  device ← vec_at (devices t) local;
  Ok ((fun channel => EndKey sending device channel edge) <$> zrange kChannels).
Definition ends_of_edge (edge : Z) : res (list end_key) :=
  k ← edge_kind plan edge;
  if negb (bool_decide (k = kind)) then Ok [] else
  send ← ends_at true edge edge;
  recv ← ends_at false ((edge + 1) mod kRanks) edge;
  Ok (send ++ recv).
Definition ends_of : res (list end_key) :=
  foldM (fun edge ends => more ← ends_of_edge edge; Ok (ends ++ more)) (zrange kRanks) [].

(** No end is visited twice. *)
Definition end_id (k : end_key) : bool * Z * Z := (ek_sending k, ek_channel k, ek_edge k).

Lemma ends_at_ids sending rank edge ends : ends_at sending rank edge = Ok ends ->
  NoDup (end_id <$> ends) /\ Forall (fun k => ek_sending k = sending /\ ek_edge k = edge) ends.
Proof.
  unfold ends_at. destruct (negb _); [intros [= <-]; split; constructor|].
  intros (local & _ & (device & _ & [= <-])%bind_ok)%bind_ok. split.
  - rewrite <- list_fmap_compose. apply NoDup_fmap_2; [by intros c c' [= <-]|].
    apply NoDup_seqZ.
  - by apply Forall_fmap, Forall_true.
Qed.

Lemma ends_of_edge_ids edge ends : ends_of_edge edge = Ok ends ->
  NoDup (end_id <$> ends) /\ Forall (fun k => ek_edge k = edge) ends.
Proof.
  unfold ends_of_edge. intros (k & _ & He)%bind_ok. destruct (negb _); [injection He as <-; split; constructor|].
  apply bind_ok in He as (send & [Ns Fs]%ends_at_ids & (recv & [Nr Fr]%ends_at_ids & [= <-])%bind_ok).
  rewrite Forall_forall in Fs, Fr. split.
  - rewrite fmap_app. apply NoDup_app. split; [done|]. split; [|done].
    intros x (k1 & -> & H1)%list_elem_of_fmap (k2 & E & H2)%list_elem_of_fmap.
    destruct (Fs k1 H1), (Fr k2 H2). unfold end_id in E. congruence.
  - rewrite Forall_app, !Forall_forall. split; intros x Hx; [by apply Fs|by apply Fr].
Qed.

Lemma ends_of_ids ends : ends_of = Ok ends -> NoDup (end_id <$> ends).
Proof.
  intros He. unfold ends_of in He.
  apply (foldM_inv _ (fun past l => NoDup (end_id <$> l) /\ Forall (fun k => ek_edge k ∈ past) l)) in He; [by destruct He| |].
  { split; constructor. }
  intros past edge rest l l' Hz [Hn Hp] (more & [Nm Fm]%ends_of_edge_ids & [= <-])%bind_ok.
  destruct (zrange_split _ _ _ _ Hz) as (-> & _ & _). rewrite Forall_forall in Hp, Fm. split.
  - rewrite fmap_app. apply NoDup_app. split; [done|]. split; [|done].
    intros x (k1 & -> & H1)%list_elem_of_fmap (k2 & E & H2)%list_elem_of_fmap.
    specialize (Hp k1 H1). specialize (Fm k2 H2). unfold end_id in E. injection E as _ _ E.
    rewrite E, Fm in Hp. apply elem_of_zrange in Hp. lia.
  - rewrite Forall_app, !Forall_forall. split; intros x Hx; rewrite elem_of_snoc; [left; by apply Hp|right; by apply Fm].
Qed.
End LocalEnds.

Section Allocate.
Context `{BuildConfig} {A : Type}.
Context (make : bool -> Z -> Z -> Z -> res A).   (* sending end?, device, channel, edge *)
Context (t : ProcessTopology) (plan : RingTransportPlan) (kind : TransportKind).

Definition store_end (k : end_key) (a : A) (tb : tables A) : tables A :=
  if ek_sending k then Tables (set2 (tb_send tb) (ek_channel k) (ek_edge k) a) (tb_recv tb)
  else Tables (tb_send tb) (set2 (tb_recv tb) (ek_channel k) (ek_edge k) a).
Definition allocate_key (k : end_key) (tb : tables A) : res (tables A) :=
  a ← make (ek_sending k) (ek_device k) (ek_channel k) (ek_edge k);
  Ok (store_end k a tb).
Definition allocate_channel (sending : bool) (device edge channel : Z) (tb : tables A) : res (tables A) :=
  allocate_key (EndKey sending device channel edge) tb.

(** One end of an edge, when its rank is local. *)
Definition allocate_end (sending : bool) (rank edge : Z) (tb : tables A) : res (tables A) :=
  if negb (is_local_global_rank t rank) then Ok tb else
  local ← local_rank_for_global_rank t rank;
  device ← vec_at (devices t) local;
  foldM (allocate_channel sending device edge) (zrange kChannels) tb.

Definition allocate_edge (edge : Z) (tb : tables A) : res (tables A) :=
  k ← edge_kind plan edge;
  if negb (bool_decide (k = kind)) then Ok tb else
  tb ← allocate_end true edge edge tb;
  allocate_end false ((edge + 1) mod kRanks) edge tb.

Definition allocate_edges : res (tables A) :=
  foldM allocate_edge (zrange kRanks) (Tables (fun _ _ => None) (fun _ _ => None)).

(** The nested loops visit the ends one after the other. *)
Lemma allocate_end_keys sending rank edge ends tb : ends_at t sending rank edge = Ok ends ->
  allocate_end sending rank edge tb = foldM allocate_key ends tb.
Proof.
  unfold ends_at, allocate_end. destruct (negb _); [by intros [= <-]|].
  intros (local & Hl & (device & Hd & [= <-])%bind_ok)%bind_ok. rewrite Hl. simpl. rewrite Hd. simpl.
  by rewrite foldM_fmap.
Qed.

Lemma allocate_edge_keys edge ends tb : ends_of_edge t plan kind edge = Ok ends ->
  allocate_edge edge tb = foldM allocate_key ends tb.
Proof.
  unfold ends_of_edge, allocate_edge. intros (k & -> & He)%bind_ok. simpl.
  destruct (negb _); [by injection He as <-|].
  apply bind_ok in He as (send & Hs & (recv & Hr & [= <-])%bind_ok).
  rewrite foldM_app, (allocate_end_keys _ _ _ send) by done.
  destruct (foldM allocate_key send tb); [|done]. simpl. by apply allocate_end_keys.
Qed.

Lemma allocate_edges_keys ends : ends_of t plan kind = Ok ends ->
  allocate_edges = foldM allocate_key ends (Tables (fun _ _ => None) (fun _ _ => None)).
Proof.
  unfold ends_of, allocate_edges. set (tb0 := Tables _ _).
  change (foldM allocate_edge (zrange kRanks) tb0) with (foldM allocate_key [] tb0 ≫= foldM allocate_edge (zrange kRanks)).
  generalize (@nil end_key). generalize (zrange kRanks). intros edges.
  induction edges as [|e edges IH]; intros past He; simpl in He.
  { injection He as <-. by destruct (foldM _ _ _). }
  apply bind_ok in He as (past' & (more & Hm & [= <-])%bind_ok & He). rewrite <- (IH _ He), foldM_app.
  destruct (foldM allocate_key past tb0) as [tb|]; [|done]. simpl. by rewrite (allocate_edge_keys e more).
Qed.
End Allocate.

(** ** Sockets *)

(** A proxy as the communicator constructs it: its FIFO, its two control words
    and the connection it owns. *)
Record net_proxy := NetProxy {
  np_id : SocketProxyIdentity; np_fifo : SocketProxyFifo;
  np_data : ptr; np_head : ptr; np_tail : ptr; np_connection : SocketHello }.

Record socket_setup := SocketSetup {
  ss_resources : tables net_resources;
  ss_send : list net_proxy; ss_recv : list net_proxy;
  ss_residual : list SocketHello }.

Section Sockets.
Context `{BuildConfig} (rdma_enabled : bool).   (* NANO_NCCL_ENABLE_RDMA *)
Context (make : bool -> Z -> Z -> Z -> res net_resources).
Context (t : ProcessTopology) (plan : RingTransportPlan).

Definition ring_fifo : SocketProxyFifo := Fifo (kFifoBytes / kFifoSteps) kFifoSteps kSliceSteps.

Definition valid_identity (h : SocketHello) : bool :=
  negb ((hello_channel h <? 0) || (kChannels <=? hello_channel h) ||
        (source_global_rank h <? 0) || (kRanks <=? source_global_rank h) ||
        negb (destination_global_rank h =? (source_global_rank h + 1) mod kRanks)).

Definition make_proxy (r : net_resources) (h : SocketHello) : net_proxy :=
  let edge := source_global_rank h in
  NetProxy (Identity edge ((edge + 1) mod kRanks) (hello_channel h)) ring_fifo
    (net_fifo r) (net_control r) (word_add (net_control r) 1) h.

Definition place_connection (h : SocketHello) (s : socket_setup) : res socket_setup :=
  if negb (valid_identity h)
  then Throw (RuntimeError "socket connection has invalid ring identity") else
  let edge := source_global_rank h in
  let receiver := (edge + 1) mod kRanks in
  kind ← (if rdma_enabled then edge_kind plan edge else Ok Socket);
  if bool_decide (kind = Rdma)
  then Ok (SocketSetup (ss_resources s) (ss_send s) (ss_recv s) (ss_residual s ++ [h])) else
  if is_local_global_rank t edge then
    local ← local_rank_for_global_rank t edge;
    _ ← vec_at (devices t) local;
    r ← deref (tb_send (ss_resources s) (hello_channel h) edge);
    validate_fifo ring_fifo ;;
    Ok (SocketSetup (ss_resources s) (ss_send s ++ [make_proxy r h]) (ss_recv s) (ss_residual s))
  else
    local ← local_rank_for_global_rank t receiver;
    _ ← vec_at (devices t) local;
    r ← deref (tb_recv (ss_resources s) (hello_channel h) edge);
    validate_fifo ring_fifo ;;
    Ok (SocketSetup (ss_resources s) (ss_send s) (ss_recv s ++ [make_proxy r h]) (ss_residual s)).

Definition setup_socket_transport (connections : list SocketHello) : res socket_setup :=
  if negb (distributed t)
  then Ok (SocketSetup (Tables (fun _ _ => None) (fun _ _ => None)) [] [] connections) else
  tb ← allocate_edges make t plan Socket;
  foldM place_connection connections (SocketSetup tb [] [] []).
End Sockets.

(** ** RDMA: what the two ends of an edge tell each other *)

Definition kRdmaPeerFlagGpuDirect : Z := Z.shiftl 1 0.
Definition kRdmaPeerFlagWriteCts : Z := Z.shiftl 1 1.
Definition kRdmaPeerKnownFlags : Z := Z.lor kRdmaPeerFlagGpuDirect kRdmaPeerFlagWriteCts.

Record RdmaPeerInfo := PeerInfo {
  qpn : Z; psn : Z; port_lid : Z; gid_index : Z; gid : list Z; active_mtu : Z;
  recv_fifo_addr : Z; recv_fifo_rkey : Z; recv_fifo_bytes : Z;
  cts_fifo_addr : Z; cts_fifo_rkey : Z; cts_slot_count : Z; flags : Z }.

Definition negotiate_path_mtu (local remote : Z) : res Z :=
  if (local <? 1) || (5 <? local) || (remote <? 1) || (5 <? remote)
  then Throw (RuntimeError ("rdma path_mtu out of range (local=" +:+ pretty local
         +:+ " remote=" +:+ pretty remote +:+ ")"))
  else Ok (if local <? remote then local else remote).

(** What the process has for one end of an edge and channel: storage, address
    and key of the FIFO, the clear-to-send records (address and key, when they
    are registered), the number of the queue pair. *)
Record rdma_resources := RdmaResources {
  rr_net : net_resources; rr_data : Z; rr_rkey : Z; rr_cts : option (Z * Z); rr_qpn : Z }.

(** The endpoint and the settings of a process. *)
Record rdma_settings := Settings {
  se_lid : Z; se_gid_index : Z; se_mtu : Z; se_gid : list Z;
  se_write_cts : bool; se_gdr : bool }.

Record RdmaWriteTargets := WriteTargets {
  wt_remote_fifo_addr : Z; wt_remote_fifo_rkey : Z; wt_remote_fifo_bytes : Z;
  wt_local_cts : Z; wt_cts_slot_count : Z }.
Record RdmaCtsRemote := CtsRemote {
  cr_remote_cts_addr : Z; cr_remote_cts_rkey : Z; cr_cts_slot_count : Z;
  cr_local_shadow : Z; cr_local_recv_fifo_addr : Z; cr_local_recv_fifo_rkey : Z }.

(** The attributes of the queue pair that depend on the peer, and the index of
    the own GID. *)
Record qp_state := QpState {
  qs_dest_qpn : Z; qs_path_mtu : Z; qs_rq_psn : Z; qs_sq_psn : Z; qs_dlid : Z; qs_dgid : list Z;
  qs_sgid_index : Z }.

Record rdma_proxy := RdmaEnd {
  rx_proxy : net_proxy; rx_qpn : Z; rx_qp : qp_state;
  rx_targets : option RdmaWriteTargets; rx_cts : option RdmaCtsRemote }.

Record pending_rdma := Pending {
  pe_hello : SocketHello; pe_is_send : bool; pe_is_recv : bool;
  pe_resources : rdma_resources; pe_local : RdmaPeerInfo }.

Section Rdma.
Context `{BuildConfig} (se : rdma_settings).
Context (t : ProcessTopology) (plan : RingTransportPlan) (tb : tables rdma_resources).

Definition kLocalPsn : Z := 0.

(** [RdmaQp::local_info] and what the communicator adds. *)
Definition local_info (r : rdma_resources) (is_send is_recv : bool) : RdmaPeerInfo :=
  let fifo := se_write_cts se && is_recv in
  let cts := se_write_cts se && is_send in
  let address := match rr_cts r with Some (a, _) => a | None => 0 end in
  let key := match rr_cts r with Some (_, k) => k | None => 0 end in
  PeerInfo (rr_qpn r) 0 (se_lid se) (se_gid_index se) (se_gid se) (se_mtu se)
    (if fifo then rr_data r else 0) (if fifo then rr_rkey r else 0)
    (if fifo then u32 kFifoBytes else 0)
    (if cts then address else 0) (if cts then key else 0) (if cts then u32 kFifoSteps else 0)
    (Z.lor (if se_gdr se then kRdmaPeerFlagGpuDirect else 0)
           (if se_write_cts se then kRdmaPeerFlagWriteCts else 0)).

(** One connection of the second loop. *)
Definition gather_one (h : SocketHello) (pending : list pending_rdma) : res (list pending_rdma) :=
  if negb (valid_identity h)
  then Throw (RuntimeError "rdma connection has invalid ring identity") else
  let edge := source_global_rank h in
  kind ← edge_kind plan edge;
  if negb (bool_decide (kind = Rdma)) then Ok pending else
  let receiver := (edge + 1) mod kRanks in
  let is_send := is_local_global_rank t edge in
  let is_recv := is_local_global_rank t receiver in
  if negb is_send && negb is_recv then Ok pending else
  local ← local_rank_for_global_rank t (if is_send then edge else receiver);
  _ ← vec_at (devices t) local;
  r ← deref (if is_send then tb_send tb (hello_channel h) edge
             else tb_recv tb (hello_channel h) edge);
  Ok (pending ++ [Pending h is_send is_recv r (local_info r is_send is_recv)]).

Definition gather_pending (connections : list SocketHello) : res (list pending_rdma) :=
  foldM gather_one connections [].

(** The checks of what the peer sent. *)
Definition check_remote (p : pending_rdma) (remote : RdmaPeerInfo) : res unit :=
  let edge := source_global_rank (pe_hello p) in
  check ((Z.land (flags remote) (u32 (Z.lnot kRdmaPeerKnownFlags)) =? 0) &&
         (flags remote =? flags (pe_local p)))
    (RuntimeError ("rdma peer data plane or GDR placement mismatch for edge " +:+ pretty edge)) ;;
  if negb (se_write_cts se) then Ok tt else
  check (negb (pe_is_send p && ((recv_fifo_addr remote =? 0) || (recv_fifo_rkey remote =? 0) ||
                                (recv_fifo_bytes remote =? 0))))
    (RuntimeError "rdma WriteCts peer missing recv FIFO endpoint") ;;
  check (negb (pe_is_recv p && ((cts_fifo_addr remote =? 0) || (cts_fifo_rkey remote =? 0) ||
                                (cts_slot_count remote =? 0))))
    (RuntimeError "rdma WriteCts peer missing CTS FIFO endpoint") ;;
  check (negb (pe_is_recv p && negb (cts_slot_count remote =? u32 kFifoSteps)))
    (RuntimeError "rdma WriteCts peer CTS slot_count mismatch").

(** [transition_to_rtr] and [transition_to_rts]; [modify] is what
    [ibv_modify_qp] answers. *)
Definition transition (modify : option string) (remote : RdmaPeerInfo) : res qp_state :=
  if 0xff <? se_gid_index se
  then Throw (RuntimeError "local RDMA GID index exceeds verbs range") else
  mtu ← negotiate_path_mtu (se_mtu se) (active_mtu remote);
  match modify with
  | Some text => Throw (RuntimeError text)
  | None => Ok (QpState (qpn remote) mtu (psn remote) kLocalPsn (port_lid remote) (gid remote)
                (se_gid_index se))
  end.

(** The checks of the proxy constructors on the two data planes. *)
Definition validate_write_targets (w : RdmaWriteTargets) : res unit :=
  if (wt_remote_fifo_addr w =? 0) || (wt_remote_fifo_bytes w =? 0) || (wt_local_cts w =? 0) ||
     (wt_cts_slot_count w =? 0)
  then Throw (RuntimeError "rdma send proxy WriteCts targets are incomplete") else Ok tt.
Definition validate_cts_remote (c : RdmaCtsRemote) : res unit :=
  if (cr_remote_cts_addr c =? 0) || (cr_cts_slot_count c =? 0) ||
     (cr_local_recv_fifo_addr c =? 0) || (cr_local_shadow c =? 0)
  then Throw (RuntimeError "rdma recv proxy WriteCts CTS remote is incomplete") else Ok tt.

(** The constructors of the proxies, up to the scratch memory: the storage, the
    queue pair, the words and the error state are given, the plane is
    WRITE+CTS when there are targets. *)
Definition new_send_proxy (x : net_proxy) (qpn : Z) (qp : qp_state)
    (write_targets : option RdmaWriteTargets) : res rdma_proxy :=
  rdma_validate_fifo ring_fifo ;;
  match write_targets with Some w => validate_write_targets w | None => Ok tt end ;;
  Ok (RdmaEnd x qpn qp write_targets None).
Definition new_recv_proxy (x : net_proxy) (qpn : Z) (qp : qp_state)
    (cts_remote : option RdmaCtsRemote) : res rdma_proxy :=
  rdma_validate_fifo ring_fifo ;;
  match cts_remote with
  | Some c =>
      validate_cts_remote c ;;
      check (cr_cts_slot_count c =? slot_count ring_fifo)
        (RuntimeError "rdma WriteCts CTS slot_count must match FIFO slot_count")
  | None => Ok tt
  end ;;
  Ok (RdmaEnd x qpn qp None cts_remote).

Definition finish_send (p : pending_rdma) (remote : RdmaPeerInfo) (qp : qp_state) : res rdma_proxy :=
  let r := pe_resources p in
  new_send_proxy (make_proxy (rr_net r) (pe_hello p)) (rr_qpn r) qp
    (if se_write_cts se
     then Some (WriteTargets (recv_fifo_addr remote) (recv_fifo_rkey remote) (recv_fifo_bytes remote)
                  (match rr_cts r with Some (a, _) => a | None => 0 end) kFifoSteps)
     else None).

Definition finish_recv (flush : option string) (p : pending_rdma) (remote : RdmaPeerInfo)
    (qp : qp_state) : res rdma_proxy :=
  let r := pe_resources p in
  match (if se_gdr se then flush else None) with
  | Some text => Throw (RuntimeError ("rdma GDR receive flush setup failed for edge "
                   +:+ pretty (source_global_rank (pe_hello p)) +:+ " backend=rdma/gdr: " +:+ text))
  | None =>
    new_recv_proxy (make_proxy (rr_net r) (pe_hello p)) (rr_qpn r) qp
      (if se_write_cts se
       then Some (CtsRemote (cts_fifo_addr remote) (cts_fifo_rkey remote) (cts_slot_count remote)
                    (match rr_cts r with Some (a, _) => a | None => 0 end) (rr_data r) (rr_rkey r))
       else None)
  end.

(** The third loop: one pending end and what its peer sent. *)
Definition finish_one (modify flush : option string) (p : pending_rdma) (remote : RdmaPeerInfo) :
    res rdma_proxy :=
  check_remote p remote ;;
  qp ← transition modify remote;
  if pe_is_send p then finish_send p remote qp else finish_recv flush p remote qp.
End Rdma.

(** ** The whole set-up of one process up to the exchange *)

Section Setup.
Context `{BuildConfig} (rdma_enabled : bool) (se : rdma_settings).
Context (make_net : bool -> Z -> Z -> Z -> res net_resources).
Context (make_rdma : bool -> Z -> Z -> Z -> res rdma_resources).
Context (t : ProcessTopology) (plan : RingTransportPlan).

Definition has_rdma_edge : res bool :=
  foldM (fun edge (found : bool) =>
      if found then Ok true else k ← edge_kind plan edge; Ok (bool_decide (k = Rdma)))
    (zrange kRanks) false.

(** [setup_socket_transport] and [setup_rdma_transport] up to sending the peer
    records. *)
Definition setup_network (connections : list SocketHello) :
    res (socket_setup * tables rdma_resources * list pending_rdma) :=
  s ← setup_socket_transport rdma_enabled make_net t plan connections;
  let none := Tables (fun _ _ => None) (fun _ _ => None) in
  if negb rdma_enabled || negb (distributed t) then Ok (s, none, []) else
  some ← has_rdma_edge;
  if negb some then Ok (s, none, []) else
  tb ← allocate_edges make_rdma t plan Rdma;
  pending ← gather_pending se t plan tb (ss_residual s);
  Ok (s, tb, pending).
End Setup.

(** ** Allocation *)

Section Allocated.
Context `{BuildConfig} {A : Type} (q device : Z) (kinds : list TransportKind) (kind : TransportKind).
Context (val : bool -> Z -> Z -> A) (make : bool -> Z -> Z -> Z -> res A).
Context (Hkinds : vec_size kinds = kRanks) (Hq : 0 <= q < kRanks).
Context (Hmake : forall s c e, make s device c e = Ok (val s c e)).

(** The topology of process [q] of a ring over MPI. *)
Definition ring_topology (q device : Z) (kinds : list TransportKind) : ProcessTopology := {|
  global_rank_count := kRanks; local_rank_offset := q; devices := [device];
  edge_kinds := kinds; distributed := true |}.

Lemma ring_is_local e : is_local_global_rank (ring_topology q device kinds) e = (e =? q).
Proof.
  unfold is_local_global_rank, vec_size. simpl.
  change (Z.of_nat 1) with 1.
  destruct (Z.leb_spec q e), (Z.ltb_spec e (q + 1)), (Z.eqb_spec e q); simpl; first [done | exfalso; lia].
Qed.

Lemma ring_local_rank : local_rank_for_global_rank (ring_topology q device kinds) q = Ok 0.
Proof.
  unfold local_rank_for_global_rank. rewrite ring_is_local, Z.eqb_refl. simpl. by rewrite Z.sub_diag.
Qed.

Definition kind_of (kinds : list TransportKind) (e : Z) : TransportKind :=
  default Auto (kinds !! Z.to_nat e).

Lemma ring_edge_kind e : 0 <= e < kRanks -> edge_kind (Plan kinds) e = Ok (kind_of kinds e).
Proof.
  intros He. unfold edge_kind, vec_at, kind_of. simpl. rewrite (proj2 (Z.ltb_ge _ _)) by lia.
  destruct (lookup_lt_is_Some_2 kinds (Z.to_nat e)) as [k ->]; [unfold vec_size in Hkinds; lia|done].
Qed.

Lemma set2_spec (m : Z -> Z -> option A) c e a c' e' :
  set2 m c e a c' e' = if (c' =? c) && (e' =? e) then Some a else m c' e'.
Proof. unfold set2, upd. destruct (Z.eqb_spec c' c) as [->|]; simpl; [by destruct (e' =? e)|done]. Qed.

(** One end after its loop over the channels. *)
Lemma allocate_end_ok sending rank edge tb :
  exists tb', allocate_end make (ring_topology q device kinds) sending rank edge tb = Ok tb' /\
    forall c e, 0 <= c < kChannels ->
      tb_send tb' c e = (if sending && (rank =? q) && (e =? edge) then Some (val true c edge) else tb_send tb c e) /\
      tb_recv tb' c e = (if negb sending && (rank =? q) && (e =? edge) then Some (val false c edge) else tb_recv tb c e).
Proof.
  unfold allocate_end. rewrite ring_is_local.
  destruct (Z.eqb_spec rank q) as [->|]; simpl.
  2: { exists tb. split; [done|]. intros. by rewrite !andb_false_r. }
  rewrite ring_local_rank. simpl.
  destruct (foldM_ok (allocate_channel make sending device edge) (fun past tb' => forall c e,
      tb_send tb' c e = (if sending && bool_decide (c ∈ past) && (e =? edge) then Some (val true c edge) else tb_send tb c e) /\
      tb_recv tb' c e = (if negb sending && bool_decide (c ∈ past) && (e =? edge) then Some (val false c edge) else tb_recv tb c e))
    (zrange kChannels) tb) as (tb' & -> & Htb').
  - intros c e. rewrite bool_decide_eq_false_2 by by intros ?%elem_of_nil. by rewrite !andb_false_r.
  - intros past c0 rest tb0 _ Hpast. unfold allocate_channel, allocate_key. simpl. rewrite Hmake. simpl.
    eexists. split; [done|]. intros c e. unfold store_end. simpl. destruct (Hpast c e) as [E1 E2].
    assert (bool_decide (c ∈ past ++ [c0]) = bool_decide (c ∈ past) || (c =? c0)) as ->.
    { destruct (Z.eqb_spec c c0) as [->|Hne].
      - rewrite orb_true_r. apply bool_decide_eq_true_2, elem_of_snoc. by right.
      - rewrite orb_false_r. apply bool_decide_ext. rewrite elem_of_snoc. tauto. }
    destruct sending; simpl in *; rewrite ?set2_spec, E1, E2; split; try done.
    all: destruct (Z.eqb_spec c c0) as [->|]; [|by rewrite orb_false_r].
    all: by destruct (bool_decide (c0 ∈ past)), (e =? edge).
  - exists tb'. split; [done|]. intros c e Hc. destruct (Htb' c e) as [-> ->].
    rewrite bool_decide_eq_true_2 by by apply elem_of_zrange. by rewrite !andb_true_r.
Qed.

(** What process [q] has allocated: its end of every edge of the kind. *)
Definition allocated (tb : tables A) : Prop := forall c e, 0 <= c < kChannels -> 0 <= e < kRanks ->
  tb_send tb c e = (if bool_decide (kind_of kinds e = kind) && (e =? q) then Some (val true c e) else None) /\
  tb_recv tb c e = (if bool_decide (kind_of kinds e = kind) && ((e + 1) mod kRanks =? q)
                    then Some (val false c e) else None).

Lemma allocate_edges_ok :
  exists tb, allocate_edges make (ring_topology q device kinds) (Plan kinds) kind = Ok tb /\ allocated tb.
Proof.
  unfold allocate_edges.
  destruct (foldM_ok (allocate_edge make (ring_topology q device kinds) (Plan kinds) kind)
    (fun past tb => forall c e, 0 <= c < kChannels ->
      tb_send tb c e = (if bool_decide (e ∈ past) && bool_decide (kind_of kinds e = kind) && (e =? q) then Some (val true c e) else None) /\
      tb_recv tb c e = (if bool_decide (e ∈ past) && bool_decide (kind_of kinds e = kind) && ((e + 1) mod kRanks =? q)
                        then Some (val false c e) else None))
    (zrange kRanks) (Tables (fun _ _ => None) (fun _ _ => None))) as (tb & -> & Htb).
  - intros c e _. by rewrite bool_decide_eq_false_2 by by intros ?%elem_of_nil.
  - intros past e0 rest tb Hz Hpast. destruct (zrange_split _ _ _ _ Hz) as (-> & He0 & _).
    unfold allocate_edge. rewrite ring_edge_kind by done. simpl.
    assert (forall e, bool_decide (e ∈ zrange e0 ++ [e0]) = bool_decide (e ∈ zrange e0) || (e =? e0)) as Hin.
    { intros e. destruct (Z.eqb_spec e e0) as [->|Hne].
      - rewrite orb_true_r. apply bool_decide_eq_true_2, elem_of_snoc. by right.
      - rewrite orb_false_r. apply bool_decide_ext. rewrite elem_of_snoc. tauto. }
    assert (bool_decide (e0 ∈ zrange e0) = false) as Hnew.
    { apply bool_decide_eq_false_2. rewrite elem_of_zrange. lia. }
    destruct (bool_decide (kind_of kinds e0 = kind)) eqn:Hk; simpl.
    + destruct (allocate_end_ok true e0 e0 tb) as (tb1 & -> & H1). simpl.
      destruct (allocate_end_ok false ((e0 + 1) mod kRanks) e0 tb1) as (tb2 & -> & H2).
      exists tb2. split; [done|]. intros c e Hc. destruct (H2 c e Hc) as [-> ->].
      destruct (H1 c e Hc) as [-> ->]. destruct (Hpast c e Hc) as [-> ->]. simpl. rewrite Hin.
      destruct (Z.eqb_spec e e0) as [->|]; [|by rewrite !andb_false_r, orb_false_r].
      by rewrite Hnew, Hk, !andb_true_r.
    + exists tb. split; [done|]. intros c e Hc. destruct (Hpast c e Hc) as [-> ->]. rewrite Hin.
      destruct (Z.eqb_spec e e0) as [->|]; [by rewrite Hnew, Hk|by rewrite orb_false_r].
  - exists tb. split; [done|]. intros c e Hc He. destruct (Htb c e Hc) as [-> ->].
    by rewrite bool_decide_eq_true_2 by by apply elem_of_zrange.
Qed.
End Allocated.

(** ** The connections of one process *)

Section Placed.
Context `{BuildConfig} (q device : Z) (kinds : list TransportKind) (rdma_enabled : bool).
Context (net : bool -> Z -> Z -> net_resources) (make_net : bool -> Z -> Z -> Z -> res net_resources).
Context (Hkinds : vec_size kinds = kRanks) (Hq : 0 <= q < kRanks) (Hn : 2 <= kRanks).
Context (Hfifo : 8 <= kFifoBytes < 2 ^ 62).
Context (Hnet : forall s c e, make_net s device c e = Ok (net s c e)).
Context (Hrdma : rdma_enabled = false -> forall e, kind_of kinds e <> Rdma).

Abbreviation topo := (ring_topology q device kinds).

(** What the bootstrap leaves: one connection per channel of every network
    edge at this process, in any order. *)
Definition own_edges (e : Z) : bool := network topo e && ((e =? q) || (receiver e =? q)).
Context (conns : list SocketHello) (Hconns : conns ≡ₚ select own_edges).

Lemma conn_facts h : h ∈ conns ->
  valid_identity h = true /\ 0 <= source_global_rank h < kRanks /\ 0 <= hello_channel h < kChannels /\
  is_network (kind_of kinds (source_global_rank h)) = true /\
  destination_global_rank h = (source_global_rank h + 1) mod kRanks /\
  ((source_global_rank h =? q) = negb ((source_global_rank h + 1) mod kRanks =? q)).
Proof.
  rewrite Hconns. intros (Hs & Hf & Hd & Hc)%elem_of_select.
  unfold own_edges in Hf. apply andb_true_iff in Hf as [Hk He].
  pose proof (receiver_ne Hn _ Hs) as Hne. unfold receiver in *.
  split; [|split; [done|]; split; [done|]; split; [exact Hk|]; split; [done|]].
  - unfold valid_identity. rewrite Hd, Z.eqb_refl.
    rewrite !(proj2 (Z.ltb_ge _ _)), !(proj2 (Z.leb_gt _ _)) by lia. done.
  - destruct (Z.eqb_spec (source_global_rank h) q), (Z.eqb_spec ((source_global_rank h + 1) mod kRanks) q);
      simpl in *; congruence.
Qed.

Definition proxy_of (sending : bool) (h : SocketHello) : net_proxy :=
  make_proxy (net sending (hello_channel h) (source_global_rank h)) h.

Definition socket_from (h : SocketHello) : Prop :=
  kind_of kinds (source_global_rank h) = Socket /\ source_global_rank h = q.
Definition socket_to (h : SocketHello) : Prop :=
  kind_of kinds (source_global_rank h) = Socket /\ source_global_rank h <> q.
Definition over_rdma (h : SocketHello) : Prop := kind_of kinds (source_global_rank h) = Rdma.
#[local] Instance socket_from_dec h : Decision (socket_from h).
Proof. unfold socket_from. apply _. Defined.
#[local] Instance socket_to_dec h : Decision (socket_to h).
Proof. unfold socket_to. apply _. Defined.
#[local] Instance over_rdma_dec h : Decision (over_rdma h).
Proof. unfold over_rdma. apply _. Defined.

Lemma ring_fifo_valid : validate_fifo ring_fifo = Ok tt /\ rdma_validate_fifo ring_fifo = Ok tt.
Proof.
  assert (1 <= kFifoBytes / kFifoSteps <= kFifoBytes) as Hb
    by (unfold kFifoSteps; split; [apply Z.div_le_lower_bound; lia|apply Z.div_le_upper_bound; lia]).
  assert ((kFifoBytes / kFifoSteps =? 0) = false) as E1 by (apply Z.eqb_neq; lia).
  assert ((SIZE_MAX / (kFifoBytes / kFifoSteps) <? kFifoSteps) = false) as E2.
  { apply Z.ltb_ge, Z.div_le_lower_bound; [lia|]. unfold kFifoSteps in *. unfold SIZE_MAX.
    pose proof (Z.mul_div_le kFifoBytes 8). lia. }
  unfold validate_fifo, rdma_validate_fifo, ring_fifo. cbn [slot_bytes slot_count step_increment].
  rewrite E1, E2. done.
Qed.

Lemma setup_socket_ok :
  exists tb, setup_socket_transport rdma_enabled make_net topo (Plan kinds) conns =
    Ok (SocketSetup tb (proxy_of true <$> filter socket_from conns)
          (proxy_of false <$> filter socket_to conns) (filter over_rdma conns)) /\
    allocated q kinds Socket net tb.
Proof.
  destruct (allocate_edges_ok q device kinds Socket net make_net Hkinds Hq Hnet) as (tb & Hal & Htb).
  exists tb. split; [|done]. unfold setup_socket_transport. cbn [negb ring_topology distributed].
  rewrite Hal. cbn [mbind res_bind].
  destruct (foldM_ok (place_connection rdma_enabled topo (Plan kinds))
    (fun past s => s = SocketSetup tb (proxy_of true <$> filter socket_from past)
       (proxy_of false <$> filter socket_to past) (filter over_rdma past))
    conns (SocketSetup tb [] [] [])) as (s & -> & ->); [done| |done].
  intros past h rest s Hsplit ->. eexists. split; [|done].
  assert (h ∈ conns) as Hin by (rewrite Hsplit; apply elem_of_app; right; left).
  destruct (conn_facts h Hin) as (Hv & Hs & Hc & Hk & Hd & Hend).
  destruct (Htb (hello_channel h) (source_global_rank h) Hc Hs) as [Ts Tr].
  unfold place_connection. rewrite Hv. cbn [negb].
  rewrite (ring_edge_kind kinds Hkinds) by done.
  rewrite !filter_app, !fmap_app, !filter_cons, !filter_nil.
  destruct (kind_of kinds (source_global_rank h)) eqn:Hkind; try done.
  - rewrite (decide_False (P := over_rdma h)), app_nil_r by (unfold over_rdma; congruence).
    replace (if rdma_enabled then _ else _) with (@Ok TransportKind Socket) by by destruct rdma_enabled.
    cbn [mbind res_bind]. rewrite bool_decide_eq_false_2, ring_is_local by done.
    cbn [ss_resources ss_send ss_recv ss_residual].
    rewrite (proj2 (bool_decide_eq_true _)) in Ts, Tr by done. cbn [andb] in Ts, Tr.
    rewrite (proj1 ring_fifo_valid).
    destruct (Z.eqb_spec (source_global_rank h) q) as [Hsrc|Hsrc].
    + rewrite Hsrc, ring_local_rank, <- Hsrc, Ts. cbn.
      rewrite (decide_True (P := socket_from h)), (decide_False (P := socket_to h)), app_nil_r
        by (unfold socket_from, socket_to; tauto). done.
    + destruct (Z.eqb_spec ((source_global_rank h + 1) mod kRanks) q) as [Hrcv|]; [|done].
      rewrite Hrcv, ring_local_rank, Tr. cbn.
      rewrite (decide_True (P := socket_to h)), (decide_False (P := socket_from h)), app_nil_r
        by (unfold socket_from, socket_to; tauto). done.
  - rewrite (decide_True (P := over_rdma h)) by done.
    rewrite (decide_False (P := socket_from h)), (decide_False (P := socket_to h)), !app_nil_r
      by (unfold socket_from, socket_to; rewrite Hkind; intros []; done).
    destruct rdma_enabled; [done|]. by destruct (Hrdma eq_refl (source_global_rank h)).
Qed.

(** The connections of one edge among those of the process. *)
Lemma edge_connections (P : SocketHello -> Prop) `{!forall h, Decision (P h)} (own : bool) (e : Z) :
  (forall h, h ∈ conns -> P h <-> own = true /\ source_global_rank h = e) ->
  (own = true -> 0 <= e < kRanks /\ own_edges e = true) ->
  filter P conns ≡ₚ (if own then hellos e else []).
Proof.
  intros HP Hown. apply NoDup_Permutation.
  - apply NoDup_filter. rewrite Hconns. by apply select_NoDup.
  - destruct own; [|constructor]. apply NoDup_fmap_2; [|apply NoDup_seqZ].
    intros c c' [=]. done.
  - intros h. rewrite list_elem_of_filter. split.
    + intros [Hp Hin]. apply (HP h Hin) in Hp as [-> <-].
      rewrite Hconns in Hin. apply elem_of_select in Hin as (_ & _ & Hd & Hc).
      apply list_elem_of_fmap. exists (hello_channel h).
      split; [|by apply elem_of_zrange]. rewrite <- Hd. by destruct h.
    + intros Hh. destruct own; [|by apply elem_of_nil in Hh]. destruct (Hown eq_refl) as [He Hoe].
      apply list_elem_of_fmap in Hh as (c & -> & Hc%elem_of_zrange).
      assert (Hello e (receiver e) c ∈ conns) as Hin.
      { rewrite Hconns. by apply elem_of_select. }
      split; [|done]. by apply HP.
Qed.

Definition sender_to (r : Z) : Z := (r + kRanks - 1) mod kRanks.

Lemma receiver_of_sender r : 0 <= r < kRanks -> receiver (sender_to r) = r.
Proof.
  intros Hr. unfold receiver, sender_to. rewrite Zplus_mod_idemp_l.
  replace (r + kRanks - 1 + 1) with (r + 1 * kRanks) by lia.
  rewrite Z.mod_add by lia. by apply Z.mod_small.
Qed.

Lemma sender_of_receiver e : 0 <= e < kRanks -> sender_to (receiver e) = e.
Proof. apply prev_of_next. Qed.

Lemma conn_from h : h ∈ conns -> source_global_rank h <> q -> source_global_rank h = sender_to q.
Proof.
  intros Hin Hne. destruct (conn_facts h Hin) as (_ & Hs & _ & _ & _ & Hend).
  rewrite (proj2 (Z.eqb_neq _ _) Hne) in Hend.
  destruct (Z.eqb_spec ((source_global_rank h + 1) mod kRanks) q) as [<-|]; [|done].
  symmetry. by apply sender_of_receiver.
Qed.

Lemma own_from : is_network (kind_of kinds q) = true -> own_edges q = true.
Proof. intros Hk. unfold own_edges, network. simpl. unfold kind_of in Hk. by rewrite Hk, Z.eqb_refl. Qed.
Lemma own_to : is_network (kind_of kinds (sender_to q)) = true -> own_edges (sender_to q) = true.
Proof.
  intros Hk. unfold own_edges, network. simpl. unfold kind_of in Hk.
  rewrite Hk, receiver_of_sender, Z.eqb_refl by done. by rewrite orb_true_r.
Qed.
Lemma sender_range : 0 <= sender_to q < kRanks.
Proof. apply Z.mod_pos_bound. lia. Qed.
Lemma sender_ne : sender_to q <> q.
Proof.
  intros He. pose proof (receiver_of_sender q Hq) as Hr. rewrite He in Hr.
  by apply (receiver_ne Hn q Hq).
Qed.

Lemma sockets_from :
  filter socket_from conns ≡ₚ (if bool_decide (kind_of kinds q = Socket) then hellos q else []).
Proof.
  apply edge_connections.
  - intros h Hin. rewrite bool_decide_eq_true. unfold socket_from. split; intros [H1 H2]; by rewrite H2 in *.
  - rewrite bool_decide_eq_true. intros Hk. split; [done|]. apply own_from. by rewrite Hk.
Qed.

Lemma sockets_to :
  filter socket_to conns ≡ₚ
  (if bool_decide (kind_of kinds (sender_to q) = Socket) then hellos (sender_to q) else []).
Proof.
  apply edge_connections.
  - intros h Hin. rewrite bool_decide_eq_true. unfold socket_to. split.
    + intros [H1 H2]. pose proof (conn_from h Hin H2) as Hc. by rewrite Hc in *.
    + intros [H1 H2]. rewrite H2. split; [done|apply sender_ne].
  - rewrite bool_decide_eq_true. intros Hk. split; [apply sender_range|]. apply own_to. by rewrite Hk.
Qed.

(** *** RDMA *)

Context (se : rdma_settings).
Context (rdma : bool -> Z -> Z -> rdma_resources) (make_rdma : bool -> Z -> Z -> Z -> res rdma_resources).
Context (Hrd : forall s c e, make_rdma s device c e = Ok (rdma s c e)).

(** The end of a connection at this process. *)
Definition pending_of (h : SocketHello) : pending_rdma :=
  let s := source_global_rank h =? q in
  let r := rdma s (hello_channel h) (source_global_rank h) in
  Pending h s (negb s) r (local_info se r s (negb s)).

Lemma gather_ok tb : allocated q kinds Rdma rdma tb ->
  gather_pending se topo (Plan kinds) tb (filter over_rdma conns) =
  Ok (pending_of <$> filter over_rdma conns).
Proof.
  intros Htb. unfold gather_pending.
  destruct (foldM_ok (gather_one se topo (Plan kinds) tb) (fun past l => l = pending_of <$> past)
    (filter over_rdma conns) []) as (l & -> & ->); [done| |done].
  intros past h rest l Hsplit ->. eexists. split; [|by rewrite fmap_app].
  assert (h ∈ filter over_rdma conns) as Hin by (rewrite Hsplit; apply elem_of_app; right; left).
  apply list_elem_of_filter in Hin as [Hk Hin].
  destruct (conn_facts h Hin) as (Hv & Hs & Hc & _ & Hd & Hend).
  destruct (Htb (hello_channel h) (source_global_rank h) Hc Hs) as [Ts Tr].
  unfold gather_one. rewrite Hv. cbn [negb]. rewrite (ring_edge_kind kinds Hkinds) by done.
  unfold over_rdma in Hk. rewrite Hk in *. cbn [mbind res_bind].
  rewrite (proj2 (bool_decide_eq_true _)) in Ts, Tr by done. cbn [andb] in Ts, Tr.
  rewrite bool_decide_eq_true_2, !ring_is_local by done. cbn [negb].
  unfold pending_of. simpl fmap.
  destruct (Z.eqb_spec (source_global_rank h) q) as [Hsrc|Hsrc];
    destruct (Z.eqb_spec ((source_global_rank h + 1) mod kRanks) q) as [Hrcv|]; try done; simpl in Hend |- *.
  - rewrite Hsrc, ring_local_rank, <- Hsrc, Ts. done.
  - rewrite Hrcv, ring_local_rank, Tr. done.
Qed.

Definition rdma_edge (e : Z) : list SocketHello :=
  if bool_decide (kind_of kinds e = Rdma) then hellos e else [].

Lemma rdma_conns : filter over_rdma conns ≡ₚ rdma_edge q ++ rdma_edge (sender_to q).
Proof.
  rewrite <- (filter_app_complement (fun h => source_global_rank h = q) (filter over_rdma conns)).
  rewrite !list_filter_filter. f_equiv.
  - apply edge_connections.
    + intros h Hin. rewrite bool_decide_eq_true. unfold over_rdma.
      split; intros [H1 H2]; split; congruence.
    + rewrite bool_decide_eq_true. intros Hk. split; [done|]. apply own_from. by rewrite Hk.
  - apply edge_connections.
    + intros h Hin. rewrite bool_decide_eq_true. unfold over_rdma. split.
      * intros [H1 H2]. pose proof (conn_from h Hin H1). split; congruence.
      * intros [H1 H2]. pose proof sender_ne. split; congruence.
    + rewrite bool_decide_eq_true. intros Hk. split; [apply sender_range|]. apply own_to. by rewrite Hk.
Qed.

Lemma has_rdma_edge_ok :
  has_rdma_edge (Plan kinds) = Ok (existsb (fun e => bool_decide (kind_of kinds e = Rdma)) (zrange kRanks)).
Proof.
  unfold has_rdma_edge.
  destruct (foldM_ok (fun edge (found : bool) =>
      if found then Ok true else k ← edge_kind (Plan kinds) edge; Ok (bool_decide (k = Rdma)))
    (fun past b => b = existsb (fun e => bool_decide (kind_of kinds e = Rdma)) past)
    (zrange kRanks) false) as (b & -> & ->); [done| |done].
  intros past e rest b Hz ->. destruct (zrange_split _ _ _ _ Hz) as (_ & He & _).
  eexists. split; [|done]. rewrite existsb_app. simpl. rewrite orb_false_r.
  destruct (existsb _ past); [done|]. by rewrite (ring_edge_kind kinds Hkinds).
Qed.

Lemma no_rdma_edge : existsb (fun e => bool_decide (kind_of kinds e = Rdma)) (zrange kRanks) = false ->
  rdma_edge q ++ rdma_edge (sender_to q) = [].
Proof.
  intros Hx. assert (forall e, 0 <= e < kRanks -> bool_decide (kind_of kinds e = Rdma) = false) as Hf.
  { intros e He. destruct (bool_decide (kind_of kinds e = Rdma)) eqn:Hk; [|done].
    rewrite <- Hx. symmetry. apply existsb_exists. exists e. split; [|done].
    by apply list_elem_of_In, elem_of_zrange. }
  unfold rdma_edge. rewrite !Hf by (done || apply sender_range). done.
Qed.

(** What the set-up of process [q] has made: a proxy for every channel of its
    socket edges, and an end to be exchanged for every channel of its RDMA
    edges. *)
Definition socket_proxies (sending : bool) (e : Z) : list net_proxy :=
  if bool_decide (kind_of kinds e = Socket) then proxy_of sending <$> hellos e else [].

Lemma filter_sockets (sending : bool) (P : SocketHello -> Prop) `{!forall h, Decision (P h)} e :
  filter P conns ≡ₚ (if bool_decide (kind_of kinds e = Socket) then hellos e else []) ->
  proxy_of sending <$> filter P conns ≡ₚ socket_proxies sending e.
Proof. intros ->. unfold socket_proxies. by destruct (bool_decide _). Qed.

Lemma setup_network_ok :
  exists s tb pending,
    setup_network rdma_enabled se make_net make_rdma topo (Plan kinds) conns = Ok (s, tb, pending) /\
    allocated q kinds Socket net (ss_resources s) /\
    ss_send s ≡ₚ socket_proxies true q /\ ss_recv s ≡ₚ socket_proxies false (sender_to q) /\
    pending ≡ₚ pending_of <$> (rdma_edge q ++ rdma_edge (sender_to q)).
Proof.
  unfold setup_network. destruct setup_socket_ok as (tb & -> & Htb). cbn [mbind res_bind].
  assert (proxy_of true <$> filter socket_from conns ≡ₚ socket_proxies true q) as H1
    by apply filter_sockets, sockets_from.
  assert (proxy_of false <$> filter socket_to conns ≡ₚ socket_proxies false (sender_to q)) as H2
    by apply filter_sockets, sockets_to.
  destruct rdma_enabled eqn:Hen; cbn [negb orb ring_topology distributed].
  - rewrite has_rdma_edge_ok. cbn [mbind res_bind].
    destruct (existsb _ _) eqn:Hx; cbn [negb].
    + destruct (allocate_edges_ok q device kinds Rdma rdma make_rdma Hkinds Hq Hrd) as (tr & -> & Htr).
      cbn [mbind res_bind ss_residual]. rewrite gather_ok by done.
      eexists _, _, _. split; [done|]. repeat (split; [done|]). by rewrite rdma_conns.
    + eexists _, _, _. split; [done|]. repeat (split; [done|]). by rewrite no_rdma_edge.
  - eexists _, _, _. split; [done|]. repeat (split; [done|]).
    unfold rdma_edge. rewrite !bool_decide_eq_false_2 by by apply Hrdma. done.
Qed.
End Placed.

(** ** A set-up that gets what it asks for *)

(** The situation of one process of a ring after the bootstrap; the build has
    RDMA when an edge needs it, and the environment refuses nothing. *)
Record setup_given `{BuildConfig} (q device : Z) (kinds : list TransportKind) (rdma_enabled : bool)
    (net : bool -> Z -> Z -> net_resources) (make_net : bool -> Z -> Z -> Z -> res net_resources)
    (rdma : bool -> Z -> Z -> rdma_resources) (make_rdma : bool -> Z -> Z -> Z -> res rdma_resources)
    (conns : list SocketHello) : Prop := {
  sg_kinds : vec_size kinds = kRanks;
  sg_rank : 0 <= q < kRanks;
  sg_ring : 2 <= kRanks;
  sg_fifo : 8 <= kFifoBytes < 2 ^ 62;
  sg_rdma : rdma_enabled = false -> forall e, kind_of kinds e <> Rdma;
  sg_conns : conns ≡ₚ select (own_edges q device kinds);
  sg_net s c e : make_net s device c e = Ok (net s c e);
  sg_make s c e : make_rdma s device c e = Ok (rdma s c e) }.

(** What a launch reads of the tables of the communicator. *)
Definition launch_reads (s : socket_setup) (ls : launch_storage) : Prop :=
  forall c e, ls_socket_send ls c e = default (Net None None) (tb_send (ss_resources s) c e) /\
              ls_socket_recv ls c e = default (Net None None) (tb_recv (ss_resources s) c e).

Lemma hellos_edge `{BuildConfig} e h : h ∈ hellos e ->
  source_global_rank h = e /\ 0 <= hello_channel h < kChannels /\ h = Hello e (receiver e) (hello_channel h).
Proof. intros (c & -> & Hc%elem_of_zrange)%list_elem_of_fmap. done. Qed.

(** The set-up of a process succeeds on whatever order the bootstrap leaves the
    connections in: a send proxy for every channel of the outgoing socket edge,
    a receive proxy for every channel of the incoming one, an end to exchange
    for every channel of the RDMA edges; and the proxies and the kernels use the
    same FIFOs and control words. *)
Theorem network_setup_complete `{BuildConfig} q device kinds rdma_enabled net make_net se rdma
    make_rdma conns :
  setup_given q device kinds rdma_enabled net make_net rdma make_rdma conns ->
  exists s tb pending,
    setup_network rdma_enabled se make_net make_rdma (ring_topology q device kinds) (Plan kinds) conns
      = Ok (s, tb, pending) /\
    ss_send s ≡ₚ socket_proxies kinds net true q /\
    ss_recv s ≡ₚ socket_proxies kinds net false (sender_to q) /\
    pending ≡ₚ pending_of q se rdma <$> (rdma_edge kinds q ++ rdma_edge kinds (sender_to q)) /\
    forall ls, launch_reads s ls ->
      (forall p, p ∈ ss_send s -> id_source (np_id p) = q /\
         send_end ls Socket q (id_channel (np_id p)) = Ok (np_data p, np_head p, np_tail p)) /\
      (forall p, p ∈ ss_recv s -> id_destination (np_id p) = q /\
         recv_end ls Socket (sender_to q) (id_channel (np_id p)) = Ok (np_data p, np_head p, np_tail p)).
Proof.
  intros [Hk Hq Hn Hf Hr Hc Hnet Hmake].
  destruct (setup_network_ok q device kinds rdma_enabled net make_net Hk Hq Hn Hf Hnet Hr conns Hc
    se rdma make_rdma Hmake) as (s & tb & pending & Hs & Hal & H1 & H2 & H3).
  exists s, tb, pending. repeat (split; [done|]). intros ls Hls.
  split; intros p Hp; [rewrite H1 in Hp|rewrite H2 in Hp];
    unfold socket_proxies in Hp; case_bool_decide as Hkind; try by apply elem_of_nil in Hp.
  - apply list_elem_of_fmap in Hp as (h & -> & Hh). destruct (hellos_edge q h Hh) as (Hsrc & Hch & ->).
    split; [done|]. simpl in *. unfold send_end. simpl.
    destruct (Hls (hello_channel h) q) as [-> _].
    destruct (Hal (hello_channel h) q Hch Hq) as [-> _].
    by rewrite Z.eqb_refl, bool_decide_eq_true_2.
  - pose proof (sender_range q Hn) as Hsr. pose proof (receiver_of_sender Hn q Hq) as Hrs.
    apply list_elem_of_fmap in Hp as (h & -> & Hh).
    destruct (hellos_edge (sender_to q) h Hh) as (Hsrc & Hch & ->).
    split; [exact Hrs|]. simpl in *. unfold recv_end. simpl.
    destruct (Hls (hello_channel h) (sender_to q)) as [_ ->].
    destruct (Hal (hello_channel h) (sender_to q) Hch Hsr) as [_ ->].
    unfold receiver in Hrs. rewrite Hrs. by rewrite Z.eqb_refl, bool_decide_eq_true_2.
Qed.

(** ** The two ends of an RDMA edge and channel *)

Section Ends.
Context `{BuildConfig} (e c : Z) (se1 se2 : rdma_settings) (r1 r2 : rdma_resources).

(** What the processes of rank [e] and of its receiver exchange. *)
Definition send_item : pending_rdma :=
  Pending (Hello e (receiver e) c) true false r1 (local_info se1 r1 true false).
Definition recv_item : pending_rdma :=
  Pending (Hello e (receiver e) c) false true r2 (local_info se2 r2 false true).

Definition same_settings : bool :=
  eqb (se_write_cts se1) (se_write_cts se2) && eqb (se_gdr se1) (se_gdr se2).

(** A process with a usable port, whose memory is registered for its plane. *)
Record usable (se : rdma_settings) (r : rdma_resources) : Prop := {
  us_mtu : 1 <= se_mtu se <= 5;
  us_data : rr_data r <> 0 /\ rr_rkey r <> 0;
  us_cts : se_write_cts se = true -> exists a k, rr_cts r = Some (a, k) /\ a <> 0 /\ k <> 0 }.

(** The queue pairs are connected to each other: the number, the port and the
    GID are those of the other end, from the own GID, at the same MTU and in
    step; and on the WRITE+CTS plane each side knows the memory of the other. *)
Definition ends_match (x y : rdma_proxy) : Prop :=
  np_id (rx_proxy x) = np_id (rx_proxy y) /\
  (rx_qpn x = rr_qpn r1 /\ rx_qpn y = rr_qpn r2) /\
  (qs_dlid (rx_qp x) = se_lid se2 /\ qs_dgid (rx_qp x) = se_gid se2 /\ qs_sgid_index (rx_qp x) = se_gid_index se1) /\
  (qs_dlid (rx_qp y) = se_lid se1 /\ qs_dgid (rx_qp y) = se_gid se1 /\ qs_sgid_index (rx_qp y) = se_gid_index se2) /\
  qs_dest_qpn (rx_qp x) = rx_qpn y /\ qs_dest_qpn (rx_qp y) = rx_qpn x /\
  qs_path_mtu (rx_qp x) = Z.min (se_mtu se1) (se_mtu se2) /\
  qs_path_mtu (rx_qp y) = Z.min (se_mtu se1) (se_mtu se2) /\
  qs_rq_psn (rx_qp x) = qs_sq_psn (rx_qp y) /\ qs_rq_psn (rx_qp y) = qs_sq_psn (rx_qp x) /\
  match rx_targets x, rx_cts y with
  | Some w, Some k =>
      se_write_cts se1 = true /\
      wt_remote_fifo_addr w = cr_local_recv_fifo_addr k /\ wt_remote_fifo_rkey w = cr_local_recv_fifo_rkey k /\
      wt_remote_fifo_addr w = rr_data r2 /\ wt_remote_fifo_bytes w = kFifoBytes /\
      cr_remote_cts_addr k = wt_local_cts w /\ rr_cts r1 = Some (cr_remote_cts_addr k, cr_remote_cts_rkey k) /\
      wt_cts_slot_count w = kFifoSteps /\ cr_cts_slot_count k = kFifoSteps
  | None, None => se_write_cts se1 = false
  | _, _ => False
  end.

Lemma negotiated a b : 1 <= a <= 5 -> 1 <= b <= 5 -> negotiate_path_mtu a b = Ok (Z.min a b).
Proof.
  intros Ha Hb. unfold negotiate_path_mtu.
  rewrite !(proj2 (Z.ltb_ge _ _)) by lia. simpl. destruct (Z.ltb_spec a b); f_equal; lia.
Qed.

(** Why an end may refuse although the settings agree: the index of the own GID
    does not fit, or a call fails. *)
Definition send_refusal (se : rdma_settings) (modify : option string) : option exn :=
  if 0xff <? se_gid_index se then Some (RuntimeError "local RDMA GID index exceeds verbs range")
  else RuntimeError <$> modify.
Definition recv_refusal (se : rdma_settings) (modify flush : option string) : option exn :=
  match send_refusal se modify with
  | Some x => Some x
  | None => (fun text => RuntimeError ("rdma GDR receive flush setup failed for edge "
      +:+ pretty e +:+ " backend=rdma/gdr: " +:+ text)) <$> (if se_gdr se then flush else None)
  end.
Definition unless {A} (refusal : option exn) (a : A) : res A :=
  match refusal with Some x => Throw x | None => Ok a end.

Lemma transition_ok se modify remote : 1 <= se_mtu se <= 5 -> 1 <= active_mtu remote <= 5 ->
  transition se modify remote = unless (send_refusal se modify)
    (QpState (qpn remote) (Z.min (se_mtu se) (active_mtu remote))
      (psn remote) kLocalPsn (port_lid remote) (gid remote) (se_gid_index se)).
Proof.
  intros Hm Hr. unfold transition, send_refusal. destruct (0xff <? se_gid_index se); [done|].
  rewrite negotiated by done. by destruct modify.
Qed.

Definition mismatch : exn :=
  RuntimeError ("rdma peer data plane or GDR placement mismatch for edge " +:+ pretty e).

Lemma flags_differ : same_settings = false ->
  (flags (pe_local recv_item) =? flags (pe_local send_item)) = false /\
  (flags (pe_local send_item) =? flags (pe_local recv_item)) = false.
Proof.
  unfold same_settings, send_item, recv_item, local_info. simpl.
  by destruct (se_write_cts se1), (se_write_cts se2), (se_gdr se1), (se_gdr se2).
Qed.

(** The send end, when the settings agree. *)
Lemma finish_send_end modify flush : same_settings = true -> usable se1 r1 -> usable se2 r2 ->
  8 <= kFifoBytes < 2 ^ 32 ->
  finish_one se1 modify flush send_item (pe_local recv_item) = unless (send_refusal se1 modify) (RdmaEnd
    (make_proxy (rr_net r1) (Hello e (receiver e) c)) (rr_qpn r1)
    (QpState (rr_qpn r2) (Z.min (se_mtu se1) (se_mtu se2)) 0 kLocalPsn (se_lid se2) (se_gid se2) (se_gid_index se1))
    (if se_write_cts se1
     then Some (WriteTargets (rr_data r2) (rr_rkey r2) kFifoBytes
                  (match rr_cts r1 with Some (a, _) => a | None => 0 end) kFifoSteps)
     else None) None).
Proof.
  intros Hs [Hm1 [Hd1 Hk1] Hc1] [Hm2 [Hd2 Hk2] Hc2] Hf.
  unfold finish_one. rewrite transition_ok by done.
  assert (8 <= kFifoBytes < 2 ^ 62) as Hf' by lia.
  unfold same_settings in Hs. unfold check_remote, send_item, recv_item, local_info, finish_send,
    new_send_proxy. rewrite (proj2 (ring_fifo_valid Hf')). unfold validate_write_targets. simpl.
  apply Z.eqb_neq in Hd2, Hk2. assert ((kFifoBytes =? 0) = false) as Hf0 by (apply Z.eqb_neq; lia).
  destruct (se_write_cts se1), (se_write_cts se2), (se_gdr se1), (se_gdr se2); try done; simpl.
  3, 4: by destruct (send_refusal se1 modify).
  all: destruct (Hc1 eq_refl) as (a & k & -> & Ha%Z.eqb_neq & _).
  all: rewrite u32_small, Hd2, Hk2, Hf0 by lia; simpl; destruct (send_refusal se1 modify); simpl; [done|].
  all: by rewrite ?Hd2, ?Hf0, ?Ha.
Qed.

(** The receive end, when the settings agree. *)
Lemma finish_recv_end modify flush : same_settings = true -> usable se1 r1 -> usable se2 r2 ->
  8 <= kFifoBytes < 2 ^ 32 ->
  finish_one se2 modify flush recv_item (pe_local send_item) = unless (recv_refusal se2 modify flush) (RdmaEnd
    (make_proxy (rr_net r2) (Hello e (receiver e) c)) (rr_qpn r2)
    (QpState (rr_qpn r1) (Z.min (se_mtu se2) (se_mtu se1)) 0 kLocalPsn (se_lid se1) (se_gid se1) (se_gid_index se2))
    None
    (if se_write_cts se1
     then Some (CtsRemote (match rr_cts r1 with Some (a, _) => a | None => 0 end)
                  (match rr_cts r1 with Some (_, k) => k | None => 0 end) kFifoSteps
                  (match rr_cts r2 with Some (a, _) => a | None => 0 end) (rr_data r2) (rr_rkey r2))
     else None)).
Proof.
  intros Hs [Hm1 [Hd1 Hk1] Hc1] [Hm2 [Hd2 Hk2] Hc2] Hf.
  unfold finish_one. rewrite transition_ok by done. unfold recv_refusal.
  assert (8 <= kFifoBytes < 2 ^ 62) as Hf' by lia.
  unfold same_settings in Hs. unfold check_remote, send_item, recv_item, local_info, finish_recv,
    new_recv_proxy. rewrite (proj2 (ring_fifo_valid Hf')). unfold validate_cts_remote. simpl.
  apply Z.eqb_neq in Hd2, Hk2.
  destruct (se_write_cts se1), (se_write_cts se2), (se_gdr se1), (se_gdr se2); try done; simpl.
  3, 4: destruct (send_refusal se2 modify); simpl; [done|]; by destruct flush.
  all: destruct (Hc1 eq_refl) as (a & k & -> & Ha%Z.eqb_neq & Hk%Z.eqb_neq).
  all: destruct (Hc2 eq_refl) as (a' & k' & -> & Ha'%Z.eqb_neq & _).
  all: rewrite Ha, Hk; simpl; destruct (send_refusal se2 modify); simpl; [done|].
  1: destruct flush; simpl; [done|].
  all: by rewrite ?Ha, ?Hd2, ?Ha'.
Qed.
End Ends.

(** The two ends of an RDMA edge and channel come up together or not at all:
    with the same data plane and memory placement both are made and match, the
    queue pairs connected to each other and the granted memory the one of the
    receiver, unless a process refuses for itself; otherwise both throw. *)
Theorem rdma_ends_agree `{BuildConfig} e c se1 se2 r1 r2 modify1 flush1 modify2 flush2 :
  usable se1 r1 -> usable se2 r2 -> 8 <= kFifoBytes < 2 ^ 32 ->
  let a := send_item e c se1 r1 in let b := recv_item e c se2 r2 in
  if same_settings se1 se2 then
    exists x y, finish_one se1 modify1 flush1 a (pe_local b) = unless (send_refusal se1 modify1) x /\
      finish_one se2 modify2 flush2 b (pe_local a) = unless (recv_refusal e se2 modify2 flush2) y /\
      ends_match se1 se2 r1 r2 x y
  else
    finish_one se1 modify1 flush1 a (pe_local b) = Throw (mismatch e) /\
    finish_one se2 modify2 flush2 b (pe_local a) = Throw (mismatch e).
Proof.
  intros H1 H2 Hf a b. destruct (same_settings se1 se2) eqn:Hs.
  - eexists _, _. split; [by apply finish_send_end|]. split; [by apply finish_recv_end|].
    unfold ends_match. simpl. repeat (split; [done || by rewrite Z.min_comm|]).
    destruct (se_write_cts se1) eqn:Hw; [|done].
    destruct (us_cts _ _ H1 Hw) as (addr & k & -> & _ & _). done.
  - destruct (flags_differ e c se1 se2 r1 r2 Hs) as [E1 E2].
    unfold finish_one, check_remote, a, b. rewrite E1, E2, !andb_false_r. done.
Qed.

(** ** Receivers are prepared before senders start

    The last phase of [setup_rdma_transport] on all processes: a process
    prepares its receive proxies, sends a readiness byte on each of its RDMA
    connections, waits for the bytes of its peers, and then prepares or starts
    its send proxies.  A turn does the next of these, and nothing while a byte
    it waits for has not been sent. *)

Inductive setup_phase := Fresh | Prepared | Told | Started.

Section Readiness.
Context `{BuildConfig} (kinds : list TransportKind).

(** The peers of a process: the other ends of its RDMA edges. *)
Definition rdma_peers (r : Z) : list Z :=
  (if bool_decide (kind_of kinds r = Rdma) then [receiver r] else []) ++
  (if bool_decide (kind_of kinds (sender_to r) = Rdma) then [sender_to r] else []).

Definition has_told (p : setup_phase) : bool :=
  match p with Told | Started => true | Fresh | Prepared => false end.

Definition ready_turn (r : Z) (sys : Z -> setup_phase) : Z -> setup_phase :=
  match sys r with
  | Fresh => upd sys r Prepared                 (* proxy->prepare(), start() *)
  | Prepared => upd sys r Told                  (* send_all(ready) *)
  | Told => if forallb (fun p => has_told (sys p)) (rdma_peers r) then upd sys r Started else sys
  | Started => sys
  end.

Definition ready_step (s s' : Z -> setup_phase) : Prop :=
  exists r, 0 <= r < kRanks /\ s' = ready_turn r s.
Definition nobody (_ : Z) : setup_phase := Fresh.

Definition rank_of (p : setup_phase) : Z :=
  match p with Fresh => 0 | Prepared => 1 | Told => 2 | Started => 3 end.

Lemma has_told_rank p : has_told p = true <-> 2 <= rank_of p.
Proof. destruct p; simpl; split; intros; lia || done. Qed.

Lemma turn_rank r sys x : rank_of (sys x) <= rank_of (ready_turn r sys x).
Proof.
  unfold ready_turn, upd. destruct (sys r) eqn:Hr; try lia;
    try (destruct (Z.eqb_spec x r) as [->|]; rewrite ?Hr; simpl; lia).
  destruct (forallb _ _); [|lia]. destruct (Z.eqb_spec x r) as [->|]; rewrite ?Hr; simpl; lia.
Qed.

Lemma sys_started r sys x : ready_turn x sys r = Started ->
  sys r = Started \/ (r = x /\ forallb (fun p => has_told (sys p)) (rdma_peers x) = true).
Proof.
  unfold ready_turn, upd. destruct (sys x) eqn:Hx; auto;
    try (destruct (Z.eqb_spec r x); [done|auto]).
  destruct (forallb _ _) eqn:Hall; auto. destruct (Z.eqb_spec r x) as [->|]; auto.
Qed.

(** When a process sends, the receivers of its edges have been prepared: a
    first data transfer never meets an empty receive queue or a missing
    grant. *)
Theorem started_after_prepared sys r : steps ready_step nobody sys ->
  sys r = Started -> forall p, p ∈ rdma_peers r -> 1 <= rank_of (sys p).
Proof.
  intros Hst. revert r.
  apply (steps_invariant ready_step (fun sys => forall r, sys r = Started ->
    forall p, p ∈ rdma_peers r -> 1 <= rank_of (sys p)) ) with (s := nobody); [|done|done].
  intros s s' Hs (x & _ & ->) r Hr p Hp.
  etrans; [|apply turn_rank]. destruct (sys_started r s x Hr) as [Hold|[-> Hall]]; [by eapply Hs|].
  rewrite forallb_forall in Hall. apply list_elem_of_In, Hall in Hp.
  apply has_told_rank in Hp. lia.
Qed.

Definition ready_round : (Z -> setup_phase) -> Z -> setup_phase := turn_round kRanks ready_turn.

Lemma turn_advances r sys k : 0 <= r < kRanks -> 0 <= k <= 2 ->
  (forall x, 0 <= x < kRanks -> k <= rank_of (sys x)) ->
  k + 1 <= rank_of (ready_turn r sys r).
Proof.
  intros Hr Hk Hall. pose proof (Hall r Hr) as Hl.
  destruct (decide (rank_of (sys r) = k)) as [Heq|]; [|pose proof (turn_rank r sys r); lia].
  unfold ready_turn. destruct (sys r) eqn:Hs; simpl in Heq; subst k;
    try (rewrite upd_eq; simpl; lia); [|lia].
  rewrite (proj2 (forallb_forall _ _)); [rewrite upd_eq; simpl; lia|].
  intros p Hp%list_elem_of_In. apply has_told_rank, Hall.
  unfold rdma_peers, receiver, sender_to in Hp. pose proof kRanks_pos.
  apply elem_of_app in Hp as [Hp|Hp]; case_bool_decide;
    try (by apply elem_of_nil in Hp); apply list_elem_of_singleton in Hp as ->;
    apply Z.mod_pos_bound; lia.
Qed.

(** Nobody waits in vain, because all bytes are sent before the first one is
    awaited: from every state three rounds of turns start all processes. *)
Theorem readiness_completes sys r : 0 <= r < kRanks ->
  Nat.iter 3 ready_round sys r = Started.
Proof.
  intros Hr.
  destruct (turn_rounds_level kRanks ready_turn (fun _ => True) (fun s x => rank_of (s x)) 3)
    with (s := sys) (m := 3%nat) as [_ Hl]; [done|intros; apply turn_rank| |done| |done|].
  { intros x s k Hx _ Hk Hall. apply turn_advances; [done|lia|done]. }
  { intros x _. destruct (sys x); simpl; lia. }
  specialize (Hl r Hr). unfold ready_round. destruct (Nat.iter _ _ _ _); simpl in Hl; done || lia.
Qed.
End Readiness.

(** ** Three processes *)

Module NetWitness.
#[local] Existing Instance small_config.

Definition kinds : list TransportKind := [Socket; Rdma; Shm].
Definition net (s : bool) (c e : Z) : net_resources :=
  let b := 100 * e + 10 * c + (if s then 0 else 2) in
  Net (Some (Loc b 0)) (Some (Loc (b + 1) 0)).
Definition rdma (s : bool) (c e : Z) : rdma_resources :=
  RdmaResources (net s c e) (4096 * (1 + c)) 7 (Some (64, 9)) (20 + c).
Definition make_net (s : bool) (d c e : Z) : res net_resources := Ok (net s c e).
Definition make_rdma (s : bool) (d c e : Z) : res rdma_resources := Ok (rdma s c e).
Definition settings : rdma_settings := Settings 1 3 4 [0; 1] true false.

(** The connections of process 1, in an order of arrival. *)
Definition conns : list SocketHello := [Hello 1 2 1; Hello 0 1 0; Hello 1 2 0; Hello 0 1 1].

Lemma conns_ok : conns ≡ₚ select (own_edges 1 0 kinds).
Proof.
  assert (select (own_edges 1 0 kinds) = [Hello 0 1 0; Hello 0 1 1; Hello 1 2 0; Hello 1 2 1]) as ->
    by (vm_compute; reflexivity).
  unfold conns. solve_Permutation.
Qed.

Lemma given : setup_given 1 0 kinds true net make_net rdma make_rdma conns.
Proof. split; try done; try (vm_compute; repeat split; done). apply conns_ok. Qed.

Lemma network_setup_complete_witness :
  exists s tb pending,
    setup_network true settings make_net make_rdma (ring_topology 1 0 kinds) (Plan kinds) conns
      = Ok (s, tb, pending) /\
    ss_send s ≡ₚ socket_proxies kinds net true 1 /\
    ss_recv s ≡ₚ socket_proxies kinds net false (sender_to 1) /\
    pending ≡ₚ pending_of 1 settings rdma <$> (rdma_edge kinds 1 ++ rdma_edge kinds (sender_to 1)) /\
    forall ls, launch_reads s ls ->
      (forall p, p ∈ ss_send s -> id_source (np_id p) = 1 /\
         send_end ls Socket 1 (id_channel (np_id p)) = Ok (np_data p, np_head p, np_tail p)) /\
      (forall p, p ∈ ss_recv s -> id_destination (np_id p) = 1 /\
         recv_end ls Socket (sender_to 1) (id_channel (np_id p)) = Ok (np_data p, np_head p, np_tail p)).
Proof. apply (network_setup_complete 1 0 kinds true net make_net settings rdma make_rdma conns given). Defined.

(** Process 1 receives on the socket edge of rank 0 and sends over RDMA. *)
Example made :
  match setup_network true settings make_net make_rdma (ring_topology 1 0 kinds) (Plan kinds) conns with
  | Ok (s, _, pending) => (length (ss_send s), length (ss_recv s), pe_is_send <$> pending) = (0%nat, 2%nat, [true; true])
  | Throw _ => False
  end.
Proof. vm_compute. reflexivity. Qed.

Lemma usable_ok s : usable settings (rdma s 0 1).
Proof. split; simpl; try lia. intros _. exists 64, 9. split; [done|lia]. Qed.

Lemma rdma_ends_agree_witness :
  exists x y,
    finish_one settings None None (send_item 1 0 settings (rdma true 0 1))
      (pe_local (recv_item 1 0 settings (rdma false 0 1))) = Ok x /\
    finish_one settings None None (recv_item 1 0 settings (rdma false 0 1))
      (pe_local (send_item 1 0 settings (rdma true 0 1))) = Ok y /\
    ends_match settings settings (rdma true 0 1) (rdma false 0 1) x y.
Proof.
  apply (rdma_ends_agree 1 0 settings settings (rdma true 0 1) (rdma false 0 1)
    None None None None (usable_ok true) (usable_ok false)).
  change kFifoBytes with 1024. lia.
Defined.

(** Rank 1 sends to rank 2 after both have told each other. *)
Definition early : Z -> setup_phase :=
  foldl (fun s r => ready_turn kinds r s) nobody [1; 2; 1; 2; 1].

Lemma quick_steps : steps (ready_step kinds) nobody early.
Proof.
  unfold early. simpl foldl.
  repeat (eapply steps_snoc; [|eexists; split; [|reflexivity]; change kRanks with 3; lia]).
  constructor.
Qed.

Lemma started_after_prepared_witness : early 1 = Started /\ 1 <= rank_of (early 2).
Proof.
  split; [vm_compute; reflexivity|].
  apply (started_after_prepared kinds early 1 quick_steps); [vm_compute; reflexivity|].
  vm_compute. left.
Defined.
End NetWitness.
