(* ===== verification/InterProcess.v ===== *)
(** * Processes that set up connections together

    What src/transport/shm/mpi_shm.cc and src/transport/p2p/mpi_p2p.cc have in
    common.  Every process sets up its end of the ring edges in a few phases;
    between the phases the processes exchange names, handles and whether they
    succeeded, with collective MPI calls.  A process is a program that ends or
    takes part in a collective call; the processes advance from call to call
    and are stuck when one of them waits for a call that another never makes.

    System and CUDA calls return what the environment says, failures included,
    and the resources a process holds are recorded.  MPI calls do not fail. *)

From Stdlib Require Import ZArith Lia Floats.SpecFloat.
From stdpp Require Import base option numbers tactics strings list pretty.
From S2P Require Import Prelude Types Resources Geometry Topology Control.

#[local] Open Scope Z_scope.

(** ** Programs with collective calls *)

(** A handle names the allocation it was taken of; a zeroed one names none. *)
Inductive payload :=
| PInt (z : Z) | PText (s : string) | PHandle (h : option Z) | PAddress (ipv4 port : Z)
| PFloat (x : spec_float) | PNone.
Definition as_int (p : payload) : Z := match p with PInt z => z | _ => 0 end.
Definition as_float (p : payload) : spec_float := match p with PFloat x => x | _ => S754_nan end.
Definition as_text (p : payload) : string := match p with PText s => s | _ => "" end.
Definition as_handle (p : payload) : option Z := match p with PHandle h => h | _ => None end.

Inductive spmd (A : Type) :=
| Done (a : A)
| Call (operation : string) (mine : payload) (k : list payload -> spmd A).
Arguments Done {A} a.
Arguments Call {A} operation mine k.

Section Spmd.
Context {A : Type}.

Definition finished (ps : list (spmd A)) : option (list A) :=
  mapM (fun p => match p with Done a => Some a | Call _ _ _ => None end) ps.

(** All processes are at the same call: what each contributes and how it goes
    on. *)
Definition meeting (ps : list (spmd A)) : option (list (payload * (list payload -> spmd A))) :=
  match ps with
  | Call operation _ _ :: _ =>
      mapM (fun p => match p with
                     | Call o x k => if String.eqb operation o then Some (x, k) else None
                     | Done _ => None
                     end) ps
  | _ => None
  end.

(** [None]: a process waits for a call that another one does not make (or the
    fuel, a bound on the number of calls, is used up). *)
Fixpoint run_ranks (fuel : nat) (ps : list (spmd A)) : option (list A) :=
  match finished ps with
  | Some r => Some r
  | None =>
      match fuel, meeting ps with
      | S fuel, Some l => run_ranks fuel ((fun xk => xk.2 (l.*1)) <$> l)
      | _, _ => None
      end
  end.

(** The calls of the source. *)
Definition MPI_Allgather {B} (decode : payload -> B) (encode : B -> payload)
    (operation : string) (mine : B) (k : list B -> spmd A) : spmd A :=
  Call operation (encode mine) (fun l => k (decode <$> l)).
Definition mpi_min (l : list Z) : Z :=
  match l with [] => 0 | x :: l => foldl Z.min x l end.
Definition MPI_Allreduce_min (operation : string) (mine : Z) (k : Z -> spmd A) : spmd A :=
  MPI_Allgather as_int PInt operation mine (fun l => k (mpi_min l)).
Definition MPI_Barrier (operation : string) (k : spmd A) : spmd A :=
  Call operation PNone (fun _ => k).

(** [gather_first_error]: the first message in the order of the ranks. *)
Definition first_error (unknown : string) (errors : list string) : string :=
  match list_find (fun e => e <> "") errors with Some (_, e) => e | None => unknown end.
Definition gather_first_error (operation unknown local_error : string) (k : string -> spmd A) :
    spmd A :=
  MPI_Allgather as_text PText operation local_error (fun l => k (first_error unknown l)).

(** ** Running them *)

Lemma finished_done {I} (f : I -> A) (l : list I) :
  finished ((fun r => Done (f r)) <$> l) = Some (f <$> l).
Proof. apply mapM_Some, Forall2_fmap, Forall_Forall2_diag, Forall_true. done. Qed.

Lemma run_done {I} fuel (f : I -> A) (l : list I) :
  run_ranks fuel ((fun r => Done (f r)) <$> l) = Some (f <$> l).
Proof. destruct fuel; simpl; by rewrite finished_done. Qed.

Lemma meeting_call {I} o (x : I -> payload) k (l : list I) : l <> [] ->
  meeting ((fun r => Call o (x r) (k r)) <$> l) = Some ((fun r => (x r, k r)) <$> l).
Proof.
  intros Hl. destruct l as [|r0 l]; [done|]. unfold meeting. rewrite fmap_cons.
  apply mapM_Some. constructor; [by rewrite String.eqb_refl|].
  apply Forall2_fmap, Forall_Forall2_diag, Forall_true. intros r. by rewrite String.eqb_refl.
Qed.

(** All processes arrive at a call: they go on with all contributions. *)
Lemma run_call {I} fuel o (x : I -> payload) k (l : list I) : l <> [] ->
  run_ranks (S fuel) ((fun r => Call o (x r) (k r)) <$> l) =
  run_ranks fuel ((fun r => k r (x <$> l)) <$> l).
Proof.
  intros Hl. cbn [run_ranks].
  rewrite meeting_call by done.
  replace (finished ((fun r => Call o (x r) (k r)) <$> l)) with (@None (list A))
    by (by destruct l).
  by rewrite <- !list_fmap_compose.
Qed.

Lemma run_allgather {I B} fuel (decode : payload -> B) encode o (x : I -> B) k (l : list I) :
  l <> [] -> (forall b, decode (encode b) = b) ->
  run_ranks (S fuel) ((fun r => MPI_Allgather decode encode o (x r) (k r)) <$> l) =
  run_ranks fuel ((fun r => k r (x <$> l)) <$> l).
Proof.
  intros Hl Hd. unfold MPI_Allgather. rewrite run_call by done. f_equal.
  apply list_fmap_ext. intros _ r _. f_equal.
  rewrite <- list_fmap_compose. apply list_fmap_ext. intros; simpl. apply Hd.
Qed.

Lemma run_allreduce {I} fuel o (x : I -> Z) k (l : list I) : l <> [] ->
  run_ranks (S fuel) ((fun r => MPI_Allreduce_min o (x r) (k r)) <$> l) =
  run_ranks fuel ((fun r => k r (mpi_min (x <$> l))) <$> l).
Proof. intros. unfold MPI_Allreduce_min. by rewrite run_allgather. Qed.

Lemma run_barrier {I} fuel o (k : I -> spmd A) (l : list I) : l <> [] ->
  run_ranks (S fuel) ((fun r => MPI_Barrier o (k r)) <$> l) = run_ranks fuel (k <$> l).
Proof. intros. unfold MPI_Barrier. by rewrite run_call. Qed.

Lemma run_first_error {I} fuel o unknown (x : I -> string) k (l : list I) : l <> [] ->
  run_ranks (S fuel) ((fun r => gather_first_error o unknown (x r) (k r)) <$> l) =
  run_ranks fuel ((fun r => k r (first_error unknown (x <$> l))) <$> l).
Proof. intros. unfold gather_first_error. by rewrite run_allgather. Qed.

(** A process that has ended while another one is at a call: stuck. *)
Lemma run_stuck fuel (ps : list (spmd A)) a o x k :
  Done a ∈ ps -> Call o x k ∈ ps -> run_ranks fuel ps = None.
Proof.
  intros Hd Hc. destruct (finished ps) as [rs|] eqn:E.
  { apply mapM_Some in E. apply list_elem_of_lookup in Hc as [i Hi].
    destruct (Forall2_lookup_l _ _ _ _ _ E Hi) as (? & _ & ?). done. }
  destruct (meeting ps) as [l|] eqn:E'.
  - destruct ps as [|[a0|o0 x0 k0] ps]; [done|done|].
    apply mapM_Some in E'. apply list_elem_of_lookup in Hd as [i Hi].
    destruct (Forall2_lookup_l _ _ _ _ _ E' Hi) as (? & _ & ?). done.
  - destruct fuel; simpl; by rewrite E, ?E'.
Qed.
End Spmd.

Lemma foldl_min_le (l : list Z) x : foldl Z.min x l <= x.
Proof. revert x. induction l as [|y l IH]; intros x; simpl; [lia|]. specialize (IH (Z.min x y)). lia. Qed.

(** Of flags the minimum tells whether all are set. *)
Lemma mpi_min_flags {I} (f : I -> bool) (l : list I) : l <> [] ->
  mpi_min ((fun r => if f r then 1 else 0) <$> l) = if forallb f l then 1 else 0.
Proof.
  destruct l as [|r l]; [done|]. intros _. csimpl.
  enough (forall x, 0 <= x <= 1 -> foldl Z.min x ((fun r => if f r then 1 else 0) <$> l) =
    if forallb f l then x else 0) as Hg.
  { destruct (f r); simpl; rewrite Hg by lia; by destruct (forallb f l). }
  induction l as [|y l IH]; intros x Hx; csimpl; [done|].
  rewrite IH by (destruct (f y); lia). destruct (f y), (forallb f l); simpl; lia.
Qed.

(** What a guarded block leaves: [local_ok] and [local_error]. *)
Definition ok_flag {A} (r : res A) : Z := match r with Ok _ => 1 | Throw _ => 0 end.
Definition error_text {A} (f : exn -> string) (r : res A) : string :=
  match r with Ok _ => "" | Throw e => f e end.

(** The minimum over the ranks is 1 when all blocks returned and 0 otherwise. *)
Lemma all_ok_spec {I A} (r : I -> res A) (l : list I) : l <> [] ->
  (mpi_min ((fun i => ok_flag (r i)) <$> l) = 1 /\ forall i, i ∈ l -> exists a, r i = Ok a) \/
  (mpi_min ((fun i => ok_flag (r i)) <$> l) = 0 /\ exists i e, i ∈ l /\ r i = Throw e).
Proof.
  intros Hl. pose proof (mpi_min_flags (fun i => match r i with Ok _ => true | _ => false end) l Hl) as Hm.
  assert ((fun i => ok_flag (r i)) <$> l =
    (fun i => if match r i with Ok _ => true | _ => false end then 1 else 0) <$> l) as ->.
  { apply list_fmap_ext. intros _ i _. by destruct (r i). }
  rewrite Hm. clear Hm Hl. induction l as [|i l IH]; simpl; [left; split; [done|by intros ? ?%elem_of_nil]|].
  destruct (r i) as [a|e] eqn:Ei; simpl.
  - destruct IH as [[-> H]|[-> (j & e & Hj & He)]]; [left|right].
    + split; [done|]. intros j [->|Hj]%elem_of_cons; eauto.
    + split; [done|]. exists j, e. split; [by right|done].
  - right. split; [done|]. exists i, e. split; [left|done].
Qed.

(** ** Resources of a process *)

(** An open descriptor refers to a shared memory object, a mapping of it to the
    same object. *)
Record descriptor := Fd { fd_number : Z; fd_object : string }.
Record mapped := Mapped { address : Z; object : string }.

Inductive resource :=
| RName (name : string)           (* a name in the shared memory file system *)
| RFd (fd : descriptor)
| RMap (p : mapped)
| RRegistered (p : mapped)        (* cudaHostRegister *)
| RMemory (allocation : Z)        (* cudaMalloc *)
| RImport (allocation : Z).       (* cudaIpcOpenMemHandle *)

#[export] Instance descriptor_eq_dec : EqDecision descriptor.
Proof. solve_decision. Defined.
#[export] Instance mapped_eq_dec : EqDecision mapped.
Proof. solve_decision. Defined.
#[export] Instance resource_eq_dec : EqDecision resource.
Proof. solve_decision. Defined.

(** [snprintf(buffer, size, "%s", text)] of a buffer that starts out zeroed. *)
Definition snprintf (size : nat) (text : string) : string := String.substring 0 (size - 1) text.

Lemma substring_all (s : string) n : (String.length s <= n)%nat -> String.substring 0 n s = s.
Proof.
  revert n. induction s as [|c s IH]; intros [|n] Hn; simpl in *; try done; [lia|].
  rewrite IH by lia. done.
Qed.

Lemma string_length_app (s t : string) :
  String.length (s +:+ t) = (String.length s + String.length t)%nat.
Proof. induction s as [|c s IH]; simpl; [done|]. by rewrite IH. Qed.

(** The names of shared memory objects: a prefix, the process, the rank and a
    counter of the process. *)
Definition object_name (prefix : string) (pid global_rank sequence : Z) : string :=
  prefix +:+ pretty pid +:+ "_" +:+ pretty global_rank +:+ "_" +:+ pretty sequence.

Lemma pretty_N_length (k : nat) (x : N) s : (x < 10 ^ N.of_nat k)%N ->
  (String.length (pretty_N_go x s) <= k + String.length s)%nat.
Proof.
  revert x s. induction k as [|k IH]; intros x s Hx.
  { simpl in Hx. assert (x = 0)%N as -> by lia. done. }
  destruct (decide (x = 0)%N) as [->|]; [rewrite pretty_N_go_0; lia|].
  rewrite pretty_N_go_step by lia.
  etrans; [apply IH|simpl; lia].
  rewrite Nat2N.inj_succ, N.pow_succ_r' in Hx. apply N.Div0.div_lt_upper_bound. lia.
Qed.

Lemma pretty_Z_length (z : Z) : 0 <= z < 2 ^ 64 -> (String.length (pretty z) <= 20)%nat.
Proof.
  intros Hz. destruct z as [|p|p]; [vm_compute; lia| |lia].
  change (pretty (Z.pos p)) with (pretty_N_go (N.pos p) "").
  etrans; [apply (pretty_N_length 20)|simpl; lia].
  apply (N.lt_trans _ (2 ^ 64)); [lia|vm_compute; done].
Qed.

Lemma object_name_fits prefix pid rank sequence : (String.length prefix <= 20)%nat ->
  0 <= pid < 2 ^ 64 -> 0 <= rank < 2 ^ 64 -> 0 <= sequence < 2 ^ 64 ->
  snprintf 128 (object_name prefix pid rank sequence) = object_name prefix pid rank sequence.
Proof.
  intros. apply substring_all. unfold object_name. rewrite !string_length_app. simpl.
  pose proof (pretty_Z_length pid). pose proof (pretty_Z_length rank).
  pose proof (pretty_Z_length sequence). lia.
Qed.

(** The text of a caught exception; [OutOfRange] is not thrown here. *)
Definition error_what (e : exn) : string :=
  match e with RuntimeError w | InvalidArgument w | LogicError w => w | OutOfRange => "" end.

(** What the environment of a process answers. *)
Record host := Host {
  getpid : Z;
  strerror : Z -> string;
  shm_open_create : string -> Z + Z;     (* descriptor or errno *)
  shm_open_peer : string -> Z + Z;
  ftruncate : descriptor -> option Z;    (* errno *)
  mmap : descriptor -> Z + Z;            (* address or errno *)
  cudaSetDevice : option string;         (* the text of the error *)
  cudaHostRegister : mapped -> option string;
  cudaHostGetDevicePointer : mapped -> option string;
  cudaMalloc : Z + string;               (* allocation or error *)
  cudaMemset : option string;
  cudaIpcGetMemHandle : option string;
  cudaIpcOpenMemHandle : option Z -> Z + string;   (* the allocation opened *)
  cudaIpcCloseMemHandle : option string;
  cudaFree : option string }.

Definition system_error {S A} (E : host) (errno : Z) (operation : string) : PM S A :=
  p_throw (RuntimeError (operation +:+ ": " +:+ strerror E errno)).
(** [CUDA_CHECK_THROW] *)
Definition cuda_check {S} (answer : option string) : PM S unit :=
  match answer with None => mret tt | Some text => p_throw (RuntimeError text) end.

Lemma spec_check {S} (P E : S -> Prop) answer :
  (forall s text, answer = Some text -> P s -> E s) -> spec P (cuda_check answer) E (fun _ => P).
Proof. intros H. destruct answer; [apply spec_throw; eauto|by apply spec_ret]. Qed.

(** Live descriptors and live mappings of a process are told apart by their
    numbers and addresses (POSIX [open], [mmap]); an opened handle is the
    allocation it was taken of (CUDA). *)
Record host_ok (E : host) : Prop := {
  live_descriptors n n' fd : shm_open_create E n = inl fd -> shm_open_peer E n' <> inl fd;
  created_descriptor n fd : shm_open_create E n = inl fd -> 0 <= fd;
  opened_descriptor n fd : shm_open_peer E n = inl fd -> 0 <= fd;
  opened_handle a b : cudaIpcOpenMemHandle E (Some a) = inl b -> b = a;
  pid_range : 0 <= getpid E < 2 ^ 31;
  live_mappings f f' a : mmap E f = inl a -> mmap E f' = inl a -> fd_number f = fd_number f' }.

(** Every call of the environment succeeds. *)
Record host_good (E : host) : Prop := {
  good_create n : is_Some (maybe inl (shm_open_create E n));
  good_open n : is_Some (maybe inl (shm_open_peer E n));
  good_truncate fd : ftruncate E fd = None;
  good_mmap fd : is_Some (maybe inl (mmap E fd));
  good_device : cudaSetDevice E = None;
  good_register p : cudaHostRegister E p = None;
  good_pointer p : cudaHostGetDevicePointer E p = None;
  good_malloc : is_Some (maybe inl (cudaMalloc E));
  good_memset : cudaMemset E = None;
  good_handle : cudaIpcGetMemHandle E = None;
  good_import a : is_Some (maybe inl (cudaIpcOpenMemHandle E (Some a))) }.

(** [blame] closes the goal that the environment has refused a call. *)
Ltac blame :=
  match goal with
  | |- ~ host_good ?E =>
      let G := fresh in intros G; destruct G;
      repeat match goal with
      | H : forall x, is_Some (maybe inl (?f E x)), H' : ?f E ?y = _ |- _ =>
          specialize (H y); rewrite H' in H
      | H : forall x, is_Some (maybe inl (?f E (Some x))), H' : ?f E (Some ?y) = _ |- _ =>
          specialize (H y); rewrite H' in H
      | H : is_Some (maybe inl (?f E)), H' : ?f E = _ |- _ => rewrite H' in H
      | H : forall x, ?f E x = None, H' : ?f E ?y = Some _ |- _ => specialize (H y)
      end; simpl in *; first [congruence | by destruct_or?; match goal with H : is_Some None |- _ => destruct H end]
  end.

(** ** The ranks of a ring *)

Abbreviation ranks := (zrange kRanks).

Section Ranks.
Context `{BuildConfig}.

Definition has_incoming (kind : TransportKind) (kinds : list TransportKind) (global_rank : Z) : bool :=
  let incoming_edge := (global_rank + kRanks - 1) mod kRanks in
  bool_decide (kinds !! Z.to_nat incoming_edge = Some kind).
Definition has_outgoing (kind : TransportKind) (kinds : list TransportKind) (global_rank : Z) : bool :=
  bool_decide (kinds !! Z.to_nat global_rank = Some kind).

Lemma ranks_nonempty : ranks <> [].
Proof.
  intros Hn. pose proof kRanks_pos as Hp. assert (0 ∈ ranks) as Hin by (apply elem_of_zrange; lia).
  rewrite Hn in Hin. by apply elem_of_nil in Hin.
Qed.

Lemma incoming_of_next kind kinds r : 0 <= r < kRanks ->
  has_incoming kind kinds ((r + 1) mod kRanks) = has_outgoing kind kinds r.
Proof. intros Hr. unfold has_incoming, has_outgoing. by rewrite prev_of_next. Qed.

Lemma outgoing_of_previous kind kinds r :
  has_outgoing kind kinds ((r + kRanks - 1) mod kRanks) = has_incoming kind kinds r.
Proof. done. Qed.

Lemma gathered {A} (f : Z -> A) r : 0 <= r < kRanks -> (f <$> ranks) !! Z.to_nat r = Some (f r).
Proof.
  intros Hr. rewrite list_lookup_fmap. unfold zrange.
  rewrite lookup_seqZ_lt by lia. simpl. f_equal. f_equal. lia.
Qed.

(** The environment refused a call of some rank, all ranks throw one error and
    are left in [Q]. *)
Definition all_fail {S A} (E : Z -> host) (Q : Z -> S -> Prop) (out : Z -> S * res A) : Prop :=
  (exists e, forall r, 0 <= r < kRanks -> exists s, out r = (s, Throw e) /\ Q r s) /\
  exists r, 0 <= r < kRanks /\ ~ host_good (E r).
End Ranks.

(** ** A host without failures, for examples *)

Module Hosts.
Definition good_host (r : Z) : host := {|
  getpid := 100 + r; strerror _ := "error";
  shm_open_create _ := inl 3; shm_open_peer _ := inl 4;
  ftruncate _ := None; mmap fd := inl (4096 * fd_number fd);
  cudaSetDevice := None; cudaHostRegister _ := None; cudaHostGetDevicePointer _ := None;
  cudaMalloc := inl (1000 + r); cudaMemset := None; cudaIpcGetMemHandle := None;
  cudaIpcOpenMemHandle h := match h with Some a => inl a | None => inr "invalid handle" end;
  cudaIpcCloseMemHandle := None; cudaFree := None |}.

(** The same with a device that cannot be selected, or memory that cannot be
    registered. *)
Definition no_device (r : Z) : host := {|
  getpid := 100 + r; strerror _ := "error";
  shm_open_create _ := inl 3; shm_open_peer _ := inl 4;
  ftruncate _ := None; mmap fd := inl (4096 * fd_number fd);
  cudaSetDevice := Some "CUDA error: invalid device"; cudaHostRegister _ := Some "CUDA error: out of memory";
  cudaHostGetDevicePointer _ := None;
  cudaMalloc := inl (1000 + r); cudaMemset := None; cudaIpcGetMemHandle := None;
  cudaIpcOpenMemHandle h := match h with Some a => inl a | None => inr "invalid handle" end;
  cudaIpcCloseMemHandle := None; cudaFree := None |}.

Lemma good_host_ok r : 0 <= r < 100 -> host_ok (good_host r).
Proof.
  intros Hr. split; simpl; intros; try congruence; try (simplify_eq; lia).
Qed.

Lemma no_device_ok r : 0 <= r < 100 -> host_ok (no_device r).
Proof.
  intros Hr. split; simpl; intros; try congruence; try (simplify_eq; lia).
Qed.

Definition first_broken (r : Z) : host := if r =? 0 then no_device r else good_host r.
Lemma first_broken_ok r : 0 <= r < 100 -> host_ok (first_broken r).
Proof. intros Hr. unfold first_broken. destruct (r =? 0); [by apply no_device_ok|by apply good_host_ok]. Qed.
End Hosts.
