(* ===== verification/MpiShm.v ===== *)
(** * Shared-memory connections between processes

    src/transport/shm/mpi_shm.cc: every process with an incoming SHM edge
    creates a region, publishes its name, and its predecessor opens and maps
    it; both register the mapping with CUDA.  [PosixShmOwner] releases what a
    process holds.  [region n] is the memory object behind the name [n]: the
    processes that map one object share one allocation, as in Control.v. *)

From Stdlib Require Import ZArith Lia.
From stdpp Require Import base option numbers tactics strings list pretty.
From S2P Require Import Prelude Types Resources Geometry Topology Control InterProcess.

#[local] Open Scope Z_scope.

(** ** The owner *)

Record Mapping := Map { m_pointer : mapped; m_fd : descriptor; registered : bool }.

(** A process: the counter of [create_region_name], what it holds, and the
    fields of its [PosixShmOwner]. *)
Record shm_process := ShmProcess {
  sh_sequence : Z;
  sh_held : list resource;
  sh_name : string;
  sh_mappings : list Mapping }.

Definition sh_update (f : list resource -> list resource) (s : shm_process) : shm_process :=
  ShmProcess (sh_sequence s) (f (sh_held s)) (sh_name s) (sh_mappings s).
Definition sh_hold (l : list resource) : shm_process -> shm_process := sh_update (fun h => l ++ h).
Definition sh_drop (r : resource) : shm_process -> shm_process := sh_update (release r).

Definition set_name (name : string) (s : shm_process) : shm_process :=
  ShmProcess (sh_sequence s) (sh_held s) name (sh_mappings s).
Definition add_mapping (p : mapped) (fd : descriptor) (s : shm_process) : shm_process :=
  ShmProcess (sh_sequence s) (sh_held s) (sh_name s) (sh_mappings s ++ [Map p fd false]).

Fixpoint mark_first (p : mapped) (l : list Mapping) : option (list Mapping) :=
  match l with
  | [] => None
  | m :: l => if address (m_pointer m) =? address p
              then Some (Map (m_pointer m) (m_fd m) true :: l)
              else cons m <$> mark_first p l
  end.
Definition mark_registered (p : mapped) : PM shm_process unit := fun s =>
  match mark_first p (sh_mappings s) with
  | Some l => (ShmProcess (sh_sequence s) (sh_held s) (sh_name s) l, Ok tt)
  | None => (s, Throw (LogicError "SHM registration does not belong to this owner"))
  end.

Definition unlink_region (s : shm_process) : shm_process :=
  if decide (sh_name s = "") then s
  else set_name "" (sh_drop (RName (sh_name s)) s).

(** The destructor: what is held afterwards when its calls succeed; the code
    only reports the others. *)
Definition release_mapping (m : Mapping) (s : shm_process) : shm_process :=
  let s := if registered m then sh_drop (RRegistered (m_pointer m)) s else s in
  let s := sh_drop (RMap (m_pointer m)) s in
  if 0 <=? fd_number (m_fd m) then sh_drop (RFd (m_fd m)) s else s.
Definition destroy_owner (s : shm_process) : shm_process :=
  foldr release_mapping (unlink_region s) (sh_mappings s).

(** ** Creating and mapping regions *)

Definition EEXIST : Z := 17.

Definition fetch_add_sequence : PM shm_process Z := fun s =>
  (ShmProcess (u64 (sh_sequence s + 1)) (sh_held s) (sh_name s) (sh_mappings s),
   Ok (sh_sequence s)).

(** The loop of [create_region_name], by the attempts left. *)
Fixpoint create_region_name (E : host) (global_rank : Z) (attempts : nat) :
    PM shm_process (string * descriptor) :=
  match attempts with
  | O => p_throw (RuntimeError "could not allocate a unique SHM region name")
  | S attempts =>
      sequence ← fetch_add_sequence;
      let name := object_name "/nano_nccl_" (getpid E) global_rank sequence in
      match shm_open_create E name with
      | inl fd => p_modify (sh_hold [RName name; RFd (Fd fd name)]) ;; mret (name, Fd fd name)
      | inr errno =>
          if errno =? EEXIST then create_region_name E global_rank attempts
          else system_error E errno "shm_open(create)"
      end
  end.

Definition map_region (E : host) (fd : descriptor) : PM shm_process mapped :=
  match mmap E fd with
  | inl a => let p := Mapped a (fd_object fd) in p_modify (sh_hold [RMap p]) ;; mret p
  | inr errno => system_error E errno "mmap(SHM)"
  end.

(** [try { map; add_mapping } catch (...) { close(fd); throw; }] *)
Definition map_owned (E : host) (fd : descriptor) : PM shm_process mapped := fun s =>
  match (p ← map_region E fd; p_modify (add_mapping p fd) ;; mret p) s with
  | (s, Throw e) => (sh_drop (RFd fd) s, Throw e)
  | r => r
  end.

(** The first guarded block: the region of the incoming edge and its name.  The
    [memset] of the region changes nothing that is held. *)
Definition create_incoming (E : host) (global_rank : Z) (has_incoming : bool) :
    PM shm_process (option mapped * string) :=
  if negb has_incoming then mret (None, "") else
  nf ← create_region_name E global_rank 32;
  let '(name, fd) := nf in
  p_modify (set_name name) ;;
  match ftruncate E fd with
  | Some errno => p_modify (sh_drop (RFd fd)) ;; system_error E errno "ftruncate(SHM)"
  | None =>
      incoming_host ← map_owned E fd;
      mret (Some incoming_host, snprintf 128 name)
  end.

Definition register (E : host) (pointer : option mapped) : PM shm_process unit :=
  match pointer with
  | None => mret tt
  | Some p =>
      cuda_check (cudaHostRegister E p) ;;
      p_modify (sh_hold [RRegistered p]) ;;
      mark_registered p
  end.

Definition open_outgoing (E : host) (name : string) : PM shm_process mapped :=
  if decide (name = "")
  then p_throw (RuntimeError "SHM receiver did not publish its Ring region") else
  match shm_open_peer E name with
  | inr errno => system_error E errno "shm_open(peer)"
  | inl fd => p_modify (sh_hold [RFd (Fd fd name)]) ;; map_owned E (Fd fd name)
  end.

Definition device_pointer (E : host) (region : string -> Z) (p : option mapped) :
    PM shm_process ptr :=
  match p with
  | None => mret None
  | Some p => cuda_check (cudaHostGetDevicePointer E p) ;; mret (Some (Loc (region (object p)) 0))
  end.

(** The second guarded block: the device pointers of both edges. *)
Definition map_edges (E : host) (region : string -> Z) (has_outgoing : bool)
    (incoming_host : option mapped) (name : string) : PM shm_process (ptr * ptr) :=
  outgoing_host ← (if has_outgoing then p ← open_outgoing E name; mret (Some p) else mret None);
  cuda_check (cudaSetDevice E) ;;
  register E incoming_host ;;
  register E outgoing_host ;;
  incoming_device ← device_pointer E region incoming_host;
  outgoing_device ← device_pointer E region outgoing_host;
  mret (incoming_device, outgoing_device).

(** ** The set-up of a process *)

Section Shm.
Context `{BuildConfig}.

Definition creation_error (global_rank : Z) (e : exn) : string :=
  let incoming_edge := (global_rank + kRanks - 1) mod kRanks in
  snprintf 512 ("SHM incoming edge " +:+ pretty incoming_edge +:+ "->" +:+ pretty global_rank
    +:+ " creation failed at global rank " +:+ pretty global_rank +:+ ": " +:+ error_what e).
Definition mapping_error (global_rank : Z) (e : exn) : string :=
  let incoming_edge := (global_rank + kRanks - 1) mod kRanks in
  snprintf 512 ("SHM edge setup failed at global rank " +:+ pretty global_rank +:+ " (incoming "
    +:+ pretty incoming_edge +:+ "->" +:+ pretty global_rank +:+ ", outgoing "
    +:+ pretty global_rank +:+ "->" +:+ pretty ((global_rank + 1) mod kRanks) +:+ "): "
    +:+ error_what e).

(** [resources.view] of the two device pointers. *)
Definition region_view (incoming outgoing : ptr) (channel : Z) : ends :=
  Ends (connection_fifo outgoing channel) (connection_head outgoing channel)
    (connection_tail outgoing channel) (connection_fifo incoming channel)
    (connection_head incoming channel) (connection_tail incoming channel).

Definition shm_outcome : Type := shm_process * res (Z -> ends).

Definition shm_finish (s : shm_process) (r : res (ptr * ptr)) : spmd shm_outcome :=
  MPI_Barrier "MPI_Barrier(SHM initialize)"
    (let s := unlink_region s in
     Done (s, match r with Ok (i, o) => Ok (region_view i o) | Throw e => Throw e end)).

Definition shm_fail (s : shm_process) (prefix local_error : string) : spmd shm_outcome :=
  gather_first_error "MPI_Allgather(SHM errors)" "unknown SHM setup error" local_error
    (fun error => Done (destroy_owner s, Throw (RuntimeError (prefix +:+ error)))).

(** From the first exchange on, and from the second one on. *)
Definition shm_conclude (global_rank : Z) (s : shm_process) (local_ok : Z)
    (mapped_edges : res (ptr * ptr)) : spmd shm_outcome :=
  MPI_Allreduce_min "MPI_Allreduce(SHM mapping)" local_ok (fun all_ok =>
  if all_ok =? 0
  then shm_fail s "same-host SHM CUDA mapping failed: "
         (error_text (mapping_error global_rank) mapped_edges)
  else shm_finish s mapped_edges).

Definition published (created : res (option mapped * string)) : option mapped * string :=
  match created with Ok c => c | Throw _ => (None, "") end.

Definition shm_exchange (E : host) (region : string -> Z) (has_outgoing : bool)
    (global_rank : Z) (s : shm_process) (created : res (option mapped * string)) :
    spmd shm_outcome :=
  let local := published created in
  MPI_Allreduce_min "MPI_Allreduce(SHM creation)" (ok_flag created) (fun all_ok =>
  if all_ok =? 0
  then shm_fail s "same-host SHM creation failed: " (error_text (creation_error global_rank) created)
  else
  MPI_Allgather as_text PText "MPI_Allgather(SHM names)" local.2 (fun names =>
  let receiver := (global_rank + 1) mod kRanks in
  let '(s, mapped_edges) :=
    map_edges E region has_outgoing local.1 (default "" (names !! Z.to_nat receiver)) s in
  shm_conclude global_rank s (Z.min (ok_flag created) (ok_flag mapped_edges)) mapped_edges)).

Definition create_mpi_shm_connections (E : host) (region : string -> Z)
    (kinds : list TransportKind) (global_rank : Z) (s : shm_process) : spmd shm_outcome :=
  if decide (Shm ∉ kinds) then Done (s, Ok (fun _ => no_ends)) else
  let '(s, created) := create_incoming E global_rank (has_incoming Shm kinds global_rank) s in
  shm_exchange E region (has_outgoing Shm kinds global_rank) global_rank s created.
End Shm.

(** ** Ownership

    A process holds what its owner will release, and [extra]. *)

Definition mapping_resources (m : Mapping) : list resource :=
  (if registered m then [RRegistered (m_pointer m)] else []) ++ [RMap (m_pointer m); RFd (m_fd m)].
Definition owned (name : string) (l : list Mapping) : list resource :=
  (if decide (name = "") then [] else [RName name]) ++ concat (mapping_resources <$> l).

Record owns (extra : list resource) (name : string) (l : list Mapping) (s : shm_process) : Prop := {
  ow_held : sh_held s ≡ₚ extra ++ owned name l;
  ow_name : sh_name s = name;
  ow_mappings : sh_mappings s = l;
  ow_open : Forall (fun m => 0 <= fd_number (m_fd m)) l;
  ow_sequence : 0 <= sh_sequence s < 2 ^ 64 }.

Lemma shm_owns_hold extra name l s more :
  owns extra name l s -> owns (more ++ extra) name l (sh_hold more s).
Proof. intros []. split; try done. simpl. rewrite ow_held0. by rewrite app_assoc. Qed.

Lemma shm_owns_drop r extra name l s : owns (r :: extra) name l s -> owns extra name l (sh_drop r s).
Proof. intros []. split; try done. simpl. by apply release_perm. Qed.

Lemma owns_set_name extra name l s : name <> "" ->
  owns (RName name :: extra) "" l s -> owns extra name l (set_name name s).
Proof.
  intros Hn []. split; try done. simpl. rewrite ow_held0. unfold owned.
  rewrite decide_True, (decide_False (P := name = "")) by done. simpl. by rewrite Permutation_middle.
Qed.

Lemma owns_add extra name l s p fd : 0 <= fd_number fd ->
  owns (RMap p :: RFd fd :: extra) name l s ->
  owns extra name (l ++ [Map p fd false]) (add_mapping p fd s).
Proof.
  intros Hfd []. split; try done; simpl; [|by rewrite ow_mappings0|].
  - rewrite ow_held0. unfold owned. rewrite fmap_app, concat_app. simpl.
    rewrite !app_assoc. apply (Permutation_app_comm [RMap p; RFd fd]).
  - apply Forall_app. auto.
Qed.

Lemma shm_unlink_owns extra name l s : owns extra name l s -> owns extra "" l (unlink_region s).
Proof.
  intros Ho. pose proof Ho as [Hh Hn Hm Hop Hs]. unfold unlink_region. rewrite Hn.
  case_decide as Hd; [by rewrite Hd in Ho|].
  split; try done. simpl. apply release_perm. rewrite Hh. unfold owned.
  rewrite decide_False, (decide_True (P := "" = "")) by done. simpl. by rewrite Permutation_middle.
Qed.

Lemma release_mappings l x s : Forall (fun m => 0 <= fd_number (m_fd m)) l ->
  sh_held s ≡ₚ concat (mapping_resources <$> l) ++ x ->
  sh_held (foldr release_mapping s l) ≡ₚ x.
Proof.
  intros Hl. revert x. induction l as [|m l IH]; intros x Hs; [done|].
  apply Forall_cons in Hl as [Hm Hl]. simpl.
  specialize (IH Hl (mapping_resources m ++ x)). rewrite Hs in IH. simpl in IH.
  rewrite <- app_assoc, Permutation_app_swap_app in IH. specialize (IH (reflexivity _)).
  unfold release_mapping. rewrite (proj2 (Z.leb_le _ _) Hm).
  unfold mapping_resources in IH. apply release_perm, release_perm.
  destruct (registered m); [apply release_perm|]; exact IH.
Qed.

(** The destructor releases everything its owner holds. *)
Lemma shm_destroy_releases name l s : owns [] name l s -> sh_held (destroy_owner s) = [].
Proof.
  intros Ho. pose proof (ow_mappings _ _ _ _ Ho) as Hm. apply shm_unlink_owns in Ho as [Hh _ _ Hop _].
  apply Permutation_nil_r. unfold destroy_owner. rewrite Hm.
  apply release_mappings; [done|]. rewrite app_nil_r. exact Hh.
Qed.


(** ** The guarded blocks *)

Section Blocks.
Context (E : host) (HE : host_ok E).

(** Where a block ends that throws: the owner releases everything, and a call
    of the environment was refused. *)
Definition refused (s : shm_process) : Prop :=
  (exists name l, owns [] name l s) /\ ~ host_good E.

Lemma object_name_nonempty prefix c pid rank sequence :
  object_name (String c prefix) pid rank sequence <> "".
Proof. done. Qed.

(** A name this process could have created. *)
Definition own_name (global_rank : Z) (name : string) : Prop :=
  exists sequence, 0 <= sequence < 2 ^ 64 /\
    name = object_name "/nano_nccl_" (getpid E) global_rank sequence.

Lemma create_region_name_spec global_rank attempts :
  spec (owns [] "" []) (create_region_name E global_rank attempts)
    (fun s => owns [] "" [] s /\ (attempts = O \/ ~ host_good E))
    (fun nf s => owns [RName nf.1; RFd nf.2] "" [] s /\ own_name global_rank nf.1 /\
       shm_open_create E nf.1 = inl (fd_number nf.2) /\ fd_object nf.2 = nf.1).
Proof.
  induction attempts as [|attempts IH]; simpl; [apply spec_throw; auto|].
  apply (spec_bind _ _ (fun sequence s => owns [] "" [] s /\ 0 <= sequence < 2 ^ 64)).
  { intros s []. split; [split|]; try done. simpl. apply u64_range. }
  intros sequence. destruct (shm_open_create _ _) as [fd|errno] eqn:Hopen.
  - apply (spec_bind _ _ (fun _ s => owns [RName (object_name "/nano_nccl_" (getpid E) global_rank sequence);
      RFd (Fd fd (object_name "/nano_nccl_" (getpid E) global_rank sequence))] "" [] s
      /\ 0 <= sequence < 2 ^ 64)).
    + apply spec_modify. intros s [Ho Hs]. split; [exact (shm_owns_hold [] _ _ _ [_; _] Ho)|done].
    + intros []. apply spec_ret. intros s [Ho Hs]. split; [done|]. split; [by exists sequence|done].
  - destruct (errno =? EEXIST).
    + intros s [Ho _]. specialize (IH s Ho). destruct (create_region_name _ _ _ s) as [s' [nf|e]]; [done|].
      destruct IH as [Ho' _]. split; [done|right; blame].
    + apply spec_throw. intros s [Ho _]. split; [done|right; blame].
Qed.

Lemma map_owned_spec extra name l fd : 0 <= fd_number fd ->
  spec (owns (RFd fd :: extra) name l) (map_owned E fd)
    (fun s => owns extra name l s /\ ~ host_good E)
    (fun p s => owns extra name (l ++ [Map p fd false]) s /\ object p = fd_object fd /\
       mmap E fd = inl (address p)).
Proof.
  intros Hfd s Ho. unfold map_owned, map_region.
  destruct (mmap E fd) as [a|errno] eqn:Hm; simpl.
  - split; [|done]. apply owns_add; [done|]. exact (shm_owns_hold (RFd fd :: extra) _ _ _ [_] Ho).
  - split; [|blame]. by apply shm_owns_drop.
Qed.

(** What the first block leaves when it returns. *)
Definition created_ok (global_rank : Z) (has_incoming : bool) (c : option mapped * string)
    (s : shm_process) : Prop :=
  if has_incoming then
    exists p fd, c = (Some p, object p) /\ own_name global_rank (object p) /\
      shm_open_create E (object p) = inl (fd_number fd) /\ mmap E fd = inl (address p) /\
      owns [] (object p) [Map p fd false] s
  else c = (None, "") /\ owns [] "" [] s.

Lemma created_owns global_rank has_incoming c s :
  created_ok global_rank has_incoming c s -> exists name l, owns [] name l s.
Proof.
  destruct has_incoming; simpl; [|intros []; eauto].
  intros (p & fd & ? & ? & ? & ? & ?). eauto.
Qed.

Lemma create_incoming_spec global_rank has_incoming : 0 <= global_rank < 2 ^ 64 ->
  spec (owns [] "" []) (create_incoming E global_rank has_incoming) refused
    (created_ok global_rank has_incoming).
Proof.
  intros Hr. unfold create_incoming. destruct has_incoming; cbn [negb]; [|by apply spec_ret].
  eapply spec_bind.
  { intros s Ho. pose proof (create_region_name_spec global_rank 32 s Ho) as Hc.
    destruct (create_region_name E global_rank 32 s) as [s' [nf|e]]; [exact Hc|].
    destruct Hc as [? [?|?]]; [done|]. split; eauto. }
  intros [name fd]. simpl. intros s (Ho & Hn & Hc & Hobj). cbn [fst snd] in *.
  assert (0 <= fd_number fd) as Hfd by (by eapply created_descriptor).
  assert (name <> "") as Hne by (destruct Hn as (? & _ & ->); done).
  apply (owns_set_name [RFd fd]) in Ho; [|done].
  assert (snprintf 128 name = name) as Hfit.
  { destruct Hn as (q & Hq & ->). pose proof (pid_range _ HE).
    apply object_name_fits; [simpl; lia|lia|lia|lia]. }
  unfold mbind, PM_bind, p_modify. destruct (ftruncate E fd) as [errno|] eqn:Ht.
  - simpl. split; [|blame]. exists name, []. by apply shm_owns_drop.
  - pose proof (map_owned_spec [] name [] fd Hfd _ Ho) as Hm.
    destruct (map_owned E fd _) as [s' [p|e]].
    + destruct Hm as (Ho' & Hp & Hmm). simpl in *. exists p, fd. rewrite Hfit, Hp, Hobj. done.
    + destruct Hm as [Ho' Hg]. split; eauto.
Qed.

Lemma mark_first_at p fd l1 l2 : Forall (fun m => address (m_pointer m) <> address p) l1 ->
  mark_first p (l1 ++ Map p fd false :: l2) = Some (l1 ++ Map p fd true :: l2).
Proof.
  intros Hl. induction Hl as [|m l1 Hm _ IH]; simpl.
  - by rewrite Z.eqb_refl.
  - rewrite (proj2 (Z.eqb_neq _ _) Hm). by rewrite IH.
Qed.

Lemma register_spec p fd name l1 l2 : Forall (fun m => address (m_pointer m) <> address p) l1 ->
  spec (owns [] name (l1 ++ Map p fd false :: l2)) (register E (Some p)) refused
    (fun _ => owns [] name (l1 ++ Map p fd true :: l2)).
Proof.
  intros Hl s Ho. unfold register, cuda_check, mbind, PM_bind.
  destruct (cudaHostRegister E p) as [text|] eqn:Hr; simpl; [split; [eauto|blame]|].
  unfold mark_registered. simpl. destruct Ho as [Hh Hn Hm Hop Hs].
  rewrite Hm, mark_first_at by done. split; try done; simpl.
  - rewrite Hh. unfold owned. rewrite !fmap_app, !concat_app. simpl.
    solve_Permutation.
  - apply Forall_app in Hop as [H1 H2]. apply Forall_cons in H2 as [H2 H3].
    apply Forall_app. split; [done|]. by constructor.
Qed.

(** The mapping of one edge, registered. *)
Definition edge_mapping (has : bool) (name : string) (l : list Mapping) : Prop :=
  if has then exists p fd, object p = name /\ l = [Map p fd true] else l = [].

(** What the second block leaves when it returns: both mappings registered and
    the device pointers of the two regions. *)
Definition mapped_ok (region : string -> Z) (has_incoming has_outgoing : bool)
    (own peer : string) (pq : ptr * ptr) (s : shm_process) : Prop :=
  (exists name l1 l2, owns [] name (l1 ++ l2) s /\ edge_mapping has_incoming own l1 /\
     edge_mapping has_outgoing peer l2) /\
  pq = (if has_incoming then Some (Loc (region own) 0) else None,
        if has_outgoing then Some (Loc (region peer) 0) else None).

Definition peer_published (has_outgoing : bool) (peer : string) : Prop :=
  has_outgoing = true -> peer <> "".

Lemma shm_open_outgoing_spec name l peer : peer <> "" ->
  spec (owns [] name l) (open_outgoing E peer) refused
    (fun p s => exists fd, owns [] name (l ++ [Map p fd false]) s /\ object p = peer /\
       shm_open_peer E peer = inl (fd_number fd) /\ mmap E fd = inl (address p)).
Proof.
  intros Hne. unfold open_outgoing. rewrite decide_False by done.
  destruct (shm_open_peer E peer) as [fd|errno] eqn:Hp.
  - intros s Ho. unfold mbind, PM_bind, p_modify.
    assert (0 <= fd) as Hfd by (by eapply opened_descriptor).
    pose proof (map_owned_spec [] name l (Fd fd peer) Hfd (sh_hold [RFd (Fd fd peer)] s)
      (shm_owns_hold [] _ _ _ [_] Ho)) as Hm.
    destruct (map_owned E (Fd fd peer) _) as [s' [p|e]].
    + exists (Fd fd peer). destruct Hm as (? & ? & ?). done.
    + destruct Hm. split; eauto.
  - apply spec_throw. intros s Ho. split; [eauto|blame].
Qed.

Lemma device_pointer_spec region name l (p : option mapped) :
  spec (owns [] name l) (device_pointer E region p) refused
    (fun q s => owns [] name l s /\
       q = match p with Some p => Some (Loc (region (object p)) 0) | None => None end).
Proof.
  destruct p as [p|]; simpl; [|by apply spec_ret].
  intros s Ho. unfold cuda_check, mbind, PM_bind.
  destruct (cudaHostGetDevicePointer E p) as [t|] eqn:Hd; simpl; [|done].
  split; [eauto|blame].
Qed.

(** An optional mapping before and after its registration. *)
Definition edge_list (b : bool) (pf : option (mapped * descriptor)) : list Mapping :=
  match pf with Some (p, fd) => [Map p fd b] | None => [] end.

Lemma register_edge_spec name l1 pf l2 :
  (forall p fd, pf = Some (p, fd) -> Forall (fun m => address (m_pointer m) <> address p) l1) ->
  spec (owns [] name (l1 ++ edge_list false pf ++ l2)) (register E (fst <$> pf)) refused
    (fun _ => owns [] name (l1 ++ edge_list true pf ++ l2)).
Proof.
  intros Hl. destruct pf as [[p fd]|]; [|by apply spec_ret].
  by apply register_spec, (Hl p fd).
Qed.

Lemma map_edges_spec region global_rank has_incoming has_outgoing c peer :
  peer_published has_outgoing peer ->
  spec (created_ok global_rank has_incoming c)
    (map_edges E region has_outgoing c.1 peer) refused
    (mapped_ok region has_incoming has_outgoing c.2 peer).
Proof.
  intros Hpub s Hc.
  assert (exists inc name, owns [] name (edge_list false inc) s /\ c.1 = fst <$> inc /\
    (if has_incoming then exists p fd, inc = Some (p, fd) /\ object p = c.2 /\
       (exists n, shm_open_create E n = inl (fd_number fd)) /\ mmap E fd = inl (address p)
     else inc = None)) as (inc & name & Ho & Hinc & Hin).
  { unfold created_ok in Hc. destruct has_incoming.
    - destruct Hc as (p & fd & -> & _ & ? & ? & ?). exists (Some (p, fd)), (object p). naive_solver.
    - destruct Hc as [-> ?]. by exists None, "". }
  clear Hc. rewrite Hinc. revert s Ho.
  change (spec (owns [] name (edge_list false inc)) (map_edges E region has_outgoing (fst <$> inc) peer)
    refused (mapped_ok region has_incoming has_outgoing c.2 peer)).
  unfold map_edges.
  apply (spec_bind _ _ (fun outgoing s => exists out, outgoing = fst <$> out /\
    owns [] name (edge_list false inc ++ edge_list false out) s /\
    (if has_outgoing then exists p fd, out = Some (p, fd) /\ object p = peer /\
       shm_open_peer E peer = inl (fd_number fd) /\ mmap E fd = inl (address p)
     else out = None))).
  { destruct has_outgoing.
    - eapply spec_bind; [by apply shm_open_outgoing_spec, Hpub|]. intros p. apply spec_ret.
      intros s (fd & ? & ? & ? & ?). exists (Some (p, fd)). naive_solver.
    - apply spec_ret. intros s Ho. exists None. simpl. by rewrite app_nil_r. }
  intros outgoing s (out & -> & Ho & Hout). revert s Ho.
  match goal with |- forall s, owns ?x ?n ?l s -> _ => change (spec (owns x n l)
    (cuda_check (cudaSetDevice E) ;; register E (fst <$> inc) ;; register E (fst <$> out) ;;
     i ← device_pointer E region (fst <$> inc); o ← device_pointer E region (fst <$> out); mret (i, o))
    refused (mapped_ok region has_incoming has_outgoing c.2 peer)) end.
  eapply spec_bind; [apply spec_check; intros; split; [eauto|blame]|intros []].
  eapply spec_bind; [apply (register_edge_spec name []); by constructor|intros []].
  eapply spec_bind.
  { rewrite app_nil_l, <- (app_nil_r (edge_list false out)). apply register_edge_spec.
    intros p fd ->. destruct inc as [[p' fd']|]; [|by constructor].
    destruct has_incoming; [|done]. destruct has_outgoing; [|done].
    destruct Hin as (? & ? & [= <- <-] & _ & (n & Hn) & Hm).
    destruct Hout as (? & ? & [= <- <-] & _ & Hn' & Hm'). simpl.
    constructor; [|by constructor]. simpl. intros Heq. rewrite Heq in Hm.
    rewrite (live_mappings E HE _ _ _ Hm Hm') in Hn. by eapply (live_descriptors E HE). }
  intros []. eapply spec_bind; [apply device_pointer_spec|intros i].
  apply (spec_bind _ _ (fun o s => owns [] name (edge_list true inc ++ edge_list true out) s /\
    i = match fst <$> inc with Some p => Some (Loc (region (object p)) 0) | None => None end /\
    o = match fst <$> out with Some p => Some (Loc (region (object p)) 0) | None => None end)).
  { intros s [Ho Hi]. rewrite app_nil_r in Ho.
    pose proof (device_pointer_spec region _ _ (fst <$> out) _ Ho) as Hd.
    destruct (device_pointer E region (fst <$> out) s) as [s' [q|e]]; [|done]. by destruct Hd. }
  intros o. apply spec_ret. intros s (Ho & -> & ->). split.
  - exists name, (edge_list true inc), (edge_list true out). split; [done|].
    split; [destruct has_incoming|destruct has_outgoing]; simpl.
    + destruct Hin as (p & fd & -> & ? & _). by exists p, fd.
    + by rewrite Hin.
    + destruct Hout as (p & fd & -> & ? & _). by exists p, fd.
    + by rewrite Hout.
  - f_equal.
    + destruct has_incoming; [|by rewrite Hin]. by destruct Hin as (p & fd & -> & <- & _).
    + destruct has_outgoing; [|by rewrite Hout]. by destruct Hout as (p & fd & -> & <- & _).
Qed.
End Blocks.

(** ** All processes *)

Section Agreement.
Context `{BuildConfig} (E : Z -> host) (region : string -> Z) (kinds : list TransportKind).
Context (s0 : Z -> shm_process).

Definition shm_programs : list (spmd shm_outcome) :=
  (fun r => create_mpi_shm_connections (E r) region kinds r (s0 r)) <$> ranks.

Lemma run_shm_fail fuel s prefix (errors : Z -> string) :
  run_ranks (S fuel) ((fun r => shm_fail (s r) prefix (errors r)) <$> ranks) =
  Some ((fun r => (destroy_owner (s r), Throw (RuntimeError (prefix +:+
    first_error "unknown SHM setup error" (errors <$> ranks))))) <$> ranks).
Proof.
  unfold shm_fail. rewrite run_first_error by apply ranks_nonempty. by rewrite run_done.
Qed.

(** What a process is left with when the set-up succeeds everywhere: the views
    of the two regions, the registered mappings, and no name. *)
Definition shm_connected (name : Z -> string) (r : Z) (o : shm_outcome) : Prop :=
  exists s v l1 l2, o = (s, Ok v) /\
    (forall c, v c = connection_view Shm (fun r => region (name r)) kinds r c) /\
    owns [] "" (l1 ++ l2) s /\ edge_mapping (has_incoming Shm kinds r) (name r) l1 /\
    edge_mapping (has_outgoing Shm kinds r) (name ((r + 1) mod kRanks)) l2.

Lemma shm_region_view_connection (name : Z -> string) r c :
  region_view (if has_incoming Shm kinds r then Some (Loc (region (name r)) 0) else None)
    (if has_outgoing Shm kinds r then Some (Loc (region (name ((r + 1) mod kRanks))) 0) else None) c =
  connection_view Shm (fun r => region (name r)) kinds r c.
Proof.
  unfold region_view, connection_view, has_incoming, has_outgoing.
  by destruct (bool_decide _), (bool_decide _).
Qed.

Lemma run_shm_conclude (name : Z -> string) s edges :
  (forall r, 0 <= r < kRanks -> match edges r with
     | Ok pq => mapped_ok region (has_incoming Shm kinds r) (has_outgoing Shm kinds r) (name r)
                  (name ((r + 1) mod kRanks)) pq (s r)
     | Throw _ => refused (E r) (s r)
     end) ->
  exists out, run_ranks 3 ((fun r => shm_conclude r (s r) (ok_flag (edges r)) (edges r)) <$> ranks)
    = Some (out <$> ranks) /\
    ((forall r, 0 <= r < kRanks -> shm_connected name r (out r)) \/ all_fail E (fun _ s => sh_held s = []) out).
Proof.
  intros He. unfold shm_conclude. rewrite run_allreduce by apply ranks_nonempty.
  destruct (all_ok_spec edges ranks ranks_nonempty) as [[-> Hok]|[-> (r & e & Hr & Hre)]].
  - change (1 =? 0) with false. cbn match. unfold shm_finish.
    rewrite run_barrier by apply ranks_nonempty. rewrite run_done.
    eexists. split; [done|]. left. intros r Hr. specialize (He r Hr).
    destruct (Hok r) as [pq Hpq]; [by apply elem_of_zrange|]. rewrite Hpq in He |- *.
    destruct He as ((n & l1 & l2 & Ho & H1 & H2) & ->).
    eexists _, _, l1, l2. split; [done|]. split; [intros c; apply shm_region_view_connection|].
    split; [by eapply shm_unlink_owns|done].
  - change (0 =? 0) with true. cbn match. rewrite run_shm_fail.
    eexists. split; [done|]. right. apply elem_of_zrange in Hr. split.
    + eexists. intros r' Hr'. eexists. split; [done|]. specialize (He r' Hr').
      destruct (edges r') as [pq|e'].
      * destruct He as ((n & l1 & l2 & Ho & _) & _). by eapply shm_destroy_releases.
      * destruct He as ((n & l & Ho) & _). by eapply shm_destroy_releases.
    + exists r. split; [done|]. specialize (He r Hr). rewrite Hre in He. by destruct He.
Qed.

Context (HE : forall r, 0 <= r < kRanks -> host_ok (E r)) (Hranks : kRanks < 2 ^ 31).
Context (Hfresh : forall r, 0 <= r < kRanks -> owns [] "" [] (s0 r)).

Definition first_block (r : Z) := create_incoming (E r) r (has_incoming Shm kinds r) (s0 r).

Lemma shm_first_block_spec r : 0 <= r < kRanks ->
  match (first_block r).2 with
  | Ok c => created_ok (E r) r (has_incoming Shm kinds r) c (first_block r).1
  | Throw _ => refused (E r) (first_block r).1
  end.
Proof.
  intros Hr. pose proof (create_incoming_spec (E r) (HE r Hr) r (has_incoming Shm kinds r)) as Hc.
  specialize (Hc ltac:(lia) (s0 r) (Hfresh r Hr)). fold (first_block r) in Hc.
  by destruct (first_block r) as [s [c|e]].
Qed.

(** The second half, when every rank has created its region. *)
Lemma run_shm_second (c : Z -> option mapped * string) (s : Z -> shm_process) :
  (forall r, 0 <= r < kRanks -> created_ok (E r) r (has_incoming Shm kinds r) (c r) (s r)) ->
  let second r := map_edges (E r) region (has_outgoing Shm kinds r) (c r).1
                    (default "" (((fun r => (c r).2) <$> ranks) !! Z.to_nat ((r + 1) mod kRanks))) (s r) in
  exists out, run_ranks 3
    ((fun r => shm_conclude r (second r).1 (ok_flag (second r).2) (second r).2) <$> ranks)
    = Some (out <$> ranks) /\
    ((forall r, 0 <= r < kRanks -> shm_connected (fun r => (c r).2) r (out r)) \/
     all_fail E (fun _ s => sh_held s = []) out).
Proof.
  intros Hc second. apply run_shm_conclude. intros r Hr.
  pose proof (Z.mod_pos_bound (r + 1) kRanks kRanks_pos) as Hnext.
  assert (peer_published (has_outgoing Shm kinds r) (c ((r + 1) mod kRanks)).2) as Hpub.
  { intros Ho. specialize (Hc _ Hnext). unfold created_ok in Hc.
    rewrite incoming_of_next, Ho in Hc by done.
    destruct Hc as (p & fd & -> & (q & _ & ->) & _). done. }
  pose proof (map_edges_spec (E r) (HE r Hr) region r (has_incoming Shm kinds r)
    (has_outgoing Shm kinds r) (c r) _ Hpub (s r) (Hc r Hr)) as Hm.
  unfold second. rewrite (gathered (fun r => (c r).2)) by done. simpl.
  by destruct (map_edges _ _ _ _ _ _) as [s' [pq|e]].
Qed.

(** How the set-up ends, for the creation of a communicator. *)
Lemma shm_setup_outcomes :
  exists out, run_ranks 5 shm_programs = Some (out <$> ranks) /\
    ((exists name, forall r, 0 <= r < kRanks ->
        shm_connected name r (out r) /\
        (has_incoming Shm kinds r = true -> own_name (E r) r (name r))) \/
     all_fail E (fun _ s => sh_held s = []) out).
Proof.
  unfold shm_programs, create_mpi_shm_connections.
  destruct (decide (Shm ∉ kinds)) as [Hn|_].
  - rewrite run_done. eexists. split; [done|]. left. exists (fun _ => ""). intros r Hr.
    assert (forall i, bool_decide (kinds !! i = Some Shm) = false) as Hf.
    { intros i. apply bool_decide_eq_false_2. intros Hi. by apply list_elem_of_lookup_2 in Hi. }
    split; [|by unfold has_incoming; rewrite Hf].
    eexists _, _, [], []. unfold edge_mapping, has_incoming, has_outgoing. rewrite !Hf.
    split; [done|]. split; [|by pose proof (Hfresh r Hr)].
    intros c. unfold connection_view. by rewrite !Hf.
  - rewrite (list_fmap_ext _ (fun r => shm_exchange (E r) region (has_outgoing Shm kinds r) r
      (first_block r).1 (first_block r).2)).
    2: { intros _ r _. unfold first_block. by destruct (create_incoming _ _ _ _). }
    unfold shm_exchange. rewrite run_allreduce by apply ranks_nonempty.
    destruct (all_ok_spec (fun r => (first_block r).2) ranks ranks_nonempty)
      as [[-> Hok]|[-> (r & e & Hr & Hre)]].
    + change (1 =? 0) with false. cbn match zeta.
      rewrite run_allgather by (done || apply ranks_nonempty).
      destruct (run_shm_second (fun r => published (first_block r).2) (fun r => (first_block r).1))
        as (out & Hrun & Hout).
      { intros r Hr. pose proof (shm_first_block_spec r Hr) as Hb.
        destruct (Hok r) as [c Hc]; [by apply elem_of_zrange|]. by rewrite Hc in Hb |- *. }
      exists out. split.
      * rewrite <- Hrun. f_equal. apply list_fmap_ext. intros i r Hi.
        destruct (Hok r) as [c Hc]; [by eapply list_elem_of_lookup_2|]. rewrite Hc. cbn [published].
        destruct (map_edges _ _ _ _ _ _) as [s' [pq|e]]; done.
      * destruct Hout as [Hout|Hout]; [left|by right]. eexists. intros r Hr. split; [by apply Hout|].
        intros Hin. pose proof (shm_first_block_spec r Hr) as Hb.
        destruct (Hok r) as [c Hc]; [by apply elem_of_zrange|].
        rewrite Hc in Hb |- *. unfold created_ok in Hb. rewrite Hin in Hb.
        by destruct Hb as (p & fd & -> & ? & _).
    + change (0 =? 0) with true. cbn match. rewrite run_shm_fail.
      eexists. split; [done|]. right. apply elem_of_zrange in Hr. split.
      * eexists. intros r' Hr'. eexists. split; [done|]. pose proof (shm_first_block_spec r' Hr') as Hb.
        destruct (first_block r').2 as [c|e'].
        -- by destruct (created_owns _ _ _ _ _ Hb) as (n & l & Ho); eapply shm_destroy_releases.
        -- destruct Hb as ((n & l & Ho) & _). by eapply shm_destroy_releases.
      * exists r. split; [done|]. pose proof (shm_first_block_spec r Hr) as Hb.
        rewrite Hre in Hb. by destruct Hb.
Qed.

(** C22: The set-up of shared memory is all or nothing: the ranks never wait for
    each other in vain, and either every rank gets the views of one region per
    SHM edge, created by its receiver and mapped by its sender, holding the
    registered mappings and no name; or the environment refused a call
    somewhere, and all ranks throw the same error and hold nothing. *)
Theorem shm_setup_agrees :
  exists out, run_ranks 5 shm_programs = Some (out <$> ranks) /\
    ((exists name, forall r, 0 <= r < kRanks ->
        shm_connected name r (out r) /\
        (has_incoming Shm kinds r = true -> own_name (E r) r (name r))) \/
     all_fail E (fun _ s => sh_held s = []) out).
Proof. exact shm_setup_outcomes. Qed.
End Agreement.

(** ** Three processes *)

Module ShmWitness.
Import Hosts.
#[local] Existing Instance small_config.

Definition kinds : list TransportKind := [Shm; Shm; Shm].
Definition fresh (_ : Z) : shm_process := ShmProcess 0 [] "" [].
Definition region (name : string) : Z := Z.of_nat (String.length name).

Lemma fresh_owns r : owns [] "" [] (fresh r).
Proof. split; simpl; try done. Qed.

Lemma shm_setup_agrees_witness :
  exists out, run_ranks 5 (shm_programs first_broken region kinds fresh) = Some (out <$> ranks) /\
    ((exists name, forall r, 0 <= r < kRanks ->
        shm_connected region kinds name r (out r) /\
        (has_incoming Shm kinds r = true -> own_name (first_broken r) r (name r))) \/
     all_fail first_broken (fun _ s => sh_held s = []) out).
Proof.
  apply (shm_setup_agrees first_broken region kinds fresh).
  - intros r Hr. apply first_broken_ok. change kRanks with 3 in Hr. lia.
  - vm_compute. done.
  - intros r _. apply fresh_owns.
Defined.

Definition thrown (o : shm_outcome) : option exn := match o.2 with Throw e => Some e | Ok _ => None end.

(** Rank 0 cannot select its device: everybody reports that. *)
Example one_failure_fails_all :
  option_map (map thrown) (run_ranks 5 (shm_programs first_broken region kinds fresh)) =
  Some (replicate 3 (Some (RuntimeError ("same-host SHM CUDA mapping failed: SHM edge setup failed "
    +:+ "at global rank 0 (incoming 2->0, outgoing 0->1): CUDA error: invalid device")))).
Proof. vm_compute. reflexivity. Qed.

(** Without failures the view of rank 1 is its own region and that of rank 2. *)
Example shm_without_failures :
  option_map (map (fun o : shm_outcome =>
      match o.2 with Ok v => Some (recv_head (v 0), send_head (v 0)) | Throw _ => None end))
    (run_ranks 5 (shm_programs good_host (fun n => if String.eqb n "/nano_nccl_101_1_0" then 1 else 2)
       kinds fresh)) =
  Some [Some (Some (Loc 2 0), Some (Loc 1 0)); Some (Some (Loc 1 0), Some (Loc 2 0));
        Some (Some (Loc 2 0), Some (Loc 2 0))].
Proof. vm_compute. reflexivity. Qed.
End ShmWitness.
