(* ===== verification/MpiP2p.v ===== *)
(** * CUDA IPC connections between processes

    src/transport/p2p/mpi_p2p.cc: the receiver of a P2P edge allocates and
    exports the region and a close control, a word of shared memory; its
    predecessor opens both.  When the connection is torn down, the receiver
    frees the exported memory only after the sender has closed its handle, or
    leaks it when the sender does not do so in time.  A handle names the
    allocation it was taken of. *)

From Stdlib Require Import ZArith Lia.
From stdpp Require Import base option numbers tactics strings list pretty.
From S2P Require Import Prelude Types Resources Geometry Topology Control InterProcess.

#[local] Open Scope Z_scope.

(** ** The owner *)

Record MpiP2pOwner := Owner {
  local_region : option Z;
  remote_region : option Z;
  local_control_name : string;
  local_close_control : option mapped;
  remote_close_control : option mapped;
  local_control_fd : option descriptor;     (* [None] is -1 *)
  remote_control_fd : option descriptor;
  wait_for_close : bool }.

Definition fresh_owner : MpiP2pOwner := Owner None None "" None None None None false.

(** A process: the counter of [create_close_control], what it holds, its owner
    and the variable [local_handle] of the set-up. *)
Record p2p_process := P2pProcess {
  pp_sequence : Z;
  pp_held : list resource;
  pp_owner : MpiP2pOwner;
  local_handle : option Z }.

Definition pp_update (f : list resource -> list resource) (s : p2p_process) : p2p_process :=
  P2pProcess (pp_sequence s) (f (pp_held s)) (pp_owner s) (local_handle s).
Definition pp_hold (l : list resource) : p2p_process -> p2p_process := pp_update (fun h => l ++ h).
Definition pp_drop (r : resource) : p2p_process -> p2p_process := pp_update (release r).
Definition with_owner (f : MpiP2pOwner -> MpiP2pOwner) (s : p2p_process) : p2p_process :=
  P2pProcess (pp_sequence s) (pp_held s) (f (pp_owner s)) (local_handle s).

Definition set_local_region (a : Z) (o : MpiP2pOwner) : MpiP2pOwner :=
  Owner (Some a) (remote_region o) (local_control_name o) (local_close_control o)
    (remote_close_control o) (local_control_fd o) (remote_control_fd o) (wait_for_close o).
Definition set_remote_region (a : Z) (o : MpiP2pOwner) : MpiP2pOwner :=
  Owner (local_region o) (Some a) (local_control_name o) (local_close_control o)
    (remote_close_control o) (local_control_fd o) (remote_control_fd o) (wait_for_close o).
Definition set_local_control (name : string) (p : mapped) (fd : descriptor) (o : MpiP2pOwner) :
    MpiP2pOwner :=
  Owner (local_region o) (remote_region o) name (Some p) (remote_close_control o) (Some fd)
    (remote_control_fd o) (wait_for_close o).
Definition set_remote_control (p : mapped) (fd : descriptor) (o : MpiP2pOwner) : MpiP2pOwner :=
  Owner (local_region o) (remote_region o) (local_control_name o) (local_close_control o) (Some p)
    (local_control_fd o) (Some fd) (wait_for_close o).
Definition arm_local_close_wait (wait : bool) (o : MpiP2pOwner) : MpiP2pOwner :=
  Owner (local_region o) (remote_region o) (local_control_name o) (local_close_control o)
    (remote_close_control o) (local_control_fd o) (remote_control_fd o) wait.
Definition clear_name (o : MpiP2pOwner) : MpiP2pOwner :=
  Owner (local_region o) (remote_region o) "" (local_close_control o)
    (remote_close_control o) (local_control_fd o) (remote_control_fd o) (wait_for_close o).

Definition unlink_local_control (s : p2p_process) : p2p_process :=
  let name := local_control_name (pp_owner s) in
  if decide (name = "") then s else with_owner clear_name (pp_drop (RName name) s).

Definition unmap_control (pointer : option mapped) (fd : option descriptor) (s : p2p_process) :
    p2p_process :=
  let s := match pointer with Some p => pp_drop (RMap p) s | None => s end in
  match fd with
  | Some fd => if 0 <=? fd_number fd then pp_drop (RFd fd) s else s
  | None => s
  end.

(** The destructor of one process, as far as it changes what this process holds.
    [closed] is what its last load of the own close control reads; it depends on
    the store of the sender's destructor.  P2pClose.v models the destructors
    of all processes with that store and the wait for it, and [answers] there
    ties [closed] to them.  A handle whose closing fails and memory whose release
    fails stay held; other failures are only reported. *)
Definition close_remote (E : host) (s : p2p_process) : p2p_process :=
  match remote_region (pp_owner s), cudaIpcCloseMemHandle E with
  | Some a, None => pp_drop (RImport a) s
  | _, _ => s
  end.
Definition sender_closed (closed : bool) (o : MpiP2pOwner) : bool :=
  negb (wait_for_close o) || (match local_close_control o with Some _ => closed | None => false end).
Definition free_local (E : host) (closed : bool) (s : p2p_process) : p2p_process :=
  match local_region (pp_owner s), cudaFree E with
  | Some a, None => if sender_closed closed (pp_owner s) then pp_drop (RMemory a) s else s
  | _, _ => s
  end.
Definition destroy_owner (E : host) (closed : bool) (s : p2p_process) : p2p_process :=
  let o := pp_owner s in
  let s := free_local E closed (close_remote E s) in
  let s := unmap_control (remote_close_control o) (remote_control_fd o) s in
  let s := unmap_control (local_close_control o) (local_control_fd o) s in
  if decide (local_control_name o = "") then s else pp_drop (RName (local_control_name o)) s.

(** ** The close controls *)

Definition EEXIST : Z := 17.

Definition fetch_add_sequence : PM p2p_process Z := fun s =>
  (P2pProcess (u64 (pp_sequence s + 1)) (pp_held s) (pp_owner s) (local_handle s),
   Ok (pp_sequence s)).

(** One attempt with the name fixed, once [shm_open] has created the object. *)
Definition map_created (E : host) (name : string) (fd : descriptor) :
    PM p2p_process (string * mapped * descriptor) :=
  let undo (errno : Z) (operation : string) : PM p2p_process (string * mapped * descriptor) :=
    p_modify (pp_drop (RFd fd)) ;; p_modify (pp_drop (RName name)) ;;
    system_error E errno operation in
  match ftruncate E fd with
  | Some errno => undo errno "ftruncate(CUDA IPC control)"
  | None =>
      match mmap E fd with
      | inr errno => undo errno "mmap(CUDA IPC control)"
      | inl a => let p := Mapped a name in p_modify (pp_hold [RMap p]) ;; mret (name, p, fd)
      end
  end.

Fixpoint create_close_control (E : host) (global_rank : Z) (attempts : nat) :
    PM p2p_process (string * mapped * descriptor) :=
  match attempts with
  | O => p_throw (RuntimeError "could not allocate a unique CUDA IPC control name")
  | S attempts =>
      sequence ← fetch_add_sequence;
      let name := object_name "/nano_nccl_ipc_" (getpid E) global_rank sequence in
      match shm_open_create E name with
      | inr errno =>
          if errno =? EEXIST then create_close_control E global_rank attempts
          else system_error E errno "shm_open(CUDA IPC control)"
      | inl fd =>
          p_modify (pp_hold [RName name; RFd (Fd fd name)]) ;; map_created E name (Fd fd name)
      end
  end.

Definition open_close_control (E : host) (name : string) : PM p2p_process (mapped * descriptor) :=
  match shm_open_peer E name with
  | inr errno => system_error E errno "shm_open(CUDA IPC peer control)"
  | inl n =>
      let fd := Fd n name in
      p_modify (pp_hold [RFd fd]) ;;
      match mmap E fd with
      | inr errno =>
          p_modify (pp_drop (RFd fd)) ;; system_error E errno "mmap(CUDA IPC peer control)"
      | inl a => let p := Mapped a name in p_modify (pp_hold [RMap p]) ;; mret (p, fd)
      end
  end.

(** ** The guarded blocks *)

(** Allocation and export; returns the published name. *)
Definition export_incoming (E : host) (global_rank : Z) (has_incoming : bool) :
    PM p2p_process string :=
  if negb has_incoming then mret "" else
  match cudaMalloc E with
  | inr text => p_throw (RuntimeError text)
  | inl a =>
      p_modify (fun s => with_owner (set_local_region a) (pp_hold [RMemory a] s)) ;;
      cuda_check (cudaMemset E) ;;
      cuda_check (cudaIpcGetMemHandle E) ;;
      p_modify (fun s => P2pProcess (pp_sequence s) (pp_held s) (pp_owner s) (Some a)) ;;
      c ← create_close_control E global_rank 32;
      let '(name, control, fd) := c in
      p_modify (with_owner (set_local_control name control fd)) ;;
      mret (snprintf 128 name)
  end.

(** Opening the region of the receiver. *)
Definition open_outgoing (E : host) (has_outgoing : bool) (control_name : string)
    (handle : option Z) : PM p2p_process unit :=
  if negb has_outgoing then mret tt else
  if decide (control_name = "")
  then p_throw (RuntimeError "CUDA IPC receiver did not publish close control") else
  c ← open_close_control E control_name;
  p_modify (with_owner (set_remote_control c.1 c.2)) ;;
  match cudaIpcOpenMemHandle E handle with
  | inr text => p_throw (RuntimeError text)
  | inl a => p_modify (fun s => with_owner (set_remote_region a) (pp_hold [RImport a] s))
  end.

(** ** Probing the edges *)

Section P2p.
Context `{BuildConfig}.

#[local] Abbreviation p2p_spmd A := (spmd (p2p_process * res A)).

(** After the two gathers: open and close the handle of the receiver. *)
Definition probe_outgoing (E : host) (same_node handle_ok peer_ok : bool) (handle : option Z)
    (s : p2p_process) : p2p_process * Z :=
  if same_node && handle_ok && peer_ok then
    match cudaIpcOpenMemHandle E handle with
    | inr _ => (s, 0)
    | inl a =>
        let s := pp_hold [RImport a] s in
        match cudaIpcCloseMemHandle E with
        | None => (pp_drop (RImport a) s, 1)
        | Some _ => (s, 0)
        end
    end
  else (s, 0).

(** After the barrier: free the probe. *)
Definition probe_free (E : host) (local_probe : option Z) (so : p2p_process * Z) : p2p_process * Z :=
  match local_probe, cudaFree E with
  | Some a, None => (pp_drop (RMemory a) so.1, so.2)
  | Some _, Some _ => (so.1, 0)
  | None, _ => so
  end.

Definition probe_gather (so : p2p_process * Z) : p2p_spmd (list bool) :=
  MPI_Allgather as_int PInt "MPI_Allgather(CUDA IPC edge status)" so.2 (fun edge_ok =>
    Done (so.1, Ok ((fun z => negb (z =? 0)) <$> edge_ok))).

(** The probe and its handle. *)
Definition local_probe (E : host) : option Z :=
  match cudaMalloc E with inl a => Some a | inr _ => None end.
Definition probe_handle (E : host) : option Z :=
  match local_probe E, cudaIpcGetMemHandle E with Some a, None => Some a | _, _ => None end.

Definition probe_mpi_p2p_edges (E : host) (node_ids : list Z) (global_rank : Z)
    (s : p2p_process) : p2p_spmd (list bool) :=
  match cudaSetDevice E with
  | Some text => Done (s, Throw (RuntimeError text))
  | None =>
  let s := match local_probe E with Some a => pp_hold [RMemory a] s | None => s end in
  let handle := probe_handle E in
  let local_handle_ok := match handle with Some _ => 1 | None => 0 end in
  MPI_Allgather as_handle PHandle "MPI_Allgather(CUDA IPC probe handles)" handle (fun handles =>
  MPI_Allgather as_int PInt "MPI_Allgather(CUDA IPC probe status)" local_handle_ok (fun handle_ok =>
  let receiver := (global_rank + 1) mod kRanks in
  let node (r : Z) := default 0 (node_ids !! Z.to_nat r) in
  let probed :=
    probe_outgoing E (node global_rank =? node receiver) (negb (local_handle_ok =? 0))
      (negb (default 0 (handle_ok !! Z.to_nat receiver) =? 0))
      (default None (handles !! Z.to_nat receiver)) s in
  MPI_Barrier "MPI_Barrier(CUDA IPC probe)" (probe_gather (probe_free E (local_probe E) probed))))
  end.

(** ** The set-up of a process *)

Definition allocation_error (global_rank : Z) (e : exn) : string :=
  let incoming_edge := (global_rank + kRanks - 1) mod kRanks in
  snprintf 512 ("P2P incoming edge " +:+ pretty incoming_edge +:+ "->" +:+ pretty global_rank
    +:+ " allocation/export failed at global rank " +:+ pretty global_rank +:+ ": " +:+ error_what e).
Definition opening_error (global_rank : Z) (e : exn) : string :=
  snprintf 512 ("P2P outgoing edge " +:+ pretty global_rank +:+ "->"
    +:+ pretty ((global_rank + 1) mod kRanks) +:+ " mapping failed at global rank "
    +:+ pretty global_rank +:+ ": " +:+ error_what e).

Definition p2p_fail (E : host) (closed : bool) (s : p2p_process) (prefix local_error : string) :
    p2p_spmd (Z -> ends) :=
  gather_first_error "MPI_Allgather(CUDA IPC errors)" "unknown CUDA IPC setup error" local_error
    (fun error => Done (destroy_owner E closed s, Throw (RuntimeError (prefix +:+ error)))).

Definition block (region : option Z) : ptr := (fun a => Loc a 0) <$> region.
(** [resources.view]: the two regions of the owner. *)
Definition region_view (o : MpiP2pOwner) (channel : Z) : ends :=
  let incoming := block (local_region o) in let outgoing := block (remote_region o) in
  Ends (connection_fifo outgoing channel) (connection_head outgoing channel)
    (connection_tail outgoing channel) (connection_fifo incoming channel)
    (connection_head incoming channel) (connection_tail incoming channel).

Definition p2p_finish (s : p2p_process) : p2p_spmd (Z -> ends) :=
  MPI_Barrier "MPI_Barrier(CUDA IPC initialize)"
    (let s := unlink_local_control s in Done (s, Ok (region_view (pp_owner s)))).

(** From the exchange of the mapping results on. *)
Definition p2p_conclude (E : host) (closed : bool) (has_incoming : bool) (global_rank : Z)
    (s : p2p_process) (local_ok : Z) (opened : res unit) : p2p_spmd (Z -> ends) :=
  MPI_Allreduce_min "MPI_Allreduce(CUDA IPC mapping)" local_ok (fun all_ok =>
  let opened_outgoing := match remote_region (pp_owner s) with Some _ => 1 | None => 0 end in
  MPI_Allgather as_int PInt "MPI_Allgather(CUDA IPC opened edges)" opened_outgoing (fun opened_edges =>
  let incoming_edge := (global_rank + kRanks - 1) mod kRanks in
  let s := if has_incoming
           then with_owner (arm_local_close_wait
                  (negb (default 0 (opened_edges !! Z.to_nat incoming_edge) =? 0))) s
           else s in
  if all_ok =? 0
  then p2p_fail E closed s "CUDA IPC FIFO mapping failed: " (error_text (opening_error global_rank) opened)
  else p2p_finish s)).

(** From the exchange of handles and names on. *)
Definition p2p_exchange (E : host) (closed : bool) (kinds : list TransportKind)
    (global_rank : Z) (s : p2p_process) (exported : res string) : p2p_spmd (Z -> ends) :=
  let control_name := match exported with Ok name => name | Throw _ => "" end in
  MPI_Allgather as_handle PHandle "MPI_Allgather(CUDA IPC handles)" (local_handle s) (fun handles =>
  MPI_Allgather as_text PText "MPI_Allgather(CUDA IPC close controls)" control_name (fun control_names =>
  MPI_Allreduce_min "MPI_Allreduce(CUDA IPC allocation)" (ok_flag exported) (fun all_ok =>
  if all_ok =? 0
  then p2p_fail E closed s "CUDA IPC FIFO allocation failed: "
         (error_text (allocation_error global_rank) exported)
  else
  let receiver := (global_rank + 1) mod kRanks in
  let '(s, opened) := open_outgoing E (has_outgoing P2p kinds global_rank)
                        (default "" (control_names !! Z.to_nat receiver))
                        (default None (handles !! Z.to_nat receiver)) s in
  p2p_conclude E closed (has_incoming P2p kinds global_rank) global_rank s
    (Z.min (ok_flag exported) (ok_flag opened)) opened))).

Definition create_mpi_p2p_connections (E : host) (closed : bool) (kinds : list TransportKind)
    (global_rank : Z) (s : p2p_process) : p2p_spmd (Z -> ends) :=
  if decide (P2p ∉ kinds) then Done (s, Ok (fun _ => no_ends)) else
  match cudaSetDevice E with
  | Some text => Done (destroy_owner E closed s, Throw (RuntimeError text))
  | None =>
      let '(s, exported) := export_incoming E global_rank (has_incoming P2p kinds global_rank) s in
      p2p_exchange E closed kinds global_rank s exported
  end.
End P2p.

(** ** Ownership

    A process holds what its owner will release, and [extra]. *)

Definition opt {A} (f : A -> resource) (o : option A) : list resource :=
  match o with Some x => [f x] | None => [] end.
Definition named (name : string) : list resource := if decide (name = "") then [] else [RName name].
Definition owned (o : MpiP2pOwner) : list resource :=
  opt RImport (remote_region o) ++ opt RMemory (local_region o) ++
  opt RMap (remote_close_control o) ++ opt RFd (remote_control_fd o) ++
  opt RMap (local_close_control o) ++ opt RFd (local_control_fd o) ++ named (local_control_name o).

Definition open_fd (fd : option descriptor) : Prop :=
  match fd with Some fd => 0 <= fd_number fd | None => True end.

Record owns (extra : list resource) (o : MpiP2pOwner) (s : p2p_process) : Prop := {
  ow_held : pp_held s ≡ₚ extra ++ owned o;
  ow_owner : pp_owner s = o;
  ow_open : open_fd (local_control_fd o) /\ open_fd (remote_control_fd o);
  ow_sequence : 0 <= pp_sequence s < 2 ^ 64 }.

Lemma p2p_owns_hold extra o s more : owns extra o s -> owns (more ++ extra) o (pp_hold more s).
Proof. intros []. split; try done. simpl. rewrite ow_held0. by rewrite app_assoc. Qed.

Lemma p2p_owns_drop r extra o s : owns (r :: extra) o s -> owns extra o (pp_drop r s).
Proof. intros []. split; try done. simpl. by apply release_perm. Qed.

(** Resources pass to the owner. *)
Lemma owns_give given extra o f s : owns (given ++ extra) o s ->
  given ++ owned o ≡ₚ owned (f o) ->
  open_fd (local_control_fd (f o)) /\ open_fd (remote_control_fd (f o)) ->
  owns extra (f o) (with_owner f s).
Proof.
  intros [] Hg Hf. split; simpl; [|by rewrite ow_owner0|done|done].
  rewrite ow_held0, <- Hg. rewrite <- !app_assoc. apply Permutation_app_swap_app.
Qed.

Lemma drop_opt {A} (f : A -> resource) (x : option A) rest s : pp_held s ≡ₚ opt f x ++ rest ->
  pp_held (match x with Some a => pp_drop (f a) s | None => s end) ≡ₚ rest.
Proof. destruct x; simpl; [apply release_perm|done]. Qed.

Lemma unmap_held p fd rest s : open_fd fd -> pp_held s ≡ₚ opt RMap p ++ opt RFd fd ++ rest ->
  pp_held (unmap_control p fd s) ≡ₚ rest.
Proof.
  intros Hfd Hs. unfold unmap_control. apply drop_opt in Hs.
  destruct fd as [fd|]; [|done]. simpl in Hfd. rewrite (proj2 (Z.leb_le _ _) Hfd).
  by apply release_perm.
Qed.

Definition is_some {A} (x : option A) : bool := match x with Some _ => true | None => false end.

(** The destructor releases everything, when closing and freeing succeed and
    the sender is known to have closed its handle. *)
Lemma p2p_destroy_releases E closed o s : owns [] o s ->
  cudaIpcCloseMemHandle E = None -> cudaFree E = None -> sender_closed closed o = true ->
  pp_held (destroy_owner E closed s) = [].
Proof.
  intros [Hh Ho [Hl Hr] _] Hc Hf Hcl. apply Permutation_nil_r.
  unfold destroy_owner. rewrite Ho. unfold owned in Hh. simpl in Hh.
  assert (pp_held (unmap_control (local_close_control o) (local_control_fd o)
    (unmap_control (remote_close_control o) (remote_control_fd o)
      (free_local E closed (close_remote E s)))) ≡ₚ named (local_control_name o)) as Hn.
  { apply (unmap_held _ _ _ _ Hl), (unmap_held _ _ _ _ Hr).
    assert (pp_owner (close_remote E s) = o) as Ho'.
    { unfold close_remote. rewrite Hc. by destruct (remote_region (pp_owner s)). }
    unfold free_local. rewrite Ho', Hf, Hcl. apply (drop_opt RMemory).
    unfold close_remote. rewrite Ho, Hc. by apply (drop_opt RImport). }
  unfold named in Hn. case_decide; [done|]. simpl. by apply release_perm.
Qed.

(** ** The guarded blocks *)

Section Blocks.
Context (E : host) (HE : host_ok E).

(** Where a block ends that throws: a call of the environment was refused. *)
Definition refused (s : p2p_process) : Prop :=
  (exists o, owns [] o s /\ wait_for_close o = false /\ remote_region o = None) /\ ~ host_good E.

Definition own_name (global_rank : Z) (name : string) : Prop :=
  exists sequence, 0 <= sequence < 2 ^ 64 /\
    name = object_name "/nano_nccl_ipc_" (getpid E) global_rank sequence.

Lemma own_name_nonempty global_rank name : own_name global_rank name -> name <> "".
Proof. by intros (q & _ & ->). Qed.

Definition with_handle (h : option Z) (P : p2p_process -> Prop) (s : p2p_process) : Prop :=
  P s /\ local_handle s = h.

Lemma map_created_spec h o name fd :
  spec (with_handle h (owns [RName name; RFd fd] o)) (map_created E name fd)
    (fun s => owns [] o s /\ ~ host_good E)
    (fun c s => exists p, with_handle h (owns [RMap p; RName name; RFd fd] o) s /\ c = (name, p, fd)).
Proof.
  intros s [Ho Hh]. unfold map_created.
  assert (owns [] o (pp_drop (RName name) (pp_drop (RFd fd) s))) as Hu.
  { apply p2p_owns_drop, p2p_owns_drop. destruct Ho. split; try done. rewrite ow_held0. apply perm_swap. }
  destruct (ftruncate E fd) eqn:Ht; [split; [exact Hu|blame]|].
  destruct (mmap E fd) eqn:Hm; [|split; [exact Hu|blame]].
  simpl. eexists. split; [split; [|exact Hh]|done]. exact (p2p_owns_hold [RName name; RFd fd] _ _ [_] Ho).
Qed.

Lemma create_close_control_spec h o global_rank attempts :
  spec (with_handle h (owns [] o)) (create_close_control E global_rank attempts)
    (fun s => owns [] o s /\ (attempts = O \/ ~ host_good E))
    (fun c s => exists name p fd, c = (name, p, fd) /\ own_name global_rank name /\
       0 <= fd_number fd /\ with_handle h (owns [RMap p; RName name; RFd fd] o) s).
Proof.
  induction attempts as [|attempts IH]; simpl; [apply spec_throw; intros s []; auto|].
  apply (spec_bind _ _ (fun sequence s => with_handle h (owns [] o) s /\ 0 <= sequence < 2 ^ 64)).
  { intros s [[] ?]. split; [split; [split|]|]; try done. simpl. apply u64_range. }
  intros sequence. destruct (shm_open_create _ _) as [fd|errno] eqn:Hopen.
  - intros s [[Ho Hh] Hq]. unfold mbind, PM_bind, p_modify.
    set (name := object_name _ _ _ _) in *. set (f := Fd fd name).
    pose proof (map_created_spec h o name f (pp_hold [RName name; RFd f] s)
      (conj (p2p_owns_hold [] _ _ [_; _] Ho) Hh)) as Hm.
    destruct (map_created E name f _) as [s' [c|e]].
    + destruct Hm as (p & Hs & ->). exists name, p, f. split; [done|].
      split; [by exists sequence|]. split; [by eapply created_descriptor|done].
    + destruct Hm as [? ?]. auto.
  - destruct (errno =? EEXIST).
    + intros s [Ho _]. specialize (IH s Ho).
      destruct (create_close_control _ _ _ s) as [s' [c|e]]; [done|].
      destruct IH as [Ho' _]. split; [done|right; blame].
    + apply spec_throw. intros s [[Ho _] _]. split; [done|right; blame].
Qed.

(** What the first block leaves when it returns. *)
Definition exported_ok (global_rank : Z) (has_incoming : bool) (name : string)
    (s : p2p_process) : Prop :=
  if has_incoming then
    exists a p fd, own_name global_rank name /\ local_handle s = Some a /\
      owns [] (Owner (Some a) None name (Some p) None (Some fd) None false) s
  else name = "" /\ owns [] fresh_owner s.

Lemma export_incoming_spec global_rank has_incoming : 0 <= global_rank < 2 ^ 64 ->
  spec (owns [] fresh_owner) (export_incoming E global_rank has_incoming) refused
    (exported_ok global_rank has_incoming).
Proof.
  intros Hr. unfold export_incoming. destruct has_incoming; cbn [negb]; [|by apply spec_ret].
  destruct (cudaMalloc E) as [a|text] eqn:Hm.
  2: { apply spec_throw. intros s Ho. split; [by exists fresh_owner|blame]. }
  set (o := Owner (Some a) None "" None None None None false).
  assert (forall s, owns [] o s -> ~ host_good E -> refused s) as Hfail by (intros s ?; by exists; eauto).
  eapply spec_bind; [apply (spec_modify _ _ (fun _ => owns [] o))|intros []].
  { intros s Ho. apply (owns_give [RMemory a] [] fresh_owner (set_local_region a));
      [exact (p2p_owns_hold [] _ _ [_] Ho)|done|done]. }
  eapply spec_bind; [apply spec_check; intros; apply Hfail; [done|blame]|intros []].
  eapply spec_bind; [apply spec_check; intros; apply Hfail; [done|blame]|intros []].
  eapply spec_bind; [apply (spec_modify _ _ (fun _ => with_handle (Some a) (owns [] o)))|intros []].
  { intros s [? ? [? ?] ?]. by split. }
  eapply spec_bind.
  { intros s Hs. pose proof (create_close_control_spec (Some a) o global_rank 32 s Hs) as Hc.
    destruct (create_close_control E global_rank 32 s) as [s' [c|e]]; [exact Hc|].
    destruct Hc as [? [?|?]]; [done|by apply Hfail]. }
  intros c s (name & p & fd & -> & Hn & Hfd & Ho & Hh). unfold mbind, PM_bind, p_modify. simpl.
  assert (snprintf 128 name = name) as ->.
  { destruct Hn as (q & Hq & ->). pose proof (pid_range _ HE).
    apply object_name_fits; [simpl; lia|lia|lia|lia]. }
  exists a, p, fd. split; [done|]. split; [done|].
  apply (owns_give [RMap p; RName name; RFd fd] [] o (set_local_control name p fd)); [done| |done].
  unfold owned, named. rewrite (decide_False (P := name = "")) by by eapply own_name_nonempty.
  simpl. solve_Permutation.
Qed.

Lemma open_close_control_spec o name :
  spec (owns [] o) (open_close_control E name) (fun s => owns [] o s /\ ~ host_good E)
    (fun c s => 0 <= fd_number c.2 /\ owns [RMap c.1; RFd c.2] o s).
Proof.
  intros s Ho. unfold open_close_control.
  destruct (shm_open_peer E name) as [n|errno] eqn:Hp; [|split; [exact Ho|blame]].
  unfold mbind, PM_bind, p_modify.
  assert (owns [RFd (Fd n name)] o (pp_hold [RFd (Fd n name)] s)) as Ho' by exact (p2p_owns_hold [] _ _ [_] Ho).
  destruct (mmap E (Fd n name)) as [a|errno] eqn:Hm; simpl.
  - split; [by eapply opened_descriptor|]. exact (p2p_owns_hold [RFd (Fd n name)] _ _ [_] Ho').
  - split; [by apply p2p_owns_drop|blame].
Qed.

(** The owner once the region of the receiver is open. *)
Definition opened_owner (has_outgoing : bool) (peer : Z) (o o' : MpiP2pOwner) : Prop :=
  if has_outgoing then exists p fd, o' = set_remote_region peer (set_remote_control p fd o)
  else o' = o.

Definition importer (o : MpiP2pOwner) : Prop :=
  remote_region o = None /\ remote_close_control o = None /\ remote_control_fd o = None /\
  wait_for_close o = false.

Lemma p2p_open_outgoing_spec o has_outgoing name peer : importer o ->
  (has_outgoing = true -> name <> "") ->
  spec (owns [] o) (open_outgoing E has_outgoing name (Some peer))
    (fun s => (exists o', owns [] o' s /\ remote_region o' = None /\ wait_for_close o' = false /\
       local_close_control o' = local_close_control o) /\ ~ host_good E)
    (fun _ s => exists o', owns [] o' s /\ opened_owner has_outgoing peer o o').
Proof.
  intros (Hr & Hc & Hf & Hw) Hname. unfold open_outgoing.
  destruct has_outgoing; simpl; [|intros s Ho; by exists o].
  rewrite decide_False by by apply Hname.
  eapply spec_bind.
  { intros s Ho. pose proof (open_close_control_spec o name s Ho) as H.
    destruct (open_close_control E name s) as [s' [c|e]]; [exact H|].
    destruct H. split; [by exists o|done]. }
  intros [p fd]. set (o1 := set_remote_control p fd o).
  eapply spec_bind; [apply (spec_modify _ _ (fun _ => owns [] o1))|intros []].
  { intros s [Hfd Ho]. apply (owns_give [RMap p; RFd fd]); [done| |by destruct Ho as [? ? [? _] _]].
    unfold owned. simpl. rewrite Hr, Hc, Hf. simpl. solve_Permutation. }
  destruct (cudaIpcOpenMemHandle E (Some peer)) as [b|text] eqn:Hopen.
  - apply spec_modify. intros s Ho. rewrite (opened_handle _ HE _ _ Hopen).
    exists (set_remote_region peer o1). split; [|by exists p, fd].
    apply (owns_give [RImport peer]); [exact (p2p_owns_hold [] _ _ [_] Ho)| |by destruct Ho].
    unfold owned. simpl. by rewrite Hr.
  - apply spec_throw. intros s Ho. split; [by exists o1|blame].
Qed.
End Blocks.

(** ** All processes *)

(** ** Owners ready to be torn down *)

Section Ready.
Context `{BuildConfig} (o : Z -> MpiP2pOwner).

Definition prv (r : Z) : Z := (r + kRanks - 1) mod kRanks.

Lemma prv_range r : 0 <= prv r < kRanks.
Proof. apply Z.mod_pos_bound, kRanks_pos. Qed.

(** The set-up has left the owners in this state: a process waits exactly when
    its sender has opened the memory, and the controls it needs are mapped. *)
Record ready : Prop := {
  rd_wait r : 0 <= r < kRanks -> wait_for_close (o r) = is_some (remote_region (o (prv r)));
  rd_remote r : 0 <= r < kRanks -> is_some (remote_region (o r)) = true ->
    is_some (remote_close_control (o r)) = true;
  rd_local r : 0 <= r < kRanks -> wait_for_close (o r) = true ->
    is_some (local_close_control (o r)) = true }.
End Ready.

Section Agreement.
Context `{BuildConfig} (E : Z -> host) (closed : Z -> bool) (kinds : list TransportKind).
Context (s0 : Z -> p2p_process).

Definition p2p_programs : list (spmd (p2p_process * res (Z -> ends))) :=
  (fun r => create_mpi_p2p_connections (E r) (closed r) kinds r (s0 r)) <$> ranks.

(** What a process is left with when the set-up succeeds everywhere: the views
    of the two regions, no name, and it will wait for its sender. *)
Definition p2p_connected (region : Z -> Z) (r : Z) (out : p2p_process * res (Z -> ends)) : Prop :=
  exists s v o, out = (s, Ok v) /\
    (forall c, v c = connection_view P2p region kinds r c) /\ owns [] o s /\
    local_region o = (if has_incoming P2p kinds r then Some (region r) else None) /\
    remote_region o = (if has_outgoing P2p kinds r then Some (region ((r + 1) mod kRanks)) else None) /\
    local_control_name o = "" /\ wait_for_close o = has_incoming P2p kinds r /\
    (has_outgoing P2p kinds r = true -> is_Some (remote_close_control o)) /\
    (has_incoming P2p kinds r = true -> is_Some (local_close_control o)).

(** A failed process has run the destructor of an owner of all it held. *)
Definition p2p_torn_down (o : Z -> MpiP2pOwner) (r : Z) (s : p2p_process) : Prop :=
  exists s0, owns [] (o r) s0 /\ s = destroy_owner (E r) (closed r) s0.

(** How the set-up ends: all ranks connected, or all torn down in one go. *)
Definition p2p_ended (out : Z -> p2p_process * res (Z -> ends)) : Prop :=
  (exists region, forall r, 0 <= r < kRanks -> p2p_connected region r (out r)) \/
  exists o, ready o /\ all_fail E (p2p_torn_down o) out.

Lemma p2p_region_view_connection region r o c :
  local_region o = (if has_incoming P2p kinds r then Some (region r) else None) ->
  remote_region o = (if has_outgoing P2p kinds r then Some (region ((r + 1) mod kRanks)) else None) ->
  region_view o c = connection_view P2p region kinds r c.
Proof.
  unfold region_view, connection_view, has_incoming, has_outgoing. intros -> ->.
  by destruct (bool_decide _), (bool_decide _).
Qed.

Lemma run_p2p_fail fuel s prefix (errors : Z -> string) :
  run_ranks (S fuel) ((fun r => p2p_fail (E r) (closed r) (s r) prefix (errors r)) <$> ranks) =
  Some ((fun r => (destroy_owner (E r) (closed r) (s r), Throw (RuntimeError (prefix +:+
    first_error "unknown CUDA IPC setup error" (errors <$> ranks))))) <$> ranks).
Proof.
  unfold p2p_fail. rewrite run_first_error by apply ranks_nonempty. by rewrite run_done.
Qed.

(** What the exporting block leaves in the owner. *)
Definition exported_owner (r region : Z) (o : MpiP2pOwner) : Prop :=
  if has_incoming P2p kinds r
  then exists name p fd, o = Owner (Some region) None name (Some p) None (Some fd) None false
  else o = fresh_owner.

Lemma exported_importer r region o : exported_owner r region o -> importer o.
Proof. unfold exported_owner. destruct (has_incoming _ _ _); [intros (? & ? & ? & ->)|intros ->]; done. Qed.

Lemma armed_owns (b wait : bool) o s : owns [] o s ->
  owns [] (if b then arm_local_close_wait wait o else o)
    (if b then with_owner (arm_local_close_wait wait) s else s).
Proof.
  intros Ho. destruct b; [|done].
  by apply (owns_give [] [] o (arm_local_close_wait wait)); [|done|destruct Ho].
Qed.

Lemma p2p_unlink_owns o s : owns [] o s -> owns [] (clear_name o) (unlink_local_control s).
Proof.
  intros Ho. pose proof Ho as [Hh Hp Hf Hs]. unfold unlink_local_control. rewrite Hp.
  case_decide as Hn; [destruct o; simpl in *; by subst|].
  split; try done; simpl; [|by rewrite Hp].
  apply release_perm. rewrite Hh. unfold owned, named. rewrite decide_False by done. simpl.
  solve_Permutation.
Qed.

Definition opened_ok (region : Z -> Z) (own : Z -> MpiP2pOwner) (r : Z) (s : p2p_process)
    (opened : res unit) : Prop :=
  match opened with
  | Ok _ => exists o', owns [] o' s /\
      opened_owner (has_outgoing P2p kinds r) (region ((r + 1) mod kRanks)) (own r) o'
  | Throw _ => (exists o', owns [] o' s /\ remote_region o' = None /\ wait_for_close o' = false /\
      local_close_control o' = local_close_control (own r)) /\ ~ host_good (E r)
  end.

Lemma opened_fields region own r o' : exported_owner r (region r) (own r) ->
  opened_owner (has_outgoing P2p kinds r) (region ((r + 1) mod kRanks)) (own r) o' ->
  local_region o' = (if has_incoming P2p kinds r then Some (region r) else None) /\
  remote_region o' = (if has_outgoing P2p kinds r then Some (region ((r + 1) mod kRanks)) else None) /\
  wait_for_close o' = false /\ local_close_control o' = local_close_control (own r) /\
  (has_outgoing P2p kinds r = true -> is_Some (remote_close_control o')) /\
  (has_incoming P2p kinds r = true -> is_Some (local_close_control (own r))).
Proof.
  intros Hx Ho. pose proof (exported_importer _ _ _ Hx) as (Hr & _ & _ & Hw).
  assert (local_region (own r) = if has_incoming P2p kinds r then Some (region r) else None) as Hl.
  { unfold exported_owner in Hx. destruct (has_incoming _ _ _); [by destruct Hx as (? & ? & ? & ->)|by rewrite Hx]. }
  assert (has_incoming P2p kinds r = true -> is_Some (local_close_control (own r))) as Hc.
  { intros Hi. unfold exported_owner in Hx. rewrite Hi in Hx. by destruct Hx as (? & ? & ? & ->). }
  unfold opened_owner in Ho. destruct (has_outgoing _ _ _); [destruct Ho as (p & fd & ->)|rewrite Ho]; done.
Qed.

(** What the opening block leaves in the owner. *)
Lemma opened_importer region own r s opened : exported_owner r (region r) (own r) ->
  opened_ok region own r s opened ->
  exists o', owns [] o' s /\ wait_for_close o' = false /\
    local_close_control o' = local_close_control (own r) /\
    (is_some (remote_region o') = true -> has_outgoing P2p kinds r = true /\ is_some (remote_close_control o') = true).
Proof.
  intros Hx Hs. unfold opened_ok in Hs. destruct opened as [[]|e].
  - destruct Hs as (o' & Ho & Hoo). exists o'.
    destruct (opened_fields _ _ _ _ Hx Hoo) as (_ & H2 & H3 & H4 & H5 & _). rewrite H2.
    split_and!; try done. destruct (has_outgoing _ _ _); [|done]. intros _. by destruct (H5 eq_refl) as [? ->].
  - destruct Hs as ((o' & Ho & Hr & Hw & Hl) & _). exists o'. split_and!; try done. by rewrite Hr.
Qed.

(** The waits of all ranks armed, from the gathered [opened_edges]. *)
Definition armed (s : Z -> p2p_process) (r : Z) : p2p_process :=
  if has_incoming P2p kinds r
  then with_owner (arm_local_close_wait
    (negb (default 0 (((fun r => match remote_region (pp_owner (s r)) with Some _ => 1 | None => 0 end) <$> ranks)
       !! Z.to_nat ((r + kRanks - 1) mod kRanks)) =? 0))) (s r)
  else s r.

(** The owners are ready to be torn down once their waits have been armed. *)
Lemma opened_ready region own s opened :
  (forall r, 0 <= r < kRanks -> exported_owner r (region r) (own r)) ->
  (forall r, 0 <= r < kRanks -> opened_ok region own r (s r) (opened r)) ->
  ready (fun r => pp_owner (armed s r)).
Proof.
  intros Hx Hs.
  assert (forall r, 0 <= r < kRanks -> wait_for_close (pp_owner (s r)) = false /\
    (has_incoming P2p kinds r = true -> is_some (local_close_control (pp_owner (s r))) = true) /\
    (is_some (remote_region (pp_owner (s r))) = true ->
      has_outgoing P2p kinds r = true /\ is_some (remote_close_control (pp_owner (s r))) = true)) as Hf.
  { intros r Hr. destruct (opened_importer region own r _ _ (Hx r Hr) (Hs r Hr)) as (o' & Ho & Hw & Hl & Hrem).
    rewrite (ow_owner _ _ _ Ho), Hl. split_and!; try done. intros Hi. specialize (Hx r Hr).
    unfold exported_owner in Hx. rewrite Hi in Hx. by destruct Hx as (? & ? & ? & ->). }
  assert (forall r f, remote_region (pp_owner (if has_incoming P2p kinds r
      then with_owner (arm_local_close_wait f) (s r) else s r)) = remote_region (pp_owner (s r)) /\
    remote_close_control (pp_owner (if has_incoming P2p kinds r
      then with_owner (arm_local_close_wait f) (s r) else s r)) = remote_close_control (pp_owner (s r))) as Hsame.
  { intros r f. by destruct (has_incoming _ _ _). }
  split; intros r Hr; unfold armed; rewrite ?(proj1 (Hsame _ _)), ?(proj2 (Hsame _ _)); destruct (Hf r Hr) as (Hw & Hl & Hrem).
  - pose proof (prv_range r) as Hp. destruct (Hf _ Hp) as (_ & _ & Hrp).
    destruct (has_incoming P2p kinds r) eqn:Hi.
    + simpl. rewrite gathered by done. unfold prv. simpl. by destruct (remote_region (pp_owner (s ((r + kRanks - 1) mod kRanks)))).
    + rewrite Hw. destruct (is_some (remote_region (pp_owner (s (prv r))))) eqn:Hsome; [|done].
      destruct (Hrp eq_refl) as [Ho _]. unfold prv in Ho. rewrite outgoing_of_previous in Ho. congruence.
  - intros Hs'. by destruct (Hrem Hs').
  - destruct (has_incoming P2p kinds r) eqn:Hi; simpl; [by rewrite Hl|by rewrite Hw].
Qed.

Lemma run_p2p_conclude region own s opened :
  (forall r, 0 <= r < kRanks -> exported_owner r (region r) (own r)) ->
  (forall r, 0 <= r < kRanks -> opened_ok region own r (s r) (opened r)) ->
  exists out, run_ranks 4 ((fun r => p2p_conclude (E r) (closed r) (has_incoming P2p kinds r) r (s r)
      (ok_flag (opened r)) (opened r)) <$> ranks) = Some (out <$> ranks) /\
    p2p_ended out.
Proof.
  intros Hx Hs. unfold p2p_conclude. rewrite run_allreduce by apply ranks_nonempty.
  rewrite run_allgather by (done || apply ranks_nonempty).
  destruct (all_ok_spec opened ranks ranks_nonempty) as [[-> Hok]|[-> (r & e & Hr & Hre)]].
  - change (1 =? 0) with false. cbn match. unfold p2p_finish.
    rewrite run_barrier by apply ranks_nonempty. rewrite run_done.
    eexists. split; [done|]. left. exists region. intros r Hr.
    pose proof (Z.mod_pos_bound (r + kRanks - 1) kRanks kRanks_pos) as Hp.
    rewrite gathered by done. cbn [default].
    assert (forall r, 0 <= r < kRanks -> exists o', owns [] o' (s r) /\
      opened_owner (has_outgoing P2p kinds r) (region ((r + 1) mod kRanks)) (own r) o') as Hs'.
    { intros r' Hr'. specialize (Hs r' Hr'). by destruct (Hok r') as [[] Hq]; [apply elem_of_zrange|rewrite Hq in Hs]. }
    destruct (Hs' _ Hp) as (op & Hop & Hopp). destruct (Hs' r Hr) as (o & Ho & Hoo).
    destruct (opened_fields _ _ _ _ (Hx _ Hp) Hopp) as (_ & Hrem & _).
    destruct (opened_fields _ _ _ _ (Hx r Hr) Hoo) as (H1 & H2 & H3 & H4 & H5 & H6).
    rewrite (ow_owner _ _ _ Hop), Hrem, outgoing_of_previous.
    set (wait := negb _).
    set (o2 := clear_name (if has_incoming P2p kinds r then arm_local_close_wait wait o else o)).
    assert (owns [] o2 (unlink_local_control
      (if has_incoming P2p kinds r then with_owner (arm_local_close_wait wait) (s r) else s r))) as Ho2.
    { by apply p2p_unlink_owns, armed_owns. }
    eexists _, _, o2. split; [done|]. rewrite (ow_owner _ _ _ Ho2).
    assert (local_region o2 = local_region o /\ remote_region o2 = remote_region o) as [E1 E2]
      by (unfold o2; by destruct (has_incoming _ _ _)).
    rewrite <- E1 in H1. rewrite <- E2 in H2.
    split; [intros c; by apply p2p_region_view_connection|]. split; [done|]. split; [done|].
    split; [done|]. split; [done|]. rewrite <- H4 in H6.
    unfold o2, wait. by destruct (has_incoming _ _ _).
  - change (0 =? 0) with true. cbn match. rewrite run_p2p_fail.
    eexists. split; [done|]. right. apply elem_of_zrange in Hr.
    exists (fun r' => pp_owner (armed s r')). split; [by apply (opened_ready region own s opened)|]. split.
    + eexists. intros r' Hr'. eexists. split; [done|].
      destruct (opened_importer region own r' (s r') (opened r') (Hx r' Hr') (Hs r' Hr')) as (o' & Ho & _).
      exists (armed s r'). split; [|done]. unfold armed.
      pose proof (armed_owns (has_incoming P2p kinds r')) as Ht. erewrite (ow_owner _ _ _ (Ht _ _ _ Ho)). by apply Ht.
    + exists r. split; [done|]. specialize (Hs r Hr). rewrite Hre in Hs. by destruct Hs.
Qed.

Context (HE : forall r, 0 <= r < kRanks -> host_ok (E r)) (Hranks : kRanks < 2 ^ 31).
Context (Hfresh : forall r, 0 <= r < kRanks -> owns [] fresh_owner (s0 r)).

Definition first_block (r : Z) := export_incoming (E r) r (has_incoming P2p kinds r) (s0 r).
Definition first_state (r : Z) : p2p_process := (first_block r).1.

Lemma p2p_first_block_spec r : 0 <= r < kRanks ->
  match (first_block r).2 with
  | Ok name => exported_ok (E r) r (has_incoming P2p kinds r) name (first_state r)
  | Throw _ => refused (E r) (first_state r)
  end.
Proof.
  intros Hr. pose proof (export_incoming_spec (E r) (HE r Hr) r (has_incoming P2p kinds r)) as Hc.
  specialize (Hc ltac:(lia) (s0 r) (Hfresh r Hr)). fold (first_block r) in Hc. unfold first_state.
  by destruct (first_block r) as [s [c|e]].
Qed.

(** The region a rank exports. *)
Definition exported_region (r : Z) : Z := default 0 (local_handle (first_state r)).

Lemma exported_owner_ok r name : exported_ok (E r) r (has_incoming P2p kinds r) name (first_state r) ->
  exported_owner r (exported_region r) (pp_owner (first_state r)) /\
  owns [] (pp_owner (first_state r)) (first_state r) /\
  (has_incoming P2p kinds r = true -> name <> "" /\ local_handle (first_state r) = Some (exported_region r)).
Proof.
  unfold exported_ok, exported_owner, exported_region. destruct (has_incoming _ _ _).
  - intros (a & p & fd & Hn & -> & Ho). rewrite (ow_owner _ _ _ Ho). split; [by exists name, p, fd|].
    split; [done|]. intros _. split; [by eapply own_name_nonempty|done].
  - intros [_ Ho]. by rewrite (ow_owner _ _ _ Ho).
Qed.

(** The second half, when every rank has exported its region. *)
Lemma run_p2p_second (name : Z -> string) :
  (forall r, 0 <= r < kRanks ->
     exported_ok (E r) r (has_incoming P2p kinds r) (name r) (first_state r)) ->
  let second r := open_outgoing (E r) (has_outgoing P2p kinds r)
        (default "" ((name <$> ranks) !! Z.to_nat ((r + 1) mod kRanks)))
        (default None (((fun r => local_handle (first_state r)) <$> ranks)
           !! Z.to_nat ((r + 1) mod kRanks))) (first_state r) in
  exists out, run_ranks 4 ((fun r => p2p_conclude (E r) (closed r) (has_incoming P2p kinds r) r
      (second r).1 (ok_flag (second r).2) (second r).2) <$> ranks) = Some (out <$> ranks) /\
    p2p_ended out.
Proof.
  intros Hn second. apply (run_p2p_conclude exported_region (fun r => pp_owner (first_state r))).
  { intros r Hr. by apply (exported_owner_ok r (name r)), Hn. }
  intros r Hr. pose proof (Z.mod_pos_bound (r + 1) kRanks kRanks_pos) as Hnext.
  destruct (exported_owner_ok r (name r) (Hn r Hr)) as (Hx & Ho & _).
  destruct (exported_owner_ok _ _ (Hn _ Hnext)) as (_ & _ & Hpeer).
  rewrite incoming_of_next in Hpeer by done. unfold second, opened_ok.
  rewrite (gathered name), (gathered (fun r => local_handle (first_state r))) by done. cbn [default].
  destruct (has_outgoing P2p kinds r) eqn:Hout; [|by eexists].
  destruct (Hpeer eq_refl) as [Hne ->].
  pose proof (p2p_open_outgoing_spec (E r) (HE r Hr) (pp_owner (first_state r)) true
    (name ((r + 1) mod kRanks)) (exported_region ((r + 1) mod kRanks))
    (exported_importer _ _ _ Hx) (fun _ => Hne) (first_state r) Ho) as Hs.
  by destruct (open_outgoing _ _ _ _ _) as [s' [[]|e]].
Qed.

Lemma run_p2p_exchange :
  exists out, run_ranks 7 ((fun r => p2p_exchange (E r) (closed r) kinds r (first_state r)
      (first_block r).2) <$> ranks) = Some (out <$> ranks) /\
    p2p_ended out.
Proof.
  unfold p2p_exchange. do 2 rewrite run_allgather by (done || apply ranks_nonempty).
  rewrite run_allreduce by apply ranks_nonempty.
  destruct (all_ok_spec (fun r => (first_block r).2) ranks ranks_nonempty)
    as [[-> Hok]|[-> (r & e & Hr & Hre)]].
  - change (1 =? 0) with false. cbn match zeta.
    set (name r := match (first_block r).2 with Ok name => name | Throw _ => "" end).
    destruct (run_p2p_second name) as (out & Hrun & Hout).
    { intros r Hr. pose proof (p2p_first_block_spec r Hr) as Hb. unfold name.
      destruct (Hok r) as [c Hc]; [by apply elem_of_zrange|]. by rewrite Hc in Hb |- *. }
    exists out. split; [|done].
    rewrite <- Hrun. f_equal. apply list_fmap_ext. intros i r Hi.
    destruct (Hok r) as [c Hc]; [by eapply list_elem_of_lookup_2|]. rewrite Hc.
    destruct (open_outgoing _ _ _ _ _) as [s' [[]|e]]; done.
  - change (0 =? 0) with true. cbn match. rewrite run_p2p_fail.
    eexists. split; [done|]. right. apply elem_of_zrange in Hr.
    assert (forall r, 0 <= r < kRanks -> owns [] (pp_owner (first_state r)) (first_state r) /\
      wait_for_close (pp_owner (first_state r)) = false /\ remote_region (pp_owner (first_state r)) = None) as Hf.
    { intros r' Hr'. pose proof (p2p_first_block_spec r' Hr') as Hb.
      destruct (first_block r').2 as [name|e'].
      - destruct (exported_owner_ok _ _ Hb) as (Hx & Ho & _). by destruct (exported_importer _ _ _ Hx) as (? & _ & _ & ?).
      - destruct Hb as ((o & Ho & Hw & Hrem) & _). by rewrite (ow_owner _ _ _ Ho). }
    exists (fun r => pp_owner (first_state r)). split; [|split].
    + split; intros r' Hr'; destruct (Hf r' Hr') as (_ & Hw & Hrem);
        [|by rewrite Hrem|by rewrite Hw].
      destruct (Hf _ (prv_range r')) as (_ & _ & Hp). by rewrite Hw, Hp.
    + eexists. intros r' Hr'. eexists. split; [done|]. exists (first_state r').
      split; [by apply (Hf r' Hr')|done].
    + exists r. split; [done|]. pose proof (p2p_first_block_spec r Hr) as Hb.
      rewrite Hre in Hb. by destruct Hb.
Qed.

(** How the set-up ends, for the creation of a communicator. *)
Lemma p2p_setup_outcomes : (forall r, 0 <= r < kRanks -> cudaSetDevice (E r) = None) ->
  exists out, run_ranks 7 p2p_programs = Some (out <$> ranks) /\ p2p_ended out.
Proof.
  intros Hdev. unfold p2p_programs, create_mpi_p2p_connections.
  destruct (decide (P2p ∉ kinds)) as [Hn|_].
  - rewrite run_done. eexists. split; [done|]. left. exists (fun _ => 0). intros r Hr.
    assert (forall i, bool_decide (kinds !! i = Some P2p) = false) as Hf.
    { intros i. apply bool_decide_eq_false_2. intros Hi. by apply list_elem_of_lookup_2 in Hi. }
    eexists _, _, fresh_owner. unfold has_incoming, has_outgoing. rewrite !Hf.
    split; [done|]. split; [intros c; unfold connection_view; by rewrite !Hf|].
    by pose proof (Hfresh r Hr).
  - destruct run_p2p_exchange as (out & Hrun & Hout). exists out. split; [|done].
    rewrite <- Hrun. f_equal. apply list_fmap_ext. intros i r Hi.
    rewrite Hdev by (by apply elem_of_zrange; eapply list_elem_of_lookup_2).
    unfold first_state, first_block. by destruct (export_incoming _ _ _ _).
Qed.

(** A rank that cannot select its device throws before the first call, so the
    other ranks wait for it for ever. *)
Theorem p2p_setup_stuck r r' text : P2p ∈ kinds -> 0 <= r < kRanks -> 0 <= r' < kRanks ->
  cudaSetDevice (E r) = Some text -> cudaSetDevice (E r') = None ->
  forall fuel, run_ranks fuel p2p_programs = None.
Proof.
  intros Hk Hr Hr' Ht Hn fuel. unfold p2p_programs, create_mpi_p2p_connections.
  destruct (export_incoming (E r') r' (has_incoming P2p kinds r') (s0 r')) as [s e] eqn:Hexp.
  eapply run_stuck; apply list_elem_of_fmap.
  - exists r. rewrite decide_False, Ht by tauto. split; [done|by apply elem_of_zrange].
  - exists r'. rewrite decide_False, Hn, Hexp by tauto. split; [done|by apply elem_of_zrange].
Qed.
End Agreement.

(** ** All processes: the probe *)

Section Probe.
Context `{BuildConfig} (E : Z -> host) (node_ids : list Z) (s0 : Z -> p2p_process).
Context (Hdev : forall r, 0 <= r < kRanks -> cudaSetDevice (E r) = None).

(** When an edge is usable: both ranks on one node could export their probes,
    the sender could open the one of the receiver and close it again, and free
    its own. *)
Definition probe_edge (e : Z) : bool :=
  let receiver := (e + 1) mod kRanks in
  let node (r : Z) := default 0 (node_ids !! Z.to_nat r) in
  let accepted (answer : option string) := match answer with None => true | Some _ => false end in
  (node e =? node receiver) && bool_decide (is_Some (probe_handle (E e))) &&
  match probe_handle (E receiver) with
  | None => false
  | Some a => match cudaIpcOpenMemHandle (E e) (Some a) with inl _ => true | inr _ => false end
  end && accepted (cudaIpcCloseMemHandle (E e)) && accepted (cudaFree (E e)).

Definition probe_flag (b : bool) : Z := if b then 1 else 0.

(** One rank, given what the others have published. *)
Lemma probe_rank r h (s : p2p_process) : h = probe_handle (E ((r + 1) mod kRanks)) ->
  let probed := probe_outgoing (E r)
    (default 0 (node_ids !! Z.to_nat r) =? default 0 (node_ids !! Z.to_nat ((r + 1) mod kRanks)))
    (negb (match probe_handle (E r) with Some _ => 1 | None => 0 end =? 0))
    (negb (match h with Some _ => 1 | None => 0 end =? 0)) h
    (match local_probe (E r) with Some a => pp_hold [RMemory a] s | None => s end) in
  let so := probe_free (E r) (local_probe (E r)) probed in
  so.2 = probe_flag (probe_edge r) /\
  (cudaIpcCloseMemHandle (E r) = None -> cudaFree (E r) = None -> pp_held so.1 ≡ₚ pp_held s) /\
  pp_owner so.1 = pp_owner s /\ pp_sequence so.1 = pp_sequence s.
Proof.
  intros ->. unfold probe_edge, probe_outgoing.
  set (peer := probe_handle (E ((r + 1) mod kRanks))). set (same := _ =? _). clearbody peer same.
  unfold probe_handle, probe_free.
  destruct (local_probe (E r)) as [a|]; [|by destruct same].
  destruct (cudaIpcGetMemHandle (E r)), same, peer as [b|]; simpl;
    try destruct (cudaIpcOpenMemHandle (E r) (Some b)) as [c|]; simpl;
    try destruct (cudaIpcCloseMemHandle (E r)); destruct (cudaFree (E r)); simpl; split_and!;
    try done; intros; try done; repeat case_decide; done || by apply release_perm.
Qed.

(** All ranks get one and the same answer for every edge, and nobody keeps the
    memory or the handle of the probe. *)
Theorem probe_agrees :
  exists out, run_ranks 4 ((fun r => probe_mpi_p2p_edges (E r) node_ids r (s0 r)) <$> ranks)
    = Some (out <$> ranks) /\
  forall r, 0 <= r < kRanks -> exists s, out r = (s, Ok (probe_edge <$> ranks)) /\
    (cudaIpcCloseMemHandle (E r) = None -> cudaFree (E r) = None ->
     pp_held s ≡ₚ pp_held (s0 r)) /\
    pp_owner s = pp_owner (s0 r) /\ pp_sequence s = pp_sequence (s0 r).
Proof.
  erewrite (list_fmap_ext (fun r => probe_mpi_p2p_edges (E r) node_ids r (s0 r))).
  2: { intros i r Hi. unfold probe_mpi_p2p_edges.
       rewrite Hdev by (by apply elem_of_zrange; eapply list_elem_of_lookup_2). reflexivity. }
  do 2 rewrite run_allgather by (done || apply ranks_nonempty).
  rewrite run_barrier by apply ranks_nonempty. unfold probe_gather.
  rewrite run_allgather, run_done by (done || apply ranks_nonempty).
  eexists. split; [done|]. intros r Hr.
  set (handles := (fun r => probe_handle (E r)) <$> ranks).
  set (flags := (fun r => match probe_handle (E r) with Some _ => 1 | None => 0 end) <$> ranks).
  assert (forall r, 0 <= r < kRanks ->
    default None (handles !! Z.to_nat ((r + 1) mod kRanks)) = probe_handle (E ((r + 1) mod kRanks)) /\
    default 0 (flags !! Z.to_nat ((r + 1) mod kRanks)) =
      match probe_handle (E ((r + 1) mod kRanks)) with Some _ => 1 | None => 0 end) as Hg.
  { intros r' Hr'. pose proof (Z.mod_pos_bound (r' + 1) kRanks kRanks_pos). unfold handles, flags.
    by rewrite (gathered (fun r => probe_handle (E r))),
      (gathered (fun r => match probe_handle (E r) with Some _ => 1 | None => 0 end)). }
  eexists. split.
  - f_equal. f_equal. rewrite <- list_fmap_compose. apply list_fmap_ext. intros i x Hi. simpl.
    assert (0 <= x < kRanks) as Hx by (by apply elem_of_zrange; eapply list_elem_of_lookup_2).
    destruct (Hg x Hx) as [E1 E2]. rewrite E1, E2.
    destruct (probe_rank x _ (s0 x) eq_refl) as (-> & _). by destruct (probe_edge x).
  - destruct (Hg r Hr) as [E1 E2]. rewrite E1, E2. by apply probe_rank.
Qed.
End Probe.

(** ** Three processes *)

Module P2pWitness.
Import Hosts.
#[local] Existing Instance small_config.

Definition kinds : list TransportKind := [P2p; P2p; P2p].
Definition fresh (_ : Z) : p2p_process := P2pProcess 0 [] fresh_owner None.
Definition in_time (_ : Z) : bool := true.

(** The views of the three ranks: the regions are the allocations 1000 to 1002. *)
Example p2p_without_failures :
  option_map (map (fun o : p2p_process * res (Z -> ends) =>
      match o.2 with Ok v => Some (recv_head (v 0), send_head (v 0)) | Throw _ => None end))
    (run_ranks 7 (p2p_programs good_host in_time kinds fresh)) =
  Some [Some (Some (Loc 1000 0), Some (Loc 1001 0)); Some (Some (Loc 1001 0), Some (Loc 1002 0));
        Some (Some (Loc 1002 0), Some (Loc 1000 0))].
Proof. vm_compute. reflexivity. Qed.

Lemma p2p_setup_stuck_witness :
  run_ranks 7 (p2p_programs first_broken in_time kinds fresh) = None.
Proof.
  apply (p2p_setup_stuck first_broken in_time kinds fresh 0 1 "CUDA error: invalid device");
    try reflexivity; [by left|by vm_compute|by vm_compute].
Defined.

Lemma probe_agrees_witness :
  exists out, run_ranks 4 ((fun r => probe_mpi_p2p_edges (good_host r) [0; 0; 7] r (fresh r)) <$> ranks)
    = Some (out <$> ranks) /\
  forall r, 0 <= r < kRanks -> exists s,
    out r = (s, Ok (probe_edge good_host [0; 0; 7] <$> ranks)) /\
    (cudaIpcCloseMemHandle (good_host r) = None -> cudaFree (good_host r) = None ->
     pp_held s ≡ₚ pp_held (fresh r)) /\
    pp_owner s = pp_owner (fresh r) /\ pp_sequence s = pp_sequence (fresh r).
Proof. apply (probe_agrees good_host [0; 0; 7] fresh). intros r _. reflexivity. Defined.

(** Only the edge inside node 0 is usable. *)
Example probed_edges : probe_edge good_host [0; 0; 7] <$> ranks = [true; false; false].
Proof. vm_compute. reflexivity. Qed.
End P2pWitness.
