(* ===== verification/P2pClose.v ===== *)
(** * Tearing down CUDA IPC connections

    The destructor of [MpiP2pOwner] in src/transport/p2p/mpi_p2p.cc, run by
    the processes of a ring at the same time.  A turn of a process is one
    action on what it shares with its neighbours: closing its handle on the
    memory of its receiver, storing the close control there, loading its own
    close control, freeing the memory it has exported.  [late] tells whether
    the two seconds of [kCloseTimeout] have passed when a process polls. *)

From Stdlib Require Import ZArith Lia.
From stdpp Require Import base option numbers tactics strings list.
From S2P Require Import Prelude Types Resources Geometry Topology Control InterProcess MpiP2p.

#[local] Open Scope Z_scope.

Inductive phase := Closing | Storing | Waiting | Reading | Freeing (sender_closed : bool) | Ended.

(** What a process shares: whether its handle is open, its close control, and
    whether the memory it exports is allocated. *)
Record side := Side { sd_phase : phase; sd_open : bool; sd_flag : bool; sd_allocated : bool }.

Definition to_phase (p : phase) (x : side) : side := Side p (sd_open x) (sd_flag x) (sd_allocated x).

Section Close.
Context `{BuildConfig} (E : Z -> host) (o : Z -> MpiP2pOwner).

Definition nxt (r : Z) : Z := (r + 1) mod kRanks.

Definition close_turn (late : bool) (r : Z) (sys : Z -> side) : Z -> side :=
  let me := sys r in
  match sd_phase me with
  | Closing =>
      match remote_region (o r), cudaIpcCloseMemHandle (E r) with
      | Some _, None =>
          let p := if is_some (remote_close_control (o r)) then Storing else Waiting in
          upd sys r (Side p false (sd_flag me) (sd_allocated me))
      | _, _ => upd sys r (to_phase Waiting me)
      end
  | Storing =>
      let sys := upd sys r (to_phase Waiting me) in
      let peer := sys (nxt r) in
      upd sys (nxt r) (Side (sd_phase peer) (sd_open peer) true (sd_allocated peer))
  | Waiting =>
      if wait_for_close (o r) && is_some (local_close_control (o r))
      then if sd_flag me || late then upd sys r (to_phase Reading me) else sys
      else upd sys r (to_phase (Freeing (negb (wait_for_close (o r)))) me)
  | Reading => upd sys r (to_phase (Freeing (sd_flag me)) me)
  | Freeing sender_closed =>
      let freed := is_some (local_region (o r)) && sender_closed &&
                   negb (is_some (cudaFree (E r))) in
      upd sys r (Side Ended (sd_open me) (sd_flag me) (sd_allocated me && negb freed))
  | Ended => sys
  end.

Definition start (r : Z) : side :=
  Side Closing (is_some (remote_region (o r))) false (is_some (local_region (o r))).

Definition teardown_step (s s' : Z -> side) : Prop :=
  exists late r, 0 <= r < kRanks /\ s' = close_turn late r s.
Definition timely_step (s s' : Z -> side) : Prop :=
  exists r, 0 <= r < kRanks /\ s' = close_turn false r s.

Lemma nxt_range r : 0 <= nxt r < kRanks.
Proof. apply Z.mod_pos_bound, kRanks_pos. Qed.
Lemma nxt_prv r : 0 <= r < kRanks -> nxt (prv r) = r.
Proof.
  intros Hr. unfold nxt, prv. rewrite Zplus_mod_idemp_l.
  replace (r + kRanks - 1 + 1) with (r + 1 * kRanks) by lia.
  rewrite Z.mod_add by lia. by apply Z.mod_small.
Qed.
Lemma prv_nxt r : 0 <= r < kRanks -> prv (nxt r) = r.
Proof. apply prev_of_next. Qed.

(** What a turn of [r] does to [x], by cases. *)
Ltac turn_cases :=
  unfold close_turn, to_phase, upd; repeat case_match;
  repeat match goal with
  | H : (_ =? _) = true |- _ => apply Z.eqb_eq in H; first [subst | rewrite H in *]
  end; simpl in *.

Lemma turn_open late r sys x : sd_open (close_turn late r sys x) = true -> sd_open (sys x) = true.
Proof. turn_cases; congruence. Qed.

Lemma turn_flag late r sys x : sd_flag (close_turn late r sys x) = true ->
  sd_flag (sys x) = true \/ (sd_phase (sys r) = Storing /\ x = nxt r).
Proof. turn_cases; auto. Qed.

Lemma turn_flag_mono late r sys x : sd_flag (sys x) = true -> sd_flag (close_turn late r sys x) = true.
Proof. turn_cases; auto. Qed.

Lemma turn_storing late r sys x : sd_phase (close_turn late r sys x) = Storing ->
  sd_phase (sys x) = Storing \/ sd_open (close_turn late r sys x) = false.
Proof. turn_cases; auto; congruence. Qed.

Lemma turn_freeing late r sys x b : sd_phase (close_turn late r sys x) = Freeing b ->
  sd_phase (sys x) = Freeing b \/
  (b = negb (wait_for_close (o x)) /\
     wait_for_close (o x) && is_some (local_close_control (o x)) = false) \/
  (b = sd_flag (sys x) /\ sd_phase (sys x) = Reading).
Proof.
  turn_cases; intros Hb; try (left; congruence); right; injection Hb as <-; auto.
Qed.

Lemma turn_freed late r sys x : sd_allocated (close_turn late r sys x) = false ->
  sd_allocated (sys x) = false \/ sd_phase (sys x) = Freeing true.
Proof.
  turn_cases; intros Hf; try (left; congruence).
  destruct sender_closed; [by right|left]. rewrite andb_false_r in Hf. simpl in Hf.
  by rewrite andb_true_r in Hf.
Qed.

(** ** Exported memory is not freed while its importer has it open *)

Record safe (sys : Z -> side) : Prop := {
  sf_wait r : 0 <= r < kRanks -> wait_for_close (o r) = false -> sd_open (sys (prv r)) = false;
  sf_flag r : 0 <= r < kRanks -> sd_flag (sys r) = true -> sd_open (sys (prv r)) = false;
  sf_storing r : 0 <= r < kRanks -> sd_phase (sys r) = Storing -> sd_open (sys r) = false;
  sf_freeing r : 0 <= r < kRanks -> sd_phase (sys r) = Freeing true -> sd_open (sys (prv r)) = false;
  sf_freed r : 0 <= r < kRanks -> is_some (local_region (o r)) = true ->
    sd_allocated (sys r) = false -> sd_open (sys (prv r)) = false }.

Lemma closed_stays late r sys x : sd_open (sys x) = false -> sd_open (close_turn late r sys x) = false.
Proof.
  intros Hx. destruct (sd_open (close_turn late r sys x)) eqn:Ho; [|done].
  apply turn_open in Ho. congruence.
Qed.

Lemma start_safe : ready o -> safe start.
Proof.
  intros Hr. split; intros r Hrange; simpl; try done; [|congruence].
  by rewrite (rd_wait _ Hr r Hrange).
Qed.

Lemma turn_safe late r sys : 0 <= r < kRanks -> safe sys -> safe (close_turn late r sys).
Proof.
  intros Hr [Hw Hf Hs Hg Hd]. split; intros x Hx.
  - intros. by apply closed_stays, Hw.
  - intros [Hflag|[Hp ->]]%turn_flag; apply closed_stays; [by apply Hf|].
    rewrite prv_nxt by done. by apply Hs.
  - intros [Hp|Hp]%turn_storing; [by apply closed_stays, Hs|done].
  - intros [Hp|[[Hb _]|[Hb _]]]%turn_freeing; apply closed_stays; [by apply Hg| |by apply Hf].
    by apply Hw, negb_true_iff.
  - intros Hl [Ha|Hp]%turn_freed; apply closed_stays; [by apply Hd|by apply Hg].
Qed.

Lemma freed_after_close sys r : ready o -> steps teardown_step start sys -> 0 <= r < kRanks ->
  is_some (local_region (o r)) = true -> sd_allocated (sys r) = false ->
  sd_open (sys (prv r)) = false.
Proof.
  intros Hr Hst Hrange. apply sf_freed; [|done].
  apply (steps_invariant teardown_step safe) with (s := start); [|by apply start_safe|done].
  intros s s' Hs (late & x & Hx & ->). by apply turn_safe.
Qed.

(** ** Nothing is leaked when no call fails and nobody is late *)

Definition level (p : phase) : Z :=
  match p with Closing => 0 | Storing => 1 | Waiting => 2 | Reading => 3 | Freeing _ => 4 | Ended => 5 end.

Context (Hclose : forall r, 0 <= r < kRanks -> cudaIpcCloseMemHandle (E r) = None).
Context (Hfree : forall r, 0 <= r < kRanks -> cudaFree (E r) = None).

Record timely (sys : Z -> side) : Prop := {
  tm_told r : 0 <= r < kRanks -> wait_for_close (o r) = true ->
    2 <= level (sd_phase (sys (prv r))) -> sd_flag (sys r) = true;
  tm_reading r : 0 <= r < kRanks -> sd_phase (sys r) = Reading -> sd_flag (sys r) = true;
  tm_freeing r b : 0 <= r < kRanks -> sd_phase (sys r) = Freeing b -> b = true;
  tm_ended r : 0 <= r < kRanks -> sd_phase (sys r) = Ended -> sd_allocated (sys r) = false;
  tm_none r : 0 <= r < kRanks -> is_some (local_region (o r)) = false -> sd_allocated (sys r) = false }.

Lemma start_timely : timely start.
Proof. split; intros; simpl in *; try done; lia. Qed.

Lemma turn_phase_ne late r sys x : x <> r ->
  sd_phase (close_turn late r sys x) = sd_phase (sys x).
Proof. intros Hx. turn_cases; congruence. Qed.

Lemma turn_ended late r sys x : sd_phase (close_turn late r sys x) = Ended ->
  sd_phase (sys x) = Ended \/ (x = r /\ exists b, sd_phase (sys x) = Freeing b /\
    sd_allocated (close_turn late r sys x) = sd_allocated (sys x) &&
      negb (is_some (local_region (o x)) && b && negb (is_some (cudaFree (E x))))).
Proof. turn_cases; intros; try (left; congruence); right; eauto. Qed.

Lemma turn_allocated_mono late r sys x :
  sd_allocated (sys x) = false -> sd_allocated (close_turn late r sys x) = false.
Proof. turn_cases; intros Ha; try congruence; by rewrite Ha. Qed.

Lemma turn_reading r sys x : sd_phase (close_turn false r sys x) = Reading ->
  sd_phase (sys x) = Reading \/ sd_flag (sys x) = true.
Proof.
  turn_cases; intros; try (left; congruence); right.
  by match goal with H : _ || false = true |- _ => rewrite orb_false_r in H end.
Qed.

Lemma told_by_turn r sys : ready o -> 0 <= r < kRanks -> wait_for_close (o (nxt r)) = true ->
  level (sd_phase (sys r)) < 2 -> 2 <= level (sd_phase (close_turn false r sys r)) ->
  sd_flag (close_turn false r sys (nxt r)) = true.
Proof.
  intros Hrd Hr Hw Hlt. rewrite (rd_wait _ Hrd _ (nxt_range r)), prv_nxt in Hw by done.
  pose proof (rd_remote _ Hrd r Hr Hw) as Hc. unfold close_turn. rewrite (Hclose r Hr), Hc.
  destruct (sd_phase (sys r)); simpl in Hlt; try lia.
  - destruct (remote_region (o r)); [|done]. rewrite upd_eq. simpl. lia.
  - intros _. by rewrite upd_eq.
Qed.

Lemma turn_timely r sys : ready o -> 0 <= r < kRanks -> timely sys -> timely (close_turn false r sys).
Proof.
  intros Hrd Hr [Ht Hg Hf He Hn]. split; intros x.
  - intros Hx Hw Hl. destruct (decide (prv x = r)) as [<-|Hne].
    + destruct (decide (level (sd_phase (sys (prv x))) < 2)) as [Hlt|].
      * pose proof (told_by_turn (prv x) sys Hrd Hr) as Hto. rewrite nxt_prv in Hto by done. by apply Hto.
      * apply turn_flag_mono, Ht; [done|done|lia].
    + rewrite turn_phase_ne in Hl by done. by apply turn_flag_mono, Ht.
  - intros Hx [Hp|Hp]%turn_reading; apply turn_flag_mono; [by apply Hg|done].
  - intros b Hx [Hp|[[-> Hw]|[-> Hp]]]%turn_freeing; [by eapply Hf| |by apply Hg].
    destruct (wait_for_close (o x)) eqn:Hwx; [|done]. by rewrite (rd_local _ Hrd x Hx Hwx) in Hw.
  - intros Hx [Hp|(-> & b & Hp & ->)]%turn_ended; [by apply turn_allocated_mono, He|].
    rewrite (Hf _ _ Hx Hp), (Hfree r Hr). destruct (is_some (local_region (o r))) eqn:Hl; simpl.
    + apply andb_false_r.
    + by rewrite (Hn r Hx Hl).
  - intros Hx Hl. by apply turn_allocated_mono, Hn.
Qed.

Lemma turn_level_mono r sys x :
  level (sd_phase (sys x)) <= level (sd_phase (close_turn false r sys x)).
Proof.
  turn_cases; try lia.
  all: try match goal with H : nxt _ = _ |- _ => rewrite H end.
  all: by match goal with H : sd_phase _ = _ |- _ => rewrite H end.
Qed.

(** A turn advances, because whoever waits has been told once all processes
    have closed their handles. *)
Lemma turn_level r sys k : ready o -> 0 <= r < kRanks -> timely sys -> 0 <= k <= 4 ->
  (forall x, 0 <= x < kRanks -> k <= level (sd_phase (sys x))) ->
  k + 1 <= level (sd_phase (close_turn false r sys r)).
Proof.
  intros Hrd Hr Ht Hk Hall. pose proof (Hall r Hr) as Hl.
  destruct (decide (level (sd_phase (sys r)) = k)) as [Heq|];
    [|pose proof (turn_level_mono r sys r); lia].
  assert (k = 2 -> wait_for_close (o r) = true -> sd_flag (sys r) = true) as Hflag.
  { intros -> Hw. apply (tm_told _ Ht r Hr Hw), Hall, prv_range. }
  unfold close_turn. destruct (sd_phase (sys r)); simpl in Heq; subst k; try (rewrite upd_eq; simpl; lia).
  - destruct (remote_region (o r)), (cudaIpcCloseMemHandle (E r)); rewrite upd_eq; simpl; try lia.
    destruct (is_some _); simpl; lia.
  - unfold upd. destruct (Z.eqb_spec r (nxt r)) as [E1|E1]; simpl; rewrite <- ?E1, Z.eqb_refl; simpl; lia.
  - destruct (wait_for_close (o r)) eqn:Hw; simpl; [|rewrite upd_eq; simpl; lia].
    destruct (is_some _); [|rewrite upd_eq; simpl; lia].
    rewrite (Hflag eq_refl eq_refl). simpl. rewrite upd_eq. simpl. lia.
  - lia.
Qed.

(** What the last loads of the close controls have read, when all processes
    have ended and nobody was late. *)
Definition answers (closed : Z -> bool) : Prop :=
  exists sys, steps timely_step start sys /\ forall r, 0 <= r < kRanks ->
    sd_phase (sys r) = Ended /\ (wait_for_close (o r) = true -> closed r = sd_flag (sys r)).

Lemma reachable_timely sys : ready o -> steps timely_step start sys -> timely sys.
Proof.
  intros Hrd Hst. apply (steps_invariant timely_step timely) with (s := start); [|apply start_timely|done].
  intros s s' Hs (x & Hx & ->). by apply turn_timely.
Qed.

(** Then every process that waits has found its sender closed. *)
Lemma answers_closed closed r : ready o -> answers closed -> 0 <= r < kRanks ->
  sender_closed (closed r) (o r) = true.
Proof.
  intros Hrd (sys & Hst & Hend) Hr. unfold sender_closed.
  destruct (wait_for_close (o r)) eqn:Hw; [|done]. destruct (Hend r Hr) as [_ Hc]. rewrite Hc by done.
  pose proof (rd_local _ Hrd r Hr Hw) as Hl. destruct (local_close_control (o r)); [|done]. simpl.
  apply (tm_told _ (reachable_timely sys Hrd Hst) r Hr Hw).
  destruct (Hend _ (prv_range r)) as [-> _]. simpl. lia.
Qed.

Definition round : (Z -> side) -> Z -> side := turn_round kRanks (close_turn false).

Lemma teardown_ends sys r : ready o -> steps timely_step start sys -> 0 <= r < kRanks ->
  let sys' := Nat.iter 5 round sys in
  sd_phase (sys' r) = Ended /\ sd_allocated (sys' r) = false.
Proof.
  intros Hrd Hst Hr.
  pose proof (reachable_timely sys Hrd Hst) as H0.
  destruct (turn_rounds_level kRanks (close_turn false) timely (fun s x => level (sd_phase (s x))) 5)
    with (s := sys) (m := 5%nat) as [Ht Hl]; [by intros; apply turn_timely|by intros; apply turn_level_mono| |done| |done|].
  { intros x s k Hx Hs Hk Hall. apply turn_level; [done|done|done|lia|done]. }
  { intros x _. destruct (sd_phase (sys x)); simpl; lia. }
  intros sys'. specialize (Hl r Hr). change (Nat.iter 5 _ sys) with sys' in Ht, Hl.
  assert (sd_phase (sys' r) = Ended) as He by (destruct (sd_phase (sys' r)); simpl in Hl; try lia; done).
  split; [done|]. by apply (tm_ended _ Ht).
Qed.

Lemma rounds_timely_steps m : steps timely_step start (Nat.iter m round start).
Proof.
  assert (forall s l, (forall x, x ∈ l -> 0 <= x < kRanks) ->
    steps timely_step s (foldl (fun s r => close_turn false r s) s l)) as Hl.
  { intros s l. induction l as [|r l IH] using rev_ind; intros Hin; [constructor|].
    rewrite foldl_app. simpl. econstructor; [by apply IH; intros x Hx; apply Hin, elem_of_app; left|].
    exists r. split; [|done]. apply Hin, elem_of_app. right. by apply list_elem_of_singleton. }
  induction m as [|m IH]; [constructor|]. simpl. eapply steps_trans; [exact IH|].
  apply Hl. by intros x ?%elem_of_zrange.
Qed.

(** Nobody is late in such a run; the flag of a process that waits is 1. *)
Lemma answers_timely : ready o -> answers (fun _ => true).
Proof.
  intros Hrd. exists (Nat.iter 5 round start). pose proof (rounds_timely_steps 5) as Hst. split; [done|].
  intros r Hr. destruct (teardown_ends start r Hrd (steps_refl _ _) Hr) as [He _]. split; [done|].
  intros Hw. symmetry. apply (tm_told _ (reachable_timely _ Hrd Hst) r Hr Hw).
  destruct (teardown_ends start (prv r) Hrd (steps_refl _ _) (prv_range r)) as [-> _]. simpl. lia.
Qed.
End Close.

(** ** The set-up and its failures *)

Section Setup.
Context `{BuildConfig} (E : Z -> host) (closed : Z -> bool) (kinds : list TransportKind).
Context (s0 : Z -> p2p_process).
Context (HE : forall r, 0 <= r < kRanks -> host_ok (E r)) (Hranks : kRanks < 2 ^ 31).
Context (Hfresh : forall r, 0 <= r < kRanks -> owns [] fresh_owner (s0 r)).

(** C23: The set-up of CUDA IPC is all or nothing, provided the ranks can select
    their device: either every rank gets the views of one region per P2P edge,
    allocated by its receiver and opened by its sender, and will wait for its
    sender when it is torn down; or the environment refused a call somewhere,
    all ranks throw the same error, and each runs the destructor of an owner of
    all it holds.  These destructors free no memory that another process has
    open, whatever fails and however late.  When no handle fails to be closed
    and no memory to be freed, and nobody is late, every schedule of them ends
    within five rounds of turns, with the exported memory freed, and nobody
    holds anything. *)
Theorem p2p_setup_agrees : (forall r, 0 <= r < kRanks -> cudaSetDevice (E r) = None) ->
  exists out, run_ranks 7 (p2p_programs E closed kinds s0) = Some (out <$> ranks) /\
    ((exists region, forall r, 0 <= r < kRanks -> p2p_connected kinds region r (out r)) \/
     (exists r, 0 <= r < kRanks /\ ~ host_good (E r)) /\
     exists o e,
       (forall r, 0 <= r < kRanks -> exists s, owns [] (o r) s /\
          out r = (destroy_owner (E r) (closed r) s, Throw e)) /\
       (forall sys r, steps (teardown_step E o) (start o) sys -> 0 <= r < kRanks ->
          is_some (local_region (o r)) = true -> sd_allocated (sys r) = false ->
          sd_open (sys (prv r)) = false) /\
       ((forall r, 0 <= r < kRanks -> cudaIpcCloseMemHandle (E r) = None) ->
        (forall r, 0 <= r < kRanks -> cudaFree (E r) = None) ->
        (forall sys r, steps (timely_step E o) (start o) sys -> 0 <= r < kRanks ->
           let sys' := Nat.iter 5 (round E o) sys in
           sd_phase (sys' r) = Ended /\ sd_allocated (sys' r) = false) /\
        (answers E o closed -> forall r, 0 <= r < kRanks -> pp_held (out r).1 = []))).
Proof.
  intros Hdev. destruct (p2p_setup_outcomes E closed kinds s0 HE Hranks Hfresh Hdev) as (out & Hrun & Hout).
  exists out. split; [done|]. destruct Hout as [?|(o & Hrd & (e & Hfail) & Hbad)]; [by left|right].
  split; [done|]. exists o, e. split; [|split].
  - intros r Hr. destruct (Hfail r Hr) as (s' & -> & s & Ho & ->). by exists s.
  - intros sys r. by apply freed_after_close.
  - intros Hc Hf. split; [intros sys r; by apply teardown_ends|].
    intros Ha r Hr. destruct (Hfail r Hr) as (s' & -> & s & Ho & ->). simpl.
    apply (p2p_destroy_releases _ _ _ _ Ho); [by apply Hc|by apply Hf|].
    by apply (answers_closed E o Hc Hf).
Qed.
End Setup.

(** ** From the set-up to the end *)

Section Connected.
Context `{BuildConfig} (E : Z -> host) (kinds : list TransportKind) (region : Z -> Z).
Context (out : Z -> p2p_process * res (Z -> ends)).
Context (Hout : forall r, 0 <= r < kRanks -> p2p_connected kinds region r (out r)).

Definition owner_of (r : Z) : MpiP2pOwner := pp_owner (out r).1.

(** The set-up leaves the owners ready to be torn down. *)
Lemma connected_ready : ready owner_of.
Proof.
  assert (forall r, 0 <= r < kRanks ->
    remote_region (owner_of r) = (if has_outgoing P2p kinds r then Some (region ((r + 1) mod kRanks)) else None) /\
    wait_for_close (owner_of r) = has_incoming P2p kinds r /\
    (has_outgoing P2p kinds r = true -> is_Some (remote_close_control (owner_of r))) /\
    (has_incoming P2p kinds r = true -> is_Some (local_close_control (owner_of r)))) as Hf.
  { intros r Hr. destruct (Hout r Hr) as (s & v & o & Heq & _ & Ho & _ & Hrem & _ & Hw & Hrc & Hlc).
    unfold owner_of. rewrite Heq. simpl. by rewrite (ow_owner _ _ _ Ho). }
  split; intros r Hr.
  - destruct (Hf r Hr) as (_ & -> & _). destruct (Hf (prv r) (prv_range r)) as (-> & _).
    unfold prv. rewrite outgoing_of_previous. by destruct (has_incoming _ _ _).
  - destruct (Hf r Hr) as (-> & _ & Hc & _). destruct (has_outgoing _ _ _); [|done].
    intros _. by destruct Hc as [? ->].
  - destruct (Hf r Hr) as (_ & -> & _ & Hc). intros Hi. by destruct (Hc Hi) as [? ->].
Qed.

(** C27: After a successful set-up, in every interleaving of the destructors,
    whatever fails and however late: memory that a process has freed is not
    open in the process that imported it. *)
Theorem p2p_freed_after_close sys r : steps (teardown_step E owner_of) (start owner_of) sys ->
  0 <= r < kRanks -> has_incoming P2p kinds r = true -> sd_allocated (sys r) = false ->
  sd_open (sys (prv r)) = false.
Proof.
  intros Hst Hr Hi. apply (freed_after_close E owner_of); [apply connected_ready|done|done|].
  destruct (Hout r Hr) as (s & v & o & Heq & _ & Ho & Hl & _). unfold owner_of.
  rewrite Heq. simpl. by rewrite (ow_owner _ _ _ Ho), Hl, Hi.
Qed.

(** C28: When no call fails and nobody times out, the destructors never wait for
    each other in vain and nothing is leaked: from every reachable state five
    rounds of turns end all of them, with all exported memory freed. *)
Theorem p2p_teardown_completes sys r :
  (forall r, 0 <= r < kRanks -> cudaIpcCloseMemHandle (E r) = None) ->
  (forall r, 0 <= r < kRanks -> cudaFree (E r) = None) ->
  steps (timely_step E owner_of) (start owner_of) sys -> 0 <= r < kRanks ->
  let sys' := Nat.iter 5 (round E owner_of) sys in
  sd_phase (sys' r) = Ended /\ sd_allocated (sys' r) = false.
Proof. intros Hc Hf. apply teardown_ends; [done|done|apply connected_ready]. Qed.
End Connected.

(** ** Three processes *)

Module CloseWitness.
Import Hosts.
#[local] Existing Instance small_config.

Definition kinds : list TransportKind := [P2p; P2p; P2p].
Definition region (r : Z) : Z := 1000 + r.
Definition owner (r : Z) : MpiP2pOwner :=
  Owner (Some (region r)) (Some (region ((r + 1) mod kRanks))) "" (Some (Mapped 1 "a")) (Some (Mapped 2 "b"))
    (Some (Fd 3 "a")) (Some (Fd 4 "b")) true.
Definition out (r : Z) : p2p_process * res (Z -> ends) :=
  (P2pProcess 1 (owned (owner r)) (owner r) None, Ok (region_view (owner r))).

Lemma three r : 0 <= r < kRanks -> r = 0 \/ r = 1 \/ r = 2.
Proof. change kRanks with 3. lia. Qed.

Lemma out_connected r : 0 <= r < kRanks -> p2p_connected kinds region r (out r).
Proof.
  intros Hr. assert (has_incoming P2p kinds r = true /\ has_outgoing P2p kinds r = true) as [Hi Ho]
    by (destruct (three r Hr) as [->|[->| ->]]; split; reflexivity).
  eexists _, _, (owner r). split; [reflexivity|]. rewrite Hi, Ho.
  split; [intros c; apply p2p_region_view_connection; rewrite ?Hi, ?Ho; reflexivity|].
  repeat split; try done; try (by vm_compute); by eexists.
Qed.

(** Turns in a given order. *)
Definition turns (l : list (bool * Z)) (sys : Z -> side) : Z -> side :=
  foldl (fun s t => close_turn good_host (owner_of out) t.1 t.2 s) sys l.

Lemma turns_steps (R : (Z -> side) -> (Z -> side) -> Prop) l sys :
  (forall t s, t ∈ l -> R s (close_turn good_host (owner_of out) t.1 t.2 s)) ->
  steps R sys (turns l sys).
Proof.
  induction l as [|t l IH] using rev_ind; intros HR; [constructor|].
  unfold turns. rewrite foldl_app. simpl. econstructor.
  - apply IH. intros. apply HR, elem_of_app. by left.
  - apply HR, elem_of_app. right. left.
Qed.

(** Rank 0 closes its handle and says so, then rank 1 frees its memory. *)
Definition order : list (bool * Z) := [(false, 0); (false, 1); (false, 0); (false, 1); (false, 1); (true, 1); (false, 1)].
Definition midway : Z -> side := turns (order ++ [(false, 1)]) (start (owner_of out)).

Lemma close_midway_steps : steps (teardown_step good_host (owner_of out)) (start (owner_of out)) midway.
Proof.
  apply turns_steps. intros [late r] s Hin. exists late, r. split; [|done].
  change kRanks with 3.
  repeat (apply elem_of_cons in Hin as [[= -> ->]|Hin]; [lia|]). by apply elem_of_nil in Hin.
Qed.

Lemma p2p_freed_after_close_witness :
  sd_allocated (midway 1) = false /\ sd_open (midway 0) = false.
Proof.
  split; [vm_compute; reflexivity|].
  apply (p2p_freed_after_close good_host kinds region out out_connected midway 1);
    [apply close_midway_steps|by vm_compute|reflexivity|vm_compute; reflexivity].
Defined.

Definition early : Z -> side := turns [(false, 2); (false, 0)] (start (owner_of out)).

Lemma early_steps : steps (timely_step good_host (owner_of out)) (start (owner_of out)) early.
Proof.
  apply turns_steps. intros [late r] s Hin.
  assert (late = false /\ 0 <= r < kRanks) as [-> Hr]; [|by exists r].
  change kRanks with 3.
  repeat (apply elem_of_cons in Hin as [[= -> ->]|Hin]; [split; [done|lia]|]). by apply elem_of_nil in Hin.
Qed.

Lemma p2p_teardown_completes_witness :
  let sys' := Nat.iter 5 (round good_host (owner_of out)) early in
  sd_phase (sys' 2) = Ended /\ sd_allocated (sys' 2) = false.
Proof.
  apply (p2p_teardown_completes good_host kinds region out out_connected early 2);
    [reflexivity|reflexivity|apply early_steps|by vm_compute].
Defined.

(** Rank 0 cannot open the memory of rank 1. *)
Definition not_opened (r : Z) : host :=
  let E := good_host r in
  if r =? 0 then {|
    getpid := getpid E; strerror := strerror E;
    shm_open_create := shm_open_create E; shm_open_peer := shm_open_peer E;
    ftruncate := ftruncate E; mmap := mmap E; cudaSetDevice := None;
    cudaHostRegister := cudaHostRegister E; cudaHostGetDevicePointer := cudaHostGetDevicePointer E;
    cudaMalloc := cudaMalloc E; cudaMemset := None; cudaIpcGetMemHandle := None;
    cudaIpcOpenMemHandle _ := inr "peer access is not supported";
    cudaIpcCloseMemHandle := None; cudaFree := None |} else E.
Definition fresh (_ : Z) : p2p_process := P2pProcess 0 [] fresh_owner None.

(** All throw its error, and nothing is left. *)
Lemma p2p_setup_agrees_witness :
  exists out, run_ranks 7 (p2p_programs not_opened (fun _ => true) kinds fresh) = Some (out <$> ranks) /\
    (exists e, forall r, 0 <= r < kRanks -> (out r).2 = Throw e) /\
    exists r, 0 <= r < kRanks /\ ~ host_good (not_opened r).
Proof.
  destruct (p2p_setup_agrees not_opened (fun _ => true) kinds fresh) as (out & Hrun & Hout).
  - intros r Hr. change kRanks with 3 in Hr. pose proof (good_host_ok r ltac:(lia)) as Hok.
    unfold not_opened. destruct (r =? 0); [|done]. by destruct Hok; split.
  - vm_compute. done.
  - intros r _. split; simpl; done.
  - intros r Hr. by destruct (three r Hr) as [->|[-> | ->]].
  - exists out. split; [done|]. destruct Hout as [(region & Hc)|(Hbad & o & e & Hfail & _)].
    + destruct (Hc 0) as (s & v & w & Ho & _); [change kRanks with 3; lia|].
      assert (match run_ranks 7 (p2p_programs not_opened (fun _ => true) kinds fresh) with
              | Some (x :: _) => match x.2 with Ok _ => false | Throw _ => true end
              | _ => false end = true) as Hv by (vm_compute; reflexivity).
      rewrite Hrun in Hv. change ranks with [0; 1; 2] in Hv. simpl in Hv. by rewrite Ho in Hv.
    + split; [|done]. exists e. intros r Hr. by destruct (Hfail r Hr) as (s & _ & ->).
Defined.
End CloseWitness.
