(* ===== verification/Agreement.v ===== *)
(** * Agreement: composing programs of several processes

    A set-up of several phases, in which every phase is a program over
    collective calls, is composed as in C++: a phase ends in a value or an
    exception, an exception skips what follows and runs the destructors of what
    has been built.  [agrees] says of such a program that the processes never
    wait in vain and end alike, all with a value or all with one exception;
    its rules follow the composition. *)

From Stdlib Require Import ZArith Lia.
From stdpp Require Import base option numbers tactics strings list.
From S2P Require Import Prelude Types Resources InterProcess.

#[local] Open Scope Z_scope.

(** ** Sequencing *)

Fixpoint spmd_bind {A B} (p : spmd A) (f : A -> spmd B) : spmd B :=
  match p with
  | Done a => f a
  | Call operation mine k => Call operation mine (fun l => spmd_bind (k l) f)
  end.

Lemma run_ranks_more {A} n m (ps : list (spmd A)) r :
  run_ranks n ps = Some r -> (n <= m)%nat -> run_ranks m ps = Some r.
Proof.
  revert m ps. induction n as [|n IH]; intros m ps Hr Hm.
  - simpl in Hr. destruct (finished ps) eqn:E; [|done]. destruct m; simpl; by rewrite E.
  - destruct m as [|m]; [lia|]. cbn [run_ranks] in Hr |- *.
    destruct (finished ps); [done|]. destruct (meeting ps); [|done]. apply IH; [done|lia].
Qed.

(** What a process contributes to the call it is at, and how it goes on. *)
Definition contribution {A} (p : spmd A) : payload :=
  match p with Call _ x _ => x | Done _ => PNone end.
Definition resume {A} (p : spmd A) : list payload -> spmd A :=
  match p with Call _ _ k => k | Done a => fun _ => Done a end.

Lemma meeting_some {A} (ps : list (spmd A)) ml : meeting ps = Some ml ->
  exists o, (forall p, p ∈ ps -> p = Call o (contribution p) (resume p)) /\
    ml = (fun p => (contribution p, resume p)) <$> ps.
Proof.
  destruct ps as [|[a|o x k] ps]; try done. intros Hm. exists o. unfold meeting in Hm.
  apply mapM_Some in Hm. revert ml Hm. generalize (Call o x k :: ps). clear x k ps. intros ps.
  induction ps as [|p ps IH]; intros ml Hm.
  { inversion Hm; subst. split; [intros ? ?%elem_of_nil|]; done. }
  apply Forall2_cons_inv_l in Hm as (xk & ml' & Ha & Hm & ->). destruct (IH _ Hm) as [Hall ->].
  destruct p as [a|o' x k]; [done|]. destruct (String.eqb_spec o o') as [<-|]; [|done].
  injection Ha as <-. split; [|done]. intros p [->|Hp]%elem_of_cons; [done|by apply Hall].
Qed.

Lemma finished_some {A} (ps : list (spmd A)) r : finished ps = Some r -> ps = Done <$> r.
Proof.
  unfold finished. intros H%mapM_Some. induction H as [|p a ps r Hp _ IH]; [done|].
  csimpl. rewrite <- IH. destruct p; [by injection Hp as ->|done].
Qed.

(** What the processes of a run are doing: all have ended, or all are at one
    call. *)
Lemma run_cases {A I} n (p : I -> spmd A) (l : list I) out :
  l <> [] -> run_ranks n (p <$> l) = Some (out <$> l) ->
  (forall i, i ∈ l -> p i = Done (out i)) \/
  (exists n' o, n = S n' /\
     (forall i, i ∈ l -> p i = Call o (contribution (p i)) (resume (p i))) /\
     run_ranks n' ((fun i => resume (p i) ((fun i => contribution (p i)) <$> l)) <$> l) = Some (out <$> l)).
Proof.
  intros Hl Hr. destruct (finished (p <$> l)) as [r'|] eqn:Ef.
  - left. assert (r' = out <$> l) as -> by (destruct n; simpl in Hr; rewrite Ef in Hr; congruence).
    apply finished_some in Ef. intros i [j Hj]%list_elem_of_lookup.
    pose proof (f_equal (.!! j) Ef) as E. cbn beta in E. rewrite !list_lookup_fmap, Hj in E. by injection E.
  - right. destruct n as [|n]; cbn [run_ranks] in Hr; rewrite Ef in Hr; [done|].
    destruct (meeting (p <$> l)) as [ml|] eqn:Em; [|done].
    apply meeting_some in Em as (o & Hall & ->). exists n, o. split; [done|]. split.
    + intros i Hi. apply Hall, list_elem_of_fmap. by exists i.
    + rewrite <- !list_fmap_compose in Hr. exact Hr.
Qed.

(** Each process goes on with its own continuation. *)
Lemma run_bind {A B I} n m (p : I -> spmd A) (f : I -> A -> spmd B) out (l : list I) r : l <> [] ->
  run_ranks n (p <$> l) = Some (out <$> l) ->
  run_ranks m ((fun i => f i (out i)) <$> l) = Some r ->
  run_ranks (n + m) ((fun i => spmd_bind (p i) (f i)) <$> l) = Some r.
Proof.
  intros Hl. revert p. induction n as [|n IH]; intros p Hr Hrest.
  all: destruct (run_cases _ _ _ _ Hl Hr) as [Hd|(n' & o & Hn & Hc & Hrun)].
  2: lia.
  1, 2: apply (run_ranks_more m); [|lia]; rewrite <- Hrest; f_equal; apply list_fmap_ext;
    intros j i Hi; by rewrite Hd by (by eapply list_elem_of_lookup_2).
  injection Hn as <-. specialize (IH _ Hrun Hrest).
  rewrite (list_fmap_ext _ (fun i => Call o (contribution (p i))
    (fun y => spmd_bind (resume (p i) y) (f i)))); [simpl Nat.add; by rewrite run_call|].
  intros j i Hi. by rewrite Hc by (by eapply list_elem_of_lookup_2).
Qed.

(** ** Programs with state and exceptions *)

Definition SM (S A : Type) : Type := S -> spmd (S * res A).
#[export] Instance SM_ret {S} : MRet (SM S) := fun A a s => Done (s, Ok a).
#[export] Instance SM_bind {S} : MBind (SM S) := fun A B f m s =>
  spmd_bind (m s) (fun o => match o.2 with Ok a => f a o.1 | Throw e => Done (o.1, Throw e) end).

(** Code of one process without calls. *)
Definition sm_local {S A} (r : res A) : SM S A := fun s => Done (s, r).
(** Objects in scope while [m] runs: an exception destroys them. *)
Definition unwinding {S A} (destroy : S -> S) (m : SM S A) : SM S A := fun s =>
  spmd_bind (m s) (fun o => Done (match o.2 with Ok _ => o | Throw e => (destroy o.1, Throw e) end)).
(** A phase that works on a part of the state. *)
Definition on_part {S T A} (get : S -> T) (put : T -> S -> S) (m : T -> spmd (T * res A)) : SM S A :=
  fun s => spmd_bind (m (get s)) (fun o => Done (put o.1 s, o.2)).

(** ** Agreement *)

Section Agrees.
Context `{BuildConfig}.

(** [in_ring r]: a rank. *)
Abbreviation in_ring r := (0 <= r < kRanks).

(** From states in [P] the processes meet at every call, at most [n] times, and
    either all return, with values and states in [Q], or all throw the same
    exception, with states in [F]. *)
Definition agrees {S A} (n : nat) (P : (Z -> S) -> Prop) (m : Z -> SM S A)
    (F : exn -> (Z -> S) -> Prop) (Q : (Z -> A) -> (Z -> S) -> Prop) : Prop :=
  forall s, P s -> exists s' out,
    run_ranks n ((fun r => m r (s r)) <$> ranks) = Some ((fun r => (s' r, out r)) <$> ranks) /\
    ((exists a, (forall r, in_ring r -> out r = Ok (a r)) /\ Q a s') \/
     (exists e, (forall r, in_ring r -> out r = Throw e) /\ F e s')).

Context {S : Type}.
Implicit Types (P : (Z -> S) -> Prop) (F : exn -> (Z -> S) -> Prop).

Lemma in_ranks i r : ranks !! i = Some r -> in_ring r.
Proof. intros Hi. by eapply elem_of_zrange, list_elem_of_lookup_2. Qed.

(** Ranks with the same programs. *)
Lemma agrees_ext {A} n P (m m' : Z -> SM S A) F Q :
  (forall r s, in_ring r -> m r s = m' r s) -> agrees n P m' F Q -> agrees n P m F Q.
Proof.
  intros Hm Ha s Hs. destruct (Ha s Hs) as (s' & out & Hrun & Hout). exists s', out. split; [|done].
  rewrite <- Hrun. f_equal. apply list_fmap_ext. intros i r Hi. by apply Hm, (in_ranks i).
Qed.

Lemma agrees_conseq {A} n n' P P' (m : Z -> SM S A) F F' Q Q' :
  agrees n P m F Q -> (n <= n')%nat -> (forall s, P' s -> P s) ->
  (forall e s, F e s -> F' e s) -> (forall a s, Q a s -> Q' a s) -> agrees n' P' m F' Q'.
Proof.
  intros Ha Hn HP HF HQ s Hs. destruct (Ha s (HP s Hs)) as (s' & out & Hrun & Hout).
  exists s', out. split; [by eapply run_ranks_more|].
  destruct Hout as [(a & Hall & Ho)|(e & Hall & Ho)]; [left; exists a|right; exists e]; auto.
Qed.

(** Facts about a precondition. *)
Lemma agrees_pure {A} (phi : Prop) n P (m : Z -> SM S A) F Q :
  (phi -> agrees n P m F Q) -> agrees n (fun s => phi /\ P s) m F Q.
Proof. intros Hm s [Hphi Hs]. by apply Hm. Qed.

Lemma agrees_exists {A B} n (P : B -> (Z -> S) -> Prop) (m : Z -> SM S A) F Q :
  (forall b, agrees n (P b) m F Q) -> agrees n (fun s => exists b, P b s) m F Q.
Proof. intros Hm s [b Hs]. by apply (Hm b). Qed.

(** Processes that have ended. *)
Lemma agrees_done {A} n P (f : Z -> S -> S) (a : Z -> res A) F Q :
  (forall s, P s -> (exists v, (forall r, in_ring r -> a r = Ok (v r)) /\ Q v (fun r => f r (s r))) \/
                    (exists e, (forall r, in_ring r -> a r = Throw e) /\ F e (fun r => f r (s r)))) ->
  agrees n P (fun r s => Done (f r s, a r)) F Q.
Proof. intros Hd s Hs. exists (fun r => f r (s r)), a. split; [apply run_done|by apply Hd]. Qed.

Lemma agrees_ret {A} n P (a : Z -> A) F Q :
  (forall s, P s -> Q a s) -> agrees n P (fun r => mret (a r)) F Q.
Proof.
  intros HQ. apply (agrees_done n P (fun _ s => s) (fun r => Ok (a r))). intros s Hs.
  left. exists a. auto.
Qed.

(** What every rank computes from shared facts ends alike. *)
Lemma agrees_local {A} n P (a : res A) F Q :
  (forall s v, P s -> a = Ok v -> Q (fun _ => v) s) -> (forall s e, P s -> a = Throw e -> F e s) ->
  agrees n P (fun _ => sm_local a) F Q.
Proof.
  intros HQ HF. apply (agrees_done n P (fun _ s => s) (fun _ => a)). intros s Hs.
  destruct a as [v|e]; [left; exists (fun _ => v)|right; exists e]; auto.
Qed.

Lemma agrees_value {A} n P (a : Z -> res A) F Q :
  (forall s, P s -> exists v, (forall r, in_ring r -> a r = Ok (v r)) /\ Q v s) ->
  agrees n P (fun r => sm_local (a r)) F Q.
Proof. intros HQ. apply (agrees_done n P (fun _ s => s) a). auto. Qed.

Lemma agrees_bind {A B} n k P (m : Z -> SM S A) (f : Z -> A -> SM S B) F R Q :
  agrees n P m F R -> (forall a, agrees k (R a) (fun r => f r (a r)) F Q) ->
  agrees (n + k) P (fun r => m r ≫= f r) F Q.
Proof.
  intros Hm Hf s Hs. destruct (Hm s Hs) as (s' & out & Hrun & [(a & Hall & HR)|(e & Hall & HF)]).
  - destruct (Hf a s' HR) as (s'' & out' & Hrun' & Hout). exists s'', out'. split; [|done].
    unfold mbind, SM_bind. apply (run_bind n k _ _ _ _ _ ranks_nonempty Hrun).
    rewrite <- Hrun'. f_equal. apply list_fmap_ext. intros i r Hi. simpl.
    by rewrite (Hall r (in_ranks i r Hi)).
  - exists s', (fun _ => Throw e). split; [|right; exists e; auto].
    unfold mbind, SM_bind. apply (run_bind n k _ _ _ _ _ ranks_nonempty Hrun).
    rewrite (list_fmap_ext _ (fun r => Done (s' r, Throw e))); [apply run_done|].
    intros i r Hi. simpl. by rewrite (Hall r (in_ranks i r Hi)).
Qed.

(** The first phase fails in its own way. *)
Lemma agrees_seq {A B} n k P (m : Z -> SM S A) (f : Z -> A -> SM S B) F0 F R Q :
  agrees n P m F0 R -> (forall e s, F0 e s -> F e s) ->
  (forall a, agrees k (R a) (fun r => f r (a r)) F Q) ->
  agrees (n + k) P (fun r => m r ≫= f r) F Q.
Proof. intros Hm HF Hf. eapply agrees_bind; [|done]. by eapply agrees_conseq. Qed.

Lemma agrees_unwind {A} n P (m : Z -> SM S A) (destroy : Z -> S -> S) F F' Q :
  agrees n P m F Q -> (forall e s, F e s -> F' e (fun r => destroy r (s r))) ->
  agrees n P (fun r => unwinding (destroy r) (m r)) F' Q.
Proof.
  intros Hm HF s Hs. destruct (Hm s Hs) as (s' & out & Hrun & Hout).
  assert (forall s'' : Z -> S, (forall r, in_ring r ->
      s'' r = match out r with Ok _ => s' r | Throw _ => destroy r (s' r) end) ->
    run_ranks n ((fun r => unwinding (destroy r) (m r) (s r)) <$> ranks)
      = Some ((fun r => (s'' r, out r)) <$> ranks)) as Hend.
  { intros s'' Hs''. rewrite <- (Nat.add_0_r n).
    apply (run_bind n 0 _ _ _ _ _ ranks_nonempty Hrun).
    rewrite (list_fmap_ext _ (fun r => Done (s'' r, out r))); [apply run_done|].
    intros i r Hi. simpl. rewrite Hs'' by (by eapply in_ranks). by destruct (out r). }
  destruct Hout as [(a & Hall & Ho)|(e & Hall & Ho)].
  - exists s', out. split; [|left; by exists a]. apply Hend. intros r Hr. by rewrite Hall.
  - exists (fun r => destroy r (s' r)), out. split; [|right; exists e; auto].
    apply Hend. intros r Hr. by rewrite Hall.
Qed.

(** A phase on a part of the state, from what is known of all its outcomes. *)
Lemma agrees_part {T A} n P (get : S -> T) put (m : Z -> T -> spmd (T * res A)) F Q :
  (forall s, P s -> exists out, run_ranks n ((fun r => m r (get (s r))) <$> ranks) = Some (out <$> ranks) /\
     ((exists a, (forall r, in_ring r -> (out r).2 = Ok (a r)) /\ Q a (fun r => put (out r).1 (s r))) \/
      (exists e, (forall r, in_ring r -> (out r).2 = Throw e) /\ F e (fun r => put (out r).1 (s r))))) ->
  agrees n P (fun r => on_part get put (m r)) F Q.
Proof.
  intros Hm s Hs. destruct (Hm s Hs) as (out & Hrun & Hout).
  exists (fun r => put (out r).1 (s r)), (fun r => (out r).2). split; [|done].
  rewrite <- (Nat.add_0_r n). apply (run_bind n 0 _ _ _ _ _ ranks_nonempty Hrun). apply run_done.
Qed.

(** Collective calls. *)
Lemma agrees_allgather {A B} n P decode encode o (x : Z -> B) (k : Z -> list B -> SM S A) F Q :
  (forall b, decode (encode b) = b) -> agrees n P (fun r => k r (x <$> ranks)) F Q ->
  agrees (1 + n) P (fun r s => MPI_Allgather decode encode o (x r) (fun l => k r l s)) F Q.
Proof.
  intros Hd Hk s Hs. destruct (Hk s Hs) as (s' & out & Hrun & Hout). exists s', out. split; [|done].
  simpl Nat.add. by rewrite run_allgather by (done || apply ranks_nonempty).
Qed.

Lemma agrees_allreduce {A} n P o (x : Z -> Z) (k : Z -> Z -> SM S A) F Q :
  agrees n P (fun r => k r (mpi_min (x <$> ranks))) F Q ->
  agrees (1 + n) P (fun r s => MPI_Allreduce_min o (x r) (fun y => k r y s)) F Q.
Proof.
  intros Hk s Hs. destruct (Hk s Hs) as (s' & out & Hrun & Hout). exists s', out. split; [|done].
  simpl Nat.add. by rewrite run_allreduce by apply ranks_nonempty.
Qed.

(** All blocks returned, or the first message is thrown everywhere. *)
Lemma agrees_consensus {A B} n P o (block : Z -> res B) (good bad : Z -> SM S A) F Q :
  ((forall r, in_ring r -> exists b, block r = Ok b) -> agrees n P good F Q) ->
  ((exists r e, in_ring r /\ block r = Throw e) -> agrees n P bad F Q) ->
  agrees (1 + n) P (fun r s => MPI_Allreduce_min o (ok_flag (block r)) (fun all_ok =>
    if negb (all_ok =? 0) then good r s else bad r s)) F Q.
Proof.
  intros Hg Hb. apply (agrees_allreduce n P o (fun r => ok_flag (block r))
    (fun r all_ok s => if negb (all_ok =? 0) then good r s else bad r s)).
  destruct (all_ok_spec block ranks ranks_nonempty) as [[-> Hok]|[-> (r & e & Hr & Hre)]]; simpl.
  - apply Hg. intros r Hr. by apply Hok, elem_of_zrange.
  - apply Hb. exists r, e. by apply elem_of_zrange in Hr.
Qed.
End Agrees.
