(* ===== verification/MpiSetup.v ===== *)
(** * Creating a communicator from MPI

    [create_communicator_from_mpi] of
    src/collective/all_reduce/mpi_communicator.cc up to opening the network
    connections (Bootstrap) and building the communicator from them (NetSetup):
    the processes agree on their devices and nodes, probe CUDA IPC, resolve the
    transports, set up shared memory and CUDA IPC, listen and exchange their
    addresses.

    MPI, CUDA and socket calls come from an environment that may refuse; an
    exception runs the destructors of what is in scope. *)

From Stdlib Require Import ZArith Lia.
From stdpp Require Import base option numbers tactics strings list pretty.
From S2P Require Import Prelude Types Resources Topology Control Wire Listener Bootstrap NetSetup InterProcess MpiShm MpiP2p P2pClose Agreement.

#[local] Open Scope Z_scope.

(** ** Environment and state of a process *)

Definition as_address (p : payload) : SocketAddress :=
  match p with PAddress a b => Address a b | _ => Address 0 0 end.
Definition of_address (a : SocketAddress) : payload := PAddress (ipv4_address a) (port a).

(** What the calls of this file answer, besides those of [host]. *)
Record machine := Machine {
  mpi_initialized : bool; mpi_finalized : bool; mpi_size : Z;
  node : Z;                              (* MPI_COMM_TYPE_SHARED *)
  cudaGetDeviceCount : Z + string;
  cudaGetErrorString : string;           (* of a refused cudaSetDevice *)
  device_uuid : Z -> Z + string;         (* cudaGetDeviceProperties *)
  sockets : socket_calls }.

(** What a process holds: the owners of its shared memory and its CUDA IPC
    connections, its listener and the open sockets. *)
Record process := Process {
  pr_shm : shm_process; pr_p2p : p2p_process; pr_listener : SocketEndpoint; pr_sockets : list Z }.
Definition set_shm (x : shm_process) (s : process) : process := Process x (pr_p2p s) (pr_listener s) (pr_sockets s).
Definition set_p2p (x : p2p_process) (s : process) : process := Process (pr_shm s) x (pr_listener s) (pr_sockets s).
Definition set_sockets (x : list Z * SocketEndpoint) (s : process) : process :=
  Process (pr_shm s) (pr_p2p s) x.2 x.1.
Definition no_listener : SocketEndpoint := SocketListener (-1) (Address 0 0).
Definition destroy_listener (s : process) : process :=
  set_sockets (close_endpoint (pr_listener s) (pr_sockets s)) s.

(** What the rest of the constructor is given: the topology, the merged
    connections, the addresses of all processes, and the connections to open
    with the number to accept. *)
Record setup := Setup {
  su_topology : ProcessTopology;
  su_view : Z -> ends;
  su_endpoints : list SocketAddress;
  su_connections : list (Z * SocketHello) * Z }.

Abbreviation CM := (SM process).

(** ** The phases *)

Section Phases.
Context `{BuildConfig}.

Definition rank_message (mpi_rank : Z) (text : string) : exn :=
  RuntimeError (snprintf 256 ("MPI rank " +:+ pretty mpi_rank +:+ text)).

Definition local_device (E : host) (M : machine) (mpi_rank device : Z) : res unit :=
  match cudaGetDeviceCount M with
  | inr text => Throw (rank_message mpi_rank (" cudaGetDeviceCount failed: " +:+ text))
  | inl device_count =>
      if (device <? 0) || (device_count <=? device)
      then Throw (rank_message mpi_rank (" selected invalid CUDA device " +:+ pretty device
             +:+ " (visible device count=" +:+ pretty device_count +:+ ")"))
      else match cudaSetDevice E with
           | Some _ => Throw (rank_message mpi_rank (" cudaSetDevice failed: " +:+ cudaGetErrorString M))
           | None => Ok tt
           end
  end.

Definition validate_local_device_with_consensus (E : host) (M : machine) (mpi_rank device : Z) :
    CM unit := fun s =>
  let block := local_device E M mpi_rank device in
  MPI_Allreduce_min "MPI_Allreduce(local device validation)" (ok_flag block) (fun all_ok =>
  if negb (all_ok =? 0) then Done (s, Ok tt) else
  gather_first_error "MPI_Allgather(local device validation errors)"
    "one-process-per-GPU device validation failed" (error_text error_what block) (fun error =>
    Done (s, Throw (InvalidArgument error)))).

(** The ranks of a node in the order of the ranks, as [MPI_Comm_split_type]
    with one key numbers them.  The calls on the communicators of the nodes are
    calls of all ranks: each rank is in one of them. *)
Definition node_comm (nodes : list Z) (mpi_rank : Z) : list Z :=
  filter (fun r => nodes !! Z.to_nat r = nodes !! Z.to_nat mpi_rank) ranks.

Definition discover_node_ids (M : machine) (mpi_rank : Z) : CM (list Z) := fun s =>
  MPI_Allgather as_int PInt "MPI_Comm_split_type(topology)" (node M) (fun nodes =>
  let root := default mpi_rank (head (node_comm nodes mpi_rank)) in
  let node_id := if root =? mpi_rank then mpi_rank else -1 in
  MPI_Allgather as_int PInt "MPI_Bcast(node id)" node_id (fun sent =>
  let node_id := default (-1) (sent !! Z.to_nat root) in
  MPI_Barrier "MPI_Comm_free(node topology)"
  (MPI_Allgather as_int PInt "MPI_Allgather(node ids)" node_id (fun node_ids =>
   Done (s, Ok node_ids))))).

Definition local_identity (M : machine) (mpi_rank device : Z) : res Z :=
  match device_uuid M device with
  | inr text => Throw (rank_message mpi_rank (" cudaGetDeviceProperties failed: " +:+ text))
  | inl uuid => Ok uuid
  end.

Definition rank_pairs : list (Z * Z) :=
  first ← ranks; second ← seqZ (first + 1) (kRanks - (first + 1)); [(first, second)].

(** The body of the loops over [first] and [second]. *)
Definition apart (node_ids uuids : list Z) (fs : Z * Z) : bool :=
  negb (bool_decide (node_ids !! Z.to_nat fs.1 = node_ids !! Z.to_nat fs.2) &&
        bool_decide (uuids !! Z.to_nat fs.1 = uuids !! Z.to_nat fs.2)).
Definition same_device (fs : Z * Z) : exn :=
  InvalidArgument ("MPI ranks " +:+ pretty fs.1 +:+ " and " +:+ pretty fs.2
    +:+ " select the same CUDA device on one host").
Definition distinct_devices (node_ids uuids : list Z) : res unit :=
  check_all (apart node_ids uuids) same_device rank_pairs.

Definition validate_unique_device_per_node (M : machine) (mpi_rank device : Z)
    (node_ids : list Z) : CM unit := fun s =>
  let block := local_identity M mpi_rank device in
  MPI_Allreduce_min "MPI_Allreduce(CUDA device identity)" (ok_flag block) (fun all_ok =>
  if negb (all_ok =? 0)
  then MPI_Allgather as_int PInt "MPI_Allgather(CUDA device identities)"
         (match block with Ok uuid => uuid | Throw _ => 0 end) (fun uuids =>
         Done (s, distinct_devices node_ids uuids))
  else gather_first_error "MPI_Allgather(CUDA device identity errors)"
         "CUDA device identity validation failed" (error_text error_what block) (fun error =>
         Done (s, Throw (RuntimeError error)))).

(** The first rank that reports an error, in the message of the listener. *)
Definition listener_error (errors : list string) : string :=
  match list_find (fun e => e <> "") errors with
  | Some (rank, e) => "socket listener setup failed on MPI rank "
                        +:+ pretty (Z.of_nat rank) +:+ ": " +:+ e
  | None => "socket listener setup failed"
  end.

(** Called by a process without sockets of its own.  An exception destroys a
    listener that was created. *)
Definition create_listener_with_consensus (M : machine) : CM SocketAddress := fun s =>
  let created := create_from_environment (sockets M) [] in
  let block := created.2 in
  let listener := match block with Ok listener => listener | Throw _ => no_listener end in
  let s := set_sockets (created.1, listener) s in
  MPI_Allreduce_min "MPI_Allreduce(socket listener setup)" (ok_flag block) (fun all_ok =>
  if negb (all_ok =? 0)
  then Done (s, Ok (ep_address listener))
  else MPI_Allgather as_text PText "MPI_Allgather(socket listener setup errors)"
         (error_text (fun e => snprintf 256 (error_what e)) block) (fun errors =>
         Done (destroy_listener s, Throw (RuntimeError (listener_error errors))))).

Definition gather_endpoints (local_endpoint : SocketAddress) : CM (list SocketAddress) := fun s =>
  MPI_Allgather as_address of_address "MPI_Allgather(socket endpoints)" local_endpoint (fun endpoints =>
  Done (s, Ok endpoints)).
End Phases.

(** ** The whole creation *)

Section Create.
Context `{BuildConfig} (rdma_enabled : bool).   (* NANO_NCCL_ENABLE_RDMA *)
Context (region : string -> Z) (requested : TransportKind).

Definition wants_probe : bool := bool_decide (requested ∈ [Auto; P2p; Rdma]).
Definition uses_network (kinds : list TransportKind) : bool :=
  bool_decide (Socket ∈ kinds) || bool_decide (Rdma ∈ kinds).

Definition destroy_shm (s : process) : process := set_shm (MpiShm.destroy_owner (pr_shm s)) s.
(** [transport_connections]: both owners. *)
Definition destroy_connections (E : host) (closed : bool) (s : process) : process :=
  set_p2p (MpiP2p.destroy_owner E closed (pr_p2p s)) (destroy_shm s).

(** Resolving the transports and checking the topology. *)
Definition resolve_topology (mpi_rank device : Z) (node_ids : list Z) (p2p_capable : list bool) :
    res ProcessTopology :=
  kinds ← resolve_interprocess_transports rdma_enabled node_ids p2p_capable requested;
  let t := {| global_rank_count := kRanks; local_rank_offset := mpi_rank; devices := [device];
              edge_kinds := kinds; distributed := true |} in
  validate_process_topology t ;; Ok t.

Definition probe_phase (E : host) (mpi_rank : Z) (node_ids : list Z) : CM (list bool) :=
  if wants_probe then on_part pr_p2p set_p2p (probe_mpi_p2p_edges E node_ids mpi_rank)
  else mret (replicate (Z.to_nat kRanks) false).

(** The connections in memory: the views of both transports, merged. *)
Definition shm_phase (E : host) (mpi_rank : Z) (t : ProcessTopology) : CM (Z -> ends) :=
  on_part pr_shm set_shm (create_mpi_shm_connections E region (edge_kinds t) mpi_rank).

Definition p2p_phase (E : host) (closed : bool) (mpi_rank : Z) (t : ProcessTopology)
    (shm : Z -> ends) : CM ((Z -> ends) * (Z -> ends)) :=
  unwinding destroy_shm (
    view ← sm_local (merge_connection_resources (fun _ => no_ends) shm);
    p2p ← on_part pr_p2p set_p2p (create_mpi_p2p_connections E closed (edge_kinds t) mpi_rank);
    mret (view, p2p)).

Definition listen_phase (M : machine) (t : ProcessTopology) : CM SocketAddress :=
  if uses_network (edge_kinds t) then create_listener_with_consensus M else mret (Address 0 0).

Definition network_phase (mpi_rank : Z) (t : ProcessTopology) (view : Z -> ends)
    (local_endpoint : SocketAddress) : CM setup :=
  unwinding destroy_listener (
    endpoints ← gather_endpoints local_endpoint;
    connections ← sm_local (connect_loop t mpi_rank);
    mret (Setup t view endpoints connections)).

Definition create_communicator_from_mpi (E : host) (M : machine) (closed : bool)
    (mpi_rank device : Z) : CM setup :=
  if negb (mpi_initialized M)
  then sm_local (Throw (RuntimeError "MPI must be initialized before creating a communicator")) else
  if mpi_finalized M
  then sm_local (Throw (RuntimeError "MPI has already been finalized")) else
  if negb (mpi_size M =? kRanks)
  then sm_local (Throw (RuntimeError ("MPI process count must match kRanks=" +:+ pretty kRanks))) else
  _ ← validate_local_device_with_consensus E M mpi_rank device;
  node_ids ← discover_node_ids M mpi_rank;
  _ ← validate_unique_device_per_node M mpi_rank device node_ids;
  p2p_capable ← probe_phase E mpi_rank node_ids;
  t ← sm_local (resolve_topology mpi_rank device node_ids p2p_capable);
  shm ← shm_phase E mpi_rank t;
  views ← p2p_phase E closed mpi_rank t shm;
  unwinding (destroy_connections E closed) (
    view ← sm_local (merge_connection_resources views.1 views.2);
    local_endpoint ← listen_phase M t;
    network_phase mpi_rank t view local_endpoint).
End Create.

(** ** What the phases achieve *)

Lemma filter_same {A} (P Q : A -> Prop) `{!forall x, Decision (P x), !forall x, Decision (Q x)} (l : list A) :
  (forall x, x ∈ l -> P x <-> Q x) -> filter P l = filter Q l.
Proof.
  induction l as [|x l IH]; intros Hx; [done|]. rewrite !filter_cons, IH by (intros; apply Hx; by right).
  pose proof (Hx x ltac:(left)). destruct (decide (P x)), (decide (Q x)); tauto.
Qed.

(** The node of a rank is named by the first rank on it. *)
Definition node_root `{BuildConfig} (nodes : Z -> Z) (r : Z) : Z :=
  default r (head (filter (fun r' => nodes r' = nodes r) ranks)).

Section NodeFacts.
Context `{BuildConfig} (nodes : Z -> Z).

Lemma node_comm_filter r : 0 <= r < kRanks ->
  node_comm (nodes <$> ranks) r = filter (fun r' => nodes r' = nodes r) ranks.
Proof.
  intros Hr. unfold node_comm. apply filter_same. intros r' Hi%elem_of_zrange.
  rewrite !gathered by done. split; congruence.
Qed.

Lemma node_root_spec r : 0 <= r < kRanks ->
  0 <= node_root nodes r < kRanks /\ nodes (node_root nodes r) = nodes r.
Proof.
  intros Hr. unfold node_root. destruct (filter _ _) as [|x l] eqn:E; [done|]. simpl.
  assert (x ∈ filter (fun r' => nodes r' = nodes r) ranks) as Hx by (rewrite E; left).
  apply list_elem_of_filter in Hx as [Hn Hx%elem_of_zrange]. done.
Qed.

(** Two ranks have one name exactly when they are on one node. *)
Lemma node_root_eq a b : 0 <= a < kRanks -> 0 <= b < kRanks ->
  node_root nodes a = node_root nodes b <-> nodes a = nodes b.
Proof.
  intros Ha Hb. split.
  - intros E. destruct (node_root_spec a Ha) as [_ <-], (node_root_spec b Hb) as [_ <-]. by rewrite E.
  - intros E. unfold node_root. rewrite E.
    assert (b ∈ filter (fun r' => nodes r' = nodes b) ranks) as Hx
      by by apply list_elem_of_filter; split; [|apply elem_of_zrange].
    destruct (filter _ _); [by apply elem_of_nil in Hx|done].
Qed.

Lemma node_root_idem r : 0 <= r < kRanks -> node_root nodes (node_root nodes r) = node_root nodes r.
Proof. intros Hr. destruct (node_root_spec r Hr). by apply node_root_eq. Qed.
End NodeFacts.

(** *** Agreement of the validation phases *)

Lemma close_fd_none fd : close_fd fd [] = [].
Proof. unfold close_fd. by case_match. Qed.

Section PhaseFacts.
Context `{BuildConfig} (E : Z -> host) (M : Z -> machine) (device : Z -> Z).
Implicit Types P : (Z -> process) -> Prop.

(** Nothing was refused before the transports are set up. *)
Record machine_good (M : machine) (device : Z) : Prop := {
  mg_count : exists n, cudaGetDeviceCount M = inl n /\ 0 <= device < n;
  mg_uuid : is_Some (maybe inl (device_uuid M device));
  mg_listen : exists e, (create_from_environment (sockets M) []).2 = Ok e }.

Definition good (r : Z) : Prop := host_good (E r) /\ machine_good (M r) (device r).
Definition node_ids : list Z := node_root (fun r => node (M r)) <$> ranks.
Definition shares_device : Prop := exists a b, 0 <= a < b /\ b < kRanks /\
  node (M a) = node (M b) /\ device_uuid (M a) (device a) = device_uuid (M b) (device b).

(** The process listens at an address. *)
Definition listens (M : machine) (address : SocketAddress) : Prop :=
  exists e, create_from_environment (sockets M) [] = ([listener_fd e], Ok e) /\ ep_address e = address.

Definition bad_rank : Prop := exists r, 0 <= r < kRanks /\ ~ good r.

Lemma local_device_ok r u : local_device (E r) (M r) r (device r) = Ok u -> cudaSetDevice (E r) = None.
Proof.
  unfold local_device. destruct (cudaGetDeviceCount _) as [n|]; [|done].
  destruct (_ || _); [done|]. by destruct (cudaSetDevice _).
Qed.

Lemma local_device_throw r e : local_device (E r) (M r) r (device r) = Throw e -> ~ good r.
Proof.
  intros Ht [Hh Hm]. destruct Hm as [(n & Hn & Hd) _ _]. unfold local_device in Ht. rewrite Hn in Ht.
  rewrite (proj2 (Z.ltb_ge _ _)), (proj2 (Z.leb_gt _ _)) in Ht by lia. simpl in Ht.
  by rewrite good_device in Ht.
Qed.

Lemma agrees_error {A} P o unknown (x : Z -> string) (mk : string -> exn) (f : process -> process)
    F (Q : (Z -> A) -> (Z -> process) -> Prop) :
  (forall s e, P s -> F e (fun r => f (s r))) ->
  agrees 1 P (fun r s => gather_first_error o unknown (x r) (fun error => Done (f s, Throw (mk error)))) F Q.
Proof.
  intros HF. unfold gather_first_error.
  apply (agrees_allgather 0 P as_text PText o x (fun r l s => Done (f s, Throw (mk (first_error unknown l))))); [done|].
  apply (agrees_done 0 P (fun _ => f) (fun _ => Throw (mk (first_error unknown (x <$> ranks))))).
  intros s Hs. right. eexists. split; [done|]. by apply HF.
Qed.

Lemma device_phase P :
  agrees 2 P (fun r => validate_local_device_with_consensus (E r) (M r) r (device r))
    (fun _ s => bad_rank /\ P s) (fun _ s => (forall r, 0 <= r < kRanks -> cudaSetDevice (E r) = None) /\ P s).
Proof.
  apply (agrees_consensus 1 P _ (fun r => local_device (E r) (M r) r (device r))
    (fun r s => Done (s, Ok tt))).
  - intros Hok. apply (agrees_done 1 P (fun _ s => s) (fun _ => Ok tt)). intros s Hs. left.
    exists (fun _ => tt). split; [done|]. split; [|done].
    intros r Hr. destruct (Hok r Hr) as [u Hu]. by eapply local_device_ok.
  - intros (r & e & Hr & Hre). apply (agrees_error P _ _ _ InvalidArgument (fun s => s)).
    intros s _ Hs. split; [|done]. exists r. split; [done|]. by eapply local_device_throw.
Qed.

Lemma node_phase P :
  agrees 4 P (fun r => discover_node_ids (M r) r) (fun _ _ => False)
    (fun a s => a = (fun _ => node_ids) /\ P s).
Proof.
  intros s Hs. exists s, (fun _ => Ok node_ids). unfold discover_node_ids. split.
  - rewrite run_allgather by (done || apply ranks_nonempty).
    rewrite run_allgather by (done || apply ranks_nonempty).
    rewrite run_barrier by apply ranks_nonempty.
    rewrite run_allgather, run_done by (done || apply ranks_nonempty). f_equal.
    apply list_fmap_ext. intros _ r _. do 2 f_equal. apply list_fmap_ext. intros i x Hx%in_ranks.
    rewrite (node_comm_filter (fun r => node (M r))) by done.
    change (default x (head _)) with (node_root (fun r => node (M r)) x).
    destruct (node_root_spec (fun r => node (M r)) x Hx) as [Hr _].
    rewrite gathered by done. simpl.
    rewrite (node_comm_filter (fun r => node (M r))) by done.
    change (default ?y (head (filter (fun r' => node (M r') = node (M ?y)) ranks)))
      with (node_root (fun r => node (M r)) y).
    by rewrite node_root_idem, Z.eqb_refl.
  - left. by exists (fun _ => node_ids).
Qed.

(** *** Distinct devices *)

Lemma elem_of_rank_pairs a b : (a, b) ∈ rank_pairs <-> 0 <= a < b /\ b < kRanks.
Proof.
  unfold rank_pairs. rewrite list_elem_of_bind. split.
  - intros (x & Hx & Hin%elem_of_zrange). apply list_elem_of_bind in Hx as (y & Hy & Hyin).
    apply elem_of_seqZ in Hyin. apply list_elem_of_singleton in Hy as [= -> ->]. lia.
  - intros Hab. exists a. split; [|by apply elem_of_zrange; lia].
    apply list_elem_of_bind. exists b. split; [by apply list_elem_of_singleton|].
    apply elem_of_seqZ. lia.
Qed.

Definition uuid_of (r : Z) : Z :=
  match local_identity (M r) r (device r) with Ok uuid => uuid | Throw _ => 0 end.

Lemma local_identity_ok r uuid : local_identity (M r) r (device r) = Ok uuid ->
  uuid_of r = uuid /\ device_uuid (M r) (device r) = inl uuid.
Proof.
  unfold uuid_of, local_identity. destruct (device_uuid _ _); [|done]. by intros [= ->].
Qed.

Lemma local_identity_throw r e : local_identity (M r) r (device r) = Throw e -> ~ good r.
Proof.
  unfold local_identity. intros Ht [_ [_ Hu _]]. destruct (device_uuid _ _); [done|].
  by destruct Hu.
Qed.

Lemma distinct_devices_spec :
  (forall r, 0 <= r < kRanks -> exists uuid, local_identity (M r) r (device r) = Ok uuid) ->
  match distinct_devices node_ids (uuid_of <$> ranks) with
  | Ok _ => ~ shares_device
  | Throw _ => shares_device
  end.
Proof.
  intros Hid. set (p := apart node_ids (uuid_of <$> ranks)).
  assert (forall a b, 0 <= a < b -> b < kRanks -> p (a, b) = true <->
    ~ (node (M a) = node (M b) /\ device_uuid (M a) (device a) = device_uuid (M b) (device b))) as Hp.
  { intros a b Ha Hb. unfold p, apart, node_ids. cbn [fst snd]. rewrite !gathered by lia.
    rewrite negb_true_iff, andb_false_iff, !bool_decide_eq_false.
    destruct (Hid a) as [u Hu]; [lia|]. destruct (Hid b) as [v Hv]; [lia|].
    apply local_identity_ok in Hu as [-> ->], Hv as [-> ->].
    assert (node_root (fun r => node (M r)) a = node_root (fun r => node (M r)) b <-> node (M a) = node (M b)) as Hn
      by (apply node_root_eq; lia).
    split.
    - intros [Hne|Hne] [H1 H2]; apply Hne; f_equal; [by apply Hn|congruence].
    - intros Hnot. destruct (decide (u = v)) as [->|]; [left|right; congruence].
      intros [= Hr]. apply Hnot. split; [by apply Hn|done]. }
  destruct (distinct_devices _ _) as [u|e] eqn:Hd.
  - apply check_all_ok in Hd. rewrite Forall_forall in Hd. intros (a & b & Ha & Hb & Hs).
    specialize (Hd (a, b)). rewrite elem_of_rank_pairs in Hd.
    by apply (Hp a b Ha Hb); [apply Hd|].
  - destruct (decide (Forall (fun fs => p fs = true) rank_pairs)) as [Hall|Hnot].
    + apply (check_all_ok p same_device rank_pairs tt) in Hall. unfold distinct_devices in Hd.
      fold p in Hd. by rewrite Hall in Hd.
    + apply not_Forall_Exists, Exists_exists in Hnot as ([a b] & Hin%elem_of_rank_pairs & Hf); [|apply _].
      destruct Hin as [Ha Hb]. exists a, b. split; [done|]. split; [done|].
      destruct (decide (node (M a) = node (M b))), (decide (device_uuid (M a) (device a) = device_uuid (M b) (device b)));
        try done; exfalso; apply Hf, Hp; tauto.
Qed.

Lemma unique_phase P :
  agrees 2 P (fun r => validate_unique_device_per_node (M r) r (device r) node_ids)
    (fun _ s => (bad_rank \/ shares_device) /\ P s) (fun _ s => ~ shares_device /\ P s).
Proof.
  apply (agrees_consensus 1 P _ (fun r => local_identity (M r) r (device r))
    (fun r s => MPI_Allgather as_int PInt "MPI_Allgather(CUDA device identities)" (uuid_of r)
       (fun uuids => Done (s, distinct_devices node_ids uuids)))).
  - intros Hid. apply (agrees_allgather 0 P as_int PInt _ uuid_of
      (fun r uuids s => Done (s, distinct_devices node_ids uuids))); [done|].
    apply (agrees_done 0 P (fun _ s => s) (fun _ => distinct_devices node_ids (uuid_of <$> ranks))).
    intros s Hs. pose proof (distinct_devices_spec Hid) as Hd.
    destruct (distinct_devices _ _) as [[]|e]; [left; by exists (fun _ => tt)|right; exists e; auto].
  - intros (r & e & Hr & Hre). apply (agrees_error P _ _ _ RuntimeError (fun s => s)).
    intros s _ Hs. split; [|done]. left. exists r. split; [done|]. by eapply local_identity_throw.
Qed.
(** *** The network *)

Lemma listener_phase P : (forall x s, P s -> P (fun r => set_sockets (x r) (s r))) ->
  agrees 2 P (fun r => create_listener_with_consensus (M r))
    (fun _ s => bad_rank /\ P s /\ forall r, pr_sockets (s r) = [])
    (fun a s => (forall r, 0 <= r < kRanks -> listens (M r) (a r)) /\ P s /\
       forall r, pr_sockets (destroy_listener (s r)) = []).
Proof.
  intros HP. unfold create_listener_with_consensus.
  set (made r := create_from_environment (sockets (M r)) []).
  set (ep r := match (made r).2 with Ok e => e | Throw _ => no_listener end).
  apply (agrees_consensus 1 P _ (fun r => (made r).2)
    (fun r s => Done (set_sockets ((made r).1, ep r) s, Ok (ep_address (ep r))))).
  - intros Hok. apply (agrees_done 1 P (fun r => set_sockets ((made r).1, ep r)) (fun r => Ok (ep_address (ep r)))).
    intros s Hs. left. exists (fun r => ep_address (ep r)). split; [done|]. split; [|split; [by apply HP|]].
    2: { intros r. simpl. unfold ep.
         pose proof (listener_alone (sockets (M r)) _ _ (surjective_pairing (made r))) as Hl.
         fold (made r). destruct (made r).2; [by destruct Hl|]. by rewrite Hl. }
    intros r Hr. destruct (Hok r Hr) as [e He]. unfold listens, ep. exists e. rewrite He. split; [|done].
    pose proof (listener_alone (sockets (M r)) _ _ (surjective_pairing (made r))) as Hl. rewrite He in Hl.
    destruct Hl as [Hl _]. by rewrite (surjective_pairing (create_from_environment _ _)), <- Hl, <- He.
  - intros (r & e & Hr & Hre).
    set (text r := error_text (fun e => snprintf 256 (error_what e)) (made r).2).
    set (closed r := close_endpoint (ep r) (made r).1).
    apply (agrees_allgather 0 P as_text PText _ text (fun r errors s =>
      Done (set_sockets (closed r) s, Throw (RuntimeError (listener_error errors))))); [done|].
    apply (agrees_done 0 P (fun r => set_sockets (closed r)) (fun _ => Throw (RuntimeError (listener_error (text <$> ranks))))).
    intros s Hs. right. eexists. split; [done|]. split; [|split; [by apply HP|]].
    + exists r. split; [done|]. intros [_ [_ _ [e' He']]]. unfold made in Hre. by rewrite He' in Hre.
    + intros r'. unfold closed, ep. cbn [pr_sockets set_sockets fst].
      pose proof (listener_alone (sockets (M r')) _ _ (surjective_pairing (made r'))) as Hl.
      destruct (made r').2; [by destruct Hl|]. by rewrite Hl.
Qed.

Lemma connect_loop_total t q : exists c, connect_loop t q = Ok c.
Proof.
  unfold connect_loop. destruct (foldM_ok (connect_edge t (replicate (Z.to_nat kRanks) 1) q)
    (fun _ _ => True) (zrange kRanks) ([], 0)) as (c & Hc & _); [done| |by exists c].
  intros past e rest acc Hz _. destruct (zrange_split _ _ _ _ Hz) as (_ & He & _).
  pose proof (Z.mod_pos_bound (e + 1) kRanks kRanks_pos). unfold connect_edge.
  destruct (negb (is_network _)); [by eexists|]. rewrite !process_one_per_rank by done. simpl.
  destruct (_ && _); [by eexists|]. destruct (_ <? _); by eexists.
Qed.

Lemma network_ready P t view x :
  agrees 1 P (fun r => network_phase r (t r) (view r) (x r)) (fun _ _ => False)
    (fun a s => (forall r, su_topology (a r) = t r /\ su_view (a r) = view r /\
                   su_endpoints (a r) = x <$> ranks /\
                   connect_loop (t r) r = Ok (su_connections (a r))) /\ P s).
Proof.
  unfold network_phase. apply (agrees_unwind 1 P _ (fun _ => destroy_listener) (fun _ _ => False)); [|done].
  apply (agrees_bind 1 0 P (fun r => gather_endpoints (x r))
    (fun r endpoints => sm_local (connect_loop (t r) r) ≫= (fun c => mret (Setup (t r) (view r) endpoints c)))
    _ (fun a s => a = (fun _ => x <$> ranks) /\ P s)).
  - apply (agrees_allgather 0 P as_address of_address _ x (fun r endpoints s => Done (s, Ok endpoints)));
      [by intros []|].
    apply (agrees_done 0 P (fun _ s => s) (fun _ => Ok (x <$> ranks))). intros s Hs. left.
    exists (fun _ => x <$> ranks). by split.
  - intros a. apply agrees_pure. intros ->.
    apply (agrees_bind 0 0 P (fun r => sm_local (connect_loop (t r) r))
      (fun r c => mret (Setup (t r) (view r) (x <$> ranks) c)) _
      (fun c s => (forall r, connect_loop (t r) r = Ok (c r)) /\ P s)).
    + apply agrees_value. intros s Hs.
      exists (fun r => match connect_loop (t r) r with Ok c => c | Throw _ => ([], 0) end).
      assert (forall r, connect_loop (t r) r =
        Ok (match connect_loop (t r) r with Ok c => c | Throw _ => ([], 0) end)) as Hc.
      { intros r. by destruct (connect_loop_total (t r) r) as [c ->]. }
      split; [by intros r _|done].
    + intros c. apply agrees_pure. intros Hc.
      apply (agrees_ret 0 P (fun r => Setup (t r) (view r) (x <$> ranks) (c r))). intros s Hs. done.
Qed.
End PhaseFacts.

(** *** The transports in memory *)

Section TransportFacts.
Context `{BuildConfig} (rdma_enabled : bool) (region : string -> Z) (requested : TransportKind).
Context (E : Z -> host) (M : Z -> machine) (closed : Z -> bool) (device : Z -> Z).
Context (HE : forall r, 0 <= r < kRanks -> host_ok (E r)) (Hranks : kRanks < 2 ^ 31).
(** Closing handles and freeing memory works, and what the destructors of the
    CUDA IPC connections read is what they have told each other, nobody being
    late. *)
Context (Hclose : forall r, 0 <= r < kRanks -> cudaIpcCloseMemHandle (E r) = None).
Context (Hfree : forall r, 0 <= r < kRanks -> cudaFree (E r) = None).
Context (Htimely : forall o, ready o -> answers E o closed).

Abbreviation ids := (node_ids M).
Abbreviation bad := (bad_rank E M device).

(** Nothing is held. *)
Definition clean (s : Z -> process) : Prop := forall r, 0 <= r < kRanks ->
  MpiShm.owns [] "" [] (pr_shm (s r)) /\ MpiP2p.owns [] fresh_owner (pr_p2p (s r)) /\
  pr_sockets (s r) = [].
Definition holds_nothing (s : process) : Prop :=
  sh_held (pr_shm s) = [] /\ pp_held (pr_p2p s) = [] /\ pr_sockets s = [].

Lemma clean_holds s r : clean s -> 0 <= r < kRanks -> holds_nothing (s r).
Proof.
  intros Hs Hr. destruct (Hs r Hr) as ([Hh _ _ _ _] & [Hp _ _ _] & Hl).
  split_and!; [by apply Permutation_nil_r in Hh|by apply Permutation_nil_r in Hp|done].
Qed.

(** The transport of an edge is known to be usable: what the probe found, or
    nothing when it is not asked. *)
Definition p2p_capable : list bool :=
  if wants_probe requested then probe_edge E ids <$> ranks else replicate (Z.to_nat kRanks) false.

Lemma probe_phase_agrees : (forall r, 0 <= r < kRanks -> cudaSetDevice (E r) = None) ->
  agrees 4 clean (fun r => probe_phase requested (E r) r ids) (fun _ _ => False)
    (fun a s => a = (fun _ => p2p_capable) /\ clean s).
Proof.
  intros Hdev. unfold probe_phase, p2p_capable. destruct (wants_probe requested).
  2: { apply (agrees_ret 4 clean (fun _ => replicate (Z.to_nat kRanks) false)). auto. }
  apply (agrees_part 4 clean pr_p2p set_p2p (fun r => probe_mpi_p2p_edges (E r) ids r)).
  intros s Hs. destruct (probe_agrees E ids (fun r => pr_p2p (s r)) Hdev) as (out & Hrun & Hout).
  exists out. split; [done|]. left. exists (fun _ => probe_edge E ids <$> ranks). split.
  { intros r Hr. by destruct (Hout r Hr) as (s' & -> & _). }
  split; [done|]. intros r Hr. destruct (Hout r Hr) as (s' & -> & Hh & Ho & Hq).
  destruct (Hs r Hr) as (H1 & [H2 H3 H4 H5] & H6). specialize (Hh (Hclose r Hr) (Hfree r Hr)).
  split_and!; [done| |done]. simpl. split; [by rewrite Hh|by rewrite Ho|done|by rewrite Hq].
Qed.

(** The transports are resolved alike. *)
Lemma resolve_phase (P : (Z -> process) -> Prop) :
  agrees 0 P (fun r => sm_local (resolve_topology rdma_enabled requested r (device r) ids p2p_capable))
    (fun _ s => ~ servable rdma_enabled ids p2p_capable requested /\ P s)
    (fun t s => (exists kinds,
       resolve_interprocess_transports rdma_enabled ids p2p_capable requested = Ok kinds /\
       t = (fun r => ring_topology r (device r) kinds)) /\ P s).
Proof.
  apply (agrees_done 0 P (fun _ s => s)). intros s Hs.
  destruct (resolve_interprocess_spec rdma_enabled ids p2p_capable requested) as [Hserve Hval].
  unfold resolve_topology. destruct (resolve_interprocess_transports _ _ _ _) as [kinds|e] eqn:Hres.
  - left. exists (fun r => ring_topology r (device r) kinds). split; [|split; [by exists kinds|done]].
    intros r Hr. destruct (Hval kinds eq_refl) as (_ & _ & _ & Ht). simpl. by rewrite Ht.
  - right. exists e. split; [done|]. split; [|done]. intros [k Hk]%Hserve. done.
Qed.

Section Kinds.
Context (kinds : list TransportKind).

Definition shm_owned (name : Z -> string) (r : Z) (s : process) : Prop :=
  exists l1 l2, MpiShm.owns [] "" (l1 ++ l2) (pr_shm s) /\
    edge_mapping (has_incoming Shm kinds r) (name r) l1 /\
    edge_mapping (has_outgoing Shm kinds r) (name ((r + 1) mod kRanks)) l2.

Definition shm_up (name : Z -> string) (v : Z -> Z -> ends) (s : Z -> process) : Prop :=
  forall r, 0 <= r < kRanks ->
    (forall c, v r c = connection_view Shm (fun r => region (name r)) kinds r c) /\
    shm_owned name r (s r) /\ MpiP2p.owns [] fresh_owner (pr_p2p (s r)) /\ pr_sockets (s r) = [].

Abbreviation failed := (fun (_ : exn) (s : Z -> process) =>
  bad /\ forall r, 0 <= r < kRanks -> holds_nothing (s r)).

Lemma shm_phase_agrees :
  agrees 5 clean (fun r => shm_phase region (E r) r (ring_topology r (device r) kinds))
    failed (fun v s => exists name, shm_up name v s).
Proof.
  apply (agrees_part 5 clean pr_shm set_shm (fun r => create_mpi_shm_connections (E r) region kinds r)).
  intros s Hs. destruct (shm_setup_outcomes E region kinds (fun r => pr_shm (s r)) HE Hranks)
    as (out & Hrun & Hout); [by intros r Hr; destruct (Hs r Hr)|].
  exists out. split; [done|]. destruct Hout as [[name Hok]|[(e & Hfail) (r & Hr & Hbad)]]; [left|right].
  - exists (fun r => match (out r).2 with Ok v => v | Throw _ => fun _ => no_ends end).
    split; [|exists name]; intros r Hr; destruct (Hok r Hr) as [(s' & v & l1 & l2 & -> & Hv & Ho & H1 & H2) _];
      [done|]. simpl. destruct (Hs r Hr) as (_ & Hp & Hl). split; [done|]. split; [by exists l1, l2|done].
  - exists e. split; [intros r' Hr'; by destruct (Hfail r' Hr') as (s' & -> & _)|]. split.
    + exists r. split; [done|]. by intros [? _].
    + intros r' Hr'. destruct (Hfail r' Hr') as (s' & -> & Hh).
      destruct (clean_holds s r' Hs Hr') as (_ & ? & ?). done.
Qed.

(** Both transports are up; what is held can be released. *)
Definition p2p_owned (pool : Z -> Z) (r : Z) (s : process) : Prop :=
  exists o, MpiP2p.owns [] o (pr_p2p s) /\
    local_region o = (if has_incoming P2p kinds r then Some (pool r) else None) /\
    remote_region o = (if has_outgoing P2p kinds r then Some (pool ((r + 1) mod kRanks)) else None) /\
    local_control_name o = "" /\ sender_closed (closed r) o = true.

Definition memory_up (name : Z -> string) (pool : Z -> Z) (s : Z -> process) : Prop :=
  forall r, 0 <= r < kRanks -> shm_owned name r (s r) /\ p2p_owned pool r (s r).

Lemma destroy_shm_nothing name r s : shm_owned name r s -> pp_held (pr_p2p s) = [] ->
  pr_sockets s = [] -> holds_nothing (destroy_shm s).
Proof. intros (l1 & l2 & Ho & _) Hp Hl. split_and!; [by eapply shm_destroy_releases|done|done]. Qed.

Lemma destroy_connections_nothing name pool r s : 0 <= r < kRanks -> shm_owned name r s ->
  p2p_owned pool r s -> pr_sockets s = [] -> holds_nothing (destroy_connections (E r) (closed r) s).
Proof.
  intros Hr (l1 & l2 & Ho & _) (o & Hp & _ & _ & _ & Hc) Hl.
  split_and!; [by eapply shm_destroy_releases| |done].
  by apply (p2p_destroy_releases _ _ _ _ Hp); [apply Hclose|apply Hfree|].
Qed.

Lemma p2p_phase_agrees name v : (forall r, 0 <= r < kRanks -> cudaSetDevice (E r) = None) ->
  agrees 7 (shm_up name v)
    (fun r => p2p_phase (E r) (closed r) r (ring_topology r (device r) kinds) (v r))
    failed (fun w s => exists pool,
      (forall r, 0 <= r < kRanks ->
         (forall c, 0 <= c < kChannels ->
            (w r).1 c = overlay no_ends (connection_view Shm (fun r => region (name r)) kinds r c)) /\
         (forall c, (w r).2 c = connection_view P2p pool kinds r c)) /\
      memory_up name pool s /\ forall r, 0 <= r < kRanks -> pr_sockets (s r) = []).
Proof.
  intros Hdev. unfold p2p_phase.
  apply (agrees_unwind 7 (shm_up name v) _ (fun _ => destroy_shm) (fun _ s => bad /\
    forall r, 0 <= r < kRanks -> shm_owned name r (s r) /\ pp_held (pr_p2p (s r)) = [] /\
      pr_sockets (s r) = [])).
  2: { intros _ s [Hb Hs]. split; [done|]. intros r Hr. destruct (Hs r Hr) as (H1 & H2 & H3).
       by eapply destroy_shm_nothing. }
  apply (agrees_bind 0 7 _ (fun r => sm_local (merge_connection_resources (fun _ => no_ends) (v r)))
    (fun r view => p2p ← on_part pr_p2p set_p2p
       (create_mpi_p2p_connections (E r) (closed r) (edge_kinds (ring_topology r (device r) kinds)) r);
       mret (view, p2p)) _
    (fun view s => (forall r, 0 <= r < kRanks -> forall c, 0 <= c < kChannels ->
        view r c = overlay no_ends (connection_view Shm (fun r => region (name r)) kinds r c)) /\
      shm_up name v s)).
  - apply agrees_value. intros s Hs.
    exists (fun r => match merge_connection_resources (fun _ => no_ends) (v r) with
                     | Ok view => view | Throw _ => fun _ => no_ends end).
    split; [|split; [|done]]; intros r Hr; destruct (Hs r Hr) as [Hv _];
      by destruct (merge_shm (fun r => region (name r)) kinds r (v r) Hv) as (view & -> & Hview).
  - intros view. apply agrees_pure. intros Hview.
    apply (agrees_bind 7 0 _ (fun r => on_part pr_p2p set_p2p
        (create_mpi_p2p_connections (E r) (closed r) (edge_kinds (ring_topology r (device r) kinds)) r))
      (fun r p2p => mret (view r, p2p)) _
      (fun p2p s => exists pool, (forall r, 0 <= r < kRanks -> forall c, p2p r c = connection_view P2p pool kinds r c) /\
         memory_up name pool s /\ forall r, 0 <= r < kRanks -> pr_sockets (s r) = [])).
    + apply (agrees_part 7 _ pr_p2p set_p2p (fun r => create_mpi_p2p_connections (E r) (closed r) kinds r)).
      intros s Hs. destruct (p2p_setup_outcomes E closed kinds (fun r => pr_p2p (s r)) HE Hranks)
        as (out & Hrun & Hout); [by intros r Hr; destruct (Hs r Hr) as (_ & _ & ? & _)|done|].
      exists out. split; [done|].
      destruct Hout as [[pool Hok]|(o & Hrd & (e & Hfail) & r & Hr & Hbad)]; [left|right].
      * pose proof (connected_ready kinds pool out Hok) as Hrd.
        exists (fun r => match (out r).2 with Ok v => v | Throw _ => fun _ => no_ends end).
        split; [|exists pool; split_and!]; intros r Hr;
          destruct (Hok r Hr) as (s' & w & o & Hout & Hw & Ho & Hl & Hrem & Hn & Hwait & _); rewrite Hout; try done.
        all: destruct (Hs r Hr) as (_ & Hshm & _ & Hlis).
        2: done.
        split; [done|]. exists o. split_and!; try done.
        pose proof (answers_closed E (owner_of out) Hclose Hfree closed r Hrd (Htimely _ Hrd) Hr) as Hcl.
        unfold owner_of in Hcl. rewrite Hout in Hcl. simpl in Hcl. by rewrite (ow_owner _ _ _ Ho) in Hcl.
      * exists e. split; [intros r' Hr'; by destruct (Hfail r' Hr') as (s' & -> & _)|]. split.
        -- exists r. split; [done|]. by intros [? _].
        -- intros r' Hr'. destruct (Hfail r' Hr') as (s' & -> & s1 & Ho1 & ->), (Hs r' Hr') as (_ & Hshm & _ & Hlis).
           split; [done|]. split; [|done].
           apply (p2p_destroy_releases _ _ _ _ Ho1); [by apply Hclose|by apply Hfree|].
           exact (answers_closed E o Hclose Hfree closed r' Hrd (Htimely _ Hrd) Hr').
    + intros p2p. apply agrees_exists. intros pool. apply (agrees_ret 0 _ (fun r => (view r, p2p r))).
      intros s (Hp & Hm & Hl). exists pool. split; [|done]. intros r Hr. split; [by apply Hview|by apply Hp].
Qed.

(** From the two views on. *)
Definition created (name : Z -> string) (pool : Z -> Z) (x : Z -> SocketAddress) (r : Z)
    (a : setup) (s : process) : Prop :=
  su_topology a = ring_topology r (device r) kinds /\
  (forall c, 0 <= c < kChannels ->
     su_view a c = edge_ends (fun r => region (name r)) pool kinds r c) /\
  su_endpoints a = x <$> ranks /\
  connect_loop (su_topology a) r = Ok (su_connections a) /\
  shm_owned name r s /\ p2p_owned pool r s /\ pr_sockets (destroy_listener s) = [].

(** Closing the listener and destroying the connections releases all of it. *)
Lemma created_released name pool x r a s : 0 <= r < kRanks -> created name pool x r a s ->
  holds_nothing (destroy_connections (E r) (closed r) (destroy_listener s)).
Proof. intros Hr (_ & _ & _ & _ & Hs & Hp & Hl). by eapply destroy_connections_nothing. Qed.

Lemma last_phase_agrees name pool w :
  (forall r, 0 <= r < kRanks ->
     (forall c, 0 <= c < kChannels ->
        (w r).1 c = overlay no_ends (connection_view Shm (fun r => region (name r)) kinds r c)) /\
     (forall c, (w r).2 c = connection_view P2p pool kinds r c)) ->
  agrees 3 (fun s => memory_up name pool s /\ forall r, 0 <= r < kRanks -> pr_sockets (s r) = [])
    (fun r => unwinding (destroy_connections (E r) (closed r)) (
       view ← sm_local (merge_connection_resources (w r).1 (w r).2);
       local_endpoint ← listen_phase (M r) (ring_topology r (device r) kinds);
       network_phase r (ring_topology r (device r) kinds) view local_endpoint))
    failed (fun a s => exists x,
      (uses_network kinds = true -> forall r, 0 <= r < kRanks -> listens (M r) (x r)) /\
      forall r, 0 <= r < kRanks -> created name pool x r (a r) (s r)).
Proof.
  intros Hw.
  apply (agrees_unwind 3 _ _ (fun r => destroy_connections (E r) (closed r)) (fun _ s => bad /\
    memory_up name pool s /\ forall r, 0 <= r < kRanks -> pr_sockets (s r) = [])).
  2: { intros _ s (Hb & Hs & Hl). split; [done|]. intros r Hr. destruct (Hs r Hr).
       eapply destroy_connections_nothing; eauto. }
  apply (agrees_bind 0 3 _ (fun r => sm_local (merge_connection_resources (w r).1 (w r).2))
    (fun r view => local_endpoint ← listen_phase (M r) (ring_topology r (device r) kinds);
       network_phase r (ring_topology r (device r) kinds) view local_endpoint) _
    (fun view s => (forall r, 0 <= r < kRanks -> forall c, 0 <= c < kChannels ->
        view r c = edge_ends (fun r => region (name r)) pool kinds r c) /\
      memory_up name pool s /\ forall r, 0 <= r < kRanks -> pr_sockets (s r) = [])).
  - apply agrees_value. intros s Hs.
    exists (fun r => match merge_connection_resources (w r).1 (w r).2 with
                     | Ok view => view | Throw _ => fun _ => no_ends end).
    split; [|split; [|done]]; intros r Hr; destruct (Hw r Hr) as [H1 H2];
      by destruct (merge_p2p (fun r => region (name r)) pool kinds r (w r).1 (w r).2 Hr H1 H2) as (view & -> & Hview).
  - intros view. apply agrees_pure. intros Hview.
    apply (agrees_bind 2 1 _ (fun r => listen_phase (M r) (ring_topology r (device r) kinds))
      (fun r local_endpoint => network_phase r (ring_topology r (device r) kinds) (view r) local_endpoint) _
      (fun x s => (uses_network kinds = true -> forall r, 0 <= r < kRanks -> listens (M r) (x r)) /\
         memory_up name pool s /\ forall r, 0 <= r < kRanks -> pr_sockets (destroy_listener (s r)) = [])).
    + unfold listen_phase. cbn [edge_kinds ring_topology]. destruct (uses_network kinds).
      * eapply agrees_conseq; [apply (listener_phase E M device (memory_up name pool)); done|lia| | |].
        -- by intros s [? ?].
        -- intros _ s (? & ? & Hl). by split_and!.
        -- intros a s (Ha & Hm & Hl). by split_and!.
      * apply (agrees_ret 2 _ (fun _ => Address 0 0)). intros s [? Hl]. split_and!; [done|done|].
        intros r Hr. simpl. by rewrite (Hl r Hr), close_fd_none.
    + intros x. apply agrees_pure. intros Hx.
      eapply agrees_conseq; [apply (network_ready (fun s => memory_up name pool s /\
          forall r, 0 <= r < kRanks -> pr_sockets (destroy_listener (s r)) = [])
        (fun r => ring_topology r (device r) kinds) view x)|lia|done|done|].
      intros a s (Ha & Hs & Hl). exists x. split; [done|]. intros r Hr. unfold created. destruct (Ha r) as (-> & -> & -> & ->).
      destruct (Hs r Hr). split_and!; try done; [by apply Hview|by apply Hl].
Qed.
End Kinds.

(** *** The whole creation *)

Definition blamed : Prop :=
  bad \/ shares_device M device \/ ~ servable rdma_enabled ids p2p_capable requested.

Context (Hmpi : forall r, 0 <= r < kRanks ->
  mpi_initialized (M r) = true /\ mpi_finalized (M r) = false /\ mpi_size (M r) = kRanks).

Lemma creation_agrees :
  agrees 27 clean (fun r => create_communicator_from_mpi rdma_enabled region requested (E r) (M r) (closed r) r (device r))
    (fun _ s => blamed /\ forall r, 0 <= r < kRanks -> holds_nothing (s r))
    (fun a s => exists kinds name pool x,
       resolve_interprocess_transports rdma_enabled ids p2p_capable requested = Ok kinds /\
       ~ shares_device M device /\
       (uses_network kinds = true -> forall r, 0 <= r < kRanks -> listens (M r) (x r)) /\
       forall r, 0 <= r < kRanks -> created kinds name pool x r (a r) (s r)).
Proof.
  eapply agrees_ext.
  { intros r s Hr. unfold create_communicator_from_mpi. destruct (Hmpi r Hr) as (-> & -> & ->).
    rewrite Z.eqb_refl. reflexivity. }
  eapply (agrees_seq 2 25); [apply (device_phase E M device clean)| |].
  { intros _ s [Hb Hs]. split; [by left|]. intros r Hr. by apply clean_holds. }
  intros u. apply agrees_pure. intros Hdev.
  eapply (agrees_seq 4 21); [apply (node_phase M clean)|done|]. intros a. apply agrees_pure. intros ->.
  eapply (agrees_seq 2 19); [apply (unique_phase E M device clean)| |].
  { intros _ s [Hb Hs]. split; [unfold blamed; tauto|]. intros r Hr. by apply clean_holds. }
  intros u'. apply agrees_pure. intros Hdistinct.
  eapply (agrees_seq 4 15); [by apply probe_phase_agrees|done|]. intros a. apply agrees_pure. intros ->.
  eapply (agrees_seq 0 15); [apply (resolve_phase clean)| |].
  { intros _ s [Hb Hs]. split; [by right; right|]. intros r Hr. by apply clean_holds. }
  intros a. apply agrees_pure. intros (kinds & Hkinds & ->).
  eapply (agrees_seq 5 10); [apply (shm_phase_agrees kinds)|intros _ s [Hb Hs]; split; [by left|done]|].
  intros v. apply agrees_exists. intros name.
  eapply (agrees_seq 7 3); [by apply (p2p_phase_agrees kinds name v)|intros _ s [Hb Hs]; split; [by left|done]|].
  intros w. apply agrees_exists. intros pool. apply agrees_pure. intros Hw.
  eapply agrees_conseq; [by apply (last_phase_agrees kinds name pool w)|lia|done| |].
  - intros _ s [Hb Hs]. split; [by left|done].
  - intros a s (x & Hx & Hc). by exists kinds, name, pool, x.
Qed.

(** Memory is shared inside a node only. *)
Lemma memory_edge_same_node kinds e :
  resolve_interprocess_transports rdma_enabled ids p2p_capable requested = Ok kinds ->
  0 <= e < kRanks -> memory_edge kinds e = true -> node (M e) = node (M ((e + 1) mod kRanks)).
Proof.
  intros Hk He Hm. pose proof (Z.mod_pos_bound (e + 1) kRanks kRanks_pos) as Hn.
  destruct (proj2 (resolve_interprocess_spec rdma_enabled ids p2p_capable requested) kinds Hk)
    as (_ & Hsound & _). unfold memory_edge in Hm.
  destruct (kinds !! Z.to_nat e) as [k|] eqn:E1; [|done].
  destruct (Hsound e k ltac:(lia) E1) as [_ Hp Hs _ _].
  assert (same_host ids e = true) as Hh by (destruct k; try done; [by apply Hs|by apply Hp]).
  unfold same_host, node_ids in Hh. rewrite !gathered in Hh by done. simpl in Hh.
  apply bool_decide_eq_true in Hh. injection Hh as Hroot. by apply (node_root_eq (fun r => node (M r))).
Qed.

Definition creation_programs (s : Z -> process) : list (spmd (process * res setup)) :=
  (fun r => create_communicator_from_mpi rdma_enabled region requested (E r) (M r) (closed r) r
              (device r) (s r)) <$> ranks.

(** C24: Creating a communicator from MPI is all or nothing up to the network
    connections, when all ranks request the same transport.  MPI is initialised
    with [kRanks] processes; no handle fails to be closed and no device memory
    to be freed, and no destructor of a CUDA IPC connection times out (P2pClose).
    Then the ranks meet at every collective call.  Either all go on:
    with distinct devices per node, one vector of resolved transports, valid
    topologies, memory transports inside a node only, views of the regions of
    their two edges, the addresses of all listeners and the connections to
    make; or all throw the same error and hold nothing, no listener, no shared
    memory, no device memory, and the environment refused a call, two ranks of
    a node share a device, or the request cannot be served. *)
Theorem communicator_setup_agrees (s : Z -> process) : clean s ->
  exists s' out, run_ranks 27 (creation_programs s) = Some ((fun r => (s' r, out r)) <$> ranks) /\
    ((exists kinds a name pool x,
        resolve_interprocess_transports rdma_enabled ids p2p_capable requested = Ok kinds /\
        (forall r, 0 <= r < kRanks -> out r = Ok (a r) /\ created kinds name pool x r (a r) (s' r)) /\
        ~ shares_device M device /\
        (forall e, 0 <= e < kRanks -> memory_edge kinds e = true ->
           node (M e) = node (M ((e + 1) mod kRanks))) /\
        (uses_network kinds = true ->
           forall r, 0 <= r < kRanks -> listens (M r) (x r))) \/
     (blamed /\ exists e, forall r, 0 <= r < kRanks -> out r = Throw e /\ holds_nothing (s' r))).
Proof.
  intros Hs. destruct (creation_agrees s Hs) as (s' & out & Hrun & Hout). exists s', out.
  split; [done|].
  destruct Hout as [(a & Ha & kinds & name & pool & x & Hk & Hd & Hx & Hc)|(e & He & Hb & Hh)].
  - left. exists kinds, a, name, pool, x. split_and!; try done; [auto|].
    intros e He. by apply memory_edge_same_node.
  - right. split; [done|]. exists e. auto.
Qed.
End TransportFacts.

(** ** Three processes on two nodes *)

Module SetupWitness.
Import Hosts.
#[local] Existing Instance small_config.

Definition machines (r : Z) : machine := {|
  mpi_initialized := true; mpi_finalized := false; mpi_size := 3;
  node := if r =? 2 then 5 else 4; cudaGetDeviceCount := inl 2; cudaGetErrorString := "invalid device";
  device_uuid d := inl (10 * (if r =? 2 then 5 else 4) + d);
  sockets := {|
    socket_ifname := Some "ib0"; getifaddrs := inl [IfAddrs (Some "ib0") (Some 167772160) true false];
    new_socket held := (3 + Z.of_nat (length held), ""); set_reuse_address _ := None;
    bind _ _ := None; listen _ := None; getsockname _ := inl (htons (5000 + r));
    connect_socket _ _ _ := None |} |}.
Definition devices (r : Z) : Z := if r =? 1 then 1 else 0.
Definition fresh (_ : Z) : process :=
  Process (ShmProcess 0 [] "" []) (P2pProcess 0 [] fresh_owner None) no_listener [].
Definition region (name : string) : Z := Z.of_nat (String.length name).
Definition in_time (_ : Z) : bool := true.

Lemma fresh_clean : clean fresh.
Proof. intros r _. split_and!; [split; simpl; done|split; simpl; done|done]. Qed.

Definition all_created (requested : TransportKind) (hosts : Z -> host) : Prop :=
  exists s' out, run_ranks 27 (creation_programs true region requested hosts machines in_time devices fresh)
      = Some ((fun r => (s' r, out r)) <$> ranks) /\
    ((exists kinds a name pool x,
        resolve_interprocess_transports true (node_ids machines) (p2p_capable requested hosts machines) requested = Ok kinds /\
        (forall r, 0 <= r < kRanks -> out r = Ok (a r) /\
           created region in_time devices kinds name pool x r (a r) (s' r)) /\
        ~ shares_device machines devices /\
        (forall e, 0 <= e < kRanks -> memory_edge kinds e = true ->
           node (machines e) = node (machines ((e + 1) mod kRanks))) /\
        (uses_network kinds = true ->
           forall r, 0 <= r < kRanks -> listens (machines r) (x r))) \/
     (blamed true requested hosts machines devices /\
      exists e, forall r, 0 <= r < kRanks -> out r = Throw e /\ holds_nothing (s' r))).

Lemma communicator_setup_agrees_witness : all_created Auto good_host.
Proof.
  apply (communicator_setup_agrees true region Auto good_host machines in_time devices).
  - intros r Hr. apply good_host_ok. change kRanks with 3 in Hr. lia.
  - vm_compute. done.
  - intros r _. done.
  - intros r _. done.
  - intros o Ho. by apply answers_timely.
  - intros r _. done.
  - apply fresh_clean.
Defined.

Definition kinds_of (o : process * res setup) : option (list TransportKind) :=
  match o.2 with Ok a => Some (edge_kinds (su_topology a)) | Throw _ => None end.
Definition thrown (o : process * res setup) : option exn :=
  match o.2 with Throw e => Some e | Ok _ => None end.
Definition created_by (requested : Z -> TransportKind) (M : Z -> machine) (d : Z -> Z) :=
  run_ranks 27 ((fun r => create_communicator_from_mpi true region (requested r) (good_host r) (M r)
    true r (d r) (fresh r)) <$> ranks).

Example auto_inside_and_between_nodes :
  option_map (map kinds_of) (created_by (fun _ => Auto) machines devices)
  = Some (replicate 3 (Some [P2p; Socket; Socket])).
Proof. vm_compute. reflexivity. Qed.

(** Ranks 0 and 1 select the same device of their node. *)
Example shared_device :
  option_map (map thrown) (created_by (fun _ => Auto) machines (fun _ => 0)) =
  Some (replicate 3 (Some (InvalidArgument "MPI ranks 0 and 1 select the same CUDA device on one host"))).
Proof. vm_compute. reflexivity. Qed.

(** Nobody compares the requested transports: ranks that ask for different ones
    wait for each other in different calls. *)
Example different_requests :
  created_by (fun r => if r =? 0 then Auto else Socket) machines devices = None.
Proof. vm_compute. reflexivity. Qed.
End SetupWitness.
