(* ===== verification/Buffers.v ===== *)
(** * Mapped host memory and device memory

    [MappedBuffer], [MappedU64Array], [MappedU32Array] and [DeviceBuffer] of
    src/core/buffer.h and src/core/buffer.cu, [gpu_numa_node] of
    src/core/numa.cu, and the storage of a socket channel that
    [make_socket_resources] of src/collective/all_reduce/communicator.cu builds
    of them.

    The three mapped classes have the same code up to the size of an element,
    zeroing, and messages; a [flavour] says which one it is.  CUDA calls answer
    as the environment says, the state records the allocations held, the
    preferred NUMA node of the thread and the contents of host memory. *)

From Stdlib Require Import ZArith Lia.
From stdpp Require Import base option numbers tactics strings list.
From S2P Require Import Prelude Types Resources Geometry.

#[local] Open Scope Z_scope.

(** ** Environment, state, objects *)

Record cuda := Cuda {
  cudaSetDevice : Z -> option string;                  (* the text of the error *)
  cudaHostAlloc : Z -> Z + string;                     (* bytes *)
  cudaHostGetDevicePointer : Z -> Z -> Z + string;     (* device, host pointer *)
  cudaMalloc : Z -> Z -> Z + string;                   (* device, bytes *)
  numa_available : bool }.

Inductive allocation := Pinned (pointer : Z) | DeviceMemory (pointer : Z).
#[export] Instance allocation_eq_dec : EqDecision allocation.
Proof. solve_decision. Defined.

Record memory := Memory {
  held : list allocation;
  preferred_node : Z;              (* -1: no preference *)
  words : Z -> Z -> Z }.           (* host pointer, index *)

Record flavour := Flavour {
  element_size : Z; zeroed : bool; no_devices : string; no_pointer : string }.

Definition mapped_buffer (element_size : Z) : flavour := {|
  element_size := element_size; zeroed := false;
  no_devices := "mapped buffer requires local devices";
  no_pointer := "mapped buffer has no pointer for device" |}.
Definition mapped_u64_array : flavour := {|
  element_size := 8; zeroed := true;
  no_devices := "mapped counter requires local devices";
  no_pointer := "mapped counter has no pointer for device" |}.
Definition mapped_u32_array : flavour := {|
  element_size := 4; zeroed := true;
  no_devices := "mapped counter requires local devices";
  no_pointer := "mapped counter has no pointer for device" |}.

Record buffer := Buffer {
  b_count : Z; host_ptr : option Z; b_devices : list Z; device_ptrs : list (option Z) }.
Definition empty_buffer : buffer := Buffer 0 None [] [].

(** A member function changes the object and the memory of the process. *)
Abbreviation BM := (PM (memory * buffer)).

Definition set_held (f : list allocation -> list allocation) (m : memory) : memory :=
  Memory (f (held m)) (preferred_node m) (words m).
Definition numa_set_prefer (C : cuda) (node : Z) (m : memory) : memory :=
  if numa_available C then Memory (held m) node (words m) else m.

(** ** The mapped classes *)

Section Mapped.
Context (f : flavour) (C : cuda).

Definition release_buffer (s : memory * buffer) : memory * buffer :=
  (match host_ptr s.2 with Some a => set_held (release (Pinned a)) s.1 | None => s.1 end, empty_buffer).

Definition clear_host (s : memory * buffer) : memory * buffer :=
  match host_ptr s.2 with
  | None => s
  | Some a => (Memory (held s.1) (preferred_node s.1)
                 (fun b i => if (b =? a) && (0 <=? i) && (i <? b_count s.2) then 0 else words s.1 b i), s.2)
  end.

Definition assign (count : Z) (devices : list Z) (s : memory * buffer) : memory * buffer :=
  (s.1, Buffer count (host_ptr s.2) devices (replicate (length devices) None)).

Definition set_prefer (numa_node wanted : Z) (s : memory * buffer) : memory * buffer :=
  if (0 <=? numa_node) && numa_available C then (numa_set_prefer C wanted s.1, s.2) else s.

Definition host_alloc (bytes : Z) : BM unit :=
  match cudaHostAlloc C bytes with
  | inr text => p_throw (RuntimeError text)
  | inl a => p_modify (fun s => (set_held (fun h => Pinned a :: h) s.1,
                                 Buffer (b_count s.2) (Some a) (b_devices s.2) (device_ptrs s.2)))
  end.

Definition set_device_ptr (local_rank : nat) (p : Z) (s : memory * buffer) : memory * buffer :=
  (s.1, Buffer (b_count s.2) (host_ptr s.2) (b_devices s.2) (<[local_rank := Some p]> (device_ptrs s.2))).

Fixpoint map_devices (local_rank : nat) (devices : list Z) : BM unit :=
  match devices with
  | [] => mret tt
  | device :: devices =>
      _ ← check_cuda (cudaSetDevice C device);
      host ← p_gets (fun s => default 0 (host_ptr s.2));
      match cudaHostGetDevicePointer C device host with
      | inr text => p_throw (RuntimeError text)
      | inl p => _ ← p_modify (set_device_ptr local_rank p); map_devices (S local_rank) devices
      end
  end.

Definition reset (count numa_node : Z) (devices : list Z) : BM unit :=
  _ ← p_modify release_buffer;
  if decide (devices = []) then p_throw (RuntimeError (no_devices f)) else
  _ ← p_modify (assign count devices);
  _ ← p_modify (set_prefer numa_node numa_node);
  _ ← host_alloc (u64 (count * element_size f));
  _ ← p_modify (set_prefer numa_node (-1));
  _ ← p_modify (if zeroed f then clear_host else fun s => s);
  map_devices 0 devices.

Definition device_ptr (device : Z) (b : buffer) : res (option Z) :=
  match list_find (fun d => d = device) (b_devices b) with
  | Some (i, _) => Ok (default None (device_ptrs b !! i))
  | None => Throw (RuntimeError (no_pointer f))
  end.

(** [reset] on a member of a larger object, which is destroyed when it throws,
    and the constructor, whose object has no destructor yet. *)
Definition member (m : BM unit) : PM memory buffer := fun s =>
  match m (s, empty_buffer) with
  | ((s', b), Ok _) => (s', Ok b)
  | (s', Throw e) => ((release_buffer s').1, Throw e)
  end.
Definition construct (m : BM unit) : PM memory buffer := fun s =>
  match m (s, empty_buffer) with
  | ((s', b), Ok _) => (s', Ok b)
  | ((s', _), Throw e) => (s', Throw e)
  end.
Definition destroy (b : buffer) (m : memory) : memory := (release_buffer (m, b)).1.
End Mapped.

(** The constructor of [MappedBuffer] and [reset] of the arrays. *)
Definition MappedBuffer_new (C : cuda) (size count numa_node : Z) (devices : list Z) : PM memory buffer :=
  construct (reset (mapped_buffer size) C count numa_node devices).
Definition MappedU64Array_reset (C : cuda) (count numa_node : Z) (devices : list Z) : BM unit :=
  reset mapped_u64_array C count numa_node devices.
Definition MappedU32Array_reset (C : cuda) (count numa_node : Z) (devices : list Z) : BM unit :=
  reset mapped_u32_array C count numa_node devices.

(** ** Invariant *)

Definition owned (b : buffer) : list allocation :=
  match host_ptr b with Some a => [Pinned a] | None => [] end.

(** An object is well formed in a process that holds [others] besides: it owns
    exactly its allocation, there is a device pointer per device, and without
    an allocation all of them are null. *)
Record well_formed (others : list allocation) (s : memory * buffer) : Prop := {
  wf_held : held s.1 ≡ₚ owned s.2 ++ others;
  wf_ptrs : length (device_ptrs s.2) = length (b_devices s.2);
  wf_null : host_ptr s.2 = None -> Forall (fun p => p = None) (device_ptrs s.2) }.

Section MappedFacts.
Context (f : flavour) (C : cuda) (others : list allocation).

Lemma new_well_formed m : held m ≡ₚ others -> well_formed others (m, empty_buffer).
Proof. intros Hm. split; simpl; [done|done|constructor]. Qed.

Lemma release_empties s : well_formed others s ->
  held (release_buffer s).1 ≡ₚ others /\ (release_buffer s).2 = empty_buffer /\
  preferred_node (release_buffer s).1 = preferred_node s.1 /\ words (release_buffer s).1 = words s.1.
Proof.
  intros [Hh _ _]. unfold release_buffer. unfold owned in Hh.
  destruct (host_ptr s.2) as [a|]; simpl; split_and!; try done. by apply release_perm.
Qed.

Lemma release_well_formed s : well_formed others s -> well_formed others (release_buffer s).
Proof.
  intros Hs. destruct (release_empties s Hs) as (Hh & Hb & _ & _).
  destruct (release_buffer s) as [m b]. simpl in *. subst b. by apply new_well_formed.
Qed.

Lemma clear_well_formed s : well_formed others s -> well_formed others (clear_host s).
Proof. intros [Hh Hp Hn]. unfold clear_host. destruct (host_ptr s.2) eqn:E; split; simpl; rewrite ?E; done. Qed.

(** Where [map_devices] has got to: the devices in [past] have their pointers. *)
Record mapped_up_to (a : Z) (past rest : list Z) (s : memory * buffer) : Prop := {
  mu_wf : well_formed others s;
  mu_host : host_ptr s.2 = Some a;
  mu_devices : b_devices s.2 = past ++ rest;
  mu_ptrs i d : past !! i = Some d -> exists p,
    cudaHostGetDevicePointer C d a = inl p /\ device_ptrs s.2 !! i = Some (Some p) }.

Lemma set_pointer_mapped a past d rest p s : cudaHostGetDevicePointer C d a = inl p ->
  mapped_up_to a past (d :: rest) s -> mapped_up_to a (past ++ [d]) rest (set_device_ptr (length past) p s).
Proof.
  intros Hp [[Hh Hl Hn] Hhost Hdev Hptrs].
  assert (length past < length (device_ptrs s.2))%nat as Hlt.
  { rewrite Hl, Hdev, length_app. simpl. lia. }
  split.
  - split; simpl; [done|by rewrite length_insert|by rewrite Hhost].
  - done.
  - simpl. by rewrite Hdev, <- app_assoc.
  - intros i d' [Hi|[-> ->]]%lookup_snoc_Some; simpl.
    + destruct (Hptrs i d' (proj2 Hi)) as (q & Hq & Hi'). exists q. split; [done|].
      rewrite list_lookup_insert_ne by lia. done.
    + exists p. split; [done|]. by apply list_lookup_insert_eq.
Qed.

(** The part of a state that mapping pointers does not change. *)
Definition same_memory (m : memory) (s : memory * buffer) : Prop := s.1 = m.

Lemma map_devices_spec a m rest : forall past,
  spec (fun s => mapped_up_to a past rest s /\ s.1 = m) (map_devices C (length past) rest)
    (fun s => well_formed others s /\ host_ptr s.2 = Some a)
    (fun _ s => mapped_up_to a (past ++ rest) [] s /\ s.1 = m).
Proof.
  induction rest as [|d rest IH]; intros past.
  - apply spec_ret. intros s Hs. by rewrite app_nil_r.
  - simpl. eapply spec_bind.
    { instantiate (1 := fun _ s => mapped_up_to a past (d :: rest) s /\ s.1 = m).
      unfold check_cuda. destruct (cudaSetDevice C d); [apply spec_throw|apply spec_ret; done].
      intros x [[] ?]. done. }
    intros u s [Hs Hm]. unfold mbind, PM_bind, p_gets. rewrite (mu_host _ _ _ _ Hs). simpl.
    destruct (cudaHostGetDevicePointer C d a) as [p|text] eqn:Hp; [|by destruct Hs].
    specialize (IH (past ++ [d])). rewrite <- app_assoc, length_app, Nat.add_1_r in IH. apply IH.
    split; [by apply set_pointer_mapped|done].
Qed.
End MappedFacts.

(** ** What the operations do *)

Section Operations.
Context (f : flavour) (C : cuda).

(** The preferred node after a preference has been set and taken back. *)
Definition restored (numa_node node : Z) : Z :=
  if (0 <=? numa_node) && numa_available C then -1 else node.

(** What a successful [reset] leaves, started in memory [m]. *)
Record mapped (others : list allocation) (count numa_node : Z) (devices : list Z) (m : memory)
    (s : memory * buffer) : Prop := {
  mp_wf : well_formed others s;
  mp_alloc a : host_ptr s.2 = Some a -> cudaHostAlloc C (u64 (count * element_size f)) = inl a;
  mp_pointer d : d ∈ devices -> exists a p, host_ptr s.2 = Some a /\
    cudaHostGetDevicePointer C d a = inl p /\ device_ptr f d s.2 = Ok (Some p);
  mp_other d : d ∉ devices -> device_ptr f d s.2 = Throw (RuntimeError (no_pointer f));
  mp_zero a i : zeroed f = true -> host_ptr s.2 = Some a -> 0 <= i < count -> words s.1 a i = 0;
  mp_frame b i : host_ptr s.2 <> Some b -> words s.1 b i = words m b i;
  mp_node : preferred_node s.1 = restored numa_node (preferred_node m) }.

Lemma device_ptr_mapped others a devices s d : mapped_up_to C others a devices [] s -> d ∈ devices ->
  exists p, cudaHostGetDevicePointer C d a = inl p /\ device_ptr f d s.2 = Ok (Some p).
Proof.
  intros [_ _ Hd Hp] Hin. rewrite app_nil_r in Hd. unfold device_ptr. rewrite Hd.
  destruct (list_find_elem_of (fun x => x = d) devices d Hin eq_refl) as [[i x] Hi].
  rewrite Hi. apply list_find_Some in Hi as (Hi & -> & _).
  destruct (Hp i d Hi) as (p & Hq & Hptr). exists p. by rewrite Hptr.
Qed.

Lemma device_ptr_other others a devices s d : mapped_up_to C others a devices [] s -> d ∉ devices ->
  device_ptr f d s.2 = Throw (RuntimeError (no_pointer f)).
Proof.
  intros [_ _ Hd _] Hin. rewrite app_nil_r in Hd. unfold device_ptr. rewrite Hd.
  destruct (list_find _ devices) as [[i x]|] eqn:Hi; [|done].
  apply list_find_Some in Hi as (Hi & -> & _). by apply list_elem_of_lookup_2 in Hi.
Qed.

Lemma set_prefer_eq numa_node wanted s : set_prefer C numa_node wanted s =
  (Memory (held s.1) (if (0 <=? numa_node) && numa_available C then wanted else preferred_node s.1)
     (words s.1), s.2).
Proof.
  unfold set_prefer, numa_set_prefer. destruct s as [[h n w] b]. simpl.
  by destruct (0 <=? numa_node), (numa_available C).
Qed.

(** After the allocation and zeroing. *)
Lemma zeroed_mapped others m count a devices : held m ≡ₚ others ->
  let b := Buffer count (Some a) devices (replicate (length devices) None) in
  let s := (if zeroed f then clear_host else fun s => s) (set_held (fun h => Pinned a :: h) m, b) in
  mapped_up_to C others a [] devices s /\ s.2 = b /\ preferred_node s.1 = preferred_node m /\
  (zeroed f = true -> forall i, 0 <= i < count -> words s.1 a i = 0) /\
  (forall x i, x <> a -> words s.1 x i = words m x i).
Proof.
  intros Hm b s.
  assert (well_formed others (set_held (fun h => Pinned a :: h) m, b)) as Hwf.
  { split; simpl; [by rewrite Hm|by rewrite length_replicate|done]. }
  unfold s. destruct (zeroed f).
  - pose proof (clear_well_formed _ _ Hwf) as Hwf'. split_and!; [split; [done..|] | done|done| |].
    + by intros i d Hi; rewrite lookup_nil in Hi.
    + intros _ i Hi. simpl. rewrite Z.eqb_refl, (proj2 (Z.leb_le _ _)), (proj2 (Z.ltb_lt _ _)) by lia. done.
    + intros x i Hx. simpl. by rewrite (proj2 (Z.eqb_neq _ _)) by done.
  - split_and!; [split; [done..|]| done..]. by intros i d Hi; rewrite lookup_nil in Hi.
Qed.

Lemma reset_spec others m0 count numa_node devices :
  spec (fun s => well_formed others s /\ s.1 = m0) (reset f C count numa_node devices)
    (fun s => well_formed others s /\ forall a, host_ptr s.2 = Some a ->
       cudaHostAlloc C (u64 (count * element_size f)) = inl a)
    (fun _ s => devices <> [] /\ mapped others count numa_node devices m0 s).
Proof.
  intros s [Hs Hnode]. unfold reset. destruct (release_empties others s Hs) as (Hh & Hb & Hp & Hw).
  destruct (release_buffer s) as [m b] eqn:Hr. simpl in Hh, Hb, Hp, Hw. rewrite Hnode in Hp, Hw. subst b.
  unfold mbind, PM_bind, p_modify at 1. cbn beta iota. rewrite Hr.
  destruct (decide (devices = [])) as [->|Hne]; [by split; [apply new_well_formed|]|].
  unfold p_modify, assign, host_alloc. rewrite set_prefer_eq. cbn [fst snd b_count host_ptr empty_buffer].
  destruct (cudaHostAlloc C (u64 (count * element_size f))) as [a|text] eqn:Ha; unfold p_throw.
  2: { split; [|done]. split; simpl; [done|by rewrite length_replicate|]. intros _. by apply Forall_replicate. }
  unfold p_modify. cbn beta iota. rewrite set_prefer_eq. cbn [fst snd b_count b_devices device_ptrs set_held held preferred_node words].
  set (m1 := Memory (held m) (restored numa_node (preferred_node m0)) (words m)).
  destruct (zeroed_mapped others m1 count a devices Hh) as (Hmap & Hb & Hn & Hz & Hfr).
  assert (forall x : Z, (if (0 <=? numa_node) && numa_available C then -1
    else if (0 <=? numa_node) && numa_available C then x else preferred_node m) = restored numa_node (preferred_node m0)) as ->.
  { intros x. unfold restored. rewrite Hp. by destruct (_ && _). }
  change (Memory (Pinned a :: held m) (restored numa_node (preferred_node m0)) (words m))
    with (set_held (fun h => Pinned a :: h) m1).
  set (s1 := (if zeroed f then _ else _) _) in *.
  pose proof (map_devices_spec C others a s1.1 devices [] s1 (conj Hmap eq_refl)) as Hd.
  change (length (@nil Z)) with 0%nat in Hd.
  destruct (map_devices C 0 devices s1) as [s2 [u|e]].
  2: { destruct Hd as [Hwf Hhost]. split; [done|]. intros a' Ha'. rewrite Hhost in Ha'. congruence. }
  destruct Hd as [Hd Hs1]. cbn [app] in Hd. split; [done|]. split.
  - by destruct Hd.
  - intros a' Ha'. rewrite (mu_host _ _ _ _ _ _ Hd) in Ha'. congruence.
  - intros d Hin. destruct (device_ptr_mapped others a devices s2 d Hd Hin) as (p & Hq & Hptr).
    exists a, p. split; [by apply (mu_host _ _ _ _ _ _ Hd)|done].
  - intros d Hin. by eapply device_ptr_other.
  - intros a' i Hzero Ha'. rewrite (mu_host _ _ _ _ _ _ Hd) in Ha'. injection Ha' as <-.
    rewrite Hs1. by apply Hz.
  - intros x i Hx. rewrite (mu_host _ _ _ _ _ _ Hd) in Hx. rewrite Hs1, Hfr by congruence. simpl. by rewrite Hw.
  - by rewrite Hs1, Hn.
Qed.
End Operations.

(** ** Any sequence of member calls *)

Inductive buffer_op := Reset (count numa_node : Z) (devices : list Z) | Release | ClearHost.

(** A caller may catch what [reset] throws and go on. *)
Definition run_op (f : flavour) (C : cuda) (op : buffer_op) (s : memory * buffer) : memory * buffer :=
  match op with
  | Reset count numa_node devices => (reset f C count numa_node devices s).1
  | Release => release_buffer s
  | ClearHost => clear_host s
  end.
Definition run_ops (f : flavour) (C : cuda) (ops : list buffer_op) (s : memory * buffer) : memory * buffer :=
  foldl (fun s op => run_op f C op s) s ops.

Lemma run_op_well_formed f C others op s :
  well_formed others s -> well_formed others (run_op f C op s).
Proof.
  intros Hs. destruct op as [count numa_node devices| |]; simpl;
    [|by apply release_well_formed|by apply clear_well_formed].
  pose proof (reset_spec f C others s.1 count numa_node devices s (conj Hs eq_refl)) as Hr.
  destruct (reset f C count numa_node devices s) as [s' [u|e]]; simpl; [|by destruct Hr].
  by destruct Hr as [_ []].
Qed.

(** C32: Mapped buffers stay well formed: whatever sequence of [reset],
    [release] and [clear_host] is called, with whatever failures on the way, the
    object owns exactly one allocation or none, it has a pointer per device
    which is null without an allocation, and destroying it gives back
    everything it has ever allocated. *)
Theorem buffers_well_formed f C others ops s : well_formed others s ->
  well_formed others (run_ops f C ops s) /\
  held (destroy (run_ops f C ops s).2 (run_ops f C ops s).1) ≡ₚ others.
Proof.
  intros Hs. assert (well_formed others (run_ops f C ops s)) as Ho.
  { revert s Hs. induction ops as [|op ops IH]; intros s Hs; [done|]. by apply IH, run_op_well_formed. }
  split; [done|]. unfold destroy. rewrite <- surjective_pairing. by apply release_empties.
Qed.

(** ** Objects under construction *)

Section Construction.
Context (f : flavour) (C : cuda) (others : list allocation).

(** What a new object is when its [reset] has returned. *)
Definition made (count numa_node : Z) (devices : list Z) (m0 : memory) (b : buffer) (m : memory) : Prop :=
  exists a, host_ptr b = Some a /\ held m ≡ₚ Pinned a :: others /\
    mapped f C others count numa_node devices m0 (m, b).

Lemma new_reset m count numa_node devices : held m ≡ₚ others ->
  match reset f C count numa_node devices (m, empty_buffer) with
  | (s, Ok _) => made count numa_node devices m s.2 s.1
  | (s, Throw _) => well_formed others s /\ forall a, host_ptr s.2 = Some a ->
      cudaHostAlloc C (u64 (count * element_size f)) = inl a
  end.
Proof.
  intros Hm. pose proof (reset_spec f C others m count numa_node devices
    (m, empty_buffer) (conj (new_well_formed _ _ Hm) eq_refl)) as Hr.
  destruct (reset _ _ _ _ _ _) as [[m' b] [u|e]]; [|done]. destruct Hr as [Hne Hr].
  destruct devices as [|d devices]; [done|].
  destruct (mp_pointer _ _ _ _ _ _ _ _ Hr d ltac:(left)) as (a & p & Ha & _). simpl in Ha.
  exists a. split; [done|]. split; [|done].
  destruct (mp_wf _ _ _ _ _ _ _ _ Hr) as [Hh _ _]. unfold owned in Hh. simpl in Hh |- *.
  by rewrite Ha in Hh.
Qed.

Lemma member_spec m0 count numa_node devices :
  spec (fun m => m = m0 /\ held m ≡ₚ others) (member (reset f C count numa_node devices))
    (fun m => held m ≡ₚ others) (fun b m => made count numa_node devices m0 b m).
Proof.
  intros m [<- Hm]. pose proof (new_reset m count numa_node devices Hm) as Hr. unfold member.
  destruct (reset _ _ _ _ _ _) as [[m' b] [u|e]]; [done|]. destruct Hr. by apply release_empties.
Qed.

(** The constructor leaks the allocation when mapping a device fails. *)
Definition leaked (count : Z) (m : memory) : Prop :=
  exists a, cudaHostAlloc C (u64 (count * element_size f)) = inl a /\ held m ≡ₚ Pinned a :: others.

Lemma construct_spec m0 count numa_node devices :
  spec (fun m => m = m0 /\ held m ≡ₚ others) (construct (reset f C count numa_node devices))
    (fun m => held m ≡ₚ others \/ leaked count m) (fun b m => made count numa_node devices m0 b m).
Proof.
  intros m [<- Hm]. pose proof (new_reset m count numa_node devices Hm) as Hr. unfold construct.
  destruct (reset _ _ _ _ _ _) as [[m' b] [u|e]]; [done|]. destruct Hr as [[Hh _ _] Ha].
  unfold owned in Hh. simpl in *. destruct (host_ptr b) as [a|]; [right; exists a; auto|by left].
Qed.
End Construction.

(** ** The storage of a socket channel *)

(** What a channel of a socket edge end is stored in. *)
Record socket_resources := SocketResources {
  sr_fifo : buffer; sr_control : buffer; sr_payload_bytes : buffer }.

(** [gpu_numa_node]: the properties of the device and the file in sysfs, which
    may be missing or not hold a number. *)
Definition gpu_numa_node (properties : Z -> option Z) (numa_node_file : Z -> option (option Z)) (gpu : Z) : Z :=
  match properties gpu with
  | None => 0
  | Some pci =>
      match numa_node_file pci with
      | None => 0
      | Some scanned => let node := default 0 scanned in if node <? 0 then 0 else node
      end
  end.

Section Channel.
Context `{BuildConfig} (C : cuda) (devices : list Z) (numa : Z -> Z).   (* gpu_numa_node *)

Definition make_socket_resources (device : Z) : PM memory socket_resources :=
  fifo ← MappedBuffer_new C 1 kFifoBytes (numa device) devices;
  p_unwind (destroy fifo) (
    control ← member (MappedU64Array_reset C 2 (numa device) devices);
    p_unwind (destroy control) (
      payload_bytes ← member (MappedU32Array_reset C kFifoSteps (numa device) devices);
      mret (SocketResources fifo control payload_bytes))).

Lemma destroy_made f count node others m0 b m : made f C others count node devices m0 b m ->
  held (destroy b m) ≡ₚ others.
Proof. intros (a & Ha & Hh & _). unfold destroy, release_buffer. simpl. rewrite Ha. by apply release_perm. Qed.

Lemma made_pointers f count node others m0 b m : made f C others count node devices m0 b m ->
  exists a, host_ptr b = Some a /\ held m ≡ₚ Pinned a :: others /\
    (forall d, d ∈ devices -> exists p,
       cudaHostGetDevicePointer C d a = inl p /\ device_ptr f d b = Ok (Some p)) /\
    (zeroed f = true -> forall i, 0 <= i < count -> words m a i = 0) /\
    (forall x i, x <> a -> words m x i = words m0 x i).
Proof.
  intros (a & Ha & Hh & []). exists a. split_and!; try done.
  - intros d Hd. destruct (mp_pointer0 d Hd) as (a' & p & Ha' & Hp). simpl in *. exists p. congruence.
  - intros Hz i Hi. by apply mp_zero0.
  - intros x i Hx. apply mp_frame0. simpl. congruence.
Qed.

(** The storage of a socket channel is made or not made.  Either three
    blocks are held, mapped to every local device, with control words and
    payload sizes zero; or an exception is thrown and nothing is held, except
    in one case: when the FIFO has been allocated and a device does not map it,
    the constructor of the buffer throws and the FIFO stays allocated, with no
    object to free it. *)
Theorem socket_resources_made others m device : held m ≡ₚ others ->
  match make_socket_resources device m with
  | (m', Ok r) => exists a b c, held m' ≡ₚ Pinned c :: Pinned b :: Pinned a :: others /\
      host_ptr (sr_fifo r) = Some a /\ host_ptr (sr_control r) = Some b /\
      host_ptr (sr_payload_bytes r) = Some c /\
      (forall d, d ∈ devices -> exists p q s,
         cudaHostGetDevicePointer C d a = inl p /\ device_ptr (mapped_buffer 1) d (sr_fifo r) = Ok (Some p) /\
         cudaHostGetDevicePointer C d b = inl q /\ device_ptr mapped_u64_array d (sr_control r) = Ok (Some q) /\
         cudaHostGetDevicePointer C d c = inl s /\ device_ptr mapped_u32_array d (sr_payload_bytes r) = Ok (Some s)) /\
      (b <> c -> forall i, 0 <= i < 2 -> words m' b i = 0) /\
      (forall i, 0 <= i < kFifoSteps -> words m' c i = 0)
  | (m', Throw _) => held m' ≡ₚ others \/ leaked (mapped_buffer 1) C others kFifoBytes m'
  end.
Proof.
  intros Hm. unfold make_socket_resources, MappedBuffer_new, MappedU64Array_reset, MappedU32Array_reset.
  unfold mbind, PM_bind, p_unwind.
  pose proof (construct_spec (mapped_buffer 1) C others m kFifoBytes (numa device) devices m (conj eq_refl Hm)) as H1.
  destruct (construct _ m) as [m1 [fifo|e]]; [|done].
  destruct (made_pointers _ _ _ _ _ _ _ H1) as (a & Ha & Hh1 & Hp1 & _ & _).
  pose proof (member_spec mapped_u64_array C (Pinned a :: others) m1 2 (numa device) devices m1 (conj eq_refl Hh1)) as H2.
  destruct (member (reset mapped_u64_array _ _ _ _) m1) as [m2 [control|e]].
  2: { left. unfold destroy, release_buffer. simpl. rewrite Ha. by apply release_perm. }
  destruct (made_pointers _ _ _ _ _ _ _ H2) as (b & Hb & Hh2 & Hp2 & Hz2 & _).
  pose proof (member_spec mapped_u32_array C (Pinned b :: Pinned a :: others) m2 kFifoSteps (numa device) devices m2 (conj eq_refl Hh2)) as H3.
  destruct (member (reset mapped_u32_array _ _ _ _) m2) as [m3 [payload|e]].
  2: { left. unfold destroy, release_buffer. simpl. rewrite Ha, Hb. by apply release_perm, release_perm. }
  destruct (made_pointers _ _ _ _ _ _ _ H3) as (c & Hc & Hh3 & Hp3 & Hz3 & Hfr).
  exists a, b, c. split_and!; try done.
  - intros d Hd. destruct (Hp1 d Hd) as (p & ? & ?), (Hp2 d Hd) as (q & ? & ?), (Hp3 d Hd) as (r & ? & ?).
    by exists p, q, r.
  - intros Hne i Hi. rewrite Hfr by congruence. by apply Hz2.
  - intros i Hi. by apply Hz3.
Qed.
End Channel.

(** ** Two failures *)

(** The preference for a NUMA node is taken back only when the allocation
    succeeds: after a failure the thread goes on preferring that node. *)
Theorem preference_kept f C others m count numa_node device devices text :
  well_formed others (m, empty_buffer) -> 0 <= numa_node -> numa_available C = true ->
  cudaHostAlloc C (u64 (count * element_size f)) = inr text ->
  exists s, reset f C count numa_node (device :: devices) (m, empty_buffer) = (s, Throw (RuntimeError text)) /\
    preferred_node s.1 = numa_node.
Proof.
  intros Hs Hn Hnuma Ha. unfold reset, mbind, PM_bind, p_modify, host_alloc. simpl.
  unfold set_prefer, numa_set_prefer. rewrite (proj2 (Z.leb_le _ _) Hn), Hnuma. simpl.
  rewrite Ha. eexists. split; [done|]. done.
Qed.

Module BufferWitness.
#[local] Existing Instance small_config.

(** Device 1 does not map host memory; [tight] has no host memory. *)
Definition cuda_ok : cuda := Cuda (fun _ => None) (fun n => inl (n + 4096))
  (fun d p => inl (100000 * (d + 1) + p)) (fun _ n => inl n) true.
Definition no_mapping : cuda := Cuda (fun _ => None) (fun n => inl (n + 4096))
  (fun d p => if d =? 1 then inr "CUDA error: invalid device" else inl p) (fun _ n => inl n) true.
Definition tight : cuda := Cuda (fun _ => None) (fun n => inr "CUDA error: out of memory")
  (fun d p => inl p) (fun _ n => inl n) true.
Definition start : memory := Memory [Pinned 7] (-1) (fun a i => a + i).

Lemma start_wf : well_formed [Pinned 7] (start, empty_buffer).
Proof. by apply new_well_formed. Qed.

Definition calls : list buffer_op :=
  [Reset 4 0 [0; 1]; ClearHost; Reset 2 0 []; Release; Reset 8 (-1) [0]].

Lemma buffers_well_formed_witness :
  well_formed [Pinned 7] (run_ops mapped_u64_array no_mapping calls (start, empty_buffer)) /\
  held (destroy (run_ops mapped_u64_array no_mapping calls (start, empty_buffer)).2
          (run_ops mapped_u64_array no_mapping calls (start, empty_buffer)).1) ≡ₚ [Pinned 7].
Proof. apply (buffers_well_formed mapped_u64_array no_mapping [Pinned 7] calls). apply start_wf. Defined.

Lemma socket_resources_made_witness :
  match make_socket_resources cuda_ok [0; 1] (gpu_numa_node Some (fun _ => Some (Some 1))) 0 start with
  | (m', Ok r) => exists a b c, held m' ≡ₚ Pinned c :: Pinned b :: Pinned a :: [Pinned 7] /\
      host_ptr (sr_fifo r) = Some a /\ host_ptr (sr_control r) = Some b /\
      host_ptr (sr_payload_bytes r) = Some c
  | (_, Throw _) => False
  end.
Proof.
  pose proof (socket_resources_made cuda_ok [0; 1] (gpu_numa_node Some (fun _ => Some (Some 1)))
    [Pinned 7] start 0 (reflexivity _)) as H.
  destruct (make_socket_resources _ _ _ _ _) as [m' [r|e]] eqn:E; [|vm_compute in E; done].
  destruct H as (a & b & c & Hh & Ha & Hb & Hc & _). exists a, b, c. done.
Defined.

(** The FIFO stays allocated. *)
Example fifo_leaks :
  let out := make_socket_resources no_mapping [0; 1] (fun _ => 0) 0 start in
  (held out.1, out.2) = ([Pinned 5120; Pinned 7], Throw (RuntimeError "CUDA error: invalid device")).
Proof. vm_compute. reflexivity. Qed.

Lemma preference_kept_witness :
  exists s, reset mapped_u64_array tight 2 1 [0; 1] (start, empty_buffer)
      = (s, Throw (RuntimeError "CUDA error: out of memory")) /\ preferred_node s.1 = 1.
Proof.
  apply (preference_kept mapped_u64_array tight [Pinned 7] start 2 1 0 [1]); [apply start_wf|lia|done|done].
Defined.
End BufferWitness.
