(* ===== verification/Handles.v ===== *)
(** * Objects that own CUDA and system handles

    The remaining classes of src/core/buffer.h, [RegisteredMappedBuffer] (also
    src/core/buffer.cu) and [PinnedBuffer], and those of src/core/stream.h:
    [Stream], [Event], [GraphExec] and [BatchGraphExec].

    What they have in common is the class [Owner]: an object owns handles, and
    [release], which its destructor runs, gives exactly those back. *)

From Stdlib Require Import ZArith Lia.
From stdpp Require Import base option numbers tactics strings list.
From S2P Require Import Prelude Types Resources InterProcess.

#[local] Open Scope Z_scope.

(** ** Handles, calls, owners *)

Inductive handle :=
| Descriptor (fd : Z)
| Mapping (pointer bytes : Z)
| Registration (pointer : Z)
| HostMemory (pointer : Z)
| StreamHandle (stream : Z)
| EventHandle (event : Z)
| GraphHandle (graph : Z)
| ExecHandle (exec : Z).
#[export] Instance handle_eq_dec : EqDecision handle.
Proof. solve_decision. Defined.

(** Errors are the text of [strerror] or of [cudaGetErrorString]. *)
Record system := System {
  page_size : Z;                                   (* sysconf(_SC_PAGESIZE) *)
  mkstemp : list handle -> Z * string;             (* given what is held; strerror(errno) *)
  ftruncate : Z -> Z -> option string;
  mmap : Z -> Z -> Z + string;                     (* descriptor, bytes *)
  cudaSetDevice : Z -> option string;
  cudaHostRegister : Z -> Z -> option string;
  cudaHostGetDevicePointer : Z -> Z -> Z + string; (* device, host pointer *)
  cudaHostAlloc : Z -> Z -> Z + string;            (* bytes, flags *)
  cudaStreamCreate : Z -> Z + string;              (* device *)
  cudaEventCreate : Z -> Z + string }.

(** What a process holds, and the bytes of its host memory. *)
Record store := Store { handles : list handle; contents : Z -> Z }.
Definition set_handles (f : list handle -> list handle) (s : store) : store :=
  Store (f (handles s)) (contents s).

Class Owner (T : Type) := {
  owned : T -> list handle;
  release_object : store * T -> store * T;
  released_law s others : handles s.1 ≡ₚ owned s.2 ++ others ->
    handles (release_object s).1 ≡ₚ others /\ owned (release_object s).2 = [] }.

(** An object in a process that holds [others] besides. *)
Definition owns `{Owner T} (others : list handle) (s : store * T) : Prop :=
  handles s.1 ≡ₚ owned s.2 ++ others.

(** Leaving the scope of an object. *)
Definition destroy `{Owner T} (s : store * T) : store := (release_object s).1.

Section OwnerFacts.
Context {T : Type} {HT : Owner T}.

(** A member function that keeps ownership however it ends. *)
Definition keeps {A} (m : PM (store * T) A) : Prop :=
  forall others, spec (owns others) m (owns others) (fun _ => owns others).

Definition run_calls (ms : list (PM (store * T) unit)) (s : store * T) : store * T :=
  foldl (fun s m => (m s).1) s ms.

Lemma release_owns others s : owns others s -> owns others (release_object s).
Proof. intros Hs. destruct (released_law s others Hs) as [Hh Ho]. unfold owns. by rewrite Ho. Qed.

Lemma owner_release : keeps (p_modify release_object).
Proof. intros others. apply spec_modify, release_owns. Qed.

Lemma owner_bind {A B} (m : PM (store * T) A) (f : A -> PM (store * T) B) :
  keeps m -> (forall a, keeps (f a)) -> keeps (m ≫= f).
Proof. intros Hm Hf others. eapply spec_bind; [apply Hm|intros a; apply Hf]. Qed.

Lemma owner_check answer : keeps (check_cuda answer).
Proof. intros others. apply check_cuda_spec. Qed.

Lemma owner_throw {A} e : keeps (p_throw (A := A) e).
Proof. intros others. by apply spec_throw. Qed.

Lemma owner_ret {A} (a : A) : keeps (mret a).
Proof. intros others. by apply spec_ret. Qed.

Lemma owner_modify f : (forall others s, owns others s -> owns others (f s)) -> keeps (p_modify f).
Proof. intros Hf others. apply spec_modify. intros s. apply Hf. Qed.

(** After any calls, failed or not, destroying the object gives back all it has
    ever acquired. *)
Theorem owner_releases others ms s : Forall keeps ms -> owns others s ->
  owns others (run_calls ms s) /\ handles (destroy (run_calls ms s)) ≡ₚ others.
Proof.
  intros Hms Hs. assert (owns others (run_calls ms s)) as Ho.
  { revert s Hs. induction Hms as [|m ms Hm _ IH]; intros s Hs; [done|]. apply IH.
    specialize (Hm others s Hs). by destruct (m s) as [s' [u|e]]. }
  split; [done|]. by apply released_law.
Qed.
End OwnerFacts.

Create HintDb owner.
#[export] Hint Resolve owner_release owner_bind owner_check owner_throw owner_ret : owner.

(** ** Registered shared memory *)

Record registered := Registered {
  rg_count : Z; map_bytes : Z; rg_fd : Z; is_registered : bool;
  rg_host : option Z; rg_device_ptrs : list (option Z) }.

Abbreviation RM := (PM (store * registered)).

Section RegisteredMappedBuffer.
Context `{BuildConfig} (C : system).

Definition null_ptrs : list (option Z) := replicate (Z.to_nat kRanks) None.
Definition new_registered : registered := Registered 0 0 (-1) false None null_ptrs.

Definition registered_owned (b : registered) : list handle :=
  (if is_registered b then match rg_host b with Some p => [Registration p] | None => [] end else []) ++
  match rg_host b with Some p => [Mapping p (map_bytes b)] | None => [] end ++
  (if 0 <=? rg_fd b then [Descriptor (rg_fd b)] else []).

(** [release]: [cudaHostUnregister], [munmap], [close]. *)
Definition release_registered (s : store * registered) : store * registered :=
  let b := s.2 in
  let h := handles s.1 in
  let h := if is_registered b then match rg_host b with Some p => release (Registration p) h | None => h end else h in
  let h := match rg_host b with Some p => release (Mapping p (map_bytes b)) h | None => h end in
  let h := if 0 <=? rg_fd b then release (Descriptor (rg_fd b)) h else h in
  (Store h (contents s.1), Registered 0 0 (if 0 <=? rg_fd b then -1 else rg_fd b) false None null_ptrs).

#[export, program] Instance registered_owner : Owner registered := {|
  owned := registered_owned; release_object := release_registered |}.
Next Obligation.
  intros [[h w] b] others Hh. unfold registered_owned in *. simpl in *. split.
  - destruct (is_registered b), (rg_host b) as [p|], (0 <=? rg_fd b); simpl in *;
      repeat (apply release_perm || done).
  - destruct (Z.leb_spec 0 (rg_fd b)) as [|Hfd]; simpl; [done|].
    by rewrite (proj2 (Z.leb_gt _ _) Hfd).
Qed.

Definition round_up (value alignment : Z) : Z := u64 (u64 (value + alignment - 1) / alignment * alignment).

Definition throw_errno {A} (call text : string) : RM A :=
  p_throw (RuntimeError (snprintf 256 (call +:+ " failed: " +:+ text))).

Definition set_size (count bytes : Z) (s : store * registered) : store * registered :=
  (s.1, let b := s.2 in Registered count bytes (rg_fd b) (is_registered b) (rg_host b) (rg_device_ptrs b)).

Definition open_file : RM unit := fun s =>
  let '(fd, text) := mkstemp C (handles s.1) in
  let b := s.2 in
  let b := Registered (rg_count b) (map_bytes b) fd (is_registered b) (rg_host b) (rg_device_ptrs b) in
  if fd <? 0 then throw_errno "mkstemp(/dev/shm/nano-nccl-XXXXXX)" text (s.1, b)
  else ((set_handles (fun h => Descriptor fd :: h) s.1, b), Ok tt).

Definition size_file : RM unit := fun s =>
  match ftruncate C (rg_fd s.2) (map_bytes s.2) with
  | Some text => throw_errno "ftruncate" text s
  | None => (s, Ok tt)
  end.

(** [mmap] and [memset]. *)
Definition map_file : RM Z := fun s =>
  let b := s.2 in
  match mmap C (rg_fd b) (map_bytes b) with
  | inr text => throw_errno "mmap" text s
  | inl p =>
      ((Store (Mapping p (map_bytes b) :: handles s.1)
          (fun i => if (p <=? i) && (i <? p + map_bytes b) then 0 else contents s.1 i),
        Registered (rg_count b) (map_bytes b) (rg_fd b) (is_registered b) (Some p) (rg_device_ptrs b)), Ok p)
  end.

Definition register_host (p : Z) : RM unit := fun s =>
  let b := s.2 in
  match cudaHostRegister C p (map_bytes b) with
  | Some text => (s, Throw (RuntimeError text))
  | None => ((set_handles (fun h => Registration p :: h) s.1,
              Registered (rg_count b) (map_bytes b) (rg_fd b) true (rg_host b) (rg_device_ptrs b)), Ok tt)
  end.

Definition set_ptrs (ptrs : list (option Z)) (b : registered) : registered :=
  Registered (rg_count b) (map_bytes b) (rg_fd b) (is_registered b) (rg_host b) ptrs.

Fixpoint device_pointers (p : Z) (devs : list Z) : RM unit :=
  match devs with
  | [] => mret tt
  | dev :: devs =>
      _ ← check_cuda (cudaSetDevice C dev);
      match cudaHostGetDevicePointer C dev p with
      | inr text => p_throw (RuntimeError text)
      | inl q =>
          _ ← p_modify (fun s => (s.1, set_ptrs (<[Z.to_nat dev := Some q]> (rg_device_ptrs s.2)) s.2));
          device_pointers p devs
      end
  end.

Definition reset_registered (count : Z) : RM unit :=
  _ ← p_modify release_registered;
  _ ← p_modify (set_size count 0);
  if page_size C <=? 0 then p_throw (RuntimeError "sysconf(_SC_PAGESIZE) failed") else
  _ ← p_modify (set_size count (round_up (u64 (count * 4)) (page_size C)));
  _ ← open_file;
  _ ← size_file;
  p ← map_file;
  _ ← check_cuda (cudaSetDevice C 0);
  _ ← register_host p;
  device_pointers p (zrange kRanks).

Definition registered_device_ptr (dev : Z) (b : registered) : option Z :=
  default None (rg_device_ptrs b !! Z.to_nat dev).

(** *** What [reset] leaves *)

(** The size is the least multiple of the page size that holds the elements. *)
Lemma round_up_spec value alignment : 0 < alignment -> 0 <= value -> value + alignment <= 2 ^ 64 ->
  value <= round_up value alignment < value + alignment /\ (alignment | round_up value alignment).
Proof.
  intros Ha Hv Hb. unfold round_up. rewrite (u64_small (value + alignment - 1)) by lia.
  pose proof (Z.div_mod (value + alignment - 1) alignment ltac:(lia)) as Hd.
  pose proof (Z.mod_pos_bound (value + alignment - 1) alignment ltac:(lia)).
  rewrite u64_small by nia. split; [nia|]. apply Z.divide_factor_r.
Qed.

Lemma device_pointers_spec st b p devs : forall past, zrange kRanks = past ++ devs ->
  spec (fun s => exists ptrs, s = (st, set_ptrs ptrs b) /\ length ptrs = Z.to_nat kRanks /\
          forall d, d ∈ past -> exists q, cudaHostGetDevicePointer C d p = inl q /\ ptrs !! Z.to_nat d = Some (Some q))
    (device_pointers p devs)
    (fun s => exists ptrs, s = (st, set_ptrs ptrs b))
    (fun _ s => exists ptrs, s = (st, set_ptrs ptrs b) /\ length ptrs = Z.to_nat kRanks /\
          forall d, 0 <= d < kRanks -> exists q, cudaHostGetDevicePointer C d p = inl q /\ ptrs !! Z.to_nat d = Some (Some q)).
Proof.
  induction devs as [|dev devs IH]; intros past Hz; simpl.
  { apply spec_ret. intros s (ptrs & -> & Hl & Hp). exists ptrs. split; [done|]. split; [done|].
    intros d Hd. apply Hp. rewrite app_nil_r in Hz. rewrite <- Hz. by apply elem_of_zrange. }
  destruct (zrange_split _ _ _ _ Hz) as (Hpast & Hdev & _).
  intros s (ptrs & -> & Hl & Hp). unfold mbind, PM_bind, check_cuda.
  destruct (cudaSetDevice C dev); [by exists ptrs|]. cbn beta iota.
  destruct (cudaHostGetDevicePointer C dev p) as [q|text] eqn:Hq; [|by exists ptrs].
  unfold p_modify. cbn [fst snd set_ptrs rg_device_ptrs].
  apply (IH (past ++ [dev])); [by rewrite <- app_assoc|].
  exists (<[Z.to_nat dev := Some q]> ptrs). split; [done|]. split; [by rewrite length_insert|].
  intros d [Hd| ->%list_elem_of_singleton]%elem_of_app.
  - destruct (Hp d Hd) as (q' & Hq' & Hd'). exists q'. split; [done|].
    rewrite Hpast in Hd. apply elem_of_zrange in Hd. rewrite list_lookup_insert_ne by lia. done.
  - exists q. split; [done|]. apply list_lookup_insert_eq. lia.
Qed.

(** A buffer that is ready: it has the size asked for in whole pages, its
    memory is registered and zero, and every device has its pointer. *)
Definition ready (count : Z) (s : store * registered) : Prop :=
  rg_count s.2 = count /\ map_bytes s.2 = round_up (u64 (count * 4)) (page_size C) /\
  exists p, rg_host s.2 = Some p /\ is_registered s.2 = true /\
    (forall i, p <= i < p + map_bytes s.2 -> contents s.1 i = 0) /\
    forall d, 0 <= d < kRanks -> exists q,
      cudaHostGetDevicePointer C d p = inl q /\ registered_device_ptr d s.2 = Some q.

Lemma release_registered_shape others s : owns others s -> exists h fd, h ≡ₚ others /\ fd < 0 /\
  release_registered s = (Store h (contents s.1), Registered 0 0 fd false None null_ptrs).
Proof.
  intros Hs. destruct (released_law s others Hs) as [Hh _]. unfold release_registered in *. simpl in Hh.
  eexists _, _. split; [exact Hh|]. split; [|done]. by destruct (Z.leb_spec 0 (rg_fd s.2)).
Qed.

(** [reset] in any state, with any call failing: the buffer is ready, or the
    object still owns exactly what it has acquired. *)
Theorem reset_registered_spec others count :
  spec (owns others) (reset_registered count) (owns others) (fun _ s => owns others s /\ ready count s).
Proof.
  intros s Hs. unfold reset_registered, mbind, PM_bind, p_modify.
  destruct (release_registered_shape others s Hs) as (h & fd0 & Hh & Hfd0 & ->).
  unfold set_size. cbn [fst snd rg_fd is_registered rg_host rg_device_ptrs].
  destruct (page_size C <=? 0).
  { unfold owns. simpl. unfold registered_owned. simpl. by rewrite (proj2 (Z.leb_gt _ _) Hfd0). }
  set (bytes := round_up _ _). unfold open_file. cbn [fst snd handles].
  destruct (mkstemp C h) as [fd text]. destruct (Z.ltb_spec fd 0) as [Hfd|Hfd]; cbn.
  { unfold owns. simpl. unfold registered_owned. simpl. by rewrite (proj2 (Z.leb_gt _ _) Hfd). }
  assert (forall w reg host ptrs h', h' ≡ₚ registered_owned (Registered count bytes fd reg host ptrs) ++ others ->
    owns others (Store h' w, Registered count bytes fd reg host ptrs)) as Howns by done.
  assert ((if 0 <=? fd then [Descriptor fd] else []) = [Descriptor fd]) as Hd by (by rewrite (proj2 (Z.leb_le _ _) Hfd)).
  unfold registered_owned in Howns. cbn in Howns. rewrite Hd in Howns.
  unfold size_file. cbn. destruct (ftruncate C fd bytes); [by apply Howns; simpl; rewrite Hh|].
  unfold map_file. cbn. destruct (mmap C fd bytes) as [p|]; [|by apply Howns; simpl; rewrite Hh].
  destruct (cudaSetDevice C 0); cbn; [by apply Howns; simpl; rewrite Hh|].
  unfold register_host. cbn. destruct (cudaHostRegister C p bytes); [by apply Howns; simpl; rewrite Hh|].
  match goal with |- match device_pointers p _ (?st, ?b) with _ => _ end =>
    pose proof (device_pointers_spec st b p (zrange kRanks) [] eq_refl (st, b)
      (ex_intro _ null_ptrs (conj eq_refl (conj (length_replicate _ _)
         (fun d Hin => False_ind _ (proj1 (elem_of_nil d) Hin)))))) as Hp end.
  destruct (device_pointers p _ _) as [s' [u|e]].
  - destruct Hp as (ptrs & -> & _ & Hp).
    split; [apply Howns; simpl; by rewrite Hh|]. split; [done|]. split; [done|]. exists p. split; [done|]. split; [done|]. split.
    + intros i Hi. cbn in Hi |- *. by rewrite (proj2 (Z.leb_le _ _)), (proj2 (Z.ltb_lt _ _)) by lia.
    + intros d Hd'. destruct (Hp d Hd') as (q & Hq & Hl). exists q. split; [done|].
      unfold registered_device_ptr. cbn. by rewrite Hl.
  - destruct Hp as (ptrs & ->).
    apply Howns. simpl. by rewrite Hh.
Qed.

Lemma reset_registered_keeps count : keeps (reset_registered count).
Proof. intros others. eapply spec_conseq; [apply reset_registered_spec|done|done|by intros u s' [? _]]. Qed.
End RegisteredMappedBuffer.

(** ** Pinned host memory *)

Record pinned := PinnedBuffer { pb_count : Z; pb_flags : Z; pb_ptr : option Z }.
Definition new_pinned : pinned := PinnedBuffer 0 0 None.
Definition some_handle (f : Z -> handle) (p : option Z) : list handle :=
  match p with Some p => [f p] | None => [] end.
Definition release_some (f : Z -> handle) (p : option Z) (h : list handle) : list handle :=
  match p with Some p => release (f p) h | None => h end.

Lemma release_some_law f p h others : h ≡ₚ some_handle f p ++ others -> release_some f p h ≡ₚ others.
Proof. destruct p; simpl; [apply release_perm|done]. Qed.

Definition release_pinned (s : store * pinned) : store * pinned :=
  (set_handles (release_some HostMemory (pb_ptr s.2)) s.1, PinnedBuffer 0 (pb_flags s.2) None).

#[export, program] Instance pinned_owner : Owner pinned := {|
  owned b := some_handle HostMemory (pb_ptr b); release_object := release_pinned |}.
Next Obligation. intros s others Hs. split; [by apply release_some_law|done]. Qed.

Definition alloc_pinned (C : system) (bytes : Z) : PM (store * pinned) unit := fun s =>
  match cudaHostAlloc C bytes (pb_flags s.2) with
  | inr text => (s, Throw (RuntimeError text))
  | inl p => ((set_handles (cons (HostMemory p)) s.1, PinnedBuffer (pb_count s.2) (pb_flags s.2) (Some p)), Ok tt)
  end.

(** [element_size] is the size of [T]. *)
Definition reset_pinned (C : system) (element_size count flags : Z) : PM (store * pinned) unit :=
  _ ← p_modify release_pinned;
  _ ← p_modify (fun s => (s.1, PinnedBuffer count flags (pb_ptr s.2)));
  alloc_pinned C (u64 (count * element_size)).

Lemma reset_pinned_spec C size others count flags :
  spec (owns others) (reset_pinned C size count flags) (owns others)
    (fun _ s => owns others s /\ exists p, s.2 = PinnedBuffer count flags (Some p) /\
       cudaHostAlloc C (u64 (count * size)) flags = inl p).
Proof.
  intros s Hs. destruct (released_law s others Hs) as [Hh _]. unfold reset_pinned, alloc_pinned, mbind, PM_bind, p_modify. cbn [fst snd pb_count pb_flags pb_ptr].
  destruct (cudaHostAlloc C _ _) as [p|]; unfold owns; simpl in *; [|done].
  split; [by apply perm_skip|]. by exists p.
Qed.

Lemma reset_pinned_keeps C size count flags : keeps (reset_pinned C size count flags).
Proof. intros others. eapply spec_conseq; [apply reset_pinned_spec|done|done|by intros u s [? _]]. Qed.

(** ** Streams and events *)

(** [Stream] and [Event] differ in the handle. *)
Record device_object := DeviceObject { do_device : Z; do_handle : Z }.

Section DeviceObject.
Context (kind : Z -> handle) (create : system -> Z -> Z + string).

Definition create_handle (C : system) (device : Z) : PM store device_object := fun s =>
  match create C device with
  | inr text => (s, Throw (RuntimeError text))
  | inl h => (set_handles (cons (kind h)) s, Ok (DeviceObject device h))
  end.

(** The constructor: when it throws there is no object and nothing is held. *)
Definition new_device_object (C : system) (device : Z) : PM store device_object :=
  _ ← check_cuda (cudaSetDevice C device);
  create_handle C device.
Definition destroy_device_object (x : device_object) : store -> store :=
  set_handles (release (kind (do_handle x))).

Theorem device_object_owned C device others s : handles s ≡ₚ others ->
  match new_device_object C device s with
  | (s', Ok x) => do_device x = device /\ create C device = inl (do_handle x) /\
      handles s' ≡ₚ kind (do_handle x) :: others /\ handles (destroy_device_object x s') ≡ₚ others
  | (s', Throw _) => s' = s
  end.
Proof.
  intros Hs. unfold new_device_object, create_handle, mbind, PM_bind, check_cuda.
  destruct (cudaSetDevice C device); [done|]. cbn. destruct (create C device) as [h|]; [|done].
  assert (kind h :: handles s ≡ₚ kind h :: others) as Hp by (by apply perm_skip).
  split_and!; [done|done|done|]. exact (release_perm _ _ _ Hp).
Qed.
End DeviceObject.

Definition Stream_new : system -> Z -> PM store device_object := new_device_object StreamHandle cudaStreamCreate.
Definition Stream_destroy : device_object -> store -> store := destroy_device_object StreamHandle.
Definition Event_new : system -> Z -> PM store device_object := new_device_object EventHandle cudaEventCreate.
Definition Event_destroy : device_object -> store -> store := destroy_device_object EventHandle.

(** ** Instantiated graphs *)

(** [BatchGraphExec]; [GraphExec] is the same without [iters_], which stays 0. *)
Record graph_exec := GraphExec { ge_graph : option Z; ge_exec : option Z; ge_count : Z; ge_iters : Z }.
Definition new_graph_exec : graph_exec := GraphExec None None 0 0.

Definition release_graph_exec (s : store * graph_exec) : store * graph_exec :=
  (set_handles (fun h => release_some GraphHandle (ge_graph s.2) (release_some ExecHandle (ge_exec s.2) h)) s.1,
   new_graph_exec).

#[export, program] Instance graph_exec_owner : Owner graph_exec := {|
  owned g := some_handle ExecHandle (ge_exec g) ++ some_handle GraphHandle (ge_graph g);
  release_object := release_graph_exec |}.
Next Obligation.
  intros s others Hs. simpl in Hs. rewrite <- app_assoc in Hs. split; [|done].
  by apply release_some_law, release_some_law.
Qed.

Definition valid_for (count iters : Z) (g : graph_exec) : bool :=
  bool_decide (is_Some (ge_exec g)) && (ge_count g =? count) && (ge_iters g =? iters).
Definition set_counts (count iters : Z) (s : store * graph_exec) : store * graph_exec :=
  (s.1, GraphExec (ge_graph s.2) (ge_exec s.2) count iters).

(** What a CUDA call stores through [graph_ptr()] and [exec_ptr()]. *)
Definition store_graph (graph : Z) (s : store * graph_exec) : store * graph_exec :=
  (set_handles (cons (GraphHandle graph)) s.1, GraphExec (Some graph) (ge_exec s.2) (ge_count s.2) (ge_iters s.2)).
Definition store_exec (exec : Z) (s : store * graph_exec) : store * graph_exec :=
  (set_handles (cons (ExecHandle exec)) s.1, GraphExec (ge_graph s.2) (Some exec) (ge_count s.2) (ge_iters s.2)).

(** Storing into an object that [release] has emptied keeps ownership; over a
    graph it still has, the old one is lost. *)
Lemma store_graph_owns others graph s : ge_graph s.2 = None -> owns others s -> owns others (store_graph graph s).
Proof.
  intros Hg Hs. unfold owns in *. simpl in *. rewrite Hg, app_nil_r in Hs. simpl.
  rewrite <- app_assoc, Hs. apply Permutation_middle.
Qed.
Lemma store_exec_owns others exec s : ge_exec s.2 = None -> owns others s -> owns others (store_exec exec s).
Proof. intros Hg Hs. unfold owns in *. simpl in *. rewrite Hg in Hs. by apply perm_skip. Qed.

#[export] Hint Resolve reset_registered_keeps reset_pinned_keeps : owner.

(** ** Concrete objects *)

Module HandlesWitness.
#[local] Existing Instance small_config.

(** Device 2 maps no host memory. *)
Definition calls : system := {|
  page_size := 4096; mkstemp h := (3 + Z.of_nat (length h), ""%string); ftruncate _ _ := None;
  mmap fd n := inl (65536 * fd); cudaSetDevice _ := None; cudaHostRegister _ _ := None;
  cudaHostGetDevicePointer d p := if d =? 2 then inr "invalid device"%string else inl (p + d);
  cudaHostAlloc n _ := inl (n + 16); cudaStreamCreate d := inl (70 + d); cudaEventCreate d := inl (80 + d) |}.
Definition start : store := Store [Descriptor 0] (fun i => i).

Lemma owner_releases_witness :
  handles (destroy (run_calls [reset_registered calls 1500; p_modify release_registered; reset_registered calls 3]
    (start, new_registered))) ≡ₚ [Descriptor 0].
Proof.
  eapply (owner_releases [Descriptor 0]); [|unfold owns; reflexivity].
  repeat constructor; auto with owner.
Defined.

(** As a constructor, which has no object to destroy yet, the failing [reset]
    leaves its handles. *)
Example constructor_leaks :
  let '(s, b, r) := reset_registered calls 1500 (start, new_registered) in
  (handles s, map_bytes b, r) =
  ([Registration 262144; Mapping 262144 8192; Descriptor 4; Descriptor 0], 8192,
   Throw (RuntimeError "invalid device")).
Proof. reflexivity. Qed.

Example graphs : let s := set_counts 100 3 (store_exec 6 (store_graph 5 (start, new_graph_exec))) in
  (valid_for 100 3 s.2, valid_for 200 3 s.2, handles s.1, handles (destroy s)) =
  (true, false, [ExecHandle 6; GraphHandle 5; Descriptor 0], [Descriptor 0]).
Proof. reflexivity. Qed.

Example streams : let '(s, r) := Stream_new calls 1 start in
  (handles s, match r with Ok x => handles (Stream_destroy x s) | Throw _ => [] end) =
  ([StreamHandle 71; Descriptor 0], [Descriptor 0]).
Proof. reflexivity. Qed.
End HandlesWitness.
