(* ===== verification/EnvVars.v ===== *)
(** * Environment variables of the RDMA transport

    [parse_gid_index_env] of src/transport/rdma/rdma_endpoint.cc,
    [parse_rdma_memory_placement_env] of rdma_gdr.cc, and
    [parse_rdma_data_plane_env] and [parse_rdma_shared_progress_env] of
    rdma_proxy.cc.  The value of a variable is an optional string; [strtoul] is
    the function of the C library in base 10, on strings. *)

From Stdlib Require Import ZArith Lia Ascii String.
From stdpp Require Import base option numbers tactics strings list pretty.
From S2P Require Import Prelude Types RdmaProxy.

#[local] Open Scope Z_scope.

(** ** strtoul *)

Definition isspace (c : ascii) : bool :=
  let n := N_of_ascii c in ((9 <=? n) && (n <=? 13) || (n =? 32))%N.
Definition digit_of (c : ascii) : option Z :=
  let n := Z.of_N (N_of_ascii c) in if (48 <=? n) && (n <=? 57) then Some (n - 48) else None.

Fixpoint skip_space (s : string) : string :=
  match s with String c s' => if isspace c then skip_space s' else s | "" => s end.

(** The digits from [acc] on, and what follows them. *)
Fixpoint digits (acc : Z) (s : string) : Z * string :=
  match s with
  | String c s' => match digit_of c with Some d => digits (10 * acc + d) s' | None => (acc, s) end
  | "" => (acc, s)
  end.

Definition ULONG_MAX : Z := 2 ^ 64 - 1.

Record conversion := Conversion { value : Z; out_of_range : bool; rest : string }.

(** [None]: no conversion, [end] is the start of the string.  A number that does
    not fit is [ULONG_MAX] and sets [errno]; a minus sign negates in
    [unsigned long]. *)
Definition strtoul (s : string) : option conversion :=
  let s := skip_space s in
  let '(negative, s) :=
    match s with String "-" s' => (true, s') | String "+" s' => (false, s') | _ => (false, s) end in
  match s with
  | String c _ =>
      match digit_of c with
      | None => None
      | Some _ =>
          let '(v, rest) := digits 0 s in
          if ULONG_MAX <? v then Some (Conversion ULONG_MAX true rest)
          else Some (Conversion (if negative then u64 (- v) else v) false rest)
      end
  | "" => None
  end.

(** ** The variables *)

Definition parse_gid_index_env (env : option string) : res Z :=
  match env with
  | None => Ok 0
  | Some env =>
      match strtoul env with
      | None => Throw (RuntimeError "NANO_NCCL_RDMA_GID_INDEX out of range")
      | Some v =>
          if out_of_range v || negb (bool_decide (rest v = "")) || (0xffff <? value v)
          then Throw (RuntimeError "NANO_NCCL_RDMA_GID_INDEX out of range")
          else Ok (value v)
      end
  end.

Inductive RdmaMemoryPlacement := HostPin | GpuDirect.
Inductive RdmaDataPlane := SendRecv | WriteCts.
#[export] Instance plane_eq_dec : EqDecision RdmaDataPlane.
Proof. solve_decision. Defined.
#[export] Instance placement_eq_dec : EqDecision RdmaMemoryPlacement.
Proof. solve_decision. Defined.

Definition is_off (env : string) : bool :=
  String.eqb env "0" || String.eqb env "false" || String.eqb env "off".
Definition is_on (env : string) : bool :=
  String.eqb env "1" || String.eqb env "true" || String.eqb env "on".

Definition parse_rdma_memory_placement_env (env : option string) : res RdmaMemoryPlacement :=
  match env with
  | None => Ok HostPin
  | Some env =>
      if String.eqb env "" || is_off env then Ok HostPin
      else if is_on env then Ok GpuDirect
      else Throw (RuntimeError "NANO_NCCL_RDMA_GDR must be 0 or 1")
  end.

Definition parse_rdma_data_plane_env (env : option string) : res RdmaDataPlane :=
  match env with
  | None => Ok SendRecv
  | Some env =>
      if String.eqb env "" || is_off env then Ok SendRecv
      else if is_on env then Ok WriteCts
      else Throw (RuntimeError "NANO_NCCL_RDMA_USE_WRITE must be 0 or 1")
  end.

Definition parse_rdma_shared_progress_env (env : option string) : res bool :=
  match env with
  | None => Ok true
  | Some env =>
      if String.eqb env "" then Ok true
      else if is_off env then Ok false
      else if is_on env then Ok true
      else Throw (RuntimeError
        ("NANO_NCCL_RDMA_SHARED_PROGRESS must be unset/"
           +:+ String "034" (String "034" "/0/1/true/false/on/off")))
  end.

(** ** What they accept *)

Lemma digit_value (d : N) : (d < 10)%N -> digit_of (pretty_N_char d) = Some (Z.of_N d).
Proof.
  intros Hd. destruct d as [|p]; [done|].
  do 4 (destruct p as [p|p|]; try (vm_compute; reflexivity); try lia).
Qed.

Lemma digits_pretty (x : N) s acc :
  exists k, digits acc (pretty_N_go x s) = digits (acc * 10 ^ k + Z.of_N x) s /\ 0 <= k.
Proof.
  revert s acc. induction (N.lt_wf_0 x) as [x _ IH]. intros s acc.
  destruct (decide (x = 0)%N) as [->|Hx].
  { exists 0. rewrite pretty_N_go_0. split; [|done]. f_equal. lia. }
  rewrite pretty_N_go_step by lia.
  destruct (IH (x `div` 10)%N) with (s := String (pretty_N_char (x `mod` 10)) s) (acc := acc)
    as (k & -> & Hk); [apply N.div_lt; lia|].
  exists (k + 1). split; [|lia]. simpl. rewrite digit_value by (apply N.mod_lt; lia). f_equal.
  rewrite Z.pow_add_r by lia.
  pose proof (N.div_mod x 10 ltac:(lia)) as Hd. 
  assert (Z.of_N x = 10 * Z.of_N (x `div` 10) + Z.of_N (x `mod` 10)) as -> by lia. lia.
Qed.

Lemma pretty_N_go_head (x : N) s : (0 < x)%N ->
  exists d s', (d < 10)%N /\ pretty_N_go x s = String (pretty_N_char d) s'.
Proof.
  revert s. induction (N.lt_wf_0 x) as [x _ IH]. intros s Hx. rewrite pretty_N_go_step by done.
  destruct (decide (x `div` 10 = 0)%N) as [->|Hne].
  - rewrite pretty_N_go_0. eexists _, s. split; [|done]. apply N.mod_lt. lia.
  - apply IH; [apply N.div_lt; lia|by apply N.neq_0_lt_0].
Qed.

Lemma digit_not_space (d : N) : (d < 10)%N -> isspace (pretty_N_char d) = false /\
  pretty_N_char d <> "-"%char /\ pretty_N_char d <> "+"%char.
Proof.
  intros Hd. destruct d as [|p]; [done|].
  do 4 (destruct p as [p|p|]; try (split_and!; by vm_compute); try lia).
Qed.

(** The decimal digits of a number that fits convert to it. *)
Lemma strtoul_pretty (n : Z) : 0 <= n <= ULONG_MAX -> strtoul (pretty n) = Some (Conversion n false "").
Proof.
  intros Hn. destruct (decide (n = 0)) as [->|Hne]; [done|].
  assert (pretty n = pretty_N_go (Z.to_N n) "") as ->.
  { destruct n as [|p|p]; try lia. reflexivity. }
  destruct (digits_pretty (Z.to_N n) "" 0) as (k & Hk & _).
  destruct (pretty_N_go_head (Z.to_N n) "") as (d & s' & Hd & Hs); [lia|].
  destruct (digit_not_space d Hd) as (H1 & H2 & H3). pose proof (digit_value d Hd) as Hv.
  rewrite Hs in Hk |- *. unfold strtoul. simpl skip_space. rewrite H1.
  set (c := pretty_N_char d) in *.
  assert ((match String c s' with String "-" s'' => (true, s'') | String "+" s'' => (false, s'')
           | _ => (false, String c s') end) = (false, String c s')) as ->.
  { clearbody c. destruct c as [[] [] [] [] [] [] [] []]; try done. }
  rewrite Hv, Hk. simpl digits. rewrite Z2N.id by lia.
  rewrite (proj2 (Z.ltb_ge _ _)) by lia. repeat f_equal; lia.
Qed.

Lemma digits_nonneg s : forall acc, 0 <= acc -> 0 <= (digits acc s).1.
Proof.
  induction s as [|c s IH]; intros acc Hacc; simpl; [done|].
  destruct (digit_of c) as [d|] eqn:Hd; [|done]. apply IH. unfold digit_of in Hd.
  destruct (Z.leb_spec 48 (Z.of_N (N_of_ascii c))); simpl in Hd; [|done].
  destruct (_ <=? 57); [|done]. injection Hd as <-. lia.
Qed.

Lemma strtoul_nonneg s v : strtoul s = Some v -> 0 <= value v.
Proof.
  unfold strtoul. destruct (match skip_space s with "" => _ | String _ _ => _ end) as [negative [|c s']]; [done|].
  destruct (digit_of c); [|done]. pose proof (digits_nonneg (String c s') 0 ltac:(lia)) as Hd.
  destruct (digits 0 (String c s')) as [x r]. simpl in Hd.
  destruct (ULONG_MAX <? x); intros [= <-]; simpl; [done|].
  destruct negative; [apply u64_range|done].
Qed.

Lemma gid_index_range env n : parse_gid_index_env env = Ok n -> 0 <= n <= 0xffff.
Proof.
  unfold parse_gid_index_env. destruct env as [env|]; [|intros [= <-]; lia].
  destruct (strtoul env) as [v|] eqn:Hv; [|done]. apply strtoul_nonneg in Hv.
  destruct (Z.ltb_spec 0xffff (value v)); [by rewrite orb_true_r|].
  destruct (_ || _); [done|]. intros [= <-]. lia.
Qed.

(** The GID index is what the variable says: every number is read back from
    its decimal digits, those above 0xffff are refused, an unset variable means
    0, and whatever else the variable holds the index fits its 16 bits. *)
Theorem gid_index_round_trip n : 0 <= n <= ULONG_MAX ->
  parse_gid_index_env None = Ok 0 /\
  (forall env m, parse_gid_index_env env = Ok m -> 0 <= m <= 0xffff) /\
  parse_gid_index_env (Some (pretty n)) =
    (if n <=? 0xffff then Ok n else Throw (RuntimeError "NANO_NCCL_RDMA_GID_INDEX out of range")).
Proof.
  intros Hn. split; [done|]. split; [apply gid_index_range|]. unfold parse_gid_index_env. rewrite strtoul_pretty by done. simpl.
  destruct (Z.leb_spec n 0xffff), (Z.ltb_spec 0xffff n); lia || done.
Qed.

(** The three switches accept the same words; unset and empty are the default,
    which is on for the shared progress thread and off for the others. *)
Theorem switches_agree env :
  let known := match env with
               | None => true | Some v => String.eqb v "" || is_off v || is_on v end in
  let on := match env with None => None | Some v =>
              if String.eqb v "" then None else Some (is_on v && negb (is_off v)) end in
  (known = false -> (exists e, parse_rdma_memory_placement_env env = Throw e) /\
     (exists e, parse_rdma_data_plane_env env = Throw e) /\
     (exists e, parse_rdma_shared_progress_env env = Throw e)) /\
  (known = true ->
     parse_rdma_memory_placement_env env = Ok (if default false on then GpuDirect else HostPin) /\
     parse_rdma_data_plane_env env = Ok (if default false on then WriteCts else SendRecv) /\
     parse_rdma_shared_progress_env env = Ok (default true on)).
Proof.
  unfold parse_rdma_memory_placement_env, parse_rdma_data_plane_env, parse_rdma_shared_progress_env.
  destruct env as [v|]; simpl; [|by split].
  destruct (String.eqb v ""), (is_off v), (is_on v); simpl; split; intros Hk; try done; split_and!; try done; eauto.
Qed.

Module EnvWitness.
Lemma gid_index_round_trip_witness :
  parse_gid_index_env None = Ok 0 /\ parse_gid_index_env (Some (pretty 3)) = Ok 3.
Proof.
  destruct (gid_index_round_trip 3) as (H0 & _ & H3); [unfold ULONG_MAX; lia|]. by split.
Defined.

(** Blanks and a sign are accepted, a number that wraps around too. *)
Example accepted : map (fun v => parse_gid_index_env (Some v)) [" +7"; "-18446744073709551613"; "0x3"; ""; "70000"]
  = [Ok 7; Ok 3; Throw (RuntimeError "NANO_NCCL_RDMA_GID_INDEX out of range");
     Throw (RuntimeError "NANO_NCCL_RDMA_GID_INDEX out of range");
     Throw (RuntimeError "NANO_NCCL_RDMA_GID_INDEX out of range")].
Proof. vm_compute. reflexivity. Qed.
End EnvWitness.
