(* ===== verification/RdmaDevice.v ===== *)
(** * RDMA devices, queue pairs and registered memory

    [RdmaEndpoint] (src/transport/rdma/rdma_endpoint.cc), creation and
    destruction of [RdmaQp] (rdma_qp.cc), [RdmaRegisteredMemory]
    (rdma_gdr.cc) and the storage of an RDMA channel that
    src/collective/all_reduce/communicator.cu builds of them:
    [make_rdma_resources], [allocate_rdma_fifo] and
    [register_rdma_cts_buffer].

    The calls of libibverbs, of the CUDA driver and of the operating system
    answer as the environment says.  The state of the process records the
    objects it holds, so that guards, [catch] blocks and destructors can be
    checked for leaks. *)

From Stdlib Require Import ZArith Lia.
From stdpp Require Import base option numbers tactics strings list.
From S2P Require Import Prelude Types Resources Geometry Control RdmaWrite EnvVars Buffers.

#[local] Open Scope Z_scope.

(** ** Environment and state *)

Record port_attr := PortAttr { port_active : bool; port_lid : Z; port_mtu : Z }.
Record ibv_mr := MemoryRegion { mr_id : Z; mr_lkey : Z; mr_rkey : Z }.
Inductive access := LocalWrite | RemoteWrite | RemoteRead.

Inductive verbs_object :=
| DeviceList | Context (context : Z) | Pd (pd : Z) | Cq (cq : Z) | Qp (qp : Z)
| Mr (mr : Z) | DmaBufFd (fd : Z) | CtsSlots (address : Z).
#[export] Instance verbs_object_eq_dec : EqDecision verbs_object.
Proof. solve_decision. Defined.

Record verbs := Verbs {
  getenv : string -> option string;
  ibv_get_device_list : list Z + string;               (* or strerror(errno) *)
  ibv_get_device_name : Z -> option string;
  ibv_open_device : Z -> option Z;
  ibv_query_port : Z -> option port_attr;              (* port 1 *)
  ibv_query_gid : Z -> Z -> list Z + string;           (* port 1, index *)
  exists_file : string -> bool;
  inet6_addresses : string -> option (list (list Z));  (* getifaddrs *)
  ibv_alloc_pd : Z -> Z + string;
  ibv_create_cq : Z -> Z -> Z + string;                (* context, depth *)
  ibv_create_qp : Z -> Z -> (Z * Z * Z) + string;      (* pd, cq: qp, number, inline bytes *)
  modify_qp_to_init : Z -> option string;
  ibv_reg_mr : Z -> Z -> Z -> list access -> ibv_mr + string;   (* pd, address, bytes *)
  cuPointerSetAttribute : Z -> option string;          (* the name of the error *)
  page_size : Z;
  cuMemGetHandleForAddressRange : Z -> Z -> option Z;  (* aligned address, bytes: descriptor *)
  ibv_reg_dmabuf_mr : Z -> Z -> Z -> Z -> Z -> option ibv_mr;   (* pd, offset, bytes, iova, descriptor *)
  new_cts_slots : Z }.                                 (* address of the records *)

Record rdma_state := RdmaState { rs_memory : memory; rs_verbs : list verbs_object }.
Definition hold (o : verbs_object) (s : rdma_state) : rdma_state :=
  RdmaState (rs_memory s) (o :: rs_verbs s).
Definition drop (o : verbs_object) (s : rdma_state) : rdma_state :=
  RdmaState (rs_memory s) (release o (rs_verbs s)).

Abbreviation RM := (PM rdma_state).

(** Memory operations of Buffers. *)
Definition on_memory {A} (m : PM memory A) : RM A := fun s =>
  let '(x, r) := m (rs_memory s) in (RdmaState x (rs_verbs s), r).
Definition in_memory (f : memory -> memory) (s : rdma_state) : rdma_state :=
  RdmaState (f (rs_memory s)) (rs_verbs s).

(** ** The endpoint *)

Record RdmaEndpoint := Endpoint {
  ep_context : option Z; ep_pd : option Z;
  ep_port_lid : Z; ep_gid_index : Z; ep_active_mtu : Z; ep_gid : list Z }.

Section Endpoint.
Context (V : verbs).

Definition sysfs_iface_match (hca_name ifname : string) : bool :=
  exists_file V ("/sys/class/infiniband/" +:+ hca_name +:+ "/device/net/" +:+ ifname).

Definition gid_iface_match (gid : list Z) (ifname : string) : bool :=
  match inet6_addresses V ifname with
  | None => false
  | Some addresses => bool_decide (gid ∈ addresses)
  end.

Definition iface_matches_hca (context dev : Z) (ifname : option string) (gid_index : Z) : bool :=
  match ifname with
  | None => true
  | Some ifname =>
      if String.eqb ifname "" then true else
      if match ibv_get_device_name V dev with
         | Some hca_name => sysfs_iface_match hca_name ifname | None => false end then true else
      match ibv_query_gid V context gid_index with
      | inr _ => false
      | inl gid => gid_iface_match gid ifname
      end
  end.

(** Whether the loop stops at an open device, and with which port. *)
Definition selected (ifname : option string) (gid_index dev context : Z) : option port_attr :=
  match ibv_query_port V context with
  | None => None
  | Some port =>
      if port_active port then
        if iface_matches_hca context dev ifname gid_index then Some port else None
      else None
  end.

Definition device_error (what : string) (dev : Z) (text : string) : exn :=
  RuntimeError (match ibv_get_device_name V dev with
                | Some hca_name => "rdma endpoint " +:+ what +:+ "(" +:+ hca_name +:+ ") failed: "
                | None => "rdma endpoint " +:+ what +:+ " failed: "
                end +:+ text).

(** The end of an iteration that has found its device, the context held. *)
Definition take_device (dev context : Z) (port : port_attr) (gid_index : Z) : RM RdmaEndpoint :=
  match ibv_query_gid V context gid_index with
  | inr text => p_throw (device_error "ibv_query_gid" dev text)
  | inl gid =>
      match ibv_alloc_pd V context with
      | inr text => p_throw (device_error "ibv_alloc_pd" dev text)
      | inl pd =>
          _ ← p_modify (hold (Pd pd));
          mret (Endpoint (Some context) (Some pd) (port_lid port) gid_index (port_mtu port) gid)
      end
  end.

(** The loop over the devices; a context is closed when an iteration ends. *)
Fixpoint try_devices (ifname : option string) (gid_index : Z) (devices : list Z) : RM RdmaEndpoint :=
  match devices with
  | [] =>
      match ifname with
      | Some ifname =>
          if String.eqb ifname "" then p_throw (RuntimeError "rdma endpoint: no active RDMA HCA found")
          else p_throw (RuntimeError
            ("rdma endpoint: no active RDMA HCA tied to interface " +:+ ifname))
      | None => p_throw (RuntimeError "rdma endpoint: no active RDMA HCA found")
      end
  | dev :: devices =>
      match ibv_open_device V dev with
      | None => try_devices ifname gid_index devices
      | Some context =>
          _ ← p_modify (hold (Context context));
          match selected ifname gid_index dev context with
          | None => _ ← p_modify (drop (Context context)); try_devices ifname gid_index devices
          | Some port =>
              p_unwind (drop (Context context)) (take_device dev context port gid_index)
          end
      end
  end.

(** The list of devices is freed in any case. *)
Definition with_device_list {A} (m : RM A) : RM A := fun s =>
  let '(s, r) := m (hold DeviceList s) in (drop DeviceList s, r).

Definition create_from_environment : RM RdmaEndpoint := fun s =>
  match parse_gid_index_env (getenv V "NANO_NCCL_RDMA_GID_INDEX") with
  | Throw e => (s, Throw e)
  | Ok gid_index =>
      let ifname := getenv V "NANO_NCCL_RDMA_IFNAME" in
      match ibv_get_device_list V with
      | inr text => (s, Throw (RuntimeError ("rdma endpoint ibv_get_device_list failed: " +:+ text)))
      | inl devices =>
          with_device_list
            (if decide (devices = []) then p_throw (RuntimeError "rdma endpoint: no RDMA devices found")
             else try_devices ifname gid_index devices) s
      end
  end.

(** [close]: the protection domain before the context. *)
Definition close_endpoint (e : RdmaEndpoint) (s : rdma_state) : rdma_state :=
  let s := match ep_pd e with Some pd => drop (Pd pd) s | None => s end in
  match ep_context e with Some context => drop (Context context) s | None => s end.
End Endpoint.

(** ** Queue pairs *)

Record RdmaQp := QueuePair { qp_qp : option Z; qp_cq : option Z; qp_qpn : Z; qp_max_inline_data : Z }.

(** ** What is held *)

(** The process holds [hs] of CUDA's memory and [vs] of verbs objects. *)
Definition holds (hs : list allocation) (vs : list verbs_object) (s : rdma_state) : Prop :=
  held (rs_memory s) ≡ₚ hs /\ rs_verbs s ≡ₚ vs.

#[export] Instance holds_proper : Proper ((≡ₚ) ==> (≡ₚ) ==> eq ==> iff) holds.
Proof. intros h h' Hh v v' Hv s ? <-. unfold holds. by rewrite Hh, Hv. Qed.

Lemma hold_holds o hs vs s : holds hs vs s -> holds hs (o :: vs) (hold o s).
Proof. intros [Hm Hv]. split; [done|]. simpl. by rewrite Hv. Qed.

Lemma drop_holds o hs vs s : holds hs (o :: vs) s -> holds hs vs (drop o s).
Proof. intros [Hm Hv]. split; [done|]. by apply release_perm. Qed.

Create HintDb rdma.
#[export] Hint Resolve hold_holds drop_holds : rdma.

Lemma hold_spec o hs vs E : spec (holds hs vs) (p_modify (hold o)) E (fun _ => holds hs (o :: vs)).
Proof. apply spec_modify. eauto with rdma. Qed.

Lemma drop_spec o hs vs E : spec (holds hs (o :: vs)) (p_modify (drop o)) E (fun _ => holds hs vs).
Proof. apply spec_modify. eauto with rdma. Qed.

Section QueuePairs.
Context (V : verbs).

Definition allocate_cq (e : RdmaEndpoint) (wr_depth : Z) : RM Z :=
  match ep_context e with
  | None => p_throw (RuntimeError "rdma endpoint allocate_cq on null context")
  | Some context =>
      match ibv_create_cq V context wr_depth with
      | inr text => p_throw (RuntimeError ("rdma endpoint ibv_create_cq failed: " +:+ text))
      | inl cq => _ ← p_modify (hold (Cq cq)); mret cq
      end
  end.

Definition create_init (e : RdmaEndpoint) (send_wr recv_wr : Z) : RM RdmaQp :=
  cq ← allocate_cq e (send_wr + recv_wr);
  match ibv_create_qp V (default 0 (ep_pd e)) cq with
  | inr text =>
      _ ← p_modify (drop (Cq cq));
      p_throw (RuntimeError ("rdma qp ibv_create_qp failed: " +:+ text))
  | inl (qp, qpn, max_inline) =>
      _ ← p_modify (hold (Qp qp));
      match modify_qp_to_init V qp with
      | Some text =>
          _ ← p_modify (drop (Qp qp)); _ ← p_modify (drop (Cq cq));
          p_throw (RuntimeError ("rdma qp ibv_modify_qp INIT failed: " +:+ text))
      | None => mret (QueuePair (Some qp) (Some cq) qpn max_inline)
      end
  end.

Definition destroy_qp (q : RdmaQp) (s : rdma_state) : rdma_state :=
  let s := match qp_qp q with Some qp => drop (Qp qp) s | None => s end in
  match qp_cq q with Some cq => drop (Cq cq) s | None => s end.
End QueuePairs.

(** ** Registered memory *)

Inductive RdmaRegistrationMethod := NoMethod | HostVerbs | DmaBuf | DeviceVerbs.

Record RdmaRegisteredMemory := Registered {
  rm_mr : option ibv_mr; rm_addr : Z; rm_bytes : Z; rm_device : bool; rm_method : RdmaRegistrationMethod }.

Definition registration_method_name (r : RdmaRegisteredMemory) : string :=
  match rm_method r with
  | NoMethod => "none" | HostVerbs => "host-verbs" | DmaBuf => "dmabuf" | DeviceVerbs => "device-verbs"
  end.
Definition lkey (r : RdmaRegisteredMemory) : Z := match rm_mr r with Some mr => mr_lkey mr | None => 0 end.
Definition rkey (r : RdmaRegisteredMemory) : Z := match rm_mr r with Some mr => mr_rkey mr | None => 0 end.

(** [try_reg_dmabuf]: the range of whole pages around a buffer. *)
Definition page_mask (page : Z) : Z := u64 (Z.lnot (page - 1)).
Definition dmabuf_aligned (page ptr : Z) : Z := Z.land ptr (page_mask page).
Definition dmabuf_offset (page ptr : Z) : Z := u64 (ptr - dmabuf_aligned page ptr).
Definition dmabuf_bytes (page ptr bytes : Z) : Z :=
  Z.land (u64 (dmabuf_offset page ptr + bytes + page - 1)) (page_mask page).

Section Registration.
Context (V : verbs).

Definition access_flags : list access := [LocalWrite; RemoteWrite; RemoteRead].

Definition try_reg_dmabuf (pd device_addr bytes : Z) : RM (option ibv_mr) :=
  let page := page_size V in
  match cuMemGetHandleForAddressRange V (dmabuf_aligned page device_addr) (dmabuf_bytes page device_addr bytes) with
  | None => mret None
  | Some fd =>
      if fd <? 0 then mret None else
      _ ← p_modify (hold (DmaBufFd fd));
      let mr := ibv_reg_dmabuf_mr V pd (dmabuf_offset page device_addr) bytes device_addr fd in
      _ ← p_modify (match mr with Some mr => hold (Mr (mr_id mr)) | None => fun s => s end);
      _ ← p_modify (drop (DmaBufFd fd));
      mret mr
  end.

Definition register_host (pd : option Z) (addr bytes : Z) : RM RdmaRegisteredMemory :=
  match pd with
  | None => p_throw (RuntimeError "rdma gdr register_host: invalid args")
  | Some pd =>
      if (addr =? 0) || (bytes =? 0)
      then p_throw (RuntimeError "rdma gdr register_host: invalid args") else
      match ibv_reg_mr V pd addr bytes access_flags with
      | inr text => p_throw (RuntimeError ("rdma gdr ibv_reg_mr host failed: " +:+ text))
      | inl mr =>
          _ ← p_modify (hold (Mr (mr_id mr)));
          mret (Registered (Some mr) addr bytes false HostVerbs)
      end
  end.

(** The second way, when there is no DMA-BUF registration. *)
Definition register_device_verbs (pd device_addr bytes : Z) : RM RdmaRegisteredMemory :=
  match ibv_reg_mr V pd device_addr bytes access_flags with
  | inr text => p_throw (RuntimeError ("rdma gdr register_device unavailable: " +:+ text))
  | inl mr =>
      _ ← p_modify (hold (Mr (mr_id mr)));
      mret (Registered (Some mr) device_addr bytes true DeviceVerbs)
  end.

Definition register_device (pd : option Z) (device_addr bytes : Z) : RM RdmaRegisteredMemory :=
  match pd with
  | None => p_throw (RuntimeError "rdma gdr register_device: invalid args")
  | Some pd =>
      if (device_addr =? 0) || (bytes =? 0)
      then p_throw (RuntimeError "rdma gdr register_device: invalid args") else
      match cuPointerSetAttribute V device_addr with
      | Some name => p_throw (RuntimeError
          ("rdma gdr cuPointerSetAttribute(SYNC_MEMOPS) failed: " +:+ name))
      | None =>
          mr ← try_reg_dmabuf pd device_addr bytes;
          match mr with
          | Some mr => mret (Registered (Some mr) device_addr bytes true DmaBuf)
          | None => register_device_verbs pd device_addr bytes
          end
      end
  end.

(** [reset] and the destructor. *)
Definition deregister (r : RdmaRegisteredMemory) (s : rdma_state) : rdma_state :=
  match rm_mr r with Some mr => drop (Mr (mr_id mr)) s | None => s end.
End Registration.

(** ** The storage of a channel *)

(** A FIFO in host memory or in the memory of the device. *)
Inductive fifo_storage := HostFifo (b : buffer) | DeviceFifo (pointer : Z).

Record RdmaChannelResources := ChannelResources {
  ch_control : buffer; ch_payload_bytes : buffer;
  ch_qp : RdmaQp;
  ch_fifo : fifo_storage; data_ptr : Z; ch_fifo_mr : ibv_mr;
  ch_cts : option (Z * ibv_mr) }.

Section Channel.
Context `{BuildConfig} (C : cuda) (V : verbs) (devices : list Z) (numa : Z -> Z).
Context (e : RdmaEndpoint) (placement : RdmaMemoryPlacement) (write_cts : bool).

Definition kRdmaProxyWr : Z := 16.
Definition no_fallback (x : exn) : exn :=
  match x with
  | RuntimeError what => RuntimeError ("NANO_NCCL_RDMA_GDR=1 requested but device FIFO "
      +:+ "registration failed (no silent host-pin fallback): " +:+ what)
  | _ => x
  end.
Definition rethrow {A} (f : exn -> exn) (m : RM A) : RM A := fun s =>
  match m s with (s', Ok a) => (s', Ok a) | (s', Throw x) => (s', Throw (f x)) end.

(** [DeviceBuffer::reset] of a new object. *)
Definition device_buffer_reset (device count : Z) : PM memory Z := fun m =>
  match cudaSetDevice C device with
  | Some text => (m, Throw (RuntimeError text))
  | None => match cudaMalloc C device count with
            | inr text => (m, Throw (RuntimeError text))
            | inl a => (set_held (fun h => DeviceMemory a :: h) m, Ok a)
            end
  end.

Definition destroy_fifo (f : fifo_storage) (s : rdma_state) : rdma_state :=
  match f with
  | HostFifo b => in_memory (destroy b) s
  | DeviceFifo a => in_memory (set_held (release (DeviceMemory a))) s
  end.

(** [allocate_rdma_fifo]; without the diagnostics. *)
Definition allocate_rdma_fifo (device : Z) : RM (fifo_storage * Z * ibv_mr) :=
  match placement with
  | GpuDirect =>
      a ← on_memory (device_buffer_reset device kFifoBytes);
      p_unwind (destroy_fifo (DeviceFifo a)) (
        r ← rethrow no_fallback (register_device V (ep_pd e) a kFifoBytes);
        mret (DeviceFifo a, a, default (MemoryRegion 0 0 0) (rm_mr r)))
  | HostPin =>
      b ← on_memory (MappedBuffer_new C 1 kFifoBytes (numa device) devices);
      let a := default 0 (host_ptr b) in
      p_unwind (destroy_fifo (HostFifo b)) (
        match ibv_reg_mr V (default 0 (ep_pd e)) a kFifoBytes access_flags with
        | inr text => p_throw (RuntimeError ("ibv_reg_mr rdma fifo: " +:+ text))
        | inl mr => _ ← p_modify (hold (Mr (mr_id mr))); mret (HostFifo b, a, mr)
        end)
  end.

Definition kCtsBytes : Z := kFifoSteps * kCtsSlotBytes.
Definition register_rdma_cts_buffer (remote_write : bool) : RM (Z * ibv_mr) :=
  let a := new_cts_slots V in
  _ ← p_modify (hold (CtsSlots a));
  p_unwind (drop (CtsSlots a)) (
    match ibv_reg_mr V (default 0 (ep_pd e)) a kCtsBytes
            (LocalWrite :: if remote_write then [RemoteWrite] else []) with
    | inr text => p_throw (RuntimeError ("ibv_reg_mr rdma cts: " +:+ text))
    | inl mr => _ ← p_modify (hold (Mr (mr_id mr))); mret (a, mr)
    end).

Definition destroy_fifo_mr (f : fifo_storage) (mr : ibv_mr) (s : rdma_state) : rdma_state :=
  destroy_fifo f (drop (Mr (mr_id mr)) s).

(** The destructor of the resources, members in reverse order of declaration. *)
Definition destroy_cts (cts : Z * ibv_mr) (s : rdma_state) : rdma_state :=
  drop (CtsSlots cts.1) (drop (Mr (mr_id cts.2)) s).
Definition destroy_channel (r : RdmaChannelResources) (s : rdma_state) : rdma_state :=
  let s := destroy_qp (ch_qp r) s in
  let s := match ch_cts r with Some cts => destroy_cts cts s | None => s end in
  let s := drop (Mr (mr_id (ch_fifo_mr r))) s in
  let s := in_memory (destroy (ch_payload_bytes r)) s in
  let s := in_memory (destroy (ch_control r)) s in
  destroy_fifo (ch_fifo r) s.

Definition make_rdma_resources (device : Z) : RM (buffer * buffer) :=
  control ← on_memory (member (MappedU64Array_reset C 2 (numa device) devices));
  p_unwind (in_memory (destroy control)) (
    payload ← on_memory (member (MappedU32Array_reset C kFifoSteps (numa device) devices));
    mret (control, payload)).

Definition destroy_words (words : buffer * buffer) (s : rdma_state) : rdma_state :=
  in_memory (destroy words.1) (in_memory (destroy words.2) s).

(** The body of the loops over the channels, for one end of an edge. *)
Definition make_channel (device : Z) (sending : bool) : RM RdmaChannelResources :=
  words ← make_rdma_resources device;
  p_unwind (destroy_words words) (
    qp ← create_init V e kRdmaProxyWr kRdmaProxyWr;
    p_unwind (destroy_qp qp) (
      fifo ← allocate_rdma_fifo device;
      p_unwind (destroy_fifo_mr fifo.1.1 fifo.2) (
        cts ← (if write_cts then c ← register_rdma_cts_buffer sending; mret (Some c) else mret None);
        mret (ChannelResources words.1 words.2 qp fifo.1.1 fifo.1.2 fifo.2 cts)))).
End Channel.

(** ** The endpoint is the first device that fits *)

Section EndpointFacts.
Context (V : verbs) (ifname : option string) (gid_index : Z).

(** A device that the loop stops at, and what it then takes from it. *)
Definition fits (dev : Z) : option (Z * port_attr) :=
  context ← ibv_open_device V dev;
  port ← selected V ifname gid_index dev context;
  Some (context, port).

Definition first_fit (devices : list Z) : option (Z * (Z * port_attr)) :=
  head (omap (fun dev => pair dev <$> fits dev) devices).

Definition taken (fit : Z * (Z * port_attr)) : option RdmaEndpoint :=
  let '(dev, (context, port)) := fit in
  match ibv_query_gid V context gid_index, ibv_alloc_pd V context with
  | inl gid, inl pd =>
      Some (Endpoint (Some context) (Some pd) (port_lid port) gid_index (port_mtu port) gid)
  | _, _ => None
  end.

(** What an endpoint owns. *)
Definition endpoint_objects (e : RdmaEndpoint) : list verbs_object :=
  match ep_pd e with Some pd => [Pd pd] | None => [] end ++
  match ep_context e with Some context => [Context context] | None => [] end.

Lemma close_holds e hs vs s :
  holds hs (endpoint_objects e ++ vs) s -> holds hs vs (close_endpoint e s).
Proof.
  unfold endpoint_objects, close_endpoint.
  destruct (ep_pd e), (ep_context e); simpl; eauto with rdma.
Qed.

Lemma take_device_spec hs vs dev context port : spec (holds hs (Context context :: vs))
  (take_device V dev context port gid_index)
  (fun s => holds hs (Context context :: vs) s /\ taken (dev, (context, port)) = None)
  (fun e s => holds hs (endpoint_objects e ++ vs) s /\ taken (dev, (context, port)) = Some e).
Proof.
  unfold take_device, taken.
  destruct (ibv_query_gid V context gid_index) as [gid|text]; [|by apply spec_throw].
  destruct (ibv_alloc_pd V context) as [pd|text]; [|by apply spec_throw].
  eapply spec_bind; [apply hold_spec|]. intros u. by apply spec_ret.
Qed.

Lemma first_fit_cons dev devices : first_fit (dev :: devices) =
  match fits dev with Some fit => Some (dev, fit) | None => first_fit devices end.
Proof. unfold first_fit. simpl. by destruct (fits dev). Qed.

Lemma try_devices_spec hs vs devices : spec (holds hs vs) (try_devices V ifname gid_index devices)
  (fun s => holds hs vs s /\ first_fit devices ≫= taken = None)
  (fun e s => holds hs (endpoint_objects e ++ vs) s /\ first_fit devices ≫= taken = Some e).
Proof.
  induction devices as [|dev devices IH].
  { simpl. destruct ifname as [n|]; [destruct (String.eqb n "")|]; by apply spec_throw. }
  rewrite first_fit_cons. unfold fits. simpl.
  destruct (ibv_open_device V dev) as [context|]; simpl; [|exact IH].
  eapply spec_bind; [apply hold_spec|]. intros u.
  destruct (selected V ifname gid_index dev context) as [port|]; simpl.
  - eapply spec_unwind; [apply take_device_spec|]. intros s [Hs Ht]. split; [by apply drop_holds|done].
  - eapply spec_bind; [apply drop_spec|]. intros u'. exact IH.
Qed.
End EndpointFacts.

(** The endpoint is the first device that fits, or nothing: the variable
    for the GID index parses, the list of devices is read, and the first device
    that opens, has an active port and matches the interface gives its context,
    its GID and a protection domain, which are then all the endpoint holds; in
    every other case an exception is thrown and no context, domain or list is
    left.  Closing the endpoint gives back both. *)
Theorem endpoint_first_fit V hs vs s : holds hs vs s ->
  let wanted := match parse_gid_index_env (getenv V "NANO_NCCL_RDMA_GID_INDEX"), ibv_get_device_list V with
                | Ok gid_index, inl devices =>
                    first_fit V (getenv V "NANO_NCCL_RDMA_IFNAME") gid_index devices ≫= taken V gid_index
                | _, _ => None
                end in
  match create_from_environment V s with
  | (s', Ok e) => wanted = Some e /\ holds hs (endpoint_objects e ++ vs) s' /\
                  holds hs vs (close_endpoint e s')
  | (s', Throw _) => wanted = None /\ holds hs vs s'
  end.
Proof.
  intros Hs. unfold create_from_environment.
  destruct (parse_gid_index_env _) as [gid_index|x]; [|done].
  destruct (ibv_get_device_list V) as [devices|text]; [|done]. cbn zeta.
  unfold with_device_list. case_decide as Hd.
  { subst devices. cbn. split; [done|]. eauto with rdma. }
  pose proof (try_devices_spec V (getenv V "NANO_NCCL_RDMA_IFNAME") gid_index hs (DeviceList :: vs)
    devices (hold DeviceList s) (hold_holds _ _ _ _ Hs)) as H.
  destruct (try_devices _ _ _ _ _) as [s' [e|x]]; destruct H as [Hh Hw]; (split; [done|]); [|eauto with rdma].
  assert (holds hs (endpoint_objects e ++ vs) (drop DeviceList s')) as He.
  { apply drop_holds. by rewrite Permutation_middle. }
  split; [done|]. by apply close_holds.
Qed.

(** ** Queue pairs and registrations hold what they own *)

Section ResourceFacts.
Context (V : verbs).

Definition qp_objects (q : RdmaQp) : list verbs_object :=
  match qp_qp q with Some qp => [Qp qp] | None => [] end ++
  match qp_cq q with Some cq => [Cq cq] | None => [] end.

Lemma destroy_qp_holds q hs vs s : holds hs (qp_objects q ++ vs) s -> holds hs vs (destroy_qp q s).
Proof. unfold qp_objects, destroy_qp. destruct (qp_qp q), (qp_cq q); simpl; eauto with rdma. Qed.

(** A queue pair is made with a completion queue for the requests of both
    directions, in state INIT, or neither is left. *)
Lemma create_init_spec e send_wr recv_wr hs vs : spec (holds hs vs) (create_init V e send_wr recv_wr)
  (holds hs vs)
  (fun q s => (exists context qp cq,
     ep_context e = Some context /\ ibv_create_cq V context (send_wr + recv_wr) = inl cq /\
     ibv_create_qp V (default 0 (ep_pd e)) cq = inl (qp, qp_qpn q, qp_max_inline_data q) /\
     modify_qp_to_init V qp = None /\ qp_qp q = Some qp /\ qp_cq q = Some cq) /\
     holds hs (qp_objects q ++ vs) s).
Proof.
  unfold create_init, allocate_cq.
  destruct (ep_context e) as [context|]; [|intros s Hs; exact Hs].
  destruct (ibv_create_cq V context _) as [cq|text] eqn:Ecq; [|intros s Hs; exact Hs].
  intros s Hs. unfold mbind, PM_bind, p_modify, mret, PM_ret.
  destruct (ibv_create_qp V _ cq) as [[[qp qpn] max_inline]|text] eqn:Eqp; cbn; [|eauto with rdma].
  destruct (modify_qp_to_init V qp) as [text|] eqn:Einit; cbn; [eauto 8 with rdma|].
  split; [by exists context, qp, cq|by apply hold_holds, hold_holds].
Qed.

Definition memory_objects (r : RdmaRegisteredMemory) : list verbs_object :=
  match rm_mr r with Some mr => [Mr (mr_id mr)] | None => [] end.

Lemma deregister_holds r hs vs s : holds hs (memory_objects r ++ vs) s -> holds hs vs (deregister r s).
Proof. unfold memory_objects, deregister. destruct (rm_mr r); simpl; eauto with rdma. Qed.

(** The registration by DMA-BUF that a device offers, if any. *)
Definition dmabuf_mr (pd device_addr bytes : Z) : option ibv_mr :=
  fd ← cuMemGetHandleForAddressRange V (dmabuf_aligned (page_size V) device_addr)
         (dmabuf_bytes (page_size V) device_addr bytes);
  if fd <? 0 then None else ibv_reg_dmabuf_mr V pd (dmabuf_offset (page_size V) device_addr) bytes device_addr fd.

(** The descriptor is closed in any case. *)
Lemma try_reg_dmabuf_spec pd device_addr bytes hs vs :
  spec (holds hs vs) (try_reg_dmabuf V pd device_addr bytes) (fun _ => False)
    (fun r s => r = dmabuf_mr pd device_addr bytes /\
       holds hs (match r with Some mr => [Mr (mr_id mr)] | None => [] end ++ vs) s).
Proof.
  unfold try_reg_dmabuf, dmabuf_mr. intros s Hs.
  destruct (cuMemGetHandleForAddressRange _ _ _) as [fd|]; simpl; [|done].
  destruct (fd <? 0); [done|]. unfold mbind, PM_bind, p_modify, mret, PM_ret. cbn.
  destruct (ibv_reg_dmabuf_mr _ _ _ _ _ _) as [mr|]; (split; [done|]); apply drop_holds.
  - simpl. rewrite Permutation_swap. by apply hold_holds, hold_holds.
  - by apply hold_holds.
Qed.

(** What registering device memory should give: DMA-BUF when the driver and
    the NIC can, the plain verbs call otherwise. *)
Definition device_registration (pd : option Z) (device_addr bytes : Z) : option RdmaRegisteredMemory :=
  pd ← pd;
  if (device_addr =? 0) || (bytes =? 0) then None else
  match cuPointerSetAttribute V device_addr with
  | Some _ => None
  | None =>
      match dmabuf_mr pd device_addr bytes with
      | Some mr => Some (Registered (Some mr) device_addr bytes true DmaBuf)
      | None =>
          match ibv_reg_mr V pd device_addr bytes access_flags with
          | inl mr => Some (Registered (Some mr) device_addr bytes true DeviceVerbs)
          | inr _ => None
          end
      end
  end.

Lemma register_device_spec pd device_addr bytes hs vs :
  spec (holds hs vs) (register_device V pd device_addr bytes)
    (fun s => holds hs vs s /\ device_registration pd device_addr bytes = None)
    (fun r s => holds hs (memory_objects r ++ vs) s /\ device_registration pd device_addr bytes = Some r).
Proof.
  unfold register_device, device_registration. destruct pd as [pd|]; simpl; [|by apply spec_throw].
  destruct ((device_addr =? 0) || (bytes =? 0)); [by apply spec_throw|].
  destruct (cuPointerSetAttribute V device_addr) as [name|]; [by apply spec_throw|].
  eapply spec_bind.
  { eapply spec_conseq; [apply try_reg_dmabuf_spec|done|done|]. intros r s H. exact H. }
  intros [mr|]; intros s [<- Hs]; [done|].
  unfold register_device_verbs. destruct (ibv_reg_mr _ _ _ _ _) as [mr|text]; [|done].
  split; [by apply hold_holds|done].
Qed.

Lemma device_registration_made pd device_addr bytes r : device_registration pd device_addr bytes = Some r ->
  exists mr, r = Registered (Some mr) device_addr bytes true (rm_method r).
Proof.
  unfold device_registration. destruct pd as [pd|]; simpl; [|done].
  destruct (_ || _); [done|]. destruct (cuPointerSetAttribute _ _); [done|].
  destruct (dmabuf_mr _ _ _) as [mr|]; [intros [= <-]; by exists mr|].
  destruct (ibv_reg_mr _ _ _ _ _) as [mr|]; [intros [= <-]; by exists mr|done].
Qed.
End ResourceFacts.

(** ** Move assignment *)

(** The three classes own verbs objects and give them up when moved from. *)
Class Owner (T : Type) := {
  objects : T -> list verbs_object;
  moved_from : T;
  destroy_object : T -> rdma_state -> rdma_state;
  objects_moved_from : objects moved_from = [];
  destroy_object_holds x hs vs s : holds hs (objects x ++ vs) s -> holds hs vs (destroy_object x s) }.

#[export, program] Instance endpoint_owner : Owner RdmaEndpoint := {|
  objects := endpoint_objects; moved_from := Endpoint None None 0 0 0 (replicate 16 0);
  destroy_object := close_endpoint |}.
Solve Obligations with (simpl; intros; first [done|by apply close_holds]).
#[export, program] Instance qp_owner : Owner RdmaQp := {|
  objects := qp_objects; moved_from := QueuePair None None 0 0; destroy_object := destroy_qp |}.
Solve Obligations with (simpl; intros; first [done|by apply destroy_qp_holds]).
#[export, program] Instance memory_owner : Owner RdmaRegisteredMemory := {|
  objects := memory_objects; moved_from := Registered None 0 0 false NoMethod; destroy_object := deregister |}.
Solve Obligations with (simpl; intros; first [done|by apply deregister_holds]).

(** [operator=(T&&)]: the objects afterwards; [same] is [this == &other]. *)
Definition move_assign {T} `{Owner T} (same : bool) (self other : T) (s : rdma_state) : rdma_state * T * T :=
  if same then (s, self, self) else (destroy_object self s, other, moved_from).

(** Each object is owned once before and after, and the old ones of the target
    are destroyed. *)
Lemma move_assign_owned {T} `{Owner T} self other hs vs s :
  holds hs (objects self ++ objects other ++ vs) s ->
  let '(s', self', other') := move_assign false self other s in
  self' = other /\ holds hs (objects self' ++ objects other' ++ vs) s'.
Proof.
  intros Hs. simpl. split; [done|]. rewrite objects_moved_from. simpl. by apply destroy_object_holds.
Qed.

(** ** The pages of a DMA-BUF *)

(** A page mask clears the low bits. *)
Lemma land_page_mask k x : 0 <= k < 64 -> 0 <= x < 2 ^ 64 ->
  Z.land x (page_mask (2 ^ k)) = x / 2 ^ k * 2 ^ k.
Proof.
  intros Hk Hx. unfold page_mask, u64.
  replace (2 ^ k - 1) with (Z.ones k) by (rewrite Z.ones_equiv; lia).
  rewrite <- Z.land_ones, Z.land_comm, <- Z.land_assoc, (Z.land_comm _ x), Z.land_ones by lia.
  rewrite (Z.mod_small x) by done. rewrite Z.land_comm.
  rewrite <- Z.ldiff_land, Z.ldiff_ones_r, Z.shiftl_mul_pow2, Z.shiftr_div_pow2 by lia. done.
Qed.

(** The range that is exported as DMA-BUF consists of whole pages and is
    the smallest that contains the buffer, and the offset that is registered
    with it is the place of the buffer in the range, for every page size that
    is a power of two and every buffer below the end of the address space. *)
Theorem dmabuf_range_covers k ptr bytes : 0 <= k < 64 -> 0 <= ptr -> 0 < bytes ->
  ptr + bytes + 2 ^ k <= 2 ^ 64 ->
  let page := 2 ^ k in
  let first := dmabuf_aligned page ptr in
  let size := dmabuf_bytes page ptr bytes in
  (page | first) /\ (page | size) /\
  first + dmabuf_offset page ptr = ptr /\ 0 <= dmabuf_offset page ptr < page /\
  ptr + bytes <= first + size < ptr + bytes + page.
Proof.
  intros Hk Hptr Hbytes Hend. cbn zeta. unfold dmabuf_bytes.
  assert (0 < 2 ^ k) as Hpage by (apply Z.pow_pos_nonneg; lia).
  assert (dmabuf_aligned (2 ^ k) ptr = ptr / 2 ^ k * 2 ^ k) as Ha by (apply land_page_mask; lia).
  pose proof (Z.div_mod ptr (2 ^ k) ltac:(lia)) as Hd.
  pose proof (Z.mod_pos_bound ptr (2 ^ k) Hpage) as Hm.
  assert (dmabuf_offset (2 ^ k) ptr = ptr mod 2 ^ k) as Ho.
  { unfold dmabuf_offset. rewrite Ha, u64_small; lia. }
  pose proof (Z.mod_le ptr (2 ^ k) Hptr Hpage) as Hle.
  rewrite Ho, Ha. set (n := ptr mod 2 ^ k + bytes + 2 ^ k - 1).
  rewrite (u64_small n) by (unfold n; lia). rewrite land_page_mask by (unfold n; lia).
  pose proof (Z.div_mod n (2 ^ k) ltac:(lia)) as Hdn.
  pose proof (Z.mod_pos_bound n (2 ^ k) Hpage) as Hmn.
  assert (n = ptr mod 2 ^ k + bytes + 2 ^ k - 1) as Hn by done. clearbody n.
  set (a := ptr / 2 ^ k) in *. set (b := n / 2 ^ k) in *. clearbody a b.
  split_and!; [by exists a|by exists b|lia..].
Qed.

(** ** A channel owns all of its storage *)

Section ChannelFacts.
Context `{BuildConfig} (C : cuda) (V : verbs) (devices : list Z) (numa : Z -> Z).
Context (e : RdmaEndpoint) (placement : RdmaMemoryPlacement) (write_cts : bool).

Lemma member_holds f count node hs vs : spec (holds hs vs) (on_memory (member (reset f C count node devices)))
  (holds hs vs) (fun b s => exists a, host_ptr b = Some a /\ holds (Pinned a :: hs) vs s).
Proof.
  intros s [Hm Hv]. unfold on_memory.
  pose proof (member_spec f C hs (rs_memory s) count node devices (rs_memory s) (conj eq_refl Hm)) as H'.
  destruct (member _ _) as [m [b|x]]; [|done]. destruct H' as (a & Ha & Hh & _). by exists a.
Qed.

Definition leaks_pinned (bytes : Z) (hs : list allocation) (vs : list verbs_object) (s : rdma_state) : Prop :=
  exists a, cudaHostAlloc C (u64 bytes) = inl a /\ holds (Pinned a :: hs) vs s.

Lemma construct_holds bytes node hs vs : spec (holds hs vs)
  (on_memory (construct (reset (mapped_buffer 1) C bytes node devices)))
  (fun s => holds hs vs s \/ leaks_pinned bytes hs vs s)
  (fun b s => exists a, (host_ptr b = Some a /\ cudaHostAlloc C (u64 bytes) = inl a) /\
     holds (Pinned a :: hs) vs s).
Proof.
  intros s [Hm Hv]. unfold on_memory.
  pose proof (construct_spec (mapped_buffer 1) C hs (rs_memory s) bytes node devices (rs_memory s)
    (conj eq_refl Hm)) as H'.
  destruct (construct _ _) as [m [b|x]].
  - destruct H' as (a & Ha & Hh & Hm'). exists a. split; [|done]. split; [done|].
    rewrite <- (mp_alloc _ _ _ _ _ _ _ _ Hm' a Ha). by rewrite Z.mul_1_r.
  - destruct H' as [Hh|(a & Ha & Hh)]; [by left|right]. rewrite Z.mul_1_r in Ha. by exists a.
Qed.

Lemma destroy_holds b a hs vs s : host_ptr b = Some a -> holds (Pinned a :: hs) vs s ->
  holds hs vs (in_memory (destroy b) s).
Proof.
  intros Ha [Hm Hv]. split; [|done]. unfold in_memory, destroy, release_buffer. simpl. rewrite Ha.
  by apply release_perm.
Qed.

Definition fifo_allocation (f : fifo_storage) : allocation :=
  match f with HostFifo b => Pinned (default 0 (host_ptr b)) | DeviceFifo a => DeviceMemory a end.

(** Where the FIFO is, and what registered it: the placement that was asked for. *)
Definition fifo_placed (f : fifo_storage) (a : Z) (mr : ibv_mr) : Prop :=
  match placement, f with
  | HostPin, HostFifo b =>
      host_ptr b = Some a /\ cudaHostAlloc C (u64 kFifoBytes) = inl a /\
      ibv_reg_mr V (default 0 (ep_pd e)) a kFifoBytes access_flags = inl mr
  | GpuDirect, DeviceFifo p =>
      p = a /\ exists r, device_registration V (ep_pd e) a kFifoBytes = Some r /\ rm_mr r = Some mr
  | _, _ => False
  end.

Lemma destroy_fifo_holds f a mr hs vs s : fifo_placed f a mr ->
  holds (fifo_allocation f :: hs) vs s -> holds hs vs (destroy_fifo f s).
Proof.
  unfold fifo_placed. destruct placement, f as [b|p]; simpl; try done.
  - intros [Hb _]. rewrite Hb. intros Hs. by eapply destroy_holds.
  - intros _ [Hm Hv]. split; [|done]. by apply release_perm.
Qed.

(** How making a FIFO can fail: nothing is left, or the block that the
    constructor of the buffer loses. *)
Definition fifo_failed (hs : list allocation) (vs : list verbs_object) (s : rdma_state) : Prop :=
  holds hs vs s \/ (placement = HostPin /\ leaks_pinned kFifoBytes hs vs s).

Lemma device_buffer_reset_spec device count hs vs :
  spec (holds hs vs) (on_memory (device_buffer_reset C device count)) (holds hs vs)
    (fun a => holds (DeviceMemory a :: hs) vs).
Proof.
  intros s [Hm Hv]. unfold on_memory, device_buffer_reset.
  destruct (cudaSetDevice C device); [done|]. destruct (cudaMalloc C device count) as [a|]; [|done].
  split; [|done]. simpl. by rewrite Hm.
Qed.

Lemma rethrow_spec {A} f P E Q (m : RM A) : spec P m E Q -> spec P (rethrow f m) E Q.
Proof. intros Hm s Hs. specialize (Hm s Hs). unfold rethrow. by destruct (m s) as [s' [a|x]]. Qed.

Lemma host_pin_spec a b hs vs : placement = HostPin ->
  host_ptr b = Some a /\ cudaHostAlloc C (u64 kFifoBytes) = inl a ->
  spec (holds (Pinned a :: hs) vs)
    (match ibv_reg_mr V (default 0 (ep_pd e)) a kFifoBytes access_flags with
     | inr text => p_throw (RuntimeError ("ibv_reg_mr rdma fifo: " +:+ text))
     | inl mr => _ ← p_modify (hold (Mr (mr_id mr))); mret (HostFifo b, a, mr)
     end)
    (holds (Pinned a :: hs) vs)
    (fun r s => fifo_placed r.1.1 r.1.2 r.2 /\ holds (fifo_allocation r.1.1 :: hs) (Mr (mr_id r.2) :: vs) s).
Proof.
  intros Hp [Hb Ha]. destruct (ibv_reg_mr _ _ _ _ _) as [mr|text] eqn:Hmr; [|by apply spec_throw].
  eapply spec_bind; [apply hold_spec|]. intros u. apply spec_ret. intros s Hs. unfold fifo_placed. simpl.
  rewrite Hp, Hb. done.
Qed.

Lemma allocate_rdma_fifo_spec device hs vs :
  spec (holds hs vs) (allocate_rdma_fifo C V devices numa e placement device) (fifo_failed hs vs)
    (fun r s => fifo_placed r.1.1 r.1.2 r.2 /\ holds (fifo_allocation r.1.1 :: hs) (Mr (mr_id r.2) :: vs) s).
Proof.
  unfold allocate_rdma_fifo, fifo_failed. destruct placement eqn:Hp.
  - eapply spec_bind.
    { eapply spec_conseq; [apply construct_holds|done| |]; [|intros b s H'; exact H'].
      intros s [Hs|Hs]; [by left|by right]. }
    intros b s (a & Ha & Hs). rewrite (proj1 Ha). simpl.
    eapply (spec_unwind _ _ _ _ _ _ (host_pin_spec a b hs vs Hp Ha)); [|done].
    intros s' Hs'. left. eapply destroy_holds; [apply Ha|done].
  - eapply spec_bind.
    { eapply spec_conseq; [apply device_buffer_reset_spec|done|intros s Hs; by left|]. intros a s Hs. exact Hs. }
    intros a. apply (spec_unwind _ _ _ (holds (DeviceMemory a :: hs) vs));
      [|intros s [Hm Hv]; left; split; [by apply release_perm|exact Hv]].
    eapply spec_bind.
    { apply rethrow_spec. eapply spec_conseq; [apply register_device_spec|done|by intros s [] |].
      intros r s Hs. exact Hs. }
    intros r. apply spec_ret. intros s [Hs Hr]. unfold fifo_placed. rewrite Hp. simpl.
    destruct (device_registration_made _ _ _ _ _ Hr) as [mr Er].
    assert (rm_mr r = Some mr) as Hmr by by rewrite Er.
    unfold memory_objects in Hs. rewrite Hmr in Hs |- *. simpl in Hs |- *.
    split; [|done]. split; [done|]. by exists r.
Qed.
End ChannelFacts.

Section Storage.
Context `{BuildConfig} (C : cuda) (V : verbs) (devices : list Z) (numa : Z -> Z).
Context (e : RdmaEndpoint) (placement : RdmaMemoryPlacement) (write_cts : bool).

Definition cts_objects (cts : option (Z * ibv_mr)) : list verbs_object :=
  match cts with Some c => [Mr (mr_id c.2); CtsSlots c.1] | None => [] end.
Definition channel_objects (r : RdmaChannelResources) : list verbs_object :=
  qp_objects (ch_qp r) ++ cts_objects (ch_cts r) ++ [Mr (mr_id (ch_fifo_mr r))].
Definition channel_allocations (r : RdmaChannelResources) : list allocation :=
  owned (ch_payload_bytes r) ++ owned (ch_control r) ++ [fifo_allocation (ch_fifo r)].

(** The records are registered, for writes of the peer at the sending end. *)
Definition cts_registered (remote_write : bool) (c : Z * ibv_mr) : Prop :=
  c.1 = new_cts_slots V /\ ibv_reg_mr V (default 0 (ep_pd e)) c.1 kCtsBytes
    (LocalWrite :: if remote_write then [RemoteWrite] else []) = inl c.2.

Lemma register_cts_spec remote_write hs vs :
  spec (holds hs vs) (register_rdma_cts_buffer V e remote_write) (holds hs vs)
    (fun c s => cts_registered remote_write c /\ holds hs (cts_objects (Some c) ++ vs) s).
Proof.
  unfold register_rdma_cts_buffer. eapply spec_bind; [apply hold_spec|]. intros u.
  apply (spec_unwind _ _ _ (holds hs (CtsSlots (new_cts_slots V) :: vs))); [|eauto with rdma].
  destruct (ibv_reg_mr _ _ _ _ _) as [mr|text] eqn:Hmr; [|by apply spec_throw].
  eapply spec_bind; [apply hold_spec|]. intros u'. by apply spec_ret.
Qed.

(** What a channel that has been made is like. *)
Record channel_made (sending : bool) (r : RdmaChannelResources) : Prop := {
  cm_placed : fifo_placed C V e placement (ch_fifo r) (data_ptr r) (ch_fifo_mr r);
  cm_control : exists a, host_ptr (ch_control r) = Some a;
  cm_payload : exists a, host_ptr (ch_payload_bytes r) = Some a;
  cm_qp : exists context qp cq, ep_context e = Some context /\
    ibv_create_cq V context (2 * kRdmaProxyWr) = inl cq /\
    ibv_create_qp V (default 0 (ep_pd e)) cq = inl (qp, qp_qpn (ch_qp r), qp_max_inline_data (ch_qp r)) /\
    modify_qp_to_init V qp = None /\ qp_qp (ch_qp r) = Some qp /\ qp_cq (ch_qp r) = Some cq;
  cm_cts : match ch_cts r with
           | Some c => write_cts = true /\ cts_registered sending c
           | None => write_cts = false
           end }.

Abbreviation failed := (fifo_failed C placement).

Lemma failed_buffer b a hs vs s : host_ptr b = Some a ->
  failed (Pinned a :: hs) vs s -> failed hs vs (in_memory (destroy b) s).
Proof.
  intros Ha [Hs|(Hp & x & Hx & Hs)]; [left|right; split; [done|exists x; split; [done|]]];
    apply (destroy_holds b a); try done. by rewrite Permutation_swap.
Qed.

Lemma failed_qp q hs vs s : failed hs (qp_objects q ++ vs) s -> failed hs vs (destroy_qp q s).
Proof.
  intros [Hs|(Hp & x & Hx & Hs)]; [left|right; split; [done|exists x; split; [done|]]];
    by apply destroy_qp_holds.
Qed.

Lemma cts_spec remote_write hs vs :
  spec (holds hs vs)
    (if write_cts then c ← register_rdma_cts_buffer V e remote_write; mret (Some c) else mret None)
    (holds hs vs)
    (fun cts s => match cts with
                  | Some c => write_cts = true /\ cts_registered remote_write c
                  | None => write_cts = false
                  end /\ holds hs (cts_objects cts ++ vs) s).
Proof.
  destruct write_cts.
  - eapply spec_bind; [apply register_cts_spec|]. intros c. apply spec_ret. by intros s [].
  - by apply spec_ret.
Qed.

Lemma make_rdma_resources_spec device hs vs : spec (holds hs vs)
  (make_rdma_resources C devices numa device) (holds hs vs)
  (fun words s => exists ac ap, (host_ptr words.1 = Some ac /\ host_ptr words.2 = Some ap) /\
     holds (Pinned ap :: Pinned ac :: hs) vs s).
Proof.
  unfold make_rdma_resources. eapply spec_bind; [apply member_holds|].
  intros control. apply spec_exists. intros ac. apply spec_pure. intros Hc.
  apply (spec_unwind _ _ _ (holds (Pinned ac :: hs) vs)); [|intros s; by apply destroy_holds].
  eapply spec_bind; [apply member_holds|]. intros payload. apply spec_ret. intros s (ap & Hp & Hs).
  by exists ac, ap.
Qed.

Lemma failed_words words ac ap hs vs s : host_ptr words.1 = Some ac /\ host_ptr words.2 = Some ap ->
  failed (Pinned ap :: Pinned ac :: hs) vs s -> failed hs vs (destroy_words words s).
Proof. intros [Hc Hp] Hs. by apply (failed_buffer _ ac), (failed_buffer _ ap). Qed.

Lemma make_channel_spec device sending hs vs :
  spec (holds hs vs) (make_channel C V devices numa e placement write_cts device sending) (failed hs vs)
    (fun r s => channel_made sending r /\ holds (channel_allocations r ++ hs) (channel_objects r ++ vs) s).
Proof.
  unfold make_channel. eapply spec_bind.
  { eapply spec_conseq; [apply make_rdma_resources_spec|done|intros s Hs; by left|].
    intros words s H'. exact H'. }
  intros words. apply spec_exists. intros ac. apply spec_exists. intros ap. apply spec_pure. intros Hw.
  apply (spec_unwind _ _ _ (failed (Pinned ap :: Pinned ac :: hs) vs)); [|intros s; by apply failed_words].
  destruct Hw as [Hc Hp].
  eapply spec_bind.
  { eapply spec_conseq; [apply create_init_spec|done|intros s Hs; by left|]. intros q s H'. exact H'. }
  intros q. apply spec_pure. intros (context & qp & cq & Hctx & Hcq & Hqp & Hinit & Eqp & Ecq).
  apply (spec_unwind _ _ _ (failed (Pinned ap :: Pinned ac :: hs) (qp_objects q ++ vs))); [|intros s; by apply failed_qp].
  eapply spec_bind; [apply allocate_rdma_fifo_spec|]. intros [[f a] mr]. apply spec_pure. intros Hf.
  eapply spec_unwind.
  - eapply spec_bind; [apply cts_spec|]. intros cts. apply spec_ret. intros s [Hcts Hs]. split.
    + split; simpl; [done|by exists ac|by exists ap| |done]. by exists context, qp, cq.
    + unfold channel_allocations, channel_objects, owned. simpl. rewrite Hc, Hp. simpl.
      revert Hs. apply holds_proper; [solve_Permutation|solve_Permutation|done].
  - intros s Hs. left. eapply destroy_fifo_holds; [exact Hf|]. by apply drop_holds.
Qed.

Lemma destroy_channel_holds sending r hs vs s : channel_made sending r ->
  holds (channel_allocations r ++ hs) (channel_objects r ++ vs) s -> holds hs vs (destroy_channel r s).
Proof.
  intros [Hf [ac Hc] [ap Hp] _ _] Hs. unfold channel_allocations, channel_objects, owned in Hs.
  rewrite Hc, Hp, <- !app_assoc in Hs. simpl in Hs. unfold destroy_channel. cbn zeta.
  eapply destroy_fifo_holds; [exact Hf|]. apply (destroy_holds _ ac); [done|].
  apply (destroy_holds _ ap); [done|]. apply drop_holds.
  apply destroy_qp_holds in Hs. destruct (ch_cts r) as [cts|]; [|done].
  unfold destroy_cts. by apply drop_holds, drop_holds.
Qed.

(** The storage of an RDMA channel is made or not made.  When it is made,
    its FIFO is where the placement wants it, in host memory or in the memory of
    the device and never in the other, registered in full with that address;
    there is a queue pair in state INIT, and records of credits on the WRITE+CTS
    plane only; destroying it gives back every block, registration and queue.
    When an exception is thrown nothing is held, except the block of host memory
    that the constructor of a mapped buffer loses (never with GPUDirect). *)
Theorem rdma_channel_owned device sending hs vs s : holds hs vs s ->
  match make_channel C V devices numa e placement write_cts device sending s with
  | (s', Ok r) => channel_made sending r /\
      holds (channel_allocations r ++ hs) (channel_objects r ++ vs) s' /\
      holds hs vs (destroy_channel r s')
  | (s', Throw _) => holds hs vs s' \/ (placement = HostPin /\ leaks_pinned C kFifoBytes hs vs s')
  end.
Proof.
  intros Hs. pose proof (make_channel_spec device sending hs vs s Hs) as H'.
  destruct (make_channel _ _ _ _ _ _ _ _ _ _) as [s' [r|x]]; [|exact H'].
  destruct H' as [Hr Hh]. split_and!; [done|done|]. by apply (destroy_channel_holds sending).
Qed.
End Storage.

(** ** A host with two devices *)

Module DeviceWitness.
#[local] Existing Instance small_config.

(** Device 0 is down; device 1 has no DMA-BUF but registers memory. *)
Definition host : verbs := Verbs
  (fun name => if String.eqb name "NANO_NCCL_RDMA_GID_INDEX" then Some "3" else None)
  (inl [0; 1]) (fun _ => Some "mlx5") (fun dev => Some (dev + 10))
  (fun context => Some (PortAttr (context =? 11) 0 5))
  (fun context index => inl [context; index]) (fun _ => false) (fun _ => None)
  (fun context => inl (context + 20)) (fun context depth => inl (context + depth))
  (fun pd cq => inl (pd + cq, 77, 64)) (fun _ => None)
  (fun pd address bytes flags => inl (MemoryRegion address 5 6)) (fun _ => None) 4096
  (fun _ _ => Some 9) (fun _ _ _ _ _ => None) 8000.
Definition idle : rdma_state := RdmaState BufferWitness.start [].

Lemma idle_holds : holds [Pinned 7] [] idle.
Proof. done. Qed.

Definition endpoint : RdmaEndpoint := Endpoint (Some 11) (Some 31) 0 3 5 [11; 3].

Lemma endpoint_first_fit_witness :
  exists s, create_from_environment host idle = (s, Ok endpoint) /\
    holds [Pinned 7] [Pd 31; Context 11] s /\ holds [Pinned 7] [] (close_endpoint endpoint s).
Proof.
  pose proof (endpoint_first_fit host [Pinned 7] [] idle idle_holds) as H.
  destruct (create_from_environment host idle) as [s [e|x]] eqn:E; [|vm_compute in E; done].
  destruct H as (Hw & Hh & Hc). vm_compute in Hw. injection Hw as <-.
  exists s. split; [reflexivity|]. split; [exact Hh|exact Hc].
Defined.

Lemma dmabuf_range_covers_witness : (4096 | dmabuf_aligned 4096 10000) /\
  10000 + 5000 <= dmabuf_aligned 4096 10000 + dmabuf_bytes 4096 10000 5000 < 10000 + 5000 + 4096.
Proof.
  destruct (dmabuf_range_covers 12 10000 5000) as (Ha & _ & _ & _ & Hc); [lia..|].
  change (2 ^ 12) with 4096 in *. split; [exact Ha|exact Hc].
Defined.

Definition make (placement : RdmaMemoryPlacement) : rdma_state * res RdmaChannelResources :=
  make_channel BufferWitness.cuda_ok host [0; 1] (fun _ => 0) endpoint placement true 0 true idle.

Lemma rdma_channel_owned_witness :
  exists s r, make GpuDirect = (s, Ok r) /\ (exists p, ch_fifo r = DeviceFifo p /\ data_ptr r = p) /\
    ch_cts r <> None /\ holds [Pinned 7] [] (destroy_channel r s).
Proof.
  pose proof (rdma_channel_owned BufferWitness.cuda_ok host [0; 1] (fun _ => 0) endpoint GpuDirect true
    0 true [Pinned 7] [] idle idle_holds) as H. fold (make GpuDirect) in H.
  destruct (make GpuDirect) as [s [r|x]] eqn:E; [|vm_compute in E; done].
  destruct H as ([Hf _ _ _ Hcts] & _ & Hd). exists s, r. split_and!; [done| |by destruct (ch_cts r)|exact Hd].
  unfold fifo_placed in Hf. destruct (ch_fifo r) as [b|p]; [done|]. exists p. by destruct Hf as [-> _].
Defined.

(** A device that does not map the FIFO in host memory: the block stays behind. *)
Definition no_fifo_mapping : cuda := Cuda (fun _ => None) (fun n => inl (n + 4096))
  (fun d p => if (d =? 1) && (p =? kFifoBytes + 4096) then inr "CUDA error: invalid device" else inl p)
  (fun _ n => inl n) true.
Example host_fifo_leaks :
  let out := make_channel no_fifo_mapping host [0; 1] (fun _ => 0) endpoint HostPin true 0 true idle in
  (held (rs_memory out.1), rs_verbs out.1, out.2)
  = ([Pinned (kFifoBytes + 4096); Pinned 7], [], Throw (RuntimeError "CUDA error: invalid device")).
Proof. vm_compute. reflexivity. Qed.
End DeviceWitness.
