(* ===== verification/P2pStorage.v ===== *)
(** * Device memory of a ring over P2P

    [P2pStepCounters] and [P2pFifo] of src/transport/p2p/p2p_step_counters.cu and
    p2p_fifo.cu as owners of device memory, with the peer access of a whole ring
    from p2p_fifo.cu.  Control.v has the pointers they hand out: a constructor
    that returns refines the definitions there, for the addresses that the
    allocations got. *)

From Stdlib Require Import ZArith Lia.
From stdpp Require Import base option numbers tactics strings list pretty gmap.
From S2P Require Import Prelude Types Resources Geometry Topology Control Buffers RdmaDevice.

#[local] Open Scope Z_scope.

(** ** Tables of device buffers

    An array of [DeviceBuffer] pointers by key; [None] is a null pointer. *)

Section Tables.
Context {K : Type} `{EqDecision K}.

Definition set_entry (k : K) (a : Z) (t : K -> option Z) : K -> option Z :=
  fun k' => if decide (k' = k) then Some a else t k'.
Definition no_entries : K -> option Z := fun _ => None.

(** [delete] of a buffer frees its memory. *)
Definition delete_buffer (a : option Z) (m : memory) : memory :=
  match a with Some a => set_held (release (DeviceMemory a)) m | None => m end.
Definition delete_all (keys : list K) (t : K -> option Z) (m : memory) : memory :=
  foldl (fun m k => delete_buffer (t k) m) m keys.

Definition table_owned (keys : list K) (t : K -> option Z) : list allocation :=
  omap (fun k => DeviceMemory <$> t k) keys.

Lemma table_owned_cons k keys t : table_owned (k :: keys) t =
  match t k with Some a => [DeviceMemory a] | None => [] end ++ table_owned keys t.
Proof. unfold table_owned. simpl. by destruct (t k). Qed.

Lemma delete_all_frees keys t others m :
  held m ≡ₚ table_owned keys t ++ others -> held (delete_all keys t m) ≡ₚ others.
Proof.
  unfold delete_all. revert m. induction keys as [|k keys IH]; intros m Hm; [done|].
  rewrite table_owned_cons in Hm. apply IH.
  destruct (t k) as [a|]; simpl in *; [by apply release_perm|done].
Qed.

Lemma set_entry_other keys k a t : k ∉ keys -> table_owned keys (set_entry k a t) = table_owned keys t.
Proof.
  intros Hk. apply list_omap_ext, Forall_Forall2_diag, Forall_forall.
  intros x Hx. unfold set_entry. rewrite decide_False; [done|]. by intros ->.
Qed.

Lemma set_entry_owned keys k a t : NoDup keys -> k ∈ keys -> t k = None ->
  table_owned keys (set_entry k a t) ≡ₚ DeviceMemory a :: table_owned keys t.
Proof.
  intros Hnd Hk Ht. induction Hnd as [|k' keys Hnot Hnd IH]; [by apply elem_of_nil in Hk|].
  rewrite !table_owned_cons. unfold set_entry at 1. destruct (decide (k' = k)) as [->|Hne].
  - by rewrite Ht, set_entry_other.
  - apply elem_of_cons in Hk as [->|Hk]; [done|]. rewrite (IH Hk).
    destruct (t k') as [b|]; simpl; [apply perm_swap|done].
Qed.
End Tables.

(** ** Filling a table

    The loops of the constructors: an item may be refused, skipped, or asks for
    a buffer of so many bytes on a device. *)

Section Fill.
Context {I K : Type} `{EqDecision K} (C : cuda) (keys : list K) (Hkeys : NoDup keys).
Context (key_of : I -> K) (wanted : I -> res (option (Z * Z))).

Fixpoint fill (items : list I) : PM (memory * (K -> option Z)) unit :=
  match items with
  | [] => mret tt
  | x :: items =>
      w ← p_lift (wanted x);
      (match w with
       | None => mret tt
       | Some (device, bytes) => fun s =>
           match device_buffer_reset C device bytes s.1 with
           | (m, Ok a) => ((m, set_entry (key_of x) a s.2), Ok tt)
           | (m, Throw e) => ((m, s.2), Throw e)
           end
       end) ;;
      fill items
  end.

(** [try { ... } catch (...) { cleanup(); throw; }] *)
Definition new_table (items : list I) : PM memory (K -> option Z) := fun m =>
  match fill items (m, no_entries) with
  | ((m, t), Ok _) => (m, Ok t)
  | ((m, t), Throw e) => (delete_all keys t m, Throw e)
  end.

(** What the loop does on a table of pointers, for given addresses. *)
Definition point (alloc : K -> Z) (x : I) (t : K -> option Z) : res (K -> option Z) :=
  w ← wanted x;
  Ok (match w with None => t | Some _ => set_entry (key_of x) (alloc (key_of x)) t end).

Lemma fill_spec others (items : list I) : forall t m,
  NoDup (key_of <$> items) -> (forall x, x ∈ items -> key_of x ∈ keys /\ t (key_of x) = None) ->
  held m ≡ₚ table_owned keys t ++ others ->
  match fill items (m, t) with
  | ((m', t'), Ok _) => held m' ≡ₚ table_owned keys t' ++ others /\
      (forall k, k ∉ key_of <$> items -> t' k = t k) /\
      forall alloc, (forall k a, t' k = Some a -> alloc k = a) ->
        exists t'', foldM (point alloc) items t = Ok t'' /\ forall k, t'' k = t' k
  | ((m', t'), Throw _) => held m' ≡ₚ table_owned keys t' ++ others
  end.
Proof using Hkeys.
  induction items as [|x items IH]; intros t m Hnd Hitems Hm; simpl.
  { split; [done|]. split; [done|]. intros alloc _. by exists t. }
  simpl in Hnd. apply NoDup_cons in Hnd as [Hx Hnd]. destruct (Hitems x ltac:(left)) as [Hin Hnone].
  unfold mbind, PM_bind, p_lift.
  destruct (wanted x) as [[[device bytes]|]|e] eqn:Hw; [| |done]; simpl.
  - unfold device_buffer_reset. destruct (cudaSetDevice C device); [done|].
    destruct (cudaMalloc C device bytes) as [a|]; [|done]. simpl.
    set (m1 := set_held _ m). set (t1 := set_entry _ a t).
    assert (held m1 ≡ₚ table_owned keys t1 ++ others) as Hm1.
    { unfold m1, t1. rewrite set_entry_owned by done. simpl. by apply perm_skip. }
    assert (forall k, k <> key_of x -> t1 k = t k) as Ht1 by (intros k Hk; unfold t1, set_entry; by rewrite decide_False).
    specialize (IH t1 m1 Hnd). destruct (fill items (m1, t1)) as [[m' t'] [[]|e]].
    2: { apply IH; [|done]. intros y Hy. destruct (Hitems y ltac:(by right)). split; [done|].
         rewrite Ht1; [done|]. intros E. apply Hx. rewrite <- E. by apply list_elem_of_fmap_2. }
    destruct IH as (Hm' & Hother & Hfold); [|done|].
    { intros y Hy. destruct (Hitems y ltac:(by right)). split; [done|].
      rewrite Ht1; [done|]. intros E. apply Hx. rewrite <- E. by apply list_elem_of_fmap_2. }
    split; [done|]. split.
    + intros k [Hk Hks]%not_elem_of_cons. by rewrite Hother, Ht1.
    + intros alloc Ha. destruct (Hfold alloc Ha) as (t'' & Ht'' & Heq).
      assert (alloc (key_of x) = a) as Hax.
      { apply Ha. rewrite Hother by done. unfold t1, set_entry. by rewrite decide_True. }
      exists t''. split; [|done]. unfold point at 2. rewrite Hw, Hax. exact Ht''.
  - specialize (IH t m Hnd). destruct (fill items (m, t)) as [[m' t'] [[]|e]].
    2: { apply IH; [|done]. intros y Hy. apply Hitems. by right. }
    destruct IH as (Hm' & Hother & Hfold); [intros y Hy; apply Hitems; by right|done|].
    split; [done|]. split; [intros k [Hk Hks]%not_elem_of_cons; by apply Hother|].
    intros alloc Ha. unfold point at 2. rewrite Hw. by apply Hfold.
Qed.

(** A table is made with all its buffers, or nothing is held; the pointers are
    those of the loop, and deleting the table frees its buffers. *)
Lemma new_table_spec others (items : list I) m :
  NoDup (key_of <$> items) -> (forall x, x ∈ items -> key_of x ∈ keys) -> held m ≡ₚ others ->
  match new_table items m with
  | (m', Ok t) => held m' ≡ₚ table_owned keys t ++ others /\ held (delete_all keys t m') ≡ₚ others /\
      exists t', foldM (point (fun k : K => default 0%Z (t k))) items no_entries = Ok t' /\ forall k, t' k = t k
  | (m', Throw _) => held m' ≡ₚ others
  end.
Proof using Hkeys.
  intros Hnd Hin Hm. unfold new_table.
  pose proof (fill_spec others items no_entries m Hnd (fun x Hx => conj (Hin x Hx) eq_refl)) as Hf.
  assert (table_owned keys no_entries = []) as Hempty.
  { unfold table_owned, no_entries. clear. induction keys as [|k ks IH]; [done|]. exact IH. }
  rewrite Hempty in Hf. specialize (Hf Hm). destruct (fill items (m, no_entries)) as [[m' t] [[]|e]].
  - destruct Hf as (Hm' & _ & Hfold). split; [done|]. split; [by apply delete_all_frees|].
    apply Hfold. intros k a Hk. by rewrite Hk.
  - by apply delete_all_frees.
Qed.
End Fill.

(** ** The two classes *)

Section Storage.
Context `{BuildConfig} (C : cuda) (plan : RingTransportPlan) (t : ProcessTopology).

Definition wants_counters (local_rank : Z) : res (option (Z * Z)) :=
  let global_rank := local_rank_offset t + local_rank in
  let prev := (global_rank + kRanks - 1) mod kRanks in
  send_kind ← edge_kind plan global_rank;
  on ← (if bool_decide (send_kind = P2p) then Ok true
        else recv_kind ← edge_kind plan prev; Ok (bool_decide (recv_kind = P2p)));
  if on : bool
  then device ← vec_at (devices t) local_rank; Ok (Some (device, u64 (4 * kChannels * 8)))
  else Ok None.

Definition P2pStepCounters_new : PM memory (Z -> option Z) :=
  _ ← p_lift (validate_process_topology t);
  new_table C (zrange kRanks) (fun local_rank => local_rank_offset t + local_rank) wants_counters
    (zrange (vec_size (devices t))).
(** [cleanup], also the destructor. *)
Definition P2pStepCounters_cleanup (counters : Z -> option Z) : memory -> memory :=
  delete_all (zrange kRanks) counters.

Definition slots : list (Z * Z) :=
  channel ← zrange kChannels; (fun edge => (channel, edge)) <$> zrange kRanks.

(** For elements of [sz] bytes. *)
Definition wants_buffer (sz slot_elems : Z) (slot : Z * Z) : res (option (Z * Z)) :=
  let edge := slot.2 in
  kind ← edge_kind plan edge;
  if negb (bool_decide (kind = P2p)) then Ok None else
  let receiver_global_rank := (edge + 1) mod kRanks in
  if negb (is_local_global_rank t edge) || negb (is_local_global_rank t receiver_global_rank)
  then Throw (RuntimeError "P2pFifo requires local p2p edges") else
  receiver_local_rank ← local_rank_for_global_rank t receiver_global_rank;
  device ← vec_at (devices t) receiver_local_rank;
  Ok (Some (device, u64 (kFifoSteps * slot_elems * sz))).

Definition P2pFifo_new (sz slot_elems : Z) : PM memory (Z * Z -> option Z) :=
  _ ← p_lift (validate_process_topology t);
  new_table C slots id (wants_buffer sz slot_elems) slots.
Definition P2pFifo_destroy (buffers : Z * Z -> option Z) : memory -> memory := delete_all slots buffers.

(** *** What the constructors leave *)

(** The pointers of a table. *)
Definition pointer_to (a : option Z) : ptr := (fun a => Loc a 0) <$> a.

Lemma set_entry_upd (c : Z -> option Z) (p : Z -> ptr) k a : (forall x, p x = pointer_to (c x)) ->
  forall x, upd p k (Some (Loc a 0)) x = pointer_to (set_entry k a c x).
Proof.
  intros Hp x. unfold set_entry. destruct (decide (x = k)) as [->|Hne]; [by rewrite upd_eq|].
  by rewrite upd_ne.
Qed.

Lemma slots_elem channel edge : (channel, edge) ∈ slots <-> 0 <= channel < kChannels /\ 0 <= edge < kRanks.
Proof.
  unfold slots. rewrite list_elem_of_bind. split.
  - intros (c & (e & [= -> ->] & He)%list_elem_of_fmap & Hc). by rewrite elem_of_zrange in He, Hc.
  - intros [Hc He]. exists channel. rewrite list_elem_of_fmap, elem_of_zrange. split; [|done].
    exists edge. by rewrite elem_of_zrange.
Qed.

Lemma slots_nodup : NoDup slots.
Proof.
  unfold slots. apply NoDup_bind.
  - intros c1 c2 x _ _ (e1 & -> & _)%list_elem_of_fmap (e2 & [= ->] & _)%list_elem_of_fmap. done.
  - intros c _. apply NoDup_fmap; [by intros e1 e2 [= ->]|apply NoDup_seqZ].
  - apply NoDup_seqZ.
Qed.

(** The counters are allocated as Control.v says, for the addresses they got,
    and the object owns them; or nothing is held. *)
Theorem p2p_counters_owned others m : held m ≡ₚ others ->
  match P2pStepCounters_new m with
  | (m', Ok counters) => held m' ≡ₚ table_owned (zrange kRanks) counters ++ others /\
      held (P2pStepCounters_cleanup counters m') ≡ₚ others /\
      exists pointers, p2p_step_counters plan t (fun rank => default 0 (counters rank)) = Ok pointers /\
        forall rank, pointers rank = pointer_to (counters rank)
  | (m', Throw _) => held m' ≡ₚ others
  end.
Proof.
  intros Hm. unfold P2pStepCounters_new, p2p_step_counters, mbind, PM_bind, p_lift.
  destruct (validate_process_topology t) as [u|e] eqn:Hv; [|done].
  destruct u. apply validate_process_topology_ok in Hv.
  pose proof (new_table_spec C (zrange kRanks) (NoDup_seqZ _ _) (fun l => local_rank_offset t + l) wants_counters
    others (zrange (vec_size (devices t))) m) as Hn.
  destruct Hv as [_ Hlocal _ Hrange _ _ _ _].
  specialize (Hn ltac:(apply NoDup_fmap; [intros x y ?; lia|apply NoDup_seqZ])).
  specialize (Hn ltac:(intros x Hx%elem_of_zrange; apply elem_of_zrange; lia) Hm).
  destruct (new_table _ _ _ _ _ m) as [m' [counters|e]]; [|done].
  destruct Hn as (Hh & Hd & counters' & Hf & Heq). split; [done|]. split; [done|]. simpl.
  set (alloc := fun rank => default 0 (counters rank)) in *.
  match goal with |- exists p, foldM ?g ?l ?s0 = Ok p /\ _ =>
    destruct (foldM_sim (point (fun x => local_rank_offset t + x) wants_counters alloc) g
      (fun c p => forall rank, p rank = pointer_to (c rank)) l no_entries s0 counters')
      as (pointers & Hp & Hrel); [done| |exact Hf|]
  end.
  2: { exists pointers. split; [exact Hp|]. intros rank. by rewrite Hrel, Heq. }
  intros local_rank c p c' _ Hcp Hpoint. unfold point, wants_counters in Hpoint.
  destruct (edge_kind plan (local_rank_offset t + local_rank)) as [k|e]; [|done]. simpl in Hpoint |- *.
  destruct (bool_decide (k = P2p)); simpl in *.
  - destruct (vec_at (devices t) local_rank); [|done]. injection Hpoint as <-.
    eexists. split; [done|]. by apply set_entry_upd.
  - destruct (edge_kind plan ((local_rank_offset t + local_rank + kRanks - 1) mod kRanks)) as [k'|e]; [|done].
    simpl in *. destruct (bool_decide (k' = P2p)); simpl in *.
    + destruct (vec_at (devices t) local_rank); [|done]. injection Hpoint as <-.
      eexists. split; [done|]. by apply set_entry_upd.
    + injection Hpoint as <-. by eexists.
Qed.

(** The FIFO likewise. *)
Theorem p2p_fifo_owned sz slot_elems others m : held m ≡ₚ others ->
  match P2pFifo_new sz slot_elems m with
  | (m', Ok buffers) => held m' ≡ₚ table_owned slots buffers ++ others /\
      held (P2pFifo_destroy buffers m') ≡ₚ others /\
      exists pointers, p2p_fifo plan t (fun channel edge => default 0 (buffers (channel, edge))) = Ok pointers /\
        forall channel edge, pointers channel edge = pointer_to (buffers (channel, edge))
  | (m', Throw _) => held m' ≡ₚ others
  end.
Proof.
  intros Hm. unfold P2pFifo_new, p2p_fifo, mbind, PM_bind, p_lift.
  destruct (validate_process_topology t) as [[]|e]; [|done].
  pose proof (new_table_spec C slots slots_nodup id (wants_buffer sz slot_elems) others slots m) as Hn.
  specialize (Hn ltac:(rewrite list_fmap_id; apply slots_nodup) ltac:(done) Hm).
  destruct (new_table _ _ _ _ _ m) as [m' [buffers|e]]; [|done].
  destruct Hn as (Hh & Hd & buffers' & Hf & Heq). split; [done|]. split; [done|]. simpl.
  set (alloc := fun k => default 0 (buffers k)) in *.
  destruct (foldM_sim (point id (wants_buffer sz slot_elems) alloc)
      (fun slot => p2p_fifo_one plan t (fun channel edge => alloc (channel, edge)) slot.1 slot.2)
      (fun b p => forall channel edge, p channel edge = pointer_to (b (channel, edge))) slots no_entries
      (fun _ _ => None) buffers') as (pointers & Hp & Hrel); [done| |exact Hf|].
  2: { exists pointers. split; [|intros channel edge; by rewrite Hrel, Heq].
       rewrite <- Hp. unfold slots. rewrite foldM_mbind.
       apply foldM_ext. intros channel p. by rewrite foldM_fmap. }
  intros [channel edge] b p b' _ Hbp. unfold point, wants_buffer, p2p_fifo_one. simpl. intros Hpoint.
  destruct (edge_kind plan edge) as [k|e]; [|done]. simpl in *.
  destruct (bool_decide (k = P2p)); simpl in *; [|injection Hpoint as <-; by eexists].
  destruct (negb _ || negb _); simpl in *; [done|].
  destruct (local_rank_for_global_rank t _) as [local|e]; [|done]. simpl in *.
  destruct (vec_at (devices t) local); [|done]. injection Hpoint as <-. eexists. split; [done|].
  intros c e. unfold set_entry, id. destruct (decide ((c, e) = (channel, edge))) as [[= -> ->]|Hne].
  - by rewrite !upd_eq.
  - destruct (decide (c = channel)) as [->|Hc]; [|by rewrite upd_ne].
    rewrite upd_eq, upd_ne by congruence. apply Hbp.
Qed.
End Storage.

(** ** A ring of one process over all devices

    The constructors that take a plan only, or a number of ranks, number the
    devices as the ranks. *)

Section SingleProcess.
Context `{BuildConfig} `{GpuSystem} (C : cuda).
Context (cudaDeviceCanAccessPeer : Z -> Z -> bool + string).

Definition make_single_process_topology (plan : RingTransportPlan) : ProcessTopology := {|
  global_rank_count := kRanks; local_rank_offset := 0; devices := zrange kRanks;
  edge_kinds := plan_edge_kinds plan; distributed := false |}.

Definition peer_access_available (src dst : Z) : res bool :=
  match cudaDeviceCanAccessPeer src dst with inl can_access => Ok can_access | inr text => Throw (RuntimeError text) end.

Definition require_peer_access (src dst : Z) : res unit :=
  available ← peer_access_available src dst;
  check available (RuntimeError ("P2P unavailable for ring edge " +:+ pretty src +:+ " -> " +:+ pretty dst)).

(** The loop returns at the first edge without access. *)
Definition p2p_ring_available : res bool :=
  foldM (fun edge available =>
    if available : bool then
      let receiver := (edge + 1) mod kRanks in
      there ← peer_access_available edge receiver;
      if negb there then Ok false else peer_access_available receiver edge
    else Ok false) (zrange kRanks) true.

Definition require_p2p_ring : res unit :=
  foldM (fun edge _ =>
    let receiver := (edge + 1) mod kRanks in
    require_peer_access edge receiver ;; require_peer_access receiver edge) (zrange kRanks) tt.

Definition enable_whole_ring (enabled : gset (Z * Z)) : res (gset (Z * Z)) :=
  require_p2p_ring ;;
  foldM (fun edge enabled =>
    let receiver := (edge + 1) mod kRanks in
    enable_peer_access_or_throw edge receiver enabled ≫= enable_peer_access_or_throw receiver edge)
    (zrange kRanks) enabled.

Definition P2pStepCounters_of_plan (plan : RingTransportPlan) : PM memory (Z -> option Z) :=
  P2pStepCounters_new C plan (make_single_process_topology plan).
Definition P2pFifo_of_plan (sz slot_elems : Z) (plan : RingTransportPlan) : PM memory (Z * Z -> option Z) :=
  P2pFifo_new C plan (make_single_process_topology plan) sz slot_elems.

Definition rank_count_error (who : string) (nranks : Z) : exn :=
  RuntimeError (who +:+ " requested nranks=" +:+ pretty nranks +:+ " does not match configured kRanks="
    +:+ pretty kRanks).

Definition P2pStepCounters_of_ranks (nranks : Z) : PM memory (Z -> option Z) :=
  _ ← p_lift (uniform P2p kRanks);
  _ ← p_lift (check (nranks =? kRanks) (rank_count_error "P2pStepCounters" nranks));
  _ ← p_lift require_p2p_ring;
  new_table C (zrange kRanks) id (fun rank => Ok (Some (rank, u64 (4 * kChannels * 8)))) (zrange kRanks).

Definition make_full_p2p_plan (nranks : Z) : res RingTransportPlan :=
  check (nranks =? kRanks) (rank_count_error "P2pFifo" nranks) ;;
  require_p2p_ring ;;
  uniform P2p kRanks.
Definition P2pFifo_of_ranks (sz slot_elems nranks : Z) : PM memory (Z * Z -> option Z) :=
  plan ← p_lift (make_full_p2p_plan nranks);
  P2pFifo_of_plan sz slot_elems plan.

(** *** What they do *)

(** Access in both directions of every edge. *)
Definition ring_accessible : Prop := forall edge, 0 <= edge < kRanks ->
  let receiver := (edge + 1) mod kRanks in
  cudaDeviceCanAccessPeer edge receiver = inl true /\ cudaDeviceCanAccessPeer receiver edge = inl true.
Definition edge_accessible (edge : Z) : Prop :=
  let receiver := (edge + 1) mod kRanks in
  cudaDeviceCanAccessPeer edge receiver = inl true /\ cudaDeviceCanAccessPeer receiver edge = inl true.

Lemma require_peer_access_ok src dst : require_peer_access src dst = Ok tt <-> cudaDeviceCanAccessPeer src dst = inl true.
Proof.
  unfold require_peer_access, peer_access_available.
  destruct (cudaDeviceCanAccessPeer src dst) as [[]|text]; simpl; split; congruence.
Qed.

(** The check passes exactly on a ring whose neighbours reach each other. *)
Theorem require_p2p_ring_ok : require_p2p_ring = Ok tt <-> ring_accessible.
Proof.
  unfold require_p2p_ring, ring_accessible.
  assert (forall l, foldM (fun edge (_ : unit) => require_peer_access edge ((edge + 1) mod kRanks) ;;
      require_peer_access ((edge + 1) mod kRanks) edge) l tt = Ok tt <-> Forall edge_accessible l) as Hl.
  { induction l as [|e l IH]; simpl; [done|]. rewrite Forall_cons, bind_ok, <- IH. split.
    - intros ([] & ([] & H1 & H2)%bind_ok & Hrest). rewrite require_peer_access_ok in H1, H2. done.
    - intros [[H1 H2] Hrest]. exists tt. split; [|done]. apply bind_ok. exists tt. by rewrite !require_peer_access_ok. }
  rewrite Hl, Forall_forall. unfold edge_accessible. by setoid_rewrite elem_of_zrange.
Qed.

(** The query says whether the check would pass. *)
Theorem p2p_ring_available_ok : p2p_ring_available = Ok true <-> require_p2p_ring = Ok tt.
Proof.
  rewrite require_p2p_ring_ok. unfold p2p_ring_available, ring_accessible.
  set (body := fun (edge : Z) (available : bool) => _).
  assert (forall l, foldM body l false = Ok false) as Hfalse by (induction l; [done|]; simpl; done).
  assert (forall l, foldM body l true = Ok true <-> Forall edge_accessible l) as Hl.
  { induction l as [|e l IH]; simpl; [done|]. rewrite Forall_cons, <- IH.
    unfold edge_accessible, body at 1, peer_access_available.
    destruct (cudaDeviceCanAccessPeer e ((e + 1) mod kRanks)) as [[]|text]; simpl;
      [|rewrite Hfalse; split; [done|by intros [[] ?]]|split; [done|by intros [[] ?]]].
    destruct (cudaDeviceCanAccessPeer ((e + 1) mod kRanks) e) as [[]|text]; simpl; [naive_solver| |split; [done|by intros [[] ?]]].
    rewrite Hfalse. split; [done|by intros [[] ?]]. }
  rewrite Hl, Forall_forall. unfold edge_accessible. by setoid_rewrite elem_of_zrange.
Qed.

(** What was enabled stays enabled, and every edge is, in both directions. *)
Theorem enable_whole_ring_ok enabled enabled' : enable_whole_ring enabled = Ok enabled' ->
  ring_accessible /\ enabled ⊆ enabled' /\ forall edge, 0 <= edge < kRanks ->
    let receiver := (edge + 1) mod kRanks in (edge, receiver) ∈ enabled' /\ (receiver, edge) ∈ enabled'.
Proof.
  unfold enable_whole_ring. intros ([] & Hreq%require_p2p_ring_ok & Hf)%bind_ok. split; [done|].
  apply (foldM_inv _ (fun past en => enabled ⊆ en /\ forall edge, edge ∈ past ->
    let receiver := (edge + 1) mod kRanks in (edge, receiver) ∈ en /\ (receiver, edge) ∈ en)) in Hf.
  - destruct Hf as [Hsub Hf]. split; [done|]. intros edge He. by apply Hf, elem_of_zrange.
  - split; [done|]. by intros e He%elem_of_nil.
  - intros past e rest en en' _ [Hsub Hpast] (en1 & H1%enable_peer_access_ok & H2%enable_peer_access_ok)%bind_ok.
    subst en1 en'. split; [set_solver|].
    intros edge [He| ->%list_elem_of_singleton]%elem_of_app; [|set_solver].
    destruct (Hpast edge He). set_solver.
Qed.

(** The counters of a ring of one process: they exist only when the ring is
    accessible and has the configured size, and then for every rank. *)
Theorem p2p_counters_of_ranks_owned nranks others m : held m ≡ₚ others ->
  match P2pStepCounters_of_ranks nranks m with
  | (m', Ok counters) => nranks = kRanks /\ ring_accessible /\
      held m' ≡ₚ table_owned (zrange kRanks) counters ++ others /\
      held (P2pStepCounters_cleanup counters m') ≡ₚ others /\
      forall rank, 0 <= rank < kRanks -> is_Some (counters rank)
  | (m', Throw _) => held m' ≡ₚ others
  end.
Proof.
  intros Hm. unfold P2pStepCounters_of_ranks, mbind, PM_bind, p_lift.
  destruct (uniform P2p kRanks); [|done].
  destruct (check (nranks =? kRanks) _) as [[]|e] eqn:Hn; [|done]. apply check_ok, Z.eqb_eq in Hn.
  destruct require_p2p_ring as [[]|e] eqn:Hr; [|done]. apply require_p2p_ring_ok in Hr.
  set (all := fun rank => Ok (Some (rank, _))).
  pose proof (new_table_spec C (zrange kRanks) (NoDup_seqZ _ _) id all others (zrange kRanks) m) as Ht.
  specialize (Ht ltac:(rewrite list_fmap_id; apply NoDup_seqZ) ltac:(done) Hm).
  destruct (new_table _ _ _ _ _ m) as [m' [counters|e]]; [|done].
  destruct Ht as (Hh & Hd & counters' & Hf & Heq). split_and!; [done|done|done|done|].
  intros rank Hrank. rewrite <- Heq.
  apply (foldM_inv (point id all (fun rank => default 0 (counters rank)))
    (fun past c => forall k, k ∈ past -> is_Some (c k)) (zrange kRanks) no_entries); [|intros past k ? c c' _|done|].
  - by intros k Hk%elem_of_nil.
  - intros Hpast Hc k' Hk'. injection Hc as <-. unfold set_entry, id.
    destruct (decide (k' = k)); [by eexists|].
    apply elem_of_app in Hk' as [Hk'|Hk'%list_elem_of_singleton]; [by apply Hpast|done].
  - by apply elem_of_zrange.
Qed.
End SingleProcess.

(** ** Three devices *)

Module P2pStorageWitness.
#[local] Existing Instance small_config.

(** Device 2 is full in [tight]. *)
Definition roomy : cuda := Buffers.Cuda (fun _ => None) (fun n => inl n) (fun _ p => inl p)
  (fun device n => inl (1000 * device + n)) true.
Definition tight : cuda := Buffers.Cuda (fun _ => None) (fun n => inl n) (fun _ p => inl p)
  (fun device n => if device =? 2 then inr "out of memory"%string else inl (1000 * device + n)) true.
Definition start : memory := Memory [Pinned 7] (-1) (fun _ _ => 0).
Definition plan : RingTransportPlan := Plan [P2p; P2p; P2p].

Definition counters_made (C : cuda) : Prop :=
  match P2pStepCounters_new C plan (make_single_process_topology plan) start with
  | (m', Ok counters) => held m' ≡ₚ table_owned (zrange kRanks) counters ++ [Pinned 7] /\
      held (P2pStepCounters_cleanup counters m') ≡ₚ [Pinned 7] /\
      exists pointers, p2p_step_counters plan (make_single_process_topology plan)
          (fun rank => default 0 (counters rank)) = Ok pointers /\
        forall rank, pointers rank = pointer_to (counters rank)
  | (m', Throw _) => held m' ≡ₚ [Pinned 7]
  end.
Lemma p2p_counters_owned_witness : counters_made roomy /\ counters_made tight.
Proof. split; apply (p2p_counters_owned _ plan (make_single_process_topology plan) [Pinned 7] start); done. Defined.

Example counters_roomy : let out := P2pStepCounters_new roomy plan (make_single_process_topology plan) start in
  (length (held out.1), match out.2 with Ok c => c <$> zrange 3 | Throw _ => [] end) =
  (4%nat, [Some 64; Some 1064; Some 2064]).
Proof. vm_compute. reflexivity. Qed.

Example fifo_tight : let out := P2pFifo_of_plan tight 4 16 plan start in
  (held out.1, match out.2 with Ok _ => None | Throw e => Some e end) =
  ([Pinned 7], Some (RuntimeError "out of memory")).
Proof. vm_compute. reflexivity. Qed.
End P2pStorageWitness.
