(* ===== verification/GdrFlush.v ===== *)
(** * The receive flush of GPUDirect

    [RdmaGdrReceiveFlush] of src/transport/rdma/rdma_gdr.cc: a NIC that writes
    into the memory of a GPU whose hardware does not order such writes needs a
    flush by the host before a kernel is told about the data.  The CUDA device
    that is current in a thread is part of its state. *)

From Stdlib Require Import ZArith Lia.
From stdpp Require Import base option numbers tactics strings list.
From S2P Require Import Prelude Resources.

#[local] Open Scope Z_scope.

Record flush_api := FlushApi {
  writes_ordering : Z -> Z + string;        (* cudaDevAttrGPUDirectRDMAWritesOrdering *)
  flush_writes_options : Z -> Z + string;   (* cudaDevAttrGPUDirectRDMAFlushWritesOptions *)
  ordering_owner : Z;                       (* cudaGPUDirectRDMAWritesOrderingOwner *)
  option_host : Z;                          (* cudaFlushGPUDirectRDMAWritesOptionHost *)
  cudaGetDevice_error : option string;
  cudaSetDevice_error : Z -> option string;
  cudaDeviceFlush_error : Z -> option string }.

(** The current device and the devices flushed so far, the last one first. *)
Record thread := Thread { current_device : Z; flushed : list Z }.
Record RdmaGdrReceiveFlush := ReceiveFlush { rf_device : Z; rf_required : bool }.

Abbreviation TM := (PM thread).

Section Flush.
Context (A : flush_api).

Definition cuda_check (answer : option string) : TM unit :=
  match answer with None => mret tt | Some text => p_throw (RuntimeError text) end.

(** The body of the [try] block of [flush]. *)
Definition flush_device (device : Z) : TM unit :=
  _ ← cuda_check (cudaGetDevice_error A);
  current ← p_gets current_device;
  _ ← (if decide (current = device) then mret tt else
         _ ← cuda_check (cudaSetDevice_error A device);
         p_modify (fun t => Thread device (flushed t)));
  current ← p_gets current_device;
  _ ← cuda_check (cudaDeviceFlush_error A current);
  p_modify (fun t => Thread (current_device t) (current_device t :: flushed t)).

Definition flush_error (x : exn) : exn :=
  match x with
  | RuntimeError what => RuntimeError ("backend=rdma/gdr receive flush failed: " +:+ what)
  | _ => x
  end.

Definition flush (f : RdmaGdrReceiveFlush) : TM unit := fun t =>
  if negb (rf_required f) then (t, Ok tt) else
  match flush_device (rf_device f) t with
  | (t', Ok u) => (t', Ok u)
  | (t', Throw x) => (t', Throw (flush_error x))
  end.

Definition for_device (device : Z) : TM RdmaGdrReceiveFlush :=
  match writes_ordering A device with
  | inr text => p_throw (RuntimeError text)
  | inl native_ordering =>
      if negb (native_ordering <? ordering_owner A) then mret (ReceiveFlush device false) else
      match flush_writes_options A device with
      | inr text => p_throw (RuntimeError text)
      | inl options =>
          if Z.land options (option_host A) =? 0 then p_throw (RuntimeError
            ("GPUDirect RDMA receive requires a host write flush, but the CUDA "
               +:+ "device does not support cudaDeviceFlushGPUDirectRDMAWrites"))
          else
            let result := ReceiveFlush device true in
            _ ← flush result; mret result
      end
  end.
End Flush.

(** A flush that returns has flushed the device of the receiver, whatever device
    was current, when one is required, and has done nothing otherwise. *)
Lemma flush_spec A f t0 : spec (fun t => t = t0) (flush A f) (fun t => flushed t = flushed t0)
  (fun _ t => if rf_required f
              then current_device t = rf_device f /\ flushed t = rf_device f :: flushed t0 /\
                   cudaDeviceFlush_error A (rf_device f) = None
              else t = t0).
Proof.
  intros t ->. unfold flush. destruct (rf_required f); simpl; [|done].
  unfold flush_device, mbind, PM_bind, p_gets, p_modify, cuda_check.
  destruct (cudaGetDevice_error A); [done|]. simpl. case_decide as Hc.
  - simpl. rewrite Hc. destruct (cudaDeviceFlush_error A (rf_device f)) eqn:E; simpl; by rewrite ?Hc.
  - destruct (cudaSetDevice_error A (rf_device f)); [done|]. simpl.
    by destruct (cudaDeviceFlush_error A (rf_device f)) eqn:E.
Qed.

(** The receive flush of GPUDirect: a flush object is made only for a device
    whose hardware orders the NIC's writes itself, and then flushing does
    nothing, or for a device that can be flushed by the host, after a first
    flush that succeeded; and every later flush that returns has flushed that
    device, whatever device other code has made current in between. *)
Theorem receive_flush_made A device t t' f : for_device A device t = (t', Ok f) ->
  rf_device f = device /\
  (if rf_required f
   then (exists ordering, writes_ordering A device = inl ordering /\ ordering < ordering_owner A) /\
        (exists options, flush_writes_options A device = inl options /\ Z.land options (option_host A) <> 0) /\
        flushed t' = device :: flushed t
   else (exists ordering, writes_ordering A device = inl ordering /\ ordering_owner A <= ordering) /\ t' = t) /\
  forall later later', flush A f later = (later', Ok tt) ->
    if rf_required f then flushed later' = device :: flushed later else later' = later.
Proof.
  unfold for_device. destruct (writes_ordering A device) as [ordering|text]; [|by intros [=]].
  assert (forall f later later', rf_device f = device -> flush A f later = (later', Ok tt) ->
    if rf_required f then flushed later' = device :: flushed later else later' = later) as Hlater.
  { intros g later later' Hg Hf. pose proof (flush_spec A g later later eq_refl) as H.
    rewrite Hf, Hg in H. destruct (rf_required g); [by destruct H as (_ & H & _)|done]. }
  destruct (Z.ltb_spec ordering (ordering_owner A)); simpl.
  2: { intros [= <- <-]. split; [done|]. split; [by split; [exists ordering|]|].
       intros later later'. by apply (Hlater (ReceiveFlush device false)). }
  destruct (flush_writes_options A device) as [options|text]; [|by intros [=]].
  destruct (Z.eqb_spec (Z.land options (option_host A)) 0); [by intros [=]|].
  unfold mbind, PM_bind. pose proof (flush_spec A (ReceiveFlush device true) t t eq_refl) as Hf.
  destruct (flush A _ t) as [t1 [u|x]]; [|by intros [=]]. intros [= <- <-]. destruct Hf as (_ & Hf & _).
  split; [done|]. split; [split_and!; [by exists ordering|by exists options|done]|].
  intros later later'. by apply (Hlater (ReceiveFlush device true)).
Qed.

Module FlushWitness.
(** Hardware that does not order writes, with a flush by the host. *)
Definition gpu : flush_api := FlushApi (fun _ => inl 0) (fun _ => inl 3) 100 1 None (fun _ => None) (fun _ => None).

Lemma receive_flush_made_witness :
  flushed (flush gpu (ReceiveFlush 2 true) (Thread 5 [2])).1 = [2; 2].
Proof.
  destruct (receive_flush_made gpu 2 (Thread 0 []) (Thread 2 [2]) (ReceiveFlush 2 true) eq_refl)
    as (_ & _ & H).
  exact (H (Thread 5 [2]) (Thread 2 [2; 2]) eq_refl).
Defined.
End FlushWitness.
