(* ===== verification/RdmaProgress.v ===== *)
(** * Threads of the RDMA proxies

    [RdmaProgressEngine] of src/transport/rdma/rdma_progress.cc, the thread that
    serves all RDMA proxies of a communicator; [prepare], [start], [run], [stop],
    [shutdown] and [join] of the proxies of rdma_proxy.cc, which have a thread of
    their own otherwise; how src/collective/all_reduce/communicator.cu starts
    either kind at the end of [setup_rdma_transport] and takes it down in the
    destructor of the communicator or when its constructor throws.

    What a proxy does in one call of [progress] is in RdmaProxy.v and
    RdmaWrite.v; here it is an interface, and the threads, the destructor,
    kernels and peers interleave at single calls. *)

From Stdlib Require Import ZArith Lia.
From stdpp Require Import base option numbers tactics strings list.
From S2P Require Import Prelude.

(** ** Objects *)

(** The flags of a proxy that its thread functions look at. *)
Record life := Life { prepared : bool; joinable : bool }.
Definition fresh_life : life := Life false false.

Definition prepare (what : string) (l : life) : res life :=
  if prepared l then Throw (RuntimeError ("rdma " +:+ what +:+ " proxy already prepared")) else
  if joinable l then Throw (RuntimeError ("rdma " +:+ what +:+ " proxy already started")) else
  Ok (Life true false).
Definition start (what : string) (l : life) : res life :=
  if joinable l then Throw (RuntimeError ("rdma " +:+ what +:+ " proxy already started")) else
  match prepare what l with Ok l => Ok (Life (prepared l) true) | Throw e => Throw e end.

(** A proxy to the engine: its place in the vector of the communicator and the
    NUMA node of its FIFO. *)
Record proxy_ref := ProxyRef { pr_index : nat; fifo_numa_node : Z }.

Record engine := Engine {
  e_sends : list nat; e_recvs : list nat; e_errors : bool; e_joinable : bool; e_stop : bool;
  pin_numa_node : Z }.
Definition new_engine : engine := Engine [] [] false false false (-1).

Definition pin_to (p : proxy_ref) (e : engine) : Z :=
  if (pin_numa_node e <? 0)%Z then fifo_numa_node p else pin_numa_node e.

Definition add_send (proxy : option proxy_ref) (e : engine) : res engine :=
  match proxy with
  | None => Throw (RuntimeError "rdma progress engine add_send null")
  | Some p =>
      if e_joinable e then Throw (RuntimeError "rdma progress engine cannot add_send after start") else
      Ok (Engine (e_sends e ++ [pr_index p]) (e_recvs e) (e_errors e) (e_joinable e) (e_stop e) (pin_to p e))
  end.
Definition add_recv (proxy : option proxy_ref) (e : engine) : res engine :=
  match proxy with
  | None => Throw (RuntimeError "rdma progress engine add_recv null")
  | Some p =>
      if e_joinable e then Throw (RuntimeError "rdma progress engine cannot add_recv after start") else
      Ok (Engine (e_sends e) (e_recvs e ++ [pr_index p]) (e_errors e) (e_joinable e) (e_stop e) (pin_to p e))
  end.

(** [errors] is whether the communicator has an error state. *)
Definition start_engine (errors : bool) (e : engine) : res engine :=
  if e_joinable e then Throw (RuntimeError "rdma progress engine already started") else
  if bool_decide (e_sends e = []) && bool_decide (e_recvs e = []) then Ok e else
  if negb errors then Throw (RuntimeError "rdma progress engine missing error state") else
  Ok (Engine (e_sends e) (e_recvs e) true true false (pin_numa_node e)).

(** ** Starting *)

Definition refs (nodes : list Z) : list proxy_ref := zip_with ProxyRef (seq 0 (length nodes)) nodes.

(** The end of [setup_rdma_transport], for proxies on FIFOs at the given nodes;
    Construct.v also models the readiness bytes exchanged between the two groups
    and the threads that cannot be created. *)
Definition start_threads (shared : bool) (recv_nodes send_nodes : list Z)
    (recvs sends : list life) (e : engine) : res (list life * list life * engine) :=
  if shared then
    recvs ← mapM (prepare "recv") recvs;
    sends ← mapM (prepare "send") sends;
    e ← foldM (fun p => add_recv (Some p)) (refs recv_nodes) e;
    e ← foldM (fun p => add_send (Some p)) (refs send_nodes) e;
    e ← start_engine true e;
    mret (recvs, sends, e)
  else
    recvs ← mapM (start "recv") recvs;
    sends ← mapM (start "send") sends;
    mret (recvs, sends, e).

(** ** Threads *)

(** A call of [progress] on a proxy. *)
Inductive call := RecvCall (i : nat) | SendCall (i : nat).
#[export] Instance call_eq_dec : EqDecision call.
Proof. solve_decision. Defined.

(** What the threads and the destructor use of the proxies.  [others] are the
    actions of kernels, NICs and peers; failures are never cleared, a stop is
    never taken back, and when all kernels have ended no proxy gets new work. *)
Class Proxies (S : Type) := {
  has_error : S -> bool;
  send_drained : nat -> S -> bool;                       (* send_head >= send_tail *)
  stop_requested : call -> S -> bool;
  shutdown : call -> S -> S;
  record_failure : S -> S;
  proxy_progress : call -> S -> S -> Prop;
  others : S -> S -> Prop;
  quiet_change (s s' : S) : Prop := (has_error s = true -> has_error s' = true) /\
    (forall i, send_drained i s = true -> send_drained i s' = true) /\
    (forall c, stop_requested c s = true -> stop_requested c s' = true);
  progress_quiet c s s' : proxy_progress c s s' -> quiet_change s s';
  others_quiet s s' : others s s' -> quiet_change s s';
  shutdown_quiet c s : quiet_change s (shutdown c s);
  record_quiet s : quiet_change s (record_failure s);
  progress_total c s : exists s', proxy_progress c s s';   (* [noexcept], and it returns *)
  shutdown_stops c s : stop_requested c (shutdown c s) = true;
  record_records s : has_error (record_failure s) = true }.

(** A thread: not created, before it is pinned, at the head of its loop, in the
    [for] loops with the proxies still to come, ended. *)
Inductive thread_pc := NoThread | Pinning | LoopHead | InPass (rest : list call) (any_error : bool) | Ended.

(** What the destructor does next. *)
Inductive instr :=
| Drain (i : nat) | Shutdown (c : call) | Stop (c : call) | Join (c : call)
| EngineShutdown | EngineJoin | Destroy (c : call).

Record sys (S : Type) := Sys {
  st : S; eng : thread_pc; eng_stop : bool; own : call -> thread_pc;
  calls : list call;                 (* of the engine, the last one last *)
  todo : list instr; destroyed : list call }.
Arguments Sys {S}. Arguments st {S}. Arguments eng {S}. Arguments eng_stop {S}.
Arguments own {S}. Arguments calls {S}. Arguments todo {S}. Arguments destroyed {S}.

Section Threads.
Context {S : Type} `{Proxies S} (order : list call).
Implicit Types s : sys S.

Definition set_own (own : call -> thread_pc) c pc : call -> thread_pc :=
  fun c' => if decide (c' = c) then pc else own c'.
Definition engine_to s pc : sys S := Sys (st s) pc (eng_stop s) (own s) (calls s) (todo s) (destroyed s).
Definition own_to s c pc : sys S :=
  Sys (st s) (eng s) (eng_stop s) (set_own (own s) c pc) (calls s) (todo s) (destroyed s).
Definition with_st s x : sys S := Sys x (eng s) (eng_stop s) (own s) (calls s) (todo s) (destroyed s).

(** [RdmaProgressEngine::run]; pinning may fail. *)
Inductive engine_step : sys S -> sys S -> Prop :=
| pinned s : eng s = Pinning -> engine_step s (engine_to s LoopHead)
| not_pinned s : eng s = Pinning -> engine_step s (engine_to (with_st s (record_failure (st s))) Ended)
| head_stop s : eng s = LoopHead -> eng_stop s = true -> engine_step s (engine_to s Ended)
| head_pass s : eng s = LoopHead -> eng_stop s = false -> engine_step s (engine_to s (InPass order false))
| pass_skip s c rest any : eng s = InPass (c :: rest) any -> has_error (st s) = true ->
    engine_step s (engine_to s (InPass rest true))
| pass_call s c rest any x : eng s = InPass (c :: rest) any -> has_error (st s) = false ->
    proxy_progress c (st s) x ->
    engine_step s (Sys x (InPass rest (any || has_error x)) (eng_stop s) (own s) (calls s ++ [c])
                     (todo s) (destroyed s))
| pass_end s any : eng s = InPass [] any ->
    engine_step s (engine_to s (if any then Ended else LoopHead)).

(** [run] of the proxies; a failure to pin is recorded unless a stop was
    requested. *)
Inductive own_step (c : call) : sys S -> sys S -> Prop :=
| own_pinned s : own s c = Pinning -> own_step c s (own_to s c LoopHead)
| own_not_pinned s : own s c = Pinning ->
    own_step c s (own_to (with_st s (if stop_requested c (st s) then st s else record_failure (st s))) c Ended)
| own_stop s : own s c = LoopHead -> stop_requested c (st s) || has_error (st s) = true ->
    own_step c s (own_to s c Ended)
| own_call s x : own s c = LoopHead -> stop_requested c (st s) || has_error (st s) = false ->
    proxy_progress c (st s) x -> own_step c s (with_st s x).

Definition at_rest (pc : thread_pc) : bool :=
  match pc with NoThread | Ended => true | _ => false end.

(** One instruction of the destructor; [None] while it waits. *)
Definition destroy_turn s : option (sys S) :=
  match todo s with
  | [] => None
  | i :: todo =>
      let next x stop gone := Some (Sys x (eng s) stop (own s) (calls s) todo gone) in
      match i with
      | Drain i => if has_error (st s) || send_drained i (st s) then next (st s) (eng_stop s) (destroyed s) else None
      | Shutdown c => next (shutdown c (st s)) (eng_stop s) (destroyed s)
      | Stop c =>
          next (if stop_requested c (st s) then st s else record_failure (shutdown c (st s)))
            (eng_stop s) (destroyed s)
      | Join c => if at_rest (own s c) then next (st s) (eng_stop s) (destroyed s) else None
      | EngineShutdown => next (st s) true (destroyed s)
      | EngineJoin => if at_rest (eng s) then next (st s) (eng_stop s) (destroyed s) else None
      | Destroy c => next (st s) (eng_stop s) (c :: destroyed s)
      end
  end.

Inductive sys_step : sys S -> sys S -> Prop :=
| step_engine s s' : engine_step s s' -> sys_step s s'
| step_own c s s' : own_step c s s' -> sys_step s s'
| step_destroy s s' : destroy_turn s = Some s' -> sys_step s s'
| step_others s x : others (st s) x -> sys_step s (with_st s x).
End Threads.

(** ** The destructor of the communicator *)

(** The part of the body that is about RDMA proxies. *)
Definition tear_down (shared : bool) (nrecv nsend : nat) : list instr :=
  let recvs := RecvCall <$> seq 0 nrecv in
  let sends := SendCall <$> seq 0 nsend in
  (Drain <$> seq 0 nsend) ++ (Shutdown <$> sends) ++ (Shutdown <$> recvs) ++
  (if shared then [EngineShutdown; EngineJoin] else (Join <$> sends) ++ (Join <$> recvs)).

(** The destructors of the members, in reverse order of declaration: the engine,
    the receive proxies, the send proxies.  The constructor runs only these when
    it throws. *)
Definition destroy_proxy (c : call) : list instr := [Stop c; Join c; Destroy c].
Definition destroy_members (nrecv nsend : nat) : list instr :=
  [EngineShutdown; EngineJoin] ++ ((RecvCall <$> seq 0 nrecv) ≫= destroy_proxy) ++
  ((SendCall <$> seq 0 nsend) ≫= destroy_proxy).
Definition destructor (shared : bool) (nrecv nsend : nat) : list instr :=
  tear_down shared nrecv nsend ++ destroy_members nrecv nsend.

(** ** What the destructor may rely on *)

(** What is known at a point of its program: the engine has been told to stop,
    it has ended, these proxies are stopped, these threads have ended. *)
Record knowledge := Known { k_stop : bool; k_ended : bool; k_stopped : list call; k_joined : list call }.
Definition nothing_known : knowledge := Known false false [] [].

Definition learn (i : instr) (k : knowledge) : knowledge :=
  match i with
  | Drain _ | Destroy _ => k
  | Shutdown c | Stop c => Known (k_stop k) (k_ended k) (c :: k_stopped k) (k_joined k)
  | Join c => Known (k_stop k) (k_ended k) (k_stopped k) (c :: k_joined k)
  | EngineShutdown => Known true (k_ended k) (k_stopped k) (k_joined k)
  | EngineJoin => Known (k_stop k) true (k_stopped k) (k_joined k)
  end.

(** A join waits for a thread that has been told to stop, and a proxy is
    destroyed after the threads that call it. *)
Definition justified (i : instr) (k : knowledge) : bool :=
  match i with
  | EngineJoin => k_stop k
  | Join c => bool_decide (c ∈ k_stopped k)
  | Destroy c => k_ended k && bool_decide (c ∈ k_joined k)
  | _ => true
  end.

Fixpoint justifies (k : knowledge) (p : list instr) : bool :=
  match p with [] => true | i :: p => justified i k && justifies (learn i k) p end.

Fixpoint learn_all (p : list instr) (k : knowledge) : knowledge :=
  match p with [] => k | i :: p => learn_all p (learn i k) end.

Lemma learn_all_app k p q : learn_all (p ++ q) k = learn_all q (learn_all p k).
Proof. revert k. induction p as [|i p IH]; intros k; simpl; [done|apply IH]. Qed.

Lemma justifies_app k p q : justifies k (p ++ q) = justifies k p && justifies (learn_all p k) q.
Proof.
  revert k. induction p as [|i p IH]; intros k; simpl; [done|]. by rewrite IH, andb_assoc.
Qed.

Lemma justifies_drains k l : justifies k (Drain <$> l) = true /\ learn_all (Drain <$> l) k = k.
Proof. induction l as [|i l IH]; simpl; [done|exact IH]. Qed.

Lemma justifies_shutdowns l : forall k, justifies k (Shutdown <$> l) = true /\
  exists stopped, learn_all (Shutdown <$> l) k = Known (k_stop k) (k_ended k) stopped (k_joined k) /\
    forall c, c ∈ stopped <-> c ∈ l \/ c ∈ k_stopped k.
Proof.
  induction l as [|a l IH]; intros k.
  { split; [done|]. exists (k_stopped k). split; [by destruct k|]. intros c. rewrite elem_of_nil. tauto. }
  destruct (IH (learn (Shutdown a) k)) as (Hj & stopped & Hl & Hs). simpl in *. split; [done|].
  exists stopped. split; [done|]. intros c. rewrite Hs, !elem_of_cons. tauto.
Qed.

Lemma justifies_joins l : forall k, (forall c, c ∈ l -> c ∈ k_stopped k) -> justifies k (Join <$> l) = true.
Proof.
  induction l as [|a l IH]; intros k Hk; simpl; [done|].
  rewrite bool_decide_true by (apply Hk; left). apply IH. intros c Hc. apply Hk. by right.
Qed.

Lemma justifies_proxies l : forall k, k_ended k = true -> justifies k (l ≫= destroy_proxy) = true /\
  k_ended (learn_all (l ≫= destroy_proxy) k) = true.
Proof.
  induction l as [|a l IH]; intros k Hk; [done|].
  destruct (IH (learn_all (destroy_proxy a) k) Hk) as [H1 H2]. simpl in *.
  rewrite Hk in H1, H2 |- *. rewrite !bool_decide_true by left. split; [exact H1|exact H2].
Qed.

Lemma members_justified nrecv nsend k : justifies k (destroy_members nrecv nsend) = true.
Proof.
  unfold destroy_members. rewrite justifies_app, justifies_app. simpl.
  destruct (justifies_proxies (RecvCall <$> seq 0 nrecv) (Known true true (k_stopped k) (k_joined k)) eq_refl)
    as [-> He]. simpl. by apply justifies_proxies.
Qed.

Lemma destructor_justified shared nrecv nsend : justifies nothing_known (destructor shared nrecv nsend) = true.
Proof.
  unfold destructor, tear_down. rewrite !justifies_app, members_justified, andb_true_r.
  destruct (justifies_drains nothing_known (seq 0 nsend)) as [-> ->].
  destruct (justifies_shutdowns (SendCall <$> seq 0 nsend) nothing_known) as (-> & s1 & -> & H1).
  match goal with |- context [learn_all (Shutdown <$> _) ?k] =>
    destruct (justifies_shutdowns (RecvCall <$> seq 0 nrecv) k) as (-> & s2 & -> & H2) end.
  simpl in *. destruct shared; [done|]. rewrite justifies_app.
  rewrite justifies_joins by (intros c Hc; apply H2; right; apply H1; by left). simpl.
  apply justifies_joins. intros c Hc.
  assert (forall l k, k_stopped (learn_all (Join <$> l) k) = k_stopped k) as Hl.
  { clear. induction l as [|a l IH]; intros k; simpl; [done|]. by rewrite IH. }
  rewrite Hl. apply H2. by left.
Qed.

(** ** Invariants of the threads *)

Section Facts.
Context {S : Type} `{Proxies S} (order : list call).
Implicit Types s : sys S.

Create HintDb rdma_threads.
Lemma quiet_refl (x : S) : quiet_change x x.
Proof. by split_and!. Qed.
Lemma quiet_trans (x y z : S) : quiet_change x y -> quiet_change y z -> quiet_change x z.
Proof. intros (H1 & H2 & H3) (H4 & H5 & H6). split_and!; eauto. Qed.
Hint Resolve quiet_refl quiet_trans progress_quiet others_quiet shutdown_quiet record_quiet : rdma_threads.

(** Nothing that has come to an end starts again. *)
Record onward s s' : Prop := {
  on_st : quiet_change (st s) (st s');
  on_stop : eng_stop s = true -> eng_stop s' = true;
  on_eng : at_rest (eng s) = true -> eng s' = eng s;
  on_own c : at_rest (own s c) = true -> own s' c = own s c }.

Lemma onward_refl s : onward s s.
Proof. split; auto using quiet_refl. Qed.

Lemma engine_onward s s' : engine_step order s s' ->
  onward s s' /\ todo s' = todo s /\ destroyed s' = destroyed s.
Proof.
  intros []; (split; [split; simpl|done]); eauto with rdma_threads; intros Hr;
  match goal with E : eng _ = _ |- _ => by rewrite E in Hr end.
Qed.

Lemma set_own_at_rest o c pc c' : o c <> NoThread -> o c <> Ended ->
  at_rest (o c') = true -> set_own o c pc c' = o c'.
Proof. intros H1 H2 Hr. unfold set_own. case_decide; [subst|done]. by destruct (o c). Qed.

Lemma own_onward c s s' : own_step c s s' ->
  onward s s' /\ todo s' = todo s /\ destroyed s' = destroyed s.
Proof.
  intros []; (split; [split; simpl|done]); eauto with rdma_threads;
    try (intros c' Hr; apply set_own_at_rest; congruence).
  match goal with |- context [if ?b then _ else _] => destruct b end; eauto with rdma_threads.
Qed.

Lemma destroy_onward s s' : destroy_turn s = Some s' -> onward s s' /\ exists i,
  todo s = i :: todo s' /\ destroyed s' = (match i with Destroy c => [c] | _ => [] end) ++ destroyed s /\
  match i with
  | Drain i => has_error (st s) || send_drained i (st s) = true
  | Shutdown c | Stop c => stop_requested c (st s') = true
  | Join c => at_rest (own s c) = true
  | EngineShutdown => eng_stop s' = true
  | EngineJoin => at_rest (eng s) = true
  | Destroy _ => True
  end.
Proof.
  unfold destroy_turn. destruct (todo s) as [|i l] eqn:Ht; [done|].
  destruct i as [i|c|c|c| | |c]; simpl.
  - destruct (_ || _) eqn:Hd; [|done]. intros [= <-]. split; [by split; simpl; auto using quiet_refl|]. by exists (Drain i).
  - intros [= <-]. split; [split; simpl; eauto with rdma_threads|]. exists (Shutdown c). simpl. by rewrite shutdown_stops.
  - intros [= <-]. destruct (stop_requested c (st s)) eqn:Hc.
    + split; [split; simpl; eauto with rdma_threads|]. by exists (Stop c).
    + split; [split; simpl; eauto with rdma_threads|]. exists (Stop c). split_and!; try done. simpl.
      apply record_quiet, shutdown_stops.
  - destruct (at_rest (own s c)) eqn:Hc; [|done]. intros [= <-].
    split; [by split; simpl; auto using quiet_refl|]. by exists (Join c).
  - intros [= <-]. split; [by split; simpl; auto using quiet_refl|]. by exists EngineShutdown.
  - destruct (at_rest (eng s)) eqn:Hc; [|done]. intros [= <-].
    split; [by split; simpl; auto using quiet_refl|]. by exists EngineJoin.
  - intros [= <-]. split; [by split; simpl; auto using quiet_refl|]. by exists (Destroy c).
Qed.

Lemma step_onward s s' : sys_step order s s' -> onward s s'.
Proof.
  intros [s1 s2 Hs|c s1 s2 Hs|s1 s2 Hs|s1 x Hs].
  - by destruct (engine_onward _ _ Hs).
  - by destruct (own_onward _ _ _ Hs).
  - by destruct (destroy_onward _ _ Hs).
  - split; simpl; eauto with rdma_threads.
Qed.

Lemma destroy_keeps s s' : destroy_turn s = Some s' -> own s' = own s /\ eng s' = eng s /\ calls s' = calls s.
Proof. unfold destroy_turn. repeat case_match; by intros [= <-]. Qed.

(** A thread of a proxy has no [for] loops. *)
Definition own_loops s : Prop := forall c rest any, own s c <> InPass rest any.

Lemma step_own_loops s s' : own_loops s -> sys_step order s s' -> own_loops s'.
Proof.
  intros Hs Hst c rest any. destruct Hst as [s s' Hst|c' s s' Hst|s s' Hst|s x Hst].
  - destruct Hst; apply Hs.
  - destruct Hst; simpl; try apply Hs; unfold set_own; case_decide; [done|apply Hs|done|apply Hs|done|apply Hs].
  - destruct (destroy_keeps _ _ Hst) as [-> _]. apply Hs.
  - apply Hs.
Qed.

(** What the destructor knows is true. *)
Record knows (k : knowledge) s : Prop := {
  kn_stop : k_stop k = true -> eng_stop s = true;
  kn_ended : k_ended k = true -> at_rest (eng s) = true;
  kn_stopped c : c ∈ k_stopped k -> stop_requested c (st s) = true;
  kn_joined c : c ∈ k_joined k -> at_rest (own s c) = true }.

Lemma onward_knows k s s' : onward s s' -> knows k s -> knows k s'.
Proof.
  intros [(_ & _ & H1) H2 H3 H4] [K1 K2 K3 K4]. split; auto.
  - intros Hk. rewrite H3; auto.
  - intros c Hc. rewrite H4; auto.
Qed.

Definition untouched s (c : call) : Prop := at_rest (eng s) = true /\ at_rest (own s c) = true.

Lemma onward_untouched s s' c : onward s s' -> untouched s c -> untouched s' c.
Proof. intros [_ _ H3 H4] [U1 U2]. split; [rewrite H3|rewrite H4]; auto. Qed.

(** The invariant: the rest of the program is justified by what is known. *)
Definition in_order s : Prop :=
  (exists k, knows k s /\ justifies k (todo s) = true) /\ forall c, c ∈ destroyed s -> untouched s c.

Lemma learn_knows i k s s' : onward s s' -> knows k s -> todo s = i :: todo s' ->
  match i with
  | Drain i => has_error (st s) || send_drained i (st s) = true
  | Shutdown c | Stop c => stop_requested c (st s') = true
  | Join c => at_rest (own s c) = true
  | EngineShutdown => eng_stop s' = true
  | EngineJoin => at_rest (eng s) = true
  | Destroy _ => True
  end -> knows (learn i k) s'.
Proof.
  intros Hon Hk _ Hi. pose proof (onward_knows k s s' Hon Hk) as [K1 K2 K3 K4].
  destruct i; split; simpl in *; auto; try (intros c'; rewrite elem_of_cons; intros [->|]; auto);
    try (intros _; by rewrite (on_eng _ _ Hon)). by rewrite (on_own _ _ Hon).
Qed.

Lemma step_in_order s s' : in_order s -> sys_step order s s' -> in_order s'.
Proof.
  intros [(k & Hk & Hj) Hd] Hst.
  assert (onward s s' -> todo s' = todo s -> destroyed s' = destroyed s -> in_order s') as Hquiet.
  { intros Hon Ht He. split.
    - exists k. rewrite Ht. split; [by eapply onward_knows|done].
    - intros c. rewrite He. intros Hc. eapply onward_untouched; [exact Hon|auto]. }
  destruct Hst as [s s' He|c s s' Ho|s s' Hdt|s x Hx].
  - apply engine_onward in He as (? & ? & ?). auto.
  - apply own_onward in Ho as (? & ? & ?). auto.
  - apply destroy_onward in Hdt as (Hon & i & Ht & Hde & Hi).
    rewrite Ht in Hj. simpl in Hj. apply andb_true_iff in Hj as [Hji Hj]. split.
    + exists (learn i k). split; [by eapply learn_knows|done].
    + intros c. rewrite Hde, elem_of_app. intros [Hc|Hc]; [|eapply onward_untouched; [exact Hon|auto]].
      destruct i; try (by apply elem_of_nil in Hc). apply list_elem_of_singleton in Hc as ->.
      simpl in Hji. apply andb_true_iff in Hji as [He Hc%bool_decide_eq_true].
      eapply onward_untouched; [exact Hon|]. split; [by apply (kn_ended _ _ Hk)|by apply (kn_joined _ _ Hk)].
  - apply Hquiet; [|done|done]. split; simpl; eauto with rdma_threads.
Qed.

Lemma steps_in_order s s' : in_order s -> steps (sys_step order) s s' -> in_order s'.
Proof. apply steps_invariant. apply step_in_order. Qed.

(** Threads that have been created have not run yet; the destructor or the
    unwinding of the constructor has the program [p] before it. *)
Record created (p : list instr) s : Prop := {
  cr_eng : eng s = NoThread \/ eng s = Pinning;
  cr_own c : own s c = NoThread \/ own s c = Pinning;
  cr_stop : eng_stop s = false;
  cr_calls : calls s = [];
  cr_todo : todo s = p;
  cr_destroyed : destroyed s = [] }.

Lemma created_in_order p s : justifies nothing_known p = true -> created p s -> in_order s.
Proof.
  intros Hp [_ _ _ _ Ht Hd]. split; [|rewrite Hd; intros c Hc; by apply elem_of_nil in Hc].
  exists nothing_known. rewrite Ht. split; [|done].
  split; simpl; try done; intros c Hc; by apply elem_of_nil in Hc.
Qed.

Lemma untouched_idle s c : untouched s c ->
  (forall s', ~ engine_step order s s') /\ (forall s', ~ own_step c s s').
Proof.
  intros [He Ho]. split; intros s' Hst; inversion Hst; subst;
    match goal with E : eng _ = _ |- _ => by rewrite E in He
    | E : own _ _ = _ |- _ => by rewrite E in Ho end.
Qed.

(** C26: No thread calls a proxy that has been destroyed.  Whether the destructor
    of the communicator runs or its constructor throws, with one thread for all
    proxies or a thread for each, in every interleaving and whatever fails: when
    a proxy is destroyed, the engine and its own thread have ended or were never
    created, so none of them takes another step. *)
Theorem proxies_outlive_threads shared nrecv nsend p s0 s c :
  p = destructor shared nrecv nsend \/ p = destroy_members nrecv nsend ->
  created p s0 -> steps (sys_step order) s0 s -> c ∈ destroyed s ->
  at_rest (eng s) = true /\ at_rest (own s c) = true /\
  (forall s', ~ engine_step order s s') /\ (forall s', ~ own_step c s s').
Proof.
  intros Hp Hc Hst Hd.
  assert (justifies nothing_known p = true) as Hj.
  { destruct Hp as [-> | ->]; [apply destructor_justified|apply members_justified]. }
  pose proof (steps_in_order _ _ (created_in_order _ _ Hj Hc) Hst) as [_ Hu].
  destruct (Hu c Hd) as [He Ho]. split_and!; [done|done|..]; by eapply untouched_idle.
Qed.

(** ** Fairness of the engine *)

(** Without a failure the engine has gone round the proxies some times and is
    at place [j]; after a failure it calls nobody any more. *)
Definition going_round s : Prop := exists k j, (j <= length order)%nat /\
  calls s = mjoin (replicate k order) ++ take j order /\
  (has_error (st s) = false ->
   match eng s with
   | NoThread | Pinning | LoopHead => j = 0%nat
   | InPass rest _ => rest = drop j order
   | Ended => True
   end).

Lemma round_extend k j c rest : drop j order = c :: rest ->
  (Datatypes.S j <= length order)%nat /\ rest = drop (Datatypes.S j) order /\
  (mjoin (replicate k order) ++ take j order) ++ [c] = mjoin (replicate k order) ++ take (Datatypes.S j) order.
Proof.
  intros Hd. assert (order !! j = Some c) as Hj by (rewrite <- (Nat.add_0_r j), <- lookup_drop, Hd; done).
  split_and!.
  - by apply lookup_lt_Some in Hj.
  - rewrite <- (Nat.add_1_r j), <- drop_drop, Hd. done.
  - by rewrite <- app_assoc, (take_S_r _ _ c).
Qed.

Lemma step_going_round s s' : going_round s -> sys_step order s s' -> going_round s'.
Proof.
  intros (k & j & Hj & Hc & He) Hst.
  assert (has_error (st s') = false -> has_error (st s) = false) as Hback.
  { destruct (step_onward _ _ Hst) as [(Hq & _) _ _ _]. destruct (has_error (st s)); [|done]. by rewrite Hq. }
  assert (calls s' = calls s -> eng s' = eng s -> going_round s') as Hsame.
  { intros Hcs Hes. exists k, j. rewrite Hcs, Hes. split_and!; [done|done|]. intros Hne. by apply He, Hback. }
  destruct Hst as [s s' Hs|c s s' Hs|s s' Hs|s x Hs]; [|by destruct Hs; apply Hsame| |by apply Hsame].
  2: { apply destroy_keeps in Hs as (_ & ? & ?). by apply Hsame. }
  destruct Hs as [s Hp|s Hp|s Hp Hstop|s Hp Hstop|s c rest any Hp Herr|s c rest any x Hp Herr Hx|s any Hp];
    rewrite Hp in He; simpl in *.
  - by exists k, j.
  - by exists k, j.
  - by exists k, j.
  - exists k, j. split_and!; try done. intros Hne. by rewrite (He Hne).
  - exists k, j. split_and!; [done|done|]. simpl. by rewrite Herr.
  - specialize (He Herr). destruct (round_extend k j c rest (eq_sym He)) as (Hlt & Hrest & Hcat).
    exists k, (Datatypes.S j). by rewrite Hc.
  - destruct (has_error (st s)) eqn:Herr; [exists k, j; split_and!; [done|done|]; simpl; by rewrite Herr|].
    specialize (He eq_refl). exists (Datatypes.S k), 0%nat. split_and!; [lia| |by destruct any].
    rewrite replicate_S_end, join_app. simpl. rewrite Hc, take_0, app_nil_r, take_ge; [|by apply drop_nil_inv].
    by rewrite app_nil_r.
Qed.

(** The engine serves the proxies round robin: in every reachable state, with
    failures, stops and a tear-down under way, the calls it has made are a
    number of complete rounds in the order of its lists and the beginning of
    one more; so no proxy is ever more than one call behind another. *)
Theorem engine_round_robin p s0 s : created p s0 -> steps (sys_step order) s0 s ->
  exists k j, (j <= length order)%nat /\ calls s = mjoin (replicate k order) ++ take j order.
Proof.
  intros [He _ _ Hc _ _] Hst.
  assert (going_round s) as (k & j & Hj & Hcalls & _); [|by exists k, j].
  refine (steps_invariant _ going_round step_going_round s0 s _ Hst).
  exists 0%nat, 0%nat. split_and!; [lia|done|]. intros _. by destruct He as [-> | ->].
Qed.

(** ** The tear-down *)

Definition drained_or_failed (x : S) (i : nat) : Prop := has_error x || send_drained i x = true.

Lemma onward_drained s s' i : onward s s' -> drained_or_failed (st s) i -> drained_or_failed (st s') i.
Proof.
  intros [(H1 & H2 & _) _ _ _] [He|Hd]%orb_true_iff; apply orb_true_iff; auto.
Qed.

(** How far the destructor is, and what it has seen. *)
Definition at_place (nsend : nat) (p : list instr) s : Prop := exists k, todo s = drop k p /\
  ((k <= nsend)%nat -> eng_stop s = false) /\
  forall i, (i < k)%nat -> (i < nsend)%nat -> drained_or_failed (st s) i.

Lemma step_at_place nsend p s s' :
  (forall i, (i < nsend)%nat -> p !! i = Some (Drain i)) ->
  at_place nsend p s -> sys_step order s s' -> at_place nsend p s'.
Proof.
  intros Hp (k & Ht & Hstop & Hd) Hst. pose proof (step_onward _ _ Hst) as Hon.
  assert (todo s' = todo s -> eng_stop s' = eng_stop s -> at_place nsend p s') as Hsame.
  { intros E1 E2. exists k. rewrite E1, E2. split_and!; eauto using onward_drained. }
  destruct Hst as [s s' Hs|c s s' Hs|s s' Hs|s x Hs];
    [by destruct Hs; apply Hsame|by destruct Hs; apply Hsame| |by apply Hsame].
  pose proof (destroy_onward _ _ Hs) as (_ & i & Hi & _ & Hwhat).
  assert (p !! k = Some i) as Hk by (rewrite <- (Nat.add_0_r k), <- lookup_drop, <- Ht, Hi; done).
  exists (Datatypes.S k). split_and!.
  - apply (f_equal (drop 1)) in Ht. rewrite Hi, drop_drop, Nat.add_1_r in Ht. exact Ht.
  - intros Hle. assert (eng_stop s = false) as Hes by (apply Hstop; lia).
    rewrite Hp in Hk by lia. injection Hk as <-. unfold destroy_turn in Hs. rewrite Hi in Hs.
    case_match; [injection Hs as <-; exact Hes|done].
  - intros j Hj Hn. destruct (decide (j = k)) as [->|]; [|eapply onward_drained; [done|apply Hd; lia]].
    rewrite Hp in Hk by done. injection Hk as <-. eapply onward_drained; [done|exact Hwhat].
Qed.

Lemma destructor_drains shared nrecv nsend i : (i < nsend)%nat ->
  destructor shared nrecv nsend !! i = Some (Drain i).
Proof.
  intros Hi. unfold destructor, tear_down. rewrite <- !app_assoc, lookup_app_l.
  - rewrite list_lookup_fmap, lookup_seq_lt by done. done.
  - by rewrite length_fmap, length_seq.
Qed.

(** The engine serves until everything is sent.  In every interleaving the
    destructor tells it to stop only when each send proxy has been drained or a
    failure has been recorded, and so do the proxies' own stops, which come
    after the last wait for a drain. *)
Theorem served_until_drained shared nrecv nsend s0 s :
  created (destructor shared nrecv nsend) s0 -> steps (sys_step order) s0 s ->
  eng_stop s = true \/ (forall i, Drain i ∉ todo s) ->
  forall i, (i < nsend)%nat -> has_error (st s) = true \/ send_drained i (st s) = true.
Proof.
  intros [_ _ Hes _ Ht _] Hst Hcase i Hi. set (p := destructor shared nrecv nsend) in *.
  assert (at_place nsend p s) as (k & Hk & Hstop & Hd).
  { refine (steps_invariant _ _ (fun a b Ha Hb => step_at_place nsend p a b _ Ha Hb) s0 s _ Hst).
    - intros j Hj. by apply destructor_drains.
    - exists 0%nat. rewrite drop_0. split_and!; [done|done|lia]. }
  apply orb_true_iff, Hd; [|done]. destruct (decide (i < k)%nat) as [|Hge]; [done|].
  destruct Hcase as [He|Hno]; [rewrite Hstop in He by lia; done|].
  destruct (Hno i). rewrite Hk. apply (list_elem_of_lookup_2 _ (i - k)). rewrite lookup_drop.
  replace (k + (i - k))%nat with i by lia. by apply destructor_drains.
Qed.

(** A thread that has been told to stop can come to its end. *)
Lemma engine_can_rest s : eng_stop s = true ->
  exists s', steps (sys_step order) s s' /\ at_rest (eng s') = true /\ todo s' = todo s.
Proof.
  assert (forall s, eng_stop s = true -> eng s = LoopHead ->
    exists s', steps (sys_step order) s s' /\ at_rest (eng s') = true /\ todo s' = todo s) as Hhead.
  { clear s. intros s Hs Hp. exists (engine_to s Ended). split; [|done]. by apply steps_once, step_engine, head_stop. }
  intros Hs. destruct (eng s) as [| | |rest any|] eqn:Hp.
  - by exists s; rewrite Hp.
  - destruct (Hhead (engine_to s LoopHead)) as (s' & H1 & H2 & H3); [done|done|].
    exists s'. split; [|done]. eapply steps_trans; [|exact H1]. by apply steps_once, step_engine, pinned.
  - by apply Hhead.
  - revert s any Hs Hp. induction rest as [|c rest IH]; intros s any Hs Hp.
    + pose proof (pass_end order s any Hp) as Hst. destruct any.
      * exists (engine_to s Ended). by split; [apply steps_once, step_engine|].
      * destruct (Hhead (engine_to s LoopHead)) as (s' & H1 & H2 & H3); [done|done|].
        exists s'. split; [|done]. eapply steps_trans; [|exact H1]. by apply steps_once, step_engine.
    + destruct (has_error (st s)) eqn:He.
      * destruct (IH (engine_to s (InPass rest true)) true) as (s' & H1 & H2 & H3); [done|done|].
        exists s'. split; [|done]. eapply steps_trans; [|exact H1].
        by eapply steps_once, step_engine, pass_skip.
      * destruct (progress_total c (st s)) as [x Hx].
        pose proof (pass_call order s c rest any x Hp He Hx) as Hst.
        match type of Hst with engine_step _ _ ?s1 =>
          destruct (IH s1 (any || has_error x) Hs eq_refl) as (s' & H1 & H2 & H3) end.
        exists s'. split; [|done]. eapply steps_trans; [|exact H1]. by apply steps_once, step_engine.
  - by exists s; rewrite Hp.
Qed.

Lemma own_can_rest s c : stop_requested c (st s) = true -> (forall rest any, own s c <> InPass rest any) ->
  exists s', steps (sys_step order) s s' /\ at_rest (own s' c) = true /\ todo s' = todo s.
Proof.
  intros Hs Hno. destruct (own s c) as [| | |rest any|] eqn:Hp.
  - by exists s; rewrite Hp.
  - exists (own_to (own_to s c LoopHead) c Ended). split.
    + eapply steps_trans; [by eapply steps_once, step_own, own_pinned|].
      apply steps_once, (step_own _ c), own_stop; simpl; [|by rewrite Hs].
      unfold set_own. by rewrite decide_True.
    + simpl. unfold set_own. by rewrite decide_True.
  - exists (own_to s c Ended). split.
    + apply steps_once, (step_own _ c), own_stop; [done|by rewrite Hs].
    + simpl. unfold set_own. by rewrite decide_True.
  - by destruct (Hno rest any).
  - by exists s; rewrite Hp.
Qed.

(** What lets the tear-down go on: its program is in order, the proxies' own
    threads are in their own loop, and the drains it still waits for are done. *)
Record can_finish s : Prop := {
  cf_order : in_order s;
  cf_own : own_loops s;
  cf_drains i : Drain i ∈ todo s -> drained_or_failed (st s) i }.

Lemma step_can_finish s s' : can_finish s -> sys_step order s s' -> can_finish s'.
Proof.
  intros [H1 H2 H3] Hst. pose proof (step_onward _ _ Hst) as Hon. split.
  - by eapply step_in_order.
  - by eapply step_own_loops.
  - intros i Hi. eapply onward_drained; [exact Hon|apply H3].
    destruct Hst as [s s' Hs|c' s s' Hs|s s' Hs|s x Hs]; [by destruct Hs|by destruct Hs| |done].
    apply destroy_onward in Hs as (_ & j & -> & _). by right.
Qed.

Lemma finish_instr s : can_finish s -> todo s = [] \/
  exists s', steps (sys_step order) s s' /\ (length (todo s') < length (todo s))%nat.
Proof.
  intros [[(k & Hk & Hj) _] Hown Hdr]. destruct (todo s) as [|i l] eqn:Ht; [by left|right].
  assert (forall s1, todo s1 = i :: l -> is_Some (destroy_turn s1) ->
    exists s', steps (sys_step order) s1 s' /\ (length (todo s') < length (i :: l))%nat) as Hturn.
  { intros s1 Ht1 [s' Hs']. exists s'. split; [by apply steps_once, step_destroy|].
    apply destroy_onward in Hs' as (_ & j & Hj' & _). rewrite Ht1 in Hj'. injection Hj' as _ ->. simpl. lia. }
  simpl in Hj. apply andb_true_iff in Hj as [Hji _].
  destruct i as [i|c|c|c| | |c]; try (apply Hturn; [done|unfold destroy_turn; rewrite Ht; done]).
  - apply Hturn; [done|]. unfold destroy_turn. rewrite Ht, (Hdr i) by left. done.
  - apply bool_decide_eq_true in Hji.
    destruct (own_can_rest s c (kn_stopped _ _ Hk c Hji) (Hown c)) as (s1 & Hs1 & Hr & Ht1).
    rewrite Ht in Ht1. destruct (Hturn s1 Ht1) as (s2 & Hs2 & Hl); [unfold destroy_turn; by rewrite Ht1, Hr|].
    exists s2. eauto.
  - destruct (engine_can_rest s (kn_stop _ _ Hk Hji)) as (s1 & Hs1 & Hr & Ht1).
    rewrite Ht in Ht1. destruct (Hturn s1 Ht1) as (s2 & Hs2 & Hl); [unfold destroy_turn; by rewrite Ht1, Hr|].
    exists s2. eauto.
Qed.

(** The tear-down cannot hang on the threads: from every reachable state of
    the destructor, or of the unwinding of the constructor, in which the drains
    it still waits for are done or a failure has been recorded, it can be
    completed, whatever the threads are doing and whether they could be pinned
    or not. *)
Theorem tear_down_completes shared nrecv nsend p s0 s :
  p = destructor shared nrecv nsend \/ p = destroy_members nrecv nsend ->
  created p s0 -> steps (sys_step order) s0 s ->
  (forall i, Drain i ∈ todo s -> has_error (st s) = true \/ send_drained i (st s) = true) ->
  exists s', steps (sys_step order) s s' /\ todo s' = [].
Proof.
  intros Hp Hc Hst Hd.
  assert (justifies nothing_known p = true) as Hj.
  { destruct Hp as [-> | ->]; [apply destructor_justified|apply members_justified]. }
  apply (steps_terminate _ can_finish (fun s => todo s = []) (fun s => length (todo s)));
    [apply step_can_finish| |].
  - intros s1 Hs1. apply finish_instr in Hs1. tauto.
  - split; [by eapply steps_in_order, Hst; eapply created_in_order|..|intros i Hi; by apply orb_true_iff, Hd].
    refine (steps_invariant _ own_loops step_own_loops s0 s _ Hst).
    intros c rest any. by destruct (cr_own _ _ Hc c) as [-> | ->].
Qed.
End Facts.

(** ** What has been started *)

Definition engine_order (e : engine) : list call := (RecvCall <$> e_recvs e) ++ (SendCall <$> e_sends e).

(** The threads at the end of the set-up, with what is left to the destructor. *)
Definition after_start {S} (recvs sends : list life) (e : engine) (x : S) (p : list instr) : sys S :=
  Sys x (if e_joinable e then Pinning else NoThread) (e_stop e)
    (fun c => match match c with RecvCall i => recvs !! i | SendCall i => sends !! i end with
              | Some l => if joinable l then Pinning else NoThread
              | None => NoThread
              end) [] p [].

Lemma mapM_lives (f : life -> res life) n l l' : f l = Ok l' -> mapM f (replicate n l) = Ok (replicate n l').
Proof. intros Hf. induction n as [|n IH]; simpl; [done|]. by rewrite Hf, IH. Qed.

(** The node that the thread is pinned to: the first that is known. *)
Definition pin_from (n : Z) (ps : list proxy_ref) : Z :=
  foldl (fun n p => if (n <? 0)%Z then fifo_numa_node p else n) n ps.

Lemma pin_from_pinned n ps : (0 <= n)%Z -> pin_from n ps = n.
Proof. intros Hn. induction ps as [|p ps IH]; simpl; [done|]. by rewrite (proj2 (Z.ltb_ge _ _)). Qed.

Lemma pin_from_refs nodes n : Forall (fun n => 0 <= n)%Z nodes -> (n < 0)%Z ->
  pin_from n (refs nodes) = default n (head nodes).
Proof.
  intros Hf Hn. unfold refs. destruct Hf as [|x l Hx Hl]; simpl; [done|].
  rewrite (proj2 (Z.ltb_lt _ _)) by done. by apply pin_from_pinned.
Qed.

Lemma pin_from_both rn sn : Forall (fun n => 0 <= n)%Z (rn ++ sn) -> rn ++ sn <> [] ->
  Some (pin_from (pin_from (-1) (refs rn)) (refs sn)) = head (rn ++ sn).
Proof.
  intros [Hr Hs]%Forall_app Hne. rewrite (pin_from_refs rn) by done. destruct Hr as [|n l Hn _]; simpl.
  - rewrite pin_from_refs by done. by destruct sn.
  - by rewrite pin_from_pinned.
Qed.

Lemma add_recvs ps : forall e, e_joinable e = false ->
  foldM (fun p => add_recv (Some p)) ps e =
  Ok (Engine (e_sends e) (e_recvs e ++ (pr_index <$> ps)) (e_errors e) false (e_stop e) (pin_from (pin_numa_node e) ps)).
Proof.
  induction ps as [|p ps IH]; intros e He; simpl; [rewrite app_nil_r, <- He; by destruct e|].
  rewrite He. simpl. rewrite IH by done. simpl. by rewrite <- app_assoc.
Qed.

Lemma add_sends ps : forall e, e_joinable e = false ->
  foldM (fun p => add_send (Some p)) ps e =
  Ok (Engine (e_sends e ++ (pr_index <$> ps)) (e_recvs e) (e_errors e) false (e_stop e) (pin_from (pin_numa_node e) ps)).
Proof.
  induction ps as [|p ps IH]; intros e He; simpl; [rewrite app_nil_r, <- He; by destruct e|].
  rewrite He. simpl. rewrite IH by done. simpl. by rewrite <- app_assoc.
Qed.

Lemma refs_index nodes : pr_index <$> refs nodes = seq 0 (length nodes).
Proof.
  unfold refs. generalize 0%nat. induction nodes as [|n l IH]; intros i; simpl; [done|]. by rewrite IH.
Qed.

(** Threads are started once and for every proxy.  With the shared engine all
    proxies are prepared, none gets a thread of its own, and the engine's thread
    serves every proxy exactly once per round, receivers before senders, near
    the first FIFO; otherwise each proxy gets its thread and the engine none.
    Either way the destructor may take over from there, and a second start of a
    proxy or of the engine is refused. *)
Theorem threads_started shared rn sn : Forall (fun n => 0 <= n)%Z (rn ++ sn) -> rn ++ sn <> [] ->
  exists recvs sends e,
    start_threads shared rn sn (replicate (length rn) fresh_life) (replicate (length sn) fresh_life) new_engine
      = Ok (recvs, sends, e) /\
    length recvs = length rn /\ length sends = length sn /\
    (forall l, l ∈ recvs ++ sends -> l = Life true (negb shared) /\
       forall what, exists x y, prepare what l = Throw x /\ start what l = Throw y) /\
    (if shared
     then engine_order e = (RecvCall <$> seq 0 (length rn)) ++ (SendCall <$> seq 0 (length sn)) /\
          Some (pin_numa_node e) = head (rn ++ sn) /\
          e_joinable e = true /\ exists x, start_engine true e = Throw x
     else e = new_engine) /\
    forall S (x : S) p, created p (after_start recvs sends e x p).
Proof.
  intros Hf Hne. assert (forall b n l, l ∈ replicate (length rn) (Life true b) ++ replicate n (Life true b) ->
    l = Life true b) as Hl.
  { intros b n l. rewrite elem_of_app, !elem_of_replicate. by intros [[-> _]|[-> _]]. }
  unfold start_threads. destruct shared.
  - rewrite (mapM_lives _ _ fresh_life (Life true false)) by done.
    rewrite (mapM_lives _ _ fresh_life (Life true false)) by done. simpl.
    rewrite add_recvs by done. simpl. rewrite add_sends by done. simpl.
    rewrite !refs_index. unfold start_engine. simpl.
    assert (bool_decide (seq 0 (length sn) = []) && bool_decide (seq 0 (length rn) = []) = false) as ->.
    { destruct rn, sn; done. }
    eexists _, _, _. split; [reflexivity|]. rewrite !length_replicate. split_and!; try done.
    + intros l Hin%Hl. subst l. split; [done|]. intros what. by eexists _, _.
    + by apply pin_from_both.
    + by eexists.
    + split; simpl; try done; [by right|]. intros c. left. destruct c as [i|i].
      * destruct (_ !! i) as [l|] eqn:E; [|done]. by apply lookup_replicate in E as [-> _].
      * destruct (_ !! i) as [l|] eqn:E; [|done]. by apply lookup_replicate in E as [-> _].
  - rewrite (mapM_lives _ _ fresh_life (Life true true)) by done.
    rewrite (mapM_lives _ _ fresh_life (Life true true)) by done. simpl.
    eexists _, _, _. split; [reflexivity|]. rewrite !length_replicate. split_and!; try done.
    + intros l Hin%Hl. subst l. split; [done|]. intros what. by eexists _, _.
    + split; simpl; try done; [by left|]. intros c. destruct (match c with RecvCall i => _ | _ => _ end) as [l|]; [|by left].
      destruct (joinable l); [by right|by left].
Qed.

(** ** One receiver, two senders, one thread *)

Module ProgressWitness.
(** Slices that each sender still has to send, and the flags. *)
Record link := Link { pending : nat -> nat; failed : bool; stops : list call }.

Definition progressed (c : call) (l : link) : link :=
  match c with
  | SendCall i => Link (fun j => if decide (j = i) then pred (pending l i) else pending l j) (failed l) (stops l)
  | RecvCall _ => l
  end.

#[export, program] Instance link_proxies : Proxies link := {|
  has_error := failed;
  send_drained i l := pending l i =? 0;
  stop_requested c l := bool_decide (c ∈ stops l);
  shutdown c l := Link (pending l) (failed l) (c :: stops l);
  record_failure l := Link (pending l) true (stops l);
  proxy_progress c l l' := l' = progressed c l;
  others l l' := l' = l |}.
Next Obligation.
  intros c l l' ->. destruct c as [i|i]; simpl; split_and!; try done. intros j. case_decide; [subst|done].
  rewrite !Nat.eqb_eq. lia.
Qed.
Next Obligation. by intros l l' ->. Qed.
Next Obligation.
  intros c l. split_and!; simpl; try done. intros c'. rewrite !bool_decide_eq_true. by right.
Qed.
Next Obligation. by intros l. Qed.
Next Obligation. intros c l. by eexists. Qed.
Next Obligation. intros c l. simpl. rewrite bool_decide_true by left. done. Qed.
Next Obligation. done. Qed.

Inductive action := Engine_turn | Destructor_turn.

Definition act (order : list call) (a : action) (s : sys link) : option (sys link) :=
  match a with
  | Destructor_turn => destroy_turn s
  | Engine_turn =>
      match eng s with
      | Pinning => Some (engine_to s LoopHead)
      | LoopHead => Some (engine_to s (if eng_stop s then Ended else InPass order false))
      | InPass (c :: rest) any =>
          if has_error (st s) then None else
          let x := progressed c (st s) in
          Some (Sys x (InPass rest (any || has_error x)) (eng_stop s) (own s) (calls s ++ [c]) (todo s) (destroyed s))
      | InPass [] any => Some (engine_to s (if any then Ended else LoopHead))
      | _ => None
      end
  end.

Lemma act_step order a s s' : act order a s = Some s' -> sys_step order s s'.
Proof.
  destruct a; simpl; [|by apply step_destroy]. destruct (eng s) as [| | |[|c rest] any|] eqn:Hp; try done.
  - intros [= <-]. by apply step_engine, pinned.
  - intros [= <-]. apply step_engine. destruct (eng_stop s) eqn:E; by constructor.
  - intros [= <-]. by apply step_engine, pass_end.
  - destruct (failed (st s)) eqn:E; [done|]. intros [= <-].
    exact (step_engine order _ _ (pass_call order s c rest any (progressed c (st s)) Hp E eq_refl)).
Qed.

Lemma acts_steps order l s s' : run_list (act order) l s = Some s' -> steps (sys_step order) s s'.
Proof. apply run_list_steps. apply Forall_true. intros a t t'. apply act_step. Qed.

Definition nodes_in : list Z := [1%Z].
Definition nodes_out : list Z := [0%Z; 1%Z].
Definition busy : link := Link (fun i => match i with 0 => 2 | 1 => 1 | _ => 0 end) false [].

Lemma threads_started_witness : exists recvs sends e,
  start_threads true nodes_in nodes_out (replicate 1 fresh_life) (replicate 2 fresh_life) new_engine
    = Ok (recvs, sends, e) /\
  engine_order e = [RecvCall 0; SendCall 0; SendCall 1] /\ pin_numa_node e = 1%Z.
Proof.
  destruct (threads_started true nodes_in nodes_out) as (recvs & sends & e & He & _ & _ & _ & (Ho & Hp & _) & _);
    [by repeat constructor|done|].
  exists recvs, sends, e. split; [exact He|]. split; [exact Ho|]. by injection Hp as ->.
Defined.

Definition served : list call := [RecvCall 0; SendCall 0; SendCall 1].
Definition program : list instr := destructor true 1 2.
Definition begun : sys link := after_start [Life true false] [Life true false; Life true false]
  (Engine [0; 1] [0] true true false 1) busy program.

Lemma begun_created : created program begun.
Proof. split; simpl; try done; [by right|]. intros c. left. by destruct c as [[|i]|[|[|i]]]. Qed.

(** Two rounds; the body of the destructor up to the join, meanwhile the engine
    begins a third; the rest up to the first destroyed proxy. *)
Definition schedule (n : nat) : list action :=
  take n (replicate 13 Engine_turn ++ replicate 6 Destructor_turn ++ replicate 4 Engine_turn ++ replicate 6 Destructor_turn).
Definition after (n : nat) : sys link := default begun (run_list (act served) (schedule n) begun).

Definition possible (n : nat) : bool :=
  match run_list (act served) (schedule n) begun with Some _ => true | None => false end.

Lemma after_steps n : possible n = true -> steps (sys_step served) begun (after n).
Proof.
  unfold possible, after. destruct (run_list _ _ _) as [s|] eqn:E; [|done]. intros _.
  by apply (acts_steps served (schedule n)).
Qed.

Lemma proxies_outlive_threads_witness : destroyed (after 29) = [RecvCall 0] /\
  forall s', ~ engine_step served (after 29) s'.
Proof.
  split; [vm_compute; reflexivity|].
  apply (proxies_outlive_threads served true 1 2 program begun (after 29) (RecvCall 0));
    [by left|apply begun_created|apply after_steps; vm_compute; reflexivity|vm_compute; left].
Defined.

Lemma engine_round_robin_witness : calls (after 13) = served ++ served ++ [RecvCall 0] /\
  exists k j, calls (after 13) = mjoin (replicate k served) ++ take j served.
Proof.
  split; [vm_compute; reflexivity|].
  destruct (engine_round_robin served program begun (after 13) begun_created) as (k & j & _ & H);
    [apply after_steps; vm_compute; reflexivity|]. by exists k, j.
Defined.

Lemma served_until_drained_witness : eng_stop (after 19) = true /\ send_drained 0 (st (after 19)) = true.
Proof.
  split; [vm_compute; reflexivity|].
  destruct (served_until_drained served true 1 2 begun (after 19)) with (i := 0%nat) as [H|H];
    [apply begun_created|apply after_steps; vm_compute; reflexivity|left; vm_compute; reflexivity|lia|
     by vm_compute in H|exact H].
Defined.

(** In the third round. *)
Lemma tear_down_completes_witness : exists s', steps (sys_step served) (after 13) s' /\ todo s' = [].
Proof.
  apply (tear_down_completes served true 1 2 program begun (after 13));
    [by left|apply begun_created|apply after_steps; vm_compute; reflexivity|].
  intros i Hi. right. vm_compute in Hi.
  repeat (apply elem_of_cons in Hi as [[= ->]|Hi]; [vm_compute; reflexivity|]).
  exfalso. repeat (apply elem_of_cons in Hi as [Hi|Hi]; [discriminate|]). by apply elem_of_nil in Hi.
Defined.
End ProgressWitness.
