(* ===== verification/RdmaSetup.v ===== *)
(** * The RDMA storage of a process, and two processes that use it

    The first half of [setup_rdma_transport] of
    src/collective/all_reduce/communicator.cu put together: the environment
    variables, the endpoint, the abort word and the storage of every local end
    of an RDMA edge.  The resources that NetSetup.v takes as given are the ones
    made here, so the two ends of an edge can be followed from the environments
    of two processes to two connected queue pairs. *)

From Stdlib Require Import ZArith Lia.
From stdpp Require Import base option numbers tactics strings list pretty.
From S2P Require Import Prelude Types Resources Geometry Topology Control EnvVars Buffers NetSetup RdmaDevice.

#[local] Open Scope Z_scope.

(** ** The storage *)

Record rdma_storage := Storage {
  sg_plane : RdmaDataPlane; sg_placement : RdmaMemoryPlacement; sg_shared_progress : bool;
  sg_endpoint : RdmaEndpoint; sg_abort : buffer;
  sg_channels : list RdmaChannelResources }.

Definition uses_write_cts (plane : RdmaDataPlane) : bool :=
  match plane with WriteCts => true | SendRecv => false end.

Section Setup.
Context `{BuildConfig} (C : cuda) (V : verbs) (devices : list Z) (numa : Z -> Z).

(** The ends in the order of the loops: device, and whether it sends. *)
Fixpoint make_channels (e : RdmaEndpoint) (placement : RdmaMemoryPlacement) (write_cts : bool)
    (ends : list (Z * bool)) : RM (list RdmaChannelResources) :=
  match ends with
  | [] => mret []
  | (device, sending) :: ends =>
      r ← make_channel C V devices numa e placement write_cts device sending;
      p_unwind (destroy_channel r) (
        rs ← make_channels e placement write_cts ends;
        mret (r :: rs))
  end.

Definition storage_for (e : RdmaEndpoint) (plane : RdmaDataPlane) (placement : RdmaMemoryPlacement)
    (shared : bool) (ends : list (Z * bool)) : RM rdma_storage :=
  abort ← on_memory (member (MappedU32Array_reset C 1 (-1) devices));
  p_unwind (in_memory (destroy abort)) (
    channels ← make_channels e placement (uses_write_cts plane) ends;
    mret (Storage plane placement shared e abort channels)).

Definition setup_storage (ends : list (Z * bool)) : RM rdma_storage :=
  plane ← p_lift (parse_rdma_data_plane_env (getenv V "NANO_NCCL_RDMA_USE_WRITE"));
  placement ← p_lift (parse_rdma_memory_placement_env (getenv V "NANO_NCCL_RDMA_GDR"));
  shared ← p_lift (parse_rdma_shared_progress_env (getenv V "NANO_NCCL_RDMA_SHARED_PROGRESS"));
  e ← create_from_environment V;
  p_unwind (close_endpoint e) (storage_for e plane placement shared ends).

(** The members in reverse order of declaration: abort word, channels, endpoint. *)
Definition destroy_storage (g : rdma_storage) (s : rdma_state) : rdma_state :=
  close_endpoint (sg_endpoint g)
    (foldr destroy_channel (in_memory (destroy (sg_abort g)) s) (sg_channels g)).
End Setup.

(** The ends of the RDMA edges, as the storage needs them. *)
Definition storage_end (k : end_key) : Z * bool := (ek_device k, ek_sending k).

(** ** What the process then holds *)

Section Owned.
Context `{BuildConfig} (C : cuda) (V : verbs) (devices : list Z) (numa : Z -> Z).

Section Channels.
Context (e : RdmaEndpoint) (placement : RdmaMemoryPlacement) (write_cts : bool).

Definition ends_made (ends : list (Z * bool)) (rs : list RdmaChannelResources) : Prop :=
  Forall2 (fun x r => channel_made C V e placement write_cts x.2 r) ends rs.

Lemma failed_channel sending r hs vs s : channel_made C V e placement write_cts sending r ->
  fifo_failed C placement (channel_allocations r ++ hs) (channel_objects r ++ vs) s ->
  fifo_failed C placement hs vs (destroy_channel r s).
Proof.
  intros Hr [Hs|(Hp & a & Ha & Hs)]; [left|right; split; [done|exists a; split; [done|]]];
    eapply destroy_channel_holds; try exact Hr; [done|].
  revert Hs. apply holds_proper; [by rewrite Permutation_middle|done|done].
Qed.

Lemma make_channels_spec ends : forall hs vs,
  spec (holds hs vs) (make_channels C V devices numa e placement write_cts ends) (fifo_failed C placement hs vs)
    (fun rs s => ends_made ends rs /\
       holds ((rs ≫= channel_allocations) ++ hs) ((rs ≫= channel_objects) ++ vs) s).
Proof.
  induction ends as [|[device sending] ends IH]; intros hs vs; simpl.
  { apply spec_ret. intros s Hs. split; [constructor|done]. }
  eapply spec_bind; [apply make_channel_spec|]. intros r. apply spec_pure. intros Hr.
  apply (spec_unwind _ _ _ (fifo_failed C placement (channel_allocations r ++ hs) (channel_objects r ++ vs)));
    [|intros s; by eapply failed_channel].
  eapply spec_bind; [apply IH|]. intros rs. apply spec_ret. intros s [Hrs Hs].
  split; [by constructor|]. revert Hs. simpl. apply holds_proper; [solve_Permutation|solve_Permutation|done].
Qed.

Lemma destroy_channels_holds ends rs : ends_made ends rs -> forall hs vs s,
  holds ((rs ≫= channel_allocations) ++ hs) ((rs ≫= channel_objects) ++ vs) s ->
  holds hs vs (foldr destroy_channel s rs).
Proof.
  induction 1 as [|x r ends rs Hr _ IH]; intros hs vs s Hs; [done|]. simpl.
  eapply destroy_channel_holds; [exact Hr|]. apply IH. revert Hs. simpl.
  apply holds_proper; [solve_Permutation|solve_Permutation|done].
Qed.
End Channels.

Definition storage_objects (g : rdma_storage) : list verbs_object :=
  (sg_channels g ≫= channel_objects) ++ endpoint_objects (sg_endpoint g).
Definition storage_allocations (g : rdma_storage) : list allocation :=
  (sg_channels g ≫= channel_allocations) ++ owned (sg_abort g).

(** The storage is what the environment asked for. *)
Record storage_made (ends : list (Z * bool)) (g : rdma_storage) : Prop := {
  sm_plane : parse_rdma_data_plane_env (getenv V "NANO_NCCL_RDMA_USE_WRITE") = Ok (sg_plane g);
  sm_placement : parse_rdma_memory_placement_env (getenv V "NANO_NCCL_RDMA_GDR") = Ok (sg_placement g);
  sm_endpoint : exists gid_index devs,
    parse_gid_index_env (getenv V "NANO_NCCL_RDMA_GID_INDEX") = Ok gid_index /\
    ibv_get_device_list V = inl devs /\
    first_fit V (getenv V "NANO_NCCL_RDMA_IFNAME") gid_index devs ≫= taken V gid_index = Some (sg_endpoint g);
  sm_abort : exists a, host_ptr (sg_abort g) = Some a;
  sm_channels : ends_made (sg_endpoint g) (sg_placement g) (uses_write_cts (sg_plane g)) ends (sg_channels g) }.

Lemma destroy_storage_holds ends g hs vs s : storage_made ends g ->
  holds (storage_allocations g ++ hs) (storage_objects g ++ vs) s -> holds hs vs (destroy_storage g s).
Proof.
  intros [_ _ _ [a Ha] Hc] Hs. unfold destroy_storage. apply close_holds.
  eapply destroy_channels_holds; [exact Hc|]. apply (destroy_holds _ a); [done|]. revert Hs.
  unfold storage_allocations, storage_objects, owned. rewrite Ha.
  apply holds_proper; [solve_Permutation|by rewrite app_assoc|done].
Qed.

(** The part after the endpoint. *)
Lemma storage_for_spec e plane placement shared ends hs vs :
  spec (holds hs vs)
    (storage_for C V devices numa e plane placement shared ends)
    (fifo_failed C placement hs vs)
    (fun g s => (exists a channels abort, g = Storage plane placement shared e abort channels /\
         host_ptr abort = Some a /\ ends_made e placement (uses_write_cts plane) ends channels) /\
       holds (storage_allocations g ++ hs) ((sg_channels g ≫= channel_objects) ++ vs) s).
Proof.
  unfold storage_for. eapply spec_bind.
  { eapply spec_conseq; [apply member_holds|done|intros s Hs; by left|]. intros b s H'. exact H'. }
  intros abort. apply spec_exists. intros a. apply spec_pure. intros Ha.
  apply (spec_unwind _ _ _ (fifo_failed C placement (Pinned a :: hs) vs)); [|intros s; by apply failed_buffer].
  eapply spec_bind; [apply make_channels_spec|]. intros rs. apply spec_ret. intros s [Hrs Hs].
  split; [by exists a, rs, abort|]. revert Hs. unfold storage_allocations, owned. simpl. rewrite Ha.
  apply holds_proper; [solve_Permutation|done|done].
Qed.

Lemma setup_storage_spec ends hs vs : spec (holds hs vs) (setup_storage C V devices numa ends)
  (fun s => holds hs vs s \/ leaks_pinned C kFifoBytes hs vs s /\
     parse_rdma_memory_placement_env (getenv V "NANO_NCCL_RDMA_GDR") = Ok HostPin)
  (fun g s => storage_made ends g /\ holds (storage_allocations g ++ hs) (storage_objects g ++ vs) s).
Proof.
  intros s Hs. unfold setup_storage, mbind, PM_bind, p_lift.
  destruct (parse_rdma_data_plane_env _) as [plane|x] eqn:Hplane; [|by left].
  destruct (parse_rdma_memory_placement_env _) as [placement|x] eqn:Hplacement; [|by left].
  destruct (parse_rdma_shared_progress_env _) as [shared|x]; [|by left].
  pose proof (endpoint_first_fit V hs vs s Hs) as He.
  destruct (create_from_environment V s) as [s1 [e|x]]; destruct He as [He Hs1]; [|by left].
  destruct Hs1 as [Hs1 _]. unfold p_unwind.
  pose proof (storage_for_spec e plane placement shared ends hs (endpoint_objects e ++ vs) s1 Hs1) as Ha.
  destruct (storage_for _ _ _ _ _ _ _ _ _ _) as [s2 [g|x]].
  - destruct Ha as [(a & rs & abort & -> & Hab & Hrs) Hs2]. simpl in Hs2.
    assert (storage_made ends (Storage plane placement shared e abort rs)) as Hm.
    { split; simpl; try done; [|by exists a].
      destruct (parse_gid_index_env _) as [gid_index|]; [|done]. destruct (ibv_get_device_list V) as [devs|]; [|done].
      by exists gid_index, devs. }
    assert (holds (storage_allocations (Storage plane placement shared e abort rs) ++ hs)
      (storage_objects (Storage plane placement shared e abort rs) ++ vs) s2) as Hh.
    { revert Hs2. unfold storage_objects. simpl. apply holds_proper; [done|by rewrite app_assoc|done]. }
    by split.
  - destruct Ha as [Ha|[-> (a & Ha & Hh)]]; [left; by apply close_holds|right].
    split; [|done]. exists a. split; [done|]. by apply close_holds.
Qed.

(** The RDMA storage of a process is set up or not.  When it is, the plane,
    the placement and the endpoint are the ones the environment variables ask
    for, every local end of an RDMA edge has its channel, made for that plane and
    placement, and destroying the storage gives back every block of memory,
    registration, queue, protection domain and device context; when an exception
    is thrown, whatever the call that failed and however far the loops had got,
    nothing is held, except the one block that the constructor of a mapped
    buffer loses, which needs memory in the host. *)
Theorem rdma_storage_owned ends hs vs s : holds hs vs s ->
  match setup_storage C V devices numa ends s with
  | (s', Ok g) => storage_made ends g /\
      holds (storage_allocations g ++ hs) (storage_objects g ++ vs) s' /\
      holds hs vs (destroy_storage g s')
  | (s', Throw _) => holds hs vs s' \/ leaks_pinned C kFifoBytes hs vs s' /\
      parse_rdma_memory_placement_env (getenv V "NANO_NCCL_RDMA_GDR") = Ok HostPin
  end.
Proof.
  intros Hs. pose proof (setup_storage_spec ends hs vs s Hs) as H'.
  destruct (setup_storage _ _ _ _ _ _) as [s' [g|x]]; [|exact H']. destruct H' as [Hm Hh].
  split_and!; [done|done|by eapply destroy_storage_holds].
Qed.
End Owned.

(** ** The two ends of an edge *)

(** What the process tells its peers, and the resources of NetSetup.v. *)
Definition settings_of (g : rdma_storage) : rdma_settings :=
  let e := sg_endpoint g in
  Settings (ep_port_lid e) (ep_gid_index e) (ep_active_mtu e) (ep_gid e) (uses_write_cts (sg_plane g))
    (match sg_placement g with GpuDirect => true | HostPin => false end).
Definition resources_of (net : net_resources) (r : RdmaChannelResources) : rdma_resources :=
  RdmaResources net (data_ptr r) (mr_rkey (ch_fifo_mr r))
    ((fun c => (c.1, mr_rkey c.2)) <$> ch_cts r) (qp_qpn (ch_qp r)).

(** What the calls promise: ports report an MTU of the enumeration [ibv_mtu],
    registered memory has a remote key, allocated memory is not at null. *)
Record reliable (C : cuda) (V : verbs) : Prop := {
  rl_mtu context port : ibv_query_port V context = Some port -> 1 <= port_mtu port <= 5;
  rl_mr pd a bytes flags mr : ibv_reg_mr V pd a bytes flags = inl mr -> mr_rkey mr <> 0;
  rl_dmabuf pd offset bytes iova fd mr : ibv_reg_dmabuf_mr V pd offset bytes iova fd = Some mr -> mr_rkey mr <> 0;
  rl_host bytes a : cudaHostAlloc C bytes = inl a -> a <> 0;
  rl_cts : new_cts_slots V <> 0 }.

Lemma dmabuf_key C V pd a bytes mr : reliable C V -> dmabuf_mr V pd a bytes = Some mr -> mr_rkey mr <> 0.
Proof.
  intros Hr. unfold dmabuf_mr. intros (fd & _ & H')%bind_Some. case_match; [done|]. by eapply rl_dmabuf.
Qed.

Lemma device_registration_usable C V pd a bytes r mr : reliable C V ->
  device_registration V pd a bytes = Some r -> rm_mr r = Some mr -> a <> 0 /\ mr_rkey mr <> 0.
Proof.
  intros Hr. unfold device_registration. destruct pd as [pd|]; simpl; [|done].
  destruct (Z.eqb_spec a 0); simpl; [done|]. destruct (bytes =? 0); [done|].
  destruct (cuPointerSetAttribute V a); [done|].
  destruct (dmabuf_mr V pd a bytes) as [m|] eqn:Hd.
  - intros [= <-] [= <-]. split; [done|]. by eapply dmabuf_key.
  - destruct (ibv_reg_mr V pd a bytes access_flags) as [m|] eqn:Hm; [|done].
    intros [= <-] [= <-]. split; [done|]. by eapply rl_mr.
Qed.

Section Usable.
Context `{BuildConfig} (C : cuda) (V : verbs) (ends : list (Z * bool)) (g : rdma_storage).
Hypothesis (Hreliable : reliable C V) (Hmade : storage_made C V ends g).

Lemma placed_usable e placement f a mr : fifo_placed C V e placement f a mr -> a <> 0 /\ mr_rkey mr <> 0.
Proof.
  unfold fifo_placed. destruct placement, f as [b|p]; try done.
  - intros (_ & Ha & Hm). split; [by eapply rl_host|by eapply rl_mr].
  - intros (_ & r & Hr & Hm). by eapply device_registration_usable.
Qed.

Lemma endpoint_values : exists gid_index,
  parse_gid_index_env (getenv V "NANO_NCCL_RDMA_GID_INDEX") = Ok gid_index /\
  ep_gid_index (sg_endpoint g) = gid_index /\ 1 <= ep_active_mtu (sg_endpoint g) <= 5.
Proof.
  destruct (sm_endpoint _ _ _ _ Hmade) as (n & devs & Hn & _ & Hfit). exists n. split; [done|].
  apply bind_Some in Hfit as ((dev & context & port) & Hfit & Htaken).
  assert (ibv_query_port V context = Some port) as Hport.
  { unfold first_fit in Hfit. apply head_Some_elem_of, list_elem_of_omap in Hfit as (d & _ & Hd).
    apply fmap_Some in Hd as ((c & q) & Hd & [= -> -> ->]). unfold fits in Hd.
    apply bind_Some in Hd as (c' & _ & Hd). apply bind_Some in Hd as (q' & Hq & [= -> ->]).
    unfold selected in Hq. destruct (ibv_query_port V c) as [q'|]; [|done]. by repeat case_match; simplify_eq. }
  unfold taken in Htaken. destruct (ibv_query_gid _ _ _); [|done]. destruct (ibv_alloc_pd _ _); [|done].
  injection Htaken as <-. simpl. split; [done|]. by eapply rl_mtu.
Qed.

(** A channel of a process whose calls keep their promises is usable. *)
Lemma made_usable net i device sending r :
  ends !! i = Some (device, sending) -> sg_channels g !! i = Some r ->
  usable (settings_of g) (resources_of net r).
Proof.
  intros Hi Hr. destruct endpoint_values as (n & Hn & En & Hmtu).
  pose proof (sm_channels _ _ _ _ Hmade) as Hc.
  destruct (Forall2_lookup_lr _ _ _ _ _ _ Hc Hi Hr) as [Hplaced _ _ _ Hcts]. simpl in Hcts.
  split; simpl.
  - done.
  - by eapply placed_usable.
  - intros Hw. destruct (ch_cts r) as [[a mr]|]; [|by rewrite Hw in Hcts].
    destruct Hcts as (_ & Ha & Hm). simpl in *. exists a, (mr_rkey mr). split; [done|].
    split; [rewrite Ha; by eapply rl_cts|by eapply rl_mr].
Qed.
End Usable.

(** The variables of two processes ask for the same protocol. *)
Definition same_choices (g1 g2 : rdma_storage) : bool :=
  bool_decide (sg_plane g1 = sg_plane g2) && bool_decide (sg_placement g1 = sg_placement g2).

Lemma choices_settings g1 g2 : same_settings (settings_of g1) (settings_of g2) = same_choices g1 g2.
Proof.
  unfold same_settings, same_choices, settings_of. simpl.
  by destruct (sg_plane g1), (sg_plane g2), (sg_placement g1), (sg_placement g2).
Qed.

Lemma setup_storage_made `{BuildConfig} C V devices numa ends s s' g :
  setup_storage C V devices numa ends s = (s', Ok g) -> storage_made C V ends g.
Proof.
  intros Hs. pose proof (setup_storage_spec C V devices numa ends _ _ s (conj (reflexivity _) (reflexivity _))) as H'.
  rewrite Hs in H'. by destruct H'.
Qed.


(** ** Two hosts *)

Module RdmaSetupWitness.
#[local] Existing Instance small_config.
Import DeviceWitness.

(** The host of RdmaDevice.v with WRITE+CTS; the other one has a different
    GID and a smaller MTU. *)
Definition with_env (V : verbs) (env : string -> option string) (mtu : Z) : verbs := Verbs env
  (ibv_get_device_list V) (ibv_get_device_name V) (ibv_open_device V)
  (fun context => Some (PortAttr (context =? 11) 0 mtu)) (ibv_query_gid V) (exists_file V) (inet6_addresses V)
  (ibv_alloc_pd V) (ibv_create_cq V) (ibv_create_qp V) (modify_qp_to_init V) (ibv_reg_mr V)
  (cuPointerSetAttribute V) (page_size V) (cuMemGetHandleForAddressRange V) (ibv_reg_dmabuf_mr V) (new_cts_slots V).
Definition env (name : string) : option string :=
  if String.eqb name "NANO_NCCL_RDMA_USE_WRITE" then Some "1"
  else if String.eqb name "NANO_NCCL_RDMA_GID_INDEX" then Some "3" else None.
Definition host1 : verbs := with_env host env 5.
Definition host2 : verbs := with_env host env 4.
Definition made_by (r : res rdma_storage) : bool := match r with Ok _ => true | Throw _ => false end.

Lemma rdma_storage_owned_witness :
  exists s g, setup_storage BufferWitness.cuda_ok host1 [0; 1] (fun _ => 0) [(0, true); (1, false)] idle = (s, Ok g) /\
    length (sg_channels g) = 2%nat /\ holds [Pinned 7] [] (destroy_storage g s).
Proof.
  pose proof (rdma_storage_owned BufferWitness.cuda_ok host1 [0; 1] (fun _ => 0) [(0, true); (1, false)]
    [Pinned 7] [] idle idle_holds) as H.
  assert (made_by (setup_storage BufferWitness.cuda_ok host1 [0; 1] (fun _ => 0) [(0, true); (1, false)] idle).2 = true)
    as Hok by (vm_compute; reflexivity).
  destruct (setup_storage _ _ _ _ _ idle) as [s [g|x]]; [|discriminate Hok].
  destruct H as (Hm & _ & Hd). exists s, g.
  split; [reflexivity|]. split; [symmetry; exact (Forall2_length _ _ _ (sm_channels _ _ _ _ Hm))|exact Hd].
Defined.

(** Distinct and non-null memory for the sizes that occur. *)
Definition cuda_host : cuda := Cuda (fun _ => None) (fun n => inl (Z.abs n + 4096))
  (fun d p => inl (100000 * (d + 1) + p)) (fun _ n => inl n) true.

Lemma reliable_host mtu : 1 <= mtu <= 5 -> reliable cuda_host (with_env host env mtu).
Proof.
  intros Hm. split; simpl; try done.
  - by intros context port [= <-].
  - by intros pd a bytes flags mr [= <-].
  - intros bytes a [= <-]. lia.
Qed.

(** The facts about two set-ups that the theorem asks for. *)
Definition fit_together (o1 o2 : res rdma_storage) : bool :=
  match o1, o2 with
  | Ok g1, Ok g2 =>
      (ep_gid_index (sg_endpoint g1) =? 3) && (ep_gid_index (sg_endpoint g2) =? 3) &&
      (Z.min (ep_active_mtu (sg_endpoint g1)) (ep_active_mtu (sg_endpoint g2)) =? 4) && same_choices g1 g2 &&
      match sg_channels g1 !! 0%nat, sg_channels g2 !! 1%nat with Some _, Some _ => true | _, _ => false end
  | _, _ => false
  end.

End RdmaSetupWitness.
