(* ===== verification/Timeline.v ===== *)
(** * Statistics of the RDMA proxies

    src/transport/rdma/rdma_proxy_timeline.h and .cc: durations of events with
    histograms, totals per stage, depth histograms and the reports that the
    scripts of the repository read; src/collective/all_reduce/ring_turnaround.h.
    They exist in builds with NANO_NCCL_ENABLE_RDMA_PROXY_TIMELINE and do not
    influence the protocol. *)

From Stdlib Require Import ZArith Lia Ascii String.
From stdpp Require Import base option numbers tactics strings list pretty.
From S2P Require Import Prelude EnvVars.

#[local] Open Scope Z_scope.

(** ** Data *)

Definition kStageNames : list string :=
  ["send_tail_wait"; "send_post"; "send_cq_wait"; "recv_cq_wait"; "recv_publish"; "cts_post"; "cts_cq"].
Definition kEventNames : list string :=
  ["send_ready_to_post"; "send_inter_post"; "send_post_to_cq"; "recv_cq_to_publish"; "recv_inter_publish";
   "cts_ready_to_post"; "cts_inter_post"; "send_tail_arm_to_post"; "send_cts_arm_to_post";
   "send_tail_to_cts_ready"; "send_post_to_next_tail"].
Definition kStages : nat := 7.
Definition kEvents : nat := 11.
Definition kHistBins : nat := 12.
Definition kDepthBins : nat := 5.

(** Upper-exclusive edges of the bins before the last one. *)
Definition kHistEdges : list Z := [250; 500; 1000; 2000; 5000; 8000; 10000; 12000; 15000; 20000; 30000].

Record RdmaProxyTimelineEventStats := EventStats {
  ev_count : Z; ev_sum_ns : Z; ev_min_ns : Z; ev_max_ns : Z; ev_hist : list Z }.
Definition new_stats : RdmaProxyTimelineEventStats := EventStats 0 0 (2 ^ 64 - 1) 0 (replicate kHistBins 0).

Record RdmaProxyTimelineCounters := TimelineCounters {
  total_ns : list Z; stage_count : list Z; events : list RdmaProxyTimelineEventStats;
  inflight_at_post : list Z; free_slots_at_post : list Z; inflight_at_cqe : list Z }.
Definition new_counters : RdmaProxyTimelineCounters :=
  TimelineCounters (replicate kStages 0) (replicate kStages 0) (replicate kEvents new_stats)
    (replicate kDepthBins 0) (replicate kDepthBins 0) (replicate kDepthBins 0).

(** ** Operations *)

Fixpoint bin_from (index : nat) (edges : list Z) (ns : Z) : nat :=
  match edges with [] => index | edge :: edges => if ns <? edge then index else bin_from (S index) edges ns end.
Definition hist_bin (ns : Z) : nat := bin_from 0 kHistEdges ns.

Definition plus (n : Z) (x : Z) : Z := u64 (x + n).

Definition record (ns : Z) (s : RdmaProxyTimelineEventStats) : RdmaProxyTimelineEventStats :=
  EventStats (plus 1 (ev_count s)) (plus ns (ev_sum_ns s))
    (if ns <? ev_min_ns s then ns else ev_min_ns s) (if ev_max_ns s <? ns then ns else ev_max_ns s)
    (alter (plus 1) (hist_bin ns) (ev_hist s)).

Definition depth_bin (depth : Z) : nat :=
  if Z.of_nat kDepthBins - 1 <=? depth then (kDepthBins - 1)%nat else Z.to_nat depth.
Definition record_depth (depth : Z) (h : list Z) : list Z := alter (plus 1) (depth_bin depth) h.

(** A stage or an event is an [int]; one out of range is ignored. *)
Definition in_enum (index : Z) (n : nat) : bool := negb ((index <? 0) || (Z.of_nat n <=? index)).

Definition stage_name (stage : Z) : string :=
  if in_enum stage kStages then default "" (kStageNames !! Z.to_nat stage) else "unknown".
Definition event_name (event : Z) : string :=
  if in_enum event kEvents then default "" (kEventNames !! Z.to_nat event) else "unknown".

Definition add (stage ns : Z) (c : RdmaProxyTimelineCounters) : RdmaProxyTimelineCounters :=
  if negb (in_enum stage kStages) then c else
  TimelineCounters (alter (plus ns) (Z.to_nat stage) (total_ns c)) (alter (plus 1) (Z.to_nat stage) (stage_count c))
    (events c) (inflight_at_post c) (free_slots_at_post c) (inflight_at_cqe c).

Definition record_event (event ns : Z) (c : RdmaProxyTimelineCounters) : RdmaProxyTimelineCounters :=
  if negb (in_enum event kEvents) then c else
  TimelineCounters (total_ns c) (stage_count c) (alter (record ns) (Z.to_nat event) (events c))
    (inflight_at_post c) (free_slots_at_post c) (inflight_at_cqe c).

(** [RdmaProxyTimelineScope] from its construction to its end; the clock is
    steady, but a difference that is not positive counts as nothing.  [enabled]
    is false also when there are no counters. *)
Definition scope (enabled : bool) (stage start finish : Z) (c : RdmaProxyTimelineCounters) : RdmaProxyTimelineCounters :=
  if negb enabled then c else add stage (if 0 <? finish - start then u64 (finish - start) else 0) c.

Definition rdma_proxy_timeline_env_enabled (value : option string) : bool :=
  match value with Some v => String.eqb v "1" | None => false end.

(** ** Reports *)

Definition newline : ascii := "010"%char.
Definition row (cells : list string) : string := String.concat " " cells +:+ String newline "".
Definition rows (l : list (list string)) : string := String.concat "" (row <$> l).
Definition average (total n : Z) : Z := if n =? 0 then 0 else total / n.
Definition text (s : option string) : string := default "" s.   (* a null pointer *)

Definition stage_row (c : RdmaProxyTimelineCounters) (index : nat) : list string :=
  let total := nth index (total_ns c) 0 in
  let n := nth index (stage_count c) 0 in
  [nth index kStageNames ""; pretty total; pretty n; pretty (average total n)].

Definition format (role_label : option string) (source_rank destination_rank channel : Z)
    (plane : option string) (c : RdmaProxyTimelineCounters) : string :=
  rows ([["#"; "rdma_proxy_timeline"; "plane=" +:+ text plane];
         ["#"; "src=" +:+ pretty source_rank; "dst=" +:+ pretty destination_rank;
          "ch=" +:+ pretty channel; "role=" +:+ text role_label];
         ["#"; "stage"; "total_ns"; "count"; "avg_ns"]] ++ (stage_row c <$> seq 0 kStages)).

Definition event_row (c : RdmaProxyTimelineCounters) (index : nat) : list string :=
  let s := nth index (events c) new_stats in
  [nth index kEventNames ""; pretty (ev_count s); pretty (ev_sum_ns s);
   pretty (average (ev_sum_ns s) (ev_count s));
   pretty (if ev_count s =? 0 then 0 else ev_min_ns s); pretty (ev_max_ns s)].
Definition hist_row (c : RdmaProxyTimelineCounters) (index : nat) : list string :=
  "hist" :: nth index kEventNames "" :: (pretty <$> ev_hist (nth index (events c) new_stats)).
Definition depth_row (name : string) (h : list Z) : list string := "depth_hist" :: name :: (pretty <$> h).

Definition table_v2 (role_label : option string) (source_rank destination_rank channel : Z)
    (plane : option string) (c : RdmaProxyTimelineCounters) : list (list string) :=
       [["#"; "rdma_proxy_timeline_v2"; "plane=" +:+ text plane; "role=" +:+ text role_label;
          "src=" +:+ pretty source_rank; "dst=" +:+ pretty destination_rank; "ch=" +:+ pretty channel];
         ["#"; "metric"; "count"; "sum_ns"; "avg_ns"; "min_ns"; "max_ns"]] ++
        (event_row c <$> seq 0 kEvents) ++
        [["#"; "hist"; "metric"; "bin0"; "bin1"; "bin2"; "bin3"; "bin4"; "bin5"; "bin6"; "bin7"; "bin8";
          "bin9"; "bin10"; "bin11"]] ++
        (hist_row c <$> seq 0 kEvents) ++
        [["#"; "depth_hist"; "name"; "c0"; "c1"; "c2"; "c3"; "c4"];
         depth_row "inflight_at_post" (inflight_at_post c);
         depth_row "free_slots_at_post" (free_slots_at_post c);
         depth_row "inflight_at_cqe" (inflight_at_cqe c)].
Definition format_v2 (role_label : option string) (source_rank destination_rank channel : Z)
    (plane : option string) (c : RdmaProxyTimelineCounters) : string :=
  rows (table_v2 role_label source_rank destination_rank channel plane c).

Record RingTurnaroundStats := TurnaroundStats {
  wait_wall_ns : Z; wait_recv_ns : Z; wait_send_ns : Z; compute_ns : Z; post_ns : Z; rt_count : Z }.
Definition format_ring_turnaround (s : RingTurnaroundStats) (local_rank channel : Z) : string :=
  let segment name total := [name; pretty total; pretty (rt_count s); pretty (average total (rt_count s))] in
  rows [["#"; "ring_turnaround"; "rank=" +:+ pretty local_rank; "ch=" +:+ pretty channel];
        ["#"; "segment"; "total_ns"; "count"; "avg_ns"];
        segment "wait_wall" (wait_wall_ns s); segment "wait_recv" (wait_recv_ns s);
        segment "wait_send" (wait_send_ns s); segment "compute" (compute_ns s); segment "post" (post_ns s)].

(** ** The statistics of a list of samples *)

Definition count_bin (l : list Z) (bin : nat) : Z := Z.of_nat (length (filter (fun ns => hist_bin ns = bin) l)).
Definition sum_ns (l : list Z) : Z := foldr Z.add 0 l.

(** What the fields are for. *)
Definition summary (l : list Z) : RdmaProxyTimelineEventStats :=
  EventStats (Z.of_nat (length l)) (sum_ns l) (foldr Z.min (2 ^ 64 - 1) l) (foldr Z.max 0 l)
    (count_bin l <$> seq 0 kHistBins).

Lemma bin_from_le edges ns : forall i, (i <= bin_from i edges ns <= i + length edges)%nat.
Proof.
  induction edges as [|e edges IH]; intros i; simpl; [lia|]. destruct (ns <? e); [lia|].
  specialize (IH (S i)). lia.
Qed.

Lemma hist_bin_lt ns : (hist_bin ns < kHistBins)%nat.
Proof. pose proof (bin_from_le kHistEdges ns 0). unfold hist_bin, kHistBins. simpl length in *. lia. Qed.

(** The edges around a bin. *)
Lemma bin_from_edges edges ns : forall i, let b := (bin_from i edges ns - i)%nat in
  (forall j e, (j < b)%nat -> edges !! j = Some e -> e <= ns) /\ (forall e, edges !! b = Some e -> ns < e).
Proof.
  induction edges as [|e edges IH]; intros i; simpl.
  { rewrite Nat.sub_diag. split; [lia|done]. }
  destruct (Z.ltb_spec ns e); [rewrite Nat.sub_diag; split; [lia|by intros e' [= <-]]|].
  destruct (IH (S i)) as [H1 H2]. pose proof (bin_from_le edges ns (S i)) as Hle.
  replace (bin_from (S i) edges ns - i)%nat with (S (bin_from (S i) edges ns - S i)) by lia.
  split; [|exact H2]. intros [|j] e' Hj; [by intros [= <-]|]. apply H1. lia.
Qed.

Lemma filter_snoc {A} (P : A -> Prop) `{forall x, Decision (P x)} l x :
  filter P (l ++ [x]) = filter P l ++ (if decide (P x) then [x] else []).
Proof. rewrite filter_app. done. Qed.

Lemma sum_snoc l x : sum_ns (l ++ [x]) = sum_ns l + x.
Proof. unfold sum_ns. induction l as [|y l IH]; simpl; [lia|]. rewrite IH. lia. Qed.

Lemma sum_nonneg l : Forall (fun ns => 0 <= ns) l -> 0 <= sum_ns l.
Proof. unfold sum_ns. induction 1; simpl; lia. Qed.

Lemma min_snoc l x : foldr Z.min (2 ^ 64 - 1) (l ++ [x]) = Z.min (foldr Z.min (2 ^ 64 - 1) l) (Z.min x (2 ^ 64 - 1)).
Proof. induction l as [|y l IH]; simpl; [|rewrite IH]; lia. Qed.
Lemma max_snoc l x : 0 <= x -> foldr Z.max 0 (l ++ [x]) = Z.max (foldr Z.max 0 l) x.
Proof. intros Hx. induction l as [|y l IH]; simpl; [|rewrite IH]; lia. Qed.

Lemma alter_bins (f : nat -> Z) g b n : (b < n)%nat ->
  alter g b (f <$> seq 0 n) = (fun i => if decide (i = b) then g (f i) else f i) <$> seq 0 n.
Proof.
  intros Hb. apply list_eq. intros i. destruct (decide (i = b)) as [->|Hne].
  - rewrite list_lookup_alter_eq, !list_lookup_fmap, lookup_seq_lt by done. simpl. by rewrite decide_True.
  - rewrite list_lookup_alter_ne, !list_lookup_fmap by done.
    destruct (seq 0 n !! i) as [j|] eqn:E; [|done]. apply lookup_seq in E as [-> _]. simpl. by rewrite decide_False.
Qed.

Lemma sum_bins (f g : nat -> Z) b n : forall k, (forall i, g i = if decide (i = b) then f i + 1 else f i) ->
  sum_ns (g <$> seq k n) = sum_ns (f <$> seq k n) + (if decide (k <= b < k + n)%nat then 1 else 0).
Proof.
  induction n as [|n IH]; intros k Hg; simpl; [by rewrite decide_False by lia|].
  change (g k + sum_ns (g <$> seq (S k) n) = f k + sum_ns (f <$> seq (S k) n) + (if decide (k <= b < k + S n)%nat then 1 else 0)).
  rewrite IH, Hg by done. repeat case_decide; lia.
Qed.

Lemma bins_total l : sum_ns (count_bin l <$> seq 0 kHistBins) = Z.of_nat (length l).
Proof.
  induction l as [|ns l IH]; [done|].
  rewrite (sum_bins (count_bin l) _ (hist_bin ns)).
  - rewrite IH, decide_True by (pose proof (hist_bin_lt ns); lia). simpl length. lia.
  - intros i. unfold count_bin. rewrite filter_cons. repeat case_decide; simpl; lia || congruence.
Qed.

Lemma record_summary l ns : 0 <= ns < 2 ^ 64 -> Forall (fun ns => 0 <= ns) l ->
  sum_ns l + ns < 2 ^ 64 -> Z.of_nat (length l) + 1 < 2 ^ 64 -> record ns (summary l) = summary (l ++ [ns]).
Proof.
  intros Hns Hl Hs Hc. pose proof (sum_nonneg l Hl). unfold record, summary.
  cbn [ev_count ev_sum_ns ev_min_ns ev_max_ns ev_hist]. unfold plus at 1 2.
  rewrite length_app, sum_snoc, min_snoc, max_snoc by lia. change (length [ns]) with 1%nat.
  rewrite !u64_small by lia. f_equal; [lia|..].
  - destruct (Z.ltb_spec ns (foldr Z.min (2 ^ 64 - 1) l)); lia.
  - destruct (Z.ltb_spec (foldr Z.max 0 l) ns); lia.
  - rewrite alter_bins by apply hist_bin_lt. apply list_fmap_ext. intros b i Hb%lookup_seq. destruct Hb as [-> Hb].
    cbn [Nat.add]. unfold count_bin. rewrite filter_snoc.
    assert (length (filter (fun n => hist_bin n = b) l) <= length l)%nat as Hle by apply length_filter.
    case_decide as E; [rewrite decide_True by done|rewrite decide_False by done].
    + rewrite length_app. unfold plus. rewrite u64_small by lia. simpl. lia.
    + by rewrite app_nil_r.
Qed.

(** The statistics of an event are those of its samples: after any sequence
    of durations whose sum fits 64 bits, the count, the sum, the minimum and the
    maximum are the ones of the sequence; bin [i] of the histogram counts the
    samples that are below edge [i] and not below the edges before, and every
    sample is in one bin. *)
Theorem stats_of_samples l : Forall (fun ns => 0 <= ns < 2 ^ 64) l ->
  sum_ns l < 2 ^ 64 -> Z.of_nat (length l) < 2 ^ 64 ->
  let s := foldl (fun s ns => record ns s) new_stats l in
  s = summary l /\ sum_ns (ev_hist s) = ev_count s /\
  forall ns, let b := hist_bin ns in (b < kHistBins)%nat /\
    (forall j e, (j < b)%nat -> kHistEdges !! j = Some e -> e <= ns) /\
    (forall e, kHistEdges !! b = Some e -> ns < e).
Proof.
  intros Hl Hsum Hlen. cbv zeta. assert (foldl (fun s ns => record ns s) new_stats l = summary l) as ->.
  { revert Hl Hsum Hlen. induction l as [|ns l IH] using rev_ind; intros Hl Hsum Hlen; [done|].
    apply Forall_app in Hl as [Hl Hns]. rewrite Forall_singleton in Hns. rewrite sum_snoc in Hsum.
    rewrite length_app in Hlen. simpl in Hlen. pose proof (proj1 Hns).
    assert (Forall (fun ns => 0 <= ns) l) as Hl' by (eapply Forall_impl; [exact Hl|]; simpl; lia).
    rewrite foldl_app. simpl. rewrite IH by (done || lia). apply record_summary; try done; lia. }
  split; [done|]. split.
  - apply bins_total.
  - intros ns. split; [apply hist_bin_lt|]. pose proof (bin_from_edges kHistEdges ns 0) as [H1 H2].
    rewrite Nat.sub_0_r in H1, H2. by split.
Qed.

(** ** The totals of a stage do not depend on the order *)

Lemma plus_comm_at m n x : plus m (plus n x) = plus n (plus m x).
Proof. unfold plus, u64. rewrite !Zplus_mod_idemp_l. f_equal. lia. Qed.

Lemma alter_plus_comm m n i j (l : list Z) : alter (plus m) i (alter (plus n) j l) = alter (plus n) j (alter (plus m) i l).
Proof.
  apply list_eq. intros k. rewrite !list_lookup_alter.
  repeat case_decide; simplify_eq; try done.
  match goal with |- context [l !! ?k] => destruct (l !! k) as [x|] end; simpl; [|done]. by rewrite plus_comm_at.
Qed.

Lemma add_comm_at s1 n1 s2 n2 c : add s1 n1 (add s2 n2 c) = add s2 n2 (add s1 n1 c).
Proof.
  unfold add. destruct (in_enum s1 kStages), (in_enum s2 kStages); try done. simpl. f_equal; apply alter_plus_comm.
Qed.

(** Several threads may add at once, with relaxed atomic additions. *)
Theorem add_order_free l l' c : l ≡ₚ l' ->
  foldl (fun c p => add p.1 p.2 c) c l = foldl (fun c p => add p.1 p.2 c) c l'.
Proof.
  intros Hp. revert c. induction Hp as [|[s n] l l' _ IH|[s n] [s' n'] l|l l1 l' _ IH1 _ IH2]; intros c; simpl.
  - done.
  - apply IH.
  - by rewrite add_comm_at.
  - by rewrite IH1.
Qed.

(** ** Reading a report back *)

Fixpoint split_at (c : ascii) (s : string) : list string :=
  match s with
  | "" => [""]
  | String a s =>
      if ascii_dec a c then "" :: split_at c s
      else match split_at c s with w :: ws => String a w :: ws | [] => [] end
  end%string.

Fixpoint no_char (c : ascii) (s : string) : bool :=
  match s with "" => true | String a s => negb (bool_decide (a = c)) && no_char c s end%string.

Lemma split_none c s : no_char c s = true -> split_at c s = [s].
Proof.
  induction s as [|a s IH]; simpl; [done|]. intros [Ha Hs]%andb_true_iff.
  apply negb_true_iff, bool_decide_eq_false in Ha. destruct (ascii_dec a c); [done|]. by rewrite IH.
Qed.

Lemma split_first c s t : no_char c s = true -> split_at c (s +:+ String c t) = s :: split_at c t.
Proof.
  induction s as [|a s IH]; simpl; [by destruct (ascii_dec c c)|]. intros [Ha Hs]%andb_true_iff.
  apply negb_true_iff, bool_decide_eq_false in Ha. destruct (ascii_dec a c); [done|]. by rewrite IH.
Qed.

Lemma no_char_app c s t : no_char c (s +:+ t) = no_char c s && no_char c t.
Proof. induction s as [|a s IH]; simpl; [done|]. by rewrite IH, andb_assoc. Qed.

Abbreviation space := " "%char.
Definition word (s : string) : bool := no_char space s && no_char newline s.

Lemma split_words l : l <> [] -> Forall (fun w => no_char space w = true) l ->
  split_at space (String.concat " " l) = l.
Proof.
  intros Hne Hl. induction Hl as [|w l Hw Hl IH]; [done|]. destruct l as [|w' l].
  - simpl. by apply split_none.
  - change (String.concat " " (w :: w' :: l)) with (w +:+ String space (String.concat " " (w' :: l))).
    rewrite split_first by done. by rewrite IH.
Qed.

Lemma concat_no_newline l : Forall (fun w => no_char newline w = true) l -> no_char newline (String.concat " " l) = true.
Proof.
  induction 1 as [|w l Hw Hl IH]; [done|]. destruct l as [|w' l]; [done|].
  change (String.concat " " (w :: w' :: l)) with (w +:+ String space (String.concat " " (w' :: l))).
  rewrite no_char_app, Hw. exact IH.
Qed.

Lemma concat_cons s l : String.concat "" (s :: l) = s +:+ String.concat "" l.
Proof. destruct l; [|done]. simpl. induction s as [|a s IH]; simpl; [done|]. change (String a s = String a (s +:+ "")).
  by rewrite <- IH. Qed.

Lemma append_line s t : (s +:+ String newline "") +:+ t = s +:+ String newline t.
Proof.
  induction s as [|a s IH]; [done|].
  change (String a ((s +:+ String newline "") +:+ t) = String a (s +:+ String newline t)). by rewrite IH.
Qed.

Lemma split_rows l : Forall (Forall (fun w => no_char newline w = true)) l ->
  split_at newline (rows l) = (String.concat " " <$> l) ++ [""].
Proof.
  unfold rows. induction 1 as [|r l Hr Hl IH]; [done|].
  assert (String.concat "" (row <$> r :: l) = String.concat " " r +:+ String newline (String.concat "" (row <$> l))) as ->.
  { rewrite fmap_cons, concat_cons. unfold row at 1. by rewrite append_line. }
  rewrite split_first by by apply concat_no_newline. by rewrite IH.
Qed.

Lemma digit_not (c : ascii) d : c = space \/ c = newline -> (d < 10)%N -> pretty_N_char d <> c.
Proof.
  intros Hc Hd. destruct d as [|p]; [by destruct Hc as [-> | ->]|].
  do 4 (destruct p as [p|p|]; try (by destruct Hc as [-> | ->]); try lia).
Qed.

Lemma no_char_go c (x : N) s : c = space \/ c = newline -> no_char c s = true -> no_char c (pretty_N_go x s) = true.
Proof.
  intros Hc. revert s. induction (N.lt_wf_0 x) as [x _ IH]. intros s Hs.
  destruct (decide (x = 0)%N) as [->|Hx]; [by rewrite pretty_N_go_0|].
  rewrite pretty_N_go_step by lia. apply IH; [apply N.div_lt; lia|]. simpl. rewrite Hs.
  rewrite bool_decide_false; [done|]. apply digit_not; [done|]. apply N.mod_lt. lia.
Qed.

(** Numbers are words. *)
Lemma no_char_pretty c (z : Z) : c = space \/ c = newline -> no_char c (pretty z) = true.
Proof.
  intros Hc.
  assert (forall n : N, no_char c (pretty n) = true) as Hn.
  { intros n. unfold pretty, pretty_N. destruct (decide (n = 0)%N); [by destruct Hc as [-> | ->]|]. by apply no_char_go. }
  destruct z as [|p|p]; [apply (Hn 0%N)|apply (Hn (Npos p))|].
  change (no_char c (String "-" (pretty (Npos p))) = true). simpl. rewrite Hn. by destruct Hc as [-> | ->].
Qed.

Lemma word_pretty (z : Z) : word (pretty z) = true.
Proof. unfold word. by rewrite !no_char_pretty by auto. Qed.

Lemma word_app s t : word s = true -> word t = true -> word (s +:+ t) = true.
Proof. unfold word. rewrite !no_char_app, !andb_true_iff. tauto. Qed.

(** The lines of a text as words, and the numbers behind the first line that
    starts with [keys]. *)
Definition lines (t : string) : list (list string) := split_at space <$> split_at newline t.
Fixpoint starts_with (keys ws : list string) : bool :=
  match keys, ws with
  | [], _ => true
  | k :: keys, w :: ws => if String.eqb k w then starts_with keys ws else false
  | _ :: _, [] => false
  end.
Definition read_numbers (keys : list string) (t : string) : option (list Z) :=
  row ← find (starts_with keys) (lines t);
  mapM (fun w => value <$> strtoul w) (drop (length keys) row).

Lemma lines_rows l : Forall (fun r => r <> [] /\ Forall (fun w => word w = true) r) l -> lines (rows l) = l ++ [[""]].
Proof.
  intros Hl. unfold lines. rewrite split_rows.
  - rewrite fmap_app. f_equal. rewrite <- list_fmap_compose. rewrite <- (list_fmap_id l) at 2.
    apply list_fmap_ext. intros i r Hr. rewrite Forall_lookup in Hl. destruct (Hl i r Hr) as [Hne Hw].
    apply split_words; [done|]. eapply Forall_impl; [exact Hw|]. by intros w [? _]%andb_true_iff.
  - eapply Forall_impl; [exact Hl|]. intros r [_ Hw]. eapply Forall_impl; [exact Hw|].
    by intros w [_ ?]%andb_true_iff.
Qed.

Definition in_u64 (z : Z) : Prop := 0 <= z < 2 ^ 64.

Lemma strtoul_reads z : in_u64 z -> value <$> strtoul (pretty z) = Some z.
Proof. intros Hz. rewrite strtoul_pretty; [done|]. unfold in_u64, ULONG_MAX in *. lia. Qed.

Lemma read_pretty l : Forall in_u64 l -> mapM (fun w => value <$> strtoul w) (pretty <$> l) = Some l.
Proof.
  intros Hl. apply mapM_Some, Forall2_fmap_l, Forall_Forall2_diag.
  eapply Forall_impl; [exact Hl|]. intros z. apply strtoul_reads.
Qed.

Lemma average_u64 total n : in_u64 total -> in_u64 n -> in_u64 (average total n).
Proof.
  intros Ht Hn. unfold average. destruct (Z.eqb_spec n 0); [done|]. unfold in_u64 in *.
  split; [apply Z.div_pos; lia|]. pose proof (Z.div_le_upper_bound total n total). nia.
Qed.

Record stats_ok (s : RdmaProxyTimelineEventStats) : Prop := {
  so_count : in_u64 (ev_count s); so_sum : in_u64 (ev_sum_ns s);
  so_min : in_u64 (ev_min_ns s); so_max : in_u64 (ev_max_ns s); so_hist : Forall in_u64 (ev_hist s) }.

Lemma new_stats_ok : stats_ok new_stats.
Proof. split; repeat constructor; done. Qed.

Lemma nth_stats_ok l i : Forall stats_ok l -> stats_ok (nth i l new_stats).
Proof.
  intros Hl. destruct (nth_in_or_default i l new_stats) as [Hin| ->]; [|apply new_stats_ok].
  rewrite Forall_forall in Hl. apply Hl. by apply list_elem_of_In.
Qed.

Lemma words_pretty (l : list Z) : Forall (fun w => word w = true) (pretty <$> l).
Proof. apply Forall_fmap, Forall_true. intros z. apply word_pretty. Qed.

Section Table.
Variables (role plane : option string) (source_rank destination_rank channel : Z) (c : RdmaProxyTimelineCounters).
#[local] Abbreviation table := (table_v2 role source_rank destination_rank channel plane c).

(** No cell holds a separator. *)
Lemma table_words : word (text role) = true -> word (text plane) = true ->
  Forall (fun r => r <> [] /\ Forall (fun w => word w = true) r) table.
Proof.
  intros Hrole Hplane. unfold table_v2, event_row, hist_row, depth_row. cbn [kEvents seq fmap list_fmap app nth kEventNames].
  repeat first [apply Forall_cons; split | apply Forall_nil; exact I | apply words_pretty | split; [discriminate|]];
    auto using word_pretty, word_app.
Qed.

Lemma find_event i : (i < kEvents)%nat ->
  find (starts_with [nth i kEventNames ""]) (table ++ [[""]]) = Some (event_row c i) /\
  find (starts_with ["hist"; nth i kEventNames ""]) (table ++ [[""]]) = Some (hist_row c i).
Proof. intros Hi. do 11 (destruct i as [|i]; [by split|]). unfold kEvents in Hi. lia. Qed.
End Table.

(** The report gives the statistics back: a reader that looks for the line of
    an event in the text of [format_v2] finds the count, the sum, the average,
    the minimum (0 when there are no samples) and the maximum of that event, and
    on its histogram line the bins, as the numbers they were; labels and numbers
    cannot run into each other. *)
Theorem report_reads_back role source_rank destination_rank channel plane c i :
  word (text role) = true -> word (text plane) = true -> Forall stats_ok (events c) -> (i < kEvents)%nat ->
  let t := format_v2 role source_rank destination_rank channel plane c in
  let s := nth i (events c) new_stats in
  let name := nth i kEventNames "" in
  read_numbers [name] t = Some [ev_count s; ev_sum_ns s; average (ev_sum_ns s) (ev_count s);
    (if ev_count s =? 0 then 0 else ev_min_ns s); ev_max_ns s] /\
  read_numbers ["hist"; name] t = Some (ev_hist s).
Proof.
  intros Hrole Hplane Hc Hi t s name. destruct (nth_stats_ok _ i Hc) as [Hn Hsum Hmin Hmax Hhist].
  fold s in Hn, Hsum, Hmin, Hmax, Hhist. pose proof (average_u64 _ _ Hsum Hn) as Havg.
  unfold t, format_v2, read_numbers. rewrite lines_rows by by apply table_words.
  destruct (find_event role plane source_rank destination_rank channel c i Hi) as [Hrow Hbins].
  unfold name. rewrite Hrow, Hbins. split; [|by apply (read_pretty (ev_hist s))].
  apply (read_pretty [ev_count s; ev_sum_ns s; average (ev_sum_ns s) (ev_count s);
    (if ev_count s =? 0 then 0 else ev_min_ns s); ev_max_ns s]).
  repeat constructor; try apply Hn || apply Hsum || apply Havg || apply Hmax; destruct (ev_count s =? 0); done || apply Hmin.
Qed.

(** ** Witnesses *)

Module TimelineWitness.

Definition samples : list Z := [120; 250; 9999; 40000; 30000].
Definition measured : RdmaProxyTimelineCounters :=
  foldl (fun c ns => record_event 2 ns c) new_counters samples.

Example measured_event : nth 2 (events measured) new_stats = EventStats 5 80369 120 40000 [1; 1; 0; 0; 0; 0; 1; 0; 0; 0; 0; 2].
Proof. reflexivity. Qed.

Lemma stats_of_samples_witness :
  let s := foldl (fun s ns => record ns s) new_stats samples in
  s = summary samples /\ sum_ns (ev_hist s) = ev_count s /\ ev_min_ns s = 120.
Proof.
  destruct (stats_of_samples samples) as (Hs & Hsum & _); [repeat constructor; done|done|done|].
  split; [exact Hs|]. split; [exact Hsum|reflexivity].
Defined.

Lemma measured_ok : Forall stats_ok (events measured).
Proof. repeat constructor; done. Qed.

Lemma report_reads_back_witness :
  let t := format_v2 (Some "sender") 0 1 3 (Some "rdma") measured in
  read_numbers ["send_post_to_cq"] t = Some [5; 80369; 16073; 120; 40000] /\
  read_numbers ["hist"; "send_post_to_cq"] t = Some [1; 1; 0; 0; 0; 0; 1; 0; 0; 0; 0; 2].
Proof.
  exact (report_reads_back (Some "sender") 0 1 3 (Some "rdma") measured 2 eq_refl eq_refl measured_ok
    (ltac:(unfold kEvents; lia))).
Defined.

End TimelineWitness.
