(* ===== verification/Construct.v ===== *)
(** * The constructor of the communicator

    [Communicator::Impl::Impl] of src/collective/all_reduce/communicator.cu with
    [setup_socket_transport] and [setup_rdma_transport], the class
    [SocketFdOwner], and the order in which members are destroyed: the pieces of
    Topology, Buffers, NetSetup, RdmaSetup and RdmaProgress put together, with
    what the process holds at every point where a call can fail.

    The connections over shared memory and CUDA IPC, which the constructor only
    moves into a member, are the subject of MpiShm.v and P2pClose.v; what the
    threads of the RDMA proxies do is that of RdmaProgress.v. *)

From Stdlib Require Import ZArith Lia.
From stdpp Require Import base option numbers tactics strings list gmap.
From S2P Require Import Prelude Types Resources Geometry Topology Control Communicator Wire SocketProxy RdmaProxy Bootstrap NetSetup Lifetime EnvVars Buffers RdmaDevice RdmaProgress RdmaSetup Timeline.

#[local] Open Scope Z_scope.

(** ** The process *)

(** The threads a communicator has: of a socket proxy, which is known by its
    direction and its connection, of an RDMA proxy, known by its place, and of
    the progress engine that serves all RDMA proxies. *)
Inductive thread := SocketThread (x : bool * SocketHello) | ProxyThread (c : call) | EngineThread.
#[export] Instance thread_eq_dec : EqDecision thread.
Proof. solve_decision. Defined.

(** Memory and verbs objects, open connections, and running threads. *)
Record process := Process {
  pr_storage : rdma_state; pr_open : list SocketHello; pr_threads : list thread }.

Abbreviation CM := (PM process).

Definition at_storage {A} (m : RM A) : CM A := fun p =>
  let '(s, r) := m (pr_storage p) in (Process s (pr_open p) (pr_threads p), r).
Definition in_storage (f : rdma_state -> rdma_state) (p : process) : process :=
  Process (f (pr_storage p)) (pr_open p) (pr_threads p).

(** ** Connections with an owner *)

(** [SocketFdOwner] is the vector of its connections. *)
Definition SocketFdOwner := list SocketHello.

Definition close_connection (h : SocketHello) (p : process) : process :=
  Process (pr_storage p) (release h (pr_open p)) (pr_threads p).
Definition close_all (o : SocketFdOwner) (p : process) : process := foldr close_connection p o.
Definition release_connections (o : SocketFdOwner) : list SocketHello * SocketFdOwner := (o, []).
(** [operator=(SocketFdOwner&&)]: the owners afterwards; [same] is
    [this == &other]. *)
Definition assign_owner (same : bool) (self other : SocketFdOwner) (p : process) :
    process * SocketFdOwner * SocketFdOwner :=
  if same then (p, self, other) else (close_all self p, other, []).

(** ** What calls answer *)

Record host := Host {
  he_cuda : cuda; he_verbs : verbs; he_numa : Z -> Z;        (* gpu_numa_node *)
  he_device_count : Z + string;                              (* cudaGetDeviceCount *)
  he_thread : bool -> SocketHello -> option string;          (* std::thread of a socket proxy *)
  he_send_info : pending_rdma -> option string;              (* send_all *)
  he_recv_info : pending_rdma -> RdmaPeerInfo + string;      (* recv_all *)
  he_modify : rdma_resources -> option string;               (* ibv_modify_qp *)
  he_flush : pending_rdma -> option string;                  (* for_device *)
  he_scratch : pending_rdma -> Z;                            (* imm_scratch_ *)
  he_ready : option string;                                  (* the readiness bytes *)
  he_rdma_thread : thread -> option string }.                (* std::thread of a proxy or of the engine *)

(** The parts of a communicator that own something. *)
Record socket_part := SocketPart {
  so_abort : option buffer; so_channels : list socket_resources; so_setup : socket_setup }.
Record rdma_part := RdmaPart {
  rp_storage : rdma_storage; rp_tables : tables rdma_resources;
  rp_ends : list (rdma_proxy * option ibv_mr);               (* with the scratch memory it registered *)
  rp_threads : list life * list life * engine }.
Record constructed := Constructed {
  cn_impl : Impl; cn_fds : SocketFdOwner;
  cn_steps : buffer; cn_base_steps : buffer; cn_turnaround : option buffer;
  cn_sockets : socket_part; cn_rdma : option rdma_part }.

Section Construct.
Context `{BuildConfig} `{GpuSystem} (E : host).
Context (rdma_enabled timeline_enabled : bool).       (* of the build *)
Context (timeline_env : option string).
Context (device : Z) (t : ProcessTopology) (view : Z -> ends).

Abbreviation C := (he_cuda E).
Abbreviation devs := [device].

(** ** Storage *)

Definition require_local_device : CM unit :=
  match he_device_count E with
  | inr text => p_throw (RuntimeError text)
  | inl device_count =>
      if (device <? 0) || (device_count <=? device)
      then p_throw (InvalidArgument "communicator device must name one visible CUDA device")
      else check_cuda (cudaSetDevice C device)
  end.

(** A member array, destroyed when the rest throws. *)
Definition with_array {A} (f : flavour) (count : Z) (body : buffer -> CM A) : CM A :=
  b ← at_storage (on_memory (member (reset f C count (-1) devs)));
  p_unwind (in_storage (in_memory (destroy b))) (body b).

(** [maybe_enable_ring_turnaround]: one record of six words per channel. *)
Definition kTurnaroundBytes : Z := kChannels * 48.
Definition maybe_enable_ring_turnaround : CM (option buffer) :=
  if negb (timeline_enabled && Timeline.rdma_proxy_timeline_env_enabled timeline_env) then mret None else
  b ← at_storage (on_memory (MappedBuffer_new C 1 kTurnaroundBytes (-1) devs));
  _ ← p_modify (in_storage (in_memory (fun m => (clear_host (m, b)).1)));
  mret (Some b).
Definition destroy_optional (b : option buffer) (m : memory) : memory :=
  match b with Some b => destroy b m | None => m end.

Definition destroy_socket_resources (r : socket_resources) (m : memory) : memory :=
  destroy (sr_fifo r) (destroy (sr_control r) (destroy (sr_payload_bytes r) m)).

Fixpoint make_socket_channels (ends : list end_key) : PM memory (list socket_resources) :=
  match ends with
  | [] => mret []
  | k :: ends =>
      r ← make_socket_resources C devs (he_numa E) (ek_device k);
      p_unwind (destroy_socket_resources r) (
        rs ← make_socket_channels ends;
        mret (r :: rs))
  end.

Definition pointer (b : buffer) : ptr := (fun a => Loc a 0) <$> host_ptr b.
Definition net_of_socket (r : socket_resources) : net_resources := Net (pointer (sr_fifo r)) (pointer (sr_control r)).
Definition net_of_rdma (r : RdmaChannelResources) : net_resources :=
  Net (Some (Loc (data_ptr r) 0)) (pointer (ch_control r)).

(** The tables of pointers to what was made for the ends. *)
Definition tables_of {A} (ends : list end_key) (rs : list A) : tables A :=
  foldl (fun tb x => store_end x.1 x.2 tb) (Tables (fun _ _ => None) (fun _ _ => None)) (zip ends rs).

(** ** [setup_socket_transport] *)

(** Abort word and channels; the connections are still in [socket_fds_]. *)
Definition allocate_sockets (plan : RingTransportPlan) : CM (buffer * list end_key * list socket_resources) :=
  with_array mapped_u32_array 1 (fun abort =>
    ends ← p_lift (ends_of t plan Socket);
    channels ← at_storage (on_memory (make_socket_channels ends));
    mret (abort, ends, channels)).
Definition destroy_sockets (abort : buffer) (channels : list socket_resources) (p : process) : process :=
  in_storage (in_memory (fun m => destroy abort (foldr destroy_socket_resources m channels))) p.

(** The connections a set-up has placed. *)
Definition placed (s : socket_setup) : list SocketHello :=
  (np_connection <$> ss_send s) ++ (np_connection <$> ss_recv s) ++ ss_residual s.

(** The loop over the connections: when it throws, the connections that are
    left, those of the proxies and the residual ones are closed. *)
Fixpoint place_all (plan : RingTransportPlan) (connections : list SocketHello) (s : socket_setup) : CM socket_setup :=
  match connections with
  | [] => mret s
  | h :: rest => fun p =>
      match place_connection rdma_enabled t plan h s with
      | Ok s' => place_all plan rest s' p
      | Throw e => (close_all (connections ++ placed s) p, Throw e)
      end
  end.

(** Threads in the order of the loops; [join] in the destructor of a proxy. *)
Definition socket_threads (s : socket_setup) : list (bool * SocketHello) :=
  ((fun x => (true, np_connection x)) <$> ss_send s) ++ ((fun x => (false, np_connection x)) <$> ss_recv s).
Definition spawn (x : thread) (p : process) : process :=
  Process (pr_storage p) (pr_open p) (x :: pr_threads p).
Definition join (x : thread) (p : process) : process :=
  Process (pr_storage p) (pr_open p) (release x (pr_threads p)).
Definition join_all (l : list thread) (p : process) : process := foldr join p l.

Fixpoint start_sockets (started rest : list (bool * SocketHello)) : CM unit :=
  match rest with
  | [] => mret tt
  | x :: rest =>
      match he_thread E x.1 x.2 with
      | Some text => fun p => (join_all (SocketThread <$> started) p, Throw (RuntimeError text))
      | None => _ ← p_modify (spawn (SocketThread x)); start_sockets (started ++ [x]) rest
      end
  end.

(** The rest of the function, with what it has released from [socket_fds_]. *)
Definition connect_sockets (plan : RingTransportPlan) (tb : tables net_resources) (connections : list SocketHello) :
    CM socket_setup :=
  s ← place_all plan connections (SocketSetup tb [] [] []);
  p_unwind (close_all (placed s)) (_ ← start_sockets [] (socket_threads s); mret s).

Definition no_sockets (connections : list SocketHello) : socket_part :=
  SocketPart None [] (SocketSetup (Tables (fun _ _ => None) (fun _ _ => None)) [] [] connections).

Definition setup_sockets (plan : RingTransportPlan) (connections : list SocketHello) : CM socket_part :=
  if negb (distributed t) then mret (no_sockets connections) else
  a ← p_unwind (close_all connections) (allocate_sockets plan);
  let '(abort, ends, channels) := a in
  p_unwind (destroy_sockets abort channels) (
    s ← connect_sockets plan (tables_of ends (net_of_socket <$> channels)) connections;
    mret (SocketPart (Some abort) channels s)).

(** Proxies, abort word and channels; the residual connections are in
    [socket_fds_]. *)
Definition destroy_socket_part (x : socket_part) (p : process) : process :=
  in_storage (in_memory (fun m => destroy_optional (so_abort x) (foldr destroy_socket_resources m (so_channels x))))
    (close_all ((np_connection <$> ss_send (so_setup x)) ++ (np_connection <$> ss_recv (so_setup x)))
      (join_all (SocketThread <$> socket_threads (so_setup x)) p)).

(** ** [setup_rdma_transport] *)

(** The constructor of a receive proxy on the WRITE+CTS plane registers a byte
    of scratch memory per request, in the domain of the FIFO's region. *)
Definition kScratchBytes : Z := max_inflight ring_fifo.
Definition register_scratch (g : rdma_storage) (item : pending_rdma) : CM (option ibv_mr) :=
  if pe_is_send item || negb (uses_write_cts (sg_plane g)) then mret None else
  match ibv_reg_mr (he_verbs E) (default 0 (ep_pd (sg_endpoint g))) (he_scratch E item) kScratchBytes [LocalWrite] with
  | inr text => p_throw (RuntimeError ("ibv_reg_mr imm scratch: " +:+ text))
  | inl mr => _ ← p_modify (in_storage (hold (Mr (mr_id mr)))); mret (Some mr)
  end.
(** The destructors of the proxies; a queue pair that a proxy has taken over is
    counted with its channel. *)
Definition drop_scratch (mr : option ibv_mr) (s : rdma_state) : rdma_state :=
  match mr with Some mr => drop (Mr (mr_id mr)) s | None => s end.
Definition destroy_ends (ends : list (rdma_proxy * option ibv_mr)) (s : rdma_state) : rdma_state :=
  foldr (fun y => drop_scratch y.2) s ends.

Fixpoint finish_all (g : rdma_storage) (items : list (pending_rdma * RdmaPeerInfo)) :
    CM (list (rdma_proxy * option ibv_mr)) :=
  match items with
  | [] => mret []
  | x :: items =>
      y ← p_lift (finish_one (settings_of g) (he_modify E (pe_resources x.1)) (he_flush E x.1) x.1 x.2);
      mr ← register_scratch g x.1;
      p_unwind (in_storage (drop_scratch mr)) (
        ys ← finish_all g items;
        mret ((y, mr) :: ys))
  end.

(** All peer records are sent before the first one is received. *)
Fixpoint send_infos (pending : list pending_rdma) : CM unit :=
  match pending with
  | [] => mret tt
  | item :: pending => _ ← check_cuda (he_send_info E item); send_infos pending
  end.
Fixpoint recv_infos (pending : list pending_rdma) : CM (list RdmaPeerInfo) :=
  match pending with
  | [] => mret []
  | item :: pending =>
      match he_recv_info E item with
      | inr text => p_throw (RuntimeError text)
      | inl remote => remotes ← recv_infos pending; mret (remote :: remotes)
      end
  end.

(** From the released connections to the proxies. *)
Definition connect_rdma (plan : RingTransportPlan) (ends : list end_key) (g : rdma_storage)
    (connections : list SocketHello) : CM (tables rdma_resources * list (rdma_proxy * option ibv_mr)) :=
  let tb := tables_of ends ((fun r => resources_of (net_of_rdma r) r) <$> sg_channels g) in
  pending ← p_lift (gather_pending (settings_of g) t plan tb connections);
  _ ← send_infos pending;
  remotes ← recv_infos pending;
  proxies ← finish_all g (zip pending remotes);
  mret (tb, proxies).

(** [start] of the proxies of one direction, in the order of their vector; the
    destructors of those that run already join them when one cannot start. *)
Fixpoint start_own (what : string) (items : list (call * life)) : CM (list life) :=
  match items with
  | [] => mret []
  | (c, l) :: items =>
      l ← p_lift (start what l);
      match he_rdma_thread E (ProxyThread c) with
      | Some text => p_throw (RuntimeError text)
      | None =>
          _ ← p_modify (spawn (ProxyThread c));
          p_unwind (join (ProxyThread c)) (
            ls ← start_own what items;
            mret (l :: ls))
      end
  end.

(** Receivers are prepared or started before the peers are told that they may
    send. *)
Definition start_receivers (shared : bool) (lives : list life) : CM (list life) :=
  if shared then p_lift (mapM (prepare "recv") lives)
  else start_own "recv" (zip (RecvCall <$> seq 0 (length lives)) lives).

(** Every proxy exchanges a byte over its connection; the connections are closed
    afterwards, or when that fails. *)
Definition exchange_ready_bytes (connections : list SocketHello) : CM unit :=
  _ ← p_unwind (close_all connections) (check_cuda (he_ready E));
  p_modify (close_all connections).

Definition start_senders (shared : bool) (recv_nodes send_nodes : list Z) (lives : list life) (e : engine) :
    CM (list life * engine) :=
  if shared then
    lives ← p_lift (mapM (prepare "send") lives);
    e ← p_lift (foldM (fun p => add_recv (Some p)) (refs recv_nodes) e);
    e ← p_lift (foldM (fun p => add_send (Some p)) (refs send_nodes) e);
    e ← p_lift (start_engine true e);
    if negb (e_joinable e) then mret (lives, e) else
    match he_rdma_thread E EngineThread with
    | Some text => p_throw (RuntimeError text)
    | None => _ ← p_modify (spawn EngineThread); mret (lives, e)
    end
  else
    lives ← start_own "send" (zip (SendCall <$> seq 0 (length lives)) lives);
    mret (lives, e).

(** The threads that the destructors find joinable. *)
Definition own_threads (direction : nat -> call) (lives : list life) : list thread :=
  zip (direction <$> seq 0 (length lives)) lives ≫=
    fun x => if joinable x.2 then [ProxyThread x.1] else [].
Definition part_threads (x : list life * list life * engine) : list thread :=
  own_threads RecvCall x.1.1 ++ own_threads SendCall x.1.2 ++ (if e_joinable x.2 then [EngineThread] else []).

(** Receivers and senders in the order of their vectors. *)
Definition is_sender (x : rdma_proxy) : bool := is_local_global_rank t (id_source (np_id (rx_proxy x))).
Definition proxy_node (x : rdma_proxy) : Z := he_numa E device.
Definition receivers (ends : list rdma_proxy) : list rdma_proxy := filter (fun x => is_sender x = false) ends.
Definition senders (ends : list rdma_proxy) : list rdma_proxy := filter (fun x => is_sender x = true) ends.

(** The threads and the readiness bytes; the connections are in use until
    these have been exchanged. *)
Definition start_rdma (g : rdma_storage) (ends : list rdma_proxy) (connections : list SocketHello) :
    CM (list life * list life * engine) :=
  let shared := sg_shared_progress g in
  recvs ← p_unwind (close_all connections)
    (start_receivers shared ((fun _ => fresh_life) <$> receivers ends));
  p_unwind (join_all (own_threads RecvCall recvs)) (
    _ ← exchange_ready_bytes connections;
    x ← start_senders shared (proxy_node <$> receivers ends) (proxy_node <$> senders ends)
      ((fun _ => fresh_life) <$> senders ends) new_engine;
    mret (recvs, x.1, x.2)).

Definition prepare_rdma (plan : RingTransportPlan) (connections : list SocketHello) :
    CM (option (rdma_storage * (tables rdma_resources * list (rdma_proxy * option ibv_mr)))) :=
  some ← p_lift (has_rdma_edge plan);
  if negb (some : bool) then mret None else
  ends ← p_lift (ends_of t plan Rdma);
  g ← at_storage (setup_storage C (he_verbs E) devs (he_numa E) (storage_end <$> ends));
  p_unwind (in_storage (destroy_storage g)) (
    y ← connect_rdma plan ends g connections;
    mret (Some (g, y))).

Definition setup_rdma (plan : RingTransportPlan) (connections : list SocketHello) : CM (option rdma_part) :=
  if negb rdma_enabled || negb (distributed t) then mret None else
  x ← p_unwind (close_all connections) (prepare_rdma plan connections);
  match x with
  | None => mret None
  | Some (g, (tb, ends)) =>
      p_unwind (in_storage (fun s => destroy_storage g (destroy_ends ends s))) (
        threads ← start_rdma g ends.*1 connections;
        mret (Some (RdmaPart g tb ends threads)))
  end.

(** The threads are told to stop and joined, by the body of [~Impl] or by the
    members' destructors, before what they use is destroyed (RdmaProgress.v). *)
Definition destroy_rdma_part (x : option rdma_part) (p : process) : process :=
  match x with
  | Some x => in_storage (fun s => destroy_storage (rp_storage x) (destroy_ends (rp_ends x) s))
      (join_all (part_threads (rp_threads x)) p)
  | None => p
  end.

(** ** The constructor *)

(** The members that own nothing, as the constructor leaves them; tables of the
    build without RDMA are empty. *)
Definition found {A} (none : A) (m : Z -> Z -> option A) (channel edge : Z) : A := default none (m channel edge).
Definition no_net : net_resources := Net None None.
Definition initial_impl (plan : RingTransportPlan) (steps base_steps : buffer) (x : socket_part)
    (y : option rdma_part) : Impl :=
  let tb := ss_resources (so_setup x) in
  let rdma m channel edge := match y with
    | Some y => match m (rp_tables y) channel edge with Some r => rr_net r | None => no_net end
    | None => no_net end in
  {| i_device := device; i_topology := t;
     i_res := {| r_plan := plan; r_rdma_enabled := rdma_enabled;
       r_rdma_gdr_enabled := match y with
         | Some y => match sg_placement (rp_storage y) with GpuDirect => true | HostPin => false end
         | None => false end;
       r_socket_send := found no_net (tb_send tb); r_socket_recv := found no_net (tb_recv tb);
       r_rdma_send := rdma tb_send; r_rdma_recv := rdma tb_recv;
       r_view := view; r_steps := pointer steps; r_base_steps := pointer base_steps;
       r_socket_abort := match so_abort x with Some b => pointer b | None => None end;
       r_rdma_abort := match y with Some y => pointer (sg_abort (rp_storage y)) | None => None end |};
     i_socket_errors := match so_abort x with Some _ => Some None | None => None end;
     i_rdma_errors := match y with Some _ => Some None | None => None end;
     i_fifo _ := {| fr_slot_elems := 0; fr_shm_fifo _ _ := None; fr_p2p_fifo _ _ := None |};
     i_p2p_steps := None; i_bf16_devices_validated := false; i_control_initialized := false;
     i_life := Communicator.Life false false 0 false false false;
     i_cuda := Communicator.Cuda 0 0 (fun _ => ∅) ∅ [] [] |}.

(** Up to the set-up of the network: the checks, peer access (from what is
    [enabled] already), the step counters. *)
Definition check_arguments (enabled : gset (Z * Z)) : CM RingTransportPlan :=
  _ ← require_local_device;
  _ ← p_lift (check (bool_decide (Topology.devices t = devs))
        (RuntimeError "communicator topology devices do not match configuration"));
  _ ← p_lift (validate_process_topology t);
  plan ← p_lift (make_plan (edge_kinds t));
  _ ← p_lift (if uses_p2p plan && negb (distributed t)
              then enable_p2p_ring_peer_access_or_throw plan t enabled else Ok enabled);
  mret plan.

Definition allocate_steps : CM (buffer * buffer * option buffer) :=
  with_array mapped_u64_array (2 * kChannels * kRanks) (fun steps =>
    with_array mapped_u64_array (2 * kRanks * kChannels) (fun base_steps =>
      turnaround ← maybe_enable_ring_turnaround;
      mret (steps, base_steps, turnaround))).
Definition destroy_steps (steps base_steps : buffer) (turnaround : option buffer) (p : process) : process :=
  in_storage (in_memory (fun m => destroy steps (destroy base_steps (destroy_optional turnaround m)))) p.

Definition construct (enabled : gset (Z * Z)) (socket_fds : SocketFdOwner) : CM constructed :=
  let '(connections, _) := release_connections socket_fds in
  a ← p_unwind (close_all socket_fds) (
    plan ← check_arguments enabled;
    s ← allocate_steps;
    mret (plan, s));
  let '(plan, (steps, base_steps, turnaround)) := a in
  p_unwind (destroy_steps steps base_steps turnaround) (
    x ← setup_sockets plan connections;
    let residual := ss_residual (so_setup x) in
    p_unwind (destroy_socket_part x) (
      y ← setup_rdma plan residual;
      mret (Constructed (initial_impl plan steps base_steps x y)
              (match y with Some _ => [] | None => residual end)
              steps base_steps turnaround x y))).

(** The members in the reverse order of their declaration, after the body of
    the destructor has joined the threads. *)
Definition destroy_members (c : constructed) (p : process) : process :=
  close_all (cn_fds c) (destroy_socket_part (cn_sockets c) (destroy_rdma_part (cn_rdma c)
    (destroy_steps (cn_steps c) (cn_base_steps c) (cn_turnaround c) p))).
End Construct.

(** ** What is held *)

(** Storage in [S], connections and threads. *)
Definition keeping (S : rdma_state -> Prop) (os : list SocketHello) (ts : list thread) (p : process) : Prop :=
  S (pr_storage p) /\ pr_open p ≡ₚ os /\ pr_threads p ≡ₚ ts.

Lemma at_storage_spec {A} S E (Q : A -> rdma_state -> Prop) m os ts : spec S m E Q ->
  spec (keeping S os ts) (at_storage m) (keeping E os ts) (fun a => keeping (Q a) os ts).
Proof.
  intros Hm p (Hs & Ho & Ht). specialize (Hm _ Hs). unfold at_storage.
  destruct (m (pr_storage p)) as [s [a|e]]; by split_and!.
Qed.

Lemma at_storage_pure {A} S E (phi : A -> Prop) (Q : A -> rdma_state -> Prop) m os ts :
  spec S m E (fun a s => phi a /\ Q a s) ->
  spec (keeping S os ts) (at_storage m) (keeping E os ts) (fun a p => phi a /\ keeping (Q a) os ts p).
Proof.
  intros Hm. eapply spec_conseq; [by apply at_storage_spec|done|done|]. by intros a p ([] & ?).
Qed.

Lemma in_storage_keeping (S S' : rdma_state -> Prop) f os ts p : (forall s, S s -> S' (f s)) ->
  keeping S os ts p -> keeping S' os ts (in_storage f p).
Proof. intros Hf (Hs & Ho & Ht). split_and!; [by apply Hf|done|done]. Qed.

Lemma keeping_impl (S S' : rdma_state -> Prop) os os' ts ts' p : (forall s, S s -> S' s) ->
  os ≡ₚ os' -> ts ≡ₚ ts' -> keeping S os ts p -> keeping S' os' ts' p.
Proof. intros HS Ho Ht (Hs & Ho' & Ht'). split_and!; [by apply HS|by rewrite Ho'|by rewrite Ht']. Qed.

Lemma close_all_keeping S l os ts p : keeping S (l ++ os) ts p -> keeping S os ts (close_all l p).
Proof.
  revert os. induction l as [|h l IH]; intros os (Hs & Ho & Ht); [done|]. simpl.
  destruct (IH (h :: os)) as (Hs' & Ho' & Ht').
  { split_and!; [done| |done]. rewrite Ho. simpl. by rewrite Permutation_middle. }
  split_and!; [done| |done]. by apply release_perm.
Qed.

Lemma join_all_keeping S l os ts p : keeping S os (l ++ ts) p -> keeping S os ts (join_all l p).
Proof.
  revert ts. induction l as [|h l IH]; intros ts (Hs & Ho & Ht); [done|]. simpl.
  destruct (IH (h :: ts)) as (Hs' & Ho' & Ht').
  { split_and!; [done|done|]. rewrite Ht. simpl. by rewrite Permutation_middle. }
  split_and!; [done|done|]. by apply release_perm.
Qed.

(** Move assignment closes what the target had and empties the source. *)
Lemma assign_owner_keeping S self other os ts p : keeping S (self ++ other ++ os) ts p ->
  let '(p', self', other') := assign_owner false self other p in
  self' = other /\ keeping S (self' ++ other' ++ os) ts p'.
Proof. intros Hp. split; [done|]. by apply close_all_keeping. Qed.

(** [f] gives back these allocations and objects. *)
Definition discharges (l : list allocation) (v : list verbs_object) (f : rdma_state -> rdma_state) : Prop :=
  forall hs vs s, holds (l ++ hs) (v ++ vs) s -> holds hs vs (f s).

Lemma discharges_id : discharges [] [] (fun s => s).
Proof. by intros hs vs s. Qed.

Lemma discharges_comp l1 v1 f l2 v2 g : discharges l1 v1 f -> discharges l2 v2 g ->
  discharges (l1 ++ l2) (v1 ++ v2) (fun s => g (f s)).
Proof. intros Hf Hg hs vs s Hs. apply Hg, Hf. by rewrite !app_assoc. Qed.

Lemma destroy_discharges b : discharges (owned b) [] (in_memory (destroy b)).
Proof.
  intros hs vs s [Hm Hv]. split; [|done]. unfold in_memory, destroy, release_buffer, owned in *. simpl.
  destruct (host_ptr b) as [a|]; [by apply release_perm|done].
Qed.

Definition owned_optional (b : option buffer) : list allocation := match b with Some b => owned b | None => [] end.
Lemma destroy_optional_discharges b : discharges (owned_optional b) [] (in_memory (destroy_optional b)).
Proof. destruct b; [apply destroy_discharges|]. intros hs vs s [Hm Hv]. by split. Qed.

Definition socket_allocations (r : socket_resources) : list allocation :=
  owned (sr_payload_bytes r) ++ owned (sr_control r) ++ owned (sr_fifo r).

Lemma destroy_socket_discharges r : discharges (socket_allocations r) [] (in_memory (destroy_socket_resources r)).
Proof.
  exact (discharges_comp _ _ _ _ _ _ (destroy_discharges (sr_payload_bytes r))
    (discharges_comp _ _ _ _ _ _ (destroy_discharges (sr_control r)) (destroy_discharges (sr_fifo r)))).
Qed.

Lemma destroy_sockets_discharges rs : discharges (rs ≫= socket_allocations) []
  (in_memory (fun m => foldr destroy_socket_resources m rs)).
Proof.
  induction rs as [|r rs IH]; intros hs vs s Hs; [by destruct s|]. simpl in Hs.
  apply (destroy_socket_discharges r hs vs (in_memory (fun m => foldr destroy_socket_resources m rs) s)).
  apply IH. revert Hs. apply holds_proper; [solve_Permutation|done|done].
Qed.

(** How a set-up fails: nothing more is held than before, or one block that the
    constructor of a mapped buffer has lost. *)
Section Lost.
Context `{BuildConfig} (C : cuda).
Definition lost (hs : list allocation) (vs : list verbs_object) (s : rdma_state) : Prop :=
  holds hs vs s \/ exists bytes, bytes ∈ [kFifoBytes; kTurnaroundBytes] /\ leaks_pinned C bytes hs vs s.

Lemma discharges_lost l v f hs vs s : discharges l v f -> lost (l ++ hs) (v ++ vs) s -> lost hs vs (f s).
Proof.
  intros Hf [Hs|(bytes & Hb & a & Ha & Hs)]; [left; by apply Hf|right]. exists bytes. split; [done|]. exists a.
  split; [done|]. apply Hf. revert Hs. apply holds_proper; [by rewrite Permutation_middle|done|done].
Qed.
End Lost.

Section Facts.
Context `{BuildConfig} `{GpuSystem} (E : host).
Context (rdma_enabled timeline_enabled : bool) (timeline_env : option string).
Context (device : Z) (t : ProcessTopology) (view : Z -> ends).

Abbreviation C := (he_cuda E).
Abbreviation gone := (lost C).

(** ** Storage *)

Definition has_memory (b : buffer) : Prop := exists a, host_ptr b = Some a.

Lemma array_spec f count hs vs : spec (holds hs vs) (on_memory (member (reset f C count (-1) [device])))
  (gone hs vs) (fun b s => has_memory b /\ holds (owned b ++ hs) vs s).
Proof.
  eapply spec_conseq; [apply member_holds|done|intros s Hs; by left|].
  intros b s (a & Ha & Hs). split; [by exists a|]. unfold owned. by rewrite Ha.
Qed.

Lemma with_array_spec {A} f count (body : buffer -> CM A) hs vs os ts Q :
  (forall b, has_memory b -> spec (keeping (holds (owned b ++ hs) vs) os ts) (body b)
     (keeping (gone (owned b ++ hs) vs) os ts) Q) ->
  spec (keeping (holds hs vs) os ts) (with_array E device f count body) (keeping (gone hs vs) os ts) Q.
Proof.
  intros Hbody. eapply spec_bind; [apply at_storage_spec, array_spec|]. intros b.
  apply (spec_unwind _ _ _ (keeping (gone (owned b ++ hs) vs) os ts)).
  - intros p ([Hb Hs] & Ho & Ht). by apply (Hbody b Hb).
  - intros p. apply in_storage_keeping. intros s Hs.
    by apply (discharges_lost C (owned b) [] _ hs vs s (destroy_discharges b)).
Qed.

Definition socket_made (r : socket_resources) : Prop :=
  has_memory (sr_fifo r) /\ has_memory (sr_control r) /\ has_memory (sr_payload_bytes r).

Lemma socket_resources_spec d hs vs :
  spec (holds hs vs) (on_memory (make_socket_resources C [device] (he_numa E) d)) (gone hs vs)
    (fun r s => socket_made r /\ holds (socket_allocations r ++ hs) vs s).
Proof.
  intros s [Hm Hv]. pose proof (socket_resources_made C [device] (he_numa E) hs (rs_memory s) d Hm) as H'.
  unfold on_memory. destruct (make_socket_resources _ _ _ _ _) as [m [r|e]]; simpl.
  - destruct H' as (a & b & c & Hh & Ha & Hb & Hc & _). split; [split_and!; eexists; eassumption|].
    unfold socket_allocations, owned. rewrite Ha, Hb, Hc. split; [exact Hh|done].
  - destruct H' as [Hh|(a & Ha & Hh)]; [by left|right]. exists kFifoBytes. split; [left|].
    exists a. simpl in Ha. rewrite Z.mul_1_r in Ha. split; [done|]. by split.
Qed.

Lemma make_sockets_spec ends : forall hs vs,
  spec (holds hs vs) (on_memory (make_socket_channels E device ends)) (gone hs vs)
    (fun rs s => Forall socket_made rs /\ length rs = length ends /\
       holds ((rs ≫= socket_allocations) ++ hs) vs s).
Proof.
  induction ends as [|k ends IH]; intros hs vs s Hs; [by destruct s|].
  pose proof (socket_resources_spec (ek_device k) hs vs s Hs) as H1. unfold on_memory in *. simpl.
  unfold mbind at 1, PM_bind at 1.
  destruct (make_socket_resources _ _ _ _ _) as [m1 [r|e]]; [|done]. destruct H1 as [Hr H1].
  specialize (IH _ _ _ H1). simpl in IH. unfold p_unwind, mbind, PM_bind.
  destruct (make_socket_channels E device ends m1) as [m2 [rs|e]]; simpl in *.
  - destruct IH as (Hrs & Hlen & H2). split; [by constructor|]. split; [by rewrite Hlen|].
    revert H2. apply holds_proper; [solve_Permutation|done|done].
  - by apply (discharges_lost C (socket_allocations r) [] (in_memory (destroy_socket_resources r)) hs vs
      (RdmaState m2 (rs_verbs s)) (destroy_socket_discharges r)).
Qed.

Lemma lift_spec {A} (r : res A) S (E' : process -> Prop) :
  (forall p, S p -> E' p) -> spec S (p_lift r) E' (fun a p => r = Ok a /\ S p).
Proof. intros HE p Hp. unfold p_lift. destruct r; [done|]. by apply HE. Qed.

Lemma kept S S' os ts p : (forall s, S s -> S' s) -> keeping S os ts p -> keeping S' os ts p.
Proof. intros HS. by apply keeping_impl. Qed.

Lemma kept_lost hs vs os ts p : keeping (holds hs vs) os ts p -> keeping (gone hs vs) os ts p.
Proof. apply kept. intros s Hs. by left. Qed.

Definition sockets_made (plan : RingTransportPlan) (x : buffer * list end_key * list socket_resources) : Prop :=
  ends_of t plan Socket = Ok x.1.2 /\ has_memory x.1.1 /\ Forall socket_made x.2 /\ length x.2 = length x.1.2.

Lemma allocate_sockets_spec plan hs vs os ts :
  spec (keeping (holds hs vs) os ts) (allocate_sockets E device t plan) (keeping (gone hs vs) os ts)
    (fun x p => sockets_made plan x /\
       keeping (holds ((x.2 ≫= socket_allocations) ++ owned x.1.1 ++ hs) vs) os ts p).
Proof.
  apply with_array_spec. intros abort Ha.
  eapply spec_bind; [apply lift_spec, kept_lost|]. intros ends. apply spec_pure. intros He.
  eapply spec_bind; [apply at_storage_spec, make_sockets_spec|]. intros rs. apply spec_ret.
  intros p ((Hrs & Hlen & Hs) & Ho & Ht). done.
Qed.

(** ** Connections and threads *)

Lemma place_placed plan h s s' : place_connection rdma_enabled t plan h s = Ok s' -> placed s' ≡ₚ h :: placed s.
Proof.
  unfold place_connection, placed. destruct (negb _); [done|]. intros (kind & _ & Hk)%bind_ok.
  destruct (bool_decide (kind = Rdma)); [injection Hk as <-; simpl; solve_Permutation|].
  destruct (is_local_global_rank _ _);
    apply bind_ok in Hk as (local & _ & (d & _ & (r & _ & ([] & _ & [= <-])%bind_ok)%bind_ok)%bind_ok);
    simpl; rewrite fmap_app; simpl; solve_Permutation.
Qed.

Lemma place_all_spec plan S os ts connections : forall s0,
  spec (keeping S (connections ++ placed s0 ++ os) ts) (place_all rdma_enabled t plan connections s0) (keeping S os ts)
    (fun s p => (foldM (place_connection rdma_enabled t plan) connections s0 = Ok s /\
                 placed s ≡ₚ connections ++ placed s0) /\
       keeping S (placed s ++ os) ts p).
Proof.
  induction connections as [|h rest IH]; intros s0 p Hp; [done|]. cbn [place_all foldM].
  destruct (place_connection rdma_enabled t plan h s0) as [s1|e] eqn:Hs1.
  - pose proof (place_placed _ _ _ _ Hs1) as Hperm. specialize (IH s1 p). cbn [mbind res_bind].
    destruct (place_all rdma_enabled t plan rest s1 p) as [p' [s|e]].
    + destruct IH as [[Hf Hpl] Hk].
      { revert Hp. apply keeping_impl; [done| |done]. rewrite Hperm. solve_Permutation. }
      split; [|done]. split; [done|]. rewrite Hpl, Hperm. solve_Permutation.
    + apply IH. revert Hp. apply keeping_impl; [done| |done]. rewrite Hperm. solve_Permutation.
  - apply close_all_keeping. revert Hp. apply keeping_impl; [done| |done]. by rewrite app_assoc.
Qed.

Lemma start_sockets_spec S os ts rest : forall started,
  spec (keeping S os ((SocketThread <$> started) ++ ts)) (start_sockets E started rest) (keeping S os ts)
    (fun _ => keeping S os ((SocketThread <$> started) ++ (SocketThread <$> rest) ++ ts)).
Proof.
  induction rest as [|x rest IH]; intros started p Hp; simpl; [done|].
  destruct (he_thread E x.1 x.2); [by apply join_all_keeping|].
  specialize (IH (started ++ [x]) (spawn (SocketThread x) p)). unfold mbind, PM_bind, p_modify.
  rewrite fmap_app in IH.
  destruct (start_sockets E (started ++ [x]) rest (spawn (SocketThread x) p)) as [p' [u|e]].
  - rewrite <- !app_assoc in IH. simpl in IH. apply IH. destruct Hp as (Hs & Ho & Ht). split_and!; [done|done|].
    simpl. rewrite Ht. solve_Permutation.
  - apply IH. destruct Hp as (Hs & Ho & Ht). split_and!; [done|done|]. simpl. rewrite Ht. solve_Permutation.
Qed.

Lemma connect_sockets_spec plan tb connections S os ts :
  spec (keeping S (connections ++ os) ts) (connect_sockets E rdma_enabled t plan tb connections) (keeping S os ts)
    (fun s p => (foldM (place_connection rdma_enabled t plan) connections (SocketSetup tb [] [] []) = Ok s /\
                 placed s ≡ₚ connections) /\
       keeping S (placed s ++ os) ((SocketThread <$> socket_threads s) ++ ts) p).
Proof.
  eapply spec_bind.
  { eapply spec_conseq; [apply (place_all_spec plan S os ts connections (SocketSetup tb [] [] []))|done|done|].
    intros s p Hp. exact Hp. }
  intros s. apply spec_pure. intros [Hf Hp].
  apply (spec_unwind _ _ _ (keeping S (placed s ++ os) ts)); [|intros p; by apply close_all_keeping].
  eapply spec_bind; [apply (start_sockets_spec S (placed s ++ os) ts (socket_threads s) [])|].
  intros u. apply spec_ret. intros p Hk. split; [|done]. split; [done|]. by rewrite Hp, app_nil_r.
Qed.

(** ** The socket part *)

Definition part_allocations (x : socket_part) : list allocation :=
  owned_optional (so_abort x) ++ (so_channels x ≫= socket_allocations).
Definition part_connections (x : socket_part) : list SocketHello :=
  (np_connection <$> ss_send (so_setup x)) ++ (np_connection <$> ss_recv (so_setup x)).

Lemma destroy_part_keeping x hs vs os ts p :
  keeping (holds (part_allocations x ++ hs) vs) (part_connections x ++ os) ((SocketThread <$> socket_threads (so_setup x)) ++ ts) p ->
  keeping (holds hs vs) os ts (destroy_socket_part x p).
Proof.
  intros Hp. unfold destroy_socket_part.
  apply (in_storage_keeping (holds (part_allocations x ++ hs) vs)); [|by apply close_all_keeping, join_all_keeping].
  intros s Hs.
  apply (destroy_optional_discharges (so_abort x) hs vs
    (in_memory (fun m => foldr destroy_socket_resources m (so_channels x)) s)).
  apply (destroy_sockets_discharges (so_channels x) (owned_optional (so_abort x) ++ hs) vs).
  revert Hs. unfold part_allocations. apply holds_proper; [solve_Permutation|done|done].
Qed.

(** What a socket part is when the constructor goes on. *)
Record part_made (plan : RingTransportPlan) (connections : list SocketHello) (x : socket_part) : Prop := {
  pm_distributed : distributed t = true -> exists abort ends tb,
    so_abort x = Some abort /\ has_memory abort /\ ends_of t plan Socket = Ok ends /\
    Forall socket_made (so_channels x) /\ length (so_channels x) = length ends /\
    tb = tables_of ends (net_of_socket <$> so_channels x) /\
    foldM (place_connection rdma_enabled t plan) connections (SocketSetup tb [] [] []) = Ok (so_setup x);
  pm_local : distributed t = false -> x = no_sockets connections;
  pm_placed : part_connections x ++ ss_residual (so_setup x) ≡ₚ connections }.

Lemma destroy_abort_channels abort channels hs vs s :
  holds ((channels ≫= socket_allocations) ++ owned abort ++ hs) vs s ->
  holds hs vs (in_memory (fun m => destroy abort (foldr destroy_socket_resources m channels)) s).
Proof.
  intros Hs. exact (discharges_comp _ _ _ _ _ _ (destroy_sockets_discharges channels) (destroy_discharges abort)
    hs vs s ltac:(by rewrite <- app_assoc)).
Qed.

Lemma setup_sockets_spec plan connections hs vs os ts :
  spec (keeping (holds hs vs) (connections ++ os) ts) (setup_sockets E rdma_enabled device t plan connections)
    (keeping (gone hs vs) os ts)
    (fun x p => part_made plan connections x /\
       keeping (holds (part_allocations x ++ hs) vs) (part_connections x ++ ss_residual (so_setup x) ++ os)
         ((SocketThread <$> socket_threads (so_setup x)) ++ ts) p).
Proof.
  unfold setup_sockets. destruct (distributed t) eqn:Hd; simpl.
  2: { apply spec_ret. intros p Hp. split; [|done]. split; [by rewrite Hd|done|done]. }
  eapply spec_bind.
  { apply (spec_unwind _ _ _ (keeping (gone hs vs) (connections ++ os) ts)); [apply allocate_sockets_spec|].
    intros p. apply close_all_keeping. }
  intros [[abort ends] channels]. apply spec_pure. intros (He & Ha & Hc & Hlen). simpl in *.
  apply (spec_unwind _ _ _ (keeping (holds ((channels ≫= socket_allocations) ++ owned abort ++ hs) vs) os ts)).
  2: { intros p. apply in_storage_keeping. intros s Hs. left. by apply destroy_abort_channels. }
  eapply spec_bind; [apply connect_sockets_spec|]. intros s. apply spec_pure. intros [Hf Hp]. apply spec_ret.
  intros p Hk. split.
  - split; [intros _; by exists abort, ends, (tables_of ends (net_of_socket <$> channels))|by rewrite Hd|].
    unfold part_connections. simpl. rewrite <- Hp.
    unfold placed. solve_Permutation.
  - revert Hk. apply keeping_impl; [|unfold placed, part_connections; simpl; solve_Permutation|done].
    intros x. unfold part_allocations. simpl. apply holds_proper; [solve_Permutation|done|done].
Qed.

(** ** The RDMA part *)


Lemma send_infos_spec P pending : spec P (send_infos E pending) P (fun _ => P).
Proof.
  induction pending as [|item pending IH]; simpl; [by apply spec_ret|].
  eapply spec_bind; [apply check_cuda_spec|]. intros u. exact IH.
Qed.

Lemma recv_infos_spec (P : process -> Prop) pending : spec P (recv_infos E pending) P
  (fun remotes p => Forall2 (fun item remote => he_recv_info E item = inl remote) pending remotes /\ P p).
Proof.
  induction pending as [|item pending IH]; simpl; [apply spec_ret; by split; [constructor|]|].
  destruct (he_recv_info E item) as [remote|text] eqn:Hr; [|by apply spec_throw].
  eapply spec_bind; [exact IH|]. intros remotes. apply spec_pure. intros Hf. apply spec_ret.
  intros p Hp. split; [by constructor|done].
Qed.

Definition rdma_table (g : rdma_storage) (keys : list end_key) : tables rdma_resources :=
  tables_of keys ((fun r => resources_of (net_of_rdma r) r) <$> sg_channels g).

Definition scratch_objects (ends : list (rdma_proxy * option ibv_mr)) : list verbs_object :=
  ends ≫= fun y => match y.2 with Some mr => [Mr (mr_id mr)] | None => [] end.

Lemma destroy_ends_discharges ends : discharges [] (scratch_objects ends) (destroy_ends ends).
Proof.
  induction ends as [|[y [mr|]] ends IH]; intros hs vs s Hs; [done| |by apply IH]. simpl in *.
  apply drop_holds, IH. revert Hs. apply holds_proper; [done|solve_Permutation|done].
Qed.

(** What the exchange has connected; receivers on the WRITE+CTS plane have
    their scratch memory. *)
Definition finished (g : rdma_storage) (x : pending_rdma * RdmaPeerInfo) (y : rdma_proxy * option ibv_mr) : Prop :=
  finish_one (settings_of g) (he_modify E (pe_resources x.1)) (he_flush E x.1) x.1 x.2 = Ok y.1 /\
  (is_Some y.2 <-> pe_is_send x.1 = false /\ sg_plane g = WriteCts).

Definition rdma_connected (plan : RingTransportPlan) (g : rdma_storage) (keys : list end_key)
    (connections : list SocketHello) (ends : list (rdma_proxy * option ibv_mr)) : Prop :=
  exists pending remotes,
    gather_pending (settings_of g) t plan (rdma_table g keys) connections = Ok pending /\
    Forall2 (fun item remote => he_recv_info E item = inl remote) pending remotes /\
    Forall2 (finished g) (zip pending remotes) ends.

Lemma register_scratch_spec g item hs vs os ts :
  spec (keeping (holds hs vs) os ts) (register_scratch E g item) (keeping (holds hs vs) os ts)
    (fun mr p => (is_Some mr <-> pe_is_send item = false /\ sg_plane g = WriteCts) /\
       keeping (holds hs (match mr with Some mr => [Mr (mr_id mr)] | None => [] end ++ vs)) os ts p).
Proof.
  unfold register_scratch. destruct (pe_is_send item || negb (uses_write_cts (sg_plane g))) eqn:Hno.
  - apply spec_ret. intros p Hp. split; [|done]. split; [by intros []|]. intros [Hs Hw]. by rewrite Hs, Hw in Hno.
  - apply orb_false_iff in Hno as [Hs Hw]. destruct (ibv_reg_mr _ _ _ _ _) as [mr|text]; [|by apply spec_throw].
    eapply (spec_bind _ _ (fun _ => keeping (holds hs (Mr (mr_id mr) :: vs)) os ts)).
    { apply spec_modify. intros p. apply in_storage_keeping. intros s. apply hold_holds. }
    intros u. apply spec_ret. intros p Hp. split; [|done]. split; [|by eexists]. intros _. split; [done|].
    by destruct (sg_plane g).
Qed.

Lemma finish_all_spec g hs os ts items : forall vs,
  spec (keeping (holds hs vs) os ts) (finish_all E g items) (keeping (holds hs vs) os ts)
    (fun ys p => Forall2 (finished g) items ys /\ keeping (holds hs (scratch_objects ys ++ vs)) os ts p).
Proof.
  induction items as [|x items IH]; intros vs; cbn [finish_all].
  { apply spec_ret. intros p Hp. split; [constructor|done]. }
  eapply spec_bind; [by apply lift_spec|]. intros y. apply spec_pure. intros Hy.
  eapply spec_bind; [apply register_scratch_spec|]. intros mr. apply spec_pure. intros Hmr.
  apply (spec_unwind _ _ _ (keeping (holds hs (match mr with Some mr => [Mr (mr_id mr)] | None => [] end ++ vs)) os ts)).
  2: { intros p. apply in_storage_keeping. intros s. destruct mr; [apply drop_holds|done]. }
  eapply spec_bind; [apply IH|]. intros ys. apply spec_pure. intros Hys. apply spec_ret. intros p Hp.
  split; [by constructor|]. revert Hp. apply kept. intros s. unfold scratch_objects. simpl.
  apply holds_proper; [done|solve_Permutation|done].
Qed.

Lemma connect_rdma_spec plan keys g connections hs vs os ts :
  spec (keeping (holds hs vs) os ts) (connect_rdma E t plan keys g connections) (keeping (holds hs vs) os ts)
    (fun x p => (x.1 = rdma_table g keys /\ rdma_connected plan g keys connections x.2) /\
       keeping (holds hs (scratch_objects x.2 ++ vs)) os ts p).
Proof.
  eapply spec_bind; [by apply lift_spec|]. intros pending. apply spec_pure. intros Hg.
  eapply spec_bind; [apply send_infos_spec|]. intros u.
  eapply spec_bind; [apply recv_infos_spec|]. intros remotes. apply spec_pure. intros Hr.
  eapply spec_bind; [apply finish_all_spec|]. intros ends. apply spec_pure. intros Hf.
  apply spec_ret. intros p Hp.
  split; [|done]. split; [done|]. by exists pending, remotes.
Qed.

(** ** The threads of the RDMA part *)

(** Every proxy has a thread, or the engine serves them if there are any. *)
Definition expected_threads (shared : bool) (nrecv nsend : nat) : list thread :=
  if shared then if bool_decide (nrecv + nsend = 0)%nat then [] else [EngineThread]
  else (ProxyThread <$> (RecvCall <$> seq 0 nrecv)) ++ (ProxyThread <$> (SendCall <$> seq 0 nsend)).

Lemma own_threads_idle direction n b : own_threads direction (replicate n (RdmaProgress.Life b false)) = [].
Proof.
  unfold own_threads. generalize (direction <$> seq 0 (length (replicate n (RdmaProgress.Life b false)))).
  induction n as [|n IH]; intros [|c l]; simpl; done.
Qed.

Lemma own_threads_running direction n b :
  own_threads direction (replicate n (RdmaProgress.Life b true)) = ProxyThread <$> (direction <$> seq 0 n).
Proof.
  unfold own_threads. rewrite length_replicate. generalize 0%nat.
  induction n as [|n IH]; intros k; simpl; [done|]. f_equal. apply IH.
Qed.

Lemma mapM_cons_ok {A B} (f : A -> res B) x l y k :
  f x = Ok y -> mapM f l = Ok k -> mapM f (x :: l) = Ok (y :: k).
Proof. intros Hx Hl. simpl. rewrite Hx. simpl. by rewrite Hl. Qed.

Lemma start_own_spec S os ts what items : spec (keeping S os ts) (start_own E what items) (keeping S os ts)
  (fun ls p => mapM (start what) items.*2 = Ok ls /\ keeping S os ((ProxyThread <$> items.*1) ++ ts) p).
Proof.
  revert ts. induction items as [|[c l] items IH]; intros ts; simpl; [by apply spec_ret|].
  eapply spec_bind; [by apply lift_spec|]. intros l'. apply spec_pure. intros Hl.
  destruct (he_rdma_thread E (ProxyThread c)); [by apply spec_throw|].
  eapply (spec_bind _ _ (fun _ => keeping S os (ProxyThread c :: ts))).
  { apply spec_modify. intros p (Hs & Ho & Ht). split_and!; [done|done|]. simpl. by rewrite Ht. }
  intros u. apply (spec_unwind _ _ _ (keeping S os (ProxyThread c :: ts))).
  2: { intros p. exact (join_all_keeping S [ProxyThread c] os ts p). }
  eapply spec_bind; [apply IH|]. intros ls. apply spec_pure. intros Hls. apply spec_ret. intros p Hp.
  split; [exact (mapM_cons_ok _ _ _ _ _ Hl Hls)|].
  revert Hp. apply keeping_impl; [done|done|solve_Permutation].
Qed.

Lemma start_own_fresh S os ts what direction n :
  spec (keeping S os ts) (start_own E what (zip (direction <$> seq 0 (length (replicate n fresh_life))) (replicate n fresh_life)))
    (keeping S os ts)
    (fun ls p => (ls = replicate n (RdmaProgress.Life true true) /\
        mapM (start what) (replicate n fresh_life) = Ok ls) /\
      keeping S os (own_threads direction ls ++ ts) p).
Proof.
  eapply spec_conseq; [apply start_own_spec|done|done|]. intros ls p [Hls Hp].
  assert (length (direction <$> seq 0 n) = n) as Hlen by by rewrite length_fmap, length_seq.
  rewrite length_replicate in *. rewrite snd_zip in Hls by (rewrite length_replicate; lia).
  rewrite fst_zip in Hp by (rewrite length_replicate; lia).
  assert (ls = replicate n (RdmaProgress.Life true true)) as ->.
  { rewrite (mapM_lives _ _ fresh_life (RdmaProgress.Life true true)) in Hls by done. congruence. }
  split; [done|]. by rewrite own_threads_running.
Qed.

Lemma fresh_lives {A} (l : list A) : (fun _ => fresh_life) <$> l = replicate (length l) fresh_life.
Proof. induction l as [|x l IH]; [done|]. exact (f_equal (cons fresh_life) IH). Qed.

Lemma start_receivers_spec S os ts shared n :
  spec (keeping S os ts) (start_receivers E shared (replicate n fresh_life)) (keeping S os ts)
    (fun ls p => (ls = replicate n (RdmaProgress.Life true (negb shared)) /\
        mapM ((if shared then prepare else start) "recv") (replicate n fresh_life) = Ok ls) /\
      keeping S os (own_threads RecvCall ls ++ ts) p).
Proof.
  unfold start_receivers. destruct shared; [|apply start_own_fresh].
  eapply spec_conseq; [by apply lift_spec|done|done|]. intros ls p [Hls Hp].
  assert (ls = replicate n (RdmaProgress.Life true false)) as ->.
  { rewrite (mapM_lives _ _ fresh_life (RdmaProgress.Life true false)) in Hls by done. congruence. }
  split; [done|]. by rewrite own_threads_idle.
Qed.

Lemma start_senders_spec S os ts shared rn sn :
  spec (keeping S os ts) (start_senders E shared rn sn (replicate (length sn) fresh_life) new_engine) (keeping S os ts)
    (fun x p => (own_threads SendCall x.1 ++ (if e_joinable x.2 then [EngineThread] else []) =
        (if shared then if bool_decide (length rn + length sn = 0)%nat then [] else [EngineThread]
         else ProxyThread <$> (SendCall <$> seq 0 (length sn))) /\
        forall recvs, mapM ((if shared then prepare else start) "recv") (replicate (length rn) fresh_life) = Ok recvs ->
          start_threads shared rn sn (replicate (length rn) fresh_life) (replicate (length sn) fresh_life) new_engine =
            Ok (recvs, x.1, x.2)) /\
      keeping S os (own_threads SendCall x.1 ++ (if e_joinable x.2 then [EngineThread] else []) ++ ts) p).
Proof.
  unfold start_senders, start_threads. destruct shared.
  - eapply spec_bind; [by apply lift_spec|]. intros lives. apply spec_pure. intros Hl.
    eapply spec_bind; [by apply lift_spec|]. intros e1. apply spec_pure. intros He1.
    eapply spec_bind; [by apply lift_spec|]. intros e2. apply spec_pure. intros He2.
    eapply spec_bind; [by apply lift_spec|]. intros e3. apply spec_pure. intros He3.
    rewrite (mapM_lives _ _ fresh_life (RdmaProgress.Life true false)) in Hl by done. injection Hl as <-.
    assert (e_joinable e3 = negb (bool_decide (length rn + length sn = 0)%nat)) as Hj.
    { rewrite add_recvs in He1 by done. injection He1 as <-. rewrite add_sends in He2 by done. injection He2 as <-.
      revert He3. unfold start_engine. simpl. rewrite !refs_index.
      destruct rn, sn; simpl; by intros [= <-]. }
    assert (forall recvs, mapM (prepare "recv") (replicate (length rn) fresh_life) = Ok recvs ->
      (recvs ← mapM (prepare "recv") (replicate (length rn) fresh_life);
       sends ← mapM (prepare "send") (replicate (length sn) fresh_life);
       e ← foldM (fun p => add_recv (Some p)) (refs rn) new_engine;
       e ← foldM (fun p => add_send (Some p)) (refs sn) e;
       e ← start_engine true e; mret (recvs, sends, e)) =
      Ok (recvs, replicate (length sn) (RdmaProgress.Life true false), e3)) as Hall.
    { intros recvs ->. simpl. rewrite (mapM_lives _ _ fresh_life (RdmaProgress.Life true false)) by done. simpl.
      rewrite He1. simpl. rewrite He2. simpl. by rewrite He3. }
    destruct (e_joinable e3) eqn:Ej; simpl.
    + destruct (he_rdma_thread E EngineThread); [by apply spec_throw|].
      eapply (spec_bind _ _ (fun _ => keeping S os (EngineThread :: ts))).
      { apply spec_modify. intros p (Hs & Ho & Ht). split_and!; [done|done|]. simpl. by rewrite Ht. }
      intros u. apply spec_ret. intros p Hp. simpl. rewrite Ej, own_threads_idle. split; [|done]. split; [|done].
      by destruct (bool_decide _).
    + apply spec_ret. intros p Hp. simpl. rewrite Ej, own_threads_idle. split; [|done]. split; [|done].
      by destruct (bool_decide _).
  - eapply spec_bind; [apply start_own_fresh|]. intros lives. apply spec_pure. intros [-> Hl].
    apply spec_ret. intros p Hp. simpl. rewrite app_nil_r. split; [|done]. split; [apply own_threads_running|].
    intros recvs ->. simpl. by rewrite Hl.
Qed.

(** The threads are those the ends need, and as RdmaProgress.v assumes them. *)
Definition threads_made (g : rdma_storage) (ends : list rdma_proxy) (threads : list life * list life * engine) : Prop :=
  let shared := sg_shared_progress g in
  let recvs := receivers t ends in
  let sends := senders t ends in
  start_threads shared (proxy_node E device <$> recvs) (proxy_node E device <$> sends)
    (replicate (length recvs) fresh_life) (replicate (length sends) fresh_life) new_engine = Ok threads /\
  part_threads threads = expected_threads shared (length recvs) (length sends).

Lemma start_rdma_spec S g ends connections os ts :
  spec (keeping S (connections ++ os) ts) (start_rdma E device t g ends connections) (keeping S os ts)
    (fun threads p => threads_made g ends threads /\ keeping S os (part_threads threads ++ ts) p).
Proof.
  unfold start_rdma. rewrite !fresh_lives. eapply spec_bind.
  { apply (spec_unwind _ _ _ (keeping S (connections ++ os) ts)); [apply start_receivers_spec|].
    intros p. apply close_all_keeping. }
  intros recvs. apply spec_pure. intros [Hr Hm].
  apply (spec_unwind _ _ _ (keeping S os (own_threads RecvCall recvs ++ ts))); [|intros p; apply join_all_keeping].
  eapply (spec_bind _ _ (fun _ => keeping S os (own_threads RecvCall recvs ++ ts))).
  { unfold exchange_ready_bytes. eapply spec_bind.
    - apply (spec_unwind _ _ _ (keeping S (connections ++ os) (own_threads RecvCall recvs ++ ts)));
        [apply check_cuda_spec|intros p; apply close_all_keeping].
    - intros u. apply spec_modify. intros p. apply close_all_keeping. }
  intros u. eapply spec_bind.
  { replace (length (senders t ends)) with (length (proxy_node E device <$> senders t ends)) by apply length_fmap.
    apply start_senders_spec. }
  intros [sends e]. apply spec_pure. intros [Hs Ht]. apply spec_ret. intros p Hp. simpl in *.
  rewrite !length_fmap in *. split.
  - split; [by apply Ht|]. unfold part_threads, expected_threads. simpl. rewrite Hs, Hr.
    destruct (sg_shared_progress g); simpl; [by rewrite own_threads_idle|by rewrite own_threads_running].
  - revert Hp. apply keeping_impl; [done|done|]. unfold part_threads. simpl. solve_Permutation.
Qed.

(** Storage and connected ends, if an edge needs them. *)
Record rdma_made (plan : RingTransportPlan) (connections : list SocketHello) (g : rdma_storage)
    (tb : tables rdma_resources) (ends : list (rdma_proxy * option ibv_mr)) : Prop := {
  rm_edge : has_rdma_edge plan = Ok true;
  rm_keys : exists keys, ends_of t plan Rdma = Ok keys /\
    storage_made C (he_verbs E) (storage_end <$> keys) g /\ tb = rdma_table g keys /\
    rdma_connected plan g keys connections ends }.

Lemma storage_discharges keys g : storage_made C (he_verbs E) keys g ->
  discharges (storage_allocations g) (storage_objects g) (destroy_storage g).
Proof. intros Hg hs vs s. by apply (destroy_storage_holds C (he_verbs E) keys). Qed.

Definition end_objects (g : rdma_storage) (ends : list (rdma_proxy * option ibv_mr)) : list verbs_object :=
  scratch_objects ends ++ storage_objects g.

Lemma made_discharges plan connections g tb ends : rdma_made plan connections g tb ends ->
  discharges (storage_allocations g) (end_objects g ends) (fun s => destroy_storage g (destroy_ends ends s)).
Proof.
  intros [_ (keys & _ & Hg & _)].
  exact (discharges_comp _ _ _ _ _ _ (destroy_ends_discharges ends) (storage_discharges _ g Hg)).
Qed.

Lemma prepare_rdma_spec plan connections hs vs os ts :
  spec (keeping (holds hs vs) os ts) (prepare_rdma E device t plan connections) (keeping (gone hs vs) os ts)
    (fun x p => match x with
       | None => has_rdma_edge plan = Ok false /\ keeping (holds hs vs) os ts p
       | Some (g, (tb, ends)) => rdma_made plan connections g tb ends /\
           keeping (holds (storage_allocations g ++ hs) (end_objects g ends ++ vs)) os ts p end).
Proof.
  eapply spec_bind; [apply lift_spec, kept_lost|]. intros some. apply spec_pure. intros Hsome.
  destruct some; simpl; [|by apply spec_ret].
  eapply spec_bind; [apply lift_spec, kept_lost|]. intros keys. apply spec_pure. intros Hkeys.
  eapply spec_bind.
  { apply at_storage_pure. eapply spec_conseq;
      [apply (setup_storage_spec C (he_verbs E) [device] (he_numa E) (storage_end <$> keys))|done| |].
    - intros s [Hs|[Hs _]]; [by left|right]. exists kFifoBytes. split; [left|exact Hs].
    - intros g s Hs. exact Hs. }
  intros g. apply spec_pure. intros Hg.
  apply (spec_unwind _ _ _ (keeping (holds (storage_allocations g ++ hs) (storage_objects g ++ vs)) os ts)).
  2: { intros p. apply in_storage_keeping. intros s Hs. left. by eapply storage_discharges. }
  eapply spec_bind; [apply connect_rdma_spec|]. intros [tb ends]. apply spec_pure. intros [Htb Hc].
  simpl in Htb, Hc. subst tb. apply spec_ret. intros p Hp. split; [split; [done|by exists keys]|].
  revert Hp. apply kept. intros s. unfold end_objects. by rewrite <- app_assoc.
Qed.

(** The part as the constructor leaves it. *)
Definition rdma_part_made (plan : RingTransportPlan) (connections : list SocketHello) (y : option rdma_part) : Prop :=
  match y with
  | Some y => rdma_enabled = true /\ distributed t = true /\
      rdma_made plan connections (rp_storage y) (rp_tables y) (rp_ends y) /\
      threads_made (rp_storage y) (rp_ends y).*1 (rp_threads y)
  | None => rdma_enabled = true -> distributed t = true -> has_rdma_edge plan = Ok false
  end.
Definition rdma_allocations (y : option rdma_part) : list allocation :=
  match y with Some y => storage_allocations (rp_storage y) | None => [] end.
Definition rdma_objects (y : option rdma_part) : list verbs_object :=
  match y with Some y => end_objects (rp_storage y) (rp_ends y) | None => [] end.
Definition rdma_threads (y : option rdma_part) : list thread :=
  match y with Some y => part_threads (rp_threads y) | None => [] end.
Definition rdma_residual (connections : list SocketHello) (y : option rdma_part) : list SocketHello :=
  match y with Some _ => [] | None => connections end.

Lemma setup_rdma_spec plan connections hs vs os ts :
  spec (keeping (holds hs vs) (connections ++ os) ts) (setup_rdma E rdma_enabled device t plan connections)
    (keeping (gone hs vs) os ts)
    (fun y p => rdma_part_made plan connections y /\
       keeping (holds (rdma_allocations y ++ hs) (rdma_objects y ++ vs)) (rdma_residual connections y ++ os)
         (rdma_threads y ++ ts) p).
Proof.
  unfold setup_rdma. destruct (negb rdma_enabled || negb (distributed t)) eqn:Hno.
  { apply spec_ret. intros p Hp. split; [|done]. intros -> Hd. by rewrite Hd in Hno. }
  apply orb_false_iff in Hno as [Hen%negb_false_iff Hd%negb_false_iff].
  eapply spec_bind.
  { apply (spec_unwind _ _ _ (keeping (gone hs vs) (connections ++ os) ts)); [apply prepare_rdma_spec|].
    intros p. apply close_all_keeping. }
  intros [[g [tb ends]]|]; [|apply spec_ret; intros p [Hn Hp]; split; [by intros _ _|exact Hp]].
  apply spec_pure. intros Hm.
  apply (spec_unwind _ _ _ (keeping (holds (storage_allocations g ++ hs) (end_objects g ends ++ vs)) os ts)).
  2: { intros p. apply in_storage_keeping. intros s Hs. left. by eapply made_discharges. }
  eapply spec_bind; [apply start_rdma_spec|].
  intros threads. apply spec_pure. intros Ht. apply spec_ret. intros p Hp. by split.
Qed.

(** ** The whole constructor *)

Record constructed_made (fds : SocketFdOwner) (c : constructed) : Prop := {
  cd_device : exists n, he_device_count E = inl n /\ 0 <= device < n;
  cd_topology : valid_topology t /\ Topology.devices t = [device];
  cd_steps : has_memory (cn_steps c) /\ has_memory (cn_base_steps c);
  cd_sockets : part_made (Plan (edge_kinds t)) fds (cn_sockets c);
  cd_rdma : rdma_part_made (Plan (edge_kinds t)) (ss_residual (so_setup (cn_sockets c))) (cn_rdma c);
  cd_impl : cn_impl c = initial_impl rdma_enabled device t view (Plan (edge_kinds t))
    (cn_steps c) (cn_base_steps c) (cn_sockets c) (cn_rdma c);
  cd_fds : cn_fds c = rdma_residual (ss_residual (so_setup (cn_sockets c))) (cn_rdma c) }.

Lemma check_arguments_spec (P : process -> Prop) enabled :
  spec P (check_arguments E device t enabled) P
    (fun plan p => ((exists n, he_device_count E = inl n /\ 0 <= device < n) /\
       (valid_topology t /\ Topology.devices t = [device]) /\ plan = Plan (edge_kinds t)) /\ P p).
Proof.
  eapply (spec_bind _ _ (fun _ p => (exists n, he_device_count E = inl n /\ 0 <= device < n) /\ P p)).
  { unfold require_local_device. destruct (he_device_count E) as [n|text]; [|by apply spec_throw].
    destruct (Z.ltb_spec device 0), (Z.leb_spec n device); simpl; try by apply spec_throw.
    eapply spec_conseq; [apply (check_cuda_spec P)|done|done|]. intros u p Hp. split; [by exists n|done]. }
  intros u1. apply spec_pure. intros Hn.
  eapply spec_bind; [by apply lift_spec|]. intros u2. apply spec_pure. intros Hd%check_ok%bool_decide_eq_true.
  eapply spec_bind; [by apply lift_spec|]. intros u3. apply spec_pure. intros Hv.
  apply validate_process_topology_ok in Hv.
  eapply spec_bind; [by apply lift_spec|]. intros plan. apply spec_pure. intros [-> _]%make_plan_ok.
  eapply spec_bind; [by apply lift_spec|]. intros u4. apply spec_pure. intros _.
  by apply spec_ret.
Qed.

Lemma new_buffer_spec count node hs vs : count ∈ [kFifoBytes; kTurnaroundBytes] ->
  spec (holds hs vs) (on_memory (MappedBuffer_new C 1 count node [device])) (gone hs vs)
    (fun b s => has_memory b /\ holds (owned b ++ hs) vs s).
Proof.
  intros Hc. eapply spec_conseq; [apply construct_holds|done| |].
  - intros s [Hs|Hs]; [by left|right; by exists count].
  - intros b s (a & [Ha _] & Hs). split; [by exists a|]. unfold owned. by rewrite Ha.
Qed.

Lemma clear_holds b hs vs s : holds hs vs s -> holds hs vs (in_memory (fun m => (clear_host (m, b)).1) s).
Proof. intros [Hm Hv]. split; [|done]. unfold in_memory, clear_host. simpl. by destruct (host_ptr b). Qed.

Lemma turnaround_spec hs vs os ts :
  spec (keeping (holds hs vs) os ts) (maybe_enable_ring_turnaround E timeline_enabled timeline_env device)
    (keeping (gone hs vs) os ts) (fun b => keeping (holds (owned_optional b ++ hs) vs) os ts).
Proof.
  unfold maybe_enable_ring_turnaround. destruct (negb _); [by apply spec_ret|].
  eapply spec_bind; [apply at_storage_pure, new_buffer_spec; right; left|]. intros b. apply spec_pure. intros _.
  eapply spec_bind.
  { apply (spec_modify _ _ (fun _ => keeping (holds (owned b ++ hs) vs) os ts)). intros p.
    apply in_storage_keeping. intros s. apply clear_holds. }
  intros u. by apply spec_ret.
Qed.

Definition step_allocations (steps base_steps : buffer) (turnaround : option buffer) : list allocation :=
  owned_optional turnaround ++ owned base_steps ++ owned steps.

Lemma destroy_steps_discharges steps base_steps turnaround :
  discharges (step_allocations steps base_steps turnaround) []
    (in_memory (fun m => destroy steps (destroy base_steps (destroy_optional turnaround m)))).
Proof.
  exact (discharges_comp _ _ _ _ _ _ (destroy_optional_discharges turnaround)
    (discharges_comp _ _ _ _ _ _ (destroy_discharges base_steps) (destroy_discharges steps))).
Qed.

Lemma allocate_steps_spec hs vs os ts :
  spec (keeping (holds hs vs) os ts) (allocate_steps E timeline_enabled timeline_env device) (keeping (gone hs vs) os ts)
    (fun x p => (has_memory x.1.1 /\ has_memory x.1.2) /\
       keeping (holds (step_allocations x.1.1 x.1.2 x.2 ++ hs) vs) os ts p).
Proof.
  apply with_array_spec. intros steps Hs. apply with_array_spec. intros base Hb.
  eapply spec_bind; [apply turnaround_spec|]. intros turnaround. apply spec_ret. intros p Hp. split; [done|].
  revert Hp. apply kept. intros s. unfold step_allocations. apply holds_proper; [simpl; by rewrite !app_assoc|done|done].
Qed.

Definition all_allocations (c : constructed) : list allocation :=
  rdma_allocations (cn_rdma c) ++ part_allocations (cn_sockets c) ++
  step_allocations (cn_steps c) (cn_base_steps c) (cn_turnaround c).
Definition all_connections (c : constructed) : list SocketHello := part_connections (cn_sockets c) ++ cn_fds c.
Definition all_threads (c : constructed) : list thread :=
  (SocketThread <$> socket_threads (so_setup (cn_sockets c))) ++ rdma_threads (cn_rdma c).

(** The process holds what [c] owns, besides its own. *)
Definition owns (c : constructed) (hs : list allocation) (vs : list verbs_object) (os : list SocketHello)
    (ts : list thread) : process -> Prop :=
  keeping (holds (all_allocations c ++ hs) (rdma_objects (cn_rdma c) ++ vs)) (all_connections c ++ os) (all_threads c ++ ts).

Lemma begin_spec enabled hs vs os ts :
  spec (keeping (holds hs vs) os ts)
    (plan ← check_arguments E device t enabled;
     s ← allocate_steps E timeline_enabled timeline_env device; mret (plan, s))
    (keeping (gone hs vs) os ts)
    (fun y p => (((exists n, he_device_count E = inl n /\ 0 <= device < n) /\
         (valid_topology t /\ Topology.devices t = [device]) /\ y.1 = Plan (edge_kinds t)) /\
         has_memory y.2.1.1 /\ has_memory y.2.1.2) /\
       keeping (holds (step_allocations y.2.1.1 y.2.1.2 y.2.2 ++ hs) vs) os ts p).
Proof.
  eapply spec_bind.
  { eapply spec_conseq; [apply (check_arguments_spec (keeping (holds hs vs) os ts))|done|apply kept_lost|].
    intros plan p Hp. exact Hp. }
  intros plan. apply spec_pure. intros Hplan.
  eapply spec_bind; [apply allocate_steps_spec|]. intros x. apply spec_ret. by intros p [Hm Hp].
Qed.

Lemma end_sockets x hs vs os ts p :
  keeping (gone (part_allocations x ++ hs) vs) (part_connections x ++ os) ((SocketThread <$> socket_threads (so_setup x)) ++ ts) p ->
  keeping (gone hs vs) os ts (destroy_socket_part x p).
Proof.
  intros (Hs & Ho & Ht).
  destruct Hs as [Hs|(bytes & Hb & a & Ha & Hs)];
    (eapply kept; [|apply (destroy_part_keeping x)]); [|split_and!; [exact Hs|done|done]| |split_and!; [|done|done]].
  - intros s Hs'. by left.
  - intros s Hs'. right. exists bytes. split; [done|]. exists a. split; [done|exact Hs'].
  - revert Hs. apply holds_proper; [by rewrite Permutation_middle|done|done].
Qed.

Lemma rest_spec plan steps base turnaround connections hs vs os ts :
  spec (keeping (holds hs vs) (connections ++ os) ts)
    (x ← setup_sockets E rdma_enabled device t plan connections;
     p_unwind (destroy_socket_part x) (
       y ← setup_rdma E rdma_enabled device t plan (ss_residual (so_setup x));
       mret (Constructed (initial_impl rdma_enabled device t view plan steps base x y)
         (rdma_residual (ss_residual (so_setup x)) y) steps base turnaround x y)))
    (keeping (gone hs vs) os ts)
    (fun c p => (part_made plan connections (cn_sockets c) /\
         rdma_part_made plan (ss_residual (so_setup (cn_sockets c))) (cn_rdma c) /\
         c = Constructed (initial_impl rdma_enabled device t view plan steps base (cn_sockets c) (cn_rdma c))
           (rdma_residual (ss_residual (so_setup (cn_sockets c))) (cn_rdma c)) steps base turnaround
           (cn_sockets c) (cn_rdma c)) /\
       keeping (holds (rdma_allocations (cn_rdma c) ++ part_allocations (cn_sockets c) ++ hs)
         (rdma_objects (cn_rdma c) ++ vs)) (all_connections c ++ os) (all_threads c ++ ts) p).
Proof.
  eapply spec_bind; [apply setup_sockets_spec|]. intros x. apply spec_pure. intros Hx.
  apply (spec_unwind _ _ _ (keeping (gone (part_allocations x ++ hs) vs) (part_connections x ++ os)
    ((SocketThread <$> socket_threads (so_setup x)) ++ ts))); [|intros p; apply end_sockets].
  eapply spec_bind.
  { eapply spec_conseq; [apply (setup_rdma_spec plan (ss_residual (so_setup x)) (part_allocations x ++ hs) vs
      (part_connections x ++ os))| |done|intros y p Hp; exact Hp].
    intros p. apply keeping_impl; [done|solve_Permutation|done]. }
  intros y. apply spec_pure. intros Hy. apply spec_ret. intros p Hp. split; [done|].
  revert Hp. apply keeping_impl; [done|unfold all_connections; simpl; solve_Permutation|].
  unfold all_threads. simpl. solve_Permutation.
Qed.

Lemma constructor_spec enabled fds hs vs os ts :
  spec (keeping (holds hs vs) (fds ++ os) ts)
    (construct E rdma_enabled timeline_enabled timeline_env device t view enabled fds)
    (keeping (gone hs vs) os ts)
    (fun c p => constructed_made fds c /\ owns c hs vs os ts p).
Proof.
  unfold construct. simpl. eapply spec_bind.
  { apply (spec_unwind _ _ _ (keeping (gone hs vs) (fds ++ os) ts)); [apply begin_spec|intros p; apply close_all_keeping]. }
  intros [plan [[steps base] turnaround]]. apply spec_pure. intros ((Hn & Ht & Hplan) & Hmem). simpl in *. subst plan.
  apply (spec_unwind _ _ _ (keeping (gone (step_allocations steps base turnaround ++ hs) vs) os ts)).
  2: { intros p. apply in_storage_keeping. intros s.
       apply (discharges_lost C _ [] _ hs vs s (destroy_steps_discharges steps base turnaround)). }
  eapply spec_conseq; [apply rest_spec|done|done|]. intros c p [(Hx & Hy & Hc) Hp].
  assert (cn_steps c = steps /\ cn_base_steps c = base /\ cn_turnaround c = turnaround) as (<- & <- & <-) by by rewrite Hc.
  split; [split; try done; by rewrite Hc|].
  revert Hp. apply keeping_impl; [|done|done]. intros s. unfold all_allocations.
  apply holds_proper; [by rewrite !app_assoc|done|done].
Qed.

Lemma destroy_rdma_keeping plan connections y hs vs os ts p : rdma_part_made plan connections y ->
  keeping (holds (rdma_allocations y ++ hs) (rdma_objects y ++ vs)) os (rdma_threads y ++ ts) p ->
  keeping (holds hs vs) os ts (destroy_rdma_part y p).
Proof.
  destruct y as [y|]; [|done]. intros (_ & _ & Hy & _) Hp%join_all_keeping. revert Hp.
  apply in_storage_keeping. intros s. by apply (made_discharges plan connections _ _ _ Hy).
Qed.

Lemma destroy_members_keeping c fds hs vs os ts p : constructed_made fds c -> owns c hs vs os ts p ->
  keeping (holds hs vs) os ts (destroy_members c p).
Proof.
  intros Hc Hp. unfold destroy_members. apply close_all_keeping, destroy_part_keeping.
  eapply destroy_rdma_keeping; [apply Hc|].
  assert (keeping (holds (step_allocations (cn_steps c) (cn_base_steps c) (cn_turnaround c) ++
      rdma_allocations (cn_rdma c) ++ part_allocations (cn_sockets c) ++ hs) (rdma_objects (cn_rdma c) ++ vs))
    (all_connections c ++ os) (rdma_threads (cn_rdma c) ++ (SocketThread <$> socket_threads (so_setup (cn_sockets c))) ++ ts) p) as Hp'.
  { revert Hp. apply keeping_impl; [|done|unfold all_threads; solve_Permutation]. intros s. unfold all_allocations.
    apply holds_proper; [solve_Permutation|done|done]. }
  revert Hp'. unfold all_connections. rewrite <- app_assoc.
  apply in_storage_keeping. intros s. apply (destroy_steps_discharges _ _ _ _ (rdma_objects (cn_rdma c) ++ vs)).
Qed.

(** C25: The constructor of a communicator is all or nothing.  When it returns,
    the process owns exactly the memory, verbs objects, connections and running
    threads of its members, which are the ones the topology asks for; destroying
    the members gives everything back, joins the threads and closes the
    connections.  When it throws, whichever call failed, at whatever edge,
    channel or connection, every thread has been joined, every connection it was
    given is closed, and nothing is held beyond what was held before, except at
    most one block, lost by the constructor of a mapped buffer. *)
Theorem constructor_owned enabled fds hs vs os ts p :
  keeping (holds hs vs) (fds ++ os) ts p ->
  match construct E rdma_enabled timeline_enabled timeline_env device t view enabled fds p with
  | (p', Ok c) => constructed_made fds c /\ owns c hs vs os ts p' /\
      keeping (holds hs vs) os ts (destroy_members c p')
  | (p', Throw _) => keeping (lost C hs vs) os ts p'
  end.
Proof.
  intros Hp. pose proof (constructor_spec enabled fds hs vs os ts p Hp) as H'.
  destruct (construct _ _ _ _ _ _ _ _ _ p) as [p' [c|e]]; [|exact H']. destruct H' as [Hm Ho].
  split_and!; [done|done|by eapply destroy_members_keeping].
Qed.
End Facts.

(** ** The communicator of a ring over MPI *)

(** The tables that were filled end by end are those of the loops. *)
Section Tables.
Context `{BuildConfig} {A : Type} (dummy : A) (t : ProcessTopology) (plan : RingTransportPlan) (kind : TransportKind).

Definition value_of (keys : list end_key) (rs : list A) (sending : bool) (channel edge : Z) : A :=
  default dummy ((list_to_map (zip (end_id <$> keys) rs) : gmap (bool * Z * Z) A) !! (sending, channel, edge)).
Definition make_of (keys : list end_key) (rs : list A) (sending : bool) (device channel edge : Z) : res A :=
  Ok (value_of keys rs sending channel edge).

Lemma value_at keys rs k a : NoDup (end_id <$> keys) -> length rs = length keys -> (k, a) ∈ zip keys rs ->
  value_of keys rs (ek_sending k) (ek_channel k) (ek_edge k) = a.
Proof.
  intros Hn Hlen Hin. unfold value_of. change (ek_sending k, ek_channel k, ek_edge k) with (end_id k).
  rewrite (elem_of_list_to_map_1 _ _ a); [done| |].
  - rewrite fst_zip by (rewrite length_fmap; lia). done.
  - revert rs Hlen Hin. clear Hn. induction keys as [|k' keys IH]; intros [|a' rs] Hlen Hin; try by apply elem_of_nil in Hin.
    simpl in *. apply elem_of_cons in Hin as [[= -> ->]|Hin]; [left|right]. apply IH; [lia|done].
Qed.

Lemma allocate_keys (make : bool -> Z -> Z -> Z -> res A) keys rs : length rs = length keys ->
  (forall k a, (k, a) ∈ zip keys rs -> make (ek_sending k) (ek_device k) (ek_channel k) (ek_edge k) = Ok a) ->
  forall tb, foldM (allocate_key make) keys tb = Ok (foldl (fun tb x => store_end x.1 x.2 tb) tb (zip keys rs)).
Proof.
  revert rs. induction keys as [|k keys IH]; intros [|a rs] Hlen Hmake tb; try done. simpl.
  assert (allocate_key make k tb = Ok (store_end k a tb)) as -> by (unfold allocate_key; by rewrite (Hmake k a) by left).
  simpl. apply IH; [simpl in Hlen; lia|].
  intros k' a' Hin. apply Hmake. by right.
Qed.

Lemma tables_allocated keys rs : ends_of t plan kind = Ok keys -> length rs = length keys ->
  allocate_edges (make_of keys rs) t plan kind = Ok (tables_of keys rs).
Proof.
  intros Hkeys Hlen. rewrite (allocate_edges_keys _ _ _ _ keys) by done. apply allocate_keys; [done|].
  intros k a Hin. unfold make_of. f_equal. apply value_at; [by eapply ends_of_ids|done|done].
Qed.
End Tables.

(** What a table holds was made for an end. *)
Lemma tables_from {A} (l : list (end_key * A)) tb channel edge a :
  let tb' := foldl (fun tb x => store_end x.1 x.2 tb) tb l in
  tb_send tb' channel edge = Some a \/ tb_recv tb' channel edge = Some a ->
  a ∈ l.*2 \/ tb_send tb channel edge = Some a \/ tb_recv tb channel edge = Some a.
Proof.
  revert tb. induction l as [|[k b] l IH]; intros tb; cbv zeta; intros Ha; [by right|]. simpl in *.
  apply IH in Ha as [Hin|Hin]; [left; by right|]. unfold store_end in Hin.
  destruct (ek_sending k); simpl in Hin; destruct Hin as [Hin|Hin]; try (right; by auto); rewrite set2_spec in Hin;
    destruct (_ && _); try (right; by auto); injection Hin as ->; left; left.
Qed.

Lemma tables_of_from {A} keys (rs : list A) channel edge a :
  tb_send (tables_of keys rs) channel edge = Some a \/ tb_recv (tables_of keys rs) channel edge = Some a -> a ∈ rs.
Proof.
  intros [Hin|[Hin|Hin]]%tables_from; [|done..]. apply list_elem_of_fmap in Hin as ([k b] & -> & Hin).
  by apply elem_of_zip_r in Hin.
Qed.

Lemma place_resources `{BuildConfig} rdma_enabled t plan l : forall s s',
  foldM (place_connection rdma_enabled t plan) l s = Ok s' -> ss_resources s' = ss_resources s.
Proof.
  induction l as [|h l IH]; intros s s'; simpl; [congruence|]. intros (s1 & Hs1 & Hs')%bind_ok.
  rewrite (IH _ _ Hs'). revert Hs1. unfold place_connection. destruct (negb _); [done|].
  intros (kind & _ & Hk)%bind_ok. destruct (bool_decide _); [by injection Hk as <-|].
  destruct (is_local_global_rank _ _);
    apply bind_ok in Hk as (local & _ & (d & _ & (r & _ & ([] & _ & [= <-])%bind_ok)%bind_ok)%bind_ok); done.
Qed.

Section Proxies.
Context `{BuildConfig}.

(** A proxy as [finish_one] makes it. *)
Definition pending_proxy (p : pending_rdma) : net_proxy := make_proxy (rr_net (pe_resources p)) (pe_hello p).

Lemma finish_one_proxy se modify flush p remote x : finish_one se modify flush p remote = Ok x -> rx_proxy x = pending_proxy p.
Proof.
  unfold finish_one. intros (u & _ & (qp & _ & Hx)%bind_ok)%bind_ok. destruct (pe_is_send p).
  - apply bind_ok in Hx as (v & _ & (w & _ & Hx)%bind_ok). by injection Hx as <-.
  - unfold finish_recv in Hx. destruct (if se_gdr se then flush else None); [done|].
    apply bind_ok in Hx as (v & _ & (w & _ & Hx)%bind_ok). by injection Hx as <-.
Qed.

Lemma finished_proxies `{GpuSystem} E g items ends : Forall2 (finished E g) items ends ->
  rx_proxy <$> ends.*1 = pending_proxy <$> items.*1.
Proof.
  induction 1 as [|x y items ends [Hy _] _ IH]; [done|].
  simpl. f_equal; [by eapply finish_one_proxy|exact IH].
Qed.
End Proxies.

Section Ring.
Context `{BuildConfig} `{GpuSystem} (E : host).
Context (rdma_enabled timeline_enabled : bool) (timeline_env : option string).
Context (q device : Z) (kinds : list TransportKind) (view : Z -> ends) (fds : SocketFdOwner).
Context (Hring : 2 <= kRanks) (Hfifo : 8 <= kFifoBytes < 2 ^ 62).
Context (Hrdma : rdma_enabled = false -> forall e, kind_of kinds e <> Rdma).
Context (Hfds : fds ≡ₚ select (own_edges q device kinds)).

Abbreviation t := (ring_topology q device kinds).
Abbreviation plan := (Plan kinds).
Abbreviation made := (constructed_made E rdma_enabled device t view fds).

Definition no_rdma : rdma_resources := RdmaResources no_net 0 0 None 0.
Definition net_made (keys : list end_key) (x : socket_part) : bool -> Z -> Z -> net_resources :=
  value_of no_net keys (net_of_socket <$> so_channels x).
Definition rdma_value (keys : list end_key) (g : rdma_storage) : bool -> Z -> Z -> rdma_resources :=
  value_of no_rdma keys ((fun r => resources_of (net_of_rdma r) r) <$> sg_channels g).

(** The ends of a kind that process [q] has. *)
Definition end_ids (kind : TransportKind) (e : Z) : list SocketProxyIdentity :=
  if bool_decide (kind_of kinds e = kind) then (fun c => Identity e (receiver e) c) <$> zrange kChannels else [].

Lemma setup_of_part x : part_made rdma_enabled t plan fds x -> exists keys,
  ends_of t plan Socket = Ok keys /\
  setup_socket_transport rdma_enabled (make_of no_net keys (net_of_socket <$> so_channels x)) t plan fds = Ok (so_setup x).
Proof.
  intros [Hd _ _]. destruct (Hd eq_refl) as (abort & keys & tb & _ & _ & Hkeys & _ & Hlen & -> & Hf).
  exists keys. split; [done|]. unfold setup_socket_transport. simpl.
  rewrite tables_allocated by (done || by rewrite length_fmap). exact Hf.
Qed.

Lemma sockets_of_part x : vec_size kinds = kRanks -> 0 <= q < kRanks -> part_made rdma_enabled t plan fds x ->
  exists net, allocated q kinds Socket net (ss_resources (so_setup x)) /\
    ss_send (so_setup x) ≡ₚ socket_proxies kinds net true q /\
    ss_recv (so_setup x) ≡ₚ socket_proxies kinds net false (sender_to q).
Proof.
  intros Hk Hq (keys & _ & Hs)%setup_of_part.
  set (net := value_of no_net keys (net_of_socket <$> so_channels x)). exists net.
  destruct (setup_network_ok q device kinds rdma_enabled net (make_of no_net keys (net_of_socket <$> so_channels x))
    Hk Hq Hring Hfifo (fun s c e => eq_refl) Hrdma fds Hfds (Settings 0 0 0 [] false false)
    (fun _ _ _ => no_rdma) (fun _ _ _ _ => Ok no_rdma) (fun s c e => eq_refl)) as (s' & tb & pending & Hn & Hal & H1 & H2 & _).
  unfold setup_network in Hn. rewrite Hs in Hn. cbn [mbind res_bind] in Hn.
  assert (s' = so_setup x) as ->; [|done]. revert Hn. clear.
  destruct (negb rdma_enabled || _); [congruence|]. intros (some & _ & Hn)%bind_ok.
  destruct (negb some); [congruence|]. apply bind_ok in Hn as (tb' & _ & (pending' & _ & Hn)%bind_ok). congruence.
Qed.

Lemma pending_of_part x y : vec_size kinds = kRanks -> 0 <= q < kRanks -> part_made rdma_enabled t plan fds x ->
  rdma_part_made E rdma_enabled device t plan (ss_residual (so_setup x)) (Some y) ->
  exists rdma, allocated q kinds Rdma rdma (rp_tables y) /\
    rx_proxy <$> (rp_ends y).*1 ≡ₚ pending_proxy <$>
      (pending_of q (settings_of (rp_storage y)) rdma <$> (rdma_edge kinds q ++ rdma_edge kinds (sender_to q))).
Proof.
  intros Hk Hq (keys & _ & Hs)%setup_of_part (Hen & _ & [Hedge (rkeys & Hrk & Hg & Htb & pending & remotes & Hp & Hr & Hf)] & _).
  set (g := rp_storage y) in *. set (rs := (fun r => resources_of (net_of_rdma r) r) <$> sg_channels g).
  assert (length rs = length rkeys) as Hlen.
  { unfold rs. rewrite length_fmap. destruct Hg as [_ _ _ _ Hc%Forall2_length]. rewrite <- Hc. apply length_fmap. }
  pose proof (tables_allocated no_rdma t plan Rdma rkeys rs Hrk Hlen) as Hta.
  set (rdma := value_of no_rdma rkeys rs). exists rdma.
  destruct (allocate_edges_ok q device kinds Rdma rdma (make_of no_rdma rkeys rs) Hk Hq (fun s c e => eq_refl))
    as (tb & Htb' & Hal).
  assert (tb = rp_tables y) as -> by (rewrite Hta in Htb'; injection Htb' as <-; by rewrite Htb). split; [done|].
  set (net := value_of no_net keys (net_of_socket <$> so_channels x)).
  destruct (setup_network_ok q device kinds rdma_enabled net (make_of no_net keys (net_of_socket <$> so_channels x))
    Hk Hq Hring Hfifo (fun s c e => eq_refl) Hrdma fds Hfds (settings_of g) rdma (make_of no_rdma rkeys rs)
    (fun s c e => eq_refl)) as (s' & tb & pending' & Hn & _ & _ & _ & Hperm).
  unfold setup_network in Hn. rewrite Hs in Hn. cbn [mbind res_bind] in Hn. rewrite Hen in Hn. simpl in Hn.
  rewrite Hedge in Hn. cbn [mbind res_bind negb] in Hn. rewrite Hta in Hn. cbn [mbind res_bind] in Hn.
  unfold rdma_table in Hp. fold rs in Hp. rewrite Hp in Hn. injection Hn as _ _ <-.
  apply finished_proxies in Hf. rewrite fst_zip in Hf by (apply Forall2_length in Hr; lia). rewrite Hf.
  by rewrite Hperm.
Qed.

(** Where the kernels of process [q] find the end of edge [e] they use. *)
Definition kernel_end (ls : launch_storage) (e channel : Z) : res (ptr * ptr * ptr) :=
  (if e =? q then send_end else recv_end) ls (kind_of kinds e) e channel.
Definition on_kernel_words (ls : launch_storage) (x : net_proxy) : Prop :=
  kernel_end ls (id_source (np_id x)) (id_channel (np_id x)) = Ok (np_data x, np_head x, np_tail x).

Definition hello_id (h : SocketHello) : SocketProxyIdentity :=
  Identity (source_global_rank h) (receiver (source_global_rank h)) (hello_channel h).
Lemma end_ids_hellos kind e : end_ids kind e = hello_id <$> (if bool_decide (kind_of kinds e = kind) then hellos e else []).
Proof. unfold end_ids. destruct (bool_decide _); [|done]. unfold hellos. by rewrite <- list_fmap_compose. Qed.

Lemma edge_hellos kind e h : h ∈ (if bool_decide (kind_of kinds e = kind) then hellos e else []) ->
  kind_of kinds e = kind /\ source_global_rank h = e /\ 0 <= hello_channel h < kChannels.
Proof.
  case_bool_decide as Hk; [|by intros ?%elem_of_nil]. intros Hh. by destruct (hellos_edge e h Hh) as (? & ? & _).
Qed.

Section Words.
Context (Hk : vec_size kinds = kRanks) (Hq : 0 <= q < kRanks) (ls : launch_storage).

Lemma send_words kind (val : Z -> Z -> net_resources) h :
  (forall c, 0 <= c < kChannels -> kind_of kinds q = kind ->
     send_end ls kind q c = Ok (net_fifo (val c q), net_control (val c q), word_add (net_control (val c q)) 1)) ->
  h ∈ (if bool_decide (kind_of kinds q = kind) then hellos q else []) ->
  on_kernel_words ls (make_proxy (val (hello_channel h) (source_global_rank h)) h).
Proof.
  intros Hs (Hkind & Hsrc & Hc)%edge_hellos. unfold on_kernel_words, kernel_end. simpl.
  rewrite Hsrc, Z.eqb_refl, Hkind. by apply Hs.
Qed.

Lemma recv_words kind (val : Z -> Z -> net_resources) h :
  (forall c, 0 <= c < kChannels -> kind_of kinds (sender_to q) = kind -> recv_end ls kind (sender_to q) c =
     Ok (net_fifo (val c (sender_to q)), net_control (val c (sender_to q)), word_add (net_control (val c (sender_to q))) 1)) ->
  h ∈ (if bool_decide (kind_of kinds (sender_to q) = kind) then hellos (sender_to q) else []) ->
  on_kernel_words ls (make_proxy (val (hello_channel h) (source_global_rank h)) h).
Proof.
  intros Hs (Hkind & Hsrc & Hc)%edge_hellos. unfold on_kernel_words, kernel_end. simpl.
  pose proof (sender_ne q Hq Hring) as Hne.
  rewrite Hsrc, (proj2 (Z.eqb_neq _ _)), Hkind by done. by apply Hs.
Qed.
End Words.

Definition network_proxies (c : constructed) : list net_proxy :=
  ss_send (so_setup (cn_sockets c)) ++ ss_recv (so_setup (cn_sockets c)) ++
  match cn_rdma c with Some y => rx_proxy <$> (rp_ends y).*1 | None => [] end.

Section Constructed.
Context (c : constructed) (Hc : made c).

Lemma ring_facts : vec_size kinds = kRanks /\ 0 <= q < kRanks.
Proof.
  destruct Hc as [_ [Ht _] _ _ _ _ _]. destruct Ht as [_ Hl _ Hr He _ _ _]. simpl in *. unfold vec_size in Hr.
  simpl in Hr. lia.
Qed.

(** The tables a launch reads are those of the parts. *)
Lemma impl_sockets d pc : launch_reads (so_setup (cn_sockets c)) (storage_of (cn_impl c) d pc).
Proof. intros ch e. rewrite (cd_impl _ _ _ _ _ _ _ Hc). by split. Qed.

Lemma pointer_stored b : has_memory b -> not_null (pointer b) = true.
Proof. intros [a Ha]. unfold pointer. by rewrite Ha. Qed.

Lemma socket_entry ch e r :
  tb_send (ss_resources (so_setup (cn_sockets c))) ch e = Some r \/
  tb_recv (ss_resources (so_setup (cn_sockets c))) ch e = Some r -> net_stored r = true.
Proof.
  destruct (pm_distributed _ _ _ _ _ (cd_sockets _ _ _ _ _ _ _ Hc) eq_refl)
    as (abort & keys & tb & _ & _ & _ & Hmade & _ & -> & Hf).
  apply place_resources in Hf as ->. simpl. intros Hin%tables_of_from.
  apply list_elem_of_fmap in Hin as (x & -> & Hx). rewrite Forall_forall in Hmade.
  destruct (Hmade x Hx) as (H1 & H2 & _). unfold net_stored. simpl. by rewrite !pointer_stored.
Qed.

Lemma rdma_entry y ch e r : cn_rdma c = Some y ->
  tb_send (rp_tables y) ch e = Some r \/ tb_recv (rp_tables y) ch e = Some r -> net_stored (rr_net r) = true.
Proof.
  intros Hy. pose proof (cd_rdma _ _ _ _ _ _ _ Hc) as Hr. rewrite Hy in Hr.
  destruct Hr as (_ & _ & [_ (keys & _ & Hg & -> & _)] & _). intros Hin%tables_of_from.
  apply list_elem_of_fmap in Hin as (x & -> & Hx).
  apply list_elem_of_lookup in Hx as [i Hx].
  destruct (Forall2_lookup_r _ _ _ i x (sm_channels _ _ _ _ Hg) Hx) as (k & _ & Hm).
  unfold net_stored. simpl. apply pointer_stored, Hm.
Qed.

(** The view has the storage of the edges over shared memory and CUDA IPC. *)
Definition view_stored : Prop := forall channel, 0 <= channel < kChannels -> let v := view channel in
  (is_memory (kind_of kinds q) = true ->
     not_null (send_fifo v) = true /\ not_null (send_head v) = true /\ not_null (send_tail v) = true) /\
  (is_memory (kind_of kinds (sender_to q)) = true ->
     not_null (recv_fifo v) = true /\ not_null (recv_head v) = true /\ not_null (recv_tail v) = true).

Lemma rdma_on e : 0 <= e < kRanks -> kind_of kinds e = Rdma -> rdma_enabled = true /\ exists y, cn_rdma c = Some y.
Proof.
  intros He Hk. destruct ring_facts as [Hkinds Hq].
  assert (rdma_enabled = true) as Hen by (destruct rdma_enabled; [done|by destruct (Hrdma eq_refl e)]).
  split; [done|]. pose proof (cd_rdma _ _ _ _ _ _ _ Hc) as Hr. destruct (cn_rdma c) as [y|]; [by exists y|].
  specialize (Hr Hen eq_refl). change (edge_kinds t) with kinds in Hr.
  rewrite (has_rdma_edge_ok kinds Hkinds) in Hr. injection Hr as Hr. exfalso. revert Hr.
  apply not_false_iff_true, existsb_exists. exists e. split; [|by apply bool_decide_eq_true].
  apply list_elem_of_In, elem_of_zrange, He.
Qed.

Lemma edge_resolved e : 0 <= e < kRanks -> is_resolved_edge_kind (kind_of kinds e) = true.
Proof.
  intros He. destruct ring_facts as [Hkinds _].
  destruct (cd_topology _ _ _ _ _ _ _ Hc) as [[_ _ _ _ _ Hall _ _] _]. simpl in Hall.
  unfold kind_of. destruct (lookup_lt_is_Some_2 kinds (Z.to_nat e)) as [k Hk]; [unfold vec_size in Hkinds; lia|].
  rewrite Hk. rewrite Forall_forall in Hall. apply Hall. by eapply list_elem_of_lookup_2.
Qed.

(** The constructor leaves the storage of every edge of the rank. *)
Lemma constructed_wired : view_stored -> wired (i_res (cn_impl c)) q.
Proof.
  intros Hview. destruct ring_facts as [Hk Hq]. pose proof (sender_range q Hring) as Hsr.
  pose proof (receiver_of_sender Hring q Hq) as Hrs. unfold receiver in Hrs.
  destruct (sockets_of_part _ Hk Hq (cd_sockets _ _ _ _ _ _ _ Hc)) as (net & Hal & _).
  pose proof (cd_rdma _ _ _ _ _ _ _ Hc) as Hr0.
  assert (forall ch e y, 0 <= ch < kChannels -> 0 <= e < kRanks -> kind_of kinds e = Rdma -> cn_rdma c = Some y ->
    (e = q -> exists r, tb_send (rp_tables y) ch e = Some r) /\
    (e = sender_to q -> exists r, tb_recv (rp_tables y) ch e = Some r)) as Hrd.
  { intros ch e y Hch He Hkind Hy. rewrite Hy in Hr0.
    destruct (pending_of_part _ y Hk Hq (cd_sockets _ _ _ _ _ _ _ Hc) Hr0) as (rdma & Hal' & _).
    destruct (Hal' ch e Hch He) as [-> ->]. rewrite bool_decide_eq_true_2 by done. simpl.
    split; intros ->; [rewrite Z.eqb_refl|rewrite Hrs, Z.eqb_refl]; by eexists. }
  rewrite (cd_impl _ _ _ _ _ _ _ Hc). split; simpl; [done|by apply pointer_stored, Hc|..]; intros ch Hch;
    unfold send_stored, recv_stored; cbn [r_plan r_view r_socket_send r_socket_recv r_rdma_send r_rdma_recv r_rdma_enabled].
  - rewrite ring_edge_kind by done. pose proof (edge_resolved q Hq) as Hres. destruct (Hview ch Hch) as [Hv _].
    destruct (kind_of kinds q) eqn:Hkind; try done.
    1, 2: destruct (Hv eq_refl) as (-> & -> & ->); done.
    + destruct (Hal ch q Hch Hq) as [Hs _]. rewrite Hkind, Z.eqb_refl, bool_decide_eq_true_2 in Hs by done.
      unfold found. rewrite Hs. apply (socket_entry ch q). by left.
    + destruct (rdma_on q Hq Hkind) as [Hen [y Hy]]. rewrite Hen, Hy. simpl.
      destruct (Hrd ch q y Hch Hq Hkind Hy) as [Hs _]. destruct (Hs eq_refl) as [r Hr]. rewrite Hr.
      eapply (rdma_entry y ch q); [done|by left].
  - change ((q + kRanks - 1) mod kRanks) with (sender_to q).
    rewrite ring_edge_kind by done. pose proof (edge_resolved _ Hsr) as Hres. destruct (Hview ch Hch) as [_ Hv].
    destruct (kind_of kinds (sender_to q)) eqn:Hkind; try done.
    1, 2: destruct (Hv eq_refl) as (-> & -> & ->); done.
    + destruct (Hal ch _ Hch Hsr) as [_ Hs]. rewrite Hkind, Hrs, Z.eqb_refl, bool_decide_eq_true_2 in Hs by done.
      unfold found. rewrite Hs. apply (socket_entry ch (sender_to q)). by right.
    + destruct (rdma_on _ Hsr Hkind) as [Hen [y Hy]]. rewrite Hen, Hy. simpl.
      destruct (Hrd ch _ y Hch Hsr Hkind Hy) as [_ Hs]. destruct (Hs eq_refl) as [r Hr]. rewrite Hr.
      eapply (rdma_entry y ch (sender_to q)); [done|by right].
Qed.

Lemma socket_proxies_served d pc x : x ∈ ss_send (so_setup (cn_sockets c)) ++ ss_recv (so_setup (cn_sockets c)) ->
  on_kernel_words (storage_of (cn_impl c) d pc) x.
Proof.
  destruct ring_facts as [Hk Hq].
  destruct (sockets_of_part _ Hk Hq (cd_sockets _ _ _ _ _ _ _ Hc)) as (net & Hal & H1 & H2).
  pose proof (impl_sockets d pc) as Hls. set (ls := storage_of (cn_impl c) d pc) in *. clearbody ls.
  pose proof (sender_range q Hring) as Hsr.
  pose proof (receiver_of_sender Hring q Hq) as Hrs.
  rewrite elem_of_app, H1, H2. unfold socket_proxies.
  intros [Hx|Hx]; case_bool_decide as Hkind; try by apply elem_of_nil in Hx.
  - apply list_elem_of_fmap in Hx as (h & -> & Hh). apply (send_words _ Socket (net true)).
    + intros ch Hch _. unfold send_end. simpl. destruct (Hls ch q) as [-> _]. destruct (Hal ch q Hch Hq) as [-> _].
      by rewrite Z.eqb_refl, bool_decide_eq_true_2.
    + by rewrite bool_decide_eq_true_2.
  - apply list_elem_of_fmap in Hx as (h & -> & Hh). apply (recv_words Hq _ Socket (net false)).
    + intros ch Hch _. unfold recv_end. simpl. destruct (Hls ch (sender_to q)) as [_ ->].
      destruct (Hal ch (sender_to q) Hch Hsr) as [_ ->]. unfold receiver in Hrs. rewrite Hrs.
      by rewrite Z.eqb_refl, bool_decide_eq_true_2.
    + by rewrite bool_decide_eq_true_2.
Qed.

Lemma rdma_proxies_served d pc y x : cn_rdma c = Some y -> x ∈ rx_proxy <$> (rp_ends y).*1 ->
  on_kernel_words (storage_of (cn_impl c) d pc) x.
Proof.
  destruct ring_facts as [Hk Hq]. pose proof (cd_rdma _ _ _ _ _ _ _ Hc) as Hr. intros Hy. rewrite Hy in Hr.
  destruct (pending_of_part _ y Hk Hq (cd_sockets _ _ _ _ _ _ _ Hc) Hr) as (rdma & Hal & Hp).
  destruct Hr as (Hen & _ & _). pose proof (sender_range q Hring) as Hsr.
  pose proof (receiver_of_sender Hring q Hq) as Hrs. unfold receiver in Hrs.
  pose proof (sender_ne q Hq Hring) as Hne.
  assert (forall ch e, ls_rdma_send (storage_of (cn_impl c) d pc) ch e =
      match tb_send (rp_tables y) ch e with Some r => rr_net r | None => no_net end /\
    ls_rdma_recv (storage_of (cn_impl c) d pc) ch e =
      match tb_recv (rp_tables y) ch e with Some r => rr_net r | None => no_net end /\
    ls_rdma_enabled (storage_of (cn_impl c) d pc) = true) as Hls.
  { intros ch e. rewrite (cd_impl _ _ _ _ _ _ _ Hc), Hy. split_and!; [done|done|exact Hen]. }
  set (ls := storage_of (cn_impl c) d pc) in *. clearbody ls.
  rewrite Hp. intros (p & -> & (h & -> & [Hh|Hh]%elem_of_app)%list_elem_of_fmap)%list_elem_of_fmap;
    unfold pending_proxy, pending_of; cbn [pe_resources pe_hello]; unfold rdma_edge in Hh;
    destruct (edge_hellos _ _ _ Hh) as (Hkind & Hsrc & _).
  - rewrite Hsrc, Z.eqb_refl. rewrite <- Hsrc at 1. apply (send_words _ Rdma (fun ch e => rr_net (rdma true ch e)));
      [|done].
    intros ch Hch _. unfold send_end. simpl. destruct (Hls ch q) as (-> & _ & ->).
    destruct (Hal ch q Hch Hq) as [-> _]. by rewrite Z.eqb_refl, bool_decide_eq_true_2.
  - rewrite (proj2 (Z.eqb_neq (source_global_rank h) q)) by congruence.
    apply (recv_words Hq _ Rdma (fun ch e => rr_net (rdma false ch e))); [|done].
    intros ch Hch _. unfold recv_end. simpl. destruct (Hls ch (sender_to q)) as (_ & -> & ->).
    destruct (Hal ch (sender_to q) Hch Hsr) as [_ ->]. rewrite Hrs. by rewrite Z.eqb_refl, bool_decide_eq_true_2.
Qed.

Lemma rdma_ids : np_id <$> match cn_rdma c with Some y => rx_proxy <$> (rp_ends y).*1 | None => [] end
  ≡ₚ end_ids Rdma q ++ end_ids Rdma (sender_to q).
Proof.
  destruct ring_facts as [Hk Hq]. pose proof (cd_rdma _ _ _ _ _ _ _ Hc) as Hr.
  assert (forall e, end_ids Rdma e = hello_id <$> rdma_edge kinds e) as Hids by apply end_ids_hellos.
  rewrite !Hids, <- fmap_app.
  destruct (cn_rdma c) as [y|].
  - destruct (pending_of_part _ y Hk Hq (cd_sockets _ _ _ _ _ _ _ Hc) Hr) as (rdma & _ & ->).
    rewrite <- !list_fmap_compose. done.
  - rewrite (no_rdma_edge q kinds Hq Hring); [done|].
    destruct rdma_enabled eqn:Hen.
    + specialize (Hr eq_refl eq_refl). change (edge_kinds t) with kinds in Hr. rewrite (has_rdma_edge_ok kinds Hk) in Hr. congruence.
    + apply not_true_iff_false. intros (e & _ & He)%existsb_exists. apply bool_decide_eq_true in He. by eapply Hrdma.
Qed.

Lemma socket_ids : np_id <$> ss_send (so_setup (cn_sockets c)) ≡ₚ end_ids Socket q /\
  np_id <$> ss_recv (so_setup (cn_sockets c)) ≡ₚ end_ids Socket (sender_to q).
Proof.
  destruct ring_facts as [Hk Hq].
  destruct (sockets_of_part _ Hk Hq (cd_sockets _ _ _ _ _ _ _ Hc)) as (net & _ & -> & ->).
  rewrite !end_ids_hellos. unfold socket_proxies. split; case_bool_decide; simpl; try done; by rewrite <- list_fmap_compose.
Qed.
End Constructed.

(** C20: A communicator that has been constructed in a ring over MPI is ready:
    its calls start from the initial state that the theorems on sequences of
    calls assume, with the topology it was given and one rank; for every channel
    of a network edge there is exactly one proxy at each end this process has,
    over sockets or RDMA as the edge says, and no other; and each proxy works on
    the FIFO, head and tail that the kernels of every later launch are given for
    that edge and channel.  When the view it was given has the storage of the
    edges over shared memory and CUDA IPC, no pointer of a kernel is null: the
    edges of the rank are wired on every channel. *)
Theorem constructed_ring enabled p p' c os : pr_open p ≡ₚ fds ++ os ->
  construct E rdma_enabled timeline_enabled timeline_env device t view enabled fds p = (p', Ok c) ->
  fresh (cn_impl c) /\ i_topology (cn_impl c) = t /\ valid_topology t /\ r_plan (i_res (cn_impl c)) = plan /\
  np_id <$> network_proxies c ≡ₚ
    (end_ids Socket q ++ end_ids Socket (sender_to q)) ++ end_ids Rdma q ++ end_ids Rdma (sender_to q) /\
  (forall d pc x, x ∈ network_proxies c -> on_kernel_words (storage_of (cn_impl c) d pc) x) /\
  (view_stored -> wired (i_res (cn_impl c)) q).
Proof.
  intros Ho Hrun.
  pose proof (constructor_spec E rdma_enabled timeline_enabled timeline_env device t view enabled fds _ _ os _ p
    (conj (conj (reflexivity _) (reflexivity _)) (conj Ho (reflexivity _)))) as Hp.
  rewrite Hrun in Hp. destruct Hp as [Hc _]. unfold network_proxies. split_and!; [..|by apply constructed_wired].
  - rewrite (cd_impl _ _ _ _ _ _ _ Hc). by split.
  - by rewrite (cd_impl _ _ _ _ _ _ _ Hc).
  - by apply (cd_topology _ _ _ _ _ _ _ Hc).
  - by rewrite (cd_impl _ _ _ _ _ _ _ Hc).
  - rewrite !fmap_app, app_assoc. destruct (socket_ids c Hc) as [-> ->]. by rewrite (rdma_ids c Hc).
  - intros d pc x. rewrite app_assoc, elem_of_app. intros [Hx|Hx]; [by apply socket_proxies_served|].
    destruct (cn_rdma c) as [y|] eqn:Hy; [by eapply rdma_proxies_served|by apply elem_of_nil in Hx].
Qed.
End Ring.

(** ** Witnesses *)

Module ConstructWitness.
#[local] Existing Instance small_config.
#[local] Existing Instance TopologyWitness.three_gpus.

Definition peer (_ : pending_rdma) : RdmaPeerInfo + string := inl (PeerInfo 20 0 0 3 [0; 1] 4 8192 7 1024 0 0 0 2).
Definition host_with (thread : bool -> SocketHello -> option string) : host := {|
  he_cuda := RdmaSetupWitness.cuda_host; he_verbs := RdmaSetupWitness.host1; he_numa _ := 0;
  he_device_count := inl 1; he_thread := thread; he_send_info _ := None; he_recv_info := peer;
  he_modify _ := None; he_flush _ := None; he_scratch _ := 512; he_ready := None; he_rdma_thread _ := None |}.
Definition good : host := host_with (fun _ _ => None).
Definition before : process := Process DeviceWitness.idle (NetWitness.conns ++ [Hello 9 9 9]) [].
Abbreviation run E := (construct E true false None 0 (ring_topology 1 0 NetWitness.kinds) (fun _ => no_ends) ∅ NetWitness.conns before).
Definition returned (r : res constructed) : bool := match r with Ok _ => true | Throw _ => false end.


(** The thread of the second receive proxy cannot be started. *)
Definition no_thread : host := host_with (fun sending h =>
  if decide (h = Hello 0 1 1) then Some "Resource temporarily unavailable"%string else None).

Lemma outcomes : returned (run good).2 = true /\ returned (run no_thread).2 = false.
Proof. split; vm_compute; reflexivity. Qed.

Lemma before_holds : keeping (holds [Pinned 7] []) (NetWitness.conns ++ [Hello 9 9 9]) [] before.
Proof. split; [apply DeviceWitness.idle_holds|by split]. Qed.

Lemma constructor_owned_witness :
  (exists p c, run good = (p, Ok c) /\ keeping (holds [Pinned 7] []) [Hello 9 9 9] [] (destroy_members c p)) /\
  (exists p e, run no_thread = (p, Throw e) /\ keeping (lost (he_cuda no_thread) [Pinned 7] []) [Hello 9 9 9] [] p).
Proof.
  destruct outcomes as [Hgood Hbad]. split.
  - destruct (run good) as [p [c|e]] eqn:Hrun; [|discriminate Hgood]. exists p, c. split; [reflexivity|].
    pose proof (constructor_owned good true false None 0 (ring_topology 1 0 NetWitness.kinds) (fun _ => no_ends) ∅ NetWitness.conns
      [Pinned 7] [] [Hello 9 9 9] [] before before_holds) as H.
    rewrite Hrun in H. apply H.
  - destruct (run no_thread) as [p [c|e]] eqn:Hrun; [discriminate Hbad|]. exists p, e. split; [reflexivity|].
    pose proof (constructor_owned no_thread true false None 0 (ring_topology 1 0 NetWitness.kinds) (fun _ => no_ends) ∅ NetWitness.conns
      [Pinned 7] [] [Hello 9 9 9] [] before before_holds) as H.
    rewrite Hrun in H. exact H.
Defined.

(** Two receivers over sockets and two senders over RDMA. *)
Lemma constructed_ring_witness : exists p c, run good = (p, Ok c) /\ fresh (cn_impl c) /\
  length (network_proxies c) = 4%nat /\ wired (i_res (cn_impl c)) 1 /\
  forall d pc x, x ∈ network_proxies c -> on_kernel_words 1 NetWitness.kinds (storage_of (cn_impl c) d pc) x.
Proof.
  destruct outcomes as [Hgood _]. destruct (run good) as [p [c|e]] eqn:Hrun; [|discriminate Hgood].
  assert (2 <= kRanks) as H2 by (vm_compute; discriminate).
  assert (8 <= kFifoBytes < 2 ^ 62) as H8 by (vm_compute; split; [discriminate|reflexivity]).
  assert (true = false -> forall e, kind_of NetWitness.kinds e <> Rdma) as Hr by discriminate.
  pose proof (constructed_ring good true false None 1 0 NetWitness.kinds (fun _ => no_ends) NetWitness.conns
    H2 H8 Hr NetWitness.conns_ok ∅ before p c [Hello 9 9 9] (reflexivity _) Hrun) as (Hf & _ & _ & _ & Hids & Hw & Hwired).
  exists p, c. split; [reflexivity|]. split; [exact Hf|]. split.
  2: { split; [|exact Hw]. apply Hwired. intros channel _. split; intros Hm; discriminate Hm. }
  apply Permutation_length in Hids. rewrite length_fmap in Hids. rewrite Hids. vm_compute. reflexivity.
Defined.
End ConstructWitness.
