(* ===== verification/Benchmarks.v ===== *)
(** * The benchmark drivers: options, waiting and checking

    benchmarks/all_reduce_bench.cu and collective_bench.cu up to the calls of
    MPI and CUDA: the command line, [wait_for_stream] of bench_wait.h, the
    inputs and the values the programs expect, the comparison of an output
    buffer with them, and the figures they report (src/benchmark.cc).  BenchRun
    composes them. *)

From Stdlib Require Import ZArith Lia Ascii String Floats.SpecFloat.
From stdpp Require Import base option numbers tactics strings list pretty.
From S2P Require Import Prelude Types EnvVars Floats.

#[local] Open Scope Z_scope.

(** ** Configuration and results (include/nano_nccl/types.h) *)

Record BenchConfig := {
  algo : string; dtype : DType; redop : RedOp; transport : TransportKind;
  device : Z; min_bytes : Z; max_bytes : Z; factor : Z;
  warmup_iters : Z; iters : Z; epsilon : spec_float }.

Definition default_bench : BenchConfig := {|
  algo := "ring_simple"; dtype := Float; redop := Sum; transport := Auto;
  device := -1; min_bytes := 262144; max_bytes := 67108864; factor := 4;
  warmup_iters := 2; iters := 5; epsilon := S754_zero false |}.

Record BenchResult := {
  r_algo : string; r_dtype : DType; r_redop : RedOp; r_transport : TransportKind;
  r_bytes : Z; r_count : Z; r_time_us : spec_float; r_algbw : spec_float;
  r_busbw : spec_float; r_wrong : Z; r_max_abs_error : spec_float }.

(** ** The figures (src/benchmark.cc) *)

Definition algbw_gbs (bytes : Z) (time_us : spec_float) : spec_float :=
  if SFleb time_us (S754_zero false) then S754_zero false
  else fdiv64 (fdiv64 (double_of_int bytes) time_us) (double_of_int 1000).

Definition all_reduce_busbw_gbs (algbw : spec_float) (nranks : Z) : spec_float :=
  fmul64 algbw (fdiv64 (fmul64 (double_of_int 2) (double_of_int (nranks - 1))) (double_of_int nranks)).

(** ** Numbers on the command line *)

(** [std::strtoull(s, nullptr, 10)], 64 bits wide like [unsigned long]. *)
Definition strtoull (s : string) : Z := match strtoul s with Some c => value c | None => 0 end.

Definition LONG_MAX : Z := 2 ^ 63 - 1.
(** [int] from [long]. *)
Definition int_of (z : Z) : Z := let w := z mod 2 ^ 32 in if w <? 2 ^ 31 then w else w - 2 ^ 32.

(** [std::atoi]: [strtol] in base 10, converted to [int]. *)
Definition atoi (s : string) : Z :=
  let s := skip_space s in
  let '(negative, s) :=
    match s with String "-" s' => (true, s') | String "+" s' => (false, s') | _ => (false, s) end in
  let v := (digits 0 s).1 in
  int_of (if negative then Z.max (- v) (- LONG_MAX - 1) else Z.min v LONG_MAX).

(** ** Waiting (benchmarks/bench_wait.h) *)

Inductive WaitMode := Query | Sync.
#[export] Instance WaitMode_eq_dec : EqDecision WaitMode.
Proof. solve_decision. Defined.

Definition wait_mode_name (m : WaitMode) : string :=
  match m with Query => "query" | Sync => "sync" end.

Definition parse_wait_mode (value : string) : option WaitMode :=
  if decide (value = "query") then Some Query
  else if decide (value = "sync") then Some Sync
  else None.

(** [cudaError_t]. *)
Definition cudaSuccess : Z := 0.
Definition cudaErrorNotReady : Z := 600.

(** [cuda_check]. *)
Definition cuda_check (error_string : Z -> string) (status : Z) (operation : string) : res unit :=
  if status =? cudaSuccess then Ok tt
  else Throw (RuntimeError (operation +:+ ": " +:+ error_string status)).

Section Wait.
(** What the calls answer: [cudaStreamSynchronize], the [k]-th
    [cudaStreamQuery] and the [k]-th check for asynchronous errors. *)
Context (error_string : Z -> string) (synchronize : Z) (query : nat -> Z) (check : nat -> res unit).

(** [Some (Ok k)]: the query after [k] checks found the stream complete.
    [None]: the fuel is used up, the stream was busy all the time. *)
Fixpoint query_loop (fuel k : nat) : option (res nat) :=
  match fuel with
  | O => None
  | S fuel =>
      let status := query k in
      if status =? cudaSuccess then Some (Ok k)
      else if negb (status =? cudaErrorNotReady)
      then Some (Throw (RuntimeError ("cudaStreamQuery: " +:+ error_string status)))
      else match check k with
           | Throw e => Some (Throw e)
           | Ok _ => query_loop fuel (S k)
           end
  end.

Definition wait_for_stream (fuel : nat) (mode : WaitMode) : option (res unit) :=
  match mode with
  | Sync =>
      Some (if negb (synchronize =? cudaSuccess)
            then Throw (RuntimeError ("cudaStreamSynchronize: " +:+ error_string synchronize))
            else check 0)
  | Query =>
      match query_loop fuel 0 with
      | None => None
      | Some (Throw e) => Some (Throw e)
      | Some (Ok k) => Some (check k)
      end
  end.

(** The first [k] queries found the stream busy and no error was pending. *)
Definition busy_for (k : nat) : Prop :=
  forall j, (j < k)%nat -> query j = cudaErrorNotReady /\ check j = Ok tt.

Lemma query_loop_busy fuel k n : busy_for (k + n) ->
  query_loop (n + fuel) k = query_loop fuel (k + n).
Proof.
  revert k. induction n as [|n IH]; intros k Hb; [by rewrite Nat.add_0_r|].
  destruct (Hb k ltac:(lia)) as [Hq Hc]. simpl Nat.add. cbn [query_loop]. rewrite Hq, Hc. simpl.
  rewrite IH; [f_equal; lia|]. intros j Hj. apply Hb. lia.
Qed.

(** Polling ends with the first query that does not find the stream busy or
    the first pending error, with the outcome of that round, and waits as long as
    there is none; a wait returns only if the stream was found complete and the
    check made after that found no error. *)
Theorem wait_for_stream_exact fuel k : busy_for k ->
  (fuel <= k -> wait_for_stream fuel Query = None)%nat /\
  ((k < fuel)%nat -> query k <> cudaErrorNotReady \/ check k <> Ok tt ->
   wait_for_stream fuel Query =
     Some (if (query k =? cudaSuccess) || (query k =? cudaErrorNotReady) then check k
           else Throw (RuntimeError ("cudaStreamQuery: " +:+ error_string (query k))))).
Proof.
  intros Hb. unfold wait_for_stream. split.
  - intros Hf. replace fuel with (fuel + 0)%nat by lia.
    rewrite query_loop_busy by (intros j Hj; apply Hb; lia). done.
  - intros Hf Hend. replace fuel with (k + S (fuel - k - 1))%nat by lia.
    rewrite query_loop_busy by done. simpl Nat.add. cbn [query_loop].
    destruct (Z.eqb_spec (query k) cudaSuccess) as [|Hs]; [done|].
    destruct (Z.eqb_spec (query k) cudaErrorNotReady) as [Hn|]; [|done]. simpl.
    destruct Hend as [|Hc]; [done|]. destruct (check k) as [[]|e]; [done|]. done.
Qed.
End Wait.

(** ** The command line *)

Definition set_algo (x : string) (c : BenchConfig) : BenchConfig :=
  Build_BenchConfig x (dtype c) (redop c) (transport c) (device c) (min_bytes c) (max_bytes c)
    (factor c) (warmup_iters c) (iters c) (epsilon c).
Definition set_dtype (x : DType) (c : BenchConfig) : BenchConfig :=
  Build_BenchConfig (algo c) x (redop c) (transport c) (device c) (min_bytes c) (max_bytes c)
    (factor c) (warmup_iters c) (iters c) (epsilon c).
Definition set_redop (x : RedOp) (c : BenchConfig) : BenchConfig :=
  Build_BenchConfig (algo c) (dtype c) x (transport c) (device c) (min_bytes c) (max_bytes c)
    (factor c) (warmup_iters c) (iters c) (epsilon c).
Definition set_transport (x : TransportKind) (c : BenchConfig) : BenchConfig :=
  Build_BenchConfig (algo c) (dtype c) (redop c) x (device c) (min_bytes c) (max_bytes c)
    (factor c) (warmup_iters c) (iters c) (epsilon c).
Definition set_device (x : Z) (c : BenchConfig) : BenchConfig :=
  Build_BenchConfig (algo c) (dtype c) (redop c) (transport c) x (min_bytes c) (max_bytes c)
    (factor c) (warmup_iters c) (iters c) (epsilon c).
Definition set_min_bytes (x : Z) (c : BenchConfig) : BenchConfig :=
  Build_BenchConfig (algo c) (dtype c) (redop c) (transport c) (device c) x (max_bytes c)
    (factor c) (warmup_iters c) (iters c) (epsilon c).
Definition set_max_bytes (x : Z) (c : BenchConfig) : BenchConfig :=
  Build_BenchConfig (algo c) (dtype c) (redop c) (transport c) (device c) (min_bytes c) x
    (factor c) (warmup_iters c) (iters c) (epsilon c).
Definition set_factor (x : Z) (c : BenchConfig) : BenchConfig :=
  Build_BenchConfig (algo c) (dtype c) (redop c) (transport c) (device c) (min_bytes c) (max_bytes c)
    x (warmup_iters c) (iters c) (epsilon c).
Definition set_warmup (x : Z) (c : BenchConfig) : BenchConfig :=
  Build_BenchConfig (algo c) (dtype c) (redop c) (transport c) (device c) (min_bytes c) (max_bytes c)
    (factor c) x (iters c) (epsilon c).
Definition set_iters (x : Z) (c : BenchConfig) : BenchConfig :=
  Build_BenchConfig (algo c) (dtype c) (redop c) (transport c) (device c) (min_bytes c) (max_bytes c)
    (factor c) (warmup_iters c) x (epsilon c).

(** The loops over [argv]: every option takes a value; [None] is the usage
    message with exit code 2. *)
Fixpoint parse_options {O} (set_option : string -> string -> O -> option O) (args : list string) (o : O) :
    option O :=
  match args with
  | [] => Some o
  | [_] => None
  | argument :: value :: args => o' ← set_option argument value o; parse_options set_option args o'
  end.

Module AllReduceOptions.
Abbreviation options := (BenchConfig * WaitMode)%type.

Definition all_reduce_option (argument value : string) (o : options) : option options :=
  let '(c, w) := o in
  if String.eqb argument "--algo" then Some (set_algo value c, w)
  else if String.eqb argument "--dtype" then d ← parse_dtype value; Some (set_dtype d c, w)
  else if String.eqb argument "--redop" then r ← parse_redop value; Some (set_redop r c, w)
  else if String.eqb argument "--transport" then t ← parse_transport value; Some (set_transport t c, w)
  else if String.eqb argument "--wait-mode" then m ← parse_wait_mode value; Some (c, m)
  else if String.eqb argument "--device" then Some (set_device (atoi value) c, w)
  else if String.eqb argument "-b" then Some (set_min_bytes (strtoull value) c, w)
  else if String.eqb argument "-e" then Some (set_max_bytes (strtoull value) c, w)
  else if String.eqb argument "-f" then Some (set_factor (atoi value) c, w)
  else if String.eqb argument "-w" then Some (set_warmup (atoi value) c, w)
  else if String.eqb argument "-n" then Some (set_iters (atoi value) c, w)
  else None.

(** [main] up to [MPI_Init]. *)
Definition all_reduce_arguments (args : list string) : option options :=
  o ← parse_options all_reduce_option args (default_bench, Query);
  if negb (String.eqb (algo o.1) "auto") && negb (String.eqb (algo o.1) "ring_simple")
  then None else Some o.
End AllReduceOptions.

Inductive Collective := ReduceScatter | AllGather.
#[export] Instance Collective_eq_dec : EqDecision Collective.
Proof. solve_decision. Defined.

Module CollectiveOptions.
Record options := Options {
  cfg : BenchConfig; wait_mode : WaitMode; collective : Collective;
  selected : bool; redop_selected : bool }.

Definition with_cfg (f : BenchConfig -> BenchConfig) (o : options) : options :=
  Options (f (cfg o)) (wait_mode o) (collective o) (selected o) (redop_selected o).

Definition parse_collective (v : string) : option Collective :=
  if String.eqb v "reducescatter" || String.eqb v "reduce_scatter" then Some ReduceScatter
  else if String.eqb v "allgather" || String.eqb v "all_gather" then Some AllGather
  else None.

Definition collective_option (argument value : string) (o : options) : option options :=
  if String.eqb argument "--collective"
  then x ← parse_collective value;
       Some (Options (cfg o) (wait_mode o) x true (redop_selected o))
  else if String.eqb argument "--dtype" then d ← parse_dtype value; Some (with_cfg (set_dtype d) o)
  else if String.eqb argument "--redop"
  then r ← parse_redop value;
       Some (Options (set_redop r (cfg o)) (wait_mode o) (collective o) (selected o) true)
  else if String.eqb argument "--transport" then t ← parse_transport value; Some (with_cfg (set_transport t) o)
  else if String.eqb argument "--wait-mode"
  then m ← parse_wait_mode value;
       Some (Options (cfg o) m (collective o) (selected o) (redop_selected o))
  else if String.eqb argument "--device" then Some (with_cfg (set_device (atoi value)) o)
  else if String.eqb argument "-b" then Some (with_cfg (set_min_bytes (strtoull value)) o)
  else if String.eqb argument "-e" then Some (with_cfg (set_max_bytes (strtoull value)) o)
  else if String.eqb argument "-f" then Some (with_cfg (set_factor (atoi value)) o)
  else if String.eqb argument "-w" then Some (with_cfg (set_warmup (atoi value)) o)
  else if String.eqb argument "-n" then Some (with_cfg (set_iters (atoi value)) o)
  else None.

Definition initial : options :=
  Options (set_iters 20 (set_warmup 5 default_bench)) Query ReduceScatter false false.

(** [main] up to [MPI_Init]. *)
Definition collective_arguments (args : list string) : option options :=
  o ← parse_options collective_option args initial;
  if negb (selected o) || (warmup_iters (cfg o) <? 0) || (iters (cfg o) <=? 0) ||
     (bool_decide (collective o = AllGather) && redop_selected o)
  then None else Some o.
End CollectiveOptions.

(** *** Numbers are read back from their digits *)

Lemma pretty_nonneg_head (n : Z) : 0 <= n -> exists d s, (d < 10)%N /\
  pretty n = String (pretty_N_char d) s /\ (digits 0 (pretty n)).1 = n.
Proof.
  intros Hn. destruct (decide (n = 0)) as [->|Hne]; [by exists 0%N, ""|].
  assert (pretty n = pretty_N_go (Z.to_N n) "") as ->.
  { destruct n as [|p|p]; try lia. reflexivity. }
  destruct (pretty_N_go_head (Z.to_N n) "") as (d & s' & Hd & Hs); [lia|].
  exists d, s'. split_and!; [done..|].
  destruct (digits_pretty (Z.to_N n) "" 0) as (k & -> & _). simpl. lia.
Qed.

Lemma int_of_small z : - 2 ^ 31 <= z < 2 ^ 31 -> int_of z = z.
Proof.
  intros Hz. unfold int_of. destruct (Z_lt_ge_dec z 0).
  - replace (z mod 2 ^ 32) with (z + 2 ^ 32) by (apply (Z.mod_unique _ _ (-1)); lia).
    destruct (Z.ltb_spec (z + 2 ^ 32) (2 ^ 31)); lia.
  - rewrite Z.mod_small by lia. destruct (Z.ltb_spec z (2 ^ 31)); lia.
Qed.

Lemma atoi_pretty (n : Z) : - 2 ^ 31 <= n < 2 ^ 31 -> atoi (pretty n) = n.
Proof.
  intros Hn. unfold atoi, LONG_MAX. destruct (Z_lt_ge_dec n 0) as [Hneg|Hpos].
  - assert (pretty n = String "-" (pretty (- n))) as -> by by destruct n.
    destruct (pretty_nonneg_head (- n)) as (_ & _ & _ & _ & Hd); [lia|].
    change (int_of (Z.max (- (digits 0 (pretty (- n))).1) (- (2 ^ 63 - 1) - 1)) = n). rewrite Hd.
    rewrite Z.max_l, Z.opp_involutive by lia. by apply int_of_small.
  - destruct (pretty_nonneg_head n) as (d & s & Hd & Hs & Hv); [lia|]. rewrite Hs in Hv |- *.
    destruct (digit_not_space d Hd) as (H1 & H2 & H3). simpl skip_space. rewrite H1.
    set (c := pretty_N_char d) in *. clearbody c.
    assert ((match String c s with String "-" s'' => (true, s'') | String "+" s'' => (false, s'')
             | _ => (false, String c s) end) = (false, String c s)) as ->.
    { destruct c as [[] [] [] [] [] [] [] []]; done. }
    rewrite Hv, Z.min_l by lia. by apply int_of_small.
Qed.

Lemma strtoull_pretty (n : Z) : 0 <= n < 2 ^ 64 -> strtoull (pretty n) = n.
Proof. intros Hn. unfold strtoull. rewrite strtoul_pretty by (unfold ULONG_MAX; lia). done. Qed.

(** The values of a configuration fit their types, and the transport can be
    asked for. *)
Record config_ok (c : BenchConfig) : Prop := {
  co_transport : transport c <> Mixed;
  co_device : - 2 ^ 31 <= device c < 2 ^ 31;
  co_min : 0 <= min_bytes c < 2 ^ 64;
  co_max : 0 <= max_bytes c < 2 ^ 64;
  co_factor : - 2 ^ 31 <= factor c < 2 ^ 31;
  co_warmup : - 2 ^ 31 <= warmup_iters c < 2 ^ 31;
  co_iters : - 2 ^ 31 <= iters c < 2 ^ 31;
  co_epsilon : epsilon c = S754_zero false }.

(** The options both programs share, spelled out. *)
Definition spell (c : BenchConfig) (w : WaitMode) : list string :=
  ["--dtype"; dtype_name (dtype c); "--transport"; transport_name (transport c);
   "--wait-mode"; wait_mode_name w; "--device"; pretty (device c);
   "-b"; pretty (min_bytes c); "-e"; pretty (max_bytes c); "-f"; pretty (factor c);
   "-w"; pretty (warmup_iters c); "-n"; pretty (iters c)].
Definition collective_name (x : Collective) : string :=
  match x with ReduceScatter => "reducescatter" | AllGather => "allgather" end.

Lemma parse_redop_name r : parse_redop (redop_name r) = Some r.
Proof. by destruct r. Qed.
Lemma collective_redop r o : CollectiveOptions.collective_option "--redop" (redop_name r) o =
  Some (CollectiveOptions.Options (set_redop r (CollectiveOptions.cfg o)) (CollectiveOptions.wait_mode o)
    (CollectiveOptions.collective o) (CollectiveOptions.selected o) true).
Proof. by destruct r. Qed.

Lemma all_reduce_spelled c w c0 w0 : config_ok c ->
  parse_options AllReduceOptions.all_reduce_option (spell c w) (c0, w0) =
  Some (Build_BenchConfig (algo c0) (dtype c) (redop c0) (transport c) (device c) (min_bytes c)
    (max_bytes c) (factor c) (warmup_iters c) (iters c) (epsilon c0), w).
Proof.
  intros [Ht Hd Hmin Hmax Hf Hw Hi _]. unfold spell.
  destruct (dtype c), (transport c), w; try done; simpl;
    by rewrite !atoi_pretty, !strtoull_pretty by done.
Qed.

Lemma collective_spelled c w o : config_ok c ->
  parse_options CollectiveOptions.collective_option (spell c w) o =
  let c0 := CollectiveOptions.cfg o in
  Some (CollectiveOptions.Options
    (Build_BenchConfig (algo c0) (dtype c) (redop c0) (transport c) (device c) (min_bytes c)
      (max_bytes c) (factor c) (warmup_iters c) (iters c) (epsilon c0)) w
    (CollectiveOptions.collective o) (CollectiveOptions.selected o) (CollectiveOptions.redop_selected o)).
Proof.
  intros [Ht Hd Hmin Hmax Hf Hw Hi _]. unfold spell, CollectiveOptions.with_cfg.
  destruct (dtype c), (transport c), w; try done; simpl;
    by rewrite !atoi_pretty, !strtoull_pretty by done.
Qed.

(** Whatever configuration a user spells out is the one that runs: every
    option of both programs is read back exactly, negative numbers included; the
    programs refuse exactly unknown algorithms, a missing collective, an operation
    for AllGather and numbers of iterations that measure nothing, and
    all_reduce_bench does not look at the latter. *)
Theorem options_round_trip c w x : config_ok c ->
  AllReduceOptions.all_reduce_arguments (["--algo"; algo c; "--redop"; redop_name (redop c)] ++ spell c w) =
    (if bool_decide (algo c = "auto") || bool_decide (algo c = "ring_simple") then Some (c, w) else None) /\
  CollectiveOptions.collective_arguments (["--collective"; collective_name x] ++
      (if bool_decide (x = AllGather) then [] else ["--redop"; redop_name (redop c)]) ++ spell c w) =
    (if (0 <=? warmup_iters c) && (0 <? iters c)
     then Some (CollectiveOptions.Options
       (set_algo "ring_simple" (if bool_decide (x = AllGather) then set_redop Sum c else c)) w x true
       (negb (bool_decide (x = AllGather)))) else None) /\
  CollectiveOptions.collective_arguments (spell c w) = None /\
  CollectiveOptions.collective_arguments (["--collective"; "allgather"; "--redop"; redop_name (redop c)] ++ spell c w) = None.
Proof.
  intros Hc. pose proof (co_epsilon c Hc) as He.
  unfold AllReduceOptions.all_reduce_arguments, CollectiveOptions.collective_arguments.
  pose proof (fun c0 w0 => all_reduce_spelled c w c0 w0 Hc) as Ha.
  pose proof (fun o => collective_spelled c w o Hc) as Hb.
  revert Ha Hb. generalize (spell c w). intros l Ha Hb.
  destruct c as [al d r t dev mi ma fa wa it ep]. simpl in He, Ha, Hb |- *. subst ep.
  split_and!; [|destruct x|..]; simpl; rewrite ?parse_redop_name, ?collective_redop; simpl;
    rewrite ?Ha, ?Hb; simpl; try done.
  1: by destruct (String.eqb_spec al "auto"), (String.eqb_spec al "ring_simple"); repeat case_bool_decide.
  all: by destruct (Z.ltb_spec wa 0), (Z.leb_spec 0 wa), (Z.ltb_spec 0 it), (Z.leb_spec it 0); try lia.
Qed.

Module BenchmarksWitness.
(** A query finds the stream busy, the next one finds it complete. *)
Lemma wait_for_stream_exact_witness :
  wait_for_stream (fun _ => "error") 0 (fun k => if (k =? 0)%nat then 600 else 0) (fun _ => Ok tt) 2 Query
    = Some (Ok tt).
Proof.
  apply (wait_for_stream_exact (fun _ => "error") 0 (fun k => if (k =? 0)%nat then 600 else 0)
    (fun _ => Ok tt) 2 1); [|lia|by left].
  intros [|j] Hj; [by split|lia].
Defined.

Definition sample : BenchConfig := set_device (-1) (set_transport Rdma (set_dtype BFloat16 default_bench)).
Lemma options_round_trip_witness :
  CollectiveOptions.collective_arguments (["--collective"; "allgather"] ++ spell sample Sync) =
  Some (CollectiveOptions.Options sample Sync AllGather true false).
Proof.
  apply (options_round_trip sample Sync AllGather). by split; simpl.
Defined.
End BenchmarksWitness.
