(* ===== verification/BenchCheck.v ===== *)
(** * What the benchmarks accept

    The inputs, expected values and comparisons of all_reduce_bench.cu and
    collective_bench.cu. *)

From Stdlib Require Import ZArith Lia Floats.SpecFloat.
From stdpp Require Import base option numbers tactics list.
From S2P Require Import Prelude Types AllReduce Floats Benchmarks.

#[local] Open Scope Z_scope.

Abbreviation f0 := (S754_zero false).

Section Checks.
Context `{BuildConfig} (d : DType) {T : Type} `{Traits T}.

(** [std::fabs(Traits::to_float(value) - want)]. *)
Definition abs_error (want : spec_float) (value : T) : spec_float :=
  SFabs (fsub32 (to_float value) want).

(** The value of an element as the host sees it after a round trip. *)
Definition rounded (x : spec_float) : spec_float := to_float (from_float (T := T) x).

(** ** all_reduce_bench.cu *)

Definition rank_value (rank : Z) : T := from_float (float_of_int (rank + 1)).

Definition combine (R : RedOp) (expected next : spec_float) : spec_float :=
  match R with
  | Sum | Avg => fadd32 expected next
  | Max => fmaxf expected next
  | Min => fminf expected next
  end.

Definition expected (R : RedOp) : spec_float :=
  let e := foldl (fun expected peer => combine R expected (rounded (float_of_int (peer + 1))))
             (rounded (float_of_int 1)) (seqZ 1 (kRanks - 1)) in
  match R with Avg => fdiv32 e (float_of_int kRanks) | _ => e end.

(** [local_wrong] and [local_max_abs_error]; the loop stops at the first wrong
    element. *)
Fixpoint check_output (want max_error : spec_float) (output : list T) : Z * spec_float :=
  match output with
  | [] => (0, max_error)
  | value :: output =>
      let error := abs_error want value in
      let max_error := std_max max_error error in
      if SFltb (kDefaultEpsilon d) error then (1, max_error) else check_output want max_error output
  end.

Definition all_reduce_check (R : RedOp) (output : list T) : Z * spec_float :=
  check_output (expected R) f0 output.

(** ** collective_bench.cu *)

Definition pattern (rank i : Z) : spec_float :=
  fadd32 (float_of_int (rank + 1)) (fmul32 (float_of_int (i mod 4)) (float_literal 1 8)).
Definition element (rank i : Z) : T := from_float (pattern rank i).

Definition combine_from (R : RedOp) (global_index : Z) (want : spec_float) (peer : Z) : spec_float :=
  let value := rounded (pattern peer global_index) in
  match R with
  | Sum | Avg => fadd32 want value
  | Max => fmaxf want value
  | Min => if peer =? 0 then value else fminf want value
  end.

(** [want] of output element [i]. *)
Definition want (c : Collective) (R : RedOp) (rank rank_count i : Z) : spec_float :=
  match c with
  | ReduceScatter =>
      let w := foldl (combine_from R (rank * rank_count + i)) f0 (zrange kRanks) in
      match R with Avg => fdiv32 w (float_of_int kRanks) | _ => w end
  | AllGather => rounded (pattern (i / rank_count) (i mod rank_count))
  end.

(** Every element is compared. *)
Definition check_element (c : Collective) (R : RedOp) (rank rank_count : Z) (output : Z -> T)
    (acc : Z * spec_float) (i : Z) : Z * spec_float :=
  let error := abs_error (want c R rank rank_count i) (output i) in
  (if SFltb (kDefaultEpsilon d) error then 1 else acc.1, std_max acc.2 error).

Definition collective_check (c : Collective) (R : RedOp) (rank rank_count out_count : Z) (output : Z -> T) :
    Z * spec_float :=
  foldl (check_element c R rank rank_count output) (0, f0) (zrange out_count).

(** ** The comparisons *)

(** Within the tolerance. *)
Definition within (w : spec_float) (value : T) : Prop :=
  SFltb (kDefaultEpsilon d) (abs_error w value) = false.

Lemma check_output_spec w e output :
  (check_output w e output).1 = 0 <-> Forall (within w) output.
Proof.
  revert e. induction output as [|v output IH]; intros e; [by simpl|].
  simpl. rewrite Forall_cons, <- (IH (std_max e (abs_error w v))). unfold within.
  destruct (SFltb _ _); [by split; [|intros [? _]]|]. by split; [|intros [_ ?]].
Qed.

Lemma check_output_flag w e output :
  (check_output w e output).1 = 0 \/ (check_output w e output).1 = 1.
Proof.
  revert e. induction output as [|v output IH]; intros e; simpl; [by left|].
  destruct (SFltb _ _); [by right|]. apply IH.
Qed.

Lemma check_elements_spec c R rank rank_count output l : forall acc, acc.1 = 0 \/ acc.1 = 1 ->
  let r := (foldl (check_element c R rank rank_count output) acc l).1 in
  (r = 0 \/ r = 1) /\
  (r = 0 <-> acc.1 = 0 /\ Forall (fun i => within (want c R rank rank_count i) (output i)) l).
Proof.
  induction l as [|i l IH]; intros acc Hacc; simpl; [by split; [|split; [|intros [? _]]]|].
  destruct (IH (check_element c R rank rank_count output acc i)) as [H1 H2].
  { unfold check_element. simpl. destruct (SFltb _ _); auto. }
  split; [done|]. rewrite H2, Forall_cons. unfold check_element, within. simpl.
  destruct (SFltb _ _); [|tauto]. split; [by intros [? _]|by intros (_ & ? & _)].
Qed.

Lemma collective_check_spec c R rank rank_count out_count output :
  let r := (collective_check c R rank rank_count out_count output).1 in
  (r = 0 \/ r = 1) /\
  (r = 0 <-> forall i, 0 <= i < out_count -> within (want c R rank rank_count i) (output i)).
Proof.
  destruct (check_elements_spec c R rank rank_count output (zrange out_count) (0, f0)) as [H1 H2]; [by left|].
  split; [exact H1|]. etransitivity; [exact H2|]. simpl. rewrite Forall_forall.
  setoid_rewrite elem_of_zrange. tauto.
Qed.
End Checks.
