(* ===== verification/BenchTables.v ===== *)
(** * The values of the benchmarks in every format

    What a rank holds after a reduction of the inputs of the benchmarks, computed
    in the format of the elements, against the expected value, for every type,
    operation and chunk and up to as many ranks as the tables hold. *)

From Stdlib Require Import ZArith Lia Floats.SpecFloat.
From stdpp Require Import base option numbers tactics list.
From S2P Require Import Prelude Types AllReduce Floats Benchmarks BenchCheck.

#[local] Open Scope Z_scope.

(** ** The values in the formats

    What a rank holds after a reduction of [x] over [n] ranks, and what the
    benchmarks compare it with, as numbers. *)

Definition ring_value (d : DType) (R : RedOp) (n : Z) (x : Z -> spec_float) (c : Z) : spec_float :=
  soft_finish d R (round_to d (fdiv32 (float_of_int 1) (float_of_int n)))
    (ring_reduce (soft_apply d R) n (fun k => round_to d (x k)) c).

Definition soft_rounded (d : DType) (x : spec_float) : spec_float := widen d (round_to d x).

Definition soft_expected (d : DType) (R : RedOp) (n : Z) : spec_float :=
  let e := foldl (fun e peer => combine R e (soft_rounded d (float_of_int (peer + 1))))
             (soft_rounded d (float_of_int 1)) (seqZ 1 (n - 1)) in
  match R with Avg => fdiv32 e (float_of_int n) | _ => e end.

Definition soft_combine (d : DType) (R : RedOp) (j : Z) (w : spec_float) (peer : Z) : spec_float :=
  let value := soft_rounded d (pattern peer j) in
  match R with
  | Sum | Avg => fadd32 w value
  | Max => fmaxf w value
  | Min => if peer =? 0 then value else fminf w value
  end.

Definition soft_want (d : DType) (R : RedOp) (n j : Z) : spec_float :=
  let w := foldl (soft_combine d R j) f0 (zrange n) in
  match R with Avg => fdiv32 w (float_of_int n) | _ => w end.

Definition soft_within (d : DType) (w v : spec_float) : bool :=
  negb (SFltb (kDefaultEpsilon d) (SFabs (fsub32 (widen d v) w))).

(** Chunk [c] of AllReduce, and an element of ReduceScatter at position [j] of
    its pattern in the block of rank [c]. *)
Definition all_reduce_passes (d : DType) (R : RedOp) (n c : Z) : bool :=
  soft_within d (soft_expected d R n) (ring_value d R n (fun k => float_of_int (k + 1)) c).
Definition reduce_scatter_passes (d : DType) (R : RedOp) (n j c : Z) : bool :=
  soft_within d (soft_want d R n j) (ring_value d R n (fun k => pattern k j) c).

Definition dtypes : list DType := [Float; Float16; BFloat16].
Definition redops : list RedOp := [Sum; Avg; Max; Min].

Definition all_of {A} (p : A -> bool) (l : list A) : bool := forallb p l.

Lemma all_reduce_table :
  all_of (fun d => all_of (fun R => all_of (fun n => all_of (all_reduce_passes d R n) (zrange n))
    (seqZ 1 16)) redops) dtypes = true.
Proof. vm_compute. reflexivity. Qed.

Lemma reduce_scatter_table :
  all_of (fun d => all_of (fun R => all_of (fun n => all_of (fun j =>
    all_of (reduce_scatter_passes d R n j) (zrange n)) (zrange 4)) (seqZ 1 8)) redops) dtypes = true.
Proof. vm_compute. reflexivity. Qed.

Lemma all_of_elem {A} (p : A -> bool) l x : all_of p l = true -> x ∈ l -> p x = true.
Proof. unfold all_of. rewrite forallb_forall. intros Hp Hx. by apply Hp, list_elem_of_In. Qed.

Lemma dtype_listed d : d ∈ dtypes.
Proof. destruct d; repeat constructor. Qed.
Lemma redop_listed R : R ∈ redops.
Proof. destruct R; repeat constructor. Qed.

Lemma all_reduce_entry d R n c : 1 <= n <= 16 -> 0 <= c < n -> all_reduce_passes d R n c = true.
Proof.
  intros Hn Hc.
  pose proof (all_of_elem _ _ _ (all_of_elem _ _ _ (all_of_elem _ _ _ all_reduce_table
    (dtype_listed d)) (redop_listed R)) (proj2 (elem_of_seqZ 1 16 n) ltac:(lia))) as Ha.
  by apply (all_of_elem _ _ c Ha), elem_of_zrange.
Qed.

Lemma reduce_scatter_entry d R n j c : 1 <= n <= 8 -> 0 <= j < 4 -> 0 <= c < n ->
  reduce_scatter_passes d R n j c = true.
Proof.
  intros Hn Hj Hc.
  pose proof (all_of_elem _ _ _ (all_of_elem _ _ _ (all_of_elem _ _ _ reduce_scatter_table
    (dtype_listed d)) (redop_listed R)) (proj2 (elem_of_seqZ 1 8 n) ltac:(lia))) as Ha.
  pose proof (all_of_elem _ _ j Ha ltac:(by apply elem_of_zrange)) as Hb.
  by apply (all_of_elem _ _ c Hb), elem_of_zrange.
Qed.

(** Nine ranks, a sum of bfloat16 and an odd position in the pattern. *)
Lemma nine_ranks_table : all_of (fun c => negb (reduce_scatter_passes BFloat16 Sum 9 1 c) &&
  negb (reduce_scatter_passes BFloat16 Sum 9 3 c)) (zrange 9) = true.
Proof. vm_compute. reflexivity. Qed.

Lemma nine_ranks_entry c : 0 <= c < 9 -> reduce_scatter_passes BFloat16 Sum 9 1 c = false /\
  reduce_scatter_passes BFloat16 Sum 9 3 c = false.
Proof.
  intros Hc%elem_of_zrange. pose proof (all_of_elem _ _ c nine_ranks_table Hc) as H.
  cbv beta in H. by rewrite andb_true_iff, !negb_true_iff in H.
Qed.

(** A value differs from itself by nothing. *)
Lemma sub_self a : SFltb (float_literal 1 100000) (SFabs (fsub32 a a)) = false /\
  SFltb (float_literal 1 100) (SFabs (fsub32 a a)) = false /\
  SFltb (float_literal 1 10) (SFabs (fsub32 a a)) = false.
Proof.
  destruct a as [[]|[]| |s m e]; [by vm_compute..|].
  unfold SFsub. rewrite Z.sub_diag. by vm_compute.
Qed.

Lemma within_self d a : SFltb (kDefaultEpsilon d) (SFabs (fsub32 a a)) = false.
Proof. destruct (sub_self a) as (H1 & H2 & H3). by destruct d. Qed.

Lemma ring_reduce_mod {A} (op : A -> A -> A) n x c : 0 < n ->
  ring_reduce op n x c = ring_reduce op n x (c mod n).
Proof.
  intros Hn. unfold ring_reduce. generalize (Z.to_nat (n - 1)) as h.
  assert (forall k, (c mod n + k) mod n = (c + k) mod n) as Hm by (intros k; apply Zplus_mod_idemp_l).
  induction h as [|h IH]; cbn [ring_acc]; [by rewrite Hm|].
  rewrite IH, <- !(Z.add_assoc _ 1), Hm. done.
Qed.
