(* ===== verification/BenchKernels.v ===== *)
(** * The benchmarks accept what the kernels leave

    The buffers the three kernels leave pass the comparisons of the benchmarks,
    for every element type whose operations round correctly, on as many ranks as
    the tolerances allow. *)

From Stdlib Require Import ZArith Lia Floats.SpecFloat.
From stdpp Require Import base option numbers tactics list.
From S2P Require Import Prelude Types Geometry Ring RingSafety RingProgram Kernels AllReduce Floats Standalone Benchmarks BenchCheck BenchTables.

#[local] Open Scope Z_scope.

(** ** The same of elements *)

Section Represented.
Context `{BuildConfig} {d : DType} {T : Type} `{Ieee d T}.

Lemma rounded_soft x : rounded (T := T) x = soft_rounded d x.
Proof. unfold rounded, soft_rounded. by rewrite repr_to, repr_from. Qed.

Lemma within_soft w (v : T) : soft_within d w (repr v) = true -> within d w v.
Proof. unfold soft_within, within, abs_error. rewrite repr_to, negb_true_iff. done. Qed.

Lemma expected_soft R : expected (T := T) R = soft_expected d R kRanks.
Proof.
  unfold expected, soft_expected. rewrite rounded_soft.
  rewrite (foldl_same _ (fun e peer => combine R e (soft_rounded d (float_of_int (peer + 1)))));
    [done|]. intros. by rewrite rounded_soft.
Qed.

Lemma pattern_mod rank i : pattern rank i = pattern rank (i mod 4).
Proof. unfold pattern. by rewrite Zmod_mod. Qed.

Lemma ring_value_mod R n i c : 0 < n ->
  ring_value d R n (fun k => pattern k i) c = ring_value d R n (fun k => pattern k (i mod 4)) c.
Proof.
  intros Hn. unfold ring_value. f_equal. apply ring_acc_ext; [done|]. intros k _. by rewrite <- pattern_mod.
Qed.

Lemma want_soft R rank rank_count i :
  want (T := T) ReduceScatter R rank rank_count i = soft_want d R kRanks ((rank * rank_count + i) mod 4).
Proof.
  unfold want, soft_want. set (g := rank * rank_count + i).
  rewrite (foldl_same (combine_from (T := T) R g) (soft_combine d R (g mod 4))); [done|].
  intros w peer. unfold combine_from, soft_combine. by rewrite rounded_soft, <- pattern_mod.
Qed.

(** [1.0f / nranks] in the type of the elements. *)
Definition inverse_nranks : T := from_float (fdiv32 (float_of_int 1) (float_of_int kRanks)).

Lemma ring_value_repr R (x : Z -> spec_float) c :
  repr (redop_finish R inverse_nranks
    (ring_reduce (redop_apply R) kRanks (fun k => from_float (T := T) (x k)) c)) =
  ring_value d R kRanks x c.
Proof.
  rewrite repr_finish. unfold ring_value, inverse_nranks. rewrite repr_from. f_equal.
  rewrite (ring_reduce_map repr _ (soft_apply d R)) by apply repr_apply.
  apply ring_acc_ext; [apply kRanks_pos|]. intros k _. apply repr_from.
Qed.
End Represented.

(** ** What the kernels leave passes *)

Section Kernels.
Context `{BuildConfig} {d : DType} {T : Type} `{Ieee d T} (R : RedOp).
Context (count slot_elems step_elems : Z) (base : Z -> Z -> Z).
Context (out0 fifo0 : Z -> Z -> Z -> T).   (* by channel, rank and position *)

Abbreviation sz := (dtype_size d).
Abbreviation op := (redop_apply R).
Abbreviation fin := (redop_finish R inverse_nranks).
Abbreviation is_rank r := (0 <= r < kRanks).
Abbreviation is_channel c := (0 <= c < kChannels).
Abbreviation kargs r := (KArgs r count slot_elems step_elems).

(** The kernel of every channel has run to its end on all ranks, in any
    interleaving, and was not aborted. *)
Definition channels_ran (input : Z -> Z -> T) (kernel : Z -> Z -> list sop) (s : Z -> sys T) : Prop :=
  forall c, is_channel c ->
    steps (step op fin sz slot_elems kRanks input)
      (init kRanks (fun r => [kernel r c]) (base c) (out0 c) (fifo0 c)) (s c) /\
    abort (s c) = false /\ finished kRanks (s c).

(** Every rank of all_reduce_bench finds no wrong element after a run of the
    AllReduce kernels on its inputs, on up to sixteen ranks, whatever the
    interleaving, the element type, the operation, the count and the sizes of
    slots and steps. *)
Lemma all_reduce_accepted s r recv :
  kRanks <= 16 ->
  (forall c, is_channel c -> launch_ok sz count slot_elems step_elems c /\
     steps_fit sz count slot_elems step_elems c (base c)) ->
  channels_ran (fun k _ => rank_value k) (fun r c => ring_simple_kernel sz (kargs r) kRanks c) s ->
  is_rank r ->
  (forall c x, is_channel c -> (let pt := cbd_part sz count c in
     part_offset pt <= x < part_offset pt + part_count pt) -> recv x = output (rk (s c) r) x) ->
  (all_reduce_check d R (recv <$> zrange count)).1 = 0.
Proof.
  intros H16 Hok Hran Hr Hrecv. apply check_output_spec, Forall_fmap, Forall_forall.
  intros x Hx%elem_of_zrange. destruct (Hok 0) as [Hl0 _]; [pose proof kChannels_pos; lia|].
  destruct (cbd_part_cover sz count (lo_sz _ _ _ _ _ Hl0) ltac:(lia) (lo_fit _ _ _ _ _ Hl0) x Hx)
    as (c & Hc & Hin & _).
  destruct (Hok c Hc) as [Hlo Hfit], (Hran c Hc) as (Hst & Hab & Hfin).
  simpl. rewrite (Hrecv c x Hc Hin), (ar_final op fin sz count slot_elems step_elems c
    (fun k _ => rank_value k) (base c) (out0 c) Hlo (s c) r x Hfit); [|by eapply ar_reachable|done..].
  rewrite decide_True by done. unfold ar_result. apply within_soft.
  unfold rank_value. rewrite ring_reduce_mod by apply kRanks_pos.
  rewrite (ring_value_repr R (fun k => float_of_int (k + 1))), expected_soft.
  apply all_reduce_entry; [pose proof kRanks_pos; lia|]. apply Z.mod_pos_bound, kRanks_pos.
Qed.

(** collective_bench finds no wrong element either: after ReduceScatter on up
    to eight ranks and after AllGather on any number. *)
Lemma collective_accepted collective s r recv :
  (collective = ReduceScatter -> kRanks <= 8) ->
  (forall c, is_channel c -> dense_ok sz count slot_elems step_elems c /\
     match collective with
     | ReduceScatter => rs_steps_fit sz count slot_elems step_elems c (base c)
     | AllGather => ag_steps_fit sz count slot_elems step_elems c (base c)
     end) ->
  channels_ran element (fun r c => match collective with
    | ReduceScatter => ring_simple_reduce_scatter_kernel sz (kargs r) kRanks c
    | AllGather => ring_simple_all_gather_kernel sz (kargs r) kRanks c
    end) s ->
  is_rank r ->
  let out_count := match collective with ReduceScatter => count | AllGather => kRanks * count end in
  (forall c x, is_channel c -> 0 <= x < out_count ->
     (let '(o, w) := channel_part count c in o <= x mod count < o + w) -> recv x = output (rk (s c) r) x) ->
  (collective_check d collective R r count out_count recv).1 = 0.
Proof.
  intros H8 Hok Hran Hr out_count Hrecv. apply collective_check_spec. intros x Hx.
  destruct (Hok 0) as [Hd0 _]; [pose proof kChannels_pos; lia|].
  pose proof (do_count _ _ _ _ _ Hd0) as Hcount. pose proof (do_fit _ _ _ _ _ Hd0) as Hcf.
  destruct (channel_part_cover count ltac:(lia) Hcf (x mod count)) as (c & Hc & Hin & _);
    [by apply Z.mod_pos_bound|].
  destruct (Hok c Hc) as [Hlo Hfit], (Hran c Hc) as (Hst & Hab & Hfin).
  rewrite (Hrecv c x Hc Hx Hin). destruct (channel_part count c) as [o w] eqn:Epart.
  destruct collective.
  - rewrite (Z.mod_small x count) in Hin by done.
    rewrite (rs_final op fin sz count slot_elems step_elems c element (base c) (out0 c) Hlo (s c) r x Hfit);
      [|by eapply rs_reachable|done..].
    rewrite Epart, decide_True by done. unfold rs_result. apply within_soft.
    rewrite want_soft. unfold element.
    rewrite (ring_value_repr R (fun k => pattern k (r * count + x))).
    rewrite ring_value_mod by apply kRanks_pos.
    apply reduce_scatter_entry; [pose proof kRanks_pos; pose proof (H8 eq_refl); lia| |done].
    by apply Z.mod_pos_bound.
  - rewrite (ag_final op fin sz count slot_elems step_elems c element (base c) (out0 c) Hlo (s c) r x Hfit);
      [|by eapply ag_reachable|done..].
    rewrite Epart, decide_True by done. unfold ag_result, want, element, within, abs_error, rounded.
    apply within_self.
Qed.
End Kernels.

(** ** What the comparisons miss *)

(** A NaN is no error for the benchmarks: both programs report a maximal error
    of zero and no wrong element for an output of nothing but NaN. *)
Theorem nan_is_accepted `{BuildConfig} (d : DType) {T : Type} `{Ieee d T} c R rank rank_count out_count
    (output : list T) (recv : Z -> T) :
  Forall (fun v => to_float v = S754_nan) output -> (forall i, to_float (recv i) = S754_nan) ->
  all_reduce_check d R output = (0, f0) /\
  collective_check d c R rank rank_count out_count recv = (0, f0).
Proof.
  intros Hl Hr. assert (forall w (v : T), to_float v = S754_nan -> abs_error w v = S754_nan) as Habs
    by (intros w v Hv; unfold abs_error; by rewrite Hv).
  assert (forall eps : spec_float, SFltb eps S754_nan = false) as Hlt by by intros [].
  split.
  - unfold all_reduce_check. induction Hl as [|v l Hv _ IH]; [done|].
    simpl. by rewrite Habs, Hlt by done.
  - unfold collective_check. induction (zrange out_count) as [|i l IH]; [done|]. simpl.
    unfold check_element at 2. by rewrite Habs, Hlt by done.
Qed.

(** With nine ranks the tolerance is too small for the sums of bfloat16: every
    rank reports an error although its output is exactly what ReduceScatter is
    meant to leave, the inputs reduced in the order of the ring. *)
Theorem nine_ranks_rejected `{BuildConfig} {T : Type} `{Ieee BFloat16 T} r count (recv : Z -> T) :
  kRanks = 9 -> 0 <= r < kRanks -> 2 <= count ->
  (forall i, 0 <= i < count -> recv i = redop_finish Sum inverse_nranks
     (ring_reduce (redop_apply Sum) kRanks (fun k => element k (r * count + i)) r)) ->
  (collective_check BFloat16 ReduceScatter Sum r count count recv).1 = 1.
Proof.
  intros Hn Hr Hcount Hrecv.
  destruct (collective_check_spec BFloat16 ReduceScatter Sum r count count recv) as [[Hz|Hz] Hall]; [|done].
  exfalso. pose proof (proj1 Hall Hz) as Hw. clear Hz Hall.
  set (i := if Z.even (r * count) then 1 else 0).
  assert (0 <= i < count) as Hi by (subst i; destruct (Z.even _); lia).
  assert ((r * count + i) mod 4 = 1 \/ (r * count + i) mod 4 = 3) as Hodd.
  { assert (Z.odd (r * count + i) = true) as Ho
      by (rewrite Z.odd_add, <- Z.negb_even; subst i; by destruct (Z.even (r * count))).
    pose proof (Z.mod_pos_bound (r * count + i) 4 ltac:(lia)).
    pose proof (Z.div_mod (r * count + i) 4 ltac:(lia)) as Hdm.
    set (q := (r * count + i) / 4) in *. set (m := (r * count + i) mod 4) in *.
    rewrite Hdm, Z.odd_add, Z.odd_mul in Ho. simpl in Ho.
    assert (m = 0 \/ m = 1 \/ m = 2 \/ m = 3) as [E|[E|[E|E]]] by lia; rewrite E in Ho; auto; done. }
  specialize (Hw i Hi). rewrite (Hrecv i Hi) in Hw. unfold within, abs_error in Hw.
  rewrite want_soft, repr_to in Hw. unfold element in Hw.
  rewrite (ring_value_repr Sum (fun k => pattern k (r * count + i))) in Hw.
  rewrite Hn in *. rewrite (ring_value_mod Sum 9) in Hw by lia.
  assert (reduce_scatter_passes BFloat16 Sum 9 ((r * count + i) mod 4) r = true) as Hp
    by by apply negb_true_iff.
  destruct (nine_ranks_entry r Hr). destruct Hodd as [E|E]; rewrite E in Hp; congruence.
Qed.

(** ** Three ranks *)

Module BenchWitness.
#[export] Existing Instance small_config.
Definition element_ops : FloatOps spec_float := soft_ops Float.
Definition element_traits : Traits spec_float := soft_traits Float.
Definition element_ieee : @Ieee Float spec_float element_ops element_traits := soft_ieee Float.
#[export] Existing Instances element_ops element_traits element_ieee.

Definition zero_base (_ _ : Z) : Z := 0.
Definition nothing (_ _ _ : Z) : spec_float := S754_nan.

(** The state of a channel after all ranks have run in turn. *)
Definition ran (R : RedOp) (input : Z -> Z -> spec_float) (kernel : Z -> Z -> list sop) (c : Z) : sys spec_float :=
  round_robin (redop_apply R) (redop_finish R (inverse_nranks (T := spec_float))) 4 32 3 input 200
    (init 3 (fun r => [kernel r c]) (zero_base c) (nothing c) (nothing c)).

Lemma ran_steps R input kernel (s := ran R input kernel) :
  (forall c, 0 <= c < 2 -> abort (s c) = false /\ finished 3 (s c)) ->
  channels_ran (d := Float) R 32 zero_base nothing nothing input kernel s.
Proof.
  intros Hs c Hc. destruct (Hs c Hc) as [Ha Hf]. split; [|by split].
  apply rank_steps_steps, round_robin_steps.
Qed.

Lemma channels2 (P : Z -> Prop) : P 0 -> P 1 -> forall c, 0 <= c < 2 -> P c.
Proof. intros H0 H1 c Hc. assert (c = 0 \/ c = 1) as [-> | ->] by lia; done. Qed.
Lemma three_ranks (P : Z -> Prop) : P 0 -> P 1 -> P 2 -> forall r, 0 <= r < 3 -> P r.
Proof. intros H0 H1 H2 r Hr. assert (r = 0 \/ r = 1 \/ r = 2) as [->|[->| ->]] by lia; done. Qed.

Definition ar_kernel (r c : Z) : list sop := ring_simple_kernel 4 (KArgs r 40 32 32) 3 c.
Definition rs_kernel (r c : Z) : list sop := ring_simple_reduce_scatter_kernel 4 (KArgs r 10 32 32) 3 c.

Definition ar_recv (r x : Z) : spec_float :=
  output (rk (ran Avg (fun k _ => rank_value k) ar_kernel (if decide (x < 20) then 0 else 1)) r) x.
Definition rs_recv (r x : Z) : spec_float :=
  output (rk (ran Sum element rs_kernel (if decide (x < 5) then 0 else 1)) r) x.

Lemma ar_ended : forall c, 0 <= c < 2 ->
  let s := ran Avg (fun k _ => rank_value k) ar_kernel c in abort s = false /\ finished 3 s.
Proof. refine (channels2 _ _ _); (split; [by vm_compute|refine (three_ranks _ _ _ _); by vm_compute]). Qed.
Lemma rs_ended : forall c, 0 <= c < 2 ->
  let s := ran Sum element rs_kernel c in abort s = false /\ finished 3 s.
Proof. refine (channels2 _ _ _); (split; [by vm_compute|refine (three_ranks _ _ _ _); by vm_compute]). Qed.

(** Of the two channels each has half of the buffer. *)
Lemma half (c o w x k : Z) : 0 <= c < 2 -> o = c * k -> w = k -> o <= x < o + w ->
  (if decide (x < k) then 0 else 1) = c.
Proof. intros Hc -> -> Hx. assert (c = 0 \/ c = 1) as [-> | ->] by lia; case_decide; lia. Qed.

(** The average over three ranks in single precision, 40 elements. *)
Lemma all_reduce_accepted_example :
  (all_reduce_check Float Avg (ar_recv 1 <$> zrange 40)).1 = 0.
Proof.
  apply (all_reduce_accepted (d := Float) Avg 40 32 32 zero_base nothing nothing
    (ran Avg (fun k _ => rank_value k) ar_kernel) 1 (ar_recv 1)).
  - simpl. lia.
  - intros c Hc. split; [|revert c Hc; refine (channels2 _ _ _); refine (three_ranks _ _ _ _); by vm_compute].
    simpl in Hc. split; simpl; try lia; [by left|by exists 8].
  - exact (ran_steps Avg _ ar_kernel ar_ended).
  - simpl. lia.
  - intros c x Hc Hx. unfold ar_recv. rewrite (half c _ _ x 20 Hc) with (3 := Hx); [done|..];
      revert c Hc Hx; (refine (channels2 _ _ _); by vm_compute).
Defined.

(** The sum over three ranks, ten elements for each. *)
Lemma collective_accepted_example :
  (collective_check Float ReduceScatter Sum 2 10 10 (rs_recv 2)).1 = 0.
Proof.
  apply (collective_accepted (d := Float) Sum 10 32 32 zero_base nothing nothing ReduceScatter
    (ran Sum element rs_kernel) 2 (rs_recv 2)).
  - simpl. lia.
  - intros c Hc. split; [|revert c Hc; refine (channels2 _ _ _); refine (three_ranks _ _ _ _); by vm_compute].
    simpl in Hc. split; simpl; try lia. by left.
  - exact (ran_steps Sum element rs_kernel rs_ended).
  - simpl. lia.
  - intros c x Hc Hx. rewrite Z.mod_small by done. destruct (channel_part 10 c) as [o w] eqn:E. intros Hin.
    unfold rs_recv. rewrite (half c o w x 5 Hc); [done|..|done];
      revert c Hc o w E Hin; (refine (channels2 _ _ _); by intros o w [= <- <-]).
Defined.

(** An output of NaN, in half precision. *)
Lemma nan_is_accepted_witness :
  @all_reduce_check small_config Float16 spec_float (soft_traits Float16) Sum [S754_nan; S754_nan] = (0, f0) /\
  @collective_check small_config Float16 spec_float (soft_traits Float16) AllGather Sum 0 4 12
    (fun _ => S754_nan) = (0, f0).
Proof.
  apply (@nan_is_accepted small_config Float16 spec_float (soft_ops Float16) (soft_traits Float16) (soft_ieee Float16));
    [by repeat constructor|done].
Defined.

(** Nine ranks. *)
Definition nine_config : BuildConfig.
Proof.
  refine {| kRanks := 9; kChannels := 2; kBlockThreads := 96; kFloat4Unroll := 1; kFifoBytes := 1024 |};
    first [ lia | split; [lia | reflexivity] | by left ].
Defined.
Lemma nine_ranks_rejected_witness :
  (@collective_check nine_config BFloat16 spec_float (soft_traits BFloat16) ReduceScatter Sum 4 2 2 (fun i =>
    @redop_finish _ (soft_ops BFloat16) Sum (@inverse_nranks nine_config _ (soft_traits BFloat16))
      (ring_reduce (@redop_apply _ (soft_ops BFloat16) Sum) 9
        (fun k => @element _ (soft_traits BFloat16) k (4 * 2 + i)) 4))).1 = 1.
Proof.
  apply (@nine_ranks_rejected nine_config spec_float (soft_ops BFloat16) (soft_traits BFloat16) (soft_ieee BFloat16));
    [done|simpl; lia|lia|done].
Defined.

End BenchWitness.
