(* ===== verification/BenchRun.v ===== *)
(** * The benchmark programs

    [run_typed], [run_benchmark] and [main] of benchmarks/all_reduce_bench.cu and
    collective_bench.cu as programs of all ranks: the creation of the
    communicator (MpiSetup, then what Bootstrap and Construct model, here one
    answer), the placements, the buffers, and for every size the warm-up, the
    barrier, the timed iterations and the comparison.  What is printed is not
    modelled. *)

From Stdlib Require Import ZArith Lia Floats.SpecFloat.
From stdpp Require Import base option numbers tactics strings list pretty.
From S2P Require Import Prelude Types Resources Topology Control Communicator InterProcess Agreement MpiSetup Floats Benchmarks BenchCheck.

#[local] Open Scope Z_scope.

(** ** Calls and state *)

Inductive bench_resource := HSend | HRecv | HStream | HCommunicator.
#[export] Instance bench_resource_eq_dec : EqDecision bench_resource.
Proof. solve_decision. Defined.

(** CUDA calls of one run; a copy belongs to the size it is made for. *)
Inductive cuda_call :=
| CSetDevice | CMalloc (r : bench_resource) | CStreamCreate
| CCopyIn (size : nat) | CCopyOut (size : nat)
| CStreamDestroy | CFree (r : bench_resource).

(** What a rank does to its stream and its clock, in order. *)
Inductive event (T : DType -> Type) :=
| EInput (size : nat) (d : DType) (input : list (T d))
| ELaunch (c : collective) (args : CollectiveArgs)
| EBarrier
| EClock
| EOutput (size : nat).
Arguments EInput {T} size d input.
Arguments ELaunch {T} c args.
Arguments EBarrier {T}.
Arguments EClock {T}.
Arguments EOutput {T} size.

(** What the calls of a rank answer.  Launches and waits are numbered for every
    size; [polls] bounds the queries of a wait. *)
Record bench_calls (T : DType -> Type) := BenchCalls {
  error_string : Z -> string;
  local_rank_env : option string;               (* OMPI_COMM_WORLD_LOCAL_RANK *)
  construct : setup -> res unit;
  bc_transport : TransportKind;
  rdma_gdr_enabled : bool;                      (* what the constructor has set *)
  status : cuda_call -> Z;
  send_at : Z; recv_at : Z; stream_at : Z;      (* the buffers and the stream *)
  submit : nat -> nat -> res unit;              (* all_reduce and the like *)
  synchronize : nat -> nat -> Z;
  query : nat -> nat -> nat -> Z;
  async_error : nat -> nat -> nat -> res unit;
  polls : nat -> nat -> nat;
  clock : nat -> bool -> Z;                     (* nanoseconds, at the start and end *)
  recv_data : nat -> forall d, Z -> T d }.      (* the receive buffer after the last wait *)
Arguments error_string {T} _ _.
Arguments local_rank_env {T} _.
Arguments construct {T} _ _.
Arguments bc_transport {T} _.
Arguments rdma_gdr_enabled {T} _.
Arguments status {T} _ _.
Arguments send_at {T} _.
Arguments recv_at {T} _.
Arguments stream_at {T} _.
Arguments submit {T} _ _ _.
Arguments synchronize {T} _ _ _.
Arguments query {T} _ _ _ _.
Arguments async_error {T} _ _ _ _.
Arguments polls {T} _ _ _.
Arguments clock {T} _ _ _.
Arguments recv_data {T} _ _ _ _.

Record bench (T : DType -> Type) := Bench {
  b_process : process; b_log : list (event T); b_held : list bench_resource;
  b_results : list BenchResult }.
Arguments Bench {T} _ _ _ _.
Arguments b_process {T} _.
Arguments b_log {T} _.
Arguments b_held {T} _.
Arguments b_results {T} _.

(** [MPI_Allreduce] with an operation, on the contributions in rank order. *)
Definition reduce_in_order {B} (op : B -> B -> B) (none : B) (l : list B) : B :=
  match l with [] => none | x :: l => foldl op x l end.
Definition mpi_max (a b : spec_float) : spec_float := if SFltb a b then b else a.

Section Programs.
Context `{BuildConfig} {T : DType -> Type} `{!forall d, Traits (T d)}.

Definition set_process (p : process) (s : bench T) : bench T := Bench p (b_log s) (b_held s) (b_results s).
Definition over_process (f : process -> process) (s : bench T) : bench T := set_process (f (b_process s)) s.
Definition record (e : event T) (s : bench T) : bench T :=
  Bench (b_process s) (b_log s ++ [e]) (b_held s) (b_results s).
Definition hold (r : bench_resource) (s : bench T) : bench T :=
  Bench (b_process s) (b_log s) (r :: b_held s) (b_results s).
Definition drop (r : bench_resource) (s : bench T) : bench T :=
  Bench (b_process s) (b_log s) (release r (b_held s)) (b_results s).
Definition push_back (r : BenchResult) (s : bench T) : bench T :=
  Bench (b_process s) (b_log s) (b_held s) (b_results s ++ [r]).

(** Code of one rank between collective calls. *)
Definition segment {A} (m : PM (bench T) A) : SM (bench T) A := fun s => Done (m s).

Definition sm_allreduce {B} (decode : payload -> B) (encode : B -> payload) (op : B -> B -> B) (none : B)
    (operation : string) (mine : B) : SM (bench T) B := fun s =>
  MPI_Allgather decode encode operation mine (fun l => Done (s, Ok (reduce_in_order op none l))).
Definition allreduce_int (op : Z -> Z -> Z) : string -> Z -> SM (bench T) Z :=
  sm_allreduce as_int PInt op 0.
Definition allreduce_max (operation : string) (mine : spec_float) : SM (bench T) spec_float :=
  sm_allreduce as_float PFloat mpi_max S754_nan operation mine.
Definition barrier (operation : string) : SM (bench T) unit := fun s =>
  MPI_Barrier operation (Done (record EBarrier s, Ok tt)).

Definition sm_each {A} (f : A -> SM (bench T) unit) (l : list A) : SM (bench T) unit :=
  foldr (fun a k => _ ← f a; k) (mret tt) l.
Definition p_each {A} (f : A -> PM (bench T) unit) (l : list A) : PM (bench T) unit :=
  foldr (fun a k => _ ← f a; k) (mret tt) l.

Section Rank.
Context (B : bench_calls T) (rank : Z) (wait_mode : WaitMode).
Context (rdma_enabled : bool) (E : host) (closed : bool).   (* as in MpiSetup *)

Definition cuda (c : cuda_call) (operation : string) : PM (bench T) unit :=
  p_lift (cuda_check (error_string B) (status B c) operation).

(** ** The parts both programs share *)

(** [Communicator::edge_uses_gdr] on the resolved transports. *)
Definition edge_uses_gdr (kinds : list TransportKind) (edge : Z) : bool :=
  bool_decide (kinds !! Z.to_nat edge = Some Rdma) && rdma_enabled && rdma_gdr_enabled B.

(** The placements of an edge, compared between the ranks. *)
Definition compare_gdr (kinds : list TransportKind) (min_operation max_operation : string)
    (message : Z -> string) (edge : Z) : SM (bench T) unit :=
  let local_gdr := if edge_uses_gdr kinds edge then 1 else 0 in
  min_gdr ← allreduce_int Z.min min_operation local_gdr;
  max_gdr ← allreduce_int Z.max max_operation local_gdr;
  sm_local (check (min_gdr =? max_gdr) (RuntimeError (message edge))).

Definition allocate : PM (bench T) unit :=
  _ ← cuda CSetDevice "cudaSetDevice";
  _ ← cuda (CMalloc HSend) "cudaMalloc(send)"; _ ← p_modify (hold HSend);
  _ ← cuda (CMalloc HRecv) "cudaMalloc(recv)"; _ ← p_modify (hold HRecv);
  _ ← cuda CStreamCreate "cudaStreamCreateWithFlags"; p_modify (hold HStream).

Definition wait (size k : nat) : res unit :=
  match wait_for_stream (error_string B) (synchronize B size k) (query B size k)
          (async_error B size k) (polls B size k) wait_mode with
  | Some r => r
  | None => Throw (LogicError "still waiting")
  end.

Definition launch_and_wait (c : collective) (args : CollectiveArgs) (size k : nat) : PM (bench T) unit :=
  _ ← p_modify (record (ELaunch c args));
  _ ← p_lift (submit B size k);
  p_lift (wait size k).

(** The elapsed time of an iteration in microseconds. *)
Definition local_time_us (size : nat) (iters : Z) : spec_float :=
  fdiv64 (fdiv64 (double_of_int (clock B size true - clock B size false)) (double_of_int 1000))
    (double_of_int iters).

(** Up to the barrier. *)
Definition warm_up (launch : nat -> PM (bench T) unit) (warmup_iters : Z) : PM (bench T) unit :=
  p_each launch (seq 0 (Z.to_nat (warmup_iters - 1))).

(** From the barrier to the second reading of the clock. *)
Definition timed (launch : nat -> PM (bench T) unit) (warmup_iters iters : Z) : PM (bench T) unit :=
  _ ← (if 0 <? warmup_iters then launch (Z.to_nat (warmup_iters - 1)) else mret tt);
  _ ← p_modify (record EClock);
  _ ← p_each launch (seq (Z.to_nat warmup_iters) (Z.to_nat iters));
  p_modify (record EClock).

Definition release_if (c : cuda_call) (r : bench_resource) : PM (bench T) unit :=
  if status B c =? cudaSuccess then p_modify (drop r) else mret tt.

(** ** all_reduce_bench.cu *)

Definition ar_args (d : DType) (R : RedOp) (count : Z) : CollectiveArgs := {|
  a_send_buffer := send_at B; a_recv_buffer := recv_at B; a_stream := stream_at B;
  a_count := count; a_dtype := d; a_redop := R |}.

Definition ar_result (c : BenchConfig) (bytes : Z) (time : spec_float) (wrong : Z) (error : spec_float) :
    BenchResult :=
  let algbw := algbw_gbs bytes time in {|
  r_algo := "ring_simple"; r_dtype := dtype c; r_redop := redop c; r_transport := bc_transport B;
  r_bytes := bytes; r_count := bytes / dtype_size (dtype c); r_time_us := time;
  r_algbw := algbw; r_busbw := all_reduce_busbw_gbs algbw kRanks;
  r_wrong := wrong; r_max_abs_error := error |}.

(** The body of the loop over the sizes, without the ranges of a profiling
    build. *)
Definition ar_measure (c : BenchConfig) (ib : nat * Z) : SM (bench T) unit :=
  let '(size, bytes) := ib in
  let d := dtype c in
  let count := bytes / dtype_size d in
  let launch := launch_and_wait CAllReduce (ar_args d (redop c) count) size in
  _ ← segment (
    _ ← p_modify (record (EInput size d (replicate (Z.to_nat count) (rank_value (T := T d) rank))));
    _ ← cuda (CCopyIn size) "cudaMemcpyAsync(input)";
    warm_up launch (warmup_iters c));
  _ ← barrier "MPI_Barrier(benchmark start)";
  _ ← segment (timed launch (warmup_iters c) (iters c));
  max_time_us ← allreduce_max "MPI_Allreduce(max elapsed)" (local_time_us size (iters c));
  _ ← segment (_ ← cuda (CCopyOut size) "cudaMemcpy(output)"; p_modify (record (EOutput size)));
  let local := all_reduce_check d (redop c) (recv_data B size d <$> zrange count) in
  global_wrong ← allreduce_int Z.add "MPI_Allreduce(wrong)" local.1;
  global_max_abs_error ← allreduce_max "MPI_Allreduce(max abs)" local.2;
  segment (if rank =? 0
           then p_modify (push_back (ar_result c bytes max_time_us global_wrong global_max_abs_error))
           else mret tt).

(** The communicator is destroyed, and with it the connections it has been
    given; its own sockets, threads and memory are in Construct. *)
Definition reset_communicator (s : bench T) : bench T :=
  drop HCommunicator (over_process (destroy_connections E closed) s).

(** [communicator.reset()], then all three calls, then their errors. *)
Definition ar_finish : PM (bench T) unit :=
  _ ← p_modify reset_communicator;
  _ ← release_if CStreamDestroy HStream;
  _ ← release_if (CFree HRecv) HRecv;
  _ ← release_if (CFree HSend) HSend;
  _ ← cuda CStreamDestroy "cudaStreamDestroy";
  _ ← cuda (CFree HRecv) "cudaFree(recv)";
  cuda (CFree HSend) "cudaFree(send)".

Definition ar_sizes (c : BenchConfig) : res (list Z) :=
  let sizes := make_sizes (min_bytes c) (max_bytes c) (factor c) in
  _ ← check (negb (bool_decide (sizes = []))) (InvalidArgument "invalid size range");
  _ ← check_all (fun bytes => bytes mod dtype_size (dtype c) =? 0)
        (fun _ => InvalidArgument "size must be divisible by dtype size") sizes;
  mret sizes.

(** [create_communicator_from_mpi]: the agreement of all ranks, then the part
    every process makes for itself.  Its listener is a local variable; the
    connections in memory pass to the communicator, or are destroyed. *)
Definition destroy_all (s : process) : process := destroy_connections E closed (destroy_listener s).
Definition create_communicator (create : SM process setup) : SM (bench T) setup :=
  su ← on_part b_process set_process create;
  _ ← unwinding (over_process destroy_all) (sm_local (construct B su));
  segment (_ ← p_modify (over_process destroy_listener); _ ← p_modify (hold HCommunicator); mret su).

Definition ar_run_typed (create : SM process setup) (c : BenchConfig) : SM (bench T) unit :=
  sizes ← sm_local (ar_sizes c);
  su ← create_communicator create;
  unwinding reset_communicator (
    _ ← sm_each (compare_gdr (edge_kinds (su_topology su)) "MPI_Allreduce(min GDR placement)" "MPI_Allreduce(max GDR placement)"
          (fun edge => "inconsistent GDR placement across MPI ranks for edge " +:+ pretty edge))
          (zrange kRanks);
    _ ← segment allocate;
    _ ← sm_each (ar_measure c) (imap pair sizes);
    segment ar_finish).

(** ** collective_bench.cu *)

Definition cb_args (collective : Collective) (d : DType) (R : RedOp) (rank_count : Z) : CollectiveArgs := {|
  a_send_buffer := send_at B; a_recv_buffer := recv_at B; a_stream := stream_at B;
  a_count := rank_count; a_dtype := d; a_redop := R |}.
Definition collective_of (x : Collective) : collective :=
  match x with ReduceScatter => CReduceScatter | AllGather => CAllGather end.

Definition cb_result (c : BenchConfig) (bytes : Z) (max_us : spec_float) (wrong : Z) (error : spec_float) :
    BenchResult :=
  let algbw := algbw_gbs bytes max_us in {|
  r_algo := "ring_simple"; r_dtype := dtype c; r_redop := redop c; r_transport := bc_transport B;
  r_bytes := bytes; r_count := bytes / dtype_size (dtype c); r_time_us := max_us;
  r_algbw := algbw;
  r_busbw := fmul64 algbw (fdiv64 (double_of_int (kRanks - 1)) (double_of_int kRanks));
  r_wrong := wrong; r_max_abs_error := error |}.

(** The input of a size; ReduceScatter has a block per rank. *)
Definition cb_prepare (x : Collective) (d : DType) (size : nat) (count rank_count : Z) : PM (bench T) unit :=
  let input_count := match x with ReduceScatter => count | AllGather => rank_count end in
  _ ← p_modify (record (EInput size d (element (T := T d) rank <$> zrange input_count)));
  cuda (CCopyIn size) "cudaMemcpyAsync(input)".

Definition cb_launch (x : Collective) (d : DType) (R : RedOp) (rank_count : Z) (size k : nat) : PM (bench T) unit :=
  launch_and_wait (collective_of x) (cb_args x d R rank_count) size k.

(** The body of the loop over the sizes, without the timing of single ranks
    that NANO_NCCL_BENCH_DIAG_RANK_TIMING prints. *)
Definition cb_measure (x : Collective) (c : BenchConfig) (ib : nat * Z) : SM (bench T) unit :=
  let '(size, bytes) := ib in
  let d := dtype c in
  let count := bytes / dtype_size d in
  let rank_count := count / kRanks in
  let out_count := match x with ReduceScatter => rank_count | AllGather => count end in
  let launch := cb_launch x d (redop c) rank_count size in
  _ ← segment (_ ← cb_prepare x d size count rank_count; warm_up launch (warmup_iters c));
  _ ← barrier "MPI_Barrier(start)";
  _ ← segment (timed launch (warmup_iters c) (iters c));
  max_us ← allreduce_max "MPI_Allreduce(time)" (local_time_us size (iters c));
  _ ← segment (_ ← cuda (CCopyOut size) "cudaMemcpy(output)"; p_modify (record (EOutput size)));
  let local := collective_check d x (redop c) rank rank_count out_count (recv_data B size d) in
  wrong ← allreduce_int Z.max "MPI_Allreduce(wrong)" local.1;
  max_error ← allreduce_max "MPI_Allreduce(error)" local.2;
  segment (if rank =? 0
           then p_modify (push_back (cb_result c bytes max_us wrong max_error))
           else mret tt).

(** The calls are checked one by one. *)
Definition cb_finish : PM (bench T) unit :=
  _ ← p_modify reset_communicator;
  _ ← release_if CStreamDestroy HStream; _ ← cuda CStreamDestroy "cudaStreamDestroy";
  _ ← release_if (CFree HRecv) HRecv; _ ← cuda (CFree HRecv) "cudaFree(recv)";
  _ ← release_if (CFree HSend) HSend; cuda (CFree HSend) "cudaFree(send)".

Definition cb_sizes (c : BenchConfig) : res (list Z) :=
  let sizes := make_sizes (min_bytes c) (max_bytes c) (factor c) in
  _ ← check (negb (bool_decide (sizes = []))) (InvalidArgument "invalid size range");
  _ ← check_all (fun bytes => bytes mod (dtype_size (dtype c) * kRanks) =? 0)
        (fun _ => InvalidArgument "bytes must be divisible by dtype size * nranks") sizes;
  mret sizes.

Definition cb_run_typed (create : SM process setup) (x : Collective) (c : BenchConfig) : SM (bench T) unit :=
  sizes ← sm_local (cb_sizes c);
  su ← create_communicator create;
  unwinding reset_communicator (
    _ ← sm_each (compare_gdr (edge_kinds (su_topology su)) "MPI_Allreduce(min GDR)" "MPI_Allreduce(max GDR)"
          (fun _ => "inconsistent GDR placement across ranks")) (zrange kRanks);
    _ ← segment allocate;
    _ ← sm_each (cb_measure x c) (imap pair sizes);
    segment cb_finish).

(** ** main *)

(** The device of the rank: the option, or the local rank of Open MPI. *)
Definition select_device (invalid : string) (M : machine) (c : BenchConfig) : res Z :=
  visible_devices ← match cudaGetDeviceCount M with
                    | inl n => Ok n
                    | inr text => Throw (RuntimeError ("cudaGetDeviceCount: " +:+ text))
                    end;
  let device := if device c <? 0
                then match local_rank_env B with None => 0 | Some text => atoi text end
                else device c in
  _ ← check (negb ((device <? 0) || (visible_devices <=? device)))
        (RuntimeError invalid);
  _ ← check (mpi_size M =? kRanks) (RuntimeError "MPI process count must match kRanks");
  mret device.

(** The exit code of the [try] block: rank 0 looks at the results. *)
Definition exit_code : SM (bench T) Z := fun s =>
  Done (s, Ok (if (rank =? 0) && existsb (fun r => negb (r_wrong r =? 0)) (b_results s) then 1 else 0)).

(** An exception is exit code 1; the ranks return the largest code. *)
Definition try_and_exit (m : SM (bench T) Z) : bench T -> spmd (bench T * Z) := fun s =>
  spmd_bind (m s) (fun o =>
    let exit_code := match o.2 with Ok code => code | Throw _ => 1 end in
    MPI_Allgather as_int PInt "MPI_Allreduce(exit code)" exit_code (fun l =>
    Done (o.1, reduce_in_order Z.max 0 l))).

Context (M : machine) (create : Z -> TransportKind -> SM process setup).

Definition ar_main_body (c : BenchConfig) : SM (bench T) Z :=
  device ← sm_local (select_device "benchmark selected an invalid CUDA device" M c);
  _ ← ar_run_typed (create device (transport c)) (set_device device c);
  exit_code.

Definition cb_main_body (x : Collective) (c : BenchConfig) : SM (bench T) Z :=
  device ← sm_local (select_device "invalid CUDA device" M c);
  _ ← cb_run_typed (create device (transport c)) x (set_device device c);
  exit_code.
End Rank.

(** [main]: wrong options are exit code 2 before MPI is initialised. *)
Definition all_reduce_main (args : list string) (B : bench_calls T) (rank : Z)
    (rdma_enabled : bool) (E : host) (closed : bool) (M : machine)
    (create : Z -> TransportKind -> SM process setup) : bench T -> spmd (bench T * Z) :=
  match AllReduceOptions.all_reduce_arguments args with
  | None => fun s => Done (s, 2)
  | Some (c, w) => try_and_exit (ar_main_body B rank w rdma_enabled E closed M create c)
  end.

Definition collective_main (args : list string) (B : bench_calls T) (rank : Z)
    (rdma_enabled : bool) (E : host) (closed : bool) (M : machine)
    (create : Z -> TransportKind -> SM process setup) : bench T -> spmd (bench T * Z) :=
  match CollectiveOptions.collective_arguments args with
  | None => fun s => Done (s, 2)
  | Some o => try_and_exit (cb_main_body B rank (CollectiveOptions.wait_mode o) rdma_enabled E closed M create
                (CollectiveOptions.collective o) (CollectiveOptions.cfg o))
  end.
End Programs.
