(* ===== verification/BenchAgree.v ===== *)
(** * The ranks of a benchmark agree

    When no call fails the ranks of a benchmark meet at every collective call,
    do the same launches in the same order, give back what they hold and exit with
    one code, which is zero when no rank found a wrong element.  With what the
    kernels leave (BenchKernels) and what the creation of a communicator does
    (MpiSetup) that is the whole program. *)

From Stdlib Require Import ZArith Lia Floats.SpecFloat.
From stdpp Require Import base option numbers tactics strings list pretty.
From S2P Require Import Prelude Types Resources Geometry Ring Kernels AllReduce Standalone Topology Control Communicator InterProcess MpiP2p P2pClose Agreement MpiSetup Floats Benchmarks BenchCheck BenchKernels BenchRun.

#[local] Open Scope Z_scope.

(** ** Agreement of the ranks *)

Section AgreementFacts.
Context `{BuildConfig} {T : DType -> Type} `{!forall d, Traits (T d)}.
Implicit Types (P : (Z -> bench T) -> Prop) (F : exn -> (Z -> bench T) -> Prop).

Abbreviation in_ring r := (0 <= r < kRanks).

Definition code_of (l : list BenchResult) : Z := if existsb (fun r => negb (r_wrong r =? 0)) l then 1 else 0.

Lemma code_zero rows : code_of rows = 0 <-> forall x, x ∈ rows -> r_wrong x = 0.
Proof.
  unfold code_of. induction rows as [|x l IH]; simpl; [split; [by intros _ ? ?%elem_of_nil|done]|].
  setoid_rewrite elem_of_cons. destruct (Z.eqb_spec (r_wrong x) 0) as [Hx|Hx]; simpl; [rewrite IH|];
    split; try naive_solver.
Qed.

(** The sum and the maximum of flags are zero exactly when all flags are. *)
Lemma flags_zero (op : Z -> Z -> Z) (f : Z -> Z) :
  (forall a b, 0 <= a -> 0 <= b -> 0 <= op a b /\ (op a b = 0 <-> a = 0 /\ b = 0)) ->
  (forall r, 0 <= f r) ->
  reduce_in_order op 0 (f <$> ranks) = 0 <-> forall r, in_ring r -> f r = 0.
Proof.
  intros Hop Hf. pose proof ranks_nonempty as Hne.
  assert (forall r, in_ring r <-> r ∈ ranks) as Hin by (intros r; symmetry; apply elem_of_zrange).
  setoid_rewrite Hin. clear Hin. destruct ranks as [|r0 l]; [done|]. clear Hne. simpl.
  assert (forall l x, 0 <= x -> foldl op x (f <$> l) = 0 <-> x = 0 /\ forall r, r ∈ l -> f r = 0) as Hg.
  { clear r0 l. induction l as [|r l IH]; intros x Hx; simpl.
    - split; [intros ->; split; [done|by intros ? ?%elem_of_nil]|by intros [-> _]].
    - destruct (Hop x (f r) Hx (Hf r)) as [Hpos Hz]. rewrite IH, Hz by done.
      setoid_rewrite elem_of_cons. naive_solver. }
  rewrite Hg by apply Hf. setoid_rewrite elem_of_cons. naive_solver.
Qed.

Lemma agrees_segment {A} P (m : Z -> PM (bench T) A) (a : Z -> A) F Q :
  (forall s, P s -> (forall r, in_ring r -> (m r (s r)).2 = Ok (a r)) /\
     Q a (fun r => (m r (s r)).1)) ->
  agrees 0 P (fun r => segment (m r)) F Q.
Proof.
  intros Hm s Hs. exists (fun r => (m r (s r)).1), (fun r => (m r (s r)).2).
  destruct (Hm s Hs) as [Hv HQ]. split; [|left; by exists a].
  unfold segment. rewrite <- run_done with (fuel := 0%nat). f_equal.
  apply list_fmap_ext. intros _ r _. by destruct (m r (s r)).
Qed.

Lemma agrees_sm_allreduce {B} P decode (encode : B -> payload) op none o (x : Z -> B) F Q :
  (forall b, decode (encode b) = b) ->
  (forall s, P s -> Q (fun _ => reduce_in_order op none (x <$> ranks)) s) ->
  agrees 1 P (fun r => sm_allreduce decode encode op none o (x r)) F Q.
Proof.
  intros Hd HQ. unfold sm_allreduce.
  apply (agrees_allgather 0 P decode encode o x (fun r l s => Done (s, Ok (reduce_in_order op none l)))); [done|].
  by apply (agrees_ret 0 P (fun _ => reduce_in_order op none (x <$> ranks))).
Qed.

Lemma agrees_barrier P o F Q :
  (forall s, P s -> Q (fun _ => tt) (fun r => record EBarrier (s r))) ->
  agrees 1 P (fun _ => barrier o) F Q.
Proof.
  intros HQ s Hs. exists (fun r => record EBarrier (s r)), (fun _ => Ok tt). split.
  - unfold barrier. rewrite run_barrier by apply ranks_nonempty. apply run_done.
  - left. exists (fun _ => tt). auto.
Qed.

(** A loop over the same list on all ranks, with an invariant of what it has
    done. *)
Lemma agrees_each {A} n (I : list A -> (Z -> bench T) -> Prop) (f : Z -> A -> SM (bench T) unit) F l :
  (forall pre x, agrees n (I pre) (fun r => f r x) F (fun _ => I (pre ++ [x]))) ->
  forall pre, agrees (n * length l) (I pre) (fun r => sm_each (f r) l) F (fun _ => I (pre ++ l)).
Proof.
  intros Hf. induction l as [|x l IH]; intros pre.
  - rewrite Nat.mul_0_r, app_nil_r. by apply (agrees_ret 0 (I pre) (fun _ => tt)).
  - simpl. rewrite Nat.mul_succ_r, Nat.add_comm.
    eapply (agrees_bind n (n * length l)); [apply Hf|]. intros a.
    replace (pre ++ x :: l) with ((pre ++ [x]) ++ l) by by rewrite <- app_assoc. apply IH.
Qed.

(** Log, holdings and results of all ranks. *)
Definition at_point (p : Z -> process) (L : Z -> list (event T)) (held : list bench_resource)
    (Rs : Z -> list BenchResult) (s : Z -> bench T) : Prop :=
  forall r, in_ring r -> b_log (s r) = L r /\ b_held (s r) = held /\ b_results (s r) = Rs r /\
    b_process (s r) = p r.

Definition extend (es : list (event T)) (s : bench T) : bench T :=
  Bench (b_process s) (b_log s ++ es) (b_held s) (b_results s).

(** Every call of a rank succeeds, and every wait ends without error. *)
Record calls_good (w : WaitMode) (B : bench_calls T) : Prop := {
  cg_construct su : construct B su = Ok tt;
  cg_status c : status B c = cudaSuccess;
  cg_submit size k : submit B size k = Ok tt;
  cg_wait size k : wait B w size k = Ok tt }.

Section Good.
Context (w : WaitMode) (B : bench_calls T) (HB : calls_good w B).

Lemma cuda_good c o (s : bench T) : cuda B c o s = (s, Ok tt).
Proof. unfold cuda, p_lift, cuda_check. by rewrite (cg_status w B HB). Qed.

Lemma launch_good c args size k s :
  launch_and_wait B w c args size k s = (extend [ELaunch c args] s, Ok tt).
Proof.
  unfold launch_and_wait, mbind, PM_bind, p_modify, p_lift.
  by rewrite (cg_submit w B HB), (cg_wait w B HB).
Qed.

Lemma extend_extend es es' s : extend es' (extend es s) = extend (es ++ es') s.
Proof. unfold extend. simpl. by rewrite app_assoc. Qed.
Lemma extend_nil s : extend [] s = s.
Proof. destruct s. unfold extend. simpl. by rewrite app_nil_r. Qed.

Lemma launches_good c args size l s :
  p_each (launch_and_wait B w c args size) l s = (extend (replicate (length l) (ELaunch c args)) s, Ok tt).
Proof.
  revert s. induction l as [|k l IH]; intros s; simpl; [by rewrite extend_nil|].
  unfold mbind, PM_bind at 1. rewrite launch_good, IH, extend_extend. done.
Qed.

(** What one size adds to the log. *)
Definition warm_log (c : collective) (args : CollectiveArgs) (warmup_iters : Z) : list (event T) :=
  replicate (Z.to_nat (warmup_iters - 1)) (ELaunch c args).
Definition timed_log (c : collective) (args : CollectiveArgs) (warmup_iters iters : Z) : list (event T) :=
  (if 0 <? warmup_iters then [ELaunch c args] else []) ++ [EClock] ++
  replicate (Z.to_nat iters) (ELaunch c args) ++ [EClock].

Lemma warm_up_good c args size n s :
  warm_up (launch_and_wait B w c args size) n s = (extend (warm_log c args n) s, Ok tt).
Proof. unfold warm_up. by rewrite launches_good, length_seq. Qed.

Lemma timed_good c args size n iters s :
  timed (launch_and_wait B w c args size) n iters s = (extend (timed_log c args n iters) s, Ok tt).
Proof.
  unfold timed, timed_log, mbind. destruct (0 <? n).
  - unfold PM_bind at 1. rewrite launch_good. unfold PM_bind at 1, p_modify at 1. cbn [fst snd].
    unfold PM_bind. rewrite launches_good, length_seq. unfold extend, record, p_modify. simpl. by rewrite <- !app_assoc.
  - unfold PM_bind at 1, mret, PM_ret. unfold PM_bind at 1, p_modify at 1. cbn [fst snd].
    unfold PM_bind. rewrite launches_good, length_seq. unfold extend, record, p_modify. simpl. by rewrite <- !app_assoc.
Qed.
End Good.

(** The results a rank appends. *)
Definition pushed (l : list BenchResult) (s : bench T) : bench T :=
  Bench (b_process s) (b_log s) (b_held s) (b_results s ++ l).

Lemma extend_segment {A} p L held Rs (m : Z -> PM (bench T) A) a es F :
  (forall r s, in_ring r -> m r s = (extend (es r) s, Ok a)) ->
  agrees 0 (at_point p L held Rs) (fun r => segment (m r)) F
    (fun _ => at_point p (fun r => L r ++ es r) held Rs).
Proof.
  intros Hm. apply (agrees_segment _ m (fun _ => a)). intros s Hs.
  split; intros r Hr; rewrite Hm by done; [done|]. destruct (Hs r Hr) as (HL & Hh & HR & Hpr).
  unfold extend. simpl. by rewrite HL.
Qed.

(** One size: four meetings. *)
Lemma measure_agrees {op} p L held Rs (m1 m2 m3 : Z -> PM (bench T) unit) (m4 : Z -> spec_float -> Z -> spec_float -> PM (bench T) unit)
    o0 o1 o2 o3 (time error : Z -> spec_float) (wrong : Z -> Z) e1 e2 e3 rs F :
  (forall r s, in_ring r -> m1 r s = (extend (e1 r) s, Ok tt)) ->
  (forall r s, in_ring r -> m2 r s = (extend (e2 r) s, Ok tt)) ->
  (forall r s, in_ring r -> m3 r s = (extend (e3 r) s, Ok tt)) ->
  (forall r t n e s, in_ring r -> m4 r t n e s = (pushed (rs r t n e) s, Ok tt)) ->
  agrees 4 (at_point p L held Rs) (fun r =>
    _ ← segment (m1 r); _ ← barrier o0; _ ← segment (m2 r);
    t ← allreduce_max o1 (time r); _ ← segment (m3 r);
    n ← allreduce_int op o2 (wrong r); e ← allreduce_max o3 (error r);
    segment (m4 r t n e)) F
  (fun _ => at_point p (fun r => L r ++ e1 r ++ [EBarrier] ++ e2 r ++ e3 r) held
     (fun r => Rs r ++ rs r (reduce_in_order mpi_max S754_nan (time <$> ranks))
        (reduce_in_order op 0 (wrong <$> ranks)) (reduce_in_order mpi_max S754_nan (error <$> ranks)))).
Proof.
  intros H1 H2 H3 H4.
  eapply (agrees_bind 0 4); [by apply (extend_segment p L held Rs m1 tt e1)|]. intros u. cbn beta. clear u.
  apply (agrees_bind 1 3 _ _ _ _ (fun _ => at_point p (fun r => (L r ++ e1 r) ++ [EBarrier]) held Rs)).
  { apply agrees_barrier. intros s Hs r Hr. destruct (Hs r Hr) as (HL & ? & ? & ?). unfold record. simpl. by rewrite HL. }
  intros u. cbn beta. clear u. eapply (agrees_bind 0 3); [by apply (extend_segment p _ held Rs m2 tt e2)|]. intros u. cbn beta. clear u.
  eapply (agrees_bind 1 2).
  { apply (agrees_sm_allreduce _ as_float PFloat mpi_max S754_nan o1 time _
      (fun a s => a = (fun _ => reduce_in_order mpi_max S754_nan (time <$> ranks)) /\
         at_point p (fun r => ((L r ++ e1 r) ++ [EBarrier]) ++ e2 r) held Rs s)); [done|]. intros s Hs. by split. }
  intros a. apply agrees_pure. intros ->.
  eapply (agrees_bind 0 2); [by apply (extend_segment p _ held Rs m3 tt e3)|]. intros u. cbn beta. clear u.
  eapply (agrees_bind 1 1).
  { apply (agrees_sm_allreduce _ as_int PInt op 0 o2 wrong _
      (fun a s => a = (fun _ => reduce_in_order op 0 (wrong <$> ranks)) /\
         at_point p (fun r => (((L r ++ e1 r) ++ [EBarrier]) ++ e2 r) ++ e3 r) held Rs s)); [done|]. intros s Hs. by split. }
  intros a. apply agrees_pure. intros ->.
  eapply (agrees_bind 1 0).
  { apply (agrees_sm_allreduce _ as_float PFloat mpi_max S754_nan o3 error _
      (fun a s => a = (fun _ => reduce_in_order mpi_max S754_nan (error <$> ranks)) /\
         at_point p (fun r => (((L r ++ e1 r) ++ [EBarrier]) ++ e2 r) ++ e3 r) held Rs s)); [done|]. intros s Hs. by split. }
  intros a. apply agrees_pure. intros ->.
  apply (agrees_segment _ _ (fun _ => tt)). intros s Hs.
  split; intros r Hr; rewrite H4 by done; [done|]. destruct (Hs r Hr) as (HL & Hh & HR & Hpr).
  unfold pushed. simpl. rewrite HL, HR, <- !app_assoc. done.
Qed.

(** *** The phases when no call fails *)

Context (w : WaitMode) (B : Z -> bench_calls T).
Context (HB : forall r, in_ring r -> calls_good w (B r)).
Context (rdma_enabled : bool) (E : Z -> host) (closed : Z -> bool).

Lemma reduce_const {X} (op : X -> X -> X) none x (l : list Z) :
  (forall y, op y y = y) -> l <> [] -> reduce_in_order op none ((fun _ => x) <$> l) = x.
Proof.
  intros Hop Hl. destruct l as [|r l]; [done|]. simpl. clear Hl.
  induction l as [|r' l IH]; simpl; [done|]. by rewrite Hop.
Qed.

(** The ranks use GPUDirect RDMA for different edges. *)
Definition uses_gdr (kinds : list TransportKind) (r e : Z) : bool := edge_uses_gdr (B r) rdma_enabled kinds e.
Definition gdr_same (kinds : list TransportKind) : Prop :=
  forall e r, in_ring e -> in_ring r -> uses_gdr kinds r e = uses_gdr kinds 0 e.
Definition gdr_differ (kinds : list TransportKind) : Prop :=
  exists e r r', in_ring e /\ in_ring r /\ in_ring r' /\ uses_gdr kinds r e <> uses_gdr kinds r' e.

Lemma extremes_in (op : Z -> Z -> Z) x l : (forall a b, op a b = a \/ op a b = b) ->
  foldl op x l = x \/ foldl op x l ∈ l.
Proof.
  intros Hop. revert x. induction l as [|y l IH]; intros x; simpl; [by left|].
  destruct (IH (op x y)) as [Heq|Hin]; [|right; by right].
  rewrite Heq. destruct (Hop x y) as [-> | ->]; [by left|right; by left].
Qed.

Lemma extremes_bound x l y : y = x \/ y ∈ l -> foldl Z.min x l <= y <= foldl Z.max x l.
Proof.
  revert x y. induction l as [|z l IH]; intros x y Hy; simpl.
  - destruct Hy as [->|Hy]; [lia|by apply elem_of_nil in Hy].
  - rewrite elem_of_cons in Hy. destruct Hy as [->|[->|Hy]].
    + pose proof (IH (Z.min x z) (Z.min x z) (or_introl eq_refl)).
      pose proof (IH (Z.max x z) (Z.max x z) (or_introl eq_refl)). lia.
    + pose proof (IH (Z.min x z) (Z.min x z) (or_introl eq_refl)).
      pose proof (IH (Z.max x z) (Z.max x z) (or_introl eq_refl)). lia.
    + pose proof (IH (Z.min x z) y (or_intror Hy)). pose proof (IH (Z.max x z) y (or_intror Hy)). lia.
Qed.

Lemma extremes_eq x l : foldl Z.min x l = foldl Z.max x l <-> forall y, y ∈ l -> y = x.
Proof.
  split.
  - intros Heq y Hy. pose proof (extremes_bound x l x (or_introl eq_refl)).
    pose proof (extremes_bound x l y (or_intror Hy)). lia.
  - intros Hall. assert (forall z, z = x \/ z ∈ l -> z = x) as Hx by (intros z [->|?]; [done|by apply Hall]).
    rewrite (Hx _ (extremes_in Z.min x l ltac:(intros; lia))). symmetry.
    apply Hx, extremes_in. intros; lia.
Qed.

(** Minimum and maximum of the flags are equal exactly when all flags are. *)
Lemma flags_agree (f : Z -> bool) :
  reduce_in_order Z.min 0 ((fun r => if f r then 1 else 0) <$> ranks) =
  reduce_in_order Z.max 0 ((fun r => if f r then 1 else 0) <$> ranks) <->
  forall r, in_ring r -> f r = f 0.
Proof.
  pose proof kRanks_pos as Hk.
  assert (exists l, zrange kRanks = 0 :: l) as (l & Heq).
  { unfold zrange. rewrite seqZ_cons by lia. by eexists. }
  assert (forall r, in_ring r <-> r = 0 \/ r ∈ l) as Hin.
  { intros r. rewrite <- elem_of_zrange, Heq. apply elem_of_cons. }
  rewrite Heq. simpl. rewrite extremes_eq. setoid_rewrite Hin. split.
  - intros Hall r [->|Hr]; [done|].
    specialize (Hall _ (list_elem_of_fmap_2 (fun r => if f r then 1 else 0) _ _ Hr)).
    cbv beta in Hall. by destruct (f r), (f 0).
  - intros Hall y (r & -> & Hr)%list_elem_of_fmap. by rewrite (Hall r (or_intror Hr)).
Qed.

(** The ranks compare an edge, and go on or throw alike. *)
Lemma gdr_agrees kinds o1 o2 message e P : in_ring e ->
  agrees 2 P (fun r => compare_gdr (B r) rdma_enabled kinds o1 o2 message e)
    (fun _ s => gdr_differ kinds /\ P s)
    (fun _ s => (forall r, in_ring r -> uses_gdr kinds r e = uses_gdr kinds 0 e) /\ P s).
Proof.
  intros He. unfold compare_gdr. set (flag r := if uses_gdr kinds r e then 1 else 0).
  eapply (agrees_bind 1 1).
  { apply (agrees_sm_allreduce P as_int PInt Z.min 0 o1 flag _
      (fun a s => a = (fun _ => reduce_in_order Z.min 0 (flag <$> ranks)) /\ P s)); [done|]. intros s Hs. by split. }
  intros a. apply agrees_pure. intros ->. eapply (agrees_bind 1 0).
  { apply (agrees_sm_allreduce P as_int PInt Z.max 0 o2 flag _
      (fun a s => a = (fun _ => reduce_in_order Z.max 0 (flag <$> ranks)) /\ P s)); [done|]. intros s Hs. by split. }
  intros a. apply agrees_pure. intros ->.
  apply (agrees_done 0 P (fun _ s => s) (fun _ => check _ _)). intros s Hs.
  pose proof (flags_agree (fun r => uses_gdr kinds r e)) as Hf. fold flag in Hf.
  unfold check. destruct (Z.eqb_spec (reduce_in_order Z.min 0 (flag <$> ranks)) (reduce_in_order Z.max 0 (flag <$> ranks)))
    as [Heq|Hne].
  - left. exists (fun _ => tt). split; [done|]. split; [by apply Hf|done].
  - right. eexists. split; [done|]. split; [|done].
    destruct (zrange_or kRanks (fun r => uses_gdr kinds r e = uses_gdr kinds 0 e) (gdr_differ kinds))
      as [Hall|?]; [|by apply Hf in Hall|done].
    intros r Hr. destruct (decide (uses_gdr kinds r e = uses_gdr kinds 0 e)); [by left|right].
    exists e, r, 0. pose proof kRanks_pos. split_and!; (done || lia).
Qed.

(** A loop over the same list on all ranks that proves something of each
    element. *)
Lemma agrees_each_pure {A} n (P : (Z -> bench T) -> Prop) (D : A -> Prop) (f : Z -> A -> SM (bench T) unit) F l :
  (forall x, x ∈ l -> agrees n P (fun r => f r x) F (fun _ s => D x /\ P s)) ->
  agrees (n * length l) P (fun r => sm_each (f r) l) F (fun _ s => (forall x, x ∈ l -> D x) /\ P s).
Proof.
  intros Hf. induction l as [|x l IH].
  - rewrite Nat.mul_0_r. apply (agrees_ret 0 P (fun _ => tt)). intros s Hs. split; [|done]. by intros ? ?%elem_of_nil.
  - simpl. rewrite Nat.mul_succ_r, Nat.add_comm.
    eapply (agrees_bind n (n * length l)); [apply Hf; left|]. intros a. apply agrees_pure. intros Hx.
    eapply agrees_conseq; [apply IH; intros y Hy; apply Hf; by right|lia|done|done|].
    intros a' s [Hl Hs]. split; [|done]. by intros y [->|Hy]%elem_of_cons; [|apply Hl].
Qed.

Lemma gdr_all_agrees kinds o1 o2 message P :
  agrees (2 * Z.to_nat kRanks) P (fun r => sm_each (compare_gdr (B r) rdma_enabled kinds o1 o2 message) (zrange kRanks))
    (fun _ s => gdr_differ kinds /\ P s) (fun _ s => gdr_same kinds /\ P s).
Proof.
  replace (Z.to_nat kRanks) with (length (zrange kRanks)) by apply length_seqZ.
  eapply agrees_conseq; [apply (agrees_each_pure 2 P
    (fun e => forall r, in_ring r -> uses_gdr kinds r e = uses_gdr kinds 0 e)
    (fun r => compare_gdr (B r) rdma_enabled kinds o1 o2 message)
    (fun _ s => gdr_differ kinds /\ P s))|lia|done|done|].
  - intros e He%elem_of_zrange. by apply gdr_agrees.
  - intros a s [Hall Hs]. split; [|done]. intros e r He Hr. apply Hall; [by apply elem_of_zrange|done].
Qed.

Definition buffers : list bench_resource := [HStream; HRecv; HSend; HCommunicator].

Lemma allocate_agrees p L Rs F :
  agrees 0 (at_point p L [HCommunicator] Rs) (fun r => segment (allocate (B r))) F
    (fun _ => at_point p L buffers Rs).
Proof.
  assert (forall r s, in_ring r -> allocate (B r) s = (hold HStream (hold HRecv (hold HSend s)), Ok tt)) as Ha.
  { intros r s Hr. unfold allocate, mbind, PM_bind. rewrite !(cuda_good w (B r) (HB r Hr)).
    unfold p_modify. by rewrite !(cuda_good w (B r) (HB r Hr)). }
  apply (agrees_segment _ _ (fun _ => tt)). intros s Hs.
  split; intros r Hr; rewrite Ha by done; [done|]. by destruct (Hs r Hr) as (HL & Hh & HR & Hpr); simpl; rewrite Hh.
Qed.

(** The last calls of both programs give everything back. *)
Definition torn_down (p : Z -> process) (r : Z) : process := destroy_connections (E r) (closed r) (p r).
Definition finishes (m : Z -> PM (bench T) unit) : Prop := forall r s, in_ring r ->
  b_held s = buffers ->
  m r s = (Bench (destroy_connections (E r) (closed r) (b_process s)) (b_log s) [] (b_results s), Ok tt).

Lemma release_good r c x s : in_ring r -> release_if (B r) c x s = (drop x s, Ok tt).
Proof. intros Hr. unfold release_if. by rewrite (cg_status w (B r) (HB r Hr)). Qed.

Lemma ar_finishes : finishes (fun r => ar_finish (B r) (E r) (closed r)).
Proof.
  intros r s Hr Hh. unfold ar_finish, mbind, PM_bind, p_modify.
  rewrite !release_good, !(cuda_good w (B r) (HB r Hr)) by done. unfold drop. simpl. by rewrite Hh.
Qed.
Lemma cb_finishes : finishes (fun r => cb_finish (B r) (E r) (closed r)).
Proof.
  intros r s Hr Hh. unfold cb_finish, mbind, PM_bind, p_modify.
  repeat (rewrite release_good by done; cbn [fst snd]; rewrite (cuda_good w (B r) (HB r Hr))).
  unfold drop. simpl. by rewrite Hh.
Qed.

Lemma finish_agrees m p L Rs F : finishes m ->
  agrees 0 (at_point p L buffers Rs) (fun r => segment (m r)) F (fun _ => at_point (torn_down p) L [] Rs).
Proof.
  intros Hm. apply (agrees_segment _ _ (fun _ => tt)). intros s Hs.
  split; intros r Hr; destruct (Hs r Hr) as (HL & Hh & HR & Hpr); rewrite (Hm r _ Hr Hh); [done|].
  unfold torn_down. simpl. by rewrite HL, HR, Hpr.
Qed.

(** *** One size of each program *)

Definition first_of_size {A} (rank : Z) (x : A) : list A := if rank =? 0 then [x] else [].

Lemma push_if r x s :
  (if r =? 0 then p_modify (push_back x) else mret tt) s = (pushed (first_of_size r x) s, Ok tt).
Proof.
  unfold first_of_size. destruct (r =? 0); [done|]. unfold pushed. rewrite app_nil_r. by destruct s.
Qed.

Definition size_log (launch : event T) (input : event T) (size : nat) (warmup_iters iters : Z) : list (event T) :=
  (input :: replicate (Z.to_nat (warmup_iters - 1)) launch) ++ [EBarrier] ++
  ((if 0 <? warmup_iters then [launch] else []) ++ [EClock] ++ replicate (Z.to_nat iters) launch ++ [EClock]) ++
  [EOutput size].

Definition slowest (size : nat) (iters : Z) : spec_float :=
  reduce_in_order mpi_max S754_nan ((fun r => local_time_us (B r) size iters) <$> ranks).

Section OneSize.
Context (c : BenchConfig) (size : nat) (bytes : Z).
Abbreviation d := (dtype c).
Abbreviation count := (bytes / dtype_size d).

Definition ar_log (r : Z) : list (event T) :=
  size_log (ELaunch CAllReduce (ar_args (B r) d (redop c) count))
    (EInput size d (replicate (Z.to_nat count) (rank_value (T := T d) r))) size (warmup_iters c) (iters c).
Definition ar_local (r : Z) : Z * spec_float :=
  all_reduce_check d (redop c) (recv_data (B r) size d <$> zrange count).
Definition ar_row : BenchResult :=
  ar_result (B 0) c bytes (slowest size (iters c))
    (reduce_in_order Z.add 0 ((fun r => (ar_local r).1) <$> ranks))
    (reduce_in_order mpi_max S754_nan ((fun r => (ar_local r).2) <$> ranks)).

Context (x : Collective).
Abbreviation rank_count := (count / kRanks).
Definition cb_log (r : Z) : list (event T) :=
  size_log (ELaunch (collective_of x) (cb_args (B r) x d (redop c) rank_count))
    (EInput size d (element (T := T d) r <$>
       zrange (match x with ReduceScatter => count | AllGather => rank_count end)))
    size (warmup_iters c) (iters c).
Definition cb_local (r : Z) : Z * spec_float :=
  collective_check d x (redop c) r rank_count
    (match x with ReduceScatter => rank_count | AllGather => count end) (recv_data (B r) size d).
Definition cb_row : BenchResult :=
  cb_result (B 0) c bytes (slowest size (iters c))
    (reduce_in_order Z.max 0 ((fun r => (cb_local r).1) <$> ranks))
    (reduce_in_order mpi_max S754_nan ((fun r => (cb_local r).2) <$> ranks)).

Lemma first_row {A} (f : bench_calls T -> A) r : first_of_size r (f (B r)) = first_of_size r (f (B 0)).
Proof. unfold first_of_size. by destruct (Z.eqb_spec r 0) as [->|]. Qed.

Lemma input_good r e m es s : in_ring r -> (forall s, m s = (extend es s, Ok tt)) ->
  (_ ← p_modify (record e); _ ← cuda (B r) (CCopyIn size) "cudaMemcpyAsync(input)"; m) s =
  (extend (e :: es) s, Ok tt).
Proof.
  intros Hr Hm. unfold mbind, PM_bind, p_modify. rewrite (cuda_good w (B r) (HB r Hr)), Hm.
  unfold extend, record. simpl. by rewrite <- app_assoc.
Qed.

Lemma output_good r s : in_ring r ->
  (_ ← cuda (B r) (CCopyOut size) "cudaMemcpy(output)"; p_modify (record (EOutput size))) s =
  (extend [EOutput size] s, Ok tt).
Proof. intros Hr. unfold mbind, PM_bind. by rewrite (cuda_good w (B r) (HB r Hr)). Qed.

Lemma ar_measure_agrees p L Rs F :
  agrees 4 (at_point p L buffers Rs) (fun r => ar_measure (B r) r w c (size, bytes)) F
    (fun _ => at_point p (fun r => L r ++ ar_log r) buffers (fun r => Rs r ++ first_of_size r ar_row)).
Proof.
  eapply agrees_conseq; [apply (measure_agrees (op := Z.add) p L buffers Rs) with
    (e1 := fun r => EInput size d (replicate (Z.to_nat count) (rank_value (T := T d) r)) ::
       warm_log CAllReduce (ar_args (B r) d (redop c) count) (warmup_iters c))
    (e2 := fun r => timed_log CAllReduce (ar_args (B r) d (redop c) count) (warmup_iters c) (iters c))
    (e3 := fun _ => [EOutput size])
    (rs := fun r t n e => first_of_size r (ar_result (B r) c bytes t n e))|lia|done|done|].
  - intros r s Hr. apply input_good; [done|]. intros s'. apply (warm_up_good w (B r) (HB r Hr)).
  - intros r s Hr. apply (timed_good w (B r) (HB r Hr)).
  - intros r s Hr. by apply output_good.
  - intros r t n e s Hr. apply push_if.
  - intros a s Hs r Hr. destruct (Hs r Hr) as (HL & Hh & HR & Hpr). split_and!; [exact HL|done| |exact Hpr].
    rewrite HR. f_equal. apply (first_row (fun b => ar_result b c bytes _ _ _)).
Qed.

Lemma prepare_good r m es s : in_ring r -> (forall s, m s = (extend es s, Ok tt)) ->
  (_ ← cb_prepare (B r) r x d size count rank_count; m) s =
  (extend (EInput size d (element (T := T d) r <$>
     zrange (match x with ReduceScatter => count | AllGather => rank_count end)) :: es) s, Ok tt).
Proof.
  intros Hr Hm. unfold cb_prepare, mbind, PM_bind, p_modify. rewrite (cuda_good w (B r) (HB r Hr)), Hm.
  unfold extend, record. simpl. by rewrite <- app_assoc.
Qed.

Lemma cb_measure_agrees p L Rs F :
  agrees 4 (at_point p L buffers Rs) (fun r => cb_measure (B r) r w x c (size, bytes)) F
    (fun _ => at_point p (fun r => L r ++ cb_log r) buffers (fun r => Rs r ++ first_of_size r cb_row)).
Proof.
  eapply agrees_conseq; [apply (measure_agrees (op := Z.max) p L buffers Rs) with
    (e1 := fun r => EInput size d (element (T := T d) r <$>
         zrange (match x with ReduceScatter => count | AllGather => rank_count end)) ::
       warm_log (collective_of x) (cb_args (B r) x d (redop c) rank_count) (warmup_iters c))
    (e2 := fun r => timed_log (collective_of x) (cb_args (B r) x d (redop c) rank_count) (warmup_iters c) (iters c))
    (e3 := fun _ => [EOutput size])
    (rs := fun r t n e => first_of_size r (cb_result (B r) c bytes t n e))|lia|done|done|].
  - intros r s Hr. apply prepare_good; [done|]. intros s'. apply (warm_up_good w (B r) (HB r Hr)).
  - intros r s Hr. apply (timed_good w (B r) (HB r Hr)).
  - intros r s Hr. by apply output_good.
  - intros r t n e s Hr. apply push_if.
  - intros a s Hs r Hr. destruct (Hs r Hr) as (HL & Hh & HR & Hpr). split_and!; [exact HL|done| |exact Hpr].
    rewrite HR. f_equal. apply (first_row (fun b => cb_result b c bytes _ _ _)).
Qed.
End OneSize.

(** *** From the creation of the communicator to the exit code *)

Section WholeRun.
Context (n : nat) (Pc : (Z -> process) -> Prop) (create : Z -> SM process setup).
Context (Fc : exn -> (Z -> process) -> Prop) (Qc : (Z -> setup) -> (Z -> process) -> Prop).
Context (Hcreate : agrees n Pc create Fc Qc).
Context (Hkinds : forall a p, Qc a p -> exists kinds,
  forall r, in_ring r -> edge_kinds (su_topology (a r)) = kinds).

Abbreviation nothing := (fun _ => []).
Definition untouched (s : Z -> bench T) : Prop := at_point (fun r => b_process (s r)) nothing [] nothing s.
Definition start (s : Z -> bench T) : Prop := Pc (fun r => b_process (s r)) /\ untouched s.
(** The creation failed on all ranks. *)
Definition not_created (e : exn) (s : Z -> bench T) : Prop :=
  Fc e (fun r => b_process (s r)) /\ untouched s.

(** A communicator exists, and the listener is closed. *)
Definition communicating (kinds : list TransportKind) (p : Z -> process) (a : Z -> setup) : Prop :=
  Qc a p /\ forall r, in_ring r -> edge_kinds (su_topology (a r)) = kinds.
Definition listener_closed (p : Z -> process) (r : Z) : process := destroy_listener (p r).

Lemma create_agrees :
  agrees n start (fun r => create_communicator (B r) (E r) (closed r) (create r)) not_created
    (fun a s => exists kinds p, communicating kinds p a /\
       at_point (listener_closed p) nothing [HCommunicator] nothing s).
Proof.
  rewrite <- (Nat.add_0_r n). unfold create_communicator.
  apply (agrees_bind n 0 start (fun r => on_part b_process set_process (create r)) _ not_created
    (fun a s => exists p, Qc a p /\ at_point p nothing [] nothing s)).
  - apply agrees_part. intros s [Hp Hs].
    destruct (Hcreate (fun r => b_process (s r)) Hp) as (s' & out & Hrun & Hout).
    exists (fun r => (s' r, out r)). split; [exact Hrun|].
    assert (forall r, in_ring r -> b_log (s r) = [] /\ b_held (s r) = [] /\ b_results (s r) = []) as Hn.
    { intros r Hr. by destruct (Hs r Hr) as (? & ? & ? & _). }
    destruct Hout as [(a & Ha & HQ)|(e & He & HF)]; [left; exists a|right; exists e]; (split; [done|]).
    + exists s'. split; [done|]. intros r Hr. by destruct (Hn r Hr) as (? & ? & ?).
    + split; [exact HF|]. intros r Hr. by destruct (Hn r Hr) as (? & ? & ?).
  - intros a. apply agrees_exists. intros p. apply agrees_pure. intros HQ.
    eapply agrees_ext.
    { intros r s Hr. rewrite (cg_construct w (B r) (HB r Hr)). reflexivity. }
    apply (agrees_segment _ (fun r => _ ← p_modify (over_process destroy_listener); _ ← p_modify (hold HCommunicator); mret (a r)) a).
    intros s Hs. split; [done|]. destruct (Hkinds a p HQ) as [kinds Hk]. exists kinds, p. split; [done|].
    intros r Hr. destruct (Hs r Hr) as (HL & Hh & HR & Hpr). simpl. unfold listener_closed. by rewrite HL, Hh, HR, Hpr.
Qed.

Context (measure : Z -> nat * Z -> SM (bench T) unit) (slog : Z -> nat * Z -> list (event T)).
Context (row : nat * Z -> BenchResult) (finish : Z -> PM (bench T) unit) (Hfinish : finishes finish).
Context (Hmeasure : forall p L Rs ib F, agrees 4 (at_point p L buffers Rs) (fun r => measure r ib) F
  (fun _ => at_point p (fun r => L r ++ slog r ib) buffers (fun r => Rs r ++ first_of_size r (row ib)))).

(** The log and the results after some sizes. *)
Definition logged (l : list (nat * Z)) (r : Z) : list (event T) := l ≫= slog r.
Definition rows (l : list (nat * Z)) (r : Z) : list BenchResult := l ≫= (fun ib => first_of_size r (row ib)).

Lemma measure_all_agrees p l F :
  agrees (4 * length l) (at_point p nothing buffers nothing) (fun r => sm_each (measure r) l) F
    (fun _ => at_point p (logged l) buffers (rows l)).
Proof.
  apply (agrees_each 4 (fun pre => at_point p (logged pre) buffers (rows pre)) measure F l) with (pre := []).
  intros pre x. eapply agrees_conseq; [apply (Hmeasure p (logged pre) (rows pre) x F)|lia|done|done|].
  intros a s Hs r Hr. destruct (Hs r Hr) as (-> & -> & -> & ->). unfold logged, rows.
  rewrite !bind_app, !bind_singleton. done.
Qed.

(** A run fails on all ranks in the creation, or in the comparison of the
    placements, the communicator destroyed. *)
Definition run_fails (e : exn) (s : Z -> bench T) : Prop :=
  not_created e s \/
  exists kinds p a, communicating kinds p a /\ gdr_differ kinds /\
    at_point (torn_down (listener_closed p)) nothing [] nothing s.

Lemma reset_at_point p L held Rs s : at_point p L (HCommunicator :: held) Rs s ->
  at_point (torn_down p) L held Rs (fun r => reset_communicator (E r) (closed r) (s r)).
Proof.
  intros Hs r Hr. destruct (Hs r Hr) as (HL & Hh & HR & Hpr). unfold reset_communicator, drop, torn_down. simpl.
  by rewrite HL, Hh, HR, Hpr.
Qed.

Lemma run_agrees o1 o2 message sizes :
  agrees (n + (2 * Z.to_nat kRanks + 4 * length sizes)) start (fun r =>
    su ← create_communicator (B r) (E r) (closed r) (create r);
    unwinding (reset_communicator (E r) (closed r)) (
      _ ← sm_each (compare_gdr (B r) rdma_enabled (edge_kinds (su_topology su)) o1 o2 message) (zrange kRanks);
      _ ← segment (allocate (B r));
      _ ← sm_each (measure r) (imap pair sizes);
      segment (finish r))) run_fails
  (fun _ s => exists kinds p a, communicating kinds p a /\ gdr_same kinds /\
     at_point (torn_down (listener_closed p)) (logged (imap pair sizes)) [] (rows (imap pair sizes)) s).
Proof.
  eapply (agrees_bind n).
  { eapply agrees_conseq; [apply create_agrees|lia|done|by left|done]. }
  intros a. apply agrees_exists. intros kinds. apply agrees_exists. intros p. apply agrees_pure. intros Hc.
  eapply agrees_ext.
  { intros r s Hr. rewrite (proj2 Hc r Hr). reflexivity. }
  apply (agrees_unwind _ _ _ (fun r => reset_communicator (E r) (closed r)) (fun _ s => gdr_differ kinds /\
    at_point (listener_closed p) nothing [HCommunicator] nothing s)).
  2: { intros e s [Hg Hs]. right. exists kinds, p, a. split_and!; try done. by apply reset_at_point. }
  eapply (agrees_bind (2 * Z.to_nat kRanks) (4 * length sizes)); [apply gdr_all_agrees|].
  intros u. cbn beta. clear u. apply agrees_pure. intros Hg.
  eapply (agrees_bind 0 (4 * length sizes)); [apply allocate_agrees|]. intros u. cbn beta. clear u.
  rewrite <- (Nat.add_0_r (4 * length sizes)).
  rewrite <- (length_imap pair sizes). eapply (agrees_bind (4 * length (imap pair sizes)) 0).
  { apply measure_all_agrees. }
  intros u. cbn beta. clear u. eapply agrees_conseq; [apply (finish_agrees finish (listener_closed p) (logged (imap pair sizes)) (rows (imap pair sizes)) (fun _ _ => False) Hfinish)|lia|done|done|].
  intros u s Hs. by exists kinds, p, a.
Qed.
End WholeRun.

Lemma max_of_first code : 0 <= code ->
  reduce_in_order Z.max 0 ((fun r => if r =? 0 then code else 0) <$> ranks) = code.
Proof.
  intros Hcode. pose proof kRanks_pos. unfold zrange. rewrite seqZ_cons by lia. simpl.
  assert (forall l, (forall r, r ∈ l -> r <> 0) ->
    foldl Z.max code ((fun r => if r =? 0 then code else 0) <$> l) = code) as Hl.
  { induction l as [|r l IH]; intros Hl; simpl; [done|].
    rewrite (proj2 (Z.eqb_neq r 0)) by (apply Hl; by left).
    rewrite Z.max_l by done. apply IH. intros r' Hr'. apply Hl. by right. }
  apply Hl. intros r Hr%elem_of_seqZ. lia.
Qed.

(** The ranks exit with the code of rank 0, or all with 1. *)
Lemma exit_agrees n P (m : Z -> SM (bench T) Z) F (Q : (Z -> bench T) -> Prop) (code : Z) s :
  0 <= code <= 1 ->
  agrees n P m F (fun a s => (forall r, in_ring r -> a r = if r =? 0 then code else 0) /\ Q s) ->
  P s -> exists s' c, run_ranks (n + 1) ((fun r => try_and_exit (m r) (s r)) <$> ranks) =
      Some ((fun r => (s' r, c)) <$> ranks) /\
    ((c = code /\ Q s') \/ (c = 1 /\ exists e, F e s')).
Proof.
  intros Hcode Hm Hs. destruct (Hm s Hs) as (s' & out & Hrun & Hout). unfold try_and_exit.
  set (mine r := match out r with Ok code => code | Throw _ => 1 end).
  exists s', (reduce_in_order Z.max 0 (mine <$> ranks)). split.
  - apply (run_bind n 1 _ _ _ _ _ ranks_nonempty Hrun). cbn beta.
    apply eq_trans with (2 := run_done 0 _ ranks).
    by apply (run_allgather 0 as_int PInt "MPI_Allreduce(exit code)" mine
      (fun r l => Done (s' r, reduce_in_order Z.max 0 l)) ranks ranks_nonempty).
  - pose proof kRanks_pos as Hk. destruct Hout as [(a & Ha & Hc & HQ)|(e & He & HF)]; [left|right].
    + split; [|done]. rewrite (list_fmap_ext _ (fun r => if r =? 0 then code else 0)).
      2: { intros i r Hi%in_ranks. unfold mine. by rewrite Ha, Hc. }
      apply max_of_first. lia.
    + split; [|by exists e]. rewrite (list_fmap_ext _ (fun _ => 1)).
      2: { intros i r Hi%in_ranks. unfold mine. by rewrite He. }
      apply reduce_const; [apply Z.max_id|apply ranks_nonempty].
Qed.

Lemma exit_code_agrees p L Rs F :
  agrees 0 (at_point p L [] Rs) (fun r => exit_code r) F
    (fun a s => (forall r, in_ring r -> a r = if r =? 0 then code_of (Rs 0) else 0) /\ at_point p L [] Rs s).
Proof.
  apply (agrees_segment _ (fun r s => (s, Ok (if (r =? 0) && existsb (fun r => negb (r_wrong r =? 0)) (b_results s)
    then 1 else 0))) (fun r => if r =? 0 then code_of (Rs 0) else 0)).
  intros s Hs. split; [|by split]. intros r Hr. destruct (Hs r Hr) as (_ & _ & -> & _). simpl.
  unfold code_of. by destruct (Z.eqb_spec r 0) as [->|].
Qed.

Lemma rows_zero row l : rows row l 0 = row <$> l.
Proof. unfold rows. induction l as [|x l IH]; [done|]. rewrite bind_cons, IH. done. Qed.

Lemma rows_other row l r : r <> 0 -> rows row l r = [].
Proof.
  intros Hr. unfold rows, first_of_size. rewrite (proj2 (Z.eqb_neq r 0)) by done. by induction l.
Qed.

Lemma code_range l : 0 <= code_of l <= 1.
Proof. unfold code_of. destruct (existsb _ l); lia. Qed.
End AgreementFacts.

(** ** The programs as a whole *)

Section Whole.
Context `{BuildConfig} {T : DType -> Type} `{!forall d, Traits (T d)}.
Context (rdma_enabled : bool) (region : string -> Z).
Context (E : Z -> host) (M : Z -> machine) (closed : Z -> bool) (B : Z -> bench_calls T).

Abbreviation in_ring r := (0 <= r < kRanks).

Definition create_of (r device : Z) (requested : TransportKind) : SM process setup :=
  create_communicator_from_mpi rdma_enabled region requested (E r) (M r) (closed r) r device.

(** What the theorem on the creation of a communicator asks for. *)
Record ring_host : Prop := {
  rh_ranks : kRanks < 2 ^ 31;
  rh_ok r : in_ring r -> host_ok (E r);
  rh_close r : in_ring r -> cudaIpcCloseMemHandle (E r) = None;
  rh_free r : in_ring r -> cudaFree (E r) = None;
  rh_timely o : MpiP2p.ready o -> answers E o closed;
  rh_mpi r : in_ring r -> mpi_initialized (M r) = true /\ mpi_finalized (M r) = false /\ mpi_size (M r) = kRanks }.

(** Every call of every rank succeeds. *)
Definition ring_calls (w : WaitMode) : Prop := forall r, in_ring r -> calls_good w (B r).

Context (Hhost : ring_host).

(** The start of the processes: nothing is held, logged or measured. *)
Abbreviation begin := (start (T := T) clean).
Definition released (s : Z -> bench T) : Prop :=
  forall r, in_ring r -> holds_nothing (b_process (s r)) /\ b_held (s r) = [].
(** How a creation fails on all ranks. *)
Definition all_refused (c : BenchConfig) (device : Z -> Z) (s : Z -> bench T) : Prop :=
  blamed rdma_enabled (transport c) E M device /\ released s /\ forall r, in_ring r -> b_log (s r) = [].

(** The transports of the ring, and an edge over RDMA whose FIFO one rank places
    in GPU memory and another in host memory. *)
Definition resolved (c : BenchConfig) (kinds : list TransportKind) : Prop :=
  resolve_interprocess_transports rdma_enabled (node_ids M) (p2p_capable (transport c) E M) (transport c) = Ok kinds.
Definition placements_differ (kinds : list TransportKind) : Prop :=
  exists e r r', in_ring e /\ in_ring r /\ in_ring r' /\ kinds !! Z.to_nat e = Some Rdma /\
    rdma_gdr_enabled (B r) <> rdma_gdr_enabled (B r').
(** The ranks refuse to go on with such an edge. *)
Definition placements_refused (c : BenchConfig) (s : Z -> bench T) : Prop :=
  (exists kinds, resolved c kinds /\ placements_differ kinds) /\ released s /\
  forall r, in_ring r -> b_log (s r) = [].

Lemma resolved_rdma c kinds e : resolved c kinds -> in_ring e -> kinds !! Z.to_nat e = Some Rdma ->
  rdma_enabled = true.
Proof.
  intros Hk He Hr. destruct (proj2 (resolve_interprocess_spec _ _ _ _) kinds Hk) as (_ & Hs & _).
  by destruct (es_rdma _ _ _ _ _ _ (Hs e Rdma (proj1 He) Hr) eq_refl).
Qed.

Lemma gdr_same_spec c kinds : resolved c kinds -> gdr_same B rdma_enabled kinds -> ~ placements_differ kinds.
Proof.
  intros Hk. unfold gdr_same, uses_gdr, edge_uses_gdr.
  intros Hs (e & r & r' & He & Hr & Hr' & Hkind & Hne).
  pose proof (Hs e r He Hr) as H1. pose proof (Hs e r' He Hr') as H2.
  rewrite (resolved_rdma c kinds e Hk He Hkind), bool_decide_eq_true_2 in H1, H2 by done. simpl in *. congruence.
Qed.

Lemma gdr_differ_spec kinds : gdr_differ B rdma_enabled kinds -> placements_differ kinds.
Proof.
  intros (e & r & r' & He & Hr & Hr' & Hne). exists e, r, r'. unfold uses_gdr, edge_uses_gdr in Hne.
  destruct (decide (kinds !! Z.to_nat e = Some Rdma)) as [Hk|Hk].
  - refine (conj He (conj Hr (conj Hr' (conj Hk _)))). intros Heq. by rewrite Heq in Hne.
  - by rewrite bool_decide_eq_false_2 in Hne by done.
Qed.

(** What a run leaves that has measured all sizes. *)
Definition measured (c : BenchConfig) (L : Z -> list (event T)) (Rs : Z -> list BenchResult)
    (s : Z -> bench T) : Prop :=
  (exists kinds, resolved c kinds /\ ~ placements_differ kinds) /\ released s /\
  forall r, in_ring r -> b_log (s r) = L r /\ b_results (s r) = Rs r.

Section Ended.
Context (c : BenchConfig) (device : Z -> Z).

(** The processes after the creation, and what it blames when it fails. *)
Definition all_created (a : Z -> setup) (p : Z -> process) : Prop :=
  exists kinds name pool x, resolved c kinds /\ ~ shares_device M device /\
    (uses_network kinds = true -> forall r, in_ring r -> listens (M r) (x r)) /\
    forall r, in_ring r -> created region closed device kinds name pool x r (a r) (p r).

Lemma all_created_kinds a p : all_created a p ->
  exists kinds, forall r, in_ring r -> edge_kinds (su_topology (a r)) = kinds.
Proof.
  intros (kinds & name & pool & x & _ & _ & _ & Hc). exists kinds. intros r Hr.
  by destruct (Hc r Hr) as (-> & _).
Qed.

Lemma communicating_released kinds p a : communicating all_created kinds p a ->
  resolved c kinds /\ forall r, in_ring r -> holds_nothing (torn_down E closed (listener_closed p) r).
Proof.
  intros [(kinds' & name & pool & x & Hk & _ & _ & Hc) Hkinds]. pose proof kRanks_pos. split.
  - destruct (Hc 0 ltac:(lia)) as (Ht & _). rewrite <- (Hkinds 0 ltac:(lia)), Ht. exact Hk.
  - intros r Hr. by apply (created_released region E closed device (rh_close Hhost) (rh_free Hhost)
      kinds' name pool x r (a r) (p r) Hr (Hc r Hr)).
Qed.

Lemma at_point_released p L Rs s : (forall r, in_ring r -> holds_nothing (p r)) ->
  at_point p L [] Rs s -> released s /\ forall r, in_ring r -> b_log (s r) = L r /\ b_results (s r) = Rs r.
Proof. intros Hp Hs. split; intros r Hr; destruct (Hs r Hr) as (HL & Hh & HR & Hpr); [rewrite Hpr; auto|done]. Qed.
End Ended.

Lemma whole_agrees w c device sizes (run : Z -> SM (bench T) unit) (body : Z -> SM (bench T) Z)
    measure slog row finish o1 o2 message s :
  ring_calls w -> finishes E closed finish ->
  (forall p L Rs ib F, agrees 4 (at_point p L buffers Rs) (fun r => measure r ib) F
     (fun _ => at_point p (fun r => L r ++ slog r ib) buffers (fun r => Rs r ++ first_of_size r (row ib)))) ->
  (forall r s, in_ring r -> body r s = (_ ← run r; exit_code r) s) ->
  (forall r s, in_ring r -> run r s =
     (su ← create_communicator (B r) (E r) (closed r) (create_of r (device r) (transport c));
      unwinding (reset_communicator (E r) (closed r)) (
        _ ← sm_each (compare_gdr (B r) rdma_enabled (edge_kinds (su_topology su)) o1 o2 message) (zrange kRanks);
        _ ← segment (allocate (B r));
        _ ← sm_each (measure r) (imap pair sizes);
        segment (finish r))) s) ->
  begin s ->
  let l := imap pair sizes in
  exists s' code, run_ranks (27 + (2 * Z.to_nat kRanks + 4 * length sizes) + 1)
      ((fun r => try_and_exit (body r) (s r)) <$> ranks) = Some ((fun r => (s' r, code)) <$> ranks) /\
    ((code = code_of (row <$> l) /\ measured c (logged slog l) (rows row l) s') \/
     (code = 1 /\ (all_refused c device s' \/ placements_refused c s'))).
Proof.
  intros Hw Hfinish Hmeasure Hbody Hrun Hs l.
  pose proof (creation_agrees rdma_enabled region (transport c) E M closed device (rh_ok Hhost) (rh_ranks Hhost)
    (rh_close Hhost) (rh_free Hhost) (rh_timely Hhost) (rh_mpi Hhost)) as Hcreate.
  set (refused := fun (_ : exn) p => blamed rdma_enabled (transport c) E M device /\
    forall r, in_ring r -> holds_nothing (p r)) in Hcreate.
  destruct (exit_agrees (27 + (2 * Z.to_nat kRanks + 4 * length sizes)) begin body
    (run_fails B rdma_enabled E closed refused (all_created c device))
    (fun s => exists kinds p a, communicating (all_created c device) kinds p a /\ gdr_same B rdma_enabled kinds /\
       at_point (torn_down E closed (listener_closed p)) (logged slog l) [] (rows row l) s)
    (code_of (row <$> l)) s (code_range _)) as (s' & code & Hr & Hout).
  - rewrite <- (Nat.add_0_r (27 + _)). eapply agrees_ext; [exact Hbody|].
    eapply (agrees_bind (27 + (2 * Z.to_nat kRanks + 4 * length sizes)) 0).
    { eapply agrees_ext; [exact Hrun|].
      apply (run_agrees w B Hw rdma_enabled E closed 27 clean _ _ (all_created c device) Hcreate
        (all_created_kinds c device) measure slog row finish Hfinish Hmeasure). }
    intros a. cbn beta. clear a. apply agrees_exists. intros kinds. apply agrees_exists. intros p.
    apply agrees_exists. intros a. apply agrees_pure. intros Hc. apply agrees_pure. intros Hg.
    eapply agrees_conseq; [apply (exit_code_agrees (torn_down E closed (listener_closed p)) (logged slog l) (rows row l))|lia|done|done|].
    intros a' s' [Ha Hp]. split; [intros r Hr; by rewrite Ha, rows_zero|]. by exists kinds, p, a.
  - exact Hs.
  - exists s', code. split; [exact Hr|].
    destruct Hout as [(-> & kinds & p & a & Hc & Hg & Hp)|(-> & e & [[[Hb Hn] Hp]|(kinds & p & a & Hc & Hg & Hp)])].
    + left. split; [done|]. destruct (communicating_released c device kinds p a Hc) as [Hk Hheld].
      split; [exists kinds; split; [done|by eapply gdr_same_spec]|]. by apply (at_point_released _ _ _ _ Hheld).
    + right. split; [done|]. left. split; [exact Hb|]. destruct (at_point_released _ _ _ _ Hn Hp) as [Hr1 Hr2].
      split; [done|]. intros r Hr'. by destruct (Hr2 r Hr').
    + right. split; [done|]. right. destruct (communicating_released c device kinds p a Hc) as [Hk Hheld].
      split; [|destruct (at_point_released _ _ _ _ Hheld Hp) as [Hr1 Hr2]; split; [done|]; intros r Hr'; by destruct (Hr2 r Hr')].
      exists kinds. split; [done|by apply gdr_differ_spec].
Qed.

Lemma elem_of_sizes (sizes : list Z) size bytes :
  (size, bytes) ∈ imap pair sizes <-> sizes !! size = Some bytes.
Proof.
  rewrite elem_of_lookup_imap. split; [by intros (i & x & [= -> ->] & Hx)|by intros Hx; eauto].
Qed.

Abbreviation invalid := "benchmark selected an invalid CUDA device".

(** The whole of all_reduce_bench, with the comparisons it makes. *)
Lemma all_reduce_main_agrees args c w sizes device s :
  AllReduceOptions.all_reduce_arguments args = Some (c, w) -> ring_calls w ->
  (forall r, in_ring r -> select_device (B r) invalid (M r) c = Ok (device r)) ->
  ar_sizes c = Ok sizes -> begin s ->
  let l := imap pair sizes in
  exists s' code, run_ranks (27 + (2 * Z.to_nat kRanks + 4 * length sizes) + 1)
      ((fun r => all_reduce_main args (B r) r rdma_enabled (E r) (closed r) (M r) (create_of r) (s r)) <$> ranks) =
      Some ((fun r => (s' r, code)) <$> ranks) /\
    ((code = code_of ((fun ib => ar_row B c ib.1 ib.2) <$> l) /\
      measured c (logged (fun r ib => ar_log B c ib.1 ib.2 r) l) (rows (fun ib => ar_row B c ib.1 ib.2) l) s') \/
     (code = 1 /\ (all_refused c device s' \/ placements_refused c s'))).
Proof.
  intros Hp Hw Hdev Hsizes Hs l. unfold all_reduce_main. rewrite Hp.
  apply (whole_agrees w c device sizes
    (fun r => ar_run_typed (B r) r w rdma_enabled (E r) (closed r) (create_of r (device r) (transport c)) (set_device (device r) c))
    _ (fun r => ar_measure (B r) r w c) (fun r ib => ar_log B c ib.1 ib.2 r) (fun ib => ar_row B c ib.1 ib.2)
    (fun r => ar_finish (B r) (E r) (closed r)) "MPI_Allreduce(min GDR placement)" "MPI_Allreduce(max GDR placement)"
    (fun edge => "inconsistent GDR placement across MPI ranks for edge " +:+ pretty edge) s Hw).
  - apply (ar_finishes w B Hw).
  - intros p L Rs [size bytes] F. apply (ar_measure_agrees w B Hw).
  - intros r s0 Hr. unfold ar_main_body. by rewrite Hdev.
  - intros r s0 Hr. unfold ar_run_typed. change (ar_sizes (set_device (device r) c)) with (ar_sizes c).
    by rewrite Hsizes.
  - exact Hs.
Qed.

(** The sizes of collective_bench are whole elements for every rank. *)
Lemma cb_sizes_multiple c sizes bytes : cb_sizes c = Ok sizes -> bytes ∈ sizes ->
  bytes / dtype_size (dtype c) = kRanks * (bytes / dtype_size (dtype c) / kRanks).
Proof.
  intros Hok Hb. unfold cb_sizes in Hok. apply bind_ok in Hok as (u & _ & Hok).
  apply bind_ok in Hok as (u' & Hall%check_all_ok & [= Heq]). rewrite Heq, Forall_forall in Hall.
  specialize (Hall bytes Hb). apply Z.eqb_eq in Hall.
  pose proof kRanks_pos. assert (0 < dtype_size (dtype c)) by by destruct (dtype c).
  apply Z.mod_divide in Hall as [q ->]; [|nia].
  replace (q * (dtype_size (dtype c) * kRanks)) with (q * kRanks * dtype_size (dtype c)) by ring.
  rewrite Z.div_mul, Z.div_mul by lia. ring.
Qed.

(** The whole of collective_bench. *)
Lemma collective_main_agrees args o sizes device s :
  CollectiveOptions.collective_arguments args = Some o -> ring_calls (CollectiveOptions.wait_mode o) ->
  let c := CollectiveOptions.cfg o in
  let x := CollectiveOptions.collective o in
  (forall r, in_ring r -> select_device (B r) "invalid CUDA device" (M r) c = Ok (device r)) ->
  cb_sizes c = Ok sizes -> begin s ->
  let l := imap pair sizes in
  exists s' code, run_ranks (27 + (2 * Z.to_nat kRanks + 4 * length sizes) + 1)
      ((fun r => collective_main args (B r) r rdma_enabled (E r) (closed r) (M r) (create_of r) (s r)) <$> ranks) =
      Some ((fun r => (s' r, code)) <$> ranks) /\
    ((code = code_of ((fun ib => cb_row B c ib.1 ib.2 x) <$> l) /\
      measured c (logged (fun r ib => cb_log B c ib.1 ib.2 x r) l) (rows (fun ib => cb_row B c ib.1 ib.2 x) l) s') \/
     (code = 1 /\ (all_refused c device s' \/ placements_refused c s'))).
Proof.
  intros Hp Hw c x Hdev Hsizes Hs l. unfold collective_main. rewrite Hp. fold c x.
  set (w := CollectiveOptions.wait_mode o) in *.
  apply (whole_agrees w c device sizes
    (fun r => cb_run_typed (B r) r w rdma_enabled (E r) (closed r) (create_of r (device r) (transport c)) x (set_device (device r) c))
    _ (fun r => cb_measure (B r) r w x c) (fun r ib => cb_log B c ib.1 ib.2 x r) (fun ib => cb_row B c ib.1 ib.2 x)
    (fun r => cb_finish (B r) (E r) (closed r)) "MPI_Allreduce(min GDR)" "MPI_Allreduce(max GDR)"
    (fun _ => "inconsistent GDR placement across ranks") s Hw).
  - apply (cb_finishes w B Hw).
  - intros p L Rs [size bytes] F. apply (cb_measure_agrees w B Hw).
  - intros r s0 Hr. unfold cb_main_body. by rewrite Hdev.
  - intros r s0 Hr. unfold cb_run_typed. change (cb_sizes (set_device (device r) c)) with (cb_sizes c).
    by rewrite Hsizes.
  - exact Hs.
Qed.

(** *** What the exit code says *)

Lemma ar_row_right c size bytes :
  r_wrong (ar_row B c size bytes) = 0 <-> forall r, in_ring r -> (ar_local B c size bytes r).1 = 0.
Proof.
  apply (flags_zero Z.add (fun r => (ar_local B c size bytes r).1)); [intros; lia|].
  intros r. unfold ar_local, all_reduce_check.
  destruct (check_output_flag (dtype c) (expected (T := T (dtype c)) (redop c)) f0
    (recv_data (B r) size (dtype c) <$> zrange (bytes / dtype_size (dtype c)))) as [-> | ->]; lia.
Qed.

Lemma cb_row_right c size bytes x :
  r_wrong (cb_row B c size bytes x) = 0 <-> forall r, in_ring r -> (cb_local B c size bytes x r).1 = 0.
Proof.
  apply (flags_zero Z.max (fun r => (cb_local B c size bytes x r).1)); [intros; lia|].
  intros r. unfold cb_local.
  match goal with |- 0 <= (collective_check ?a ?b ?e ?f ?g ?h ?i).1 =>
    destruct (collective_check_spec a b e f g h i) as [[-> | ->] _] end; lia.
Qed.

Lemma code_rows (row : nat * Z -> BenchResult) (sizes : list Z) :
  code_of ((fun ib => row ib) <$> imap pair sizes) = 0 <->
  forall size bytes, sizes !! size = Some bytes -> r_wrong (row (size, bytes)) = 0.
Proof.
  rewrite code_zero. setoid_rewrite list_elem_of_fmap. split.
  - intros Hall size bytes Hs. apply Hall. exists (size, bytes). split; [done|]. by apply elem_of_sizes.
  - intros Hall b ([size bytes] & -> & Hin%elem_of_sizes). by apply Hall.
Qed.

(** The rows of rank 0. *)
Lemma measured_rows c L (row : nat * Z -> BenchResult) l s : measured c L (rows row l) s ->
  measured c L (fun r => if r =? 0 then row <$> l else []) s.
Proof.
  intros (Hk & Hr & Hs). split; [done|]. split; [done|]. intros r Hr'. destruct (Hs r Hr') as [-> ->].
  split; [done|]. destruct (Z.eqb_spec r 0) as [->|Hne]; [apply rows_zero|by apply rows_other].
Qed.

(** The receive buffers of a size are what the AllReduce kernels of all channels
    leave after some run on the inputs of the benchmark. *)
Definition kernels_left `{!forall d, FloatOps (T d)} (c : BenchConfig) (size : nat) (bytes : Z) : Prop :=
  let d := dtype c in
  let count := bytes / dtype_size d in
  exists slot_elems step_elems base out0 fifo0 (st : Z -> sys (T d)),
    (forall ch, 0 <= ch < kChannels -> launch_ok (dtype_size d) count slot_elems step_elems ch /\
       steps_fit (dtype_size d) count slot_elems step_elems ch (base ch)) /\
    channels_ran (d := d) (redop c) slot_elems base out0 fifo0 (fun k _ => rank_value k)
      (fun r ch => ring_simple_kernel (dtype_size d) (KArgs r count slot_elems step_elems) kRanks ch) st /\
    forall r ch x, in_ring r -> 0 <= ch < kChannels ->
      (let pt := cbd_part (dtype_size d) count ch in
       part_offset pt <= x < part_offset pt + part_count pt) ->
      recv_data (B r) size d x = output (rk (st ch) r) x.

(** C39: The benchmark of AllReduce from its command line to its exit code, on
    up to sixteen ranks with the same arguments and a valid device each. When
    no call of a rank fails once the ranks have agreed on a communicator, none
    that releases CUDA IPC memory fails or is late, and the receive buffers
    are what some interleaving of the AllReduce kernels leaves, the ranks meet
    at every collective call and all exit with the same code, in one of three
    ways: code 1, when the creation of the communicator was refused to all of
    them; code 1, before any launch, when two ranks place the FIFO of an RDMA
    edge differently; or code 0, when they do not, for every element type,
    operation, transport and sweep of sizes, with a row without wrong elements
    per size on rank 0 and the launches of every size in the order of the
    program. In all three, no rank is left with a communicator, a stream or a
    buffer, nor with a connection in shared or device memory or a listener. *)
Theorem all_reduce_bench_passes `{!forall d, FloatOps (T d), !forall d, Ieee d (T d)} args c w sizes device s :
  kRanks <= 16 ->
  AllReduceOptions.all_reduce_arguments args = Some (c, w) -> ring_calls w ->
  (forall r, in_ring r -> select_device (B r) invalid (M r) c = Ok (device r)) ->
  ar_sizes c = Ok sizes -> begin s ->
  (forall size bytes, sizes !! size = Some bytes -> kernels_left c size bytes) ->
  exists s' code, run_ranks (27 + (2 * Z.to_nat kRanks + 4 * length sizes) + 1)
      ((fun r => all_reduce_main args (B r) r rdma_enabled (E r) (closed r) (M r) (create_of r) (s r)) <$> ranks) =
      Some ((fun r => (s' r, code)) <$> ranks) /\
    ((code = 0 /\
      (forall size bytes, sizes !! size = Some bytes -> r_wrong (ar_row B c size bytes) = 0) /\
      measured c (fun r => imap pair sizes ≫= (fun ib => ar_log B c ib.1 ib.2 r))
        (fun r => if r =? 0 then (fun ib => ar_row B c ib.1 ib.2) <$> imap pair sizes else []) s') \/
     (code = 1 /\ (all_refused c device s' \/ placements_refused c s'))).
Proof.
  intros H16 Hp Hw Hdev Hsizes Hs Hleft.
  assert (forall size bytes, sizes !! size = Some bytes -> r_wrong (ar_row B c size bytes) = 0) as Hrows.
  { intros size bytes Hsz. apply ar_row_right. intros r Hr.
    destruct (Hleft size bytes Hsz) as (slot_elems & step_elems & base & out0 & fifo0 & st & Hok & Hran & Hrecv).
    apply (all_reduce_accepted (d := dtype c) (redop c) _ slot_elems step_elems base out0 fifo0 st r); auto. }
  destruct (all_reduce_main_agrees args c w sizes device s Hp Hw Hdev Hsizes Hs)
    as (s' & code & Hrun & Hout). exists s', code. split; [exact Hrun|].
  destruct Hout as [[-> Hpoint]|Hout]; [left|by right].
  split; [by apply (code_rows (fun ib => ar_row B c ib.1 ib.2))|]. split; [done|].
  by apply measured_rows.
Qed.

(** The same for the kernels of ReduceScatter and AllGather. *)
Definition dense_left `{!forall d, FloatOps (T d)} (x : Collective) (c : BenchConfig) (size : nat) (bytes : Z) : Prop :=
  let d := dtype c in
  let rank_count := bytes / dtype_size d / kRanks in
  exists slot_elems step_elems base out0 fifo0 (st : Z -> sys (T d)),
    (forall ch, 0 <= ch < kChannels -> dense_ok (dtype_size d) rank_count slot_elems step_elems ch /\
       match x with
       | ReduceScatter => rs_steps_fit (dtype_size d) rank_count slot_elems step_elems ch (base ch)
       | AllGather => ag_steps_fit (dtype_size d) rank_count slot_elems step_elems ch (base ch)
       end) /\
    channels_ran (d := d) (redop c) slot_elems base out0 fifo0 element
      (fun r ch => match x with
         | ReduceScatter => ring_simple_reduce_scatter_kernel (dtype_size d) (KArgs r rank_count slot_elems step_elems) kRanks ch
         | AllGather => ring_simple_all_gather_kernel (dtype_size d) (KArgs r rank_count slot_elems step_elems) kRanks ch
         end) st /\
    forall r ch i, in_ring r -> 0 <= ch < kChannels ->
      0 <= i < (match x with ReduceScatter => rank_count | AllGather => kRanks * rank_count end) ->
      (let '(o, n) := channel_part rank_count ch in o <= i mod rank_count < o + n) ->
      recv_data (B r) size d i = output (rk (st ch) r) i.

(** The benchmark of ReduceScatter, on up to eight ranks, and AllGather from
    its command line to its exit code: it succeeds on all ranks when no call fails
    and the receive buffers are what the kernels leave. *)
Theorem collective_bench_passes `{!forall d, FloatOps (T d), !forall d, Ieee d (T d)} args o sizes device s :
  CollectiveOptions.collective_arguments args = Some o -> ring_calls (CollectiveOptions.wait_mode o) ->
  let c := CollectiveOptions.cfg o in
  let x := CollectiveOptions.collective o in
  (x = ReduceScatter -> kRanks <= 8) ->
  (forall r, in_ring r -> select_device (B r) "invalid CUDA device" (M r) c = Ok (device r)) ->
  cb_sizes c = Ok sizes -> begin s ->
  (forall size bytes, sizes !! size = Some bytes -> dense_left x c size bytes) ->
  exists s' code, run_ranks (27 + (2 * Z.to_nat kRanks + 4 * length sizes) + 1)
      ((fun r => collective_main args (B r) r rdma_enabled (E r) (closed r) (M r) (create_of r) (s r)) <$> ranks) =
      Some ((fun r => (s' r, code)) <$> ranks) /\
    ((code = 0 /\
      (forall size bytes, sizes !! size = Some bytes -> r_wrong (cb_row B c size bytes x) = 0) /\
      measured c (fun r => imap pair sizes ≫= (fun ib => cb_log B c ib.1 ib.2 x r))
        (fun r => if r =? 0 then (fun ib => cb_row B c ib.1 ib.2 x) <$> imap pair sizes else []) s') \/
     (code = 1 /\ (all_refused c device s' \/ placements_refused c s'))).
Proof.
  intros Hp Hw c x H8 Hdev Hsizes Hs Hleft.
  assert (forall size bytes, sizes !! size = Some bytes -> r_wrong (cb_row B c size bytes x) = 0) as Hrows.
  { intros size bytes Hsz. apply cb_row_right. intros r Hr.
    destruct (Hleft size bytes Hsz) as (slot_elems & step_elems & base & out0 & fifo0 & st & Hok & Hran & Hrecv).
    unfold cb_local. replace (match x with ReduceScatter => _ | AllGather => bytes / dtype_size (dtype c) end)
      with (match x with ReduceScatter => bytes / dtype_size (dtype c) / kRanks
                       | AllGather => kRanks * (bytes / dtype_size (dtype c) / kRanks) end).
    - apply (collective_accepted (d := dtype c) (redop c) _ slot_elems step_elems base out0 fifo0 x st r); auto.
    - destruct x; [done|]. symmetry. apply (cb_sizes_multiple c sizes); [done|by eapply list_elem_of_lookup_2]. }
  destruct (collective_main_agrees args o sizes device s Hp Hw Hdev Hsizes Hs)
    as (s' & code & Hrun & Hout). exists s', code. split; [exact Hrun|].
  destruct Hout as [[-> Hpoint]|Hout]; [left|by right].
  split; [by apply (code_rows (fun ib => cb_row B c ib.1 ib.2 x))|]. split; [done|].
  by apply measured_rows.
Qed.
End Whole.

(** ** The arguments of the launches *)

Section Arguments.
Context `{BuildConfig} {T : DType -> Type} (C : bench_calls T) (c : BenchConfig).

(** What [cudaMalloc] and [cudaStreamCreateWithFlags] return for two buffers of
    [top] bytes: addresses inside the address space, disjoint, and a stream. *)
Definition buffers_for (top : Z) : Prop :=
  0 < send_at C /\ send_at C + top <= SIZE_MAX /\ 0 < recv_at C /\ recv_at C + top <= SIZE_MAX /\
  stream_at C <> 0 /\ (send_at C + top <= recv_at C \/ recv_at C + top <= send_at C).

(** A size of a sweep is positive and at most the last one. *)
Lemma size_range min_bytes max_bytes factor b top :
  0 <= min_bytes < 2 ^ 64 -> 0 <= max_bytes < 2 ^ 64 -> factor < 2 ^ 31 ->
  let sizes := make_sizes min_bytes max_bytes factor in
  b ∈ sizes -> last sizes = Some top -> 0 < b <= top.
Proof.
  intros Hmin Hmax Hf sizes [k Hk]%list_elem_of_lookup Htop. rewrite last_lookup in Htop.
  subst sizes. unfold make_sizes in *.
  destruct (Z.eqb_spec min_bytes 0), (Z.ltb_spec max_bytes min_bytes), (Z.ltb_spec factor 2); try done.
  cbn [orb] in Hk, Htop. pose proof (lookup_lt_Some _ _ _ Hk) as Hlt.
  set (l := make_sizes_loop 64 min_bytes max_bytes factor) in *.
  assert (forall j, l !! j = if min_bytes * factor ^ Z.of_nat j <=? max_bytes
    then Some (min_bytes * factor ^ Z.of_nat j) else None) as Hl.
  { intros j. apply make_sizes_loop_lookup; [lia..|]. change (2 ^ Z.of_nat 64) with (2 ^ 64). nia. }
  rewrite Hl in Hk, Htop. destruct (_ <=? _); [|done]. destruct (_ <=? _); [|done].
  injection Hk as <-. injection Htop as <-.
  assert (0 < factor ^ Z.of_nat k) by (apply Z.pow_pos_nonneg; lia).
  pose proof (Z.pow_le_mono_r factor (Z.of_nat k) (Z.of_nat (Nat.pred (length l))) ltac:(lia) ltac:(lia)). nia.
Qed.

Lemma multiple_of b n : 0 < b -> 0 < n -> b mod n = 0 -> 0 < b / n /\ b / n * n = b.
Proof. intros Hb Hn Hm. pose proof (Z.div_mod b n ltac:(lia)). split; nia. Qed.

(** The communicator accepts the arguments of every launch of both programs:
    the counts are positive and the buffers hold the elements of every size, so a
    run of a benchmark never ends in an argument error. *)
Theorem bench_args_valid sizes b top : config_ok c -> b ∈ sizes -> last sizes = Some top -> buffers_for top ->
  (ar_sizes c = Ok sizes ->
   validate_args CAllReduce (ar_args C (dtype c) (redop c) (b / dtype_size (dtype c))) = Ok tt) /\
  (cb_sizes c = Ok sizes -> forall x,
   validate_args (collective_of x) (cb_args C x (dtype c) (redop c) (b / dtype_size (dtype c) / kRanks)) = Ok tt).
Proof.
  intros Hc Hb Htop (Hs0 & Hs & Hr0 & Hr & Hst & Hd). unfold SIZE_MAX in *.
  pose proof kRanks_pos as Hn. assert (0 < dtype_size (dtype c)) as Hsz by by destruct (dtype c).
  assert (sizes = make_sizes (min_bytes c) (max_bytes c) (factor c) -> 0 < b <= top) as Hrange.
  { intros ->. eapply size_range; [apply (co_min c Hc)|apply (co_max c Hc)|apply (co_factor c Hc)|done..]. }
  split.
  - intros Hok. unfold ar_sizes in Hok. apply bind_ok in Hok as (u & _ & Hok).
    apply bind_ok in Hok as (u' & Hall%check_all_ok & [= Heq]).
    specialize (Hrange (eq_sym Heq)). rewrite Heq, Forall_forall in Hall. specialize (Hall b Hb).
    apply Z.eqb_eq in Hall. destruct (multiple_of b _ ltac:(lia) Hsz Hall) as [H1 H2].
    apply validate_args_ok; [split; unfold SIZE_MAX; simpl; nia|].
    simpl. unfold addressable, SIZE_MAX. rewrite H2. lia.
  - intros Hok x. unfold cb_sizes in Hok. apply bind_ok in Hok as (u & _ & Hok).
    apply bind_ok in Hok as (u' & Hall%check_all_ok & [= Heq]).
    specialize (Hrange (eq_sym Heq)). rewrite Heq, Forall_forall in Hall. specialize (Hall b Hb).
    apply Z.eqb_eq in Hall. assert (0 < dtype_size (dtype c) * kRanks) as Hm by (by apply Z.mul_pos_pos).
    destruct (multiple_of b _ (proj1 Hrange) Hm Hall) as [H1 H2].
    rewrite Z.div_div by lia. set (q := b / (dtype_size (dtype c) * kRanks)) in *.
    clearbody q. assert (q * kRanks * dtype_size (dtype c) = b) as H3 by (rewrite <- H2; ring).
    assert (0 < q * dtype_size (dtype c) <= b) as H4 by nia.
    apply validate_args_ok; [split; unfold SIZE_MAX; simpl; nia|].
    destruct x; simpl; unfold addressable, SIZE_MAX; rewrite H3; lia.
Qed.
End Arguments.

(** ** Three ranks *)

Module RunWitness.
Import Hosts SetupWitness BenchWitness.

Definition formats (d : DType) : Type := spec_float.
#[local] Instance format_ops d : FloatOps (formats d) := soft_ops d.
#[local] Instance format_traits d : Traits (formats d) := soft_traits d.
#[local] Instance format_ieee d : Ieee d (formats d) := soft_ieee d.

(** The averages of 40 elements in single precision. *)
Definition args : list string :=
  ["--redop"; "avg"; "-b"; "160"; "-e"; "160"; "-w"; "1"; "-n"; "2"].
Definition config : BenchConfig :=
  set_iters 2 (set_warmup 1 (set_max_bytes 160 (set_min_bytes 160 (set_redop Avg default_bench)))).

(** The stream is busy when first asked. *)
Definition calls (r : Z) : bench_calls formats := {|
  error_string _ := "error"; local_rank_env := Some (if r =? 1 then "1" else "0");
  construct _ := Ok tt; bc_transport := Mixed; rdma_gdr_enabled := false; status _ := cudaSuccess;
  send_at := 4096; recv_at := 8192; stream_at := 1; submit _ _ := Ok tt;
  synchronize _ _ := cudaSuccess; query _ _ k := if (k =? 0)%nat then cudaErrorNotReady else cudaSuccess;
  async_error _ _ _ := Ok tt; polls _ _ := 2%nat;
  clock _ b := if b then 4000000 + 1000 * r else 2000000; recv_data _ _ x := ar_recv r x |}.
Definition fresh_bench (r : Z) : bench formats := Bench (fresh r) [] [] [].

Definition run_all (B : Z -> bench_calls formats) (a : list string) : option (list (bench formats * Z)) :=
  run_ranks 38 ((fun r => all_reduce_main a (B r) r true (good_host r) (in_time r) (machines r)
    (create_of true region good_host machines in_time r) (fresh_bench r)) <$> ranks).
Definition codes (B : Z -> bench_calls formats) (a : list string) : option (list Z) :=
  option_map (map snd) (run_all B a).

Lemma good_calls r : calls_good Query (calls r).
Proof. by split. Qed.

Lemma left_there : kernels_left calls config 0 160.
Proof.
  exists 32, 32, zero_base, BenchWitness.nothing, BenchWitness.nothing, (ran Avg (fun k _ => rank_value k) ar_kernel).
  split; [|split].
  - intros ch Hch. split; [|revert ch Hch; refine (channels2 _ _ _); refine (BenchWitness.three_ranks _ _ _ _); by vm_compute].
    simpl in Hch. split; simpl; try lia; first [by left|by exists 8|by vm_compute].
  - exact (ran_steps Avg _ ar_kernel ar_ended).
  - intros r ch x Hr Hch Hx. change (ar_recv r x = output (rk (ran Avg (fun k _ => rank_value k) ar_kernel ch) r) x). unfold ar_recv.
    rewrite (half ch _ _ x 20 Hch) with (3 := Hx); [done|..];
      revert ch Hch Hx; (refine (channels2 _ _ _); by vm_compute).
Qed.

Lemma run_codes : codes calls args = Some [0; 0; 0].
Proof. vm_compute. reflexivity. Qed.

Lemma all_reduce_bench_passes_witness : exists s',
  run_all calls args = Some ((fun r => (s' r, 0)) <$> ranks) /\
  forall r, 0 <= r < 3 -> length (b_log (s' r)) = 8%nat /\ b_held (s' r) = [] /\ holds_nothing (b_process (s' r)).
Proof.
  assert (ring_host good_host machines in_time) as Hhost
    by (split; [done|intros r Hr; apply good_host_ok; simpl in Hr; lia|done|done|
                intros o Ho; by apply answers_timely|done]).
  destruct (all_reduce_bench_passes (T := formats) true region good_host machines in_time calls Hhost
    args config Query [160] devices fresh_bench) as (s' & code & Hrun & Hout).
  - simpl. lia.
  - by vm_compute.
  - intros r _. apply good_calls.
  - refine (BenchWitness.three_ranks _ _ _ _); by vm_compute.
  - by vm_compute.
  - split; [apply fresh_clean|]. intros r _. by split_and!.
  - intros [|size] bytes Hs; [|by destruct size]. injection Hs as <-. apply left_there.
  - pose proof (eq_trans (eq_sym run_codes) (f_equal (option_map (map snd)) Hrun)) as Hc.
    destruct Hout as [(-> & _ & _ & Hrel & Hall)|[-> _]]; [|discriminate Hc].
    exists s'. split; [exact Hrun|]. intros r Hr. destruct (Hall r Hr) as (HL & _), (Hrel r Hr) as [Hp Hh].
    split; [|by split]. by rewrite HL.
Defined.

Lemma bench_args_valid_witness :
  validate_args CAllReduce (ar_args (calls 1) Float Avg 40) = Ok tt.
Proof.
  apply (bench_args_valid (calls 1) config [160] 160 160); [|by left|done| |by vm_compute].
  - split; simpl; (lia || done).
  - unfold buffers_for. simpl. unfold SIZE_MAX. lia.
Defined.

(** Without an iteration to measure the program divides by zero and still
    reports success; collective_bench refuses the option. *)
Example no_iterations :
  codes calls (args ++ ["-n"; "0"]) = Some [0; 0; 0] /\
  option_map (map (fun o => map r_time_us (b_results o.1))) (run_all calls (args ++ ["-n"; "0"])) =
    Some [[S754_infinity false]; []; []] /\
  CollectiveOptions.collective_arguments ["--collective"; "allgather"; "-n"; "0"] = None.
Proof. vm_compute. done. Qed.

(** Only rank 0 has placed its FIFOs in GPU memory: nobody launches a kernel. *)
Definition one_gdr (r : Z) : bench_calls formats :=
  let C := calls r in
  BenchCalls _ (error_string C) (local_rank_env C) (construct C) (bc_transport C) (r =? 0) (status C)
    (send_at C) (recv_at C) (stream_at C) (submit C) (synchronize C) (query C) (async_error C) (polls C)
    (clock C) (recv_data C).
Example differing_placements :
  option_map (map (fun o => (o.2, b_log o.1))) (run_all one_gdr (args ++ ["--transport"; "rdma"])) =
  Some (replicate 3 (1, [])) /\
  codes one_gdr (args ++ ["--transport"; "socket"]) = Some [0; 0; 0].
Proof. vm_compute. done. Qed.

(** A rank that fails alone leaves the others waiting: it is at the last call
    of the program and they are at another one. *)
Definition lonely (r : Z) : bench_calls formats :=
  let C := calls r in
  BenchCalls _ (error_string C) (local_rank_env C) (construct C) (bc_transport C) (rdma_gdr_enabled C)
    (fun c => match c with CCopyOut _ => if r =? 1 then 700 else cudaSuccess | _ => cudaSuccess end)
    (send_at C) (recv_at C) (stream_at C) (submit C) (synchronize C) (query C) (async_error C) (polls C)
    (clock C) (recv_data C).
Example lonely_failure : codes lonely args = None.
Proof. vm_compute. done. Qed.
End RunWitness.
